(* ===== verification/_CoqProject ===== *)
-Q . S2P
Prelude.v
RecordUtils.v
Scheduler.v
SchedulerGraph.v
SchedulerSystem.v
XorFilter.v
XorPeel.v
MemLog.v
BitUtils.v
Bloom.v
ExecutionPlan.v
DisjointSet.v
ReorderJoins.v
Block.v
Table.v
TableDelete.v
TableUpdate.v
Columns.v
HashJoin.v
Metadata.v
Select.v
Expression.v
Lip.v
MultiwayJoin.v
FilterJoin.v
AggregateSort.v
HashAggregate.v
Aggregate.v
Catalog.v
Resolver.v
Planner.v
Database.v
