(* ===== verification/Prelude.v ===== *)
(** * Hustle: a verification development

    Hustle (C++, under [src/src]) is an in-memory column store driven by SQLite:
    SQLite parses statements and keeps the row store, Hustle mirrors the rows
    into Arrow columns and runs analytical queries as graphs of tasks.  This
    library models the parts of it that carry their own logic, and proves what
    makes them correct.  Everything is executable; [None] in a model is
    undefined behaviour or a failed check ([DCHECK], [assert]), exceptions and
    error codes are values, machine integers are kept at their width.

    ** The program and the files

    - Records.  SQLite stores a row as a header of variable-length integers
      (serial types) followed by the values.  [RecordUtils.v] models the decoder
      ([storage/utils/record_utils.h]) and the encoder of the bundled SQLite:
      modules [Varint], [Serial].
    - Transaction log.  Row changes are appended to one linked list per root page
      and replayed into the tables at commit ([storage/cmemlog.h], [.cc]).
      [MemLog.v]: module [Log] is the code over an explicit heap, [Spec] the
      abstract log (a list of entries per table), [Repr] the representation
      relation, [System] the simulation, [Header] the record headers.  The
      catalog and the tables are the class [Storage]; [Database.v] builds it from
      [Catalog.v] and [Table.v].
    - Blocks and tables.  [Block.v] ([storage/block.h], [.cc], the width
      functions of [storage/utils/util.cc]): columns in byte buffers with offsets
      and a bitmap of valid rows; Arrow's resizable buffers are the class
      [ArrowBuffers].  [Table.v] ([storage/table.h], [.cc]): blocks in a store of
      shared pointers, the insert pool, the map from row ids to rows, deletion and
      update; [TableDelete.v] and [TableUpdate.v] prove the last two.
    - Bits.  [BitUtils.v] ([utils/bit_utils.h]): packing and byte reversal.
    - Scheduler.  [Scheduler.v] ([scheduler/*.h], [scheduler.cc], [worker.cc],
      [task.h]): nodes, tasks, messages, workers and every operation on them;
      [SchedulerGraph.v]: the invariant of the dependency graph;
      [SchedulerSystem.v]: the threads as a step relation (clients, scheduler
      thread, workers, message queues) with its invariant.
    - Plans.  [ExecutionPlan.v] ([execution/execution_plan.h], [.cc],
      [operators/operator.h]): operators and links, and how [execute] turns them
      into scheduler tasks.  [ReorderJoins.v] ([optimizer/reorder_joins]): the
      greedy join order, over [DisjointSet.v] ([utils/disjoint_set_forest.h]);
      [std::priority_queue] is the class [PriorityQueue].
    - Filters.  [XorFilter.v], [XorPeel.v] ([utils/xorfilter.h] and its wrapper):
      both constructions of the xor filter and the proof of the peeling;
      [Bloom.v] ([utils/bloom_filter.h], [blocked_bloom_filter.h],
      [histogram.h]): the two Bloom filters (class [IndexLaw] for what differs),
      their sliding window and the histogram.
    - Operators.  [Columns.v] ([utils/arrow_compute_wrappers.cc],
      [utils/parallel_utils.h]): chunked columns, gathering by indices, batches.
      [HashJoin.v] ([operators/utils/lazy_table], [operator_result],
      [operators/join/hash_join]): lazy tables and the hash join.  [Metadata.v]
      ([storage/ma_block], [storage/metadata_units/sma]): minima and maxima of
      blocks.  [Select.v] ([operators/select], [operators/fused/select_build_hash]):
      predicate trees, the filters of blocks, the selection that builds a hash
      table, and the query of two selections and a join.  [Lip.v]
      ([operators/join/lip], [join_graph]): Bloom filters on the dimensions of a
      star join, over [Bloom.v].  [MultiwayJoin.v] ([operators/join/multiway_join]):
      the joins of several predicates on growing index arrays.  [FilterJoin.v]
      ([operators/fused/filter_join]): LIP and the lookup of the dimension rows in
      one pass.  [Expression.v] ([operators/expression]):
      arithmetic over columns on a stack of shared arrays.  [AggregateSort.v]
      (the ORDER BY clause of [operators/aggregate]), [HashAggregate.v]
      ([hash_aggregate]: two phases of hash maps) and [Aggregate.v] ([aggregate]:
      counters for all combinations of values).  Arrow's kernels are the classes
      [ArrowTake], [ArrowScalar], [ArrowStrings], [ArrowSort], [ArrowAggregate];
      [std::hash] is [StdHash]; the order in which the tasks of an operator run
      and in which a hash map is iterated are arguments of its definition.
    - Statements.  [Catalog.v] ([catalog/*], [api/hustle_db.cc]): schemas and the
      tables of a database.  [Resolver.v] ([resolver/select_resolver], the
      structures of [resolver/cresolver.h]): from the parse tree of a SELECT to
      predicate trees, join predicates and references; the trees are shared
      objects with addresses, since the code compares their pointers.
      [Planner.v] ([resolver/cresolver.cc]): from these to an [ExecutionPlan]; the
      results that operators exchange are addresses.
    - [Prelude.v] (this file): integers at their width, bit operations on packed
      words, sums, and the state-and-exception monad of the storage layer.

    ** What the theorems show

    - Records: the optimised varint decoders equal a reference decoder, decoding
      inverts encoding, the 32-bit variant saturates, lengths and integers of
      serial types are decoded as the format says.
    - Log: the pointer structure refines the abstract log on every sequence of
      changes, commits and rollbacks; headers written by SQLite are parsed back;
      the header loop terminates.
    - Storage: a block refines a list of rows (every accepted record reads back,
      whatever the buffers contain), with the exact capacity overshoot and the
      exact integer each encoding becomes; a table finds every inserted row; a
      deletion leaves exactly the other rows of the block, an update of number
      columns changes exactly their cells.
    - The log and the tables together ([Database.v]): records in the format of
      SQLite that are logged and committed can be read from the columns.
    - Scheduler: in every reachable state dependencies are respected, every task
      runs exactly once, no check fails, quiescence means nothing is left, the
      threads exit drained; plus the races the interface allows.
    - Plans: operators run in dependency order whatever the workers do; the
      disjoint sets compute the equivalence closure of the merges; the join order
      is by cost, rejects exactly cyclic predicates and keeps every join of a
      tree.
    - Filters: constructions of the xor filter return with every key contained;
      Bloom probes are exact up to their cells and never miss.
    - Operators: a selection's bitmaps are the values of its predicate tree, a
      hash join is the nested-loop join of its inputs, the two compose to a query;
      a multiway join is the join of all its tables; LIP keeps every row that
      joins, the fused filter and join pairs it with its dimension rows; an
      expression has the value it denotes and changes no older array (when no
      operator has a column on its left and a result on its right); the aggregates
      output every group once with its aggregate, sorted lexicographically by the
      ORDER BY columns; all for every order of the tasks.
    - Statements: the resolver gives every table a predicate tree equivalent to the
      conjunction of its conjuncts, for the chains of conjuncts that the predicate
      [supported] describes (what happens to others is shown by examples), and
      recognises exactly stars, and paths, of joins; the plan of a resolved
      statement is well formed, and when the scheduler executes it, every operator
      is dispatched after the operators whose results it reads have finished.
    - Several theorems state defects (lost joins, a double free, integers that
      come back wrong, rows lost after a deletion, means of shared groups,
      filters that expressions ignore, ...); they are stated as what the code does.

    ** Bounds and fuel

    Loops that are not structural take fuel: the number of live records for the
    log's chains (a list without cycle has no more nodes), the number of nodes
    for the disjoint sets' parent chains, the header length for the header loop,
    the number of graph nodes for the scheduler's cascade, the number of
    indices for the partition of LIP, one more than the number of combinations
    for the nested loop of the aggregate, the queue length for the join loop, the
    number of predicates for the walk along a chain of joins, 100 attempts for the
    xor filter (the code's own limit) and a potential for its peeling.  In each
    case a theorem shows that the fuel is enough.  The bounds on sizes in the
    hypotheses (2^31 rows, 2^32 bytes) are those of the code's [int] and
    [uint32_t] variables.

    ** Not modelled

    Reading and writing files (the catalog's JSON, CSV input), printing and
    profiling; materialising a result as a table (Arrow builds it); dispatch on
    Arrow types by templates; vendored code, including the parser of SQLite, whose
    parse tree is the input of [Resolver.v].  Allocation by Arrow is assumed to
    succeed; the allocations of the xor filter are arguments.  Of the storage
    layer, insertion of CSV values and of Arrow arrays into a table (the block's
    part is modelled) is open; deletion is proved for columns of eight-byte numbers
    and strings, since the code moves eight bytes per number.

    ** Left open

    Insertion of Arrow arrays into tables; the composition of log and tables for
    deletions and updates, whose parts are proved in [MemLog.v], [TableDelete.v] and
    [TableUpdate.v]. *)

From stdpp Require Import base numbers list gmap strings option.
From Stdlib Require Import ZArith Lia SpecFloat.

Local Open Scope Z_scope.

(** ** Machine integers

    A [w]-bit unsigned value is a [Z] in [0, 2^w); the conversion of an
    arbitrary integer to the type is reduction modulo [2^w].  A signed value is
    a [Z] in [-2^(w-1), 2^(w-1)), and the conversion is two's complement
    reduction (which is what C++20 and every supported compiler do). *)

Definition wrapu (w x : Z) : Z := x mod 2 ^ w.
Definition wraps (w x : Z) : Z := (x + 2 ^ (w - 1)) mod 2 ^ w - 2 ^ (w - 1).

Abbreviation to_u8 := (wrapu 8).
Abbreviation to_u16 := (wrapu 16).
Abbreviation to_u32 := (wrapu 32).
Abbreviation to_u64 := (wrapu 64).
Abbreviation to_i8 := (wraps 8).
Abbreviation to_i32 := (wraps 32).
Abbreviation to_i64 := (wraps 64).

Definition is_u (w x : Z) : Prop := 0 <= x < 2 ^ w.
Definition is_s (w x : Z) : Prop := - 2 ^ (w - 1) <= x < 2 ^ (w - 1).

Abbreviation is_byte := (is_u 8).

(** Shifts of a [w]-bit unsigned operand drop the bits that leave the word. *)
Definition shlu (w a k : Z) : Z := wrapu w (Z.shiftl a k).

(** Signed [int] arithmetic: overflow is undefined behaviour. *)
Definition int_chk (x : Z) : option Z :=
  if (- 2 ^ 31 <=? x) && (x <? 2 ^ 31) then Some x else None.

(** Conversion of an integer to [double]. *)
Definition double_of_Z (z : Z) : spec_float := binary_normalize 53 1024 z 0 false.

Create HintDb hustle.
Create HintDb hustle_rw.

Lemma wrapu_id w x : is_u w x -> wrapu w x = x.
Proof. unfold is_u, wrapu. apply Z.mod_small. Qed.

Lemma wrapu_is_u w x : 0 <= w -> is_u w (wrapu w x).
Proof. intros. apply Z.mod_pos_bound. lia. Qed.

Lemma wraps_id w x : 0 < w -> is_s w x -> wraps w x = x.
Proof.
  unfold is_s, wraps. intros Hw Hx.
  assert (2 ^ w = 2 * 2 ^ (w - 1)) as E.
  { rewrite <- Z.pow_succ_r by lia. f_equal. lia. }
  rewrite Z.mod_small; lia.
Qed.

Lemma wraps_is_s w x : 0 < w -> is_s w (wraps w x).
Proof.
  unfold is_s, wraps. intros Hw.
  assert (2 ^ w = 2 * 2 ^ (w - 1)) as E.
  { rewrite <- Z.pow_succ_r by lia. f_equal. lia. }
  pose proof (Z.mod_pos_bound (x + 2 ^ (w - 1)) (2 ^ w)). lia.
Qed.

Lemma int_chk_id x : is_s 32 x -> int_chk x = Some x.
Proof.
  unfold is_s, int_chk. intros H. change (2 ^ (32 - 1)) with (2 ^ 31) in H.
  rewrite (proj2 (Z.leb_le _ _)), (proj2 (Z.ltb_lt _ _)) by lia. done.
Qed.

#[export] Hint Resolve wrapu_is_u wraps_is_s : hustle.

(** ** Bit operations on words split at a bit position

    C code packs fields with shifts and [|], and unpacks them with [&].  A word
    is written [a * 2^k + b] with [b < 2^k]; the lemmas below push [lor] and
    [land] through that form, so that packed expressions become linear. *)

Lemma land_low_high a b k : 0 <= k -> 0 <= b < 2 ^ k -> Z.land (a * 2 ^ k) b = 0.
Proof.
  intros Hk Hb. apply Z.bits_inj'. intros i Hi.
  rewrite Z.land_spec, Z.bits_0.
  destruct (Z.lt_ge_cases i k).
  - rewrite Z.mul_pow2_bits_low by lia. reflexivity.
  - rewrite <- (Z.mod_small b (2 ^ k)), Z.mod_pow2_bits_high by lia.
    apply andb_false_r.
Qed.

Lemma lor_add a b k : 0 <= k -> 0 <= b < 2 ^ k -> Z.lor (a * 2 ^ k) b = a * 2 ^ k + b.
Proof. intros. symmetry. apply Z.add_nocarry_lor, land_low_high; lia. Qed.

Lemma lor_add_comm a b k : 0 <= k -> 0 <= b < 2 ^ k -> Z.lor b (a * 2 ^ k) = a * 2 ^ k + b.
Proof. intros. rewrite Z.lor_comm. apply lor_add; lia. Qed.

Lemma testbit_split a b k i :
  0 <= k -> 0 <= b < 2 ^ k -> 0 <= i ->
  Z.testbit (a * 2 ^ k + b) i = if i <? k then Z.testbit b i else Z.testbit a (i - k).
Proof.
  intros Hk Hb Hi. rewrite <- lor_add, Z.lor_spec by lia.
  destruct (Z.ltb_spec i k).
  - rewrite Z.mul_pow2_bits_low by lia. reflexivity.
  - rewrite <- (Z.mod_small b (2 ^ k)), Z.mod_pow2_bits_high by lia.
    rewrite Z.mul_pow2_bits by lia. apply orb_false_r.
Qed.

Lemma land_nonneg_lt a b k : 0 <= k -> 0 <= b < 2 ^ k -> 0 <= Z.land a b < 2 ^ k.
Proof.
  intros Hk Hb. assert (Z.land a b = Z.land a b mod 2 ^ k) as ->.
  { apply Z.bits_inj'. intros i Hi. rewrite Z.testbit_mod_pow2 by lia.
    destruct (Z.ltb_spec i k); [reflexivity |]. simpl.
    rewrite Z.land_spec, <- (Z.mod_small b (2 ^ k)), Z.mod_pow2_bits_high by lia.
    apply andb_false_r. }
  apply Z.mod_pos_bound. lia.
Qed.

Lemma land_split a b m n k :
  0 <= k -> 0 <= b < 2 ^ k -> 0 <= n < 2 ^ k ->
  Z.land (a * 2 ^ k + b) (m * 2 ^ k + n) = Z.land a m * 2 ^ k + Z.land b n.
Proof.
  intros Hk Hb Hn. apply Z.bits_inj'. intros i Hi.
  rewrite Z.land_spec, !testbit_split, !Z.land_spec by (try apply land_nonneg_lt; lia).
  destruct (i <? k); reflexivity.
Qed.

Lemma lor_lt a b k : 0 <= k -> 0 <= a < 2 ^ k -> 0 <= b < 2 ^ k -> 0 <= Z.lor a b < 2 ^ k.
Proof.
  intros Hk Ha Hb. assert (Z.lor a b = Z.lor a b mod 2 ^ k) as ->.
  { apply Z.bits_inj'. intros i Hi. rewrite Z.testbit_mod_pow2 by lia.
    destruct (Z.ltb_spec i k); [reflexivity |]. simpl.
    rewrite Z.lor_spec, <- (Z.mod_small a (2 ^ k)), <- (Z.mod_small b (2 ^ k)),
      !Z.mod_pow2_bits_high by lia. reflexivity. }
  apply Z.mod_pos_bound. lia.
Qed.

Lemma ldiff_lt a b k : 0 <= a < 2 ^ k -> 0 <= Z.ldiff a b < 2 ^ k.
Proof.
  intros Ha. assert (0 <= Z.ldiff a b <= a); [| lia]. apply Z.ldiff_le; [lia |].
  apply Z.bits_inj_iff'. intros n Hn. rewrite !Z.ldiff_spec, Z.bits_0. by destruct (Z.testbit a n), (Z.testbit b n).
Qed.

Lemma lor_split a b m n k :
  0 <= k -> 0 <= b < 2 ^ k -> 0 <= n < 2 ^ k ->
  Z.lor (a * 2 ^ k + b) (m * 2 ^ k + n) = Z.lor a m * 2 ^ k + Z.lor b n.
Proof.
  intros Hk Hb Hn. apply Z.bits_inj'. intros i Hi.
  rewrite Z.lor_spec, !testbit_split, !Z.lor_spec by (try apply lor_lt; lia).
  destruct (i <? k); reflexivity.
Qed.

Lemma lxor_lt a b k : 0 <= k -> 0 <= a < 2 ^ k -> 0 <= b < 2 ^ k -> 0 <= Z.lxor a b < 2 ^ k.
Proof.
  intros Hk Ha Hb. assert (Z.lxor a b = Z.lxor a b mod 2 ^ k) as ->.
  { apply Z.bits_inj'. intros i Hi. rewrite Z.testbit_mod_pow2 by lia.
    destruct (Z.ltb_spec i k); [reflexivity |]. simpl.
    rewrite Z.lxor_spec, <- (Z.mod_small a (2 ^ k)), <- (Z.mod_small b (2 ^ k)),
      !Z.mod_pow2_bits_high by lia. reflexivity. }
  apply Z.mod_pos_bound. lia.
Qed.

Lemma land_ones_mod a k n : 0 <= k -> n = Z.ones k -> Z.land a n = a mod 2 ^ k.
Proof. intros ? ->. apply Z.land_ones. lia. Qed.

(** ** Sums *)

Fixpoint zsum (l : list Z) : Z := match l with [] => 0 | x :: l' => x + zsum l' end.

Lemma zsum_cons x l : zsum (x :: l) = x + zsum l.
Proof. done. Qed.

Lemma zsum_app l k : zsum (l ++ k) = zsum l + zsum k.
Proof. induction l as [|x l IH]; [done |]. cbn [zsum app]. lia. Qed.

Lemma zsum_nonneg l : Forall (fun x => 0 <= x) l -> 0 <= zsum l.
Proof. induction 1; [done |]. cbn [zsum]. lia. Qed.

Lemma zsum_insert l i x d : l !! i = Some x -> zsum (<[i := x + d]> l) = zsum l + d.
Proof.
  revert i. induction l as [|y l IH]; intros [|i] E; [done | done | |].
  - injection E as ->. change (x + d + zsum l = x + zsum l + d). lia.
  - change (y + zsum (<[i := x + d]> l) = y + zsum l + d). rewrite (IH i E). lia.
Qed.

Lemma zsum_elem l i x : Forall (Z.le 0) l -> l !! i = Some x -> 0 <= x <= zsum l.
Proof.
  intros HF. revert i. induction HF as [|y l Hy HF IH]; intros [|i]; cbn; intros E; simplify_eq.
  - pose proof (zsum_nonneg l HF). lia.
  - specialize (IH i E). lia.
Qed.

(** ** State and exceptions

    Methods that change an object and may throw: the object afterwards, and
    the exception or the result.  [None] is undefined behaviour. *)

Inductive exn := LogicError | RuntimeError | OutOfRange.

Definition StM (S A : Type) : Type := S -> option (S * (exn + A)).

#[export] Instance StM_ret S : MRet (StM S) := fun A a s => Some (s, inr a).
#[export] Instance StM_bind S : MBind (StM S) := fun A B k m s =>
  match m s with
  | None => None
  | Some (s', inl e) => Some (s', inl e)
  | Some (s', inr a) => k a s'
  end.

Definition throw {S A} (e : exn) : StM S A := fun s => Some (s, inl e).
Definition get {S} : StM S S := fun s => Some (s, inr s).
Definition modify {S} (f : S -> S) : StM S unit := fun s => Some (f s, inr tt).
Definition defined {S A} (x : option A) : StM S A := fun s => a ← x; Some (s, inr a).
Definition or_throw {S A} (x : exn + A) : StM S A := fun s => Some (s, x).

Lemma bind_get {S B} (k : S -> StM S B) s : (get ≫= k) s = k s s.
Proof. done. Qed.

Lemma bind_modify {S B} f (k : unit -> StM S B) s : (modify f ≫= k) s = k tt (f s).
Proof. done. Qed.

Lemma bind_defined {S A B} (x : option A) a (k : A -> StM S B) s : x = Some a -> (defined x ≫= k) s = k a s.
Proof. by intros ->. Qed.

Lemma bind_val {S A B} (m : StM S A) (k : A -> StM S B) s s1 a : m s = Some (s1, inr a) -> (m ≫= k) s = k a s1.
Proof. intros E. unfold mbind, StM_bind. by rewrite E. Qed.

(** One step of the evaluation of a method. *)
Ltac mstep :=
  first [rewrite bind_get | rewrite bind_modify | erewrite bind_defined by eassumption | erewrite bind_val by eassumption];
  cbv beta.
