(* ===== verification/RecordUtils.v ===== *)
(** * SQLite record format: storage/utils/record_utils.h

    Hustle receives rows from SQLite's write path in SQLite's record format: a
    header of variable-length integers ("varints") that gives the serial type
    of each column, followed by the column bodies.  This file models the
    decoder of record_utils.h statement by statement, on 32- and 64-bit words
    kept at their width, and the varint encoder of the bundled SQLite, whose
    output the decoder must accept.

    A buffer is a list of bytes; a read past its end is [None]. *)

From stdpp Require Import base numbers list option.
From Stdlib Require Import ZArith Lia.
From S2P Require Import Prelude.

Local Open Scope Z_scope.

#[local] Ltac Zify.zify_post_hook ::= Z.div_mod_to_equations.

Module Varint.

Definition SLOT_2_0 : Z := 0x001fc07f.
Definition SLOT_4_2_0 : Z := 0xf01fc07f.
Definition SQLITE_MAX_U32 : Z := 2 ^ 32 - 1.

(** [sqlite3GetVarint(p, &v)]: the value stored in [*v] and the number of
    bytes read.  [a], [b], [s] are the routine's three [u32] registers. *)
Definition sqlite3GetVarint (p : list Z) : option (Z * Z) :=
  p0 ← p !! 0%nat;
  if 0 <=? to_i8 p0 then Some (p0, 1) else
  p1 ← p !! 1%nat;
  if 0 <=? to_i8 p1 then Some (Z.lor (shlu 32 (Z.land p0 0x7f) 7) p1, 2) else
  let a := shlu 32 p0 14 in
  let b := p1 in
  p2 ← p !! 2%nat;
  let a := Z.lor a p2 in
  if Z.land a 0x80 =? 0 then
    let a := Z.land a SLOT_2_0 in
    let b := Z.land b 0x7f in
    let b := shlu 32 b 7 in
    let a := Z.lor a b in
    Some (a, 3) else
  let a := Z.land a SLOT_2_0 in
  p3 ← p !! 3%nat;
  let b := shlu 32 b 14 in
  let b := Z.lor b p3 in
  if Z.land b 0x80 =? 0 then
    let b := Z.land b SLOT_2_0 in
    let a := shlu 32 a 7 in
    let a := Z.lor a b in
    Some (a, 4) else
  let b := Z.land b SLOT_2_0 in
  let s := a in
  p4 ← p !! 4%nat;
  let a := shlu 32 a 14 in
  let a := Z.lor a p4 in
  if Z.land a 0x80 =? 0 then
    let b := shlu 32 b 7 in
    let a := Z.lor a b in
    let s := Z.shiftr s 18 in
    Some (Z.lor (shlu 64 s 32) a, 5) else
  let s := shlu 32 s 7 in
  let s := Z.lor s b in
  p5 ← p !! 5%nat;
  let b := shlu 32 b 14 in
  let b := Z.lor b p5 in
  if Z.land b 0x80 =? 0 then
    let a := Z.land a SLOT_2_0 in
    let a := shlu 32 a 7 in
    let a := Z.lor a b in
    let s := Z.shiftr s 18 in
    Some (Z.lor (shlu 64 s 32) a, 6) else
  p6 ← p !! 6%nat;
  let a := shlu 32 a 14 in
  let a := Z.lor a p6 in
  if Z.land a 0x80 =? 0 then
    let a := Z.land a SLOT_4_2_0 in
    let b := Z.land b SLOT_2_0 in
    let b := shlu 32 b 7 in
    let a := Z.lor a b in
    let s := Z.shiftr s 11 in
    Some (Z.lor (shlu 64 s 32) a, 7) else
  let a := Z.land a SLOT_2_0 in
  p7 ← p !! 7%nat;
  let b := shlu 32 b 14 in
  let b := Z.lor b p7 in
  if Z.land b 0x80 =? 0 then
    let b := Z.land b SLOT_4_2_0 in
    let a := shlu 32 a 7 in
    let a := Z.lor a b in
    let s := Z.shiftr s 4 in
    Some (Z.lor (shlu 64 s 32) a, 8) else
  p8 ← p !! 8%nat;
  let a := shlu 32 a 15 in
  let a := Z.lor a p8 in
  let b := Z.land b SLOT_2_0 in
  let b := shlu 32 b 8 in
  let a := Z.lor a b in
  let s := shlu 32 s 4 in
  let b := p4 in
  let b := Z.land b 0x7f in
  let b := Z.shiftr b 3 in
  let s := Z.lor s b in
  Some (Z.lor (shlu 64 s 32) a, 9).

(** [sqlite3GetVarint32(p, &v)].  The one-byte case is compiled out because
    the macro [getVarint32] is defined; the 4-byte and longer cases defer to
    the 64-bit routine and saturate. *)
Definition sqlite3GetVarint32 (p : list Z) : option (Z * Z) :=
  a ← p !! 0%nat;
  b ← p !! 1%nat;
  if Z.land b 0x80 =? 0 then
    let a := Z.land a 0x7f in
    let a := shlu 32 a 7 in
    Some (Z.lor a b, 2) else
  p2 ← p !! 2%nat;
  let a := shlu 32 a 14 in
  let a := Z.lor a p2 in
  if Z.land a 0x80 =? 0 then
    let a := Z.land a (Z.lor (Z.shiftl 0x7f 14) 0x7f) in
    let b := Z.land b 0x7f in
    let b := shlu 32 b 7 in
    Some (Z.lor a b, 3) else
  '(v64, n) ← sqlite3GetVarint p;
  if (3 <? n) && (n <=? 9) then
    if Z.land v64 SQLITE_MAX_U32 =? v64 then Some (to_u32 v64, n)
    else Some (0xffffffff, n)
  else None.

(** The macro [getVarint32(A, B)], which inlines the one-byte case. *)
Definition getVarint32 (p : list Z) : option (Z * Z) :=
  p0 ← p !! 0%nat;
  if p0 <? 0x80 then Some (p0, 1) else sqlite3GetVarint32 p.

(** *** The encoder of the bundled SQLite *)

(** The loop [for(i=7; i>=0; i--){ p[i] = (v & 0x7f) | 0x80; v >>= 7; }]:
    [k] bytes, the most significant first. *)
Fixpoint put_high (k : nat) (v : Z) : list Z :=
  match k with
  | O => []
  | S k' => put_high k' (Z.shiftr v 7) ++ [Z.lor (Z.land v 0x7f) 0x80]
  end.

(** The loop [do { buf[n++] = (v & 0x7f) | 0x80; v >>= 7; } while (v != 0)].
    [fuel] bounds the iterations; 10 suffices for a 64-bit value. *)
Fixpoint put_buf (fuel : nat) (v : Z) : list Z :=
  match fuel with
  | O => []
  | S f =>
      Z.lor (Z.land v 0x7f) 0x80 ::
        (let v := Z.shiftr v 7 in if v =? 0 then [] else put_buf f v)
  end.

Definition putVarint64 (v : Z) : list Z :=
  if negb (Z.land v (shlu 64 0xff000000 32) =? 0) then
    put_high 8 (Z.shiftr v 8) ++ [to_u8 v]
  else
    match put_buf 10 v with
    | [] => []
    | b0 :: buf => rev (Z.land b0 0x7f :: buf)
    end.

Definition sqlite3PutVarint (v : Z) : list Z :=
  if v <=? 0x7f then [Z.land v 0x7f]
  else if v <=? 0x3fff then
    [Z.lor (Z.land (Z.shiftr v 7) 0x7f) 0x80; Z.land v 0x7f]
  else putVarint64 v.

(** *** Reference semantics of the format

    Seven bits per byte, most significant first, the top bit set on every byte
    but the last; the ninth byte, if reached, carries eight bits. *)
Fixpoint varint_ref (k : nat) (acc n : Z) (p : list Z) : option (Z * Z) :=
  match p with
  | [] => None
  | b :: p' =>
      match k with
      | O => Some (acc * 256 + b, n + 1)
      | S k' =>
          if b <? 128 then Some (acc * 128 + b, n + 1)
          else varint_ref k' (acc * 128 + (b - 128)) (n + 1) p'
      end
  end.

Definition varint_spec (p : list Z) : option (Z * Z) := varint_ref 8 0 0 p.

(** *** Register algebra of the decoder *)

Lemma i8_nonneg b : is_byte b -> (0 <=? to_i8 b) = (b <? 128).
Proof.
  unfold is_u, wraps. simpl. intros. 
  destruct (Z.ltb_spec b 128).
  - apply Z.leb_le. lia.
  - apply Z.leb_gt. lia.
Qed.

Lemma shlu_mul w x k : 0 <= k -> shlu w x k = (x * 2 ^ k) mod 2 ^ w.
Proof. intros. unfold shlu, wrapu. rewrite Z.shiftl_mul_pow2 by lia. reflexivity. Qed.

Lemma shlu_pack x k y :
  0 <= k <= 32 -> 0 <= y < 2 ^ k ->
  Z.lor (shlu 32 x k) y = (x mod 2 ^ (32 - k)) * 2 ^ k + y.
Proof.
  intros Hk Hy. rewrite shlu_mul by lia.
  replace (2 ^ 32) with (2 ^ (32 - k) * 2 ^ k) by (rewrite <- Z.pow_add_r by lia; f_equal; lia).
  rewrite Z.mul_mod_distr_r by lia.
  apply lor_add; lia.
Qed.

Lemma mask_2_0 x y :
  0 <= y < 2 ^ 14 ->
  Z.land (x * 2 ^ 14 + y) SLOT_2_0 = (x mod 2 ^ 7) * 2 ^ 14 + y mod 2 ^ 7.
Proof.
  intros Hy. change SLOT_2_0 with (127 * 2 ^ 14 + 127).
  rewrite land_split by lia. rewrite !(land_ones_mod _ 7 127) by (reflexivity || lia). reflexivity.
Qed.

Lemma mask_4_2_0 z x y :
  0 <= x < 2 ^ 14 -> 0 <= y < 2 ^ 14 ->
  Z.land ((z * 2 ^ 14 + x) * 2 ^ 14 + y) SLOT_4_2_0 =
  ((z mod 2 ^ 4) * 2 ^ 14 + x mod 2 ^ 7) * 2 ^ 14 + y mod 2 ^ 7.
Proof.
  intros Hx Hy. change SLOT_4_2_0 with ((15 * 2 ^ 14 + 127) * 2 ^ 14 + 127).
  rewrite !land_split by lia.
  rewrite !(land_ones_mod _ 7 127), (land_ones_mod _ 4 15) by (reflexivity || lia). reflexivity.
Qed.

Lemma flag_bit x y :
  is_byte y -> (Z.land (x * 2 ^ 14 + y) 0x80 =? 0) = (y <? 128).
Proof.
  unfold is_u. intros Hy.
  replace (x * 2 ^ 14 + y) with ((x * 2 ^ 6 * 2 + y / 128) * 2 ^ 7 + y mod 128) by lia.
  change 128 with (1 * 2 ^ 7 + 0) at 3. rewrite land_split by lia.
  rewrite Z.land_0_r, (land_ones_mod _ 1 1) by (reflexivity || lia).
  destruct (Z.ltb_spec y 128); [apply Z.eqb_eq | apply Z.eqb_neq]; lia.
Qed.

Lemma merge7 a b y z :
  0 <= y < 2 ^ 7 -> 0 <= z < 2 ^ 7 ->
  Z.lor (a * 2 ^ 14 + y) (b * 2 ^ 14 + z * 2 ^ 7) = Z.lor a b * 2 ^ 14 + (z * 2 ^ 7 + y).
Proof.
  intros. rewrite lor_split by lia. f_equal. apply lor_add_comm; lia.
Qed.

Lemma join64 s a : 0 <= s < 2 ^ 32 -> 0 <= a < 2 ^ 32 -> Z.lor (shlu 64 s 32) a = s * 2 ^ 32 + a.
Proof.
  intros. rewrite shlu_mul, Z.mod_small by lia. apply lor_add; lia.
Qed.

Ltac byte_lia := unfold is_u in *; lia.

(** A byte with its top bit set is [128 + l]. *)
Lemma mask_high x y :
  0 <= x < 128 -> 0 <= y < 128 ->
  Z.land ((128 + x) * 2 ^ 14 + (128 + y)) SLOT_2_0 = x * 2 ^ 14 + y.
Proof. intros. rewrite mask_2_0 by lia. lia. Qed.

Lemma pack_byte x y :
  0 <= x < 256 -> 0 <= y < 256 -> Z.lor (shlu 32 x 14) y = x * 2 ^ 14 + y.
Proof. intros. rewrite shlu_pack by lia. lia. Qed.

Lemma pack14 x y p :
  0 <= y < 2 ^ 14 -> 0 <= p < 2 ^ 14 ->
  Z.lor (shlu 32 (x * 2 ^ 14 + y) 14) p = ((x mod 16) * 2 ^ 14 + y) * 2 ^ 14 + p.
Proof. intros. rewrite shlu_pack by lia. lia. Qed.

Lemma shl7 x y : 0 <= x < 2 ^ 11 -> 0 <= y < 128 -> 
  shlu 32 (x * 2 ^ 14 + y) 7 = (x * 2 ^ 7) * 2 ^ 14 + y * 2 ^ 7.
Proof. intros. rewrite shlu_mul by lia. lia. Qed.

Lemma merge7_0 a y z :
  0 <= y < 2 ^ 7 -> 0 <= z < 2 ^ 7 ->
  Z.lor (a * 2 ^ 14 + y) (z * 2 ^ 7) = a * 2 ^ 14 + (z * 2 ^ 7 + y).
Proof.
  intros. change (z * 2 ^ 7) with (0 * 2 ^ 14 + z * 2 ^ 7) at 1.
  rewrite merge7, Z.lor_0_r by lia. reflexivity.
Qed.

Lemma merge14 x y z u v :
  0 <= y < 2 ^ 7 -> 0 <= z < 2 ^ 7 -> 0 <= u < 2 ^ 7 -> 0 <= v < 2 ^ 7 ->
  Z.lor ((x * 2 ^ 14 + y) * 2 ^ 14 + z) (u * 2 ^ 7 * 2 ^ 14 + v * 2 ^ 7) =
  (x * 2 ^ 14 + (u * 2 ^ 7 + y)) * 2 ^ 14 + (v * 2 ^ 7 + z).
Proof. intros. rewrite merge7, merge7_0 by lia. reflexivity. Qed.

Lemma pack14_deep w x y p :
  0 <= y < 2 ^ 14 -> 0 <= p < 2 ^ 14 ->
  Z.lor (shlu 32 ((w * 2 ^ 14 + x) * 2 ^ 14 + y) 14) p =
  ((x mod 16) * 2 ^ 14 + y) * 2 ^ 14 + p.
Proof. intros. rewrite pack14 by lia. lia. Qed.

Lemma mask_deep x y z :
  0 <= y < 128 -> 0 <= z < 128 ->
  Z.land ((x * 2 ^ 14 + y) * 2 ^ 14 + (128 + z)) SLOT_2_0 = y * 2 ^ 14 + z.
Proof. intros. rewrite mask_2_0 by lia. lia. Qed.

Lemma mask_deep_high x y z :
  0 <= y < 128 -> 0 <= z < 256 ->
  Z.land ((x * 2 ^ 14 + (128 + y)) * 2 ^ 14 + z) SLOT_2_0 = y * 2 ^ 14 + z mod 128.
Proof. intros. rewrite mask_2_0 by lia. lia. Qed.

Lemma s_register x y z u :
  0 <= y < 128 -> 0 <= z < 128 -> 0 <= u < 128 ->
  Z.lor (x * 2 ^ 7 * 2 ^ 14 + z * 2 ^ 7) (y * 2 ^ 14 + u) =
  (x * 2 ^ 7 + y) * 2 ^ 14 + (z * 2 ^ 7 + u).
Proof.
  intros. rewrite lor_split, !lor_add by lia. reflexivity.
Qed.

Lemma merge_last x y p u v :
  0 <= x < 8 -> 0 <= y < 128 -> 0 <= p < 256 -> 0 <= u < 128 -> 0 <= v < 128 ->
  Z.lor ((x * 2 ^ 14 + y) * 2 ^ 15 + p) (u * 2 ^ 7 * 2 ^ 15 + v * 2 ^ 8) =
  (x * 2 ^ 14 + (u * 2 ^ 7 + y)) * 2 ^ 15 + (v * 2 ^ 8 + p).
Proof. intros. rewrite lor_split, merge7_0, lor_add_comm by lia. reflexivity. Qed.

Ltac next p Hp b H :=
  destruct p as [|b p]; [reflexivity|];
  apply Forall_cons_iff in Hp as [H Hp]; 
  cbn [lookup list_lookup mbind option_bind varint_ref].
Ltac split_byte b l := 
  let E := fresh in
  destruct (Z.ltb_spec b 128) as [?|E]; 
  [ | assert (exists l, b = 128 + l /\ 0 <= l < 128) as (l & -> & ?) by (exists (b - 128); byte_lia); clear E ].

Lemma sqlite3GetVarint_long l0 l1 p :
  0 <= l0 < 128 -> 0 <= l1 < 128 -> Forall is_byte p ->
  sqlite3GetVarint (128 + l0 :: 128 + l1 :: p) = varint_spec (128 + l0 :: 128 + l1 :: p).
Proof.
  intros H0 H1 Hp. 
  unfold sqlite3GetVarint, varint_spec. cbn [lookup list_lookup mbind option_bind varint_ref].
  rewrite !i8_nonneg by (unfold is_u; lia).
  replace (128 + l0 <? 128) with false by lia. replace (128 + l1 <? 128) with false by lia.
  next p Hp p2 Hb2. rewrite pack_byte, flag_bit by byte_lia. 
  split_byte p2 l2.
  { rewrite mask_2_0, (land_ones_mod _ 7 127), shlu_mul, (Z.mod_small (_ * _)), merge7_0
      by (reflexivity || byte_lia). do 2 f_equal. byte_lia. }
  rewrite mask_high by byte_lia.
  next p Hp p3 Hb3. rewrite pack_byte, flag_bit by byte_lia.
  split_byte p3 l3.
  { rewrite mask_2_0, shl7, Z.lor_comm by byte_lia.
    rewrite merge7, (lor_add_comm _ _ 7) by byte_lia.  do 2 f_equal. byte_lia. }
  rewrite mask_high by byte_lia.
  rewrite !shl7 by byte_lia.
  next p Hp p4 Hb4. rewrite pack14, flag_bit by byte_lia.
  split_byte p4 l4.
  { rewrite merge14, Z.shiftr_div_pow2, join64 by byte_lia. do 2 f_equal. byte_lia. }
  rewrite s_register by lia.
  next p Hp p5 Hb5. rewrite pack14, flag_bit by byte_lia.
  rewrite mask_deep, shl7 by lia.
  split_byte p5 l5.
  { rewrite Z.lor_comm, (Z.lor_comm _ (_ + p5)), merge14, Z.shiftr_div_pow2, Z.lor_comm, join64 by byte_lia.
    do 2 f_equal. byte_lia. }
  next p Hp p6 Hb6. rewrite pack14_deep, flag_bit by byte_lia.
  rewrite mask_deep by byte_lia.
  split_byte p6 l6.
  { rewrite mask_4_2_0, shl7, merge14, Z.shiftr_div_pow2, join64 by byte_lia.
    do 2 f_equal. byte_lia. }
  rewrite mask_deep_high by byte_lia.
  next p Hp p7 Hb7. rewrite pack14_deep, flag_bit by byte_lia.
  split_byte p7 l7.
  { rewrite mask_4_2_0, shl7, (Z.lor_comm (_ + _) _), merge14, Z.shiftr_div_pow2, join64 by byte_lia.
    do 2 f_equal. byte_lia. }
  next p Hp p8 Hb8. rewrite mask_deep_high by byte_lia.
  replace ((128 + l6) mod 128) with l6 by lia. replace ((128 + l7) mod 128) with l7 by lia.
  rewrite !shlu_pack, (land_ones_mod _ 7 127), Z.shiftr_div_pow2
    by (reflexivity || rewrite ?(land_ones_mod _ 7 127), ?Z.shiftr_div_pow2 by (reflexivity || lia); byte_lia).
  replace ((l4 * 2 ^ 14 + l6) mod 2 ^ (32 - 15)) with ((l4 mod 8) * 2 ^ 14 + l6) by lia.
  replace (shlu 32 (l5 * 2 ^ 14 + l7) 8) with (l5 * 2 ^ 7 * 2 ^ 15 + l7 * 2 ^ 8) by (rewrite shlu_mul by lia; lia).
  rewrite merge_last, join64 by byte_lia. do 2 f_equal. byte_lia.
Qed.

(** [sqlite3GetVarint] computes the reference semantics on every buffer,
    including its end-of-buffer behaviour. *)
Lemma sqlite3GetVarint_ref p :
  Forall is_byte p -> sqlite3GetVarint p = varint_spec p.
Proof.
  intros Hp. destruct p as [|p0 p]; [reflexivity |].
  apply Forall_cons_iff in Hp as [H0 Hp].
  destruct (Z.ltb_spec p0 128) as [Hlt|Hge].
  { unfold sqlite3GetVarint, varint_spec. cbn [lookup list_lookup mbind option_bind varint_ref].
    rewrite i8_nonneg by done. replace (p0 <? 128) with true by lia. reflexivity. }
  destruct p as [|p1 p].
  { unfold sqlite3GetVarint, varint_spec. cbn [lookup list_lookup mbind option_bind varint_ref].
    rewrite i8_nonneg by done. replace (p0 <? 128) with false by lia. reflexivity. }
  apply Forall_cons_iff in Hp as [H1 Hp].
  destruct (Z.ltb_spec p1 128) as [Hlt1|Hge1].
  { unfold sqlite3GetVarint, varint_spec. cbn [lookup list_lookup mbind option_bind varint_ref].
    rewrite !i8_nonneg by done.
    replace (p0 <? 128) with false by lia. replace (p1 <? 128) with true by lia.
    rewrite (land_ones_mod _ 7 127), shlu_pack by (reflexivity || byte_lia).
    do 2 f_equal. byte_lia. }
  replace p0 with (128 + (p0 - 128)) by lia. replace p1 with (128 + (p1 - 128)) by lia.
  apply sqlite3GetVarint_long; [byte_lia .. | done].
Qed.

(** *** The saturating 32-bit reader *)

Definition saturate32 (v : Z) : Z := if v <? 2 ^ 32 then v else 0xffffffff.

Lemma saturate32_id v : v < 2 ^ 32 -> saturate32 v = v.
Proof. intros. unfold saturate32. replace (v <? 2 ^ 32) with true by lia. reflexivity. Qed.

Lemma flag_byte y : is_byte y -> (Z.land y 0x80 =? 0) = (y <? 128).
Proof. intros. rewrite <- (flag_bit 0 y) by done. f_equal. Qed.

Lemma land_max_u32 v : 0 <= v -> (Z.land v SQLITE_MAX_U32 =? v) = (v <? 2 ^ 32).
Proof.
  intros. rewrite (land_ones_mod _ 32) by (reflexivity || lia).
  destruct (Z.ltb_spec v (2 ^ 32)); [apply Z.eqb_eq | apply Z.eqb_neq]; lia.
Qed.

Lemma varint_ref_high k acc n l p :
  0 <= l -> varint_ref (S k) acc n (128 + l :: p) = varint_ref k (acc * 128 + l) (n + 1) p.
Proof.
  intros. simpl. replace (128 + l <? 128) with false by lia. f_equal. lia.
Qed.

Lemma varint_ref_low k acc n b p :
  b < 128 -> varint_ref (S k) acc n (b :: p) = Some (acc * 128 + b, n + 1).
Proof. intros. simpl. replace (b <? 128) with true by lia. reflexivity. Qed.

Lemma varint_ref_bounds k acc n p v m :
  0 <= acc -> Forall is_byte p -> varint_ref k acc n p = Some (v, m) ->
  0 <= v /\ n < m <= n + Z.of_nat k + 1.
Proof.
  revert acc n p. induction k as [|k IH]; intros acc n [|b p] Hacc Hp E; try done;
    apply Forall_cons_iff in Hp as [Hb Hp]; simpl in E.
  - simplify_eq. byte_lia.
  - destruct (Z.ltb_spec b 128); simplify_eq; [byte_lia |].
    apply IH in E; [byte_lia .. | done].
Qed.

(** Past three bytes the 32-bit reader saturates what the 64-bit one reads. *)
Lemma sqlite3GetVarint32_slow l0 l1 l2 p :
  0 <= l0 < 128 -> 0 <= l1 < 128 -> 0 <= l2 < 128 -> Forall is_byte p ->
  let q := 128 + l0 :: 128 + l1 :: 128 + l2 :: p in
  ('(v64, n) ← varint_spec q;
   if (3 <? n) && (n <=? 9) then
     if Z.land v64 SQLITE_MAX_U32 =? v64 then Some (to_u32 v64, n)
     else Some (0xffffffff, n)
   else None)
  = (fun '(v, n) => (saturate32 v, n)) <$> varint_spec q.
Proof.
  intros H0 H1 H2 Hp q. unfold q, varint_spec. rewrite !varint_ref_high by lia.
  match goal with |- context [varint_ref 5 ?a ?n p] =>
    destruct (varint_ref 5 a n p) as [[v m]|] eqn:E; [| reflexivity] end.
  apply varint_ref_bounds in E; [| lia | done]. simpl.
  replace ((3 <? m) && (m <=? 9)) with true by (symmetry; apply andb_true_iff; lia).
  rewrite land_max_u32 by lia. unfold saturate32.
  destruct (Z.ltb_spec v (2 ^ 32)); [rewrite wrapu_id by byte_lia |]; reflexivity.
Qed.

Lemma getVarint32_ref p :
  Forall is_byte p ->
  getVarint32 p = (fun '(v, n) => (saturate32 v, n)) <$> varint_spec p.
Proof.
  intros Hp. pose proof Hp as Hall. unfold getVarint32, sqlite3GetVarint32.
  rewrite sqlite3GetVarint_ref by done.
  destruct p as [|p0 p]; [reflexivity |]. apply Forall_cons_iff in Hp as [Hb0 Hp].
  cbn [lookup list_lookup mbind option_bind].
  split_byte p0 l0; [simpl | ].
  { unfold varint_spec. rewrite varint_ref_low by lia. simpl. rewrite saturate32_id by byte_lia. reflexivity. }
  destruct p as [|p1 p]; [unfold varint_spec; rewrite varint_ref_high by lia; reflexivity |]. apply Forall_cons_iff in Hp as [Hb1 Hp].
  cbn [lookup list_lookup mbind option_bind]. rewrite flag_byte by done.
  split_byte p1 l1.
  { unfold varint_spec. rewrite varint_ref_high, varint_ref_low by lia. simpl.
    rewrite (land_ones_mod _ 7 127), shlu_pack by (reflexivity || byte_lia).
    rewrite saturate32_id by byte_lia. do 2 f_equal. byte_lia. }
  destruct p as [|p2 p]; [unfold varint_spec; rewrite !varint_ref_high by lia; reflexivity |]. apply Forall_cons_iff in Hp as [Hb2 Hp].
  cbn [lookup list_lookup mbind option_bind]. rewrite pack_byte, flag_bit by byte_lia.
  split_byte p2 l2; [| apply sqlite3GetVarint32_slow; done].
  unfold varint_spec. rewrite !varint_ref_high, varint_ref_low by lia. simpl.
  change (Z.lor (Z.shiftl 127 14) 127) with SLOT_2_0.
  rewrite mask_2_0, (land_ones_mod _ 7 127), shlu_mul, (Z.mod_small (_ * _)), merge7_0
    by (reflexivity || byte_lia).
  rewrite saturate32_id by byte_lia. do 2 f_equal. byte_lia.
Qed.

(** *** Encoding followed by decoding *)

(** The value of a big-endian list of base-128 digits. *)
Definition digits_val (acc : Z) (ds : list Z) : Z := foldl (fun a d => a * 128 + d) acc ds.

Definition is_digit (d : Z) : Prop := 0 <= d < 128.

Lemma varint_ref_digits ds k acc n p :
  Forall is_digit ds -> (length ds <= k)%nat ->
  varint_ref k acc n (map (Z.add 128) ds ++ p) =
  varint_ref (k - length ds) (digits_val acc ds) (n + Z.of_nat (length ds)) p.
Proof.
  revert k acc n. induction ds as [|d ds IH]; intros k acc n Hds Hk; simpl.
  { rewrite Nat.sub_0_r, Z.add_0_r. reflexivity. }
  apply Forall_cons_iff in Hds as [Hd Hds]. destruct k as [|k]; simpl in *; [lia |].
  unfold is_digit in Hd. replace (128 + d <? 128) with false by lia.
  rewrite IH by (done || lia). f_equal; [| lia]. f_equal. lia.
Qed.

Lemma cont_byte v : Z.lor (Z.land v 0x7f) 0x80 = 128 + v mod 128.
Proof.
  rewrite (land_ones_mod _ 7 127) by (reflexivity || lia).
  change 128 with (1 * 2 ^ 7) at 1. rewrite lor_add_comm by lia. lia.
Qed.

Lemma digits_val_snoc acc ds d : digits_val acc (ds ++ [d]) = digits_val acc ds * 128 + d.
Proof. unfold digits_val. rewrite foldl_app. reflexivity. Qed.

Lemma put_high_digits k v :
  0 <= v -> exists ds,
  put_high k v = map (Z.add 128) ds /\ Forall is_digit ds /\ length ds = k /\
  digits_val 0 ds = v mod 128 ^ Z.of_nat k.
Proof.
  revert v. induction k as [|k IH]; intros v Hv.
  { exists []. rewrite Z.mod_1_r. repeat split; constructor. }
  destruct (IH (Z.shiftr v 7)) as (ds & E & Hds & Hl & Hval).
  { rewrite Z.shiftr_nonneg. lia. }
  exists (ds ++ [v mod 128]). simpl. rewrite E, cont_byte, map_app, length_app, Hl.
  repeat split.
  - apply Forall_app. split; [done |]. repeat constructor; unfold is_digit; lia.
  - simpl; lia.
  - rewrite digits_val_snoc, Hval, Nat2Z.inj_succ, Z.pow_succ_r by lia.
    rewrite Z.shiftr_div_pow2 by lia. change (2 ^ 7) with 128.
    assert (0 < 128 ^ Z.of_nat k) by (apply Z.pow_pos_nonneg; lia).
    rewrite Z.rem_mul_r by lia. ring.
Qed.

Lemma put_buf_S f v :
  put_buf (S f) v =
  Z.lor (Z.land v 0x7f) 0x80 ::
    (if Z.shiftr v 7 =? 0 then [] else put_buf f (Z.shiftr v 7)).
Proof. reflexivity. Qed.

Lemma put_buf_digits m fuel v :
  (m < fuel)%nat -> 0 <= v < 128 ^ Z.of_nat (S m) -> exists ds,
  rev (put_buf fuel v) = map (Z.add 128) ds /\ Forall is_digit ds /\
  (length ds <= S m)%nat /\ length ds = length (put_buf fuel v) /\ digits_val 0 ds = v.
Proof.
  revert fuel v. induction m as [|m IH]; intros [|fuel] v Hf Hv; try lia.
  - exists [v]. simpl in *. rewrite cont_byte, Z.shiftr_div_pow2 by lia.
    replace (v / 2 ^ 7 =? 0) with true by lia. simpl.
    repeat split; try (f_equal; lia); try lia.
    repeat constructor; unfold is_digit; lia.
  - rewrite put_buf_S, cont_byte, Z.shiftr_div_pow2 by lia.
    destruct (Z.eqb_spec (v / 2 ^ 7) 0) as [E|E].
    + exists [v]. simpl. repeat split; try (f_equal; lia); try lia.
      repeat constructor; unfold is_digit; lia.
    + destruct (IH fuel (v / 2 ^ 7)) as (ds & Er & Hds & Hl & Hl' & Hval); [lia | |].
      { rewrite Nat2Z.inj_succ, Z.pow_succ_r in Hv by lia.
        split; [| apply Z.div_lt_upper_bound]; lia. }
      exists (ds ++ [v mod 128]). simpl. rewrite Er, map_app, length_app, digits_val_snoc, Hval.
      repeat split; simpl; try lia.
      apply Forall_app. split; [done |]. repeat constructor; unfold is_digit; lia.
Qed.

Lemma land_top_byte v :
  0 <= v < 2 ^ 64 -> (Z.land v (shlu 64 0xff000000 32) =? 0) = (v <? 2 ^ 56).
Proof.
  intros Hv. change (shlu 64 0xff000000 32) with (255 * 2 ^ 56 + 0).
  replace v with (v / 2 ^ 56 * 2 ^ 56 + v mod 2 ^ 56) at 1 by lia.
  rewrite land_split, Z.land_0_r, (land_ones_mod _ 8 255) by (reflexivity || lia).
  destruct (Z.ltb_spec v (2 ^ 56)); [apply Z.eqb_eq | apply Z.eqb_neq]; lia.
Qed.

Lemma putVarint64_ref v rest :
  0x3fff < v < 2 ^ 64 ->
  varint_spec (putVarint64 v ++ rest) = Some (v, Z.of_nat (length (putVarint64 v))).
Proof.
  intros Hv. unfold putVarint64, varint_spec. rewrite land_top_byte by lia.
  destruct (Z.ltb_spec v (2 ^ 56)) as [Hlt|Hge]; cbn [negb].
  - rewrite (put_buf_S 9), Z.shiftr_div_pow2 by lia.
    replace (v / 2 ^ 7 =? 0) with false by lia.
    destruct (put_buf_digits 6 9 (v / 2 ^ 7)) as (ds & E & Hds & Hl & Hl' & Hval);
      [lia | split; [lia | apply Z.div_lt_upper_bound; lia] |].
    rewrite cont_byte. cbn [rev]. rewrite E, length_app, length_map, <- app_assoc.
    rewrite varint_ref_digits, Hval by (done || lia).
    replace (8 - length ds)%nat with (S (7 - length ds)) by lia.
    rewrite (land_ones_mod _ 7 127) by (reflexivity || lia). simpl app.
    rewrite varint_ref_low by lia. simpl length. do 2 f_equal; lia.
  - destruct (put_high_digits 8 (Z.shiftr v 8)) as (ds & E & Hds & Hl & Hval).
    { rewrite Z.shiftr_nonneg. lia. }
    rewrite E, length_app, length_map, Hl, <- app_assoc.
    rewrite varint_ref_digits, Hval, Hl by (done || lia). simpl.
    unfold wrapu. rewrite Z.shiftr_div_pow2 by lia.
    rewrite (Z.mod_small (v / 2 ^ 8)) by (split; [lia | apply Z.div_lt_upper_bound; lia]).
    do 2 f_equal. lia.
Qed.

Lemma sqlite3PutVarint_ref v rest :
  0 <= v < 2 ^ 64 ->
  varint_spec (sqlite3PutVarint v ++ rest) = Some (v, Z.of_nat (length (sqlite3PutVarint v))).
Proof.
  intros Hv. unfold sqlite3PutVarint.
  destruct (Z.leb_spec v 0x7f); [| destruct (Z.leb_spec v 0x3fff)].
  - rewrite (land_ones_mod _ 7 127) by (reflexivity || lia). unfold varint_spec. simpl app.
    rewrite varint_ref_low by lia. do 2 f_equal. lia.
  - rewrite cont_byte, (land_ones_mod _ 7 127), Z.shiftr_div_pow2 by (reflexivity || lia).
    unfold varint_spec. simpl app. rewrite varint_ref_high, varint_ref_low by lia.
    do 2 f_equal. lia.
  - apply putVarint64_ref. lia.
Qed.

Lemma digits_bytes ds : Forall is_digit ds -> Forall is_byte (map (Z.add 128) ds).
Proof.
  intros H. apply Forall_map. revert H. apply Forall_impl.
  unfold is_digit. intros d Hd. simpl. byte_lia.
Qed.

Lemma sqlite3PutVarint_bytes v : 0 <= v < 2 ^ 64 -> Forall is_byte (sqlite3PutVarint v).
Proof.
  intros Hv. unfold sqlite3PutVarint, putVarint64. rewrite land_top_byte by lia.
  rewrite !cont_byte, !(land_ones_mod _ 7 127), Z.shiftr_div_pow2 by (reflexivity || lia).
  destruct (v <=? 0x7f); [repeat constructor; byte_lia |].
  destruct (v <=? 0x3fff); [repeat constructor; byte_lia |].
  destruct (Z.ltb_spec v (2 ^ 56)) as [Hlt|Hge]; cbn [negb].
  - rewrite (put_buf_S 9), Z.shiftr_div_pow2 by lia.
    destruct (v / 2 ^ 7 =? 0); cbn [rev].
    { repeat constructor; rewrite (land_ones_mod _ 7 127) by (reflexivity || lia); byte_lia. }
    destruct (put_buf_digits 6 9 (v / 2 ^ 7)) as (ds & E & Hds & _);
      [lia | split; [lia | apply Z.div_lt_upper_bound; lia] |].
    rewrite E. apply Forall_app. split; [by apply digits_bytes |].
    repeat constructor; rewrite (land_ones_mod _ 7 127) by (reflexivity || lia); byte_lia.
  - destruct (put_high_digits 8 (v / 2 ^ 8)) as (ds & E & Hds & _); [lia |].
    rewrite Z.shiftr_div_pow2, E by lia. apply Forall_app. split; [by apply digits_bytes |].
    repeat constructor; unfold wrapu; byte_lia.
Qed.
End Varint.

(** ** Serial types and column values *)

Module Serial.

(** The sizes for serial types less than 128. *)
Definition smallTypeSizes : list Z :=
  [ 0;  1;  2;  3;  4;  6;  8;  8;  0;  0;
    0;  0;  0;  0;  1;  1;  2;  2;  3;  3;
    4;  4;  5;  5;  6;  6;  7;  7;  8;  8;
    9;  9; 10; 10; 11; 11; 12; 12; 13; 13;
   14; 14; 15; 15; 16; 16; 17; 17; 18; 18;
   19; 19; 20; 20; 21; 21; 22; 22; 23; 23;
   24; 24; 25; 25; 26; 26; 27; 27; 28; 28;
   29; 29; 30; 30; 31; 31; 32; 32; 33; 33;
   34; 34; 35; 35; 36; 36; 37; 37; 38; 38;
   39; 39; 40; 40; 41; 41; 42; 42; 43; 43;
   44; 44; 45; 45; 46; 46; 47; 47; 48; 48;
   49; 49; 50; 50; 51; 51; 52; 52; 53; 53;
   54; 54; 55; 55; 56; 56; 57; 57 ].

(** [serialTypeLen]: [None] is a failed [assert]. *)
Definition serialTypeLen (serial_type : Z) : option Z :=
  if 128 <=? serial_type then Some (wrapu 32 (serial_type - 12) / 2)
  else
    sz ← smallTypeSizes !! Z.to_nat serial_type;
    if (serial_type <? 12) || (sz =? wrapu 32 (serial_type - 12) / 2) then Some sz
    else None.

Definition ONE_BYTE_INT (x0 : Z) : Z := to_i8 x0.
Definition TWO_BYTE_INT (x0 x1 : Z) : Z := Z.lor (256 * to_i8 x0) x1.
Definition THREE_BYTE_INT (x0 x1 x2 : Z) : Z :=
  Z.lor (Z.lor (65536 * to_i8 x0) (Z.shiftl x1 8)) x2.
Definition FOUR_BYTE_UINT (x0 x1 x2 x3 : Z) : Z :=
  Z.lor (Z.lor (Z.lor (shlu 32 x0 24) (Z.shiftl x1 16)) (Z.shiftl x2 8)) x3.
Definition FOUR_BYTE_INT (x0 x1 x2 x3 : Z) : Z :=
  Z.lor (Z.lor (Z.lor (16777216 * to_i8 x0) (Z.shiftl x1 16)) (Z.shiftl x2 8)) x3.

Definition EXP754 : Z := Z.shiftl 0x7ff 52.
Definition MAN754 : Z := Z.shiftl 1 52 - 1.
Definition IsNaN (x : Z) : bool :=
  (Z.land x EXP754 =? EXP754) && negb (Z.land x MAN754 =? 0).

Definition VAL_Null : Z := 0x0001.
Definition VAL_Str : Z := 0x0002.
Definition VAL_Int : Z := 0x0004.
Definition VAL_Real : Z := 0x0008.
Definition VAL_Blob : Z := 0x0010.
Definition VAL_Ephem : Z := 0x1000.

(** [struct RecordValue].  [val_array] is the ephemeral pointer into the
    record buffer, kept as the bytes from there on; [real_val] is the double's
    bit pattern. *)
Record RecordValue := mkRecordValue {
  val_array : list Z;
  val : Z;
  flags : Z;
  real_val : Z;
  n : Z;
}.

Definition set_int (v : Z) (r : RecordValue) : RecordValue :=
  mkRecordValue (val_array r) v VAL_Int (real_val r) (n r).
Definition set_flags (f : Z) (r : RecordValue) : RecordValue :=
  mkRecordValue (val_array r) (val r) f (real_val r) (n r).
Definition set_real (x : Z) (r : RecordValue) : RecordValue :=
  mkRecordValue (val_array r) (val r) (if IsNaN x then VAL_Null else VAL_Real) x (n r).
Definition set_array (buf : list Z) (size f : Z) (r : RecordValue) : RecordValue :=
  mkRecordValue buf (val r) f (real_val r) size.

(** [serialGetReal]: serial types 6 and 7.  [record_val] is [None] for a null
    pointer.  The buffer is read even then. *)
Definition serialGetReal (buf : list Z) (serial_type : Z)
    (record_val : option RecordValue) : option (Z * option RecordValue) :=
  b0 ← buf !! 0%nat; b1 ← buf !! 1%nat; b2 ← buf !! 2%nat; b3 ← buf !! 3%nat;
  b4 ← buf !! 4%nat; b5 ← buf !! 5%nat; b6 ← buf !! 6%nat; b7 ← buf !! 7%nat;
  let x := FOUR_BYTE_UINT b0 b1 b2 b3 in
  let y := FOUR_BYTE_UINT b4 b5 b6 b7 in
  let x := to_u64 (shlu 64 x 32 + y) in
  if serial_type =? 6 then Some (8, set_int (to_i64 x) <$> record_val)
  else Some (8, set_real x <$> record_val).

(** [recordSerialGet]: the number of bytes consumed and the updated cell. *)
Definition recordSerialGet (buf : list Z) (serial_type : Z)
    (record_val : option RecordValue) : option (Z * option RecordValue) :=
  match serial_type with
  | 10 => Some (0, record_val)
  | 11 | 0 => Some (0, set_flags VAL_Null <$> record_val)
  | 1 =>
      match record_val with
      | None => Some (1, None)
      | Some r => b0 ← buf !! 0%nat; Some (1, Some (set_int (ONE_BYTE_INT b0) r))
      end
  | 2 =>
      match record_val with
      | None => Some (2, None)
      | Some r =>
          b0 ← buf !! 0%nat; b1 ← buf !! 1%nat;
          Some (2, Some (set_int (TWO_BYTE_INT b0 b1) r))
      end
  | 3 =>
      match record_val with
      | None => Some (3, None)
      | Some r =>
          b0 ← buf !! 0%nat; b1 ← buf !! 1%nat; b2 ← buf !! 2%nat;
          Some (3, Some (set_int (THREE_BYTE_INT b0 b1 b2) r))
      end
  | 4 =>
      match record_val with
      | None => Some (4, None)
      | Some r =>
          b0 ← buf !! 0%nat; b1 ← buf !! 1%nat; b2 ← buf !! 2%nat; b3 ← buf !! 3%nat;
          Some (4, Some (set_int (FOUR_BYTE_INT b0 b1 b2 b3) r))
      end
  | 5 =>
      match record_val with
      | None => Some (6, None)
      | Some r =>
          b0 ← buf !! 0%nat; b1 ← buf !! 1%nat; b2 ← buf !! 2%nat; b3 ← buf !! 3%nat;
          b4 ← buf !! 4%nat; b5 ← buf !! 5%nat;
          Some (6, Some (set_int
            (FOUR_BYTE_UINT b2 b3 b4 b5 + 2 ^ 32 * TWO_BYTE_INT b0 b1) r))
      end
  | 6 | 7 => serialGetReal buf serial_type record_val
  | 8 | 9 => Some (0, set_int (serial_type - 8) <$> record_val)
  | _ =>
      let str_size := to_i32 (wrapu 32 (serial_type - 12) / 2) in
      let flag := if Z.land serial_type 1 =? 0 then Z.lor VAL_Blob VAL_Ephem
                  else Z.lor VAL_Str VAL_Ephem in
      Some (to_u32 str_size, set_array buf str_size flag <$> record_val)
  end.

(** *** Reference semantics *)

(** The big-endian two's complement integer held by a list of bytes. *)
Definition be_unsigned (bs : list Z) : Z := foldl (fun a b => a * 256 + b) 0 bs.
Definition be_signed (bs : list Z) : Z := wraps (8 * Z.of_nat (length bs)) (be_unsigned bs).

(** The integer SQLite's file format assigns to serial types 1-6, 8 and 9. *)
Definition serial_int (serial_type : Z) (buf : list Z) : option Z :=
  match serial_type with
  | 1 => Some (be_signed (take 1 buf))
  | 2 => Some (be_signed (take 2 buf))
  | 3 => Some (be_signed (take 3 buf))
  | 4 => Some (be_signed (take 4 buf))
  | 5 => Some (be_signed (take 6 buf))
  | 6 => Some (be_signed (take 8 buf))
  | 8 => Some 0
  | 9 => Some 1
  | _ => None
  end.

(** *** Lemmas *)

Lemma small_types_consistent :
  forallb (fun t => match smallTypeSizes !! t with
                    | Some sz => (Z.of_nat t <? 12) || (sz =? wrapu 32 (Z.of_nat t - 12) / 2)
                    | None => false
                    end) (seq 0 128) = true.
Proof. vm_compute. reflexivity. Qed.

(** The assertion in [serialTypeLen] never fails. *)
Lemma serialTypeLen_total t :
  is_u 32 t -> exists sz, serialTypeLen t = Some sz /\ 0 <= sz /\
    (12 <= t -> sz = (t - 12) / 2).
Proof.
  intros Ht. unfold is_u in Ht. unfold serialTypeLen.
  destruct (Z.leb_spec 128 t).
  { eexists. split; [reflexivity |]. unfold wrapu. lia. }
  pose proof small_types_consistent as Hall. rewrite forallb_forall in Hall.
  specialize (Hall (Z.to_nat t) ltac:(apply in_seq; lia)).
  destruct (smallTypeSizes !! Z.to_nat t) as [sz|] eqn:E; [| done].
  cbn [mbind option_bind]. rewrite Z2Nat.id in Hall by lia. rewrite Hall.
  exists sz. split; [done |]. split.
  - assert (Forall (fun x => 0 <= x) smallTypeSizes) as HF by (repeat constructor; lia).
    rewrite Forall_lookup in HF. eauto.
  - intros. apply orb_true_iff in Hall as [?|Heq]; [lia |].
    apply Z.eqb_eq in Heq. rewrite Heq. unfold wrapu. lia.
Qed.

Lemma recordSerialGet_default buf t rv :
  12 <= t ->
  recordSerialGet buf t rv =
  (let str_size := to_i32 (wrapu 32 (t - 12) / 2) in
   let flag := if Z.land t 1 =? 0 then Z.lor VAL_Blob VAL_Ephem
               else Z.lor VAL_Str VAL_Ephem in
   Some (to_u32 str_size, set_array buf str_size flag <$> rv)).
Proof.
  intros. destruct t as [|p|p]; try lia.
  do 4 (destruct p as [p|p|]; try lia); reflexivity.
Qed.

(** Split off the bytes that the fixed-width cases read. *)
Ltac take_bytes buf Hb :=
  repeat match goal with
  | H : (S _ <= length buf)%nat |- _ =>
      let b := fresh "b" in let Hb' := fresh "Hb" in
      destruct buf as [|b buf]; [simpl in H; lia |];
      apply Forall_cons_iff in Hb as [Hb' Hb]; simpl in H; apply le_S_n in H
  end.

Ltac byte_lia' := unfold is_u, wraps, wrapu in *; simpl length in *; simpl Z.mul in *; lia.

Lemma two_byte_int x0 x1 : is_byte x0 -> is_byte x1 ->
  TWO_BYTE_INT x0 x1 = be_signed [x0; x1].
Proof.
  intros. unfold TWO_BYTE_INT. rewrite Z.mul_comm, (lor_add _ _ 8) by byte_lia'.
  unfold be_signed, be_unsigned. simpl foldl. byte_lia'.
Qed.

Lemma three_byte_int x0 x1 x2 : is_byte x0 -> is_byte x1 -> is_byte x2 ->
  THREE_BYTE_INT x0 x1 x2 = be_signed [x0; x1; x2].
Proof.
  intros. unfold THREE_BYTE_INT. rewrite Z.shiftl_mul_pow2 by lia.
  rewrite Z.mul_comm, (lor_add _ _ 16) by byte_lia'.
  replace (to_i8 x0 * 2 ^ 16 + x1 * 2 ^ 8) with ((to_i8 x0 * 2 ^ 8 + x1) * 2 ^ 8) by lia.
  rewrite lor_add by byte_lia'. unfold be_signed, be_unsigned. simpl foldl. byte_lia'.
Qed.

(** The last three bytes of the four-byte macros. *)
Lemma four_byte_low h x1 x2 x3 : is_byte x1 -> is_byte x2 -> is_byte x3 ->
  Z.lor (Z.lor (Z.lor (h * 2 ^ 24) (Z.shiftl x1 16)) (Z.shiftl x2 8)) x3 =
  ((h * 256 + x1) * 256 + x2) * 256 + x3.
Proof.
  intros. rewrite !Z.shiftl_mul_pow2 by lia.
  rewrite (lor_add h _ 24) by byte_lia'.
  replace (h * 2 ^ 24 + x1 * 2 ^ 16) with ((h * 2 ^ 8 + x1) * 2 ^ 16) by lia.
  rewrite lor_add by byte_lia'.
  replace (_ * 2 ^ 16 + x2 * 2 ^ 8) with (((h * 2 ^ 8 + x1) * 2 ^ 8 + x2) * 2 ^ 8) by lia.
  rewrite lor_add by byte_lia'. lia.
Qed.

Lemma four_byte_int x0 x1 x2 x3 : is_byte x0 -> is_byte x1 -> is_byte x2 -> is_byte x3 ->
  FOUR_BYTE_INT x0 x1 x2 x3 = be_signed [x0; x1; x2; x3].
Proof.
  intros. unfold FOUR_BYTE_INT. change 16777216 with (2 ^ 24). rewrite Z.mul_comm.
  rewrite four_byte_low by done. unfold be_signed, be_unsigned. simpl foldl. byte_lia'.
Qed.

Lemma four_byte_uint x0 x1 x2 x3 : is_byte x0 -> is_byte x1 -> is_byte x2 -> is_byte x3 ->
  FOUR_BYTE_UINT x0 x1 x2 x3 = be_unsigned [x0; x1; x2; x3].
Proof.
  intros. unfold FOUR_BYTE_UINT. rewrite Varint.shlu_mul, Z.mod_small by byte_lia'.
  rewrite four_byte_low by done. unfold be_unsigned. simpl foldl. lia.
Qed.

Lemma serial_int_get t buf v len r :
  Forall is_byte buf -> serial_int t buf = Some v -> serialTypeLen t = Some len ->
  len <= Z.of_nat (length buf) ->
  recordSerialGet buf t (Some r) = Some (len, Some (set_int v r)).
Proof.
  intros Hb Hv Hlen Hl.
  assert (t = 1 \/ t = 2 \/ t = 3 \/ t = 4 \/ t = 5 \/ t = 6 \/ t = 8 \/ t = 9) as Ht.
  { destruct t as [|p|p]; try done. do 4 (destruct p as [p|p|]; try done; try lia). }
  destruct_or!; subst t; vm_compute in Hlen; simplify_eq;
    [assert (1 <= length buf)%nat as HL by lia | assert (2 <= length buf)%nat as HL by lia
    | assert (3 <= length buf)%nat as HL by lia | assert (4 <= length buf)%nat as HL by lia
    | assert (6 <= length buf)%nat as HL by lia | assert (8 <= length buf)%nat as HL by lia
    | | ]; take_bytes buf Hb; cbn in Hv |- *; simplify_eq; rewrite ?take_0;
    try reflexivity.
  - rewrite two_byte_int by done. reflexivity.
  - rewrite three_byte_int by done. reflexivity.
  - rewrite four_byte_int by done. reflexivity.
  - rewrite two_byte_int, four_byte_uint by done. do 2 f_equal.
    apply (f_equal (fun v => Some (set_int v r))).
    unfold be_signed, be_unsigned; simpl foldl; byte_lia'.
  - rewrite !four_byte_uint, Varint.shlu_mul by (done || lia). do 2 f_equal.
    apply (f_equal (fun v => Some (set_int v r))).
    unfold be_signed, be_unsigned; simpl foldl. byte_lia'.
Qed.

Lemma serial_len_get t buf rv len :
  is_u 32 t -> Forall is_byte buf -> serialTypeLen t = Some len ->
  len <= Z.of_nat (length buf) ->
  exists rv', recordSerialGet buf t rv = Some (len, rv').
Proof.
  intros Ht Hb Hlen Hl. destruct (Z.le_gt_cases 12 t) as [Hge|Hlt].
  { destruct (serialTypeLen_total t Ht) as (sz & E & ? & Hsz). simplify_eq.
    eexists. rewrite recordSerialGet_default by done. cbv zeta. do 2 f_equal. byte_lia'. }
  assert (t = 0 \/ t = 1 \/ t = 2 \/ t = 3 \/ t = 4 \/ t = 5 \/ t = 6 \/ t = 7 \/ t = 8 \/
          t = 9 \/ t = 10 \/ t = 11) as Hc by byte_lia'.
  destruct_or!; subst t; vm_compute in Hlen; simplify_eq; try (by eexists);
    [assert (1 <= length buf)%nat as HL by lia | assert (2 <= length buf)%nat as HL by lia
    | assert (3 <= length buf)%nat as HL by lia | assert (4 <= length buf)%nat as HL by lia
    | assert (6 <= length buf)%nat as HL by lia | assert (8 <= length buf)%nat as HL by lia
    | assert (8 <= length buf)%nat as HL by lia ];
    take_bytes buf Hb; destruct rv; by eexists.
Qed.
End Serial.

(** ** Properties *)

Import Varint Serial.

(** C26: On every buffer of bytes, the unrolled 64-bit varint reader
    [sqlite3GetVarint] returns exactly the value and length of the varint
    format's reference reader, and runs off the end exactly when it does. *)
Theorem varint_decode_correct (p : list Z) :
  Forall is_byte p -> sqlite3GetVarint p = varint_spec p.
Proof. apply sqlite3GetVarint_ref. Qed.

Lemma varint_decode_correct_witness :
  sqlite3GetVarint [0x83; 0xff; 0x7f] = varint_spec [0x83; 0xff; 0x7f].
Proof. apply varint_decode_correct. repeat constructor; vm_compute; congruence. Defined.

(** C27: Reading back what SQLite's encoder wrote for any 64-bit value yields
    that value and consumes exactly the bytes written, whatever follows. *)
Theorem varint_roundtrip (v : Z) (rest : list Z) :
  is_u 64 v -> Forall is_byte rest ->
  sqlite3GetVarint (sqlite3PutVarint v ++ rest) =
  Some (v, Z.of_nat (length (sqlite3PutVarint v))).
Proof.
  intros Hv Hr. rewrite sqlite3GetVarint_ref.
  - by apply sqlite3PutVarint_ref.
  - apply Forall_app. split; [by apply sqlite3PutVarint_bytes | done].
Qed.

Lemma varint_roundtrip_witness :
  sqlite3GetVarint (sqlite3PutVarint (2 ^ 63 + 12345) ++ [7]) = Some (2 ^ 63 + 12345, 9).
Proof.
  apply (varint_roundtrip (2 ^ 63 + 12345) [7]); [split; vm_compute; congruence |].
  repeat constructor; vm_compute; congruence.
Defined.

(** The 32-bit reader (macro plus slow path) returns the varint's value
    saturated at [0xffffffff] and the varint's length, on every buffer. *)
Theorem varint32_saturates (p : list Z) :
  Forall is_byte p ->
  getVarint32 p = (fun '(v, n) => (saturate32 v, n)) <$> varint_spec p.
Proof. apply getVarint32_ref. Qed.

Lemma varint32_saturates_witness :
  getVarint32 (sqlite3PutVarint (2 ^ 40)) = Some (0xffffffff, 6).
Proof.
  rewrite varint32_saturates; [reflexivity |]. repeat constructor; vm_compute; congruence.
Defined.

(** For every 32-bit serial type, [serialTypeLen]'s assertion holds and
    [recordSerialGet] consumes exactly the [serialTypeLen] bytes that the record
    loader skips, so the two length computations never disagree. *)
Theorem serial_lengths_agree (t : Z) (buf : list Z) (rv : option RecordValue) :
  is_u 32 t -> Forall is_byte buf ->
  exists len, serialTypeLen t = Some len /\ 0 <= len /\
    (len <= Z.of_nat (length buf) -> exists rv', recordSerialGet buf t rv = Some (len, rv')).
Proof.
  intros Ht Hb. destruct (serialTypeLen_total t Ht) as (len & E & ? & _).
  exists len. eauto using serial_len_get.
Qed.

Lemma serial_lengths_agree_witness :
  exists len, serialTypeLen 25 = Some len /\ 0 <= len /\
    (len <= Z.of_nat (length [104; 101; 108; 108; 111; 33]) ->
     exists rv', recordSerialGet [104; 101; 108; 108; 111; 33] 25 None = Some (len, rv')).
Proof.
  apply serial_lengths_agree; [split; vm_compute; congruence |].
  repeat constructor; vm_compute; congruence.
Defined.

(** C28: For the integer serial types (1 to 6, 8 and 9), [recordSerialGet]
    stores the big-endian two's complement integer of the right width and the
    integer flag, and leaves the rest of the cell unchanged. *)
Theorem serial_int_decode (t : Z) (buf : list Z) (v len : Z) (r : RecordValue) :
  Forall is_byte buf -> serial_int t buf = Some v -> serialTypeLen t = Some len ->
  len <= Z.of_nat (length buf) ->
  recordSerialGet buf t (Some r) = Some (len, Some (set_int v r)).
Proof. apply serial_int_get. Qed.

Lemma serial_int_decode_witness :
  recordSerialGet [0xff; 0xff; 0xff; 0xff; 0xff; 0xfe; 9] 5 (Some (mkRecordValue [] 0 0 0 0)) =
  Some (6, Some (set_int (-2) (mkRecordValue [] 0 0 0 0))).
Proof.
  apply serial_int_decode; [| vm_compute; reflexivity | reflexivity | vm_compute; congruence].
  repeat constructor; vm_compute; congruence.
Defined.
