(* ===== verification/Scheduler.v ===== *)
(** * The task scheduler: data and operations

    [src/src/scheduler]: node identifiers and messages, the dependency graph
    ([Node], [addLinkUnsafe], [processDependentsUnsafe]), tasks and their
    descriptions, the scheduler object and its methods, the workers.  A method
    is a function from the scheduler state to the next one; [None] stands for a
    failed [DCHECK] or for undefined behaviour.  The interleaving of the
    scheduler thread, the workers and the clients is in [SchedulerSystem.v].

    [std::unordered_set] does not fix the order of iteration, so the order is a
    class argument, with the one fact the standard gives: an iteration visits
    every element once. *)

From Stdlib Require Import ZArith Lia.
From stdpp Require Import base numbers list gmap option.
From S2P Require Import Prelude.

Local Open Scope Z_scope.

(** ** scheduler_typedefs.h *)

Abbreviation NodeID := Z (only parsing).
Abbreviation TaskID := Z (only parsing).
Abbreviation Continuation := Z (only parsing).
Abbreviation WorkerID := Z (only parsing).

Definition kContinuationMask : Continuation := Z.shiftl 1 63.
Definition kInvalidNodeID : NodeID := 0.

Definition IsContinuation (node_id : NodeID) : bool :=
  negb (Z.land node_id kContinuationMask =? 0).

Definition IsTaskID (node_id : NodeID) : bool := negb (IsContinuation node_id).

(** ** The order in which an unordered_set is traversed *)

Class SetOrder := {
  set_iter : gset Z -> list Z;
  set_iter_perm : forall X, set_iter X ≡ₚ elements X
}.

(** The order by increasing insertion in the model's own sets. *)
#[refine] Instance elements_order : SetOrder := { set_iter := elements }.
Proof. reflexivity. Defined.

(** [DCHECK(b)] *)
Definition DCHECK (b : bool) : option unit := if b then Some tt else None.

(** ** node.h *)

Record Node := mkNode { dependents_ : gset NodeID; dependency_count_ : Z }.

Definition newNode : Node := mkNode ∅ 0.

Definition hasDependent (n : Node) (dependent : NodeID) : bool :=
  bool_decide (dependent ∈ dependents_ n).

Definition addDependent (dependent : NodeID) (n : Node) : Node :=
  mkNode ({[dependent]} ∪ dependents_ n) (dependency_count_ n).

Definition incDependency (n : Node) : Node :=
  mkNode (dependents_ n) (to_u64 (dependency_count_ n + 1)).

Definition decDependency (n : Node) : option Node :=
  _ ← DCHECK (0 <? dependency_count_ n);
  Some (mkNode (dependents_ n) (to_u64 (dependency_count_ n - 1))).

(** [parent.setChild(child_id, child)]: the parent and the child afterwards. *)
Definition setChild (child_id : NodeID) (parent child : Node) : option (Node * Node) :=
  _ ← DCHECK (dependency_count_ child =? 0);
  _ ← DCHECK (bool_decide (size (dependents_ child) = 0%nat));
  Some (mkNode {[child_id]} (dependency_count_ parent), mkNode (dependents_ parent) 1).

(** [nodes_[k]] reads the node of [k], default-constructed when absent. *)
Definition node_ref (nodes : gmap NodeID Node) (k : NodeID) : Node :=
  default newNode (nodes !! k).

(** ** task_description.h *)

Inductive TaskType := kGeneral | kPreprocessing | kRelationalOperator.

Record TaskDescription := mkTaskDescription {
  profiling : bool;
  cascade : bool;
  task_type : TaskType;
  task_major_id : Z;
  task_name_ : option Z
}.

Definition newTaskDescription : TaskDescription :=
  mkTaskDescription false false kGeneral 0 None.

Definition enabledProfiling (d : TaskDescription) : bool := profiling d.

Definition enabledCascadeProfiling (d : TaskDescription) : bool := profiling d && cascade d.

Definition inherit (d : TaskDescription) : TaskDescription :=
  mkTaskDescription (enabledProfiling d) (enabledCascadeProfiling d)
    (task_type d) (task_major_id d) (task_name_ d).

Section Scheduler.
(** What [execute] of a task does is the task's own: a type argument. *)
Context {Body : Type} {order : SetOrder}.

(** ** task.h *)

Record Task := mkTask {
  task_id_ : TaskID;
  continuation_ : Continuation;
  has_scheduler : bool;
  description_ : TaskDescription;
  body : Body
}.

Definition newTask (b : Body) : Task :=
  mkTask kInvalidNodeID kInvalidNodeID false newTaskDescription b.

Definition inheritDescription (d : TaskDescription) (t : Task) : Task :=
  mkTask (task_id_ t) (continuation_ t) (has_scheduler t) (inherit d) (body t).

Definition setup (task_id : TaskID) (continuation : Continuation) (t : Task) : option Task :=
  _ ← DCHECK (task_id_ t =? kInvalidNodeID);
  _ ← DCHECK (continuation_ t =? kInvalidNodeID);
  _ ← DCHECK (negb (has_scheduler t));
  Some (mkTask task_id continuation true (description_ t) (body t)).

Definition getID (t : Task) : option TaskID :=
  _ ← DCHECK (negb (task_id_ t =? kInvalidNodeID));
  Some (task_id_ t).

(** ** scheduler_message.h, worker_message.h *)

Inductive SchedulerMessage :=
  | SchedulerJoinMessage
  | SchedulerNewTaskMessage
  | SchedulerTaskCompletionMessage (worker_id : WorkerID) (task_id : TaskID).

Inductive WorkerMessage :=
  | WorkerJoinMessage
  | WorkerTaskMessage (task : Task).

(** ** worker.h, the state of a worker

    [current] is the task of the message being handled by [execute], a local
    variable of the worker's thread; [worker_thread_] says that the thread
    exists and [worker_quit] that its loop has ended. *)

Record TaskEvent := mkTaskEvent {
  ev_description : TaskDescription; ev_worker : WorkerID; ev_start : Z; ev_end : Z
}.

Record Worker := mkWorker {
  worker_id_ : WorkerID;
  cpu_id_ : Z;
  worker_thread_ : bool;
  worker_msg_queue_ : list WorkerMessage;
  current : option Task;
  worker_quit : bool;
  task_events_ : list TaskEvent
}.

Definition newWorker (worker_id : WorkerID) (cpu_id : Z) : Worker :=
  mkWorker worker_id cpu_id false [] None false [].

Definition worker_sendMessage (m : WorkerMessage) (w : Worker) : Worker :=
  mkWorker (worker_id_ w) (cpu_id_ w) (worker_thread_ w) (worker_msg_queue_ w ++ [m])
    (current w) (worker_quit w) (task_events_ w).

Definition worker_start (w : Worker) : option Worker :=
  _ ← DCHECK (negb (worker_thread_ w));
  Some (mkWorker (worker_id_ w) (cpu_id_ w) true (worker_msg_queue_ w)
          (current w) false (task_events_ w)).

(** [thread_->join()] returns once the loop has ended. *)
Definition worker_join (w : Worker) : option Worker :=
  _ ← DCHECK (worker_thread_ w && worker_quit w);
  Some (mkWorker (worker_id_ w) (cpu_id_ w) false (worker_msg_queue_ w)
          (current w) (worker_quit w) (task_events_ w)).

(** The first half of an iteration of [Worker::execute]: pop one message; a
    task starts to run, a join ends the loop.  [None] when the queue is empty
    (the thread blocks), or when a task is still running. *)
Definition worker_receive (w : Worker) : option Worker :=
  match worker_msg_queue_ w, current w, worker_quit w with
  | m :: rest, None, false =>
      match m with
      | WorkerJoinMessage =>
          Some (mkWorker (worker_id_ w) (cpu_id_ w) (worker_thread_ w) rest None true
                  (task_events_ w))
      | WorkerTaskMessage task =>
          Some (mkWorker (worker_id_ w) (cpu_id_ w) (worker_thread_ w) rest (Some task) false
                  (task_events_ w))
      end
  | _, _, _ => None
  end.

(** The second half, when [task->execute()] has returned between the clock
    readings [start] and [stop] and has left the description [d] on the task:
    the event is recorded and the completion message is sent. *)
Definition worker_finish (d : TaskDescription) (start stop : Z) (w : Worker) :
    option (Worker * SchedulerMessage) :=
  task ← current w;
  id ← getID task;
  let events :=
    if enabledProfiling d
    then task_events_ w ++ [mkTaskEvent d (worker_id_ w) start stop]
    else task_events_ w in
  Some (mkWorker (worker_id_ w) (cpu_id_ w) (worker_thread_ w) (worker_msg_queue_ w) None
          (worker_quit w) events,
        SchedulerTaskCompletionMessage (worker_id_ w) id).

(** ** scheduler.h: the state of the scheduler *)

Record Scheduler := mkScheduler {
  thread_ : bool;
  num_workers_ : nat;
  workers_ : list Worker;
  available_workers_ : list WorkerID;      (* a stack, top first *)
  task_queue_ : list Task;
  tasks_ : gmap TaskID Task;
  nodes_ : gmap NodeID Node;
  scheduler_msg_queue_ : list SchedulerMessage;
  task_counter_ : TaskID;
  continuation_counter_ : Continuation;
  halt_ : bool
}.

Definition set_workers (ws : list Worker) (s : Scheduler) : Scheduler :=
  mkScheduler (thread_ s) (num_workers_ s) ws (available_workers_ s) (task_queue_ s)
    (tasks_ s) (nodes_ s) (scheduler_msg_queue_ s) (task_counter_ s)
    (continuation_counter_ s) (halt_ s).
Definition set_available (l : list WorkerID) (s : Scheduler) : Scheduler :=
  mkScheduler (thread_ s) (num_workers_ s) (workers_ s) l (task_queue_ s)
    (tasks_ s) (nodes_ s) (scheduler_msg_queue_ s) (task_counter_ s)
    (continuation_counter_ s) (halt_ s).
Definition set_queue (q : list Task) (s : Scheduler) : Scheduler :=
  mkScheduler (thread_ s) (num_workers_ s) (workers_ s) (available_workers_ s) q
    (tasks_ s) (nodes_ s) (scheduler_msg_queue_ s) (task_counter_ s)
    (continuation_counter_ s) (halt_ s).
Definition set_tasks (m : gmap TaskID Task) (s : Scheduler) : Scheduler :=
  mkScheduler (thread_ s) (num_workers_ s) (workers_ s) (available_workers_ s)
    (task_queue_ s) m (nodes_ s) (scheduler_msg_queue_ s) (task_counter_ s)
    (continuation_counter_ s) (halt_ s).
Definition set_nodes (m : gmap NodeID Node) (s : Scheduler) : Scheduler :=
  mkScheduler (thread_ s) (num_workers_ s) (workers_ s) (available_workers_ s)
    (task_queue_ s) (tasks_ s) m (scheduler_msg_queue_ s) (task_counter_ s)
    (continuation_counter_ s) (halt_ s).
Definition set_msgs (q : list SchedulerMessage) (s : Scheduler) : Scheduler :=
  mkScheduler (thread_ s) (num_workers_ s) (workers_ s) (available_workers_ s)
    (task_queue_ s) (tasks_ s) (nodes_ s) q (task_counter_ s)
    (continuation_counter_ s) (halt_ s).
Definition set_halt (b : bool) (s : Scheduler) : Scheduler :=
  mkScheduler (thread_ s) (num_workers_ s) (workers_ s) (available_workers_ s)
    (task_queue_ s) (tasks_ s) (nodes_ s) (scheduler_msg_queue_ s) (task_counter_ s)
    (continuation_counter_ s) b.
Definition set_thread (b : bool) (s : Scheduler) : Scheduler :=
  mkScheduler b (num_workers_ s) (workers_ s) (available_workers_ s)
    (task_queue_ s) (tasks_ s) (nodes_ s) (scheduler_msg_queue_ s) (task_counter_ s)
    (continuation_counter_ s) (halt_ s).
Definition set_counters (t : TaskID) (c : Continuation) (s : Scheduler) : Scheduler :=
  mkScheduler (thread_ s) (num_workers_ s) (workers_ s) (available_workers_ s)
    (task_queue_ s) (tasks_ s) (nodes_ s) (scheduler_msg_queue_ s) t c (halt_ s).

(** ** scheduler.cc *)

Definition clear (s : Scheduler) : option Scheduler :=
  _ ← DCHECK (negb (thread_ s));
  Some (mkScheduler (thread_ s) (num_workers_ s) (workers_ s)
          (reverse (Z.of_nat <$> seq 0 (num_workers_ s)))
          [] ∅ ∅ [] 1 (to_u64 (kContinuationMask + 1)) false).

Definition kDefaultNumThreads : Z := 4.

(** The affinities computed by the constructor, [hw] being what
    [std::thread::hardware_concurrency()] returns. *)
Definition worker_cpu_affinities (num_workers : nat) (thread_pinning : bool) (hw : Z) : list Z :=
  let l :=
    if thread_pinning then
      if to_i32 hw <=? 0 then []
      else if to_u64 (to_i32 hw) <? Z.of_nat num_workers then []
      else Z.of_nat <$> seq 0 num_workers
    else [] in
  match l with [] => replicate num_workers (-1) | _ => l end.

Definition newScheduler (num_workers : nat) (thread_pinning : bool) (hw : Z) :
    option Scheduler :=
  let n := if (0 <? num_workers)%nat then num_workers
           else Z.to_nat (Z.max kDefaultNumThreads (to_i32 hw)) in
  let workers :=
    imap (fun i cpu => newWorker (Z.of_nat i) cpu) (worker_cpu_affinities n thread_pinning hw) in
  clear (mkScheduler false n workers [] [] ∅ ∅ [] 0 0 false).

Definition allocateTaskID (s : Scheduler) : TaskID * Scheduler :=
  (task_counter_ s, set_counters (to_u64 (task_counter_ s + 1)) (continuation_counter_ s) s).

Definition allocateContinuation (s : Scheduler) : Continuation * Scheduler :=
  (continuation_counter_ s,
   set_counters (task_counter_ s) (to_u64 (continuation_counter_ s + 1)) s).

Definition sendMessage (m : SchedulerMessage) (s : Scheduler) : Scheduler :=
  set_msgs (scheduler_msg_queue_ s ++ [m]) s.

Definition allocateContinuation_with (dependency : NodeID) (s : Scheduler) :
    option (Continuation * Scheduler) :=
  if dependency =? kInvalidNodeID then Some (allocateContinuation s)
  else
    let (child_id, s1) := allocateContinuation s in
    parent ← nodes_ s1 !! dependency;
    '(parent', child') ← setChild child_id parent (node_ref (nodes_ s1) child_id);
    Some (child_id,
          set_nodes (<[child_id := child']> (<[dependency := parent']> (nodes_ s1))) s1).

Definition addTaskIntoQueue (t : Task) (s : Scheduler) : Scheduler :=
  sendMessage SchedulerNewTaskMessage (set_queue (task_queue_ s ++ [t]) s).

Definition releaseTaskByID (task_id : TaskID) (s : Scheduler) : option (Task * Scheduler) :=
  _ ← DCHECK (IsTaskID task_id);
  task ← tasks_ s !! task_id;
  Some (task, set_tasks (delete task_id (tasks_ s)) s).

Definition addLinkUnsafe (dependency dependent : NodeID) (nodes : gmap NodeID Node) :
    gmap NodeID Node :=
  let nodes1 := <[dependency := node_ref nodes dependency]> nodes in
  if hasDependent (node_ref nodes1 dependency) dependent then nodes1
  else
    let nodes2 :=
      <[dependency := addDependent dependent (node_ref nodes1 dependency)]> nodes1 in
    <[dependent := incDependency (node_ref nodes2 dependent)]> nodes2.

Definition addLink (dependency dependent : NodeID) (s : Scheduler) : Scheduler :=
  set_nodes (addLinkUnsafe dependency dependent (nodes_ s)) s.

(** [addTask] up to the release of [nodes_mutex_]: the identifier, [setup] and
    the links. *)
Definition addTask_link (t : Task) (dependency dependent : NodeID) (s : Scheduler) :
    option (Task * Scheduler) :=
  let (task_id, s1) := allocateTaskID s in
  task ← setup task_id dependent t;
  let nodes1 :=
    if dependent =? kInvalidNodeID then nodes_ s1
    else
      let n1 := <[task_id := addDependent dependent (node_ref (nodes_ s1) task_id)]> (nodes_ s1) in
      <[dependent := incDependency (node_ref n1 dependent)]> n1 in
  let nodes2 :=
    if dependency =? kInvalidNodeID then nodes1 else addLinkUnsafe dependency task_id nodes1 in
  Some (task, set_nodes nodes2 s1).

(** [tasks_.emplace(task_id, task)] *)
Definition addTask_store (task : Task) (s : Scheduler) : Scheduler :=
  set_tasks
    (match tasks_ s !! task_id_ task with
     | Some _ => tasks_ s
     | None => <[task_id_ task := task]> (tasks_ s)
     end) s.

(** [addTask] after it: the task enters the queue or the table of deferred
    tasks. *)
Definition addTask_publish (task : Task) (dependency : NodeID) (s : Scheduler) : Scheduler :=
  if dependency =? kInvalidNodeID then addTaskIntoQueue task s else addTask_store task s.

Definition addTask (t : Task) (dependency dependent : NodeID) (s : Scheduler) :
    option (TaskID * Scheduler) :=
  '(task, s1) ← addTask_link t dependency dependent s;
  Some (task_id_ task, addTask_publish task dependency s1).

Definition addTaskWithDependent (t : Task) (dependent : NodeID) := addTask t kInvalidNodeID dependent.
Definition addTaskWithDependency (t : Task) (dependency : NodeID) := addTask t dependency kInvalidNodeID.

(** One pass of [for (dependent : node.getDependents())], the recursive call
    being [self]. *)
Definition process_dependent (self : NodeID -> Scheduler -> option Scheduler)
    (dependent : NodeID) (s : Scheduler) : option Scheduler :=
  dependent_node ← nodes_ s !! dependent;
  dependent_node' ← decDependency dependent_node;
  let s1 := set_nodes (<[dependent := dependent_node']> (nodes_ s)) s in
  if dependency_count_ dependent_node' =? 0 then
    if IsTaskID dependent then
      '(task, s2) ← releaseTaskByID dependent s1;
      Some (addTaskIntoQueue task s2)
    else self dependent s1
  else Some s1.

Fixpoint for_each (f : NodeID -> Scheduler -> option Scheduler) (l : list NodeID)
    (s : Scheduler) : option Scheduler :=
  match l with
  | [] => Some s
  | x :: l => s' ← f x s; for_each f l s'
  end.

Fixpoint processDependentsUnsafe (fuel : nat) (node_id : NodeID) (s : Scheduler) :
    option Scheduler :=
  match fuel with
  | O => None
  | S fuel =>
      node ← nodes_ s !! node_id;
      _ ← DCHECK (dependency_count_ node =? 0);
      s1 ← for_each (process_dependent (processDependentsUnsafe fuel))
             (set_iter (dependents_ node)) s;
      Some (set_nodes (delete node_id (nodes_ s1)) s1)
  end.

(** A recursive call is made after a decrement, so the depth is bounded by the
    sum of the dependency counts. *)
Definition total_count (nodes : gmap NodeID Node) : nat :=
  map_fold (fun _ n acc => (Z.to_nat (dependency_count_ n) + acc)%nat) 0%nat nodes.

Definition processDependents (node_id : NodeID) (s : Scheduler) : option Scheduler :=
  match nodes_ s !! node_id with
  | Some _ => processDependentsUnsafe (S (total_count (nodes_ s))) node_id s
  | None => Some s
  end.

Definition fire (entry : Continuation) (s : Scheduler) : option Scheduler :=
  processDependents entry s.

(** [workers_[i]->sendMessage(m)]; an index out of range is undefined. *)
Definition send_to_worker (i : WorkerID) (m : WorkerMessage) (s : Scheduler) : option Scheduler :=
  w ← workers_ s !! Z.to_nat i;
  Some (set_workers (<[Z.to_nat i := worker_sendMessage m w]> (workers_ s)) s).

(** The loop of [processTaskQueue] pops one available worker per iteration. *)
Fixpoint processTaskQueue_loop (avail : list WorkerID) (s : Scheduler) : option Scheduler :=
  match avail with
  | [] => Some s
  | worker_id :: rest =>
      match task_queue_ s with
      | [] => Some s
      | task :: q =>
          s1 ← send_to_worker worker_id (WorkerTaskMessage task)
                 (set_available rest (set_queue q s));
          processTaskQueue_loop rest s1
      end
  end.

Definition processTaskQueue (s : Scheduler) : option Scheduler :=
  processTaskQueue_loop (available_workers_ s) s.

(** [execute]: the test that ends the loop. *)
Definition execute_exits (s : Scheduler) : bool :=
  halt_ s && bool_decide (length (available_workers_ s) = num_workers_ s)
  && match task_queue_ s with [] => true | _ => false end.

(** [execute]: [popOne] and the switch; [None] when the queue is empty (the
    thread blocks). *)
Definition execute_message (s : Scheduler) : option Scheduler :=
  match scheduler_msg_queue_ s with
  | [] => None
  | msg :: rest =>
      let s1 := set_msgs rest s in
      match msg with
      | SchedulerJoinMessage => Some (set_halt true s1)
      | SchedulerTaskCompletionMessage worker_id task_id =>
          s2 ← processDependents task_id s1;
          Some (set_available (worker_id :: available_workers_ s2) s2)
      | SchedulerNewTaskMessage => Some s1
      end
  end.

(** [execute]: after the loop, every worker is told to stop. *)
Definition stop_workers (s : Scheduler) : Scheduler :=
  set_workers (worker_sendMessage WorkerJoinMessage <$> workers_ s) s.

Definition isActive (s : Scheduler) : bool := thread_ s.

Definition start (s : Scheduler) : option Scheduler :=
  _ ← DCHECK (negb (thread_ s));
  ws ← mapM worker_start (workers_ s);
  Some (set_thread true (set_workers ws s)).

(** [join] posts the message, waits for the scheduler thread (which has joined
    the workers), and resets the state. *)
Definition join_post (s : Scheduler) : option Scheduler :=
  _ ← DCHECK (thread_ s);
  Some (sendMessage SchedulerJoinMessage s).

Definition join_finish (s : Scheduler) : option Scheduler :=
  ws ← mapM worker_join (workers_ s);
  clear (set_thread false (set_workers ws s)).

(** ** task.h: operations of a running task *)

Definition spawnTask (ctx t : Task) (s : Scheduler) : option Scheduler :=
  _ ← DCHECK (has_scheduler ctx);
  '(_, s') ← addTaskWithDependent (inheritDescription (description_ ctx) t) (continuation_ ctx) s;
  Some s'.

(** The loop of [CreateTaskChain], on the tasks in reverse order. *)
Fixpoint chain_loop (ctx : Task) (rev_tasks : list Task) (c_dependent : Continuation)
    (s : Scheduler) : option Scheduler :=
  match rev_tasks with
  | [] => Some s
  | t :: rest =>
      let (c_dependency, s1) :=
        match rest with
        | [] => (kInvalidNodeID, s)
        | _ => allocateContinuation s
        end in
      '(_, s2) ← addTask (inheritDescription (description_ ctx) t) c_dependency c_dependent s1;
      chain_loop ctx rest c_dependency s2
  end.

Definition CreateTaskChain (tasks : list Task) (ctx : Task) (s : Scheduler) : option Scheduler :=
  _ ← DCHECK (has_scheduler ctx);
  chain_loop ctx (reverse tasks) (continuation_ ctx) s.

(** [getTotalNumTaskEvents] *)
Definition getTotalNumTaskEvents (s : Scheduler) : nat :=
  foldl (fun total w => (total + length (task_events_ w))%nat) 0%nat (workers_ s).

End Scheduler.

Arguments Task : clear implicits.
Arguments Worker : clear implicits.
Arguments Scheduler : clear implicits.
Arguments WorkerMessage : clear implicits.
