(* ===== verification/SchedulerGraph.v ===== *)
(** * The dependency graph of the scheduler

    The invariant of [nodes_] and [tasks_] ([graph_inv]) and the correctness of
    [processDependentsUnsafe]: its recursion terminates within the fuel
    [processDependents] gives it, no [DCHECK] fails, it removes the node and
    exactly the continuations that become free, and it queues exactly the
    deferred tasks whose last predecessor went away. *)

From Stdlib Require Import ZArith Lia.
From stdpp Require Import base numbers list gmap option.
From S2P Require Import Prelude Scheduler.
Import stdpp.list_basics.list stdpp.list_relations.list stdpp.list_monad.list.

Local Open Scope Z_scope.

(** ** Identifiers *)

Lemma mask_val : kContinuationMask = 2 ^ 63.
Proof. reflexivity. Qed.

Lemma IsContinuation_spec n : is_u 64 n -> IsContinuation n = (2 ^ 63 <=? n).
Proof.
  intros [H0 H1]. unfold IsContinuation. rewrite mask_val.
  pose proof (Z.div_mod n (2 ^ 63) ltac:(lia)) as E.
  pose proof (Z.mod_pos_bound n (2 ^ 63) ltac:(lia)) as Hm.
  set (q := n / 2 ^ 63) in *. set (r := n mod 2 ^ 63) in *.
  assert (Z.land n (2 ^ 63) = Z.land q 1 * 2 ^ 63) as ->.
  { replace n with (q * 2 ^ 63 + r) by lia.
    replace (2 ^ 63) with (1 * 2 ^ 63 + 0) at 2 by lia.
    rewrite land_split by lia. rewrite Z.land_0_r. lia. }
  assert (q = 0 \/ q = 1) as [-> | ->] by lia.
  - change (Z.land 0 1 * 2 ^ 63) with 0. simpl negb.
    symmetry. apply Z.leb_gt. lia.
  - change (Z.land 1 1 * 2 ^ 63) with (2 ^ 63). simpl negb.
    symmetry. apply Z.leb_le. lia.
Qed.

(** ** Predecessors and their number *)

Definition preds (nodes : gmap NodeID Node) (n : NodeID) : gset NodeID :=
  filter (fun m => n ∈ dependents_ (node_ref nodes m)) (dom nodes).

Lemma elem_of_preds nodes n m :
  m ∈ preds nodes n <-> exists nd, nodes !! m = Some nd /\ n ∈ dependents_ nd.
Proof.
  unfold preds, node_ref. rewrite elem_of_filter, elem_of_dom. split.
  - intros [H [nd E]]. rewrite E in H. eauto.
  - intros (nd & E & H). rewrite E. eauto.
Qed.

(** Occurrences of a node in the list of pending decrements. *)
Definition occ (P : list NodeID) (n : NodeID) : nat := length (filter (eq n) P).

Lemma occ_nil n : occ [] n = 0%nat.
Proof. reflexivity. Qed.

Lemma occ_cons d P n : occ (d :: P) n = ((if decide (n = d) then 1 else 0) + occ P n)%nat.
Proof. unfold occ. rewrite filter_cons. destruct (decide (n = d)); reflexivity. Qed.

Lemma occ_app P Q n : occ (P ++ Q) n = (occ P n + occ Q n)%nat.
Proof. unfold occ. rewrite filter_app, length_app. reflexivity. Qed.

Lemma occ_pos P n : (0 < occ P n)%nat <-> n ∈ P.
Proof.
  unfold occ. split.
  - intros H. destruct (filter (eq n) P) as [| x l] eqn:E; [simpl in H; lia |].
    assert (x ∈ filter (eq n) P) as Hx by (rewrite E; left).
    apply list_elem_of_filter in Hx as [-> Hx]. exact Hx.
  - intros H. assert (n ∈ filter (eq n) P) as Hx by (apply list_elem_of_filter; eauto).
    destruct (filter (eq n) P); [inversion Hx | simpl; lia].
Qed.

Lemma occ_iter `{SetOrder} X n : occ (set_iter X) n = if decide (n ∈ X) then 1%nat else 0%nat.
Proof.
  assert (NoDup (set_iter X)) as HN by (rewrite set_iter_perm; apply NoDup_elements).
  assert (n ∈ set_iter X <-> n ∈ X) as Hin by (rewrite set_iter_perm; apply elem_of_elements).
  induction (set_iter X) as [| y l IH] in X, HN, Hin |- *.
  - rewrite decide_False; [reflexivity |]. intros Hx. apply Hin in Hx. inversion Hx.
  - apply NoDup_cons in HN as [Hy HN]. rewrite occ_cons.
    destruct (decide (n = y)) as [-> | Hne].
    + rewrite (decide_True (P := y ∈ X)) by (apply Hin; left).
      destruct (occ l y) eqn:E; [reflexivity |].
      exfalso. apply Hy, occ_pos. lia.
    + rewrite (IH X HN); [reflexivity |].
      rewrite <- Hin, elem_of_cons. intuition.
Qed.

(** ** The sum of the dependency counts *)

Lemma total_count_lookup nodes k nd :
  nodes !! k = Some nd ->
  total_count nodes = (Z.to_nat (dependency_count_ nd) + total_count (delete k nodes))%nat.
Proof.
  intros E. unfold total_count.
  erewrite (map_fold_delete_L _ _ k _ nodes); [reflexivity | intros; lia | exact E].
Qed.

Lemma total_count_insert nodes k nd nd' :
  nodes !! k = Some nd ->
  (total_count (<[k := nd']> nodes) + Z.to_nat (dependency_count_ nd) =
   total_count nodes + Z.to_nat (dependency_count_ nd'))%nat.
Proof.
  intros E. rewrite (total_count_lookup _ _ _ E).
  rewrite (total_count_lookup (<[k := nd']> nodes) k nd') by apply lookup_insert_eq.
  rewrite delete_insert_eq. lia.
Qed.

Lemma total_count_delete nodes k : (total_count (delete k nodes) <= total_count nodes)%nat.
Proof.
  destruct (nodes !! k) as [nd |] eqn:E.
  - rewrite (total_count_lookup _ _ _ E). lia.
  - rewrite delete_id; [lia | exact E].
Qed.

Lemma preds_deps nodes nodes' n :
  (forall m, dependents_ <$> nodes' !! m = dependents_ <$> nodes !! m) ->
  preds nodes' n = preds nodes n.
Proof.
  intros H. apply set_eq. intros m. rewrite !elem_of_preds.
  specialize (H m). destruct (nodes !! m), (nodes' !! m); simplify_eq/=; naive_solver congruence.
Qed.

Lemma preds_set_count nodes d nd c n :
  nodes !! d = Some nd ->
  preds (<[d := mkNode (dependents_ nd) c]> nodes) n = preds nodes n.
Proof.
  intros E. apply preds_deps. intros m.
  destruct (decide (m = d)) as [-> | Hne].
  - rewrite lookup_insert_eq, E. reflexivity.
  - rewrite lookup_insert_ne by done. reflexivity.
Qed.

Lemma preds_delete nodes k n : preds (delete k nodes) n = preds nodes n ∖ {[k]}.
Proof.
  apply set_eq. intros m. rewrite elem_of_difference, !elem_of_preds, elem_of_singleton.
  setoid_rewrite lookup_delete_Some. naive_solver.
Qed.

Lemma decDependency_ok nd :
  0 < dependency_count_ nd < 2 ^ 64 ->
  decDependency nd = Some (mkNode (dependents_ nd) (dependency_count_ nd - 1)).
Proof.
  intros H. unfold decDependency, DCHECK.
  rewrite (proj2 (Z.ltb_lt _ _)) by lia. simpl.
  rewrite wrapu_id by (unfold is_u; lia). reflexivity.
Qed.

Section Graph.
Context {Body : Type} {order : SetOrder}.
Implicit Types s : @Scheduler Body.

(** The invariant while a traversal is under way: the nodes of [A] are being
    processed, and the decrements of [P] are still due on their behalf. *)
Record ginv (A : gset NodeID) (P : list NodeID) s : Prop := {
  g_ids : forall n, n ∈ dom (nodes_ s) -> 0 < n < 2 ^ 64;
  g_closed : forall m nd d, m ∉ A -> nodes_ s !! m = Some nd -> d ∈ dependents_ nd ->
    d ∈ dom (nodes_ s);
  g_pending : forall d, d ∈ P -> d ∈ dom (nodes_ s);
  g_count : forall n nd, nodes_ s !! n = Some nd ->
    dependency_count_ nd = Z.of_nat (size (preds (nodes_ s) n ∖ A) + occ P n);
  g_bound : forall n nd, nodes_ s !! n = Some nd -> dependency_count_ nd < 2 ^ 64;
  g_active : forall a, a ∈ A -> exists nd, nodes_ s !! a = Some nd /\ dependency_count_ nd = 0;
  g_tasks : forall n, n ∈ dom (tasks_ s) <->
    IsTaskID n = true /\ exists nd, nodes_ s !! n = Some nd /\ 0 < dependency_count_ nd
}.

(** The invariant between operations: [dependency_count_] is the number of
    live predecessors, every dependent has a node, and the deferred tasks are
    exactly the task nodes that still wait. *)
Definition graph_inv s : Prop := ginv ∅ [] s.

(** What a traversal may change.  Outside [R]: a node that disappears was a
    waiting continuation, a waiting continuation that stays still waits. *)
Record frame (R : gset NodeID) s s' (released : list (Task Body)) : Prop := {
  f_nodes : forall m nd', nodes_ s' !! m = Some nd' -> exists nd, nodes_ s !! m = Some nd /\
    dependents_ nd' = dependents_ nd /\ dependency_count_ nd' <= dependency_count_ nd;
  f_removed : forall m nd, m ∉ R -> nodes_ s !! m = Some nd -> nodes_ s' !! m = None ->
    IsContinuation m = true /\ 0 < dependency_count_ nd;
  f_waiting : forall m nd nd', m ∉ R -> nodes_ s !! m = Some nd -> nodes_ s' !! m = Some nd' ->
    IsContinuation m = true -> 0 < dependency_count_ nd -> 0 < dependency_count_ nd';
  f_tasks : exists ids, released = omap (tasks_ s !!.) ids /\
    NoDup ids /\ (forall i, i ∈ ids -> i ∈ dom (tasks_ s)) /\
    (forall i, tasks_ s' !! i = if decide (i ∈ ids) then None else tasks_ s !! i);
  f_queue : task_queue_ s' = task_queue_ s ++ released;
  f_msgs : scheduler_msg_queue_ s' =
    scheduler_msg_queue_ s ++ replicate (length released) SchedulerNewTaskMessage;
  f_total : (total_count (nodes_ s') <= total_count (nodes_ s))%nat;
  f_rest : set_nodes ∅ (set_tasks ∅ (set_queue [] (set_msgs [] s'))) =
    set_nodes ∅ (set_tasks ∅ (set_queue [] (set_msgs [] s)))
}.

Lemma frame_refl R s : frame R s s [].
Proof.
  split; eauto with lia.
  - congruence.
  - intros; simplify_eq; lia.
  - exists []. repeat split; [constructor | set_solver].
  - by rewrite app_nil_r.
  - by rewrite app_nil_r.
Qed.

Lemma frame_trans R s1 s2 s3 l1 l2 :
  frame R s1 s2 l1 -> frame R s2 s3 l2 -> frame R s1 s3 (l1 ++ l2).
Proof.
  intros [N1 M1 W1 (i1 & El1 & D1 & I1 & T1) Q1 G1 C1 R1]
         [N2 M2 W2 (i2 & El2 & D2 & I2 & T2) Q2 G2 C2 R2]. split.
  - intros m nd3 E3. destruct (N2 _ _ E3) as (nd2 & E2 & ? & ?).
    destruct (N1 _ _ E2) as (nd1 & E1 & ? & ?). exists nd1. intuition (congruence || lia).
  - intros m nd HR E1 E3. destruct (nodes_ s2 !! m) as [nd2 |] eqn:E2; [| eauto].
    destruct (N1 _ _ E2) as (nd1 & E1' & ? & ?). simplify_eq.
    destruct (M2 _ _ HR E2 E3). split; [done | lia].
  - intros m nd nd3 HR E1 E3 HC HP. destruct (N2 _ _ E3) as (nd2 & E2 & ? & ?). eauto.
  - exists (i1 ++ i2). split; [| split; [| split]].
    + rewrite omap_app, El1, El2. f_equal.
      apply list_omap_ext, Forall_Forall2_diag, Forall_forall. intros i Hi. rewrite T1.
      rewrite decide_False; [done |]. intros H1.
      apply I2, elem_of_dom in Hi as [t Et]. rewrite T1, decide_True in Et; done.
    + apply NoDup_app. split; [done | split; [| done]].
      intros i H1 Hi. apply I2, elem_of_dom in Hi as [t Et].
      rewrite T1, decide_True in Et; done.
    + intros i [Hi | Hi]%elem_of_app; [eauto |].
      apply I2, elem_of_dom in Hi as [t Et]. rewrite T1 in Et. case_decide; [done |].
      apply elem_of_dom. eauto.
    + intros i. rewrite T2, T1.
      destruct (decide (i ∈ i1 ++ i2)) as [[H | H]%elem_of_app | H];
        repeat case_decide; set_solver.
  - rewrite Q2, Q1. by rewrite app_assoc.
  - rewrite G2, G1, length_app, replicate_add. by rewrite app_assoc.
  - lia.
  - by rewrite R2, R1.
Qed.

(** A node of [R] that was a waiting continuation and is gone obeys the frame. *)
Lemma frame_shrink R d s s' l nd :
  frame (R ∪ {[d]}) s s' l -> nodes_ s !! d = Some nd -> nodes_ s' !! d = None ->
  IsContinuation d = true -> 0 < dependency_count_ nd -> frame R s s' l.
Proof.
  intros [N1 M1 W1 T1 Q1 G1 C1 R1] E E' HC HP. split; eauto.
  - intros m nd' HR Em Em'. destruct (decide (m = d)) as [-> | Hne]; [naive_solver |].
    apply M1; set_solver.
  - intros m nd1 nd2 HR Em Em'. destruct (decide (m = d)) as [-> | Hne]; [congruence |].
    eapply W1; eauto. set_solver.
Qed.

Lemma frame_weaken R R' s s' l : R ⊆ R' -> frame R s s' l -> frame R' s s' l.
Proof. intros HR [N1 M1 W1 T1 Q1 G1 C1 R1]. split; eauto. Qed.

Lemma ginv_ext A P s s' :
  nodes_ s' = nodes_ s -> tasks_ s' = tasks_ s -> ginv A P s -> ginv A P s'.
Proof. intros En Et [Gi Gc Gp Gn Gb Ga Gt]. split; rewrite ?En, ?Et; done. Qed.

(** *** Steps of the traversal *)

(** Entering the loop of [processDependentsUnsafe] on [n]. *)
Lemma ginv_enter A P s n nd :
  ginv A P s -> nodes_ s !! n = Some nd -> n ∉ A -> dependency_count_ nd = 0 ->
  ginv (A ∪ {[n]}) (set_iter (dependents_ nd) ++ P) s.
Proof.
  intros [Gi Gc Gp Gn Gb Ga Gt] En HnA H0. split; eauto.
  - set_solver.
  - intros d [Hd | Hd]%elem_of_app; [| eauto].
    rewrite set_iter_perm, elem_of_elements in Hd. eauto.
  - intros m nm Em. rewrite (Gn _ _ Em). f_equal. rewrite occ_app, occ_iter.
    rewrite <- difference_difference_l_L.
    case_decide as Hd.
    + rewrite (size_difference (preds (nodes_ s) m ∖ A) {[n]}), size_singleton.
      * assert (0 < size (preds (nodes_ s) m ∖ A))%nat; [| lia].
        apply Nat.neq_0_lt_0, size_non_empty_iff. intros He.
        apply (not_elem_of_empty (C := gset NodeID) n), He, elem_of_difference.
        rewrite elem_of_preds. eauto.
      * intros x ->%elem_of_singleton. apply elem_of_difference. rewrite elem_of_preds. eauto.
    + rewrite (difference_disjoint_L (preds (nodes_ s) m ∖ A) {[n]}); [lia |].
      intros x [Hx _]%elem_of_difference ->%elem_of_singleton.
      apply elem_of_preds in Hx as (nd' & ? & ?). simplify_eq. done.
  - intros a [Ha | ->%elem_of_singleton]%elem_of_union; eauto.
Qed.

(** Leaving it: the node is erased. *)
Lemma ginv_leave A P s n :
  ginv (A ∪ {[n]}) P s -> n ∉ A -> ginv A P (set_nodes (delete n (nodes_ s)) s).
Proof.
  intros [Gi Gc Gp Gn Gb Ga Gt] HnA.
  destruct (Ga n) as (nd & En & H0); [set_solver |].
  assert (preds (nodes_ s) n ∖ (A ∪ {[n]}) = ∅ /\ n ∉ P) as [Hpr HP].
  { specialize (Gn _ _ En). rewrite H0 in Gn. split.
    - apply leibniz_equiv, size_empty_iff. lia.
    - intros HP%occ_pos. lia. }
  assert (forall d, d ∈ dom (nodes_ s) -> d <> n -> d ∈ dom (delete n (nodes_ s))) as Hdom.
  { intros d. rewrite dom_delete_L. set_solver. }
  split; simpl.
  - intros m. rewrite dom_delete_L. set_solver.
  - intros m nm d HmA [Hne Em]%lookup_delete_Some Hd.
    assert (m ∉ A ∪ {[n]}) as HmA' by set_solver.
    apply Hdom; [eauto |]. intros ->.
    assert (m ∈ preds (nodes_ s) n ∖ (A ∪ {[n]})) as Hm.
    { apply elem_of_difference. rewrite elem_of_preds. eauto. }
    rewrite Hpr in Hm. set_solver.
  - intros d Hd. apply Hdom; [eauto |]. intros ->. done.
  - intros m nm [Hne Em]%lookup_delete_Some. rewrite (Gn _ _ Em), preds_delete.
    do 3 f_equal. set_solver.
  - intros m nm [Hne Em]%lookup_delete_Some. eauto.
  - intros a Ha. destruct (Ga a) as (nda & Ea & ?); [set_solver |]. exists nda.
    rewrite lookup_delete_ne; [done | set_solver].
  - intros m. rewrite Gt. setoid_rewrite lookup_delete_Some. split; [| naive_solver].
    intros (HI & nm & Em & Hp). split; [done |]. exists nm. repeat split; [| done | done].
    intros <-. simplify_eq. lia.
Qed.

(** The first pending decrement, [d] keeping its place in [tasks_]. *)
Lemma ginv_dec A d P s nd tasks' :
  ginv A (d :: P) s -> nodes_ s !! d = Some nd ->
  (forall n, n ∈ dom tasks' <->
     n ∈ dom (tasks_ s) /\ ~ (n = d /\ dependency_count_ nd = 1)) ->
  ginv A P (set_tasks tasks' (set_nodes
    (<[d := mkNode (dependents_ nd) (dependency_count_ nd - 1)]> (nodes_ s)) s)).
Proof.
  intros [Gi Gc Gp Gn Gb Ga Gt] Ed Ht.
  pose proof (Gn _ _ Ed) as Hc. rewrite occ_cons, decide_True in Hc by done.
  assert (forall m, m ∈ dom (<[d := mkNode (dependents_ nd) (dependency_count_ nd - 1)]> (nodes_ s))
          <-> m ∈ dom (nodes_ s)) as Hdom.
  { intros m. rewrite dom_insert_L. apply elem_of_dom_2 in Ed. set_solver. }
  split; simpl.
  - intros m. rewrite Hdom. auto.
  - intros m nm x HmA [[<- <-] | [Hne Em]]%lookup_insert_Some Hx; rewrite Hdom; eauto.
  - intros x Hx. rewrite Hdom. apply Gp. by right.
  - intros m nm Em. rewrite preds_set_count by done.
    apply lookup_insert_Some in Em as [[<- <-] | [Hne Em]]; simpl.
    + lia.
    + rewrite (Gn _ _ Em), occ_cons, decide_False by done. done.
  - intros m nm [[<- <-] | [Hne Em]]%lookup_insert_Some; simpl; [| eauto].
    specialize (Gb _ _ Ed). lia.
  - intros a Ha. destruct (Ga _ Ha) as (nda & Ea & H0). exists nda.
    rewrite lookup_insert_ne; [done |]. intros <-. simplify_eq. lia.
  - intros m. rewrite Ht, Gt. setoid_rewrite lookup_insert_Some. split.
    + intros [(HI & nm & Em & Hp) Hnot]. split; [done |].
      destruct (decide (d = m)) as [<- |]; [| eauto].
      simplify_eq. eexists. split; [left; done |]. simpl.
      assert (dependency_count_ nd <> 1) by naive_solver. lia.
    + intros (HI & nm & [[<- <-] | [Hne Em]] & Hp); simpl in *.
      * repeat split; [done | exists nd; split; [done | lia] | lia].
      * repeat split; [done | eauto | naive_solver].
Qed.

(** The frame of one decrement. *)
Lemma frame_dec s d nd :
  nodes_ s !! d = Some nd -> 0 < dependency_count_ nd ->
  frame {[d]} s (set_nodes
    (<[d := mkNode (dependents_ nd) (dependency_count_ nd - 1)]> (nodes_ s)) s) [].
Proof.
  intros Ed Hp. split; simpl.
  - intros m nd' [[<- <-] | [Hne Em]]%lookup_insert_Some; [exists nd | exists nd'];
      simpl; (split; [done | split; [done | lia]]).
  - intros m nm Hm Em. rewrite lookup_insert_ne by set_solver. congruence.
  - intros m nm nm' Hm Em. rewrite lookup_insert_ne by set_solver. congruence.
  - exists []. repeat split; [constructor | set_solver].
  - by rewrite app_nil_r.
  - by rewrite app_nil_r.
  - pose proof (total_count_insert (nodes_ s) d nd
      (mkNode (dependents_ nd) (dependency_count_ nd - 1)) Ed) as E. simpl in E. lia.
  - reflexivity.
Qed.

(** The frame of the release of a deferred task. *)
Lemma frame_release R s d t :
  tasks_ s !! d = Some t ->
  frame R s (addTaskIntoQueue t (set_tasks (delete d (tasks_ s)) s)) [t].
Proof.
  intros Ed. split; simpl; eauto with lia.
  - congruence.
  - intros; simplify_eq; lia.
  - exists [d]. simpl. rewrite Ed. repeat split.
    + apply NoDup_singleton.
    + intros i ->%list_elem_of_singleton. apply elem_of_dom. eauto.
    + intros i. destruct (decide (i = d)) as [-> | Hne].
      * rewrite lookup_delete_eq, decide_True; [done | by apply list_elem_of_singleton].
      * rewrite lookup_delete_ne, decide_False by (rewrite ?list_elem_of_singleton; done). done.
Qed.

(** One pass of the loop, given that the recursive call is correct. *)
Definition traversal_ok (fuel : nat) : Prop := forall A P s n nd,
  ginv A P s -> nodes_ s !! n = Some nd -> n ∉ A -> dependency_count_ nd = 0 ->
  (total_count (nodes_ s) < fuel)%nat ->
  exists s' released, processDependentsUnsafe fuel n s = Some s' /\ ginv A P s' /\
    frame {[n]} s s' released /\ nodes_ s' !! n = None.

Lemma process_dependent_ok fuel A P s d :
  traversal_ok fuel -> ginv A (d :: P) s -> (total_count (nodes_ s) <= fuel)%nat ->
  exists s' released, process_dependent (processDependentsUnsafe fuel) d s = Some s' /\
    ginv A P s' /\ frame ∅ s s' released.
Proof.
  intros IH G Hf.
  assert (is_Some (nodes_ s !! d)) as [nd Ed].
  { apply elem_of_dom, (g_pending _ _ _ G). left. }
  pose proof (g_count _ _ _ G _ _ Ed) as Hc. rewrite occ_cons, decide_True in Hc by done.
  pose proof (g_bound _ _ _ G _ _ Ed) as Hb.
  unfold process_dependent. rewrite Ed. simpl. rewrite decDependency_ok by lia. simpl.
  set (s1 := set_nodes _ s).
  assert (frame {[d]} s s1 []) as F1 by (apply frame_dec; [done | lia]).
  pose proof (g_tasks _ _ _ G d) as Gt.
  destruct (Z.eqb_spec (dependency_count_ nd - 1) 0) as [Hz | Hz].
  - destruct (IsTaskID d) eqn:HI.
    + (* the last predecessor of a deferred task *)
      assert (is_Some (tasks_ s !! d)) as [t Et].
      { apply elem_of_dom, Gt. split; [done |]. exists nd. split; [done | lia]. }
      unfold releaseTaskByID. rewrite HI. simpl. rewrite Et. simpl.
      eexists _, [t]. split; [reflexivity | split].
      * eapply ginv_ext, (ginv_dec _ _ _ _ _ (delete d (tasks_ s)) G Ed); [done | done |].
        intros n. rewrite dom_delete_L, elem_of_difference, elem_of_singleton.
        assert (dependency_count_ nd = 1) by lia. tauto.
      * pose proof (frame_trans _ _ _ _ _ _ F1 (frame_release {[d]} s1 d t Et)) as [N1 M1 W1 T1 Q1 X1 C1 Z1].
        split; [done | | | done | done | done | done | done].
        -- intros m nm _ Em Em'. exfalso. simpl in Em'.
           apply lookup_insert_None in Em'. naive_solver.
        -- intros m nm nm' _ Em Em' HCm Hp. simpl in Em'.
           apply lookup_insert_Some in Em' as [[-> _] | [_ Em']]; [| by simplify_eq].
           unfold IsTaskID in HI. by rewrite HCm in HI.
    + (* the last predecessor of a continuation *)
      assert (ginv A P s1) as G1.
      { apply (ginv_dec _ _ _ _ _ (tasks_ s) G Ed). intros n. split; [| tauto].
        intros Hn. split; [done |]. intros [-> _]. apply Gt in Hn as [? _]. congruence. }
      assert (d ∉ A) as HdA.
      { intros Ha. destruct (g_active _ _ _ G _ Ha) as (nda & Ea & H0). simplify_eq. lia. }
      destruct (IH A P s1 d (mkNode (dependents_ nd) (dependency_count_ nd - 1)) G1)
        as (s2 & l & E2 & G2 & F2 & N2); [by apply lookup_insert_eq | done | done | |].
      { pose proof (total_count_insert (nodes_ s) d nd
          (mkNode (dependents_ nd) (dependency_count_ nd - 1)) Ed) as E.
        simpl in E |- *. lia. }
      exists s2, l. split; [done | split; [done |]].
      apply (frame_shrink ∅ d s s2 l nd); [| done | done | | lia].
      * rewrite union_empty_l_L. apply (frame_trans _ _ _ _ [] l F1 F2).
      * unfold IsTaskID in HI. by destruct (IsContinuation d).
  - exists s1, []. split; [done | split].
    + apply (ginv_dec _ _ _ _ _ (tasks_ s) G Ed). intros n.
      split; [intros; split; [done | lia] | tauto].
    + destruct F1 as [N1 M1 W1 T1 Q1 X1 C1 Z1]. split; [done | | | done | done | done | done | done].
      * intros m nm _ Em Em'. exfalso. simpl in Em'.
        apply lookup_insert_None in Em'. naive_solver.
      * intros m nm nm' _ Em Em' HCm Hp. simpl in Em'.
        apply lookup_insert_Some in Em' as [[<- <-] | [_ Em']]; [simpl; lia | by simplify_eq].
Qed.

Lemma for_each_ok fuel A P L : forall s,
  traversal_ok fuel -> ginv A (L ++ P) s -> (total_count (nodes_ s) <= fuel)%nat ->
  exists s' released, for_each (process_dependent (processDependentsUnsafe fuel)) L s = Some s' /\
    ginv A P s' /\ frame ∅ s s' released.
Proof.
  induction L as [| d L IHL]; intros s IH G Hf; simpl.
  - exists s, []. split; [done | split; [done | apply frame_refl]].
  - destruct (process_dependent_ok fuel A (L ++ P) s d IH G Hf) as (s1 & l1 & E1 & G1 & F1).
    rewrite E1. simpl.
    destruct (IHL s1 IH G1) as (s2 & l2 & E2 & G2 & F2).
    { pose proof (f_total _ _ _ _ F1). lia. }
    exists s2, (l1 ++ l2). split; [done | split; [done |]]. by eapply frame_trans.
Qed.

Lemma frame_erase R s s1 n l :
  frame ∅ s s1 l -> n ∈ R -> frame R s (set_nodes (delete n (nodes_ s1)) s1) l.
Proof.
  intros [N1 M1 W1 T1 Q1 X1 C1 Z1] HR. split; simpl; try done.
  - intros m nd' [_ Em]%lookup_delete_Some. eauto.
  - intros m nd Hm Em [-> | Em']%lookup_delete_None; [done |]. eapply M1; eauto. set_solver.
  - intros m nd nd' Hm Em [_ Em']%lookup_delete_Some. eapply W1; eauto. set_solver.
  - pose proof (total_count_delete (nodes_ s1) n). lia.
Qed.

Lemma processDependentsUnsafe_ok fuel : traversal_ok fuel.
Proof.
  induction fuel as [| fuel IH]; intros A P s n nd G En HnA H0 Hf; [lia |].
  simpl. rewrite En. simpl. rewrite H0. simpl.
  destruct (for_each_ok fuel (A ∪ {[n]}) P (set_iter (dependents_ nd)) s IH)
    as (s1 & l & E1 & G1 & F1); [by apply ginv_enter | lia |].
  rewrite E1. simpl. eexists _, l. split; [reflexivity | split; [| split]].
  - by apply ginv_leave.
  - apply frame_erase; [done | set_solver].
  - apply lookup_delete_eq.
Qed.

(** The traversal from a free node of a well-formed graph. *)
Lemma processDependents_ok s n nd :
  graph_inv s -> nodes_ s !! n = Some nd -> dependency_count_ nd = 0 ->
  exists s' released, processDependents n s = Some s' /\ graph_inv s' /\
    frame {[n]} s s' released /\ nodes_ s' !! n = None.
Proof.
  intros G En H0. unfold processDependents. rewrite En.
  destruct (processDependentsUnsafe_ok (S (total_count (nodes_ s))) ∅ [] s n nd)
    as (s' & l & E & G' & F & N); [done | done | set_solver | done | lia |]. eauto 10.
Qed.

(** ** Links *)

(** A set of node identifiers is smaller than [2^64]. *)
Lemma ids_bound (X : gset NodeID) N :
  1 < N -> (forall n, n ∈ X -> 0 < n < N) -> Z.of_nat (size X) < N.
Proof.
  intros HN HX.
  assert (length (elements X) <= length (seqZ 1 (N - 1)))%nat as Hs.
  { apply submseteq_length, NoDup_submseteq.
    - apply NoDup_elements.
    - intros n Hn. apply elem_of_elements, HX in Hn. apply elem_of_seqZ. lia. }
  rewrite length_seqZ in Hs. unfold size, set_size. simpl. lia.
Qed.

Definition link (dep dpt : NodeID) (nodes : gmap NodeID Node) : gmap NodeID Node :=
  let n1 := <[dep := addDependent dpt (node_ref nodes dep)]> nodes in
  <[dpt := incDependency (node_ref n1 dpt)]> n1.

Lemma addLinkUnsafe_link dep dpt nodes :
  dpt ∉ dependents_ (node_ref nodes dep) -> addLinkUnsafe dep dpt nodes = link dep dpt nodes.
Proof.
  intros H. unfold addLinkUnsafe, link, hasDependent.
  assert (node_ref (<[dep := node_ref nodes dep]> nodes) dep = node_ref nodes dep) as ->
    by (unfold node_ref at 1; by rewrite lookup_insert_eq).
  rewrite bool_decide_eq_false_2 by done. by rewrite insert_insert_eq.
Qed.

Lemma addLinkUnsafe_present dep dpt nodes :
  dpt ∈ dependents_ (node_ref nodes dep) -> addLinkUnsafe dep dpt nodes = nodes.
Proof.
  intros H. unfold addLinkUnsafe, hasDependent.
  assert (node_ref (<[dep := node_ref nodes dep]> nodes) dep = node_ref nodes dep) as ->
    by (unfold node_ref at 1; by rewrite lookup_insert_eq).
  rewrite bool_decide_eq_true_2 by done. unfold node_ref in *.
  destruct (nodes !! dep) as [nd |] eqn:E; simpl in *; [by rewrite insert_id | set_solver].
Qed.

Lemma link_lookup dep dpt nodes m :
  link dep dpt nodes !! m =
    if decide (m = dep \/ m = dpt \/ m ∈ dom nodes) then
      Some (mkNode
        (if decide (m = dep) then {[dpt]} ∪ dependents_ (node_ref nodes m)
         else dependents_ (node_ref nodes m))
        (if decide (m = dpt) then to_u64 (dependency_count_ (node_ref nodes m) + 1)
         else dependency_count_ (node_ref nodes m)))
    else None.
Proof.
  unfold link.
  assert (node_ref (<[dep := addDependent dpt (node_ref nodes dep)]> nodes) dpt =
          if decide (dpt = dep) then addDependent dpt (node_ref nodes dep)
          else node_ref nodes dpt) as ->.
  { unfold node_ref at 1. case_decide as Hd; [subst; by rewrite lookup_insert_eq |].
    by rewrite lookup_insert_ne by congruence. }
  destruct (decide (m = dep \/ m = dpt \/ m ∈ dom nodes)) as [Hin | Hout].
  - destruct (decide (m = dpt)) as [-> | H1].
    + rewrite lookup_insert_eq. case_decide; subst; reflexivity.
    + rewrite lookup_insert_ne by congruence. destruct (decide (m = dep)) as [-> | H2].
      * rewrite lookup_insert_eq. reflexivity.
      * rewrite lookup_insert_ne by congruence. unfold node_ref.
        assert (m ∈ dom nodes) as Hm by tauto. apply elem_of_dom in Hm as [nd E]. rewrite E. by destruct nd.
  - rewrite !lookup_insert_ne by naive_solver. apply not_elem_of_dom. tauto.
Qed.

Lemma link_dom dep dpt nodes : dom (link dep dpt nodes) = {[dep; dpt]} ∪ dom nodes.
Proof.
  apply set_eq. intros m. rewrite elem_of_dom, link_lookup.
  case_decide as H; [rewrite is_Some_alt | split; [intros [? ?]; done |]]; set_solver.
Qed.

Lemma link_preds dep dpt nodes x :
  preds (link dep dpt nodes) x =
    if decide (x = dpt) then {[dep]} ∪ preds nodes x else preds nodes x.
Proof.
  apply set_eq. intros m.
  assert (forall y, y ∈ preds nodes x <-> x ∈ dependents_ (node_ref nodes y)) as Hp.
  { intros y. rewrite elem_of_preds. unfold node_ref.
    destruct (nodes !! y) as [nd |]; simpl; [naive_solver | set_solver]. }
  assert (m ∈ preds (link dep dpt nodes) x <-> m ∈ preds nodes x \/ (m = dep /\ x = dpt)) as ->.
  { rewrite Hp, elem_of_preds. setoid_rewrite link_lookup. case_decide as Hm.
    - split.
      + intros (nd & [= <-] & Hx). simpl in Hx. case_decide; set_solver.
      + intros Hx. eexists. split; [done |]. simpl. case_decide; set_solver.
    - split; [naive_solver |]. intros [Hx | [-> _]]; [| tauto].
      unfold node_ref in Hx. rewrite (not_elem_of_dom_1 nodes m) in Hx; set_solver. }
  case_decide; set_solver.
Qed.

(** A new link keeps the invariant, when the dependent is a continuation or
    one of the deferred tasks [tasks']. *)
Lemma ginv_link s dep dpt tasks' :
  ginv ∅ [] s -> 0 < dep < 2 ^ 64 -> 0 < dpt < 2 ^ 64 ->
  dpt ∉ dependents_ (node_ref (nodes_ s) dep) ->
  (forall n, n ∈ dom tasks' <-> n ∈ dom (tasks_ s) \/ (n = dpt /\ IsTaskID dpt = true)) ->
  ginv ∅ [] (set_tasks tasks' (set_nodes (link dep dpt (nodes_ s)) s)).
Proof.
  intros [Gi Gc Gp Gn Gb Ga Gt] Hdep Hdpt Hnew Ht.
  assert (forall n, n ∈ dom (link dep dpt (nodes_ s)) -> 0 < n < 2 ^ 64) as Hids.
  { intros n. rewrite link_dom, elem_of_union, elem_of_union, !elem_of_singleton. naive_solver. }
  assert (forall n, dependency_count_ (node_ref (nodes_ s) n) =
            Z.of_nat (size (preds (nodes_ s) n))) as Hc.
  { intros n. unfold node_ref. destruct (nodes_ s !! n) as [nd |] eqn:E; simpl.
    - rewrite (Gn _ _ E), difference_empty_L, occ_nil. lia.
    - assert (preds (nodes_ s) n = ∅) as ->; [| done].
      apply elem_of_equiv_empty_L. intros m (nd & Em & Hn)%elem_of_preds.
      apply (Gc m nd n) in Hn; [| set_solver | done]. apply elem_of_dom in Hn as [? ?]. congruence. }
  assert (forall n, Z.of_nat (size (preds (link dep dpt (nodes_ s)) n)) < 2 ^ 64) as Hb.
  { intros n. apply ids_bound; [lia |]. intros m (nd & Em & _)%elem_of_preds.
    apply Hids, elem_of_dom. eauto. }
  assert (dep ∉ preds (nodes_ s) dpt) as Hfresh.
  { intros (nd & Em & Hn)%elem_of_preds. apply Hnew. unfold node_ref. by rewrite Em. }
  assert (forall n nd, link dep dpt (nodes_ s) !! n = Some nd ->
            dependency_count_ nd = Z.of_nat (size (preds (link dep dpt (nodes_ s)) n))) as Hcount.
  { intros n nd. rewrite link_lookup. case_decide as Hm; [| done]. intros [= <-]. simpl.
    specialize (Hb n). rewrite link_preds in Hb |- *. case_decide as Hn; [| apply Hc].
    subst n. rewrite size_union, size_singleton in Hb |- * by set_solver.
    rewrite Hc, wrapu_id by (unfold is_u; lia). lia. }
  split; simpl.
  - exact Hids.
  - intros m nd d _ Em Hd. rewrite link_dom.
    rewrite link_lookup in Em. case_decide as Hm; [| done]. injection Em as <-. simpl in Hd.
    assert (d = dpt \/ d ∈ dependents_ (node_ref (nodes_ s) m)) as [-> | Hd'];
      [case_decide; set_solver | set_solver |].
    unfold node_ref in Hd'. destruct (nodes_ s !! m) as [nm |] eqn:Em'; [| set_solver].
    apply (Gc m nm d) in Hd'; set_solver.
  - set_solver.
  - intros n nd En. rewrite (Hcount _ _ En), difference_empty_L, occ_nil. lia.
  - intros n nd En. rewrite (Hcount _ _ En). apply Hb.
  - set_solver.
  - intros n. rewrite Ht, Gt. setoid_rewrite link_lookup. split.
    + intros [(HI & nd & En & Hp) | [-> HI]]; (split; [done |]).
      * rewrite decide_True by (right; right; apply elem_of_dom; eauto).
        eexists. split; [done |]. simpl. unfold node_ref. rewrite En. simpl.
        case_decide as Hn; [| done]. subst n. specialize (Hb dpt).
        rewrite link_preds, decide_True, size_union, size_singleton in Hb by set_solver.
        specialize (Hc dpt). unfold node_ref in Hc. rewrite En in Hc. simpl in Hc.
        rewrite wrapu_id by (unfold is_u; lia). lia.
      * rewrite decide_True by tauto. eexists. split; [done |]. simpl.
        rewrite decide_True by done. specialize (Hb dpt).
        rewrite link_preds, decide_True, size_union, size_singleton in Hb by set_solver.
        rewrite Hc, wrapu_id by (unfold is_u; lia). lia.
    + intros (HI & nd & En & Hp). case_decide as Hm; [| done].
      destruct (decide (n = dpt)) as [-> | Hne]; [tauto |]. left. split; [done |].
      injection En as <-. simpl in Hp. unfold node_ref in Hp.
      destruct (nodes_ s !! n) as [nd |] eqn:E; [eauto | simpl in Hp; lia].
Qed.

(** ** Reading the invariant *)

Lemma graph_preds_dom s n : graph_inv s -> preds (nodes_ s) n <> ∅ -> n ∈ dom (nodes_ s).
Proof.
  intros G Hp. apply set_choose_L in Hp as [m (nd & Em & Hn)%elem_of_preds].
  by eapply (g_closed _ _ _ G); [| exact Em |]; [set_solver |].
Qed.

Lemma graph_count s n nd : graph_inv s -> nodes_ s !! n = Some nd ->
  dependency_count_ nd = Z.of_nat (size (preds (nodes_ s) n)).
Proof. intros G En. rewrite (g_count _ _ _ G _ _ En), difference_empty_L, occ_nil. lia. Qed.

Lemma graph_deferred s t : graph_inv s ->
  t ∈ dom (tasks_ s) <-> IsTaskID t = true /\ preds (nodes_ s) t <> ∅.
Proof.
  intros G. rewrite (g_tasks _ _ _ G t). split.
  - intros (HI & nd & En & Hp). split; [done |]. rewrite (graph_count _ _ _ G En) in Hp.
    intros E. rewrite E, size_empty in Hp. lia.
  - intros [HI Hp]. split; [done |].
    pose proof (graph_preds_dom _ _ G Hp) as Hd. apply elem_of_dom in Hd as [nd En]. exists nd.
    split; [done |]. rewrite (graph_count _ _ _ G En).
    assert (size (preds (nodes_ s) t) <> 0)%nat; [| lia].
    apply size_non_empty_iff. by rewrite leibniz_equiv_iff.
Qed.

(** *** Deferred tasks that are not stored yet *)

(** The scheduler with the tasks of [M] in its table. *)
Definition store_all (M : gmap TaskID (Task Body)) s : @Scheduler Body := set_tasks (tasks_ s ∪ M) s.

Lemma store_all_empty s : store_all ∅ s = s.
Proof. unfold store_all. rewrite map_union_empty. by destruct s. Qed.

(** A call that does not fail for want of a task does the same when there are
    more of them. *)
Definition extends (M : gmap TaskID (Task Body)) (f : Scheduler Body -> option (Scheduler Body)) : Prop :=
  forall s s', M ##ₘ tasks_ s -> f s = Some s' -> f (store_all M s) = Some (store_all M s') /\ M ##ₘ tasks_ s'.

Lemma for_each_store M f l : (forall x, extends M (f x)) -> extends M (for_each f l).
Proof.
  intros Hf. induction l as [| x l IH]; intros s s' HM E; simpl in *; [by simplify_eq |].
  destruct (f x s) as [s1 |] eqn:E1; [| done]. simpl in E. destruct (Hf x s s1 HM E1) as [-> HM1]. simpl. auto.
Qed.

Lemma release_store M i s t s' : M ##ₘ tasks_ s -> releaseTaskByID i s = Some (t, s') ->
  releaseTaskByID i (store_all M s) = Some (t, store_all M s') /\ M ##ₘ tasks_ s'.
Proof.
  intros HM. unfold releaseTaskByID, DCHECK. destruct (IsTaskID i); [| done]. simpl.
  destruct (tasks_ s !! i) as [t0 |] eqn:Et; [| done]. simpl. intros [= <- <-]. simpl.
  assert (M !! i = None) as Hi by (by eapply map_disjoint_Some_r).
  rewrite lookup_union, Et, Hi. simpl. split; [| by apply map_disjoint_delete_r].
  unfold store_all, set_tasks. simpl. rewrite delete_union, (delete_id M) by done. done.
Qed.

Lemma process_dependent_store M self d : (forall n, extends M (self n)) -> extends M (process_dependent self d).
Proof.
  intros Hs s s' HM. unfold process_dependent. simpl. destruct (nodes_ s !! d) as [nd |]; [| done]. simpl.
  destruct (decDependency nd) as [nd' |]; [| done]. simpl. set (s1 := set_nodes _ s).
  change (set_nodes _ (store_all M s)) with (store_all M s1).
  destruct (dependency_count_ nd' =? 0); [| intros [= <-]; done].
  destruct (IsTaskID d); [| by apply Hs].
  destruct (releaseTaskByID d s1) as [[t s2] |] eqn:Er; [| done]. simpl. intros [= <-].
  destruct (release_store M d s1 t s2 HM Er) as [-> HM2]. done.
Qed.

Lemma processDependents_store M n : extends M (processDependents n).
Proof.
  assert (forall fuel n, extends M (processDependentsUnsafe fuel n)) as Hu.
  { induction fuel as [| fuel IH]; intros m s s' HM; [done |]. cbn [processDependentsUnsafe].
    change (nodes_ (store_all M s)) with (nodes_ s). destruct (nodes_ s !! m) as [nd |]; [| done]. simpl.
    destruct (DCHECK _); [| done]. simpl.
    destruct (for_each _ _ s) as [s1 |] eqn:E1; [| done]. simpl. intros [= <-].
    destruct (for_each_store M _ _ (fun d => process_dependent_store M _ d IH) s s1 HM E1) as [-> HM1]. done. }
  intros s s' HM. unfold processDependents. change (nodes_ (store_all M s)) with (nodes_ s).
  destruct (nodes_ s !! n); [apply Hu, HM | intros [= <-]; done].
Qed.

End Graph.
