(* ===== verification/SchedulerSystem.v ===== *)
(** * The scheduler at work: interleavings of clients, workers and the loop

    The scheduler thread, the workers and the clients (the main thread and the
    tasks that run on workers) as a step relation on the shared state.  Each
    step is one critical section of the code, or a sequence of them that no
    other thread can tell apart.  [addTask] is two steps, since it releases
    [nodes_mutex_] before the task reaches the queue or the table: the tasks in
    between are a component of the state.  Pushing a task to the queue and
    sending the message about it are one step, since the message carries nothing
    and one that arrives after the task has been seen is ignored.

    A step whose definition is undefined (a failed check) does not exist: the
    system is stuck there, and [addTask_publication_race] shows that it can be.

    The state carries three ghost components that no step reads: the
    identifiers whose completion or firing has been processed ([fired]), the
    tasks completed ([finished]) and the dependencies declared ([edges]). *)

From Stdlib Require Import ZArith Lia.
From stdpp Require Import base numbers list gmap option relations.
From S2P Require Import Prelude Scheduler SchedulerGraph.
Import stdpp.list_basics.list stdpp.list_relations.list stdpp.list_monad.list.

Local Open Scope Z_scope.

(** Where the scheduler thread is in [execute]: before [processTaskQueue], at
    [popOne], or past the loop. *)
Inductive LoopPC := AtQueue | AtMessage | Stopped.

Section System.
Context {Body : Type} {order : SetOrder}.

Record Sys := mkSys {
  sched : @Scheduler Body;
  pc : LoopPC;
  fired : gset NodeID;
  finished : list TaskID;
  edges : gset (NodeID * NodeID);
  (** The tasks of the calls of [addTask] that have released [nodes_mutex_]: those
      about to enter the queue, and those about to enter [tasks_]. *)
  unqueued : list (Task Body);
  unstored : gmap TaskID (Task Body)
}.

Implicit Types s : @Scheduler Body.
Implicit Types y : Sys.

(** An identifier handed out by [allocateTaskID] or [allocateContinuation]. *)
Definition allocated s (n : NodeID) : Prop :=
  0 < n < task_counter_ s \/ kContinuationMask < n < continuation_counter_ s.

(** The contract of the identifiers a client passes: a dependency is allocated
    and not yet done; a dependent moreover is a continuation or a task that is
    still deferred. *)
Definition dependency_ok y (n : NodeID) : Prop := allocated (sched y) n /\ n ∉ fired y.

Definition dependent_ok y (n : NodeID) : Prop :=
  allocated (sched y) n /\ (n ∉ fired y) /\
  (IsContinuation n = true \/ n ∈ dom (tasks_ (sched y)) ∪ dom (unstored y)).

Definition edge_if (b : bool) (e : NodeID * NodeID) : gset (NodeID * NodeID) :=
  if b then {[e]} else ∅.

(** What processing [n] marks as done. *)
Definition mark (n : NodeID) s s' (F : gset NodeID) : gset NodeID :=
  F ∪ {[n]} ∪ (dom (nodes_ s) ∖ dom (nodes_ s')).

Inductive step : Sys -> Sys -> Prop :=
  | step_allocate s p F D E U M c s' :
      continuation_counter_ s < 2 ^ 64 - 1 ->
      allocateContinuation s = (c, s') ->
      step (mkSys s p F D E U M) (mkSys s' p F D E U M)
  | step_link s p F D E U M t dependency dependent task s' :
      task_counter_ s < kContinuationMask ->
      (dependency = kInvalidNodeID \/ dependency_ok (mkSys s p F D E U M) dependency) ->
      (dependent = kInvalidNodeID \/ dependent_ok (mkSys s p F D E U M) dependent) ->
      addTask_link t dependency dependent s = Some (task, s') ->
      step (mkSys s p F D E U M)
        (mkSys s' p F D (E ∪ edge_if (negb (dependency =? kInvalidNodeID)) (dependency, task_id_ task)
                           ∪ edge_if (negb (dependent =? kInvalidNodeID)) (task_id_ task, dependent))
           (if dependency =? kInvalidNodeID then U ++ [task] else U)
           (if dependency =? kInvalidNodeID then M else <[task_id_ task := task]> M))
  | step_enqueue s p F D E U1 t U2 M :
      step (mkSys s p F D E (U1 ++ t :: U2) M) (mkSys (addTaskIntoQueue t s) p F D E (U1 ++ U2) M)
  | step_store s p F D E U M i t :
      M !! i = Some t ->
      step (mkSys s p F D E U M) (mkSys (addTask_store t s) p F D E U (delete i M))
  | step_addLink s p F D E U M dependency dependent :
      dependency_ok (mkSys s p F D E U M) dependency ->
      dependent_ok (mkSys s p F D E U M) dependent ->
      step (mkSys s p F D E U M)
        (mkSys (addLink dependency dependent s) p F D (E ∪ {[(dependency, dependent)]}) U M)
  | step_fire s p F D E U M c s' :
      IsContinuation c = true -> dependency_ok (mkSys s p F D E U M) c ->
      preds (nodes_ s) c = ∅ ->
      fire c s = Some s' ->
      step (mkSys s p F D E U M) (mkSys s' p (mark c s s' F) D E U M)
  | step_receive s p F D E U M i w w' :
      workers_ s !! i = Some w -> worker_receive w = Some w' ->
      step (mkSys s p F D E U M) (mkSys (set_workers (<[i := w']> (workers_ s)) s) p F D E U M)
  | step_finish s p F D E U M i w w' d t0 t1 m :
      workers_ s !! i = Some w -> worker_finish d t0 t1 w = Some (w', m) ->
      step (mkSys s p F D E U M)
        (mkSys (sendMessage m (set_workers (<[i := w']> (workers_ s)) s)) p F D E U M)
  | step_join s p F D E U M s' :
      join_post s = Some s' ->
      step (mkSys s p F D E U M) (mkSys s' p F D E U M)
  | step_queue s F D E U M s' :
      processTaskQueue s = Some s' -> execute_exits s' = false ->
      step (mkSys s AtQueue F D E U M) (mkSys s' AtMessage F D E U M)
  | step_exit s F D E U M s' :
      processTaskQueue s = Some s' -> execute_exits s' = true ->
      step (mkSys s AtQueue F D E U M) (mkSys (stop_workers s') Stopped F D E U M)
  | step_message s F D E U M s' :
      execute_message s = Some s' ->
      step (mkSys s AtMessage F D E U M)
        (match scheduler_msg_queue_ s with
         | SchedulerTaskCompletionMessage _ t :: _ =>
             mkSys s' AtQueue (mark t s s' F) (D ++ [t]) E U M
         | _ => mkSys s' AtQueue F D E U M
         end).

(** A scheduler just constructed and started. *)
Definition initial y : Prop := exists n pin hw s0 s1,
  newScheduler n pin hw = Some s0 /\ start s0 = Some s1 /\ y = mkSys s1 AtQueue ∅ [] ∅ [] ∅.

Definition reachable y : Prop := exists y0, initial y0 /\ rtc step y0 y.

(** ** Where a task is *)

Definition message_task (m : WorkerMessage Body) : list TaskID :=
  match m with WorkerTaskMessage t => [task_id_ t] | WorkerJoinMessage => [] end.

Definition worker_tasks (w : Worker Body) : list TaskID :=
  (worker_msg_queue_ w ≫= message_task) ++
  (match current w with Some t => [task_id_ t] | None => [] end).

Definition completion_task (m : SchedulerMessage) : list TaskID :=
  match m with SchedulerTaskCompletionMessage _ t => [t] | _ => [] end.

Definition completion_worker (m : SchedulerMessage) : list WorkerID :=
  match m with SchedulerTaskCompletionMessage w _ => [w] | _ => [] end.

(** A task that has left the table of deferred tasks: queued, sent to a worker,
    running, or completed. *)
Definition dispatched y : list TaskID :=
  (task_id_ <$> task_queue_ (sched y)) ++
  (workers_ (sched y) ≫= worker_tasks) ++
  (scheduler_msg_queue_ (sched y) ≫= completion_task) ++ finished y.

(** The scheduler with the deferred tasks that are about to be stored. *)
Definition settle y : Sys :=
  mkSys (store_all (unstored y) (sched y)) (pc y) (fired y) (finished y) (edges y) (unqueued y) ∅.

Definition places y (n : TaskID) : nat :=
  ((if decide (n ∈ dom (tasks_ (sched y))) then 1 else 0) + occ (task_id_ <$> unqueued y) n +
   occ (dispatched y) n)%nat.

Definition busy (w : Worker Body) : list WorkerID := (fun _ => worker_id_ w) <$> worker_tasks w.

(** A worker is on the stack of available ones, or has one task, or its
    completion message is on its way. *)
Definition slots y (i : WorkerID) : nat :=
  (occ (available_workers_ (sched y)) i + occ (workers_ (sched y) ≫= busy) i +
   occ (scheduler_msg_queue_ (sched y) ≫= completion_worker) i)%nat.

(** The tasks the scheduler holds. *)
Definition held_message (m : WorkerMessage Body) : list (Task Body) :=
  match m with WorkerTaskMessage t => [t] | WorkerJoinMessage => [] end.

Definition held s (t : Task Body) : Prop :=
  t ∈ task_queue_ s \/ (exists i, tasks_ s !! i = Some t) \/
  exists i w, workers_ s !! i = Some w /\
    (t ∈ worker_msg_queue_ w ≫= held_message \/ current w = Some t).

(** The invariant of a settled state. *)
Record core_inv y : Prop := {
  i_graph : graph_inv (sched y);
  i_task_counter : 0 < task_counter_ (sched y) <= kContinuationMask;
  i_cont_counter : kContinuationMask < continuation_counter_ (sched y) < 2 ^ 64;
  i_nodes : forall n, n ∈ dom (nodes_ (sched y)) -> allocated (sched y) n;
  i_keys : forall i t, tasks_ (sched y) !! i = Some t -> task_id_ t = i;
  i_places : forall n, places y n = if decide (0 < n < task_counter_ (sched y)) then 1%nat else 0%nat;
  i_worker_ids : forall i w, workers_ (sched y) !! i = Some w -> worker_id_ w = Z.of_nat i;
  i_num_workers : length (workers_ (sched y)) = num_workers_ (sched y);
  i_slots : forall i, slots y i =
    if decide (0 <= i < Z.of_nat (num_workers_ (sched y))) then 1%nat else 0%nat;
  i_wakeup : pc y = AtMessage -> task_queue_ (sched y) = [] \/ available_workers_ (sched y) = [] \/
    SchedulerNewTaskMessage ∈ scheduler_msg_queue_ (sched y);
  i_edges : forall a b, (a, b) ∈ edges y -> a ∈ fired y \/ a ∈ preds (nodes_ (sched y)) b;
  i_fired : forall n, n ∈ fired y -> allocated (sched y) n /\ n ∉ dom (nodes_ (sched y));
  i_past : forall a b, (a, b) ∈ edges y -> b ∈ fired y -> a ∈ fired y;
  i_finished : forall n, n ∈ fired y -> IsTaskID n = true -> n ∈ finished y;
  i_continuation : forall t, held (sched y) t \/ t ∈ unqueued y -> continuation_ t <> kInvalidNodeID ->
    (task_id_ t, continuation_ t) ∈ edges y;
  i_some_worker : (0 < num_workers_ (sched y))%nat
}.

Local Abbreviation core s p F D E U := (mkSys s p F D E U ∅).

(** ** Counting lemmas *)

Lemma occ_bind_insert {X} (f : X -> list Z) ws i w w' n :
  ws !! i = Some w ->
  (occ (<[i := w']> ws ≫= f) n + occ (f w) n = occ (ws ≫= f) n + occ (f w') n)%nat.
Proof.
  intros E. rewrite (insert_take_drop ws i w') by (by eapply lookup_lt_Some).
  rewrite <- (take_drop_middle ws i w E) at 3.
  rewrite !bind_app, !bind_cons, !occ_app. lia.
Qed.

Lemma bind_snoc {X} (f : X -> list Z) l x : (l ++ [x]) ≫= f = (l ≫= f) ++ f x.
Proof. rewrite bind_app. simpl. by rewrite app_nil_r. Qed.

Lemma bind_replicate_nil {X} (f : X -> list Z) k x : f x = [] -> (replicate k x ≫= f) = [].
Proof. intros E. induction k; simpl; [done |]. by rewrite E. Qed.

Lemma allocated_range y n : core_inv y -> allocated (sched y) n -> 0 < n < 2 ^ 64.
Proof.
  intros I. pose proof (i_task_counter _ I). pose proof (i_cont_counter _ I).
  rewrite mask_val in *. intros [? | ?]; rewrite ?mask_val in *; lia.
Qed.

Lemma task_id_kind s n :
  task_counter_ s <= kContinuationMask -> 0 < n < task_counter_ s -> IsTaskID n = true.
Proof.
  rewrite mask_val. intros H1 H2. unfold IsTaskID.
  rewrite IsContinuation_spec by (unfold is_u; lia). rewrite (proj2 (Z.leb_gt _ _)); [done | lia].
Qed.

Lemma cont_id_kind s n :
  continuation_counter_ s < 2 ^ 64 -> kContinuationMask < n < continuation_counter_ s ->
  IsContinuation n = true.
Proof.
  rewrite mask_val. intros H1 H2.
  rewrite IsContinuation_spec by (unfold is_u; lia). apply Z.leb_le. lia.
Qed.

(** ** Processing a node *)

Lemma process_ok s n :
  graph_inv s -> (forall nd, nodes_ s !! n = Some nd -> dependency_count_ nd = 0) ->
  exists s' rel, processDependents n s = Some s' /\ graph_inv s' /\ frame {[n]} s s' rel /\
    n ∉ dom (nodes_ s').
Proof.
  intros G Hc. destruct (nodes_ s !! n) as [nd |] eqn:En.
  - destruct (processDependents_ok s n nd G En (Hc nd eq_refl)) as (s' & rel & E & G' & F & N).
    exists s', rel. by rewrite not_elem_of_dom.
  - exists s, []. unfold processDependents. rewrite En.
    split; [done | split; [done | split; [apply frame_refl | by apply not_elem_of_dom]]].
Qed.

Lemma frame_places R s s' rel :
  (forall i t, tasks_ s !! i = Some t -> task_id_ t = i) -> frame R s s' rel ->
  forall n, ((if decide (n ∈ dom (tasks_ s')) then 1 else 0) + occ (task_id_ <$> task_queue_ s') n =
    (if decide (n ∈ dom (tasks_ s)) then 1 else 0) + occ (task_id_ <$> task_queue_ s) n)%nat.
Proof.
  intros Hk F n. destruct (f_tasks _ _ _ _ F) as (ids & El & HN & Hin & HT).
  rewrite (f_queue _ _ _ _ F), fmap_app, occ_app.
  assert (task_id_ <$> rel = ids) as ->.
  { rewrite El. clear El HN HT. induction ids as [| i ids IH]; [done |]. csimpl.
    assert (is_Some (tasks_ s !! i)) as [t Et] by (apply elem_of_dom, Hin; left).
    rewrite Et. csimpl. rewrite (Hk _ _ Et), IH; [done |]. intros j Hj. apply Hin. by right. }
  assert (occ ids n = if decide (n ∈ ids) then 1 else 0)%nat as ->.
  { case_decide as Hn; [| destruct (occ ids n) eqn:E; [done | exfalso; apply Hn, occ_pos; lia]].
    clear -HN Hn. induction HN as [| j ids Hj HN IH]; [by apply not_elem_of_nil in Hn |].
    rewrite occ_cons. case_decide as Hd.
    - subst. destruct (occ ids j) eqn:E; [done | exfalso; apply Hj, occ_pos; lia].
    - rewrite IH; [done |]. by apply elem_of_cons in Hn as [|]. }
  assert (n ∈ dom (tasks_ s') <-> n ∈ dom (tasks_ s) /\ n ∉ ids) as Hd.
  { rewrite !elem_of_dom, HT. case_decide; [| tauto]. split; [intros [? ?]; done | tauto]. }
  specialize (Hin n). repeat case_decide; try tauto; lia.
Qed.

(** The edges after a node has been processed. *)
Lemma mark_edges s s' (n : NodeID) (F : gset NodeID) (E : gset (NodeID * NodeID)) rel :
  graph_inv s -> graph_inv s' -> frame {[n]} s s' rel -> n ∉ dom (nodes_ s') ->
  (forall a b : NodeID, (a, b) ∈ E -> a ∈ F \/ a ∈ preds (nodes_ s) b) ->
  (forall a b : NodeID, (a, b) ∈ E -> b ∈ F -> a ∈ F) ->
  (forall a b : NodeID, (a, b) ∈ E -> a ∈ mark n s s' F \/ a ∈ preds (nodes_ s') b) /\
  (forall a b : NodeID, (a, b) ∈ E -> b ∈ mark n s s' F -> a ∈ mark n s s' F).
Proof.
  intros G G' Fr Hn H1 H2.
  assert (forall a b : NodeID, (a, b) ∈ E -> a ∈ mark n s s' F \/ a ∈ preds (nodes_ s') b) as H1'.
  { intros a b Hab. destruct (H1 _ _ Hab) as [Ha | (nd & Ea & Hb)%elem_of_preds].
    { left. unfold mark. set_solver. }
    destruct (nodes_ s' !! a) as [nd' |] eqn:Ea'.
    - right. apply elem_of_preds. exists nd'. split; [done |].
      destruct (f_nodes _ _ _ _ Fr _ _ Ea') as (nd0 & ? & -> & _). by simplify_eq.
    - left. unfold mark. apply elem_of_union_r, elem_of_difference.
      rewrite elem_of_dom, not_elem_of_dom. eauto. }
  split; [done |]. intros a b Hab Hb.
  destruct (H1' _ _ Hab) as [? | Hp]; [done |].
  apply elem_of_preds in Hp as (nd & Ea & Hd).
  pose proof (g_closed _ _ _ G' a nd b ltac:(set_solver) Ea Hd) as Hdom.
  unfold mark in Hb. apply elem_of_union in Hb as [[HbF | ->%elem_of_singleton]%elem_of_union | Hb].
  - unfold mark. apply elem_of_union_l, elem_of_union_l. eauto.
  - done.
  - set_solver.
Qed.

Lemma frame_fields R s s' rel : frame R s s' rel ->
  thread_ s' = thread_ s /\ num_workers_ s' = num_workers_ s /\ workers_ s' = workers_ s /\
  available_workers_ s' = available_workers_ s /\ task_counter_ s' = task_counter_ s /\
  continuation_counter_ s' = continuation_counter_ s /\ halt_ s' = halt_ s.
Proof. intros F. pose proof (f_rest _ _ _ _ F) as E. injection E. intros. by subst. Qed.

Lemma frame_task R s s' rel i t :
  frame R s s' rel -> tasks_ s' !! i = Some t -> tasks_ s !! i = Some t.
Proof.
  intros F. destruct (f_tasks _ _ _ _ F) as (ids & _ & _ & _ & ->). by case_decide.
Qed.

Lemma frame_held R s s' rel t : frame R s s' rel -> held s' t -> held s t.
Proof.
  intros F. destruct (frame_fields _ _ _ _ F) as (_ & _ & Ew & _).
  intros [Hq | [[i Hi] | Hw]].
  - rewrite (f_queue _ _ _ _ F) in Hq. apply elem_of_app in Hq as [Hq | Hq]; [by left |].
    destruct (f_tasks _ _ _ _ F) as (ids & El & _). rewrite El in Hq.
    apply list_elem_of_omap in Hq as (i & _ & Hi). right; left. eauto.
  - right; left. exists i. by eapply frame_task.
  - rewrite Ew in Hw. by right; right.
Qed.

Lemma frame_nodes_dom R s s' rel n : frame R s s' rel -> n ∈ dom (nodes_ s') -> n ∈ dom (nodes_ s).
Proof.
  intros F [nd E]%elem_of_dom. destruct (f_nodes _ _ _ _ F _ _ E) as (nd0 & E0 & _).
  apply elem_of_dom. eauto.
Qed.

Lemma mark_fired s s' (n : NodeID) (F : gset NodeID) rel m :
  graph_inv s -> frame {[n]} s s' rel -> n ∉ dom (nodes_ s') ->
  (forall m, m ∈ F -> m ∉ dom (nodes_ s)) ->
  m ∈ mark n s s' F -> (m ∉ dom (nodes_ s')) /\
    (m ∈ F \/ m = n \/ (IsContinuation m = true /\ m ∈ dom (nodes_ s))).
Proof.
  unfold mark. intros G Fr Hn HF [[Hm | ->%elem_of_singleton]%elem_of_union | [Hm Hm']%elem_of_difference]%elem_of_union.
  - split; [| tauto]. intros Hd. eapply HF; [done |]. by eapply frame_nodes_dom.
  - tauto.
  - split; [done |]. destruct (decide (m = n)); [tauto |]. right; right. split; [| done].
    apply elem_of_dom in Hm as [nd Em]. apply not_elem_of_dom in Hm'.
    eapply f_removed in Em as [? _]; eauto. set_solver.
Qed.

(** A task that has been dispatched has no node that waits. *)
Lemma dispatched_free y n nd :
  core_inv y -> n ∈ dispatched y -> nodes_ (sched y) !! n = Some nd -> dependency_count_ nd = 0.
Proof.
  intros I Hn%occ_pos En. pose proof (i_places _ I n) as Hp. unfold places in Hp.
  pose proof (g_tasks _ _ _ (i_graph _ I) n) as Gt.
  pose proof (g_count _ _ _ (i_graph _ I) _ _ En) as Gc.
  pose proof (task_id_kind (sched y) n (proj2 (i_task_counter _ I))).
  destruct (decide (n ∈ dom (tasks_ (sched y)))) as [Hd | Hd]; [case_decide; lia |].
  destruct (Z.eq_dec (dependency_count_ nd) 0); [done |]. exfalso. apply Hd, Gt.
  case_decide; [| lia]. split; [auto |]. exists nd. split; [done | lia].
Qed.

Lemma occ_NoDup l : (forall n, (occ l n <= 1)%nat) -> NoDup l.
Proof.
  induction l as [| x l IH]; intros H; [constructor |]. constructor.
  - intros Hx%occ_pos. specialize (H x). rewrite occ_cons, decide_True in H by done. lia.
  - apply IH. intros n. specialize (H n). rewrite occ_cons in H. lia.
Qed.

(** A node whose dependents are tasks in the table can be processed, whatever
    tasks are still to be stored. *)
Lemma for_each_tasks self ds : forall s, NoDup ds ->
  (forall d, d ∈ ds -> IsTaskID d = true /\ d ∈ dom (tasks_ s) /\
     exists nd, nodes_ s !! d = Some nd /\ 0 < dependency_count_ nd) ->
  is_Some (for_each (process_dependent self) ds s).
Proof.
  induction ds as [| d ds IH]; intros s HN Hd; simpl; [eauto |]. apply NoDup_cons in HN as [Hnin HN].
  destruct (Hd d) as (HI & [t Ht]%elem_of_dom & nd & En & Hc); [left |].
  unfold process_dependent. rewrite En. simpl. unfold decDependency, DCHECK.
  rewrite (proj2 (Z.ltb_lt _ _)) by lia. simpl.
  assert (forall d', d' ∈ ds -> d' <> d) as Hne by (intros d' ? ->; done).
  destruct (_ =? 0); [rewrite HI; unfold releaseTaskByID; rewrite HI; simpl; rewrite Ht; simpl |];
    (apply IH; [done |]; intros d' Hd'; destruct (Hd d') as (HI' & Ht' & nd' & En' & Hc'); [by right |];
     specialize (Hne d' Hd'); split; [done |]; simpl; split; [| exists nd'; by rewrite lookup_insert_ne]).
  - rewrite dom_delete_L. set_solver.
  - done.
Qed.

Lemma process_tasks s n :
  graph_inv s -> (forall d, n ∈ preds (nodes_ s) d -> IsTaskID d = true) -> preds (nodes_ s) n = ∅ ->
  forall tasks', (forall d, n ∈ preds (nodes_ s) d -> d ∈ dom tasks') -> is_Some (processDependents n (set_tasks tasks' s)).
Proof.
  intros G HI Hp tasks' Ht. unfold processDependents. change (nodes_ (set_tasks tasks' s)) with (nodes_ s).
  destruct (nodes_ s !! n) as [nd |] eqn:En; [| eauto].
  cbn [processDependentsUnsafe]. change (nodes_ (set_tasks tasks' s)) with (nodes_ s). rewrite En. cbn [mbind option_bind].
  rewrite (graph_count _ _ _ G En), Hp, size_empty. cbn [Z.of_nat Z.eqb DCHECK mbind option_bind].
  destruct (for_each_tasks (processDependentsUnsafe (total_count (nodes_ s))) (set_iter (dependents_ nd)) (set_tasks tasks' s)) as [s' ->]; [| | eauto].
  - apply occ_NoDup. intros d. rewrite occ_iter. case_decide; lia.
  - intros d Hd%occ_pos. rewrite occ_iter in Hd. case_decide as Hin; [| lia].
    assert (n ∈ preds (nodes_ s) d) as Hnd by (apply elem_of_preds; eauto). split_and!; [auto | simpl; auto |].
    pose proof (g_closed _ _ _ G n nd d ltac:(set_solver) En Hin) as [nd' Ed]%elem_of_dom.
    exists nd'. simpl. split; [done |]. rewrite (graph_count _ _ _ G Ed).
    assert (size (preds (nodes_ s) d) <> 0)%nat; [| lia]. apply size_non_empty_iff. set_solver.
Qed.

(** ** Every step keeps the invariant *)

Lemma inv_allocate s p F D E U c s' :
  core_inv (core s p F D E U) -> continuation_counter_ s < 2 ^ 64 - 1 ->
  allocateContinuation s = (c, s') -> core_inv (core s' p F D E U).
Proof.
  intros [] Hc [= <- <-]. simpl in *.
  assert (to_u64 (continuation_counter_ s + 1) = continuation_counter_ s + 1) as Ew.
  { apply wrapu_id. unfold is_u. rewrite mask_val in *. lia. }
  assert (forall n, allocated s n -> allocated
            (set_counters (task_counter_ s) (to_u64 (continuation_counter_ s + 1)) s) n) as Ha.
  { unfold allocated. simpl. rewrite Ew. intros n [? | ?]; lia. }
  split; simpl; try done.
  - by apply (ginv_ext _ _ s).
  - rewrite Ew. lia.
  - eauto.
  - intros n Hn. destruct (i_fired0 n Hn). eauto.
Qed.

Lemma inv_fire s p F D E U c s' :
  core_inv (core s p F D E U) -> IsContinuation c = true -> dependency_ok (core s p F D E U) c ->
  preds (nodes_ s) c = ∅ -> fire c s = Some s' ->
  core_inv (core s' p (mark c s s' F) D E U).
Proof.
  intros I Hc [Hal HcF] Hp Hf. destruct (process_ok s c) as (s1 & rel & E1 & G1 & Fr & Hn).
  { exact (i_graph _ I). }
  { intros nd Ec. pose proof (g_count _ _ _ (i_graph _ I) _ _ Ec) as Hg. simpl in Hg.
    rewrite Hp, difference_empty_L, size_empty in Hg. done. }
  unfold fire in Hf. rewrite Hf in E1. injection E1 as <-.
  destruct I. simpl in *.
  destruct (frame_fields _ _ _ _ Fr) as (Et & En & Ew & Ea & Etc & Ecc & Eh).
  destruct (mark_edges s s' c F E rel) as [He Hpast]; [done .. |].
  assert (forall n, allocated s' n <-> allocated s n) as Hal' by (unfold allocated; rewrite Etc, Ecc; done).
  assert (forall m, m ∈ mark c s s' F -> (m ∉ dom (nodes_ s')) /\
    (m ∈ F \/ m = c \/ (IsContinuation m = true /\ m ∈ dom (nodes_ s)))) as Hm.
  { intros m. eapply mark_fired; eauto. intros x Hx. by apply i_fired0. }
  split; simpl; rewrite ?Etc, ?Ecc, ?Ew, ?En; try done.
  - intros n Hd. apply Hal', i_nodes0. by eapply frame_nodes_dom.
  - intros i t Ht. eapply i_keys0, frame_task; eauto.
  - intros n. rewrite <- i_places0. unfold places, dispatched. simpl. rewrite !occ_app.
    pose proof (frame_places _ _ _ _ i_keys0 Fr n) as Hpl.
    rewrite (f_msgs _ _ _ _ Fr), bind_app, (bind_replicate_nil completion_task), app_nil_r, Ew by done.
    lia.
  - intros i. rewrite <- i_slots0. unfold slots. simpl.
    rewrite (f_msgs _ _ _ _ Fr), bind_app, (bind_replicate_nil completion_worker), app_nil_r, Ew, Ea by done.
    done.
  - intros Hpc. rewrite (f_queue _ _ _ _ Fr), (f_msgs _ _ _ _ Fr), Ea.
    destruct rel as [| t rel]; [rewrite !app_nil_r; auto |].
    right; right. apply elem_of_app. right. simpl. left.
  - intros n Hmk. destruct (Hm n Hmk) as [Hnd Hcase]. split; [| done]. apply Hal'.
    destruct Hcase as [HF | [-> | [_ Hd]]]; [by apply i_fired0 | done | auto].
  - intros n Hmk HI. destruct (Hm n Hmk) as [_ [HF | [-> | [HC _]]]]; [eauto | |];
      unfold IsTaskID in HI; [rewrite Hc in HI | rewrite HC in HI]; done.
  - intros t [Ht | Ht]; apply i_continuation0; [left; by eapply frame_held | by right].
Qed.

(** *** Links *)

Lemma preds_addLink dep dpt nodes x :
  preds (addLinkUnsafe dep dpt nodes) x =
    if decide (x = dpt) then {[dep]} ∪ preds nodes x else preds nodes x.
Proof.
  destruct (decide (dpt ∈ dependents_ (node_ref nodes dep))) as [Hin | Hout].
  - rewrite addLinkUnsafe_present by done. case_decide as Hx; [| done]. subst x.
    assert (dep ∈ preds nodes dpt); [| set_solver].
    apply elem_of_preds. unfold node_ref in Hin.
    destruct (nodes !! dep) as [nd |]; [eauto | set_solver].
  - rewrite addLinkUnsafe_link by done. apply link_preds.
Qed.

Lemma dom_addLink dep dpt nodes n :
  n ∈ dom (addLinkUnsafe dep dpt nodes) -> n = dep \/ n = dpt \/ n ∈ dom nodes.
Proof.
  destruct (decide (dpt ∈ dependents_ (node_ref nodes dep))) as [Hin | Hout].
  - rewrite addLinkUnsafe_present by done. auto.
  - rewrite addLinkUnsafe_link, link_dom by done. set_solver.
Qed.

Lemma ginv_addLink s dep dpt tasks' :
  graph_inv s -> 0 < dep < 2 ^ 64 -> 0 < dpt < 2 ^ 64 ->
  (forall n, n ∈ dom tasks' <-> n ∈ dom (tasks_ s) \/ (n = dpt /\ IsTaskID dpt = true)) ->
  graph_inv (set_tasks tasks' (set_nodes (addLinkUnsafe dep dpt (nodes_ s)) s)).
Proof.
  intros G Hdep Hdpt Ht.
  destruct (decide (dpt ∈ dependents_ (node_ref (nodes_ s) dep))) as [Hin | Hout].
  - rewrite addLinkUnsafe_present by done. destruct G as [Gi Gc Gp Gn Gb Ga Gt]. split; simpl; try done.
    intros n. rewrite Ht, Gt. split; [| tauto]. intros [? | [-> HI]]; [done |].
    split; [done |]. unfold node_ref in Hin.
    destruct (nodes_ s !! dep) as [nd |] eqn:Ed; [| set_solver]. simpl in Hin.
    assert (is_Some (nodes_ s !! dpt)) as [nd' Edpt].
    { apply elem_of_dom. eapply Gc; [| done | done]. set_solver. }
    exists nd'. split; [done |]. rewrite (Gn _ _ Edpt).
    assert (dep ∈ preds (nodes_ s) dpt ∖ ∅) as Hp.
    { rewrite difference_empty_L, elem_of_preds. eauto. }
    assert (size (preds (nodes_ s) dpt ∖ ∅) <> 0)%nat; [| lia].
    apply size_non_empty_iff. set_solver.
  - rewrite addLinkUnsafe_link by done. by apply ginv_link.
Qed.

Lemma inv_addLink s p F D E U dep dpt :
  core_inv (core s p F D E U) -> dependency_ok (core s p F D E U) dep ->
  dependent_ok (core s p F D E U) dpt ->
  core_inv (core (addLink dep dpt s) p F D (E ∪ {[(dep, dpt)]}) U).
Proof.
  intros I [Ad Fd] [Ap [Fp Kp]].
  pose proof (allocated_range _ _ I Ad) as Rd. pose proof (allocated_range _ _ I Ap) as Rp.
  destruct I. simpl in *. split; simpl; try done.
  - refine (ginv_addLink s dep dpt (tasks_ s) i_graph0 Rd Rp _).
    intros n. split; [tauto |]. intros [? | [-> HI]]; [done |].
    destruct Kp as [Hc | ?]; [| set_solver]. unfold IsTaskID in HI. by rewrite Hc in HI.
  - intros n [-> | [-> | Hn]]%dom_addLink; [done .. | by apply i_nodes0].
  - intros a b [Hab | [= -> ->]%elem_of_singleton]%elem_of_union; rewrite preds_addLink.
    + destruct (i_edges0 _ _ Hab); [by left | right]. case_decide; set_solver.
    + right. rewrite decide_True by done. set_solver.
  - intros n Hn. destruct (i_fired0 n Hn) as [? Hd]. split; [done |].
    intros [-> | [-> | ?]]%dom_addLink; done.
  - intros a b [Hab | [= -> ->]%elem_of_singleton]%elem_of_union Hb; [eauto | done].
  - intros t Ht Hc. apply elem_of_union_l. auto.
Qed.

(** *** addTask *)

Definition link_if (dep dpt : NodeID) (nodes : gmap NodeID Node) : gmap NodeID Node :=
  if (dep =? kInvalidNodeID) || (dpt =? kInvalidNodeID) then nodes
  else addLinkUnsafe dep dpt nodes.

Lemma preds_link_if dep dpt nodes b :
  preds nodes b ⊆ preds (link_if dep dpt nodes) b.
Proof.
  unfold link_if. destruct (_ || _); [done |]. rewrite preds_addLink. case_decide; set_solver.
Qed.

Lemma preds_link_if_new dep dpt nodes :
  dep <> kInvalidNodeID -> dpt <> kInvalidNodeID -> dep ∈ preds (link_if dep dpt nodes) dpt.
Proof.
  intros H1 H2. unfold link_if. rewrite (proj2 (Z.eqb_neq _ _) H1), (proj2 (Z.eqb_neq _ _) H2).
  simpl. rewrite preds_addLink, decide_True by done. set_solver.
Qed.

Lemma dom_link_if dep dpt nodes n :
  n ∈ dom (link_if dep dpt nodes) ->
  n ∈ dom nodes \/ (dep <> kInvalidNodeID /\ dpt <> kInvalidNodeID /\ (n = dep \/ n = dpt)).
Proof.
  unfold link_if. destruct (Z.eqb_spec dep kInvalidNodeID), (Z.eqb_spec dpt kInvalidNodeID);
    simpl; [auto .. |]. intros [-> | [-> | ?]]%dom_addLink; auto 10.
Qed.

Lemma ginv_link_if s dep dpt tasks' :
  graph_inv s -> 0 <= dep < 2 ^ 64 -> 0 <= dpt < 2 ^ 64 ->
  (forall n, n ∈ dom tasks' <-> n ∈ dom (tasks_ s) \/
     (n = dpt /\ IsTaskID dpt = true /\ dep <> kInvalidNodeID /\ dpt <> kInvalidNodeID)) ->
  graph_inv (set_tasks tasks' (set_nodes (link_if dep dpt (nodes_ s)) s)).
Proof.
  intros G Hdep Hdpt Ht. unfold link_if.
  destruct (Z.eqb_spec dep kInvalidNodeID) as [Hd | Hd],
           (Z.eqb_spec dpt kInvalidNodeID) as [Hp | Hp]; simpl.
  4: { unfold kInvalidNodeID in *. apply ginv_addLink; [done | lia | lia |].
       intros n. rewrite Ht. tauto. }
  all: destruct G as [Gi Gc Gp Gn Gb Ga Gt]; split; simpl; try done; intros n; rewrite Ht, Gt; tauto.
Qed.

(** The first critical section of [addTask] in one equation. *)
Lemma addTask_link_eq s t dep dpt task s' :
  task_counter_ s < kContinuationMask -> 0 < task_counter_ s -> nodes_ s !! task_counter_ s = None ->
  addTask_link t dep dpt s = Some (task, s') ->
  task_id_ task = task_counter_ s /\ continuation_ task = dpt /\ body task = body t /\
  s' = set_counters (task_counter_ s + 1) (continuation_counter_ s)
         (set_nodes (link_if dep (task_counter_ s) (link_if (task_counter_ s) dpt (nodes_ s))) s).
Proof.
  intros Hc H0 Hn. unfold addTask_link. simpl.
  assert (to_u64 (task_counter_ s + 1) = task_counter_ s + 1) as ->.
  { apply wrapu_id. unfold is_u. rewrite mask_val in Hc. lia. }
  unfold setup, DCHECK. destruct (task_id_ t =? _), (continuation_ t =? _), (has_scheduler t); simpl; try done.
  intros [= <- <-]. split_and!; [done | done | done |].
  assert (link_if (task_counter_ s) dpt (nodes_ s) =
    if dpt =? kInvalidNodeID then nodes_ s else link (task_counter_ s) dpt (nodes_ s)) as E.
  { unfold link_if. rewrite (proj2 (Z.eqb_neq (task_counter_ s) _)) by (unfold kInvalidNodeID; lia).
    simpl. destruct (dpt =? _); [done |]. apply addLinkUnsafe_link.
    unfold node_ref. rewrite Hn. set_solver. }
  rewrite E. unfold link_if.
  rewrite (proj2 (Z.eqb_neq (task_counter_ s) kInvalidNodeID)) by (unfold kInvalidNodeID; lia).
  rewrite orb_false_r. by destruct (dep =? kInvalidNodeID).
Qed.

(** [addTask] in one equation. *)
Lemma addTask_eq s t dep dpt id s' :
  task_counter_ s < kContinuationMask -> 0 < task_counter_ s ->
  nodes_ s !! task_counter_ s = None -> tasks_ s !! task_counter_ s = None ->
  addTask t dep dpt s = Some (id, s') ->
  id = task_counter_ s /\ exists task, task_id_ task = id /\ continuation_ task = dpt /\
    let nodes' := link_if dep id (link_if id dpt (nodes_ s)) in
    s' = set_counters (task_counter_ s + 1) (continuation_counter_ s)
      (if dep =? kInvalidNodeID
       then addTaskIntoQueue task (set_nodes nodes' s)
       else set_tasks (<[id := task]> (tasks_ s)) (set_nodes nodes' s)).
Proof.
  intros Hc H0 Hn Ht. unfold addTask. destruct (addTask_link t dep dpt s) as [[task s1] |] eqn:El; [| done].
  destruct (addTask_link_eq s t dep dpt task s1 Hc H0 Hn El) as (Ei & Ec & _ & ->). simpl. intros [= <- <-].
  split; [done |]. exists task. split_and!; [done | done |]. unfold addTask_publish, addTask_store. rewrite Ei.
  destruct (dep =? kInvalidNodeID); [done |]. simpl. by rewrite Ht.
Qed.

Lemma fresh_task_id y : core_inv y ->
  nodes_ (sched y) !! task_counter_ (sched y) = None /\
  tasks_ (sched y) !! task_counter_ (sched y) = None /\ task_counter_ (sched y) ∉ fired y.
Proof.
  intros I. assert (~ allocated (sched y) (task_counter_ (sched y))) as Hna.
  { intros [? | ?]; [lia |]. pose proof (i_task_counter _ I). lia. }
  assert (nodes_ (sched y) !! task_counter_ (sched y) = None) as Hn.
  { apply not_elem_of_dom. intros Hd. by apply Hna, (i_nodes _ I). }
  split; [done | split].
  - apply not_elem_of_dom. rewrite (g_tasks _ _ _ (i_graph _ I)). intros (_ & nd & E & _). congruence.
  - intros HF. by apply Hna, (i_fired _ I).
Qed.

(** The graph after [addTask]. *)
Lemma addTask_graph s p F D E U dep dpt (task : Task Body) (id := task_counter_ s) :
  core_inv (core s p F D E U) -> id < kContinuationMask ->
  (dep = kInvalidNodeID \/ dependency_ok (core s p F D E U) dep) ->
  (dpt = kInvalidNodeID \/ dependent_ok (core s p F D E U) dpt) ->
  graph_inv (set_tasks (if dep =? kInvalidNodeID then tasks_ s else <[id := task]> (tasks_ s))
    (set_nodes (link_if dep id (link_if id dpt (nodes_ s))) s)) /\
  (forall n, n ∈ dom (link_if dep id (link_if id dpt (nodes_ s))) ->
     n ∈ dom (nodes_ s) \/ n = id \/ (n = dep /\ dep <> kInvalidNodeID) \/
     (n = dpt /\ dpt <> kInvalidNodeID)).
Proof.
  intros I Hid Hdep Hdpt.
  pose proof (i_task_counter _ I) as Htc. simpl in Htc.
  destruct (fresh_task_id _ I) as (Hn & Ht & HF). simpl in *. fold id in Hn, Ht, HF, Htc.
  assert (0 <= dep < 2 ^ 64) as Rd.
  { destruct Hdep as [-> | [Ha _]]; [done |]. pose proof (allocated_range _ _ I Ha). lia. }
  assert (0 <= dpt < 2 ^ 64) as Rp.
  { destruct Hdpt as [-> | [Ha _]]; [done |]. pose proof (allocated_range _ _ I Ha). lia. }
  assert (0 <= id < 2 ^ 64) as Ri by (rewrite mask_val in *; lia).
  assert (IsTaskID id = true) as HI.
  { unfold IsTaskID. rewrite IsContinuation_spec by (unfold is_u; lia).
    rewrite mask_val in Hid. rewrite (proj2 (Z.leb_gt _ _)); [done | lia]. }
  split.
  - assert (graph_inv (set_tasks (tasks_ s) (set_nodes (link_if id dpt (nodes_ s)) s))) as G1.
    { apply ginv_link_if; [exact (i_graph _ I) | done | done |].
      intros n. split; [tauto |]. intros [? | (-> & HIp & _ & Hp)]; [done |].
      destruct Hdpt as [? | (_ & _ & [Hc | ?])]; [done | | set_solver].
      unfold IsTaskID in HIp. by rewrite Hc in HIp. }
    refine (ginv_link_if _ dep id (if dep =? kInvalidNodeID then tasks_ s else <[id := task]> (tasks_ s)) G1 Rd Ri _).
    intros n. simpl. destruct (Z.eqb_spec dep kInvalidNodeID) as [-> | Hne]; [tauto |].
    rewrite dom_insert_L, elem_of_union, elem_of_singleton. unfold kInvalidNodeID in *.
    intuition (subst; (done || lia)).
  - intros n [[? | (? & ? & [-> | ->])]%dom_link_if | (? & ? & [-> | ->])]%dom_link_if; auto 10.
Qed.

Lemma inv_link s p F D E U dep dpt (task : Task Body) (id := task_counter_ s) :
  core_inv (core s p F D E U) -> id < kContinuationMask ->
  (dep = kInvalidNodeID \/ dependency_ok (core s p F D E U) dep) ->
  (dpt = kInvalidNodeID \/ dependent_ok (core s p F D E U) dpt) ->
  task_id_ task = id -> continuation_ task = dpt ->
  core_inv (core (set_tasks (if dep =? kInvalidNodeID then tasks_ s else <[id := task]> (tasks_ s))
                   (set_counters (id + 1) (continuation_counter_ s)
                     (set_nodes (link_if dep id (link_if id dpt (nodes_ s))) s))) p F D
             (E ∪ edge_if (negb (dep =? kInvalidNodeID)) (dep, id)
                ∪ edge_if (negb (dpt =? kInvalidNodeID)) (id, dpt))
             (if dep =? kInvalidNodeID then U ++ [task] else U)).
Proof.
  intros I Hc Hdep Hdpt Eid Ect.
  destruct (fresh_task_id _ I) as (Hn & Ht & HF). simpl in *.
  destruct (addTask_graph s p F D E U dep dpt task I Hc Hdep Hdpt) as [G Hdom].
  set (nodes' := link_if dep _ _) in *.
  set (E' := E ∪ _ ∪ _). set (tasks' := if dep =? kInvalidNodeID then tasks_ s else _) in *.
  set (s1 := set_tasks _ _). destruct I. simpl in *. fold id in i_task_counter0, Hn, Ht, HF.
  assert (forall n, allocated s n -> allocated s1 n) as Ha.
  { intros n [? | ?]; [left | right]; simpl; lia. }
  assert (allocated s1 id) as Hid by (left; simpl; lia).
  assert (forall a b, a ∈ preds (nodes_ s) b -> a ∈ preds nodes' b) as Hmono.
  { intros a b Hab. by apply preds_link_if, preds_link_if. }
  assert (forall a b, (a, b) ∈ E' -> (a, b) ∈ E \/ (a = dep /\ b = id /\ dep <> kInvalidNodeID) \/
    (a = id /\ b = dpt /\ dpt <> kInvalidNodeID)) as HE'.
  { intros a b. unfold E', edge_if.
    destruct (Z.eqb_spec dep kInvalidNodeID), (Z.eqb_spec dpt kInvalidNodeID); simpl; set_solver. }
  assert (kInvalidNodeID <> id) as Hid0 by (unfold kInvalidNodeID; lia).
  split; simpl; try done.
  - by apply (ginv_ext _ _ (set_tasks tasks' (set_nodes nodes' s))).
  - lia.
  - intros n [? | [-> | [[-> ?] | [-> ?]]]]%Hdom; [auto | done | |].
    + destruct Hdep as [? | [? _]]; [done | auto].
    + destruct Hdpt as [? | [? _]]; [done | auto].
  - unfold tasks'. intros i t'. destruct (dep =? kInvalidNodeID); [apply i_keys0 |].
    intros [[<- <-] | [_ ?]]%lookup_insert_Some; auto.
  - intros n. pose proof (i_places0 n) as Hp. unfold places in *. simpl in *.
    change (dispatched (core s1 p F D E' _)) with (dispatched (core s p F D E U)).
    fold id in Hp. unfold tasks'. destruct (dep =? kInvalidNodeID).
    + rewrite fmap_app, occ_app. simpl. rewrite Eid, occ_cons, occ_nil. repeat case_decide; lia.
    + assert (n ∈ dom (<[id := task]> (tasks_ s)) <-> n = id \/ n ∈ dom (tasks_ s)) as Hd
        by (rewrite dom_insert_L; set_solver).
      apply not_elem_of_dom in Ht.
      destruct (decide (n = id)) as [-> | Hne]; repeat case_decide; try tauto; lia.
  - intros a b [Hab | [(-> & -> & ?) | (-> & -> & ?)]]%HE'.
    + destruct (i_edges0 _ _ Hab); auto.
    + right. by apply preds_link_if_new.
    + right. by apply preds_link_if, preds_link_if_new.
  - intros n HnF. destruct (i_fired0 n HnF) as [? Hnd]. split; [auto |].
    intros [? | [-> | [[-> ?] | [-> ?]]]]%Hdom; [done | done | |].
    + destruct Hdep as [? | [_ ?]]; done.
    + destruct Hdpt as [? | (_ & ? & _)]; done.
  - intros a b [Hab | [(-> & -> & ?) | (-> & -> & ?)]]%HE' Hb; [eauto | done |].
    destruct Hdpt as [? | (_ & ? & _)]; done.
  - intros t' Hh Hct. unfold E', edge_if.
    assert ((held s t' \/ t' ∈ U) \/ t' = task) as [Hs | ->].
    { unfold held in Hh. simpl in Hh. unfold tasks' in Hh. destruct (dep =? kInvalidNodeID).
      - destruct Hh as [Hh | Hh]; [left; left; exact Hh | set_solver].
      - destruct Hh as [[Hq | [[i Hi] | Hw]] | Hh]; [left; left; by left | | left; left; by right; right | left; by right].
        apply lookup_insert_Some in Hi as [[_ <-] | [_ ?]]; [by right | left; left; right; left; eauto]. }
    + apply elem_of_union_l, elem_of_union_l. auto.
    + rewrite Ect in Hct. rewrite (proj2 (Z.eqb_neq _ _) Hct), Eid, Ect. set_solver.
Qed.

Lemma inv_enqueue s p F D E U1 t U2 :
  core_inv (core s p F D E (U1 ++ t :: U2)) -> core_inv (core (addTaskIntoQueue t s) p F D E (U1 ++ U2)).
Proof.
  intros []. simpl in *. split; simpl; try done.
  - by apply (ginv_ext _ _ s).
  - intros n. rewrite <- i_places0. unfold places, dispatched. simpl.
    rewrite bind_snoc, !fmap_app, !occ_app. csimpl. rewrite !occ_cons, !occ_nil. lia.
  - intros n. rewrite <- i_slots0. unfold slots. simpl. by rewrite bind_snoc, app_nil_r.
  - intros _. right; right. apply elem_of_app. right. left.
  - intros t' Hh. apply i_continuation0. destruct Hh as [[Hq | Hh] | Hh].
    + simpl in Hq. apply elem_of_app in Hq as [Hq | Hq%list_elem_of_singleton]; [left; by left | right; set_solver].
    + left. by right.
    + right. set_solver.
Qed.

(** *** Workers *)

(** A step that only replaces worker [i] and appends to the message queue. *)
Lemma inv_worker s p F D E U i w w' ms :
  core_inv (core s p F D E U) -> workers_ s !! i = Some w -> worker_id_ w' = worker_id_ w ->
  (forall n, (occ (worker_tasks w') n + occ (ms ≫= completion_task) n = occ (worker_tasks w) n)%nat) ->
  (forall n, (occ (busy w') n + occ (ms ≫= completion_worker) n = occ (busy w) n)%nat) ->
  (forall t, t ∈ worker_msg_queue_ w' ≫= held_message \/ current w' = Some t ->
             t ∈ worker_msg_queue_ w ≫= held_message \/ current w = Some t) ->
  core_inv (core (set_msgs (scheduler_msg_queue_ s ++ ms)
                   (set_workers (<[i := w']> (workers_ s)) s)) p F D E U).
Proof.
  intros I Ei Ew Ht Hb Hh. destruct I. simpl in *. split; simpl; try done.
  - by apply (ginv_ext _ _ s).
  - intros n. rewrite <- i_places0. unfold places, dispatched. simpl.
    rewrite bind_app, !occ_app. specialize (Ht n).
    pose proof (occ_bind_insert worker_tasks (workers_ s) i w w' n Ei). lia.
  - intros j v [(<- & <- & _) | [_ ?]]%list_lookup_insert_Some; [rewrite Ew |]; auto.
  - rewrite length_insert. done.
  - intros n. rewrite <- i_slots0. unfold slots. simpl. rewrite bind_app, !occ_app.
    specialize (Hb n). pose proof (occ_bind_insert busy (workers_ s) i w w' n Ei). lia.
  - intros Hpc. destruct (i_wakeup0 Hpc) as [? | [? | ?]]; [auto .. |].
    right; right. apply elem_of_app. by left.
  - intros t [[Hq | [Hq | (j & v & Ej & Hv)]] | HU] Hc; apply i_continuation0; try done; [left .. | by right].
    + by left.
    + by right; left.
    + apply list_lookup_insert_Some in Ej as [(<- & <- & _) | [_ Ej]]; right; right; eauto 10.
Qed.

Lemma set_msgs_nil s : set_msgs (scheduler_msg_queue_ s ++ []) s = s.
Proof. rewrite app_nil_r. by destruct s. Qed.

Lemma inv_receive s p F D E U i w w' :
  core_inv (core s p F D E U) -> workers_ s !! i = Some w -> worker_receive w = Some w' ->
  core_inv (core (set_workers (<[i := w']> (workers_ s)) s) p F D E U).
Proof.
  intros I Ei Hr. rewrite <- (set_msgs_nil (set_workers _ s)).
  unfold worker_receive in Hr.
  destruct (worker_msg_queue_ w) as [| m rest] eqn:Eq; [done |].
  destruct (current w) eqn:Ec; [done |]. destruct (worker_quit w); [done |].
  apply (inv_worker s p F D E U i w w' [] I Ei);
    destruct m; injection Hr as <-; unfold worker_tasks, busy, worker_tasks; simpl; try done;
    rewrite ?Eq, ?Ec; csimpl.
  - intros n. by rewrite Nat.add_0_r.
  - intros n. rewrite occ_cons, !occ_app, !occ_cons, !occ_nil. lia.
  - intros n. by rewrite Nat.add_0_r.
  - intros n. rewrite !app_nil_r, fmap_app. simpl. rewrite occ_cons, !occ_app, occ_cons, occ_nil. lia.
  - intros t [? | ?]; [by left | done].
  - intros t [? | [= <-]]; left; [by right | by left].
Qed.

Lemma inv_finish s p F D E U i w w' d t0 t1 m :
  core_inv (core s p F D E U) -> workers_ s !! i = Some w -> worker_finish d t0 t1 w = Some (w', m) ->
  core_inv (core (sendMessage m (set_workers (<[i := w']> (workers_ s)) s)) p F D E U).
Proof.
  intros I Ei Hf. unfold worker_finish, getID, DCHECK in Hf.
  destruct (current w) as [t |] eqn:Ec; [| done]. simpl in Hf.
  destruct (negb _); [| done]. simpl in Hf. injection Hf as <- <-.
  apply (inv_worker s p F D E U i w _ [SchedulerTaskCompletionMessage (worker_id_ w) (task_id_ t)] I Ei);
    unfold worker_tasks, busy, worker_tasks; rewrite ?Ec; simpl; try done.
  - intros n. rewrite !occ_app, occ_cons, !occ_nil. lia.
  - intros n. rewrite !fmap_app. simpl. rewrite !occ_app, occ_cons, !occ_nil. lia.
  - intros t' [? | ?]; [by left | done].
Qed.

Lemma inv_join s p F D E U s' :
  core_inv (core s p F D E U) -> join_post s = Some s' -> core_inv (core s' p F D E U).
Proof.
  intros I. unfold join_post, DCHECK. destruct (thread_ s); [| done]. intros [= <-].
  destruct I. simpl in *. split; simpl; try done.
  - by apply (ginv_ext _ _ s).
  - intros n. rewrite <- i_places0. unfold places, dispatched. simpl. by rewrite bind_snoc, app_nil_r.
  - intros n. rewrite <- i_slots0. unfold slots. simpl. by rewrite bind_snoc, app_nil_r.
  - intros Hpc. destruct (i_wakeup0 Hpc) as [? | [? | ?]]; [auto .. |].
    right; right. apply elem_of_app. by left.
Qed.

(** *** The loop *)

(** What [processTaskQueue] does: it pairs a prefix of the queue with a prefix
    of the stack, until one of them is empty. *)
Inductive assigned : Scheduler Body -> Scheduler Body -> Prop :=
  | assigned_refl s : assigned s s
  | assigned_cons s wid rest t q w s' :
      available_workers_ s = wid :: rest -> task_queue_ s = t :: q ->
      workers_ s !! Z.to_nat wid = Some w ->
      assigned (set_workers (<[Z.to_nat wid := worker_sendMessage (WorkerTaskMessage t) w]> (workers_ s))
                  (set_available rest (set_queue q s))) s' ->
      assigned s s'.

Lemma processTaskQueue_loop_ok avail : forall s,
  available_workers_ s = avail ->
  Forall (fun i => is_Some (workers_ s !! Z.to_nat i)) avail ->
  exists s', processTaskQueue_loop avail s = Some s' /\ assigned s s' /\
    (task_queue_ s' = [] \/ available_workers_ s' = []).
Proof.
  induction avail as [| wid rest IH]; intros s Ea Hf; simpl.
  - exists s. split; [done | split; [constructor | by right]].
  - destruct (task_queue_ s) as [| t q] eqn:Eq.
    + exists s. split; [done | split; [constructor | by left]].
    + apply Forall_cons in Hf as [[w Ew] Hf]. unfold send_to_worker. simpl. rewrite Ew. simpl.
      set (s1 := set_workers _ _).
      destruct (IH s1) as (s' & E' & HA & Hend); [done | |].
      * simpl. apply (Forall_impl _ _ _ Hf). intros i [v Ev].
        destruct (decide (Z.to_nat i = Z.to_nat wid)) as [Heq | Hne].
        -- rewrite Heq, list_lookup_insert_eq by (by eapply lookup_lt_Some). eauto.
        -- rewrite list_lookup_insert_ne by congruence. eauto.
      * exists s'. split; [done | split; [| done]]. by eapply assigned_cons.
Qed.

Lemma worker_tasks_send m w n :
  (occ (worker_tasks (worker_sendMessage m w)) n =
   occ (worker_tasks w) n + occ (message_task m) n)%nat.
Proof. unfold worker_tasks. simpl. rewrite bind_snoc, !occ_app. lia. Qed.

Lemma busy_send m w n :
  (occ (busy (worker_sendMessage m w)) n =
   occ (busy w) n + occ ((fun _ => worker_id_ w) <$> message_task m) n)%nat.
Proof.
  unfold busy, worker_tasks. simpl. rewrite bind_snoc, !fmap_app, !occ_app. lia.
Qed.

Lemma inv_assigned s s' p F D E U :
  assigned s s' -> p <> AtMessage ->
  core_inv (core s p F D E U) -> core_inv (core s' p F D E U).
Proof.
  intros H Hpc. induction H as [| s wid rest t q w s' Ea Eq Ew _ IH]; [done |].
  intros I. apply IH. clear IH s'. destruct I. simpl in *.
  assert (worker_id_ w = wid) as Hwid.
  { rewrite (i_worker_ids0 _ _ Ew). specialize (i_slots0 wid). unfold slots in i_slots0.
    simpl in i_slots0. rewrite Ea, occ_cons, decide_True in i_slots0 by done.
    case_decide; lia. }
  set (w' := worker_sendMessage (WorkerTaskMessage t) w).
  split; simpl; try done.
  - by apply (ginv_ext _ _ s).
  - intros n. rewrite <- i_places0. unfold places, dispatched. simpl. rewrite Eq. csimpl.
    pose proof (occ_bind_insert worker_tasks (workers_ s) _ w w' n Ew) as Ho.
    unfold w' in Ho at 2. rewrite worker_tasks_send in Ho. simpl in Ho.
    rewrite occ_cons, occ_nil in Ho. rewrite occ_cons, !occ_app. lia.
  - intros j v [(<- & <- & _) | [_ ?]]%list_lookup_insert_Some; simpl; auto.
  - by rewrite length_insert.
  - intros n. rewrite <- i_slots0. unfold slots. simpl. rewrite Ea.
    pose proof (occ_bind_insert busy (workers_ s) _ w w' n Ew) as Ho.
    unfold w' in Ho at 2. rewrite busy_send in Ho. simpl in Ho.
    rewrite occ_cons, occ_nil, Hwid in Ho. rewrite occ_cons. lia.
  - intros t' [[Hq | [Hq | (j & v & Ej & Hv)]] | HU] Hc; apply i_continuation0; try done; [left .. | by right].
    + left. rewrite Eq. by right.
    + by right; left.
    + apply list_lookup_insert_Some in Ej as [(<- & <- & _) | [_ Ej]]; [| right; right; eauto 10].
      simpl in Hv. rewrite bind_app in Hv. destruct Hv as [[Hv | Hv]%elem_of_app | Hv].
      * right; right; eauto 10.
      * apply list_elem_of_singleton in Hv as ->. left. rewrite Eq. left.
      * right; right; eauto 10.
Qed.

Lemma inv_pc s p p' F D E U :
  core_inv (core s p F D E U) ->
  (p' = AtMessage -> task_queue_ s = [] \/ available_workers_ s = [] \/
     SchedulerNewTaskMessage ∈ scheduler_msg_queue_ s) ->
  core_inv (core s p' F D E U).
Proof. intros [] H. by split. Qed.

Lemma available_valid y i :
  core_inv y -> i ∈ available_workers_ (sched y) -> is_Some (workers_ (sched y) !! Z.to_nat i).
Proof.
  intros I Hi%occ_pos. pose proof (i_slots _ I i) as Hs. unfold slots in Hs.
  apply lookup_lt_is_Some. rewrite (i_num_workers _ I). case_decide; lia.
Qed.

Lemma processTaskQueue_ok y :
  core_inv (settle y) -> exists s', processTaskQueue (sched y) = Some s' /\ assigned (sched y) s' /\
    (task_queue_ s' = [] \/ available_workers_ s' = []).
Proof.
  intros I. apply processTaskQueue_loop_ok; [done |].
  apply Forall_forall. intros i. by apply (available_valid (settle y)).
Qed.

Lemma bind_stop (f : Worker Body -> list Z) ws :
  (forall w, f (worker_sendMessage WorkerJoinMessage w) = f w) ->
  ((worker_sendMessage WorkerJoinMessage <$> ws) ≫= f) = (ws ≫= f).
Proof. intros H. induction ws as [| w ws IH]; csimpl; [done |]. by rewrite H, IH. Qed.

Lemma inv_stop s p F D E U :
  core_inv (core s p F D E U) -> core_inv (core (stop_workers s) p F D E U).
Proof.
  intros []. simpl in *.
  assert (forall w : Worker Body,
    worker_tasks (worker_sendMessage WorkerJoinMessage w) = worker_tasks w) as Hw.
  { intros w. unfold worker_tasks. simpl. rewrite bind_app. simpl. by rewrite app_nil_r. }
  assert (forall w : Worker Body, busy (worker_sendMessage WorkerJoinMessage w) = busy w) as Hb.
  { intros w. unfold busy. by rewrite Hw. }
  assert (forall i v, workers_ (stop_workers s) !! i = Some v -> exists w,
    workers_ s !! i = Some w /\ v = worker_sendMessage WorkerJoinMessage w) as Hl.
  { intros i v. simpl. rewrite list_lookup_fmap_Some. naive_solver. }
  split; try done.
  - by apply (ginv_ext _ _ s).
  - intros n. rewrite <- i_places0. unfold places, dispatched. simpl.
    by rewrite (bind_stop worker_tasks).
  - intros i v (w & Ei & ->)%Hl. simpl. auto.
  - simpl. by rewrite length_fmap.
  - intros n. rewrite <- i_slots0. unfold slots. simpl. by rewrite (bind_stop busy).
  - intros t [[Hq | [Hq | (j & v & (w & Ej & ->)%Hl & Hv)]] | HU] Hc; apply i_continuation0; try done; [left .. | by right].
    + by left.
    + by right; left.
    + right; right. exists j, w. split; [done |]. simpl in Hv. rewrite bind_app in Hv. simpl in Hv.
      by rewrite app_nil_r in Hv.
Qed.

(** Consuming the first message, when it is not a completion. *)
Lemma inv_pop s F D E U m rest b :
  core_inv (core s AtMessage F D E U) -> scheduler_msg_queue_ s = m :: rest ->
  completion_task m = [] -> completion_worker m = [] ->
  core_inv (core (set_halt b (set_msgs rest s)) AtQueue F D E U).
Proof.
  intros [] Em Ht Hw. simpl in *. split; simpl; try done.
  - by apply (ginv_ext _ _ s).
  - intros n. rewrite <- i_places0. unfold places, dispatched. simpl. rewrite Em. csimpl.
    by rewrite Ht.
  - intros n. rewrite <- i_slots0. unfold slots. simpl. rewrite Em. csimpl. by rewrite Hw.
Qed.

(** The completion of task [t]: its node cannot be waiting. *)
Lemma completion_ok s p F D E U wid t rest :
  core_inv (core s p F D E U) ->
  scheduler_msg_queue_ s = SchedulerTaskCompletionMessage wid t :: rest ->
  exists s' rel, processDependents t (set_msgs rest s) = Some s' /\ graph_inv s' /\
    frame {[t]} (set_msgs rest s) s' rel /\ t ∉ dom (nodes_ s').
Proof.
  intros I Em. apply process_ok.
  - apply (ginv_ext _ _ s); [done | done | exact (i_graph _ I)].
  - intros nd En. eapply (dispatched_free _ _ _ I); [| exact En].
    unfold dispatched. simpl. rewrite Em. csimpl. set_solver.
Qed.

Lemma inv_completion s F D E U wid t rest s1 s' rel :
  core_inv (core s AtMessage F D E U) ->
  scheduler_msg_queue_ s = SchedulerTaskCompletionMessage wid t :: rest ->
  processDependents t (set_msgs rest s) = Some s1 -> graph_inv s1 ->
  frame {[t]} (set_msgs rest s) s1 rel -> t ∉ dom (nodes_ s1) ->
  s' = set_available (wid :: available_workers_ s1) s1 ->
  core_inv (core s' AtQueue (mark t s s' F) (D ++ [t]) E U).
Proof.
  intros I Em HE G Fr Hn ->.
  destruct (frame_fields _ _ _ _ Fr) as (_ & En & Ew & Ea & Etc & Ecc & _). simpl in *.
  destruct I. simpl in *. set (s0 := set_msgs rest s) in *.
  assert (graph_inv s0) as G0 by (by apply (ginv_ext _ _ s)).
  destruct (mark_edges s0 s1 t F E rel) as [He Hpast]; [done .. |].
  assert (forall n, allocated s1 n <-> allocated s n) as Hal by (unfold allocated; rewrite Etc, Ecc; done).
  assert (0 < t < task_counter_ s) as Ht.
  { specialize (i_places0 t). unfold places, dispatched in i_places0. simpl in i_places0.
    rewrite Em in i_places0. csimpl in i_places0. rewrite !occ_app, occ_cons in i_places0.
    repeat case_decide; done || lia. }
  assert (forall m, m ∈ mark t s0 s1 F -> (m ∉ dom (nodes_ s1)) /\
    (m ∈ F \/ m = t \/ (IsContinuation m = true /\ m ∈ dom (nodes_ s)))) as Hm.
  { intros m. apply (mark_fired s0 s1 t F rel m G0 Fr Hn). intros x Hx. by apply i_fired0. }
  split; simpl; rewrite ?Etc, ?Ecc, ?Ew, ?En; try done.
  - by apply (ginv_ext _ _ s1).
  - intros n Hd. apply Hal, i_nodes0. by apply (frame_nodes_dom _ _ _ _ _ Fr) in Hd.
  - intros i t' Ht'. eapply i_keys0. by apply (frame_task _ _ _ _ _ _ Fr) in Ht'.
  - intros n. rewrite <- i_places0. unfold places, dispatched. simpl.
    pose proof (frame_places _ s0 s1 rel i_keys0 Fr n) as Hpl. simpl in Hpl.
    rewrite (f_msgs _ _ _ _ Fr), bind_app, (bind_replicate_nil completion_task), app_nil_r, Ew, Em by done.
    csimpl. rewrite !occ_app, !occ_cons, !occ_app, !occ_nil. simpl in *. lia.
  - intros i. rewrite <- i_slots0. unfold slots. simpl.
    rewrite (f_msgs _ _ _ _ Fr), bind_app, (bind_replicate_nil completion_worker), app_nil_r, Ew, Ea, Em by done.
    csimpl. rewrite !occ_cons. lia.
  - intros n Hmk. destruct (Hm n Hmk) as [Hnd Hcase]. split; [| done]. apply (Hal n).
    destruct Hcase as [HF | [-> | [_ Hd]]]; [by apply i_fired0 | by left | auto].
  - intros n Hmk HI. apply elem_of_app. destruct (Hm n Hmk) as [_ [HF | [-> | [HC _]]]].
    + left. auto.
    + right. by apply list_elem_of_singleton.
    + unfold IsTaskID in HI. by rewrite HC in HI.
  - intros t' [Ht' | Ht']; apply i_continuation0; [left; by apply (frame_held _ _ _ _ _ Fr) in Ht' | by right].
Qed.

(** *** States with tasks that are not stored yet *)

(** The settled state meets the invariant, and no task is stored twice. *)
Record sys_inv y : Prop := {
  i_core :> core_inv (settle y);
  i_unstored : unstored y ##ₘ tasks_ (sched y);
  i_unstored_keys : forall i t, unstored y !! i = Some t -> task_id_ t = i
}.

Lemma settle_dependency y n : dependency_ok y n -> dependency_ok (settle y) n.
Proof. done. Qed.

Lemma settle_dependent y n : dependent_ok y n <-> dependent_ok (settle y) n.
Proof. unfold dependent_ok. simpl. by rewrite dom_union_L, dom_empty_L, union_empty_r_L. Qed.

Lemma fresh_id y : sys_inv y ->
  nodes_ (sched y) !! task_counter_ (sched y) = None /\
  tasks_ (sched y) !! task_counter_ (sched y) = None /\
  unstored y !! task_counter_ (sched y) = None /\ task_counter_ (sched y) ∉ fired y.
Proof.
  intros I. destruct (fresh_task_id _ I) as (Hn & Ht & Hf). simpl in *.
  by apply lookup_union_None in Ht as [Ht HM].
Qed.

Lemma assigned_store M s s' : assigned s s' -> assigned (store_all M s) (store_all M s') /\ tasks_ s' = tasks_ s.
Proof.
  induction 1 as [| s wid rest t q w s' Ea Eq Ew _ [IH Et]]; [split; [constructor | done] |].
  split; [by eapply (assigned_cons (store_all M s)) | done].
Qed.

Lemma link_inv s p F D E U M t dep dpt task s' :
  sys_inv (mkSys s p F D E U M) -> task_counter_ s < kContinuationMask ->
  (dep = kInvalidNodeID \/ dependency_ok (mkSys s p F D E U M) dep) ->
  (dpt = kInvalidNodeID \/ dependent_ok (mkSys s p F D E U M) dpt) ->
  addTask_link t dep dpt s = Some (task, s') ->
  sys_inv (mkSys s' p F D (E ∪ edge_if (negb (dep =? kInvalidNodeID)) (dep, task_id_ task)
                             ∪ edge_if (negb (dpt =? kInvalidNodeID)) (task_id_ task, dpt))
             (if dep =? kInvalidNodeID then U ++ [task] else U)
             (if dep =? kInvalidNodeID then M else <[task_id_ task := task]> M)).
Proof.
  intros [I Hd Hk] Hc Hdep Hdpt El. destruct (fresh_task_id _ I) as (Hn & Ht & _). simpl in *.
  destruct (addTask_link_eq s t dep dpt task s' Hc (proj1 (i_task_counter _ I)) Hn El) as (Ei & Ec & _ & ->).
  apply lookup_union_None in Ht as [Ht HM]. rewrite settle_dependent in Hdpt.
  pose proof (inv_link (store_all M s) p F D E U dep dpt task I Hc Hdep Hdpt Ei Ec) as I'. simpl in I'.
  rewrite Ei. destruct (dep =? kInvalidNodeID).
  - split; [exact I' | done | done].
  - split; simpl.
    + unfold settle, store_all. simpl. by rewrite <- insert_union_r.
    + by apply map_disjoint_insert_l_2.
    + intros i t'. intros [[<- <-] | [_ ?]]%lookup_insert_Some; auto.
Qed.

Lemma store_inv s p F D E U M i t :
  sys_inv (mkSys s p F D E U M) -> M !! i = Some t ->
  sys_inv (mkSys (addTask_store t s) p F D E U (delete i M)).
Proof.
  intros [I Hd Hk] Hi. simpl in *. assert (tasks_ s !! i = None) as Ht by (by eapply map_disjoint_Some_l).
  unfold addTask_store. rewrite (Hk i t Hi), Ht. split; simpl.
  - unfold settle, store_all in *. simpl in *.
    rewrite <- insert_union_l, insert_union_r, insert_delete_id by done. exact I.
  - apply map_disjoint_insert_r_2; [apply lookup_delete_eq | by apply map_disjoint_delete_l].
  - intros j t' [_ ?]%lookup_delete_Some. auto.
Qed.

Lemma message_inv s F D E U M s' :
  sys_inv (mkSys s AtMessage F D E U M) -> execute_message s = Some s' ->
  sys_inv (match scheduler_msg_queue_ s with
           | SchedulerTaskCompletionMessage _ t :: _ => mkSys s' AtQueue (mark t s s' F) (D ++ [t]) E U M
           | _ => mkSys s' AtQueue F D E U M
           end).
Proof.
  intros [I Hd Hk] H. unfold execute_message in H. simpl in *.
  destruct (scheduler_msg_queue_ s) as [| m rest] eqn:Em; [done |].
  assert (scheduler_msg_queue_ (store_all M s) = m :: rest) as Em' by done.
  destruct m as [| | wid t].
  - injection H as <-. split; [| done | done]. by eapply (inv_pop (store_all M s)).
  - injection H as <-. split; [| done | done].
    pose proof (inv_pop _ _ _ _ _ _ _ (halt_ s) I Em' eq_refl eq_refl) as I'. by destruct s.
  - destruct (processDependents t (set_msgs rest s)) as [s1 |] eqn:E1; [| done]. simpl in H. injection H as <-.
    destruct (processDependents_store M t (set_msgs rest s) s1 Hd E1) as [E2 Hd'].
    destruct (completion_ok _ _ _ _ _ _ _ _ _ I Em') as (s2 & rel & E3 & G & Fr & Hn).
    pose proof (eq_trans (eq_sym E3) E2) as [= ->].
    split; [| done | done]. by eapply (inv_completion (store_all M s) F D E U wid t rest (store_all M s1)).
Qed.

Lemma step_inv y y' : step y y' -> sys_inv y -> sys_inv y'.
Proof.
  intros H I. destruct H.
  - destruct I as [I Hd Hk]. injection H0 as <- <-. split; [by eapply inv_allocate | done | done].
  - by eapply link_inv.
  - destruct I as [I Hd Hk]. split; [by apply (inv_enqueue (store_all M s)) | done | done].
  - by apply store_inv.
  - destruct I as [I Hd Hk]. split; [| done | done].
    apply (inv_addLink (store_all M s)); [done | done | by apply (settle_dependent (mkSys s p F D E U M))].
  - destruct I as [I Hd Hk]. destruct (processDependents_store M c s s' Hd H2) as [HE Hd'].
    split; [exact (inv_fire (store_all M s) p F D E U c (store_all M s') I H H0 H1 HE) | done | done].
  - destruct I as [I Hd Hk]. split; [by eapply (inv_receive (store_all M s)) | done | done].
  - destruct I as [I Hd Hk]. split; [by eapply (inv_finish (store_all M s)) | done | done].
  - destruct I as [I Hd Hk]. unfold join_post in H. destruct (DCHECK (thread_ s)) eqn:Ej; [| done]. injection H as <-.
    split; [| done | done]. eapply (inv_join (store_all M s)); [done |]. unfold join_post. simpl. by rewrite Ej.
  - destruct I as [I Hd Hk]. destruct (processTaskQueue_ok _ I) as (s1 & E1 & HA & Hend). simpl in *. simplify_eq.
    destruct (assigned_store M _ _ HA) as [HA' Et]. split; simpl; [| by rewrite Et | done].
    apply (inv_assigned _ _ _ _ _ _ _ HA') in I; [| done]. eapply inv_pc; [exact I |]. tauto.
  - destruct I as [I Hd Hk]. destruct (processTaskQueue_ok _ I) as (s1 & E1 & HA & Hend). simpl in *. simplify_eq.
    destruct (assigned_store M _ _ HA) as [HA' Et]. split; simpl; [| by rewrite Et | done].
    apply (inv_assigned _ _ _ _ _ _ _ HA') in I; [| done]. apply (inv_stop (store_all M s')).
    eapply inv_pc; [exact I | done].
  - by apply message_inv.
Qed.

Lemma steps_inv y y' : rtc step y y' -> sys_inv y -> sys_inv y'.
Proof. induction 1 as [| y0 y1 y Hs _ IH]; [done |]. intros I. by apply IH, (step_inv y0). Qed.

(** ** The initial state *)

Lemma length_affinities n pin hw : length (worker_cpu_affinities n pin hw) = n.
Proof.
  unfold worker_cpu_affinities. set (l := if pin then _ else _).
  assert (l = [] \/ l = Z.of_nat <$> seq 0 n) as [-> | ->].
  { unfold l. destruct pin; [| by left]. destruct (_ <=? _); [by left |].
    destruct (_ <? _); auto. }
  - apply length_replicate.
  - assert (length (Z.of_nat <$> seq 0 n) = n) as El by (by rewrite length_fmap, length_seq).
    destruct (Z.of_nat <$> seq 0 n) eqn:E; [| done].
    simpl in El. subst n. done.
Qed.

Definition idle_worker (i : nat) (w : Worker Body) : Prop :=
  worker_id_ w = Z.of_nat i /\ worker_msg_queue_ w = [] /\ current w = None.

Lemma idle_no_tasks ws (f : Worker Body -> list Z) :
  (forall w, worker_tasks w = [] -> f w = []) ->
  (forall i w, ws !! i = Some w -> idle_worker i w) -> (ws ≫= f) = [].
Proof.
  intros Hf H. assert (Forall (fun w => worker_tasks w = []) ws) as HF.
  { apply Forall_lookup. intros i w Ei. destruct (H _ _ Ei) as (_ & Eq & Ec).
    unfold worker_tasks. by rewrite Eq, Ec. }
  clear H. induction HF as [| w ws' Hw _ IH]; csimpl; [done |]. by rewrite (Hf _ Hw), IH.
Qed.

Lemma new_workers n pin hw ws :
  mapM worker_start (imap (fun i cpu => newWorker (Body := Body) (Z.of_nat i) cpu)
    (worker_cpu_affinities n pin hw)) = Some ws ->
  length ws = n /\ forall i w, ws !! i = Some w -> idle_worker i w.
Proof.
  intros H%mapM_Some. split.
  - apply Forall2_length in H. by rewrite length_imap, length_affinities in H.
  - intros i w Ei. eapply Forall2_lookup_r in H as (w0 & E0 & Hs); [| exact Ei].
    rewrite list_lookup_imap in E0.
    destruct (worker_cpu_affinities n pin hw !! i) as [c |]; [| done].
    simpl in E0. injection E0 as <-. unfold worker_start in Hs. simpl in Hs.
    injection Hs as <-. done.
Qed.

Lemma occ_all_workers n i :
  occ (reverse (Z.of_nat <$> seq 0 n)) i = if decide (0 <= i < Z.of_nat n) then 1%nat else 0%nat.
Proof.
  assert (NoDup (reverse (Z.of_nat <$> seq 0 n))) as HN.
  { rewrite reverse_Permutation. apply NoDup_fmap; [intros ? ?; lia | apply NoDup_seq]. }
  assert (i ∈ reverse (Z.of_nat <$> seq 0 n) <-> 0 <= i < Z.of_nat n) as Hin.
  { rewrite elem_of_reverse, list_elem_of_fmap. setoid_rewrite elem_of_seq. split.
    - intros (k & -> & ?). lia.
    - intros ?. exists (Z.to_nat i). lia. }
  destruct (occ _ i) as [| k] eqn:Eo.
  - rewrite decide_False; [done |]. intros Hi%Hin%occ_pos. lia.
  - rewrite decide_True by (apply Hin, occ_pos; lia). clear Hin.
    assert (forall l, NoDup l -> (occ l i <= 1)%nat) as Hle.
    { induction 1 as [| x l Hx _ IH]; [rewrite occ_nil; lia |]. rewrite occ_cons.
      case_decide as Hd; [| lia]. subst. destruct (occ l x) eqn:E; [lia |].
      exfalso. apply Hx, occ_pos. lia. }
    specialize (Hle _ HN). lia.
Qed.

Lemma initial_inv y : initial y -> sys_inv y.
Proof.
  intros (n & pin & hw & s0 & s1 & E0 & E1 & ->).
  unfold newScheduler, clear, DCHECK in E0. set (k := if (0 <? n)%nat then _ else _) in E0.
  simpl in E0. injection E0 as <-. unfold start, DCHECK in E1. simpl in E1.
  destruct (mapM _ _) as [ws |] eqn:Ews; [| done]. simpl in E1. injection E1 as <-.
  apply new_workers in Ews as [Elen Hidle].
  assert (0 < k)%nat as Hk.
  { unfold k. destruct (Nat.ltb_spec 0 n); [lia |]. unfold kDefaultNumThreads. lia. }
  assert (to_u64 (kContinuationMask + 1) = kContinuationMask + 1) as Ew by reflexivity.
  split; [unfold settle; simpl; rewrite store_all_empty | apply map_disjoint_empty_l | done].
  split; simpl; rewrite ?Ew.
  - split; simpl; intros *; rewrite ?dom_empty_L, ?lookup_empty; set_solver.
  - rewrite mask_val. lia.
  - rewrite mask_val. lia.
  - set_solver.
  - done.
  - intros m. unfold places, dispatched. simpl.
    rewrite (idle_no_tasks ws worker_tasks), !occ_app, !occ_nil by auto.
    rewrite !decide_False; [done | lia | set_solver].
  - intros i w Ei. by apply (Hidle i w).
  - done.
  - intros i. unfold slots. simpl. rewrite (idle_no_tasks ws busy), !occ_nil; [| | done].
    + rewrite occ_all_workers. lia.
    + intros w Hw. unfold busy. by rewrite Hw.
  - done.
  - set_solver.
  - set_solver.
  - set_solver.
  - set_solver.
  - intros t [[Hq | [[i Hi] | (i & w & Ei & Hw)]] | HU]; simpl in *; [set_solver | done | | set_solver].
    destruct (Hidle _ _ Ei) as (_ & Eq & Ec). rewrite Eq, Ec in Hw. destruct Hw; [set_solver | done].
  - done.
Qed.

Lemma reachable_inv y : reachable y -> sys_inv y.
Proof.
  intros (y0 & H0 & H). by apply (steps_inv y0), initial_inv.
Qed.

(** ** An interpreter for concrete runs *)

Inductive Cmd :=
  | CAllocate
  | CLink (t : Task Body) (dependency dependent : NodeID)
  | CEnqueue
  | CStore (i : TaskID)
  | CAddLink (dependency dependent : NodeID)
  | CFire (c : Continuation)
  | CReceive (i : nat)
  | CFinish (i : nat) (d : TaskDescription)
  | CJoin
  | CLoop.

#[local] Instance allocated_dec s n : Decision (allocated s n).
Proof. unfold allocated. apply _. Defined.
#[local] Instance dependency_ok_dec y n : Decision (dependency_ok y n).
Proof. unfold dependency_ok. apply _. Defined.
#[local] Instance dependent_ok_dec y n : Decision (dependent_ok y n).
Proof. unfold dependent_ok. apply _. Defined.

Definition check (P : Prop) {dec : Decision P} {X} (k : option X) : option X :=
  if decide P then k else None.

Definition exec (c : Cmd) (y : Sys) : option Sys :=
  match y with mkSys s p F D E U M =>
  match c with
  | CAllocate =>
      check (continuation_counter_ s < 2 ^ 64 - 1)
        (Some (mkSys (snd (allocateContinuation s)) p F D E U M))
  | CLink t dep dpt =>
      check (task_counter_ s < kContinuationMask)
      (check (dep = kInvalidNodeID \/ dependency_ok y dep)
      (check (dpt = kInvalidNodeID \/ dependent_ok y dpt)
      ('(task, s') ← addTask_link t dep dpt s;
       Some (mkSys s' p F D (E ∪ edge_if (negb (dep =? kInvalidNodeID)) (dep, task_id_ task)
                               ∪ edge_if (negb (dpt =? kInvalidNodeID)) (task_id_ task, dpt))
               (if dep =? kInvalidNodeID then U ++ [task] else U)
               (if dep =? kInvalidNodeID then M else <[task_id_ task := task]> M)))))
  | CEnqueue =>
      match U with
      | [] => None
      | t :: U' => Some (mkSys (addTaskIntoQueue t s) p F D E U' M)
      end
  | CStore i =>
      t ← M !! i;
      Some (mkSys (addTask_store t s) p F D E U (delete i M))
  | CAddLink dep dpt =>
      check (dependency_ok y dep) (check (dependent_ok y dpt)
        (Some (mkSys (addLink dep dpt s) p F D (E ∪ {[(dep, dpt)]}) U M)))
  | CFire c =>
      check (IsContinuation c = true) (check (dependency_ok y c)
      (check (preds (nodes_ s) c = ∅)
      (s' ← fire c s; Some (mkSys s' p (mark c s s' F) D E U M))))
  | CReceive i =>
      w ← workers_ s !! i; w' ← worker_receive w;
      Some (mkSys (set_workers (<[i := w']> (workers_ s)) s) p F D E U M)
  | CFinish i d =>
      w ← workers_ s !! i; '(w', m) ← worker_finish d 0 0 w;
      Some (mkSys (sendMessage m (set_workers (<[i := w']> (workers_ s)) s)) p F D E U M)
  | CJoin => s' ← join_post s; Some (mkSys s' p F D E U M)
  | CLoop =>
      match p with
      | AtQueue =>
          s' ← processTaskQueue s;
          if execute_exits s' then Some (mkSys (stop_workers s') Stopped F D E U M)
          else Some (mkSys s' AtMessage F D E U M)
      | AtMessage =>
          s' ← execute_message s;
          Some (match scheduler_msg_queue_ s with
                | SchedulerTaskCompletionMessage _ t :: _ =>
                    mkSys s' AtQueue (mark t s s' F) (D ++ [t]) E U M
                | _ => mkSys s' AtQueue F D E U M
                end)
      | Stopped => None
      end
  end end.

Lemma check_Some P {dec : Decision P} {X} (k : option X) x : check P k = Some x -> P /\ k = Some x.
Proof. unfold check. by case_decide. Qed.

Lemma exec_step c y y' : exec c y = Some y' -> step y y'.
Proof.
  destruct y as [s p F D E U M]. unfold exec. destruct c; intros H;
    repeat match goal with H : check _ _ = Some _ |- _ => apply check_Some in H as [? H] end.
  - injection H as <-. by eapply step_allocate.
  - destruct (addTask_link _ _ _ s) as [[task s'] |] eqn:EA; [| done]. injection H as <-. by eapply step_link.
  - destruct U as [| t U']; [done |]. injection H as <-. by apply (step_enqueue s p F D E []).
  - destruct (M !! i) as [t |] eqn:EM; [| done]. injection H as <-. by apply step_store.
  - injection H as <-. by apply step_addLink.
  - destruct (fire c s) eqn:EF; [| done]. injection H as <-. by apply step_fire.
  - destruct (workers_ s !! i) eqn:Ei; [| done]. simpl in H.
    destruct (worker_receive _) eqn:Er; [| done]. injection H as <-. by eapply step_receive.
  - destruct (workers_ s !! i) eqn:Ei; [| done]. simpl in H.
    destruct (worker_finish _ _ _ _) as [[w' m] |] eqn:Er; [| done]. injection H as <-.
    by eapply step_finish.
  - destruct (join_post s) eqn:EJ; [| done]. injection H as <-. by apply step_join.
  - destruct p; [| | done].
    + destruct (processTaskQueue s) eqn:EQ; [| done]. simpl in H.
      destruct (execute_exits _) eqn:EX; injection H as <-; [by apply step_exit | by apply step_queue].
    + destruct (execute_message s) eqn:EM; [| done]. simpl in H. injection H as <-. by apply step_message.
Qed.

Fixpoint run (cs : list Cmd) (y : Sys) : option Sys :=
  match cs with [] => Some y | c :: cs => y' ← exec c y; run cs y' end.

Lemma run_rtc cs : forall y y', run cs y = Some y' -> rtc step y y'.
Proof.
  induction cs as [| c cs IH]; simpl; intros y y' H; [by simplify_eq |].
  destruct (exec c y) as [y1 |] eqn:E1; [| done]. simpl in H.
  eapply rtc_l; [by eapply exec_step | auto].
Qed.

Definition boot (n : nat) : option Sys :=
  s0 ← newScheduler n false 8; s1 ← start s0; Some (mkSys s1 AtQueue ∅ [] ∅ [] ∅).

Lemma boot_run_reachable n cs y0 y : boot n = Some y0 -> run cs y0 = Some y -> reachable y.
Proof.
  unfold boot. destruct (newScheduler n false 8) as [s0 |] eqn:E0; [| done]. simpl.
  destruct (start s0) as [s1 |] eqn:E1; [| done]. intros [= <-] Hr.
  exists (mkSys s1 AtQueue ∅ [] ∅ [] ∅). split; [| by eapply run_rtc].
  exists n, false, 8, s0, s1. done.
Qed.

(** ** What the invariant means *)

Lemma occ_elements (X : gset Z) n : occ (elements X) n = if decide (n ∈ X) then 1%nat else 0%nat.
Proof. exact (occ_iter (H := elements_order) X n). Qed.

Lemma dispatched_task y t : core_inv y -> t ∈ dispatched y ->
  0 < t < task_counter_ (sched y) /\ (t ∉ dom (tasks_ (sched y))) /\ occ (dispatched y) t = 1%nat.
Proof.
  intros I Ht%occ_pos. pose proof (i_places _ I t) as Hp. unfold places in Hp.
  repeat case_decide; try lia. repeat split; (done || lia).
Qed.

Lemma dispatched_edge y d t : core_inv y -> t ∈ dispatched y -> (d, t) ∈ edges y -> d ∈ fired y.
Proof.
  intros I Ht He. destruct (i_edges _ I _ _ He) as [? | Hp]; [done |]. exfalso.
  destruct (dispatched_task _ _ I Ht) as (Hr & Hd & _). apply Hd, graph_deferred; [apply (i_graph _ I) |].
  split; [| set_solver]. eapply task_id_kind; [apply (i_task_counter _ I) | done].
Qed.

(** Links order the dispatches. *)
Lemma order_of_edges y d t : sys_inv y ->
  tc (fun a b => (a, b) ∈ edges y) d t -> t ∈ dispatched y -> d ∈ fired y.
Proof.
  intros I H Ht. induction H as [a b Hab | a b c Hab _ IH].
  - by eapply (dispatched_edge (settle y)); [apply I | |].
  - eapply (i_past _ I); [exact Hab | auto].
Qed.

(** No worker has a task and no completion is on its way. *)
Lemma all_idle_drained y :
  core_inv y -> task_queue_ (sched y) = [] ->
  (forall i, (0 < occ (workers_ (sched y) ≫= busy) i +
     occ (scheduler_msg_queue_ (sched y) ≫= completion_worker) i)%nat -> False) ->
  forall n, 0 < n < task_counter_ (sched y) ->
    n ∈ dom (tasks_ (sched y)) \/ n ∈ task_id_ <$> unqueued y \/ n ∈ finished y.
Proof.
  intros I Hq Hb n Hn. pose proof (i_places _ I n) as Hp. unfold places, dispatched in Hp.
  rewrite (decide_True (P := 0 < n < _)), Hq in Hp by done. simpl in Hp. rewrite !occ_app in Hp.
  case_decide; [by left | right].
  destruct (decide (n ∈ task_id_ <$> unqueued y)) as [Hu | Hu]; [by left | right].
  rewrite <- occ_pos in Hu. apply occ_pos.
  assert (occ (workers_ (sched y) ≫= worker_tasks) n = 0)%nat as H1.
  { apply Nat.le_0_r, Nat.nlt_ge. intros Hin%occ_pos.
    apply list_elem_of_bind in Hin as (w & Hw & Hin).
    apply (Hb (worker_id_ w)). apply Nat.add_pos_l, occ_pos, list_elem_of_bind.
    exists w. split; [| done]. unfold busy. apply list_elem_of_fmap. eauto. }
  assert (occ (scheduler_msg_queue_ (sched y) ≫= completion_task) n = 0)%nat as H2; [| lia].
  apply Nat.le_0_r, Nat.nlt_ge. intros Hin%occ_pos.
  apply list_elem_of_bind in Hin as (m & Hm & Hin).
  destruct m as [| | wid t]; simpl in Hm; [set_solver .. |].
  apply (Hb wid). apply Nat.add_pos_r, occ_pos, list_elem_of_bind.
  eexists. split; [| exact Hin]. simpl. left.
Qed.

(** ** Properties of every execution *)

Lemma omap_lookup_keys {X} (m : gmap TaskID X) (l : list (TaskID * X)) :
  Forall (fun '(i, x) => m !! i = Some x) l -> omap (m !!.) l.*1 = l.*2.
Proof. induction 1 as [| [i x] l Hi _ IH]; csimpl; [done |]. by rewrite Hi, IH. Qed.

(** The tasks a traversal releases, and what is left. *)
Lemma frame_released R s s' rel : graph_inv s' -> frame R s s' rel ->
  (forall i, i ∈ dom (tasks_ s) -> IsTaskID i = true) ->
  rel ≡ₚ (map_to_list (filter (fun x => preds (nodes_ s') x.1 = ∅) (tasks_ s))).*2 /\
  tasks_ s' = filter (fun x => preds (nodes_ s') x.1 <> ∅) (tasks_ s).
Proof.
  intros G' Fr HI. destruct (f_tasks _ _ _ _ Fr) as (ids & El & HN & Hsub & HT).
  assert (forall i t, tasks_ s !! i = Some t -> (i ∈ ids <-> preds (nodes_ s') i = ∅)) as Hids.
  { intros i t Ht. pose proof (graph_deferred _ i G') as Hdef. rewrite elem_of_dom, HT, Ht in Hdef.
    assert (IsTaskID i = true) as Hi by (apply HI, elem_of_dom; eauto).
    destruct (decide (i ∈ ids)) as [Hin | Hout].
    - split; [| done]. intros _. apply dec_stable. intros Hne. destruct (proj2 Hdef (conj Hi Hne)). done.
    - split; [done |]. intros He. destruct (proj1 Hdef) as [_ Hne]; [eauto | done]. }
  split.
  - set (m := filter _ (tasks_ s)). rewrite <- (omap_lookup_keys (tasks_ s) (map_to_list m)).
    + rewrite El. apply omap_Permutation. apply NoDup_Permutation; [done | apply NoDup_fst_map_to_list |].
      intros i. rewrite list_elem_of_fmap. split.
      * intros Hin. pose proof (Hsub i Hin) as [t Ht]%elem_of_dom. exists (i, t). split; [done |].
        apply elem_of_map_to_list, map_lookup_filter_Some. split; [done |]. by apply (Hids i t Ht).
      * intros ([j t] & -> & Hin%elem_of_map_to_list). apply map_lookup_filter_Some in Hin as [Ht Hp]. by apply (Hids j t Ht).
    + apply Forall_forall. intros [i t] Hin%elem_of_map_to_list. by apply map_lookup_filter_Some in Hin as [? _].
  - apply map_eq. intros i. rewrite HT. destruct (tasks_ s !! i) as [t |] eqn:Ht.
    + pose proof (Hids i t Ht) as Hi. symmetry. case_decide as Hin.
      * apply map_lookup_filter_None. right. intros x Hx Hne. simpl in Hne. tauto.
      * apply map_lookup_filter_Some. simpl. tauto.
    + symmetry. case_decide; apply map_lookup_filter_None; by left.
Qed.

(** C29: processing a free node of a well-formed graph terminates within its
    fuel without failing a check.  The node goes away, with exactly the
    continuations that lose their last predecessor; the other nodes keep their
    dependents; exactly the deferred tasks that lose their last predecessor
    leave [tasks_] and are appended to the queue, each once, with as many wake-up
    messages; nothing else of the scheduler changes. *)
Theorem processDependents_correct s n nd :
  graph_inv s -> nodes_ s !! n = Some nd -> dependency_count_ nd = 0 ->
  exists s' released, processDependents n s = Some s' /\ graph_inv s' /\
    nodes_ s' !! n = None /\
    (forall m nm', nodes_ s' !! m = Some nm' -> exists nm, nodes_ s !! m = Some nm /\
       dependents_ nm' = dependents_ nm) /\
    (forall m nm, m <> n -> nodes_ s !! m = Some nm ->
       (nodes_ s' !! m = None <->
        IsContinuation m = true /\ preds (nodes_ s) m <> ∅ /\ preds (nodes_ s') m = ∅)) /\
    released ≡ₚ (map_to_list (filter (fun x => preds (nodes_ s') x.1 = ∅) (tasks_ s))).*2 /\
    tasks_ s' = filter (fun x => preds (nodes_ s') x.1 <> ∅) (tasks_ s) /\
    task_queue_ s' = task_queue_ s ++ released /\
    scheduler_msg_queue_ s' =
      scheduler_msg_queue_ s ++ replicate (length released) SchedulerNewTaskMessage /\
    (workers_ s' = workers_ s /\ available_workers_ s' = available_workers_ s /\
     task_counter_ s' = task_counter_ s /\ continuation_counter_ s' = continuation_counter_ s /\ halt_ s' = halt_ s).
Proof.
  intros G En Hc. destruct (processDependents_ok s n nd G En Hc) as (s' & rel & E & G' & Fr & Hn).
  destruct (frame_released _ _ _ _ G' Fr) as [Hrel Hleft]; [intros i Hi; by apply (graph_deferred _ _ G) in Hi as [? _] |].
  destruct (frame_fields _ _ _ _ Fr) as (_ & _ & Ew & Ea & Et & Ecc & Eh).
  exists s', rel. split_and!; try done.
  - intros m nm' Em. destruct (f_nodes _ _ _ _ Fr _ _ Em) as (nm & ? & ? & _). eauto.
  - intros m nm Hm Em. split.
    + intros H. destruct (f_removed _ _ _ _ Fr m nm ltac:(set_solver) Em H) as [HC Hpos]. split_and!; [done | |].
      * intros Hp. rewrite (graph_count _ _ _ G Em), Hp, size_empty in Hpos. lia.
      * apply dec_stable. intros Hne. apply (graph_preds_dom _ _ G') in Hne. by apply not_elem_of_dom in H.
    + intros (HC & Hp & H). destruct (nodes_ s' !! m) as [nm' |] eqn:Em'; [exfalso | done].
      assert (0 < dependency_count_ nm) as Hpos.
      { rewrite (graph_count _ _ _ G Em). assert (size (preds (nodes_ s) m) <> 0)%nat; [| lia].
        apply size_non_empty_iff. by rewrite leibniz_equiv_iff. }
      pose proof (f_waiting _ _ _ _ Fr m nm nm' ltac:(set_solver) Em Em' HC Hpos) as Hw.
      rewrite (graph_count _ _ _ G' Em'), H, size_empty in Hw. lia.
  - by apply (f_queue _ _ _ _ Fr).
  - by apply (f_msgs _ _ _ _ Fr).
Qed.

(** C30: in every reachable state of the scheduler, [dependency_count_] of a node
    is the number of nodes that list it as a dependent, every dependent has a
    node, and the tasks with a live predecessor are exactly the deferred tasks,
    those in [tasks_] and those that a call of [addTask] has linked and is about
    to put there. *)
Theorem scheduler_graph_invariant y : reachable y ->
  (forall n nd, nodes_ (sched y) !! n = Some nd ->
     dependency_count_ nd = Z.of_nat (size (preds (nodes_ (sched y)) n)) /\
     dependents_ nd ⊆ dom (nodes_ (sched y))) /\
  (forall t, t ∈ dom (tasks_ (sched y)) \/ t ∈ dom (unstored y) <->
     IsTaskID t = true /\ preds (nodes_ (sched y)) t <> ∅) /\
  unstored y ##ₘ tasks_ (sched y).
Proof.
  intros I%reachable_inv. split_and!; [| | apply (i_unstored _ I)].
  - intros n nd En. split; [by apply (graph_count (sched (settle y))), En; apply (i_graph _ I) |].
    intros d Hd. eapply (g_closed _ _ _ (i_graph _ I)); [| exact En | exact Hd]. set_solver.
  - intros t. rewrite <- elem_of_union, <- dom_union_L. apply (graph_deferred (sched (settle y))), (i_graph _ I).
Qed.

Lemma sys_inv_settled y : sys_inv y -> unstored y = ∅ -> core_inv y.
Proof. intros [I _ _] E. destruct y as [s p F D E0 U M]. simpl in *. subst M. unfold settle in I. simpl in I. by rewrite store_all_empty in I. Qed.

(** C31: no assertion of the scheduler fails and no index is out of range in a
    reachable state in which no deferred task is between the two critical
    sections of [addTask]: every message can be handled and a continuation
    without predecessors can be fired.  Whatever the state, the queue can be
    processed and a worker can report the task it ran. *)
Theorem scheduler_no_check_fails y : reachable y ->
  is_Some (processTaskQueue (sched y)) /\
  (forall i w t d t0 t1, workers_ (sched y) !! i = Some w -> current w = Some t ->
     is_Some (worker_finish d t0 t1 w)) /\
  (unstored y = ∅ ->
   (scheduler_msg_queue_ (sched y) <> [] -> is_Some (execute_message (sched y))) /\
   (forall c, preds (nodes_ (sched y)) c = ∅ -> is_Some (fire c (sched y)))).
Proof.
  intros I%reachable_inv. split; [| split; [| intros HM; pose proof (sys_inv_settled y I HM) as I0; split]].
  - destruct (processTaskQueue_ok _ I) as (s' & E & _). eauto.
  - intros i w t d t0 t1 Ei Ec. unfold worker_finish, getID, DCHECK. rewrite Ec. simpl.
    destruct (dispatched_task (settle y) (task_id_ t) I) as [Ht _].
    { unfold dispatched. apply elem_of_app; right. apply elem_of_app; left.
      apply list_elem_of_bind. exists w. split; [| by eapply list_elem_of_lookup_2].
      unfold worker_tasks. rewrite Ec. set_solver. }
    rewrite (proj2 (Z.eqb_neq _ _)) by (unfold kInvalidNodeID; lia). simpl. eauto.
  - intros Hm. unfold execute_message.
    destruct (scheduler_msg_queue_ (sched y)) as [| [| | wid t] rest] eqn:Em; [done | eauto | eauto |].
    destruct y as [s p F D E U M]. simpl in *. subst M.
    destruct (completion_ok _ _ _ _ _ _ _ _ _ I0 Em) as (s1 & rel & E1 & _). simpl.
    rewrite E1. simpl. eauto.
  - intros c Hc. destruct (process_ok (sched y) c) as (s' & rel & E & _); [apply (i_graph _ I0) | |].
    + intros nd En. by rewrite (graph_count _ _ _ (i_graph _ I0) En), Hc, size_empty.
    + eauto.
Qed.

(** C2: every task that was added is in exactly one place - between the two
    critical sections of [addTask], deferred, queued, sent to a worker, running,
    reported or finished - and no other identifier is anywhere: no task is lost
    or run twice. *)
Theorem scheduler_exactly_once y : reachable y ->
  let everywhere := (task_id_ <$> unqueued y) ++ elements (dom (unstored y)) ++
                    elements (dom (tasks_ (sched y))) ++ dispatched y in
  NoDup everywhere /\ (forall n, n ∈ everywhere <-> 0 < n < task_counter_ (sched y)).
Proof.
  intros I%reachable_inv everywhere.
  assert (forall n, occ everywhere n = places (settle y) n) as Ho.
  { intros n. unfold everywhere, places. rewrite !occ_app, !occ_elements. simpl. rewrite dom_union_L.
    pose proof (i_unstored _ I) as Hd. apply map_disjoint_dom in Hd.
    change (dispatched (settle y)) with (dispatched y).
    destruct (decide (n ∈ dom (unstored y))), (decide (n ∈ dom (tasks_ (sched y))));
      [exfalso; set_solver | rewrite decide_True by set_solver; lia ..| rewrite decide_False by set_solver; lia]. }
  split.
  - apply occ_NoDup. intros n. rewrite Ho, (i_places _ I). case_decide; lia.
  - intros n. rewrite <- occ_pos, Ho, (i_places _ I). simpl. case_decide; lia.
Qed.

(** C1: dependencies are respected across any chain of links: when a task has
    been dispatched, every node it depends on, directly or not, has been fired,
    and every task among them has finished. *)
Theorem scheduler_order y d t : reachable y ->
  tc (fun a b => (a, b) ∈ edges y) d t -> t ∈ dispatched y ->
  d ∈ fired y /\ (IsTaskID d = true -> d ∈ finished y).
Proof.
  intros I%reachable_inv H Ht.
  pose proof (order_of_edges _ _ _ I H Ht) as Hd.
  split; [done | by apply (i_finished _ I)].
Qed.

(** C32: no wakeup is lost.  When the scheduler thread waits on an empty message
    queue and every worker waits on its own, no task is queued, every worker is
    available, and every task added so far has finished, is deferred, or is
    inside [addTask]. *)
Theorem scheduler_quiescent y : reachable y ->
  pc y = AtMessage -> scheduler_msg_queue_ (sched y) = [] ->
  (forall i w, workers_ (sched y) !! i = Some w -> worker_msg_queue_ w = [] /\ current w = None) ->
  task_queue_ (sched y) = [] /\
  (forall i, 0 <= i < Z.of_nat (num_workers_ (sched y)) -> i ∈ available_workers_ (sched y)) /\
  (forall n, 0 < n < task_counter_ (sched y) -> n ∈ dom (tasks_ (sched y)) \/ n ∈ finished y \/
     n ∈ task_id_ <$> unqueued y \/ n ∈ dom (unstored y)).
Proof.
  intros I%reachable_inv Hpc Hm Hw.
  assert ((workers_ (sched y) ≫= busy) = []) as Hb.
  { apply idle_no_tasks; [intros w Hn; unfold busy; by rewrite Hn |].
    intros i w Ei. destruct (Hw _ _ Ei). split; [by apply (i_worker_ids _ I) | done]. }
  assert (forall i, 0 <= i < Z.of_nat (num_workers_ (sched y)) -> i ∈ available_workers_ (sched y)) as Ha.
  { intros i Hi. apply occ_pos. pose proof (i_slots _ I i) as Hs. unfold slots in Hs. simpl in Hs.
    rewrite Hb, Hm, decide_True in Hs by done. simpl in Hs. rewrite !occ_nil in Hs. lia. }
  assert (task_queue_ (sched y) = []) as Hq.
  { destruct (i_wakeup _ I Hpc) as [? | [E | E]]; simpl in *; [done | |].
    - pose proof (i_some_worker _ I) as Hsw. simpl in Hsw. specialize (Ha 0 ltac:(lia)). rewrite E in Ha. set_solver.
    - rewrite Hm in E. set_solver. }
  split; [done | split; [done |]]. intros n Hn.
  destruct (all_idle_drained (settle y) I Hq) with n as [Hd | [Hd | Hd]]; [| done | | auto | auto].
  - intros i. simpl. rewrite Hb, Hm. simpl. rewrite !occ_nil. lia.
  - simpl in Hd. rewrite dom_union_L in Hd. set_solver.
Qed.

(** When the loop of [execute] ends, nothing is queued and no worker has a
    task: every task added so far has finished, is deferred, or is inside
    [addTask]. *)
Theorem scheduler_exit_drained y s' : reachable y -> pc y = AtQueue ->
  processTaskQueue (sched y) = Some s' -> execute_exits s' = true ->
  task_queue_ s' = [] /\ (workers_ s' ≫= worker_tasks) = [] /\
  (forall n, 0 < n < task_counter_ s' -> n ∈ dom (tasks_ s') \/ n ∈ finished y \/
     n ∈ task_id_ <$> unqueued y \/ n ∈ dom (unstored y)).
Proof.
  intros [I _ _]%reachable_inv Hpc Hp Hx. destruct y as [s p F D E U M]. simpl in *.
  destruct (processTaskQueue_ok _ I) as (s1 & E1 & HA & _). simpl in E1, HA. simplify_eq.
  apply (assigned_store M) in HA as [HA _].
  apply (inv_assigned _ _ _ _ _ _ _ HA) in I; [| done].
  unfold execute_exits in Hx. rewrite !andb_true_iff, bool_decide_eq_true in Hx.
  destruct Hx as [[_ Hlen] Hq]. destruct (task_queue_ s') eqn:Eq; [| done].
  (* all the workers are on the stack *)
  assert (forall i, 0 <= i < Z.of_nat (num_workers_ s') -> i ∈ available_workers_ s') as Hall.
  { assert (available_workers_ s' ⊆+ (Z.of_nat <$> seq 0 (num_workers_ s'))) as Hsub.
    { apply NoDup_submseteq.
      - apply occ_NoDup. intros i. pose proof (i_slots _ I i) as Hs. unfold slots in Hs.
        simpl in Hs. case_decide; lia.
      - intros i Hi%occ_pos. pose proof (i_slots _ I i) as Hs. unfold slots in Hs. simpl in Hs.
        apply list_elem_of_fmap. exists (Z.to_nat i). rewrite elem_of_seq. case_decide; lia. }
    apply submseteq_length_Permutation in Hsub; [| rewrite length_fmap, length_seq; lia].
    intros i Hi. rewrite Hsub. apply list_elem_of_fmap. exists (Z.to_nat i).
    rewrite elem_of_seq. lia. }
  assert (forall i, (0 < occ (workers_ s' ≫= busy) i +
     occ (scheduler_msg_queue_ s' ≫= completion_worker) i)%nat -> False) as Hb.
  { intros i Hi. pose proof (i_slots _ I i) as Hs. unfold slots in Hs. simpl in Hs.
    case_decide as Hd; [| lia]. apply Hall, occ_pos in Hd. lia. }
  split; [done | split].
  - destruct (workers_ s' ≫= worker_tasks) as [| t l] eqn:Ew; [done |]. exfalso.
    assert (t ∈ workers_ s' ≫= worker_tasks) as Hin by (rewrite Ew; left).
    apply list_elem_of_bind in Hin as (w & Hw & Hin). apply (Hb (worker_id_ w)).
    apply Nat.add_pos_l, occ_pos, list_elem_of_bind.
    exists w. split; [| done]. unfold busy. apply list_elem_of_fmap. eauto.
  - intros n Hn. destruct (all_idle_drained _ I) with n as [Hd | [Hd | Hd]]; [done | done | done | | auto | auto].
    simpl in Hd. rewrite dom_union_L in Hd. set_solver.
Qed.

(** The continuation of a running task is a legal dependent. *)
Lemma running_continuation_ok y i w ctx :
  sys_inv y -> workers_ (sched y) !! i = Some w -> current w = Some ctx ->
  continuation_ ctx <> kInvalidNodeID -> dependent_ok y (continuation_ ctx).
Proof.
  intros [I _ _] Ei Ec Hc. apply settle_dependent.
  assert ((task_id_ ctx, continuation_ ctx) ∈ edges y) as He.
  { apply (i_continuation _ I); [| done]. left; right; right. exists i, w. auto. }
  assert (task_id_ ctx ∈ workers_ (sched y) ≫= worker_tasks) as Hw.
  { apply list_elem_of_bind. exists w. split; [| by eapply list_elem_of_lookup_2].
    unfold worker_tasks. rewrite Ec. set_solver. }
  destruct (dispatched_task (settle y) (task_id_ ctx) I) as (Hr & _ & Ho).
  { unfold dispatched. simpl. set_solver. }
  assert (task_id_ ctx ∉ fired y) as Hnf.
  { intros Hf. apply (i_finished _ I) in Hf; [| by eapply task_id_kind; [apply (i_task_counter _ I) |]].
    unfold dispatched in Ho. simpl in Ho, Hf. rewrite !occ_app in Ho. apply occ_pos in Hw, Hf. lia. }
  destruct (i_edges _ I _ _ He) as [? | Hp]; [done |].
  assert (preds (nodes_ (sched (settle y))) (continuation_ ctx) <> ∅) as Hne by set_solver.
  pose proof (graph_preds_dom _ _ (i_graph _ I) Hne) as Hd. split; [by apply (i_nodes _ I) | split].
  - intros Hf. by apply (i_fired _ I) in Hf as [_ ?].
  - destruct (IsContinuation (continuation_ ctx)) eqn:HI; [by left | right].
    apply elem_of_union_l, graph_deferred; [apply (i_graph _ I) |]. split; [| done]. unfold IsTaskID. by rewrite HI.
Qed.

(** A task that has just been constructed. *)
Definition fresh_task (t : Task Body) : Prop :=
  task_id_ t = kInvalidNodeID /\ continuation_ t = kInvalidNodeID /\ has_scheduler t = false.

Lemma addTask_fresh t dep dpt s : fresh_task t ->
  exists s', addTask t dep dpt s = Some (task_counter_ s, s').
Proof.
  intros (E1 & E2 & E3). unfold addTask, addTask_link, setup, DCHECK. simpl.
  rewrite E1, E2, E3. simpl. eauto.
Qed.

(** A call of [addTask] without interruption is a sequence of steps. *)
Lemma addTask_steps s p F D E U M t dep dpt id s' :
  sys_inv (mkSys s p F D E U M) -> task_counter_ s < kContinuationMask ->
  (dep = kInvalidNodeID \/ dependency_ok (mkSys s p F D E U M) dep) ->
  (dpt = kInvalidNodeID \/ dependent_ok (mkSys s p F D E U M) dpt) ->
  addTask t dep dpt s = Some (id, s') ->
  rtc step (mkSys s p F D E U M)
    (mkSys s' p F D (E ∪ edge_if (negb (dep =? kInvalidNodeID)) (dep, id)
                       ∪ edge_if (negb (dpt =? kInvalidNodeID)) (id, dpt)) U M).
Proof.
  intros I Hc Hdep Hdpt. unfold addTask.
  destruct (addTask_link t dep dpt s) as [[task s1] |] eqn:El; [| done]. simpl. intros [= <- <-].
  pose proof (step_link s p F D E U M t dep dpt task s1 Hc Hdep Hdpt El) as H1.
  destruct (fresh_id _ I) as (Hn & _ & HM & _). simpl in Hn, HM.
  destruct (addTask_link_eq s t dep dpt task s1 Hc (proj1 (i_task_counter _ I)) Hn El) as (Ei & _).
  eapply rtc_l; [exact H1 |]. apply rtc_once. unfold addTask_publish. destruct (dep =? kInvalidNodeID).
  - rewrite <- (app_nil_r U) at 2. apply step_enqueue.
  - rewrite <- (delete_insert_id M (task_id_ task) task) at 2 by (by rewrite Ei). apply step_store. by rewrite lookup_insert_eq.
Qed.

(** A running task may always spawn: the call meets the contract of
    [addTask], fails no check, and is a sequence of steps of the system that
    links the new task to the continuation of the spawning one. *)
Theorem spawn_is_step y i w ctx t : reachable y ->
  workers_ (sched y) !! i = Some w -> current w = Some ctx -> has_scheduler ctx = true ->
  fresh_task t -> task_counter_ (sched y) < kContinuationMask ->
  exists y', rtc step y y' /\ spawnTask ctx t (sched y) = Some (sched y') /\
    (continuation_ ctx <> kInvalidNodeID ->
       (task_counter_ (sched y), continuation_ ctx) ∈ edges y').
Proof.
  intros I%reachable_inv Ei Ec Hs (E1 & E2 & E3) Hc. destruct y as [s p F D E U M]. simpl in *.
  destruct (addTask_fresh (inheritDescription (description_ ctx) t) kInvalidNodeID (continuation_ ctx) s)
    as [s' Ea]; [done |].
  eexists. split; [| split].
  - eapply (addTask_steps s p F D E U M _ kInvalidNodeID (continuation_ ctx)); [done | done | by left | | exact Ea].
    destruct (decide (continuation_ ctx = kInvalidNodeID)); [by left | right].
    by eapply running_continuation_ok.
  - unfold spawnTask, addTaskWithDependent, DCHECK. rewrite Hs. simpl. rewrite Ea. done.
  - intros Hne. simpl. rewrite (proj2 (Z.eqb_neq _ _) Hne). simpl. set_solver.
Qed.

(** ** Task chains *)

Lemma addTask_counters t dep dpt s id s' :
  addTask t dep dpt s = Some (id, s') ->
  task_counter_ s' = to_u64 (task_counter_ s + 1) /\
  continuation_counter_ s' = continuation_counter_ s /\ id = task_counter_ s.
Proof.
  unfold addTask, addTask_link, setup, DCHECK, addTask_publish, addTask_store. simpl.
  destruct (task_id_ t =? _), (continuation_ t =? _), (has_scheduler t); simpl; try done.
  intros [= <- <-]. by destruct (dep =? kInvalidNodeID).
Qed.

(** A task that was held stays held, and the new one is. *)
Lemma addTask_held t dep dpt s id s' :
  addTask t dep dpt s = Some (id, s') -> tasks_ s !! task_counter_ s = None ->
  (forall t', held s t' -> held s' t') /\
  exists t', held s' t' /\ task_id_ t' = task_counter_ s /\ continuation_ t' = dpt /\ body t' = body t.
Proof.
  unfold addTask, addTask_link, setup, DCHECK, addTask_publish, addTask_store. simpl.
  destruct (task_id_ t =? _), (continuation_ t =? _), (has_scheduler t); simpl; try done.
  intros [= <- <-] Hn. set (task := mkTask _ _ _ _ _).
  split; [| exists task; split; [| done]]; destruct (dep =? kInvalidNodeID); unfold held; simpl.
  - intros t' [Hq | Ho]; [left; set_solver | by right].
  - rewrite Hn. intros t' [Hq | [[i Hi] | Ho]]; [by left | right; left | by right; right].
    exists i. rewrite lookup_insert_ne; [done | congruence].
  - left. set_solver.
  - rewrite Hn. right; left. exists (task_counter_ s). by rewrite lookup_insert_eq.
Qed.

(** The loop of [CreateTaskChain], on [k] tasks from the last one: the
    [j]-th task added gets the identifier [task_counter_ + j] and, through a
    fresh continuation, precedes the one added before it. *)
Lemma chain_loop_steps ctx rev_tasks : forall c s p F D E U M,
  sys_inv (mkSys s p F D E U M) ->
  Forall fresh_task rev_tasks ->
  (c = kInvalidNodeID \/ dependent_ok (mkSys s p F D E U M) c) ->
  task_counter_ s + Z.of_nat (length rev_tasks) <= kContinuationMask ->
  continuation_counter_ s + Z.of_nat (length rev_tasks) < 2 ^ 64 ->
  exists s' E', chain_loop ctx rev_tasks c s = Some s' /\
    rtc step (mkSys s p F D E U M) (mkSys s' p F D E' U M) /\ E ⊆ E' /\
    task_counter_ s' = task_counter_ s + Z.of_nat (length rev_tasks) /\
    (rev_tasks <> [] -> c <> kInvalidNodeID -> (task_counter_ s, c) ∈ E') /\
    (forall j, 0 <= j < Z.of_nat (length rev_tasks) - 1 -> exists k,
       (task_counter_ s + j + 1, k) ∈ E' /\ (k, task_counter_ s + j) ∈ E') /\
    (forall t, held s t -> held s' t) /\
    (forall j t, rev_tasks !! j = Some t -> exists t', held s' t' /\
       task_id_ t' = task_counter_ s + Z.of_nat j /\ body t' = body t).
Proof.
  induction rev_tasks as [| t rest IH]; intros c s p F D E U M I Hf Hc Ht Hk; cbn [chain_loop].
  { exists s, E. simpl. split; [done | split; [done | split; [done | split; [lia | split; [done |]]]]].
    split; [intros j ?; lia | split; [done | by intros []]]. }
  apply Forall_cons in Hf as [(F1 & F2 & F3) Hf].
  pose proof (i_task_counter _ I) as Itc. pose proof (i_cont_counter _ I) as Icc. simpl in Itc, Icc.
  cbn [length] in Ht, Hk.
  (* the continuation of this iteration *)
  assert (exists d s1, (match rest with [] => (kInvalidNodeID, s) | _ => allocateContinuation s end) = (d, s1)
    /\ rtc step (mkSys s p F D E U M) (mkSys s1 p F D E U M) /\ sys_inv (mkSys s1 p F D E U M) /\
    task_counter_ s1 = task_counter_ s /\ (forall t, held s t -> held s1 t) /\
    continuation_counter_ s1 <= continuation_counter_ s + 1 /\
    (rest = [] /\ d = kInvalidNodeID \/ rest <> [] /\ d <> kInvalidNodeID /\
       IsContinuation d = true /\ dependency_ok (mkSys s1 p F D E U M) d) /\
    (c = kInvalidNodeID \/ dependent_ok (mkSys s1 p F D E U M) c))
    as (d & s1 & Ed & Hrun & I1 & Etc & Hh1 & Ecc & Hd & Hc1).
  { destruct rest as [| t' rest].
    - exists kInvalidNodeID, s. repeat (split; [done || lia |]). split; [by left | done].
    - assert (to_u64 (continuation_counter_ s + 1) = continuation_counter_ s + 1) as Ew.
      { apply wrapu_id. unfold is_u. rewrite mask_val in *. simpl in Hk. lia. }
      assert (continuation_counter_ s < 2 ^ 64 - 1) as Hlt by (simpl in Hk; lia).
      eexists _, _. split; [reflexivity |]. split; [| split; [| split; [| split; [| split; [| split]]]]].
      + apply rtc_once. by eapply step_allocate.
      + eapply step_inv; [by eapply step_allocate | done].
      + done.
      + done.
      + simpl. lia.
      + right. split; [done |]. split; [unfold kInvalidNodeID; rewrite mask_val in *; lia |]. split.
        * eapply (cont_id_kind (set_counters 0 (continuation_counter_ s + 1) s)); simpl; lia.
        * split; [right; simpl; lia |]. intros HF. simpl in HF.
          destruct (i_fired _ I _ HF) as [[? | ?] _]; simpl in *; lia.
      + destruct Hc as [? | (Ha & Hnf & Hkd)]; [by left | right]. split; [| done].
        destruct Ha as [? | ?]; [left | right]; simpl in *; lia. }
  rewrite Ed. clear Ed.
  destruct (addTask_fresh (inheritDescription (description_ ctx) t) d c s1) as [s2 Ea]; [done |].
  rewrite Ea. simpl. pose proof (addTask_counters _ _ _ _ _ _ Ea) as (Etc2 & Ecc2 & _).
  destruct (addTask_held _ _ _ _ _ _ Ea) as (Hh2 & tn & Htn & Eidn & _ & Ebn);
    [by apply (fresh_id _ I1) |].
  assert (task_counter_ s1 < kContinuationMask) as Hlt by lia.
  assert (d = kInvalidNodeID \/ dependency_ok (mkSys s1 p F D E U M) d) as Hd' by tauto.
  pose proof (addTask_steps s1 p F D E U M _ d c _ s2 I1 Hlt Hd' Hc1 Ea) as Hst.
  pose proof (steps_inv _ _ Hst I1) as I2.
  assert (task_counter_ s2 = task_counter_ s + 1) as Etc3.
  { rewrite Etc2, Etc. apply wrapu_id. unfold is_u. rewrite mask_val in *. lia. }
  set (E2 := E ∪ _ ∪ _) in *.
  assert (d <> kInvalidNodeID -> (d, task_counter_ s) ∈ E2) as Hde.
  { intros Hne. unfold E2. rewrite (proj2 (Z.eqb_neq _ _) Hne), Etc. simpl. set_solver. }
  assert (c <> kInvalidNodeID -> (task_counter_ s, c) ∈ E2) as Hce.
  { intros Hne. unfold E2. rewrite (proj2 (Z.eqb_neq _ _) Hne), Etc. simpl. set_solver. }
  destruct (IH d s2 p F D E2 U M I2 Hf) as (s' & E' & Es' & Hr' & Hsub & Hcnt & Hfst & Hlink & Hh' & Hbody);
    [| lia | lia |].
  { destruct Hd as [[_ ->] | (_ & _ & HC & [Ha Hnf])]; [by left | right].
    split; [| split; [done | by left]].
    destruct Ha as [Ha | Ha]; [left | right]; simpl in *; rewrite ?Etc3, ?Ecc2; lia. }
  exists s', E'. split; [done |]. split.
  { etrans; [exact Hrun |]. by etrans. }
  split; [set_solver |]. split; [lia |]. split; [intros; set_solver |].
  split; [| split; [auto |]].
  2: { intros [| j] t' Hj; simpl in Hj.
       - injection Hj as <-. exists tn. split; [auto |]. split; [lia | done].
       - destruct (Hbody j t' Hj) as (t2 & ? & E1 & ?). exists t2. split; [done |]. split; [lia | done]. }
  intros j Hj. destruct (decide (j = 0)) as [-> | Hj0].
  - destruct Hd as [[-> _] | (Hrest & Hdne & _)]; [simpl in Hj; lia |].
    exists d. rewrite Z.add_0_r. rewrite Etc3 in Hfst. split; [auto | set_solver].
  - destruct (Hlink (j - 1)) as (k & H1 & H2); [simpl in Hj; lia |]. rewrite Etc3 in H1, H2.
    exists k. split; [replace (task_counter_ s + j + 1) with (task_counter_ s + 1 + (j - 1) + 1) by lia |
                      replace (task_counter_ s + j) with (task_counter_ s + 1 + (j - 1)) by lia]; done.
Qed.

Lemma step_edges y y' : step y y' -> edges y ⊆ edges y'.
Proof.
  intros H. destruct H; simpl; try set_solver.
  destruct (scheduler_msg_queue_ s) as [| [] ?]; set_solver.
Qed.

Lemma steps_edges y y' : rtc step y y' -> edges y ⊆ edges y'.
Proof. induction 1 as [| ? ? ? H%step_edges]; set_solver. Qed.

Lemma steps_reachable y y' : reachable y -> rtc step y y' -> reachable y'.
Proof. intros (y0 & H0 & H) H'. exists y0. split; [done | by etrans]. Qed.

Lemma tc_edges_mono y y' a b : edges y ⊆ edges y' ->
  tc (fun a b => (a, b) ∈ edges y) a b -> tc (fun a b => (a, b) ∈ edges y') a b.
Proof.
  intros Hs. induction 1 as [? ? H | ? ? ? H _ IH]; [apply tc_once | eapply tc_l; [| exact IH]]; auto.
Qed.

(** Running the body of [CreateTaskChain] adds the tasks of the chain
    without failing a check, and in every later state of the system task [k+1]
    of the chain has been dispatched only if task [k] has finished; the last
    task holds up the continuation of the task that built the chain. *)
Theorem task_chain_ordered y i w ctx tasks
    (n := Z.of_nat (length tasks)) (id := fun k => task_counter_ (sched y) + (n - 1 - k)) :
  reachable y ->
  workers_ (sched y) !! i = Some w -> current w = Some ctx -> has_scheduler ctx = true ->
  Forall fresh_task tasks ->
  task_counter_ (sched y) + n <= kContinuationMask ->
  continuation_counter_ (sched y) + n < 2 ^ 64 ->
  exists y', rtc step y y' /\ CreateTaskChain tasks ctx (sched y) = Some (sched y') /\
    (forall k t, tasks !! k = Some t -> exists t', held (sched y') t' /\
       task_id_ t' = id (Z.of_nat k) /\ body t' = body t) /\
    (forall k y'', 0 <= k < n - 1 -> rtc step y' y'' ->
       id (k + 1) ∈ dispatched y'' -> id k ∈ finished y'') /\
    (tasks <> [] -> continuation_ ctx <> kInvalidNodeID ->
       (id (n - 1), continuation_ ctx) ∈ edges y').
Proof.
  intros Hr Ei Ec Hs Hf Ht Hk. pose proof (reachable_inv _ Hr) as I.
  destruct y as [s p F D E U M]. simpl in *.
  destruct (chain_loop_steps ctx (reverse tasks) (continuation_ ctx) s p F D E U M I)
    as (s' & E' & Es & Hst & Hsub & _ & Hlast & Hlink & _ & Hbody).
  { by rewrite Forall_reverse. }
  { destruct (decide (continuation_ ctx = kInvalidNodeID)); [by left | right].
    by eapply running_continuation_ok. }
  { rewrite length_reverse. done. }
  { rewrite length_reverse. done. }
  rewrite length_reverse in Hlink. fold n in Hlink.
  exists (mkSys s' p F D E' U M). split; [done |]. split.
  { unfold CreateTaskChain, DCHECK. by rewrite Hs. }
  split; [| split].
  - intros k t Hkt. pose proof (lookup_lt_Some _ _ _ Hkt) as Hlt.
    destruct (Hbody (length tasks - S k)%nat t) as (t' & Hh & E1 & E2).
    { rewrite reverse_lookup by lia. rewrite <- Hkt. f_equal. lia. }
    exists t'. split; [done |]. split; [| done]. unfold id, n. lia.
  - intros k y'' Hk1 Hst2 Hd.
    pose proof (steps_reachable _ _ (steps_reachable _ _ Hr Hst) Hst2) as Hr2.
    pose proof (reachable_inv _ Hr2) as I2.
    destruct (Hlink (n - 2 - k)) as (c & H1 & H2); [lia |].
    assert (id k ∈ fired y'') as Hfd.
    { apply (order_of_edges y'' (id k) (id (k + 1)) I2); [| done].
      apply (tc_edges_mono (mkSys s' p F D E' U M)); [by apply steps_edges |]. simpl.
      eapply tc_l; [| apply tc_once].
      - replace (id k) with (task_counter_ s + (n - 2 - k) + 1) by (unfold id; lia). exact H1.
      - replace (id (k + 1)) with (task_counter_ s + (n - 2 - k)) by (unfold id; lia). exact H2. }
    apply (i_finished _ I2); [done |].
    pose proof (i_fired _ I2 _ Hfd) as [_ _].
    unfold IsTaskID. pose proof (i_task_counter _ I) as Hc. simpl in Hc.
    rewrite IsContinuation_spec; rewrite mask_val in *; [| unfold is_u, id; lia].
    rewrite (proj2 (Z.leb_gt _ _)); [done |]. unfold id. lia.
  - intros Hne Hc. replace (id (n - 1)) with (task_counter_ s) by (unfold id; lia).
    simpl. apply Hlast; [| done]. by destruct tasks; [| rewrite reverse_cons; destruct (reverse tasks)].
Qed.

End System.

Arguments Sys : clear implicits.
Arguments Cmd : clear implicits.

(** ** A concrete run

    Two workers; a continuation [c]; task 1 holds up [c], task 2 waits for it.
    Task 1 runs and is reported, task 2 is released and sent to a worker. *)

Definition demo_c : Continuation := kContinuationMask + 1.

Definition demo_run : list (Cmd unit) :=
  [CAllocate; CLink (newTask tt) kInvalidNodeID demo_c; CLink (newTask tt) demo_c kInvalidNodeID;
   CEnqueue; CStore 2; CLoop; CReceive 1; CLoop; CLoop; CFinish 1 newTaskDescription; CLoop; CLoop].

Definition sys_after (cs : list (Cmd unit)) : Sys unit :=
  default (mkSys (mkScheduler false 0 [] [] [] ∅ ∅ [] 0 0 false) Stopped ∅ [] ∅ [] ∅)
    (y0 ← boot 2; run cs y0).

Lemma sys_after_reachable cs :
  bool_decide (is_Some (y0 ← boot (Body := unit) 2; run cs y0)) = true -> reachable (sys_after cs).
Proof.
  intros H%bool_decide_eq_true. unfold sys_after. destruct H as [y H]. rewrite H. simpl.
  destruct (boot 2) as [y0 |] eqn:E0; [| done]. simpl in H. by eapply boot_run_reachable.
Qed.

Lemma sys_after_settled cs : bool_decide (unstored (sys_after cs) = ∅) = true -> unstored (sys_after cs) = ∅.
Proof. apply bool_decide_eq_true_1. Qed.

Lemma processDependents_correct_witness :
  exists s', processDependents 1 (sched (sys_after (take 10 demo_run))) = Some s' /\
    nodes_ s' !! 1 = None /\ (task_id_ <$> task_queue_ s') = [2].
Proof.
  destruct (nodes_ (sched (sys_after (take 10 demo_run))) !! 1) as [nd |] eqn:En;
    [| vm_compute in En; discriminate En].
  destruct (processDependents_correct (sched (sys_after (take 10 demo_run))) 1 nd)
    as (s' & rel & E & _ & Hn & _).
  - apply i_graph, sys_inv_settled; [apply reachable_inv, sys_after_reachable; vm_compute; reflexivity |].
    apply sys_after_settled. vm_compute. reflexivity.
  - exact En.
  - vm_compute in En. injection En as <-. reflexivity.
  - exists s'. split; [exact E |]. split; [exact Hn |]. vm_compute in E. injection E as <-. reflexivity.
Defined.

(** Task 2 is linked but not yet in [tasks_]. *)
Lemma scheduler_graph_invariant_witness :
  let y := sys_after (take 3 demo_run) in
  dom (unstored y) = {[2]} /\ preds (nodes_ (sched y)) 2 <> ∅.
Proof.
  assert (reachable (sys_after (take 3 demo_run))) as Hr by (apply sys_after_reachable; vm_compute; reflexivity).
  destruct (scheduler_graph_invariant (sys_after (take 3 demo_run)) Hr) as (_ & H & _).
  split; [vm_compute; reflexivity |]. refine (proj2 (proj1 (H 2) (or_intror _))).
  refine (bool_decide_unpack _ _). vm_compute. exact I.
Defined.

Lemma scheduler_no_check_fails_witness :
  is_Some (execute_message (sched (sys_after (take 10 demo_run)))).
Proof.
  apply scheduler_no_check_fails.
  - apply sys_after_reachable. vm_compute. reflexivity.
  - apply sys_after_settled. vm_compute. reflexivity.
  - vm_compute. discriminate.
Defined.

Lemma scheduler_exactly_once_witness :
  NoDup ((task_id_ <$> unqueued (sys_after demo_run)) ++ elements (dom (unstored (sys_after demo_run))) ++
    elements (dom (tasks_ (sched (sys_after demo_run)))) ++ dispatched (sys_after demo_run)).
Proof.
  apply scheduler_exactly_once, sys_after_reachable. vm_compute. reflexivity.
Defined.

Lemma scheduler_order_witness : 1 ∈ finished (sys_after (demo_run ++ [CLoop])).
Proof.
  apply (scheduler_order (sys_after (demo_run ++ [CLoop])) 1 2).
  - apply sys_after_reachable. vm_compute. reflexivity.
  - apply (tc_l _ 1 demo_c 2); [| apply tc_once].
    + refine (bool_decide_unpack _ _). vm_compute. exact I.
    + refine (bool_decide_unpack _ _). vm_compute. exact I.
  - refine (bool_decide_unpack _ _). vm_compute. exact I.
  - reflexivity.
Defined.

(** Run to the end: task 2 is reported too, and everybody waits. *)
Definition demo_quiet : list (Cmd unit) :=
  demo_run ++ [CLoop; CReceive 1; CFinish 1 newTaskDescription; CLoop; CLoop; CLoop].

Lemma all_waiting_dec y :
  forallb (fun w => match worker_msg_queue_ w, current w with [], None => true | _, _ => false end)
    (workers_ (sched y)) = true ->
  forall i w, workers_ (Body := unit) (sched y) !! i = Some w -> worker_msg_queue_ w = [] /\ current w = None.
Proof.
  intros H i w Ei. rewrite forallb_forall in H. specialize (H w).
  destruct (worker_msg_queue_ w), (current w); try done;
    exfalso; discriminate H; apply list_elem_of_In; by eapply list_elem_of_lookup_2.
Qed.

Lemma scheduler_quiescent_witness : task_queue_ (sched (sys_after demo_quiet)) = [].
Proof.
  apply scheduler_quiescent.
  - apply sys_after_reachable. vm_compute. reflexivity.
  - vm_compute. reflexivity.
  - vm_compute. reflexivity.
  - apply all_waiting_dec. vm_compute. reflexivity.
Defined.

Definition demo_exit : list (Cmd unit) :=
  demo_quiet ++ [CJoin; CLoop].

Lemma scheduler_exit_drained_witness :
  exists s', processTaskQueue (sched (sys_after demo_exit)) = Some s' /\ task_queue_ s' = [].
Proof.
  destruct (processTaskQueue (sched (sys_after demo_exit))) as [s' |] eqn:E.
  - exists s'. split; [reflexivity |].
    apply (scheduler_exit_drained (sys_after demo_exit) s').
    + apply sys_after_reachable. vm_compute. reflexivity.
    + vm_compute. reflexivity.
    + exact E.
    + vm_compute in E. injection E as <-. vm_compute. reflexivity.
  - vm_compute in E. discriminate E.
Defined.

(** A run in which worker 1 is inside [execute] of task 1. *)
Definition demo_running : list (Cmd unit) :=
  [CAllocate; CLink (newTask tt) kInvalidNodeID demo_c; CEnqueue; CLoop; CReceive 1].

Lemma demo_current : exists w ctx,
  workers_ (sched (sys_after demo_running)) !! 1%nat = Some w /\ current w = Some ctx /\
  has_scheduler ctx = true /\ continuation_ ctx = demo_c.
Proof.
  destruct (workers_ (sched (sys_after demo_running)) !! 1%nat) as [w |] eqn:Ew;
    [| vm_compute in Ew; discriminate Ew].
  destruct (current w) as [ctx |] eqn:Ec.
  - exists w, ctx. vm_compute in Ew. injection Ew as <-. simpl in Ec. injection Ec as <-.
    repeat split.
  - vm_compute in Ew. injection Ew as <-. discriminate Ec.
Qed.

Lemma spawn_is_step_witness : exists ctx y',
  spawnTask ctx (newTask tt) (sched (sys_after demo_running)) = Some (sched y').
Proof.
  destruct demo_current as (w & ctx & Ew & Ec & Hs & _).
  destruct (spawn_is_step (sys_after demo_running) 1 w ctx (newTask tt)) as (y' & _ & E & _).
  - apply sys_after_reachable. vm_compute. reflexivity.
  - exact Ew.
  - exact Ec.
  - exact Hs.
  - repeat split.
  - vm_compute. reflexivity.
  - exists ctx, y'. exact E.
Defined.

Lemma task_chain_ordered_witness : exists ctx y',
  CreateTaskChain [newTask tt; newTask tt] ctx (sched (sys_after demo_running)) = Some (sched y') /\
  forall y'', rtc step y' y'' -> 2 ∈ dispatched y'' -> 3 ∈ finished y''.
Proof.
  destruct demo_current as (w & ctx & Ew & Ec & Hs & _).
  destruct (task_chain_ordered (sys_after demo_running) 1 w ctx [newTask tt; newTask tt])
    as (y' & _ & E & _ & Hord & _).
  - apply sys_after_reachable. vm_compute. reflexivity.
  - exact Ew.
  - exact Ec.
  - exact Hs.
  - repeat constructor.
  - vm_compute. discriminate.
  - vm_compute. reflexivity.
  - exists ctx, y'. split; [exact E |]. intros y'' Hst Hd.
    apply (Hord 0 y''); [split; [discriminate | reflexivity] | exact Hst | exact Hd].
Defined.

(** ** Two hazards of the interface *)

(** [addTask] on a deferred task releases [nodes_mutex_] before the task is in
    [tasks_]: the system reaches a state in which a completion message cannot be
    handled, since the task it would release is not found and
    [DCHECK(it != tasks_.end())] fails; had the task been stored first, it could. *)
Theorem addTask_publication_race :
  exists (y : Sys unit) t, reachable y /\ unstored y !! 2 = Some t /\
    (exists wid rest, scheduler_msg_queue_ (sched y) = SchedulerTaskCompletionMessage wid 1 :: rest) /\
    execute_message (sched y) = None /\ execute_message (addTask_store t (sched y)) <> None.
Proof.
  set (cs := [CAllocate; CLink (newTask tt) kInvalidNodeID demo_c; CLink (newTask tt) demo_c kInvalidNodeID;
              CEnqueue; CLoop; CReceive 1; CLoop; CLoop; CFinish 1 newTaskDescription] : list (Cmd unit)).
  destruct (unstored (sys_after cs) !! 2) as [t |] eqn:Et; [| vm_compute in Et; discriminate Et].
  exists (sys_after cs), t. split; [apply sys_after_reachable; vm_compute; reflexivity |]. split; [exact Et |].
  vm_compute in Et. injection Et as <-. split; [do 2 eexists; vm_compute; reflexivity |].
  split; [vm_compute; reflexivity | vm_compute; discriminate].
Qed.

(** A task added with a dependency on task 1 once that has finished. *)
Definition late_task : option (Sys unit) :=
  match sys_after demo_quiet with
  | mkSys s p F D E U M =>
      '(_, s') ← addTaskWithDependency (newTask tt) 1 s;
      Some (mkSys s' p F D E U M)
  end.

(** A dependency that has already finished is never fired again: a task added
    after it stays deferred when the system is quiet, and [join] discards it. *)
Theorem late_dependency_is_lost :
  exists y, late_task = Some y /\ tasks_ (sched y) !! 3 <> None /\ pc y = AtMessage /\
    scheduler_msg_queue_ (sched y) = [] /\ task_queue_ (sched y) = [] /\
    1 ∈ finished y /\
    forall i w, workers_ (sched y) !! i = Some w -> worker_msg_queue_ w = [] /\ current w = None.
Proof.
  destruct late_task as [y |] eqn:E; [| vm_compute in E; discriminate E].
  exists y. split; [reflexivity |]. vm_compute in E. injection E as <-.
  split; [vm_compute; discriminate |]. do 3 (split; [reflexivity |]). split.
  - refine (bool_decide_unpack _ _). vm_compute. exact I.
  - apply all_waiting_dec. reflexivity.
Qed.
