(* ===== verification/XorFilter.v ===== *)
(** * The xor filter

    [src/src/utils/xorfilter.h]: the hash utilities, the filter, its
    construction by peeling (with and without write buffers) and its query, for
    8 and 16 bit fingerprints.  The two widths are textually the same code, so
    the definitions take the width [w] as an argument and the entry points
    [xor8_*] and [xor16_*] fix it.

    [None] stands for undefined behaviour: an access out of the bounds of an
    array, or a push on a full one.  Whether [malloc] succeeds is an argument.
    A stack kept in an array with a size is a list, top first; a slot of a
    write buffer ([counts[slot]] entries from [slot << insignificantbits]) is
    the list of its entries. *)

From Stdlib Require Import ZArith Lia SpecFloat.
From stdpp Require Import base numbers list option.
From S2P Require Import Prelude.
Import stdpp.list_basics.list stdpp.list_relations.list stdpp.list_monad.list.

Local Open Scope Z_scope.

Definition XOR_MAX_ITERATIONS : nat := 100.

(** ** Utilities *)

Definition xor_murmur64 (h : Z) : Z :=
  let h := Z.lxor h (Z.shiftr h 33) in
  let h := to_u64 (h * 0xff51afd7ed558ccd) in
  let h := Z.lxor h (Z.shiftr h 33) in
  let h := to_u64 (h * 0xc4ceb9fe1a85ec53) in
  Z.lxor h (Z.shiftr h 33).

Definition xor_mix_split (key seed : Z) : Z := xor_murmur64 (to_u64 (key + seed)).

Definition xor_rotl64 (n c : Z) : Z :=
  Z.lor (shlu 64 n (Z.land c 63)) (Z.shiftr n (Z.land (to_u32 (- c)) 63)).

Definition xor_reduce (hash n : Z) : Z := to_u32 (Z.shiftr (to_u64 (hash * n)) 32).

Definition xor_fingerprint (hash : Z) : Z := Z.lxor hash (Z.shiftr hash 32).

(** [xor_rng_splitmix64(&seed)]: the number and the new seed. *)
Definition xor_rng_splitmix64 (seed : Z) : Z * Z :=
  let z := to_u64 (seed + 0x9E3779B97F4A7C15) in
  let seed' := z in
  let z := to_u64 (Z.lxor z (Z.shiftr z 30) * 0xBF58476D1CE4E5B9) in
  let z := to_u64 (Z.lxor z (Z.shiftr z 27) * 0x94D049BB133111EB) in
  (Z.lxor z (Z.shiftr z 31), seed').

(** ** The filter *)

Record xor_filter := mkFilter {
  seed : Z;
  blockLength : Z;
  fingerprints : list Z
}.

Definition get (l : list Z) (i : Z) : option Z := l !! Z.to_nat i.

(** The positions of a hash in the three blocks: [get_h0], [get_h1], [get_h2]
    ([filter->blockLength] is converted to the 32 bits of the parameter). *)
Definition get_h (bl : Z) (b : nat) (hash : Z) : Z :=
  match b with
  | 0%nat => xor_reduce (to_u32 hash) (to_u32 bl)
  | 1%nat => xor_reduce (to_u32 (xor_rotl64 hash 21)) (to_u32 bl)
  | _ => xor_reduce (to_u32 (xor_rotl64 hash 42)) (to_u32 bl)
  end.

Definition contain (w key : Z) (filter : xor_filter) : option bool :=
  let bl := blockLength filter in
  let hash := xor_mix_split key (seed filter) in
  let f := wrapu w (xor_fingerprint hash) in
  let h0 := get_h bl 0 hash in
  let h1 := to_u32 (get_h bl 1 hash + bl) in
  let h2 := to_u32 (get_h bl 2 hash + to_u64 (2 * bl)) in
  f0 ← get (fingerprints filter) h0;
  f1 ← get (fingerprints filter) h1;
  f2 ← get (fingerprints filter) h2;
  Some (f =? Z.lxor (Z.lxor f0 f1) f2).

Definition xor8_contain := contain 8.
Definition xor16_contain := contain 16.

Record xorset := mkSet { xormask : Z; count : Z }.
Record keyindex := mkKI { ki_hash : Z; ki_index : Z }.
Record xor_hashes := mkHashes { hs_h : Z; hs_h0 : Z; hs_h1 : Z; hs_h2 : Z }.

Definition get_h0_h1_h2 (k : Z) (filter : xor_filter) : xor_hashes :=
  let hash := xor_mix_split k (seed filter) in
  mkHashes hash (get_h (blockLength filter) 0 hash) (get_h (blockLength filter) 1 hash)
    (get_h (blockLength filter) 2 hash).

(** [(size_t)(32 + 1.23 * size)], in double precision: the literal is the
    nearest double, the conversion truncates. *)
Definition double_1_23 : spec_float := S754_finite false 5539427541665710 (-52).

Definition size_t_of_double (x : spec_float) : Z :=
  match x with
  | S754_finite false m e => to_u64 (Z.shiftl (Zpos m) e)
  | _ => 0
  end.

Definition capacity (size : Z) : Z :=
  size_t_of_double (SFadd 53 1024 (double_of_Z 32) (SFmul 53 1024 double_1_23 (double_of_Z size))).

(** [malloc n] is the contents of a block of [n] cells, or null. *)
Definition xor8_allocate (size : Z) (malloc : Z -> option (list Z)) (filter : xor_filter) :
    bool * xor_filter :=
  let c := capacity size / 3 * 3 in
  match malloc c with
  | Some block => (true, mkFilter (seed filter) (c / 3) block)
  | None => (false, mkFilter (seed filter) (blockLength filter) [])
  end.

(** [xor16_allocate] sets the length before it allocates. *)
Definition xor16_allocate (size : Z) (malloc : Z -> option (list Z)) (filter : xor_filter) :
    bool * xor_filter :=
  let bl := capacity size / 3 in
  let c := capacity size / 3 * 3 in
  match malloc c with
  | Some block => (true, mkFilter (seed filter) (c / 3) block)
  | None => (false, mkFilter (seed filter) bl [])
  end.

Definition size_in_bytes (w : Z) (filter : xor_filter) : Z :=
  to_u64 (3 * blockLength filter * (w / 8) + 24).

Definition xor_free (filter : xor_filter) : xor_filter := mkFilter (seed filter) 0 [].

(** ** Peeling

    The three counting arrays [sets0], [sets1], [sets2] are the thirds of one
    array, the three stacks [Q0], [Q1], [Q2] the thirds of another. *)

Record Peel {Buf : Type} := mkPeel {
  sets : list xorset;
  Q0 : list keyindex; Q1 : list keyindex; Q2 : list keyindex;
  stack : list keyindex;
  buffers : Buf
}.
Arguments Peel : clear implicits.

Section Peeling.
Context {Buf : Type}.
Implicit Types p : Peel Buf.

Definition Q (b : nat) p : list keyindex :=
  match b with 0%nat => Q0 p | 1%nat => Q1 p | _ => Q2 p end.

Definition set_Q (b : nat) (q : list keyindex) p : Peel Buf :=
  match b with
  | 0%nat => mkPeel _ (sets p) q (Q1 p) (Q2 p) (stack p) (buffers p)
  | 1%nat => mkPeel _ (sets p) (Q0 p) q (Q2 p) (stack p) (buffers p)
  | _ => mkPeel _ (sets p) (Q0 p) (Q1 p) q (stack p) (buffers p)
  end.

Definition set_sets (l : list xorset) p : Peel Buf :=
  mkPeel _ l (Q0 p) (Q1 p) (Q2 p) (stack p) (buffers p).
Definition set_stack (l : list keyindex) p : Peel Buf :=
  mkPeel _ (sets p) (Q0 p) (Q1 p) (Q2 p) l (buffers p).
Definition set_buffers (u : Buf) p : Peel Buf :=
  mkPeel _ (sets p) (Q0 p) (Q1 p) (Q2 p) (stack p) u.

Variable bl : Z.          (* blockLength *)
Variable size : Z.        (* number of keys, the capacity of [stack] *)

(** The cell [sets_b[i]]. *)
Definition cell (b : nat) (i : Z) : nat := Z.to_nat (Z.of_nat b * bl + i).

Definition push_Q (b : nat) (ki : keyindex) p : option (Peel Buf) :=
  if Z.of_nat (length (Q b p)) <? bl then Some (set_Q b (ki :: Q b p) p) else None.

Definition push_stack (ki : keyindex) p : option (Peel Buf) :=
  if Z.of_nat (length (stack p)) <? size then Some (set_stack (ki :: stack p) p) else None.

(** [sets_b[i].xormask ^= hash; sets_b[i].count++] *)
Definition increment (b : nat) (i hash : Z) p : option (Peel Buf) :=
  s ← sets p !! cell b i;
  Some (set_sets (<[cell b i := mkSet (Z.lxor (xormask s) hash) (to_u32 (count s + 1))]> (sets p)) p).

(** [sets_b[i].xormask ^= hash; sets_b[i].count--; if (count == 1) push] *)
Definition decrement (b : nat) (i hash : Z) p : option (Peel Buf) :=
  s ← sets p !! cell b i;
  let s' := mkSet (Z.lxor (xormask s) hash) (to_u32 (count s - 1)) in
  let p' := set_sets (<[cell b i := s']> (sets p)) p in
  if count s' =? 1 then push_Q b (mkKI (xormask s') i) p' else Some p'.

(** The scan for the cells with a count of one, block [b] from index [i]. *)
Fixpoint scan (b : nat) (k : nat) (i : Z) p : option (Peel Buf) :=
  match k with
  | O => Some p
  | S k =>
      s ← sets p !! cell b i;
      p' ← (if count s =? 1 then push_Q b (mkKI (xormask s) i) p else Some p);
      scan b k (i + 1) p'
  end.

Definition scan_all p : option (Peel Buf) :=
  p0 ← scan 0 (Z.to_nat bl) 0 p;
  p1 ← scan 1 (Z.to_nat bl) 0 p0;
  scan 2 (Z.to_nat bl) 0 p1.

(** What differs between the buffered and the plain construction. *)
Variable inc : nat -> Z -> Z -> Peel Buf -> option (Peel Buf).
Variable dec : nat -> Z -> Z -> Peel Buf -> option (Peel Buf).
Variable make_current : nat -> Z -> Peel Buf -> option (Peel Buf).
Variable flush_one : nat -> Peel Buf -> option (Peel Buf).
Variable flush_inc : Peel Buf -> option (Peel Buf).
Variable flush_dec : Peel Buf -> option (Peel Buf).

(** The counting loop over the keys. *)
Fixpoint count_keys (filter : xor_filter) (keys : list Z) p : option (Peel Buf) :=
  match keys with
  | [] => Some p
  | key :: keys =>
      let hs := get_h0_h1_h2 key filter in
      p ← inc 0 (hs_h0 hs) (hs_h hs) p;
      p ← inc 1 (hs_h1 hs) (hs_h hs) p;
      p ← inc 2 (hs_h2 hs) (hs_h hs) p;
      count_keys filter keys p
  end.

(** The other two blocks, in the order the code visits them. *)
Definition others (b : nat) : nat * nat :=
  match b with 0%nat => (1%nat, 2%nat) | 1%nat => (0%nat, 2%nat) | _ => (0%nat, 1%nat) end.

(** The number of pops still possible: what is on the stacks, and a push for
    every cell whose count can still fall to one. *)
Definition potential p : nat :=
  (length (Q0 p) + length (Q1 p) + length (Q2 p) +
   length (filter (fun s => (2 <= count s)%Z) (sets p)))%nat.

(** [while (Qb_size > 0) { ... }] *)
Fixpoint drain (fuel : nat) (b : nat) p : option (Peel Buf) :=
  match fuel with
  | O => None
  | S fuel =>
      match Q b p with
      | [] => Some p
      | ki :: q =>
          p ← make_current b (ki_index ki) (set_Q b q p);
          s ← sets p !! cell b (ki_index ki);
          if count s =? 0 then drain fuel b p
          else
            let hash := ki_hash ki in
            let '(b1, b2) := others b in
            p ← push_stack (mkKI hash (to_u32 (ki_index ki + Z.of_nat b * bl))) p;
            p ← dec b1 (get_h bl b1 hash) hash p;
            p ← dec b2 (get_h bl b2 hash) hash p;
            drain fuel b p
      end
  end.

Definition drain_all (b : nat) p : option (Peel Buf) := drain (S (potential p)) b p.

Definition q_empty p : bool :=
  match Q0 p, Q1 p, Q2 p with [], [], [] => true | _, _, _ => false end.

(** [if (Qb_size == 0) flushone] *)
Definition flush_if_empty (b : nat) p : option (Peel Buf) :=
  match Q b p with [] => flush_one b p | _ => Some p end.

(** [while (Q0size + Q1size + Q2size > 0) { ... }] *)
Fixpoint peel (fuel : nat) p : option (Peel Buf) :=
  match fuel with
  | O => None
  | S fuel =>
      if q_empty p then Some p
      else
        p ← drain_all 0 p;
        p ← flush_if_empty 1 p;
        p ← drain_all 1 p;
        p ← flush_if_empty 2 p;
        p ← drain_all 2 p;
        p ← flush_if_empty 0 p;
        p ← (if q_empty p && (Z.of_nat (length (stack p)) <? size) then flush_dec p else Some p);
        peel fuel p
  end.

(** One attempt with the current seed: the arrays are cleared, the buffers are
    the ones the previous attempt left. *)
Definition attempt (keys : list Z) (filter : xor_filter) (bufs : Buf) : option (Peel Buf) :=
  let p := mkPeel _ (replicate (Z.to_nat (3 * bl)) (mkSet 0 0)) [] [] [] [] bufs in
  p ← count_keys filter keys p;
  p ← flush_inc p;
  p ← scan_all p;
  peel (S (potential p)) p.

(** [while (true)]: at most [n] more attempts.  The result is the filter and
    the stack of the attempt that succeeded, or the filter of the last one. *)
Fixpoint attempts (n : nat) (rng_counter : Z) (keys : list Z) (filter : xor_filter) (bufs : Buf) :
    option (xor_filter * option (list keyindex)) :=
  match n with
  | O => Some (filter, None)
  | S n =>
      p ← attempt keys filter bufs;
      if Z.of_nat (length (stack p)) =? size then Some (filter, Some (stack p))
      else
        let '(s, rng) := xor_rng_splitmix64 rng_counter in
        attempts n rng keys (mkFilter s (blockLength filter) (fingerprints filter)) (buffers p)
  end.

End Peeling.

(** The final loop: the fingerprints, from the top of the stack. *)
Fixpoint assign (w bl : Z) (st : list keyindex) (fps : list Z) : option (list Z) :=
  match st with
  | [] => Some fps
  | ki :: st =>
      let h := ki_hash ki in
      let '(b1, b2) :=
        if ki_index ki <? bl then (1%nat, 2%nat)
        else if ki_index ki <? to_u64 (2 * bl) then (0%nat, 2%nat) else (0%nat, 1%nat) in
      v1 ← get fps (Z.of_nat b1 * bl + get_h bl b1 h);
      v2 ← get fps (Z.of_nat b2 * bl + get_h bl b2 h);
      let val := Z.lxor (xor_fingerprint h) (Z.lxor v1 v2) in
      _ ← get fps (ki_index ki);
      assign w bl st (<[Z.to_nat (ki_index ki) := wrapu w val]> fps)
  end.

(** ** xor8_populate, xor16_populate *)

Definition plain_current (b : nat) (i : Z) (p : Peel unit) : option (Peel unit) := Some p.
Definition plain_flush_one (b : nat) (p : Peel unit) : option (Peel unit) := Some p.
Definition plain_flush (p : Peel unit) : option (Peel unit) := Some p.

(** [ok_sets], [ok_Q], [ok_stack]: the allocation succeeded. *)
Definition populate (w : Z) (ok_sets ok_Q ok_stack : bool) (keys : list Z) (filter : xor_filter) :
    option (bool * xor_filter) :=
  let bl := blockLength filter in
  let size := Z.of_nat (length keys) in
  let '(s, rng) := xor_rng_splitmix64 1 in
  let filter := mkFilter s bl (fingerprints filter) in
  if negb ok_sets || negb ok_Q || negb ok_stack then Some (false, filter)
  else
    '(filter, res) ← attempts bl size (increment bl) (decrement bl) plain_current plain_flush_one
                       plain_flush plain_flush XOR_MAX_ITERATIONS rng keys filter tt;
    match res with
    | None => Some (false, filter)
    | Some st =>
        fps ← assign w bl st (fingerprints filter);
        Some (true, mkFilter (seed filter) bl fps)
    end.

Definition xor8_populate := populate 8.
Definition xor16_populate := populate 16.

(** ** The write buffers *)

Record setbuffer := mkBuffer {
  slots : list (list keyindex);
  insignificantbits : Z;
  slotsize : Z;
  slotcount : Z;
  originalsize : Z
}.

(** [ok_buffer], [ok_counts]: the allocation succeeded.  On failure both
    pointers are freed but keep their values: the result says whether one of
    them is dangling (the other is then null). *)
Definition xor_init_buffer (ok_buffer ok_counts : bool) (size : Z) : bool + setbuffer :=
  let slotsize := shlu 32 1 18 in
  let slotcount := to_u32 (to_u64 (size + slotsize - 1) / slotsize) in
  if negb ok_counts || negb ok_buffer then inl (ok_buffer || ok_counts)
  else inr (mkBuffer (replicate (Z.to_nat slotcount) []) 18 slotsize slotcount size).

(** [xor_free_buffer] frees both pointers: a second time, if one dangles. *)
Definition xor_free_buffer (u : bool + setbuffer) : option unit :=
  match u with inl true => None | _ => Some tt end.

Definition Buffers : Type := setbuffer * setbuffer * setbuffer.

Definition buffer (b : nat) (u : Buffers) : setbuffer :=
  let '(u0, u1, u2) := u in match b with 0%nat => u0 | 1%nat => u1 | _ => u2 end.

Definition set_buffer (b : nat) (v : setbuffer) (u : Buffers) : Buffers :=
  let '(u0, u1, u2) := u in
  match b with 0%nat => (v, u1, u2) | 1%nat => (u0, v, u2) | _ => (u0, u1, v) end.

Definition set_slot (u : setbuffer) (slot : Z) (l : list keyindex) : setbuffer :=
  mkBuffer (<[Z.to_nat slot := l]> (slots u)) (insignificantbits u) (slotsize u) (slotcount u)
    (originalsize u).

Definition update_slot (b : nat) (slot : Z) (l : list keyindex) (p : Peel Buffers) : Peel Buffers :=
  set_buffers (set_buffer b (set_slot (buffer b (buffers p)) slot l) (buffers p)) p.

Section Buffered.
Variable bl : Z.

Fixpoint apply_all (f : nat -> Z -> Z -> Peel Buffers -> option (Peel Buffers)) (b : nat)
    (l : list keyindex) (p : Peel Buffers) : option (Peel Buffers) :=
  match l with
  | [] => Some p
  | ki :: l => p ← f b (ki_index ki) (ki_hash ki) p; apply_all f b l p
  end.

(** The common part of the two buffered updates: the entry is stored (a write
    past the end of the slot is an error), and a slot that is full is emptied
    with [f]. *)
Definition buffered_update (f : nat -> Z -> Z -> Peel Buffers -> option (Peel Buffers)) (b : nat)
    (index hash : Z) (p : Peel Buffers) : option (Peel Buffers) :=
  let u := buffer b (buffers p) in
  let slot := Z.shiftr index (insignificantbits u) in
  entries ← slots u !! Z.to_nat slot;
  if slotsize u <=? Z.of_nat (length entries) then None else
  let entries := entries ++ [mkKI hash index] in
  if Z.of_nat (length entries) =? slotsize u then
    p ← apply_all f b entries p;
    Some (update_slot b slot [] p)
  else Some (update_slot b slot entries p).

Definition xor_buffered_increment_counter := buffered_update (increment bl).

Definition xor_buffered_decrement_counter := buffered_update (decrement bl).

(** [xor_make_buffer_current]: the slot of [index] is emptied. *)
Definition empty_slot (b : nat) (slot : Z) (p : Peel Buffers) : option (Peel Buffers) :=
  entries ← slots (buffer b (buffers p)) !! Z.to_nat slot;
  p ← apply_all (decrement bl) b entries p;
  Some (update_slot b slot [] p).

Definition xor_make_buffer_current (b : nat) (index : Z) (p : Peel Buffers) : option (Peel Buffers) :=
  let u := buffer b (buffers p) in
  let slot := Z.shiftr index (insignificantbits u) in
  entries ← slots u !! Z.to_nat slot;
  match entries with
  | [] => Some p
  | _ => empty_slot b slot p
  end.

(** Emptying the slots [slot], [slot + 1], ..., [n] of them. *)
Fixpoint flush_slots (f : nat -> Z -> Z -> Peel Buffers -> option (Peel Buffers)) (b : nat) (n : nat)
    (slot : Z) (p : Peel Buffers) : option (Peel Buffers) :=
  match n with
  | O => Some p
  | S n =>
      entries ← slots (buffer b (buffers p)) !! Z.to_nat slot;
      p ← apply_all f b entries p;
      flush_slots f b n (slot + 1) (update_slot b slot [] p)
  end.

Definition xor_flush_increment_buffer (b : nat) (p : Peel Buffers) : option (Peel Buffers) :=
  flush_slots (increment bl) b (Z.to_nat (slotcount (buffer b (buffers p)))) 0 p.

Definition xor_flush_decrement_buffer (b : nat) (p : Peel Buffers) : option (Peel Buffers) :=
  flush_slots (decrement bl) b (Z.to_nat (slotcount (buffer b (buffers p)))) 0 p.

(** The slot with most entries, the first of them. *)
Fixpoint best_slot (l : list (list keyindex)) (slot bestslot : Z) (bestcount : nat) : Z :=
  match l with
  | [] => bestslot
  | entries :: l =>
      if (bestcount <? length entries)%nat then best_slot l (slot + 1) slot (length entries)
      else best_slot l (slot + 1) bestslot bestcount
  end.

Definition xor_flushone_decrement_buffer (b : nat) (p : Peel Buffers) : option (Peel Buffers) :=
  match slots (buffer b (buffers p)) with
  | [] => None
  | first :: rest => empty_slot b (best_slot rest 1 0 (length first)) p
  end.

Definition flush_increments (p : Peel Buffers) : option (Peel Buffers) :=
  p ← xor_flush_increment_buffer 0 p;
  p ← xor_flush_increment_buffer 1 p;
  xor_flush_increment_buffer 2 p.

Definition flush_decrements (p : Peel Buffers) : option (Peel Buffers) :=
  p ← xor_flush_decrement_buffer 0 p;
  p ← xor_flush_decrement_buffer 1 p;
  xor_flush_decrement_buffer 2 p.

End Buffered.

(** ** xor8_buffered_populate, xor16_buffered_populate

    [ok_u b] says whether the two arrays of buffer [b] were allocated. *)
Definition buffered_populate (w : Z) (ok_u : nat -> bool * bool) (ok_sets ok_Q ok_stack : bool)
    (keys : list Z) (filter : xor_filter) : option (bool * xor_filter) :=
  let bl := blockLength filter in
  let size := Z.of_nat (length keys) in
  let '(s, rng) := xor_rng_splitmix64 1 in
  let filter := mkFilter s bl (fingerprints filter) in
  match xor_init_buffer (fst (ok_u 0%nat)) (snd (ok_u 0%nat)) bl,
        xor_init_buffer (fst (ok_u 1%nat)) (snd (ok_u 1%nat)) bl,
        xor_init_buffer (fst (ok_u 2%nat)) (snd (ok_u 2%nat)) bl with
  | inr u0, inr u1, inr u2 =>
      if negb ok_sets || negb ok_Q || negb ok_stack then Some (false, filter)
      else
        '(filter, res) ← attempts bl size (xor_buffered_increment_counter bl)
                           (xor_buffered_decrement_counter bl) (xor_make_buffer_current bl)
                           (xor_flushone_decrement_buffer bl) (flush_increments bl)
                           (flush_decrements bl) XOR_MAX_ITERATIONS rng keys filter (u0, u1, u2);
        match res with
        | None => Some (false, filter)
        | Some st =>
            fps ← assign w bl st (fingerprints filter);
            Some (true, mkFilter (seed filter) bl fps)
        end
  | r0, r1, r2 =>
      _ ← xor_free_buffer r0;
      _ ← xor_free_buffer r1;
      _ ← xor_free_buffer r2;
      Some (false, filter)
  end.

Definition xor8_buffered_populate := buffered_populate 8.
Definition xor16_buffered_populate := buffered_populate 16.

(** ** xorfilter_wrapper.h *)

(** The constructor throws when the allocation fails. *)
Definition Xor8 (size : Z) (malloc : Z -> option (list Z)) : option xor_filter :=
  match xor8_allocate (to_u32 size) malloc (mkFilter 0 0 []) with
  | (true, filter) => Some filter
  | (false, _) => None
  end.

(** [end - start] is converted to the 32 bits of the parameter [size]. *)
Definition AddAll (data : list Z) (start stop : Z) (filter : xor_filter) : option (bool * xor_filter) :=
  let size := to_u32 (to_u64 (stop - start)) in
  if Z.of_nat (length data) <? start + size then None
  else xor8_buffered_populate (fun _ => (true, true)) true true true
         (take (Z.to_nat size) (drop (Z.to_nat start) data)) filter.

Definition Contain (item : Z) (filter : xor_filter) : option bool := xor8_contain item filter.

Definition SizeInBytes (filter : xor_filter) : Z := size_in_bytes 8 filter.
