(* ===== verification/XorPeel.v ===== *)
(** * Correctness of the construction of the xor filter

    The invariant of peeling, the laws of the write buffers (the class
    [PeelLaws], with an instance for the plain construction and one for the
    buffered one), and the theorem that a filter that was populated contains
    every key. *)

From Stdlib Require Import ZArith Lia.
From stdpp Require Import base numbers list option.
From S2P Require Import Prelude XorFilter.
Import stdpp.list_basics.list stdpp.list_relations.list stdpp.list_monad.list.

Local Open Scope Z_scope.

(** ** Xor of a list, up to permutation *)

Definition xors (l : list Z) : Z := foldr Z.lxor 0 l.

Lemma xors_app l l' : xors (l ++ l') = Z.lxor (xors l) (xors l').
Proof. induction l as [| x l IH]; simpl; [done |]. by rewrite IH, Z.lxor_assoc. Qed.

#[export] Instance xors_perm : Proper ((≡ₚ) ==> (=)) xors.
Proof.
  intros l l' H. induction H; simpl; [done | congruence | | congruence].
  by rewrite <- !Z.lxor_assoc, (Z.lxor_comm y x).
Qed.

(** An equation between xors holds when it does bit by bit. *)
Ltac lxor_solve :=
  apply Z.bits_inj'; intros ? _; rewrite !Z.lxor_spec;
  repeat match goal with |- context [Z.testbit ?x ?n] => destruct (Z.testbit x n) end; reflexivity.

Section Peel.
Context {Buf : Type}.
Implicit Types p : Peel Buf.

Variable bl : Z.
Hypothesis Hbl : 0 < bl.
Hypothesis Hbl3 : 3 * bl <= 2 ^ 32.

Lemma get_h_range b h : 0 <= get_h bl b h < bl.
Proof.
  assert (forall r, 0 <= xor_reduce (to_u32 r) (to_u32 bl) < bl) as H.
  { intros r. unfold xor_reduce. rewrite (wrapu_id 32 bl) by (unfold is_u; lia).
    pose proof (wrapu_is_u 32 r ltac:(lia)) as Hr. unfold is_u in Hr.
    rewrite Z.shiftr_div_pow2 by lia.
    rewrite (wrapu_id 64) by (unfold is_u; nia).
    assert (0 <= to_u32 r * bl / 2 ^ 32 < bl) as Hd.
    { split; [apply Z.div_pos; nia | apply Z.div_lt_upper_bound; nia]. }
    rewrite wrapu_id by (unfold is_u; lia). done. }
  unfold get_h. destruct b as [| [|]]; apply H.
Qed.

(** ** Positions in the whole array *)

Definition pos (b : nat) (i : Z) : Z := Z.of_nat b * bl + i.

Lemma pos_inj b i b' i' :
  0 <= i < bl -> 0 <= i' < bl -> pos b i = pos b' i' -> b = b' /\ i = i'.
Proof. unfold pos. intros. assert (Z.of_nat b = Z.of_nat b') by nia. split; lia. Qed.

Lemma cell_inj b i b' i' :
  0 <= i < bl -> 0 <= i' < bl -> cell bl b i = cell bl b' i' -> b = b' /\ i = i'.
Proof. unfold cell. intros. apply pos_inj; unfold pos; try done. lia. Qed.

Lemma cell_lt b i : (b < 3)%nat -> 0 <= i < bl -> (cell bl b i < Z.to_nat (3 * bl))%nat.
Proof. unfold cell. intros. assert (Z.of_nat b <= 2) by lia. nia. Qed.

(** ** What a cell holds

    [U] is the multiset of the hashes not yet peeled, [pend b] the decrements
    of block [b] that are recorded but not applied. *)

Definition content (U : list Z) (pend : nat -> list keyindex) (b : nat) (i : Z) : list Z :=
  filter (fun h => get_h bl b h = i) U ++ (ki_hash <$> filter (fun k => ki_index k = i) (pend b)).

Definition frozen (st : list keyindex) (b : nat) (i : Z) : Prop := pos b i ∈ ki_index <$> st.

(** The stack: an entry sits in one of the cells of its hash, and no entry
    below it sits in any of them. *)
Fixpoint stack_ok (st : list keyindex) : Prop :=
  match st with
  | [] => True
  | k :: st =>
      (exists b, (b < 3)%nat /\ ki_index k = pos b (get_h bl b (ki_hash k))) /\
      (forall e b, e ∈ st -> (b < 3)%nat -> ki_index e <> pos b (get_h bl b (ki_hash k))) /\
      stack_ok st
  end.

(** [X b] are the entries taken from [Q b] that are being looked at. *)
Record pinv (H U : list Z) (pend X : nat -> list keyindex) p : Prop := {
  v_len : length (sets p) = Z.to_nat (3 * bl);
  v_size : Z.of_nat (length H) < 2 ^ 32;
  v_hashes : H ≡ₚ U ++ (ki_hash <$> stack p);
  v_cells : forall b i, (b < 3)%nat -> 0 <= i < bl -> ~ frozen (stack p) b i ->
    sets p !! cell bl b i =
      Some (mkSet (xors (content U pend b i)) (Z.of_nat (length (content U pend b i))));
  v_frozen : forall b i, (b < 3)%nat -> 0 <= i < bl -> frozen (stack p) b i ->
    content U pend b i = [];
  v_pend : forall b k, (b < 3)%nat -> k ∈ pend b -> 0 <= ki_index k < bl;
  v_small : forall b, (b < 3)%nat -> (length U + length (pend b) <= length H)%nat;
  v_Q : forall b k, (b < 3)%nat -> k ∈ X b ++ Q b p ->
    0 <= ki_index k < bl /\ ~ frozen (stack p) b (ki_index k) /\
    (length (content U pend b (ki_index k)) <= 1)%nat /\
    (forall h, content U pend b (ki_index k) = [h] -> h = ki_hash k);
  v_Q_distinct : forall b, (b < 3)%nat -> NoDup (ki_index <$> X b ++ Q b p);
  v_stack : stack_ok (stack p)
}.

Definition nothing (b : nat) : list keyindex := [].

Lemma content_perm U U' pend pend' b i :
  U ≡ₚ U' -> pend b ≡ₚ pend' b -> content U pend b i ≡ₚ content U' pend' b i.
Proof. intros E1 E2. unfold content. by rewrite E1, E2. Qed.

Lemma pinv_perm H U U' pend pend' X p :
  U ≡ₚ U' -> (forall b, (b < 3)%nat -> pend b ≡ₚ pend' b) ->
  pinv H U pend X p -> pinv H U' pend' X p.
Proof.
  intros EU EP [Vl Vs Vh Vc Vf Vp Vm VQ Vd Vk].
  assert (forall b i, (b < 3)%nat -> content U pend b i ≡ₚ content U' pend' b i) as EC.
  { intros b i Hb. apply content_perm; auto. }
  split; try done.
  - by rewrite <- EU.
  - intros b i Hb Hi Hf. rewrite (Vc b i Hb Hi Hf). by rewrite (EC b i Hb).
  - intros b i Hb Hi Hf. apply Permutation_nil. rewrite <- (EC b i Hb). by rewrite (Vf b i Hb Hi Hf).
  - intros b k Hb Hk. apply (Vp b k Hb). by rewrite (EP b Hb).
  - intros b Hb. rewrite <- EU, <- (EP b Hb). auto.
  - intros b k Hb Hk. destruct (VQ b k Hb Hk) as (H1 & H2 & H3 & H4).
    split; [done | split; [done | split]].
    + by rewrite <- (EC b _ Hb).
    + intros h Eh. apply H4. apply Permutation_singleton_r. by rewrite (EC b _ Hb), Eh.
Qed.

(** ** One decrement *)

Lemma Q_set_Q_eq b q p : Q b (set_Q b q p) = q.
Proof. by destruct b as [| [|]]. Qed.

Lemma Q_set_Q_ne b b' q p :
  (b < 3)%nat -> (b' < 3)%nat -> b <> b' -> Q b' (set_Q b q p) = Q b' p.
Proof. destruct b as [| [| [|]]], b' as [| [| [|]]]; intros; simpl; done || lia. Qed.

Lemma set_Q_fields b q p :
  sets (set_Q b q p) = sets p /\ stack (set_Q b q p) = stack p /\ buffers (set_Q b q p) = buffers p.
Proof. by destruct b as [| [|]]. Qed.

Lemma potential_set_Q b q p :
  (potential (set_Q b q p) + length (Q b p) = potential p + length q)%nat.
Proof. destruct b as [| [|]]; unfold potential; simpl; lia. Qed.

Lemma length_filter_insert (P : xorset -> Prop) `{!forall s, Decision (P s)} l n s s' :
  l !! n = Some s ->
  (length (filter P (<[n := s']> l)) + (if decide (P s) then 1 else 0) =
   length (filter P l) + (if decide (P s') then 1 else 0))%nat.
Proof.
  intros E. rewrite (insert_take_drop l n s') by (by eapply lookup_lt_Some).
  rewrite <- (take_drop_middle l n s E) at 3.
  rewrite !filter_app, !filter_cons, !length_app. repeat case_decide; simpl; lia.
Qed.

Lemma distinct_room (l : list Z) i :
  NoDup l -> (forall x, x ∈ l -> 0 <= x < bl) -> 0 <= i < bl -> i ∉ l ->
  Z.of_nat (length l) < bl.
Proof.
  intros HN Hr Hi Hn.
  assert (length (i :: l) <= length (seqZ 0 bl))%nat as Hlen.
  { apply submseteq_length, NoDup_submseteq; [by constructor |].
    intros x Hx. apply elem_of_seqZ. apply elem_of_cons in Hx as [-> | Hx]; [lia |].
    specialize (Hr x Hx). lia. }
  rewrite length_seqZ in Hlen. simpl in Hlen. lia.
Qed.

Definition addp (b : nat) (k : keyindex) (pend : nat -> list keyindex) (b' : nat) : list keyindex :=
  if decide (b' = b) then k :: pend b' else pend b'.

Lemma content_add_eq U b k pend :
  content U (addp b k pend) b (ki_index k) ≡ₚ ki_hash k :: content U pend b (ki_index k).
Proof.
  unfold content, addp. rewrite decide_True by done. rewrite filter_cons_True by done. csimpl.
  by rewrite Permutation_middle.
Qed.

Lemma content_add_ne U b k pend b' i :
  ~ (b' = b /\ i = ki_index k) -> content U (addp b k pend) b' i = content U pend b' i.
Proof.
  intros Hn. unfold content, addp. case_decide as Hb; [| done]. subst b'.
  rewrite filter_cons_False; [done |]. naive_solver.
Qed.

(** How an operation on pending decrements may change the state. *)
Record evolves p p' : Prop := {
  e_stack : stack p' = stack p;
  e_Q : forall b, (b < 3)%nat -> (length (Q b p) <= length (Q b p'))%nat;
  e_potential : (potential p' <= potential p)%nat
}.

Lemma evolves_refl p : evolves p p.
Proof. by split. Qed.

Lemma evolves_trans p1 p2 p3 : evolves p1 p2 -> evolves p2 p3 -> evolves p1 p3.
Proof.
  intros [S1 Q1 P1] [S2 Q2 P2]. split; [congruence | | lia].
  intros b Hb. etrans; [by apply Q1 | by apply Q2].
Qed.

(** The invariant after the cell of [k] has been rewritten. *)
Lemma pinv_set_cell H U pend X b k p :
  (b < 3)%nat -> pinv H U (addp b k pend) X p ->
  let C := content U pend b (ki_index k) in
  let p' := set_sets (<[cell bl b (ki_index k) := mkSet (xors C) (Z.of_nat (length C))]> (sets p)) p in
  0 <= ki_index k < bl /\ ~ frozen (stack p) b (ki_index k) /\
  (Z.of_nat (length C) < 2 ^ 32 - 1) /\
  sets p !! cell bl b (ki_index k) =
    Some (mkSet (Z.lxor (xors C) (ki_hash k)) (Z.of_nat (length C) + 1)) /\
  pinv H U pend X p'.
Proof.
  intros Hb [Vl Vs Vh Vc Vf Vp Vm VQ Vd Vk] C p'.
  assert (0 <= ki_index k < bl) as Hi.
  { apply (Vp b k Hb). unfold addp. rewrite decide_True by done. left. }
  pose proof (content_add_eq U b k pend) as EC. fold C in EC.
  assert (~ frozen (stack p) b (ki_index k)) as Hnf.
  { intros Hf. rewrite (Vf b _ Hb Hi Hf) in EC. by apply Permutation_nil_cons in EC. }
  assert (sets p !! cell bl b (ki_index k) =
    Some (mkSet (Z.lxor (xors C) (ki_hash k)) (Z.of_nat (length C) + 1))) as Es.
  { rewrite (Vc b _ Hb Hi Hnf). rewrite EC. simpl. rewrite (Z.lxor_comm (ki_hash k)).
    do 2 f_equal. lia. }
  assert (forall b' i, ~ (b' = b /\ i = ki_index k) ->
    content U (addp b k pend) b' i = content U pend b' i) as Hne by (intros; by apply content_add_ne).
  pose proof (Vm b Hb) as Hm. unfold addp in Hm at 1. rewrite decide_True in Hm by done.
  simpl in Hm.
  assert (length C <= length U + length (pend b))%nat as HlC.
  { unfold C, content. rewrite length_app, length_fmap.
    pose proof (length_filter (fun h => get_h bl b h = ki_index k) U).
    pose proof (length_filter (fun e => ki_index e = ki_index k) (pend b)). lia. }
  repeat (split; [done || lia |]). split; simpl; try done.
  - by rewrite length_insert.
  - intros b' i Hb' Hi' Hf. destruct (decide (b' = b /\ i = ki_index k)) as [[-> ->] | Hd].
    + rewrite list_lookup_insert_eq; [done |]. rewrite Vl. by apply cell_lt.
    + rewrite list_lookup_insert_ne, <- (Hne _ _ Hd); [auto |].
      intros Ec. apply cell_inj in Ec as [? ?]; naive_solver.
  - intros b' i Hb' Hi' Hf. destruct (decide (b' = b /\ i = ki_index k)) as [[-> ->] | Hd]; [done |].
    rewrite <- (Hne _ _ Hd). auto.
  - intros b' e Hb' He. apply (Vp b' e Hb'). unfold addp. case_decide; [by right | done].
  - intros b' Hb'. specialize (Vm b' Hb'). unfold addp in Vm. case_decide; simpl in Vm; lia.
  - intros b' e Hb' He. destruct (VQ b' e Hb' He) as (R & NF & L & E).
    destruct (decide (b' = b /\ ki_index e = ki_index k)) as [[-> Ei] | Hd].
    + rewrite Ei in R, NF, L |- *. rewrite EC in L. simpl in L. fold C.
      split; [done | split; [done | split; [lia |]]].
      intros h EC1. rewrite EC1 in L. simpl in L. lia.
    + by rewrite <- (Hne _ _ Hd).
Qed.

Lemma pinv_push H U pend X b p h i :
  (b < 3)%nat -> pinv H U pend X p -> 0 <= i < bl -> ~ frozen (stack p) b i ->
  content U pend b i = [h] -> (forall k, k ∈ X b ++ Q b p -> ki_index k <> i) ->
  exists p', push_Q bl b (mkKI h i) p = Some p' /\ pinv H U pend X p' /\
    p' = set_Q b (mkKI h i :: Q b p) p.
Proof.
  intros Hb V Hi Hnf EC Hfresh. destruct V as [Vl Vs Vh Vc Vf Vp Vm VQ Vd Vk].
  assert (Z.of_nat (length (Q b p)) < bl) as Hroom.
  { assert (Z.of_nat (length (ki_index <$> X b ++ Q b p)) < bl) as Hr.
    { apply (distinct_room _ i); [by apply Vd | | done |].
      - intros x (k & -> & Hk)%list_elem_of_fmap. by apply (VQ b k Hb Hk).
      - intros (k & E & Hk)%list_elem_of_fmap. by apply (Hfresh k Hk). }
    rewrite length_fmap, length_app in Hr. lia. }
  unfold push_Q. rewrite (proj2 (Z.ltb_lt _ _) Hroom).
  eexists. split; [reflexivity | split; [| reflexivity]].
  destruct (set_Q_fields b (mkKI h i :: Q b p) p) as (E1 & E2 & _).
  split; rewrite ?E1, ?E2; try done.
  - intros b' k Hb' Hk. destruct (decide (b = b')) as [<- | Hne].
    + rewrite Q_set_Q_eq in Hk. apply elem_of_app in Hk as [Hk | [-> | Hk]%elem_of_cons].
      * apply VQ; [done |]. apply elem_of_app. by left.
      * simpl. rewrite EC. split; [done | split; [done | split; [done |]]]. by intros ? [= ->].
      * apply VQ; [done |]. apply elem_of_app. by right.
    + rewrite Q_set_Q_ne in Hk by done. auto.
  - intros b' Hb'. destruct (decide (b = b')) as [<- | Hne].
    + rewrite Q_set_Q_eq, fmap_app. csimpl. rewrite <- Permutation_middle.
      constructor; [| rewrite <- fmap_app; auto].
      rewrite <- fmap_app. intros (k & E & Hk)%list_elem_of_fmap. simpl in E. by apply (Hfresh k Hk).
    + rewrite Q_set_Q_ne by done. auto.
Qed.

Lemma decrement_ok H U pend X b k p :
  (b < 3)%nat -> pinv H U (addp b k pend) X p ->
  exists p', decrement bl b (ki_index k) (ki_hash k) p = Some p' /\ pinv H U pend X p' /\
    evolves p p' /\ buffers p' = buffers p.
Proof.
  intros Hb V. pose proof (pinv_set_cell H U pend X b k p Hb V) as HS. simpl in HS.
  set (C := content U pend b (ki_index k)) in *.
  destruct HS as (Hi & Hnf & Hlt & Es & V1).
  unfold decrement. rewrite Es. simpl.
  rewrite Z.lxor_assoc, Z.lxor_nilpotent, Z.lxor_0_r.
  replace (Z.of_nat (length C) + 1 - 1) with (Z.of_nat (length C)) by lia.
  rewrite wrapu_id by (unfold is_u; lia).
  set (s' := mkSet (xors C) _) in *. set (p1 := set_sets _ p) in *.
  pose proof (length_filter_insert (fun s => 2 <= count s) (sets p) _ _ s' Es) as Hf. simpl in Hf.
  destruct (Z.eqb_spec (Z.of_nat (length C)) 1) as [H1 | H1].
  - destruct C as [| h [|]] eqn:EC; simpl in H1; [lia | | lia].
    destruct (pinv_push H U pend X b p1 h (ki_index k) Hb V1 Hi Hnf EC) as (p' & E' & V' & ->).
    { intros e He E. destruct (v_Q _ _ _ _ _ V b e Hb He) as (_ & _ & L & _).
      rewrite E, content_add_eq, (EC : content U pend b (ki_index k) = [h]) in L. simpl in L. lia. }
    assert (xors [h] = h) as Ex by apply Z.lxor_0_r.
    rewrite Ex, E'. eexists. split; [reflexivity |].
    split; [done |]. destruct (set_Q_fields b (mkKI h (ki_index k) :: Q b p1) p1) as (E1 & E2 & E3).
    split; [split |].
    + by rewrite E2.
    + intros b' Hb'. destruct (decide (b = b')) as [<- | Hne].
      * rewrite Q_set_Q_eq. simpl. destruct b as [| [|]]; simpl; lia.
      * rewrite Q_set_Q_ne by done. destruct b' as [| [|]]; simpl; lia.
    + pose proof (potential_set_Q b (mkKI h (ki_index k) :: Q b p1) p1) as Hp. simpl in Hp.
      assert (potential p1 + 1 = potential p)%nat; [| lia].
      unfold potential. simpl. rewrite (decide_True (P := 2 <= 1 + 1)), (decide_False (P := 2 <= 1)) in Hf by lia.
      lia.
    + by rewrite E3.
  - exists p1. split; [done | split; [done | split; [| done]]]. split; [done | |].
    + intros b' _. by destruct b' as [| [|]].
    + unfold potential. simpl. repeat case_decide; lia.
Qed.

(** ** Peeling one key *)

Definition only (b : nat) (ki : keyindex) (b' : nat) : list keyindex :=
  if decide (b' = b) then [ki] else [].

Definition plus (V P : nat -> list keyindex) (b : nat) : list keyindex := V b ++ P b.

Lemma pinv_pop H U pend b ki q p :
  (b < 3)%nat -> Q b p = ki :: q -> pinv H U pend nothing p -> pinv H U pend (only b ki) (set_Q b q p).
Proof.
  intros Hb Eq [Vl Vs Vh Vc Vf Vp Vm VQ Vd Vk].
  destruct (set_Q_fields b q p) as (E1 & E2 & _).
  assert (forall b', (b' < 3)%nat -> only b ki b' ++ Q b' (set_Q b q p) = nothing b' ++ Q b' p) as EX.
  { intros b' Hb'. unfold only, nothing. case_decide as Hd.
    - subst. by rewrite Q_set_Q_eq, Eq.
    - by rewrite Q_set_Q_ne by done. }
  split; rewrite ?E1, ?E2; try done.
  - intros b' k Hb'. rewrite EX by done. auto.
  - intros b' Hb'. rewrite EX by done. auto.
Qed.

Lemma pinv_drop H U pend X p : pinv H U pend X p -> pinv H U pend nothing p.
Proof.
  intros [Vl Vs Vh Vc Vf Vp Vm VQ Vd Vk]. split; try done.
  - intros b k Hb Hk. apply VQ; [done |]. apply elem_of_app. by right.
  - intros b Hb. specialize (Vd b Hb). rewrite fmap_app in Vd. by apply NoDup_app in Vd as (_ & _ & ?).
Qed.

(** The decrements that peeling [h] from block [b] calls for. *)
Definition peel_pend (b : nat) (h : Z) (pend : nat -> list keyindex) : nat -> list keyindex :=
  let '(b1, b2) := others b in
  plus (addp b2 (mkKI h (get_h bl b2 h)) nothing) (addp b1 (mkKI h (get_h bl b1 h)) pend).

Lemma peel_pend_eq b h pend : (b < 3)%nat -> peel_pend b h pend b = pend b.
Proof. destruct b as [| [| [|]]]; [done .. | lia]. Qed.

Lemma peel_pend_ne b b' h pend : (b < 3)%nat -> (b' < 3)%nat -> b' <> b ->
  peel_pend b h pend b' = mkKI h (get_h bl b' h) :: pend b'.
Proof.
  destruct b as [| [| [|]]], b' as [| [| [|]]]; intros; done || lia.
Qed.

Lemma filter_nil_elem {X} (P : X -> Prop) `{!forall x, Decision (P x)} l x :
  filter P l = [] -> x ∈ l -> ~ P x.
Proof.
  intros E Hx HP. assert (x ∈ filter P l) as Hin by (by apply list_elem_of_filter).
  rewrite E in Hin. by apply not_elem_of_nil in Hin.
Qed.

Lemma peel_content_ne U U' b b' h pend j :
  (b < 3)%nat -> (b' < 3)%nat -> b' <> b -> U ≡ₚ h :: U' ->
  content U' (peel_pend b h pend) b' j ≡ₚ content U pend b' j.
Proof.
  intros Hb Hb' Hne EU. unfold content. rewrite peel_pend_ne, EU by done. rewrite !filter_cons. simpl.
  case_decide as Hj; csimpl; [| done]. by rewrite Permutation_middle.
Qed.

Lemma peel_content_other U U' b h pend j :
  (b < 3)%nat -> U ≡ₚ h :: U' -> get_h bl b h <> j ->
  content U' (peel_pend b h pend) b j ≡ₚ content U pend b j.
Proof.
  intros Hb EU Hj. unfold content. rewrite peel_pend_eq, EU by done.
  by rewrite filter_cons_False by done.
Qed.

Lemma pinv_peel H U U' pend b ki p :
  (b < 3)%nat -> pinv H U pend (only b ki) p ->
  content U pend b (ki_index ki) = [ki_hash ki] -> get_h bl b (ki_hash ki) = ki_index ki ->
  U ≡ₚ ki_hash ki :: U' ->
  pinv H U' (peel_pend b (ki_hash ki) pend) nothing
    (set_stack (mkKI (ki_hash ki) (pos b (ki_index ki)) :: stack p) p).
Proof.
  intros Hb [Vl Vs Vh Vc Vf Vp Vm VQ Vd Vk] EC Eh EU.
  set (h := ki_hash ki) in *. set (i := ki_index ki) in *.
  destruct (VQ b ki Hb) as (Hi & Hnf & _); [unfold only; rewrite decide_True by done; left |].
  fold i in Hi, Hnf.
  assert (content U' (peel_pend b h pend) b i = []) as Ebi.
  { apply Permutation_nil. apply (Permutation_cons_inv (a := h)). rewrite <- EC.
    unfold content. rewrite peel_pend_eq, EU by done. by rewrite filter_cons_True by done. }
  assert (forall b' j, (b' < 3)%nat -> ~ (b' = b /\ j = i) ->
    content U' (peel_pend b h pend) b' j ≡ₚ content U pend b' j) as Hne.
  { intros b' j Hb' Hd. destruct (decide (b' = b)) as [-> | Hbb].
    - apply peel_content_other; [done | done |]. rewrite Eh. naive_solver.
    - by apply peel_content_ne. }
  assert (forall b' j, 0 <= j < bl -> (frozen (mkKI h (pos b i) :: stack p) b' j <->
    (b' = b /\ j = i) \/ frozen (stack p) b' j)) as Hfr.
  { intros b' j Hj. unfold frozen. csimpl. rewrite elem_of_cons. split.
    - intros [E | ?]; [left; by apply pos_inj in E | by right].
    - intros [[-> ->] | ?]; auto. }
  assert (forall b', (b' < 3)%nat -> ~ frozen (stack p) b' (get_h bl b' h)) as Hcells.
  { intros b' Hb' Hf. apply (Vf b' _ Hb' (get_h_range b' h)), app_nil in Hf as [Hf _].
    apply (filter_nil_elem _ U h Hf); [rewrite EU; left | done]. }
  split; simpl; try done.
  - rewrite Vh, EU. csimpl. by rewrite Permutation_middle.
  - intros b' j Hb' Hj Hf. rewrite Hfr in Hf by done.
    rewrite (Vc b' j Hb' Hj) by tauto. by rewrite (Hne b' j Hb') by tauto.
  - intros b' j Hb' Hj Hf. apply Hfr in Hf as [[-> ->] | Hf]; [done | | done].
    destruct (decide (b' = b /\ j = i)) as [[-> ->] | Hd]; [done |].
    apply Permutation_nil. rewrite <- (Vf b' j Hb' Hj Hf). symmetry. by apply Hne.
  - intros b' k Hb' Hk. destruct (decide (b' = b)) as [-> | Hbb].
    + rewrite peel_pend_eq in Hk by done. by apply (Vp b k).
    + rewrite peel_pend_ne in Hk by done. apply elem_of_cons in Hk as [-> | Hk]; [apply get_h_range |].
      by apply (Vp b' k).
  - intros b' Hb'. specialize (Vm b' Hb'). rewrite EU in Vm. simpl in Vm.
    destruct (decide (b' = b)) as [-> | Hbb].
    + rewrite peel_pend_eq by done. lia.
    + rewrite peel_pend_ne by done. simpl. lia.
  - intros b' k Hb' Hk. destruct (VQ b' k Hb') as (R & NF & L & E).
    { apply elem_of_app. by right. }
    assert (~ (b' = b /\ ki_index k = i)) as Hd.
    { intros [-> Ei]. specialize (Vd b Hb). unfold only in Vd. rewrite decide_True in Vd by done.
      csimpl in Vd. apply NoDup_cons in Vd as [Hn _]. apply Hn. apply list_elem_of_fmap.
      exists k. split; [done |]. by destruct b as [| [|]]. }
    split; [done |]. split; [rewrite Hfr by done; tauto |]. split.
    + by rewrite (Hne b' _ Hb' Hd).
    + intros h' E'. apply E. apply Permutation_singleton_r. by rewrite <- (Hne b' _ Hb' Hd), E'.
  - intros b' Hb'. specialize (Vd b' Hb'). rewrite fmap_app in Vd.
    apply NoDup_app in Vd as (_ & _ & ?). by destruct b' as [| [|]].
  - split; [exists b; simpl; by rewrite Eh | split; [| done]].
    intros e b' He Hb' E. apply (Hcells b' Hb'). unfold frozen.
    rewrite <- E. by apply list_elem_of_fmap_2.
Qed.

(** ** The counting phase

    [T b] is the multiset of the increments made on block [b]. *)

Definition hits (T : nat -> list keyindex) (b : nat) (i : Z) : list Z :=
  ki_hash <$> filter (fun k => ki_index k = i) (T b).

Record cinv (A : nat -> list keyindex) p : Prop := {
  c_len : length (sets p) = Z.to_nat (3 * bl);
  c_cells : forall b i, (b < 3)%nat -> 0 <= i < bl ->
    sets p !! cell bl b i = Some (mkSet (xors (hits A b i)) (Z.of_nat (length (hits A b i))));
  c_Q : forall b, Q b p = [];
  c_stack : stack p = []
}.

Definition countable (T : nat -> list keyindex) : Prop := forall b, (b < 3)%nat ->
  Z.of_nat (length (T b)) < 2 ^ 32 /\ forall k, k ∈ T b -> 0 <= ki_index k < bl.

Lemma cinv_perm A A' p : (forall b, (b < 3)%nat -> A b ≡ₚ A' b) -> cinv A p -> cinv A' p.
Proof.
  intros E [Cl Cc Cq Cs]. split; try done.
  intros b i Hb Hi. rewrite (Cc b i Hb Hi).
  assert (hits A b i ≡ₚ hits A' b i) as EH by (unfold hits; by rewrite (E b Hb)). by rewrite EH.
Qed.

Lemma increment_ok A b k p :
  (b < 3)%nat -> cinv A p -> countable (addp b k A) ->
  exists p', increment bl b (ki_index k) (ki_hash k) p = Some p' /\ cinv (addp b k A) p' /\
    buffers p' = buffers p.
Proof.
  intros Hb [Cl Cc Cq Cs] HT. destruct (HT b Hb) as [Hlt Hr].
  assert (0 <= ki_index k < bl) as Hi.
  { apply Hr. unfold addp. rewrite decide_True by done. left. }
  unfold increment. rewrite (Cc b _ Hb Hi). simpl. eexists. split; [reflexivity |].
  split; [| done]. set (i := ki_index k) in *.
  unfold addp in Hlt. rewrite decide_True in Hlt by done. simpl in Hlt.
  assert (length (hits A b i) <= length (A b))%nat as Hle.
  { unfold hits. rewrite length_fmap. apply length_filter. }
  split; simpl; try done.
  - by rewrite length_insert.
  - intros b' j Hb' Hj. destruct (decide (b' = b /\ j = i)) as [[-> ->] | Hd].
    + rewrite list_lookup_insert_eq by (rewrite Cl; by apply cell_lt).
      assert (hits (addp b k A) b i = ki_hash k :: hits A b i) as ->.
      { unfold hits, addp. rewrite decide_True by done. by rewrite filter_cons_True by done. }
      simpl. rewrite (Z.lxor_comm (ki_hash k)), wrapu_id by (unfold is_u; lia).
      do 2 f_equal. lia.
    + rewrite list_lookup_insert_ne.
      * assert (hits (addp b k A) b' j = hits A b' j) as ->; [| auto].
        unfold hits, addp. case_decide as Hbb; [| done]. subst.
        rewrite filter_cons_False; [done |]. naive_solver.
      * intros Ec. apply cell_inj in Ec as [? ?]; naive_solver.
Qed.

(** ** What peeling asks of the write buffers

    [rep u pend]: the buffers [u] hold exactly the entries [pend]. *)

Class PeelLaws
    (inc dec : nat -> Z -> Z -> Peel Buf -> option (Peel Buf))
    (make_current : nat -> Z -> Peel Buf -> option (Peel Buf))
    (flush_one : nat -> Peel Buf -> option (Peel Buf))
    (flush_inc flush_dec : Peel Buf -> option (Peel Buf))
    (rep : Buf -> (nat -> list keyindex) -> Prop) : Prop := {
  law_inc : forall T A pend b k p, (b < 3)%nat -> rep (buffers p) pend -> cinv A p ->
    (forall b, (b < 3)%nat -> T b ≡ₚ A b ++ pend b) -> countable (addp b k T) ->
    exists p' A' pend', inc b (ki_index k) (ki_hash k) p = Some p' /\ rep (buffers p') pend' /\
      cinv A' p' /\ (forall b', (b' < 3)%nat -> addp b k T b' ≡ₚ A' b' ++ pend' b');
  law_flush_inc : forall T A pend p, rep (buffers p) pend -> cinv A p ->
    (forall b, (b < 3)%nat -> T b ≡ₚ A b ++ pend b) -> countable T ->
    exists p', flush_inc p = Some p' /\ rep (buffers p') nothing /\ cinv T p';
  law_dec : forall H U V pend X b k p, (b < 3)%nat -> rep (buffers p) pend ->
    pinv H U (plus V (addp b k pend)) X p ->
    exists p' pend', dec b (ki_index k) (ki_hash k) p = Some p' /\ rep (buffers p') pend' /\
      pinv H U (plus V pend') X p' /\ evolves p p';
  law_current : forall H U pend X b i p, (b < 3)%nat -> 0 <= i < bl -> rep (buffers p) pend ->
    pinv H U pend X p ->
    exists p' pend', make_current b i p = Some p' /\ rep (buffers p') pend' /\
      pinv H U pend' X p' /\ evolves p p' /\ (forall k, k ∈ pend' b -> ki_index k <> i);
  law_flush_one : forall H U pend X b p, (b < 3)%nat -> rep (buffers p) pend ->
    pinv H U pend X p ->
    exists p' pend', flush_one b p = Some p' /\ rep (buffers p') pend' /\
      pinv H U pend' X p' /\ evolves p p';
  law_flush_dec : forall H U pend X p, rep (buffers p) pend -> pinv H U pend X p ->
    exists p', flush_dec p = Some p' /\ rep (buffers p') nothing /\
      pinv H U nothing X p' /\ evolves p p'
}.

Section Loops.
Context {inc dec : nat -> Z -> Z -> Peel Buf -> option (Peel Buf)}.
Context {make_current : nat -> Z -> Peel Buf -> option (Peel Buf)}.
Context {flush_one : nat -> Peel Buf -> option (Peel Buf)}.
Context {flush_inc flush_dec : Peel Buf -> option (Peel Buf)}.
Context {rep : Buf -> (nat -> list keyindex) -> Prop}.
Context {laws : PeelLaws inc dec make_current flush_one flush_inc flush_dec rep}.
Variable H : list Z.
Let size := Z.of_nat (length H).

Definition drained (b : nat) p p' : Prop :=
  Q b p' = [] /\ (potential p' <= potential p)%nat /\
  (Q b p <> [] -> (potential p' < potential p)%nat) /\
  forall b', (b' < 3)%nat -> b' <> b -> (length (Q b' p) <= length (Q b' p'))%nat.

Lemma others_spec b b1 b2 : (b < 3)%nat -> others b = (b1, b2) ->
  (b1 < 3)%nat /\ (b2 < 3)%nat /\ b1 <> b /\ b2 <> b /\ b1 <> b2.
Proof. destruct b as [| [| [|]]]; simpl; intros ? [= <- <-]; lia. Qed.

(** One key is peeled: the stack, and the two decrements. *)
Lemma peel_one_ok U pend b ki p b1 b2 :
  (b < 3)%nat -> others b = (b1, b2) -> rep (buffers p) pend -> pinv H U pend (only b ki) p ->
  content U pend b (ki_index ki) = [ki_hash ki] -> (forall k, k ∈ pend b -> ki_index k <> ki_index ki) ->
  exists p1 p2 p3 U' pend',
    push_stack size (mkKI (ki_hash ki) (to_u32 (ki_index ki + Z.of_nat b * bl))) p = Some p1 /\
    dec b1 (get_h bl b1 (ki_hash ki)) (ki_hash ki) p1 = Some p2 /\
    dec b2 (get_h bl b2 (ki_hash ki)) (ki_hash ki) p2 = Some p3 /\
    rep (buffers p3) pend' /\ pinv H U' pend' nothing p3 /\
    (potential p3 <= potential p)%nat /\
    (forall b', (b' < 3)%nat -> (length (Q b' p) <= length (Q b' p3))%nat).
Proof.
  intros Hb Eo R V EC Hp. set (h := ki_hash ki) in *. set (i := ki_index ki) in *.
  destruct (v_Q _ _ _ _ _ V b ki Hb) as (Hi & _); [unfold only; rewrite decide_True by done; left |].
  fold i in Hi.
  assert (filter (fun k => ki_index k = i) (pend b) = []) as Enil.
  { destruct (filter _ (pend b)) as [| k l] eqn:E; [done |]. exfalso.
    assert (k ∈ filter (fun k => ki_index k = i) (pend b)) as Hk by (rewrite E; left).
    apply list_elem_of_filter in Hk as [Ek Hk]. by apply (Hp k Hk). }
  assert (h ∈ filter (fun h' => get_h bl b h' = i) U) as Hin.
  { unfold content in EC. rewrite Enil in EC. csimpl in EC. rewrite app_nil_r in EC. rewrite EC. left. }
  apply list_elem_of_filter in Hin as [Eh HinU].
  apply elem_of_Permutation in HinU as [U' EU].
  assert (to_u32 (i + Z.of_nat b * bl) = pos b i) as Epos.
  { unfold pos. rewrite wrapu_id; [lia |]. unfold is_u. assert (Z.of_nat b <= 2) by lia. nia. }
  pose proof (pinv_peel H U U' pend b ki p Hb V EC Eh EU) as V1. fold h i in V1.
  unfold push_stack. rewrite Epos, (proj2 (Z.ltb_lt _ _)).
  2: { unfold size. rewrite (v_hashes _ _ _ _ _ V), EU, length_app, length_fmap. simpl. lia. }
  set (p1 := set_stack _ p) in *.
  destruct (others_spec b b1 b2 Hb Eo) as (Hb1 & Hb2 & N1 & N2 & N12).
  unfold peel_pend in V1. rewrite Eo in V1.
  destruct (law_dec H U' (addp b2 (mkKI h (get_h bl b2 h)) nothing) pend nothing b1
              (mkKI h (get_h bl b1 h)) p1 Hb1 R V1) as (p2 & pend2 & E2 & R2 & V2 & [S2 Q2 P2]).
  destruct (law_dec H U' nothing pend2 nothing b2 (mkKI h (get_h bl b2 h)) p2 Hb2 R2)
    as (p3 & pend3 & E3 & R3 & V3 & [S3 Q3 P3]).
  { eapply pinv_perm; [reflexivity | | exact V2]. intros b' _. unfold plus, addp, nothing.
    by case_decide. }
  exists p1, p2, p3, U', pend3. split; [done |]. split; [exact E2 |]. split; [exact E3 |].
  split; [done |]. split; [done |].
  assert (potential p1 = potential p /\ forall b', Q b' p1 = Q b' p) as [Ep EQ].
  { split; [done |]. by intros [| [|]]. }
  split; [lia |]. intros b' Hb'. rewrite <- EQ. etrans; [by apply Q2 | by apply Q3].
Qed.

Lemma drain_ok fuel : forall b U pend p,
  (b < 3)%nat -> (potential p < fuel)%nat -> rep (buffers p) pend -> pinv H U pend nothing p ->
  exists p' U' pend', drain bl size dec make_current fuel b p = Some p' /\
    rep (buffers p') pend' /\ pinv H U' pend' nothing p' /\ drained b p p'.
Proof.
  induction fuel as [| fuel IH]; intros b U pend p Hb Hf R V; [lia |]. cbn [drain].
  destruct (Q b p) as [| ki q] eqn:Eq.
  { exists p, U, pend. split; [done |]. split; [done |]. split; [done |].
    split; [done |]. split; [lia |]. split; [by rewrite Eq | done]. }
  pose proof (pinv_pop _ _ _ _ _ _ _ Hb Eq V) as V1.
  destruct (set_Q_fields b q p) as (E1 & E2 & E3).
  destruct (v_Q _ _ _ _ _ V1 b ki Hb) as (Hi & _); [unfold only; rewrite decide_True by done; left |].
  destruct (law_current H U pend (only b ki) b (ki_index ki) (set_Q b q p) Hb Hi)
    as (p2 & pend2 & Ec & R2 & V2 & [S2 Q2 P2] & Hno); [by rewrite E3 | done |].
  rewrite Ec. cbn [mbind option_bind].
  destruct (v_Q _ _ _ _ _ V2 b ki Hb) as (_ & Hnf & Hlen & Hhash);
    [unfold only; rewrite decide_True by done; left |].
  rewrite (v_cells _ _ _ _ _ V2 b _ Hb Hi Hnf). simpl.
  pose proof (potential_set_Q b q p) as Hp. rewrite Eq in Hp. simpl in Hp.
  assert (forall b', (b' < 3)%nat -> b' <> b -> (length (Q b' p) <= length (Q b' p2))%nat) as HQ.
  { intros b' Hb' Hne. rewrite <- (Q_set_Q_ne b b' q p) by auto. by apply Q2. }
  assert (exists p3 U3 pend3, (potential p3 < potential p)%nat /\ rep (buffers p3) pend3 /\
    pinv H U3 pend3 nothing p3 /\ (forall b', (b' < 3)%nat -> b' <> b -> (length (Q b' p) <= length (Q b' p3))%nat) /\
    forall r : option (Peel Buf), drain bl size dec make_current fuel b p3 = r ->
    (if Z.of_nat (length (content U pend2 b (ki_index ki))) =? 0
     then drain bl size dec make_current fuel b p2
     else let '(b1, b2) := others b in
       p ← push_stack size (mkKI (ki_hash ki) (to_u32 (ki_index ki + Z.of_nat b * bl))) p2;
       p ← dec b1 (get_h bl b1 (ki_hash ki)) (ki_hash ki) p;
       p ← dec b2 (get_h bl b2 (ki_hash ki)) (ki_hash ki) p;
       drain bl size dec make_current fuel b p) = r)
    as (p3 & U3 & pend3 & Hp3 & R3 & V3 & HQ3 & Hstep).
  { destruct (content U pend2 b (ki_index ki)) as [| h [|]] eqn:EC; simpl in Hlen; [| | lia].
    - exists p2, U, pend2. split; [lia |]. split; [done |]. split; [by eapply pinv_drop |].
      split; [done |]. by intros r <-.
    - destruct (others b) as [b1 b2] eqn:Eo. rewrite (Hhash h eq_refl) in EC.
      destruct (peel_one_ok U pend2 b ki p2 b1 b2 Hb Eo R2 V2 EC Hno)
        as (p3 & p4 & p5 & U' & pend' & F1 & F2 & F3 & R' & V' & Hpot & HQ').
      exists p5, U', pend'. split; [lia |]. split; [done |]. split; [done |]. split.
      { intros b' Hb' Hne. etrans; [by apply HQ | by apply HQ']. }
      intros r <-. simpl. rewrite F1. simpl. rewrite F2. simpl. by rewrite F3. }
  destruct (IH b U3 pend3 p3 Hb ltac:(lia) R3 V3) as (p' & U' & pend' & E' & R' & V' & D1 & D2 & D3 & D4).
  exists p', U', pend'. split; [by apply Hstep |]. split; [done |]. split; [done |].
  split; [done |]. split; [lia |]. split; [lia |].
  intros b' Hb' Hne. etrans; [by apply HQ3 | by apply D4].
Qed.

Lemma drain_all_ok b U pend p :
  (b < 3)%nat -> rep (buffers p) pend -> pinv H U pend nothing p ->
  exists p' U' pend', drain_all bl size dec make_current b p = Some p' /\
    rep (buffers p') pend' /\ pinv H U' pend' nothing p' /\ drained b p p'.
Proof. intros Hb R V. apply (drain_ok _ b U pend); [done | lia | done | done]. Qed.

Lemma flush_if_empty_ok b U pend p :
  (b < 3)%nat -> rep (buffers p) pend -> pinv H U pend nothing p ->
  exists p' pend', flush_if_empty flush_one b p = Some p' /\
    rep (buffers p') pend' /\ pinv H U pend' nothing p' /\ evolves p p'.
Proof.
  intros Hb R V. unfold flush_if_empty. destruct (Q b p).
  - by apply (law_flush_one H U pend).
  - exists p, pend. split; [done |]. split; [done |]. split; [done |]. apply evolves_refl.
Qed.

Lemma q_empty_spec p : q_empty p = true <-> forall b, (b < 3)%nat -> Q b p = [].
Proof.
  unfold q_empty. split.
  - intros E [| [| [|]]] Hb; simpl; destruct (Q0 p), (Q1 p), (Q2 p); done || lia.
  - intros E. pose proof (E 0%nat ltac:(lia)) as E0. pose proof (E 1%nat ltac:(lia)) as E1.
    pose proof (E 2%nat ltac:(lia)) as E2. simpl in *. by rewrite E0, E1, E2.
Qed.

Lemma stack_le U pend X p : pinv H U pend X p -> (length (stack p) <= length H)%nat.
Proof. intros V. rewrite (v_hashes _ _ _ _ _ V), length_app, length_fmap. lia. Qed.

(** The buffers can be left as they are, when every key has been peeled. *)
Definition settled p : Prop := length (stack p) = length H \/ rep (buffers p) nothing.

(** One round over the three stacks. *)
Lemma round_ok U pend p :
  rep (buffers p) pend -> pinv H U pend nothing p -> q_empty p = false ->
  exists p1 p2 p3 p4 p5 p6 p7 U' pend',
    drain_all bl size dec make_current 0 p = Some p1 /\ flush_if_empty flush_one 1 p1 = Some p2 /\
    drain_all bl size dec make_current 1 p2 = Some p3 /\ flush_if_empty flush_one 2 p3 = Some p4 /\
    drain_all bl size dec make_current 2 p4 = Some p5 /\ flush_if_empty flush_one 0 p5 = Some p6 /\
    (if q_empty p6 && (Z.of_nat (length (stack p6)) <? size) then flush_dec p6 else Some p6) = Some p7 /\
    rep (buffers p7) pend' /\ pinv H U' pend' nothing p7 /\ (potential p7 < potential p)%nat /\
    (q_empty p7 = true -> settled p7).
Proof.
  intros R V Hne.
  destruct (drain_all_ok 0 U pend p ltac:(lia) R V) as (p1 & U1 & d1 & E1 & R1 & V1 & _ & P1 & S1 & K1).
  destruct (flush_if_empty_ok 1 U1 d1 p1 ltac:(lia) R1 V1) as (p2 & d2 & E2 & R2 & V2 & [_ K2 P2]).
  destruct (drain_all_ok 1 U1 d2 p2 ltac:(lia) R2 V2) as (p3 & U3 & d3 & E3 & R3 & V3 & _ & P3 & S3 & K3).
  destruct (flush_if_empty_ok 2 U3 d3 p3 ltac:(lia) R3 V3) as (p4 & d4 & E4 & R4 & V4 & [_ K4 P4]).
  destruct (drain_all_ok 2 U3 d4 p4 ltac:(lia) R4 V4) as (p5 & U5 & d5 & E5 & R5 & V5 & _ & P5 & S5 & K5).
  destruct (flush_if_empty_ok 0 U5 d5 p5 ltac:(lia) R5 V5) as (p6 & d6 & E6 & R6 & V6 & [_ K6 P6]).
  assert (potential p6 < potential p)%nat as Hlt.
  { destruct (decide (Q 0 p = [])) as [Z0 |]; [| specialize (S1 ltac:(done)); lia].
    destruct (decide (Q 1 p2 = [])) as [Z1 |]; [| specialize (S3 ltac:(done)); lia].
    destruct (decide (Q 2 p4 = [])) as [Z2 |]; [| specialize (S5 ltac:(done)); lia].
    exfalso. rewrite <- not_true_iff_false in Hne. apply Hne, q_empty_spec.
    specialize (K1 1%nat ltac:(lia) ltac:(lia)) as A1. specialize (K2 1%nat ltac:(lia)) as A2.
    specialize (K1 2%nat ltac:(lia) ltac:(lia)) as B1. specialize (K2 2%nat ltac:(lia)) as B2.
    specialize (K3 2%nat ltac:(lia) ltac:(lia)) as B3. specialize (K4 2%nat ltac:(lia)) as B4.
    rewrite Z1 in A2. rewrite Z2 in B4. cbn [length] in A2, B4.
    intros [| [| [|]]] Hb; [done | apply length_zero_iff_nil; lia | apply length_zero_iff_nil; lia | lia]. }
  pose proof (stack_le _ _ _ _ V6) as Hst.
  destruct (q_empty p6 && (Z.of_nat (length (stack p6)) <? size)) eqn:Ef.
  - destruct (law_flush_dec H U5 d6 nothing p6 R6 V6) as (p7 & E7 & R7 & V7 & [_ _ P7]).
    exists p1, p2, p3, p4, p5, p6, p7, U5, nothing.
    split_and!; try done; [by rewrite Ef | lia | by right].
  - exists p1, p2, p3, p4, p5, p6, p6, U5, d6. split_and!; try done; [by rewrite Ef |].
    intros Hq. left. rewrite Hq in Ef. simpl in Ef. apply Z.ltb_ge in Ef. unfold size in Ef. lia.
Qed.

Lemma peel_ok fuel : forall U pend p,
  (potential p < fuel)%nat -> rep (buffers p) pend -> pinv H U pend nothing p ->
  (q_empty p = true -> settled p) ->
  exists p' U' pend', peel bl size dec make_current flush_one flush_dec fuel p = Some p' /\
    pinv H U' pend' nothing p' /\ settled p'.
Proof.
  induction fuel as [| fuel IH]; intros U pend p Hf R V Hq; [lia |]. cbn [peel].
  destruct (q_empty p) eqn:Eq; [exists p, U, pend; auto |].
  destruct (round_ok U pend p R V Eq)
    as (p1 & p2 & p3 & p4 & p5 & p6 & p7 & U' & d' & E1 & E2 & E3 & E4 & E5 & E6 & E7 & R' & V' & Hlt & Hs).
  rewrite E1. simpl. rewrite E2. simpl. rewrite E3. simpl. rewrite E4. simpl. rewrite E5. simpl.
  rewrite E6. simpl. rewrite E7. simpl. apply (IH U' d'); [lia | done | done | done].
Qed.

End Loops.

(** ** Counting, scanning, attempts *)

Definition hashes (s : Z) (keys : list Z) : list Z := (fun key => xor_mix_split key s) <$> keys.

Definition incs (hs : list Z) (b : nat) : list keyindex := (fun h => mkKI h (get_h bl b h)) <$> hs.

Lemma incs_countable hs : Z.of_nat (length hs) < 2 ^ 32 -> countable (incs hs).
Proof.
  intros Hl b Hb. unfold incs. rewrite length_fmap. split; [done |].
  intros k (h & -> & _)%list_elem_of_fmap. apply get_h_range.
Qed.

Lemma hits_incs hs b i : hits (incs hs) b i = content hs nothing b i.
Proof.
  unfold hits, content, incs, nothing. csimpl. rewrite app_nil_r.
  induction hs as [| h hs IH]; csimpl; [done |]. rewrite !filter_cons. simpl.
  case_decide; csimpl; by rewrite IH.
Qed.

Lemma pinv_init hs p :
  Z.of_nat (length hs) < 2 ^ 32 -> cinv (incs hs) p -> pinv hs hs nothing nothing p.
Proof.
  intros Hl [Cl Cc Cq Cs]. split; try done; rewrite ?Cs.
  - csimpl. by rewrite app_nil_r.
  - intros b i Hb Hi _. rewrite (Cc b i Hb Hi). by rewrite hits_incs.
  - intros b i _ _ Hf. unfold frozen in Hf. csimpl in Hf. by apply not_elem_of_nil in Hf.
  - intros b k _ Hk. by apply not_elem_of_nil in Hk.
  - intros b _. simpl. lia.
  - intros b k _ Hk. rewrite Cq in Hk. by apply not_elem_of_nil in Hk.
  - intros b _. rewrite Cq. constructor.
  - done.
Qed.

Lemma scan_ok H U b k : forall i p,
  (b < 3)%nat -> 0 <= i -> i + Z.of_nat k = bl -> stack p = [] ->
  pinv H U nothing nothing p -> (forall e, e ∈ Q b p -> ki_index e < i) ->
  exists p', scan bl b k i p = Some p' /\ pinv H U nothing nothing p' /\ stack p' = [] /\
    buffers p' = buffers p /\ forall b', (b' < 3)%nat -> b' <> b -> Q b' p' = Q b' p.
Proof.
  induction k as [| k IH]; intros i p Hb Hi Hk Hs V HQ; cbn [scan].
  { exists p. split_and!; done. }
  assert (~ frozen (stack p) b i) as Hnf.
  { rewrite Hs. unfold frozen. csimpl. apply not_elem_of_nil. }
  rewrite (v_cells _ _ _ _ _ V b i Hb ltac:(lia) Hnf). cbn [mbind option_bind count xormask].
  destruct (Z.eqb_spec (Z.of_nat (length (content U nothing b i))) 1) as [H1 | H1].
  - destruct (content U nothing b i) as [| h [|]] eqn:EC; simpl in H1; [lia | | lia].
    destruct (pinv_push H U nothing nothing b p h i Hb V ltac:(lia) Hnf EC) as (p1 & E1 & V1 & Ep1).
    { intros e He Ei. specialize (HQ e He). lia. }
    assert (xors [h] = h) as -> by apply Z.lxor_0_r. rewrite E1. cbn [mbind option_bind].
    destruct (set_Q_fields b (mkKI h i :: Q b p) p) as (F1 & F2 & F3).
    destruct (IH (i + 1) p1) as (p' & E' & V' & S' & B' & Q'); [done | lia | lia | congruence | done | |].
    { rewrite Ep1, Q_set_Q_eq. intros e [-> | He]%elem_of_cons; simpl; [lia |].
      specialize (HQ e He). lia. }
    exists p'. split; [done |]. split; [done |]. split; [done |]. split; [congruence |].
    intros b' Hb' Hne. rewrite Q' by done. rewrite Ep1. by rewrite Q_set_Q_ne by auto.
  - cbn [mbind option_bind]. apply IH; [done | lia | lia | done | done |].
    intros e He. specialize (HQ e He). lia.
Qed.

Lemma one_more_countable h hs T :
  Z.of_nat (S (length hs)) < 2 ^ 32 ->
  (forall b, (b < 3)%nat -> T b ≡ₚ incs hs b \/ T b ≡ₚ mkKI h (get_h bl b h) :: incs hs b) ->
  countable T.
Proof.
  intros Hl HT b Hb. destruct (incs_countable (h :: hs) Hl b Hb) as [L R].
  unfold incs in L, R. rewrite fmap_cons in L, R. cbn [length] in L.
  destruct (HT b Hb) as [E | E]; (split; [rewrite E; cbn [length]; unfold incs; lia |]);
    intros e He; rewrite E in He; apply R; [by right | done].
Qed.

Section Attempts.
Context {inc dec : nat -> Z -> Z -> Peel Buf -> option (Peel Buf)}.
Context {make_current : nat -> Z -> Peel Buf -> option (Peel Buf)}.
Context {flush_one : nat -> Peel Buf -> option (Peel Buf)}.
Context {flush_inc flush_dec : Peel Buf -> option (Peel Buf)}.
Context {rep : Buf -> (nat -> list keyindex) -> Prop}.
Context {laws : PeelLaws inc dec make_current flush_one flush_inc flush_dec rep}.

(** The increments [T] have been made, some of them only in the buffers. *)
Definition counted (T : nat -> list keyindex) p : Prop := exists A pend,
  rep (buffers p) pend /\ cinv A p /\ forall b, (b < 3)%nat -> T b ≡ₚ A b ++ pend b.

Lemma counted_inc T b h i p : (b < 3)%nat -> counted T p -> countable (addp b (mkKI h i) T) ->
  exists p', inc b i h p = Some p' /\ counted (addp b (mkKI h i) T) p'.
Proof.
  intros Hb (A & pend & R & C & E) HT.
  destruct (law_inc T A pend b (mkKI h i) p Hb R C E HT) as (p' & A' & pend' & E' & R' & C' & ET).
  exists p'. split; [done |]. by exists A', pend'.
Qed.

Lemma count_keys_ok filter keys : blockLength filter = bl -> forall done p,
  Z.of_nat (length done + length keys) < 2 ^ 32 -> counted (incs done) p ->
  exists p', count_keys inc filter keys p = Some p' /\
    counted (incs (reverse (hashes (seed filter) keys) ++ done)) p'.
Proof.
  intros Ebl. induction keys as [| key keys IH]; intros done p Hl Hc; cbn [count_keys].
  { exists p. split; done. }
  cbn [length] in Hl. unfold get_h0_h1_h2. rewrite Ebl. cbn [hs_h hs_h0 hs_h1 hs_h2].
  unfold hashes. rewrite fmap_cons, reverse_cons, <- (assoc_L (++)). cbn [app].
  remember (xor_mix_split key (seed filter)) as h eqn:Eh. clear Eh.
  pose proof (fun T => one_more_countable h done T ltac:(lia)) as HT.
  destruct (counted_inc (incs done) 0 h (get_h bl 0 h) p) as (p1 & E1 & C1); [lia | done | |].
  { apply HT. intros b Hb. unfold addp. case_decide; subst; auto. }
  destruct (counted_inc _ 1 h (get_h bl 1 h) p1 ltac:(lia) C1) as (p2 & E2 & C2).
  { apply HT. intros b Hb. unfold addp. repeat case_decide; subst; auto; lia. }
  destruct (counted_inc _ 2 h (get_h bl 2 h) p2 ltac:(lia) C2) as (p3 & E3 & C3).
  { apply HT. intros b Hb. unfold addp. repeat case_decide; subst; auto; lia. }
  rewrite E1. cbn [mbind option_bind]. rewrite E2. cbn [mbind option_bind].
  rewrite E3. cbn [mbind option_bind].
  destruct (IH (h :: done) p3) as (p' & E' & C'); [simpl; lia | |].
  { destruct C3 as (A & pend & R & C & E). exists A, pend. split; [done | split; [done |]].
    intros b Hb. rewrite <- (E b Hb). unfold addp, incs. rewrite fmap_cons.
    repeat case_decide; subst; (done || lia). }
  by exists p'.
Qed.

Lemma init_counted bufs : rep bufs nothing ->
  counted (incs []) (mkPeel _ (replicate (Z.to_nat (3 * bl)) (mkSet 0 0)) [] [] [] [] bufs).
Proof.
  intros R. exists nothing, nothing. split; [done |]. split; [| done]. split; simpl.
  - apply length_replicate.
  - intros b i Hb Hi. by rewrite lookup_replicate_2 by (by apply cell_lt).
  - by intros [| [|]].
  - done.
Qed.

Lemma attempt_ok keys filter bufs (hs := reverse (hashes (seed filter) keys)) :
  blockLength filter = bl -> Z.of_nat (length keys) < 2 ^ 32 -> rep bufs nothing ->
  exists p U pend,
    attempt bl (Z.of_nat (length keys)) inc dec make_current flush_one flush_inc flush_dec
      keys filter bufs = Some p /\
    pinv hs U pend nothing p /\ (length (stack p) = length keys \/ rep (buffers p) nothing).
Proof.
  intros Ebl Hl R. unfold attempt.
  destruct (count_keys_ok filter keys Ebl [] _ ltac:(simpl; lia) (init_counted bufs R))
    as (p1 & E1 & A & pend & R1 & C1 & ET). rewrite app_nil_r in ET. fold hs in ET.
  assert (length hs = length keys) as Elen.
  { unfold hs, hashes. by rewrite length_reverse, length_fmap. }
  rewrite E1. cbn [mbind option_bind].
  destruct (law_flush_inc (incs hs) A pend p1 R1 C1 ET) as (p2 & E2 & R2 & C2).
  { apply incs_countable. lia. }
  rewrite E2. cbn [mbind option_bind].
  pose proof (pinv_init hs p2 ltac:(lia) C2) as V2. pose proof (c_Q _ _ C2) as HQ2.
  unfold scan_all.
  destruct (scan_ok hs hs 0 (Z.to_nat bl) 0 p2) as (p3 & E3 & V3 & S3 & B3 & Q3);
    [lia | lia | lia | apply (c_stack _ _ C2) | done | rewrite HQ2; by intros ? ?%not_elem_of_nil |].
  rewrite E3. cbn [mbind option_bind].
  destruct (scan_ok hs hs 1 (Z.to_nat bl) 0 p3) as (p4 & E4 & V4 & S4 & B4 & Q4);
    [lia | lia | lia | done | done | rewrite Q3, HQ2 by lia; by intros ? ?%not_elem_of_nil |].
  rewrite E4. cbn [mbind option_bind].
  destruct (scan_ok hs hs 2 (Z.to_nat bl) 0 p4) as (p5 & E5 & V5 & S5 & B5 & _);
    [lia | lia | lia | done | done | rewrite Q4, Q3, HQ2 by lia; by intros ? ?%not_elem_of_nil |].
  rewrite E5. cbn [mbind option_bind].
  assert (rep (buffers p5) nothing) as R5 by congruence.
  destruct (peel_ok hs (S (potential p5)) hs nothing p5) as (p6 & U & d & E6 & V6 & S6);
    [lia | done | done | by right |].
  rewrite Elen in E6. exists p6, U, d. split; [done |]. split; [done |].
  unfold settled in S6. by rewrite Elen in S6.
Qed.

Lemma attempts_ok n : forall rng keys filter bufs,
  blockLength filter = bl -> Z.of_nat (length keys) < 2 ^ 32 -> rep bufs nothing ->
  exists f res,
    attempts bl (Z.of_nat (length keys)) inc dec make_current flush_one flush_inc flush_dec
      n rng keys filter bufs = Some (f, res) /\
    blockLength f = bl /\ fingerprints f = fingerprints filter /\
    match res with
    | Some st => stack_ok st /\ hashes (seed f) keys ≡ₚ ki_hash <$> st
    | None => True
    end.
Proof.
  induction n as [| n IH]; intros rng keys filter bufs Ebl Hl R; cbn [attempts].
  { by exists filter, None. }
  destruct (attempt_ok keys filter bufs Ebl Hl R) as (p & U & pend & E & V & Hs).
  rewrite E. cbn [mbind option_bind].
  destruct (Z.eqb_spec (Z.of_nat (length (stack p))) (Z.of_nat (length keys))) as [Hn | Hn].
  - exists filter, (Some (stack p)). split; [done |]. split; [done |]. split; [done |].
    split; [apply (v_stack _ _ _ _ _ V) |].
    pose proof (v_hashes _ _ _ _ _ V) as EH. rewrite reverse_Permutation in EH.
    assert (U = []) as ->; [| done]. apply length_zero_iff_nil. apply Permutation_length in EH.
    unfold hashes in EH. rewrite length_app, !length_fmap in EH. lia.
  - destruct (xor_rng_splitmix64 rng) as [s r].
    destruct (IH r keys (mkFilter s (blockLength filter) (fingerprints filter)) (buffers p))
      as (f & res & E' & ? & ? & ?); [done | done | destruct Hs; [lia | done] |].
    exists f, res. done.
Qed.

End Attempts.

(** ** Assigning the fingerprints *)

Lemma wrapu_lxor w a b : 0 <= w -> wrapu w (Z.lxor a b) = Z.lxor (wrapu w a) (wrapu w b).
Proof.
  intros Hw. unfold wrapu. apply Z.bits_inj'. intros n Hn.
  rewrite Z.lxor_spec, !Z.testbit_mod_pow2, Z.lxor_spec by lia.
  destruct (n <? w); simpl; [done |]. done.
Qed.

(** The query value of hash [h]. *)
Definition query (fps : list Z) (h : Z) : option Z :=
  f0 ← get fps (pos 0 (get_h bl 0 h));
  f1 ← get fps (pos 1 (get_h bl 1 h));
  f2 ← get fps (pos 2 (get_h bl 2 h));
  Some (Z.lxor (Z.lxor f0 f1) f2).

Lemma pos_lookup fps b h :
  length fps = Z.to_nat (3 * bl) -> (b < 3)%nat -> is_Some (get fps (pos b (get_h bl b h))).
Proof.
  intros Hl Hb. apply lookup_lt_is_Some. rewrite Hl. apply (cell_lt b _ Hb), get_h_range.
Qed.

Lemma get_insert fps i j v : 0 <= i -> 0 <= j -> (Z.to_nat i < length fps)%nat ->
  get (<[Z.to_nat i := v]> fps) j = if decide (j = i) then Some v else get fps j.
Proof.
  intros Hi Hj Hl. unfold get. case_decide as Hd.
  - subst. by rewrite list_lookup_insert_eq.
  - rewrite list_lookup_insert_ne; [done | lia].
Qed.

(** The entry written for [k] makes the query of its hash right. *)
Lemma assign_step w fps k b :
  0 < w -> length fps = Z.to_nat (3 * bl) -> Forall (is_u w) fps ->
  (b < 3)%nat -> ki_index k = pos b (get_h bl b (ki_hash k)) ->
  exists fps', (forall st, assign w bl (k :: st) fps = assign w bl st fps') /\
    length fps' = length fps /\ Forall (is_u w) fps' /\
    (forall j, 0 <= j -> j <> ki_index k -> get fps' j = get fps j) /\
    query fps' (ki_hash k) = Some (wrapu w (xor_fingerprint (ki_hash k))).
Proof.
  intros Hw Hl Hu Hb Ei. set (h := ki_hash k) in *. cbn [assign]. fold h.
  assert (forall b', (b' < 3)%nat -> exists v, get fps (pos b' (get_h bl b' h)) = Some v /\ wrapu w v = v) as Hv.
  { intros b' Hb'. destruct (pos_lookup fps b' h Hl Hb') as [v Ev]. exists v. split; [done |].
    apply wrapu_id. unfold get in Ev. by apply (Forall_lookup_1 _ _ _ _ Hu Ev). }
  destruct (Hv 0%nat ltac:(lia)) as (v0 & E0 & W0). destruct (Hv 1%nat ltac:(lia)) as (v1 & E1 & W1).
  destruct (Hv 2%nat ltac:(lia)) as (v2 & E2 & W2).
  pose proof (get_h_range 0 h) as R0. pose proof (get_h_range 1 h) as R1.
  pose proof (get_h_range 2 h) as R2. unfold pos in E0, E1, E2.
  assert (to_u64 (2 * bl) = 2 * bl) as Ew by (apply wrapu_id; unfold is_u; lia).
  assert (0 <= ki_index k /\ (Z.to_nat (ki_index k) < length fps)%nat) as [Hi Hin].
  { rewrite Ei, Hl. unfold pos. pose proof (get_h_range b h). assert (Z.of_nat b <= 2) by lia. split; nia. }
  pose (val := Z.lxor (xor_fingerprint h)
    (match b with 0%nat => Z.lxor v1 v2 | 1%nat => Z.lxor v0 v2 | _ => Z.lxor v0 v1 end)).
  exists (<[Z.to_nat (ki_index k) := wrapu w val]> fps).
  assert (forall v, Forall (is_u w) (<[Z.to_nat (ki_index k) := wrapu w v]> fps)) as Hu'.
  { intros v. apply Forall_insert; [done |]. apply wrapu_is_u. lia. }
  split; [| split; [by rewrite length_insert | split; [by apply Hu' | split]]].
  - intros st.
    assert ((if ki_index k <? bl then (1%nat, 2%nat)
      else if ki_index k <? to_u64 (2 * bl) then (0%nat, 2%nat) else (0%nat, 1%nat)) = others b) as ->.
    { rewrite Ew, Ei. unfold pos. destruct b as [| [| [|]]]; [| | | lia];
        repeat match goal with |- context [?x <? ?y] => destruct (Z.ltb_spec x y) end; simpl; done || lia. }
    assert (is_Some (get fps (ki_index k))) as [v Ev] by (rewrite Ei; by apply pos_lookup).
    destruct b as [| [| [|]]]; cbn [others]; [rewrite E1, E2 | rewrite E0, E2 | rewrite E0, E1 | lia];
      cbn [mbind option_bind]; rewrite Ev; reflexivity.
  - intros j Hj Hne. rewrite get_insert by done. by rewrite decide_False by done.
  - unfold query. rewrite !get_insert by (unfold pos; lia || done). rewrite Ei. unfold pos.
    destruct b as [| [| [|]]]; [| | | lia]; repeat case_decide; try lia;
      rewrite ?E0, ?E1, ?E2; cbn [mbind option_bind]; f_equal; unfold val;
      rewrite !wrapu_lxor by lia; rewrite ?W0, ?W1, ?W2; lxor_solve.
Qed.

Lemma query_same fps fps' h :
  (forall b, (b < 3)%nat -> get fps' (pos b (get_h bl b h)) = get fps (pos b (get_h bl b h))) ->
  query fps' h = query fps h.
Proof.
  intros E. unfold query.
  by rewrite (E 0%nat), (E 1%nat), (E 2%nat) by lia.
Qed.

Lemma assign_ok w st : 0 < w -> forall fps,
  length fps = Z.to_nat (3 * bl) -> Forall (is_u w) fps -> stack_ok st ->
  exists fps', assign w bl st fps = Some fps' /\ length fps' = length fps /\ Forall (is_u w) fps' /\
    (forall j, 0 <= j -> j ∉ ki_index <$> st -> get fps' j = get fps j) /\
    (forall k, k ∈ st -> query fps' (ki_hash k) = Some (wrapu w (xor_fingerprint (ki_hash k)))).
Proof.
  intros Hw. induction st as [| k st IH]; intros fps Hl Hu Hst.
  { exists fps. split_and!; try done. by intros k Hk%not_elem_of_nil. }
  destruct Hst as ((b & Hb & Ei) & Hbelow & Hst).
  destruct (assign_step w fps k b Hw Hl Hu Hb Ei) as (fps1 & E1 & L1 & U1 & S1 & Q1).
  destruct (IH fps1 ltac:(congruence) U1 Hst) as (fps2 & E2 & L2 & U2 & S2 & Q2).
  exists fps2. split; [by rewrite E1 |]. split; [congruence |]. split; [done |]. split.
  - intros j Hj Hn. csimpl in Hn. apply not_elem_of_cons in Hn as [Hn1 Hn2].
    rewrite S2 by done. by apply S1.
  - intros e [-> | He]%elem_of_cons; [| auto]. rewrite <- Q1. apply query_same.
    intros b' Hb'. apply S2.
    + unfold pos. pose proof (get_h_range b' (ki_hash k)). nia.
    + intros (e & Ee & He)%list_elem_of_fmap. by apply (Hbelow e b' He Hb').
Qed.

Lemma contain_query w key f :
  blockLength f = bl ->
  contain w key f =
    (v ← query (fingerprints f) (xor_mix_split key (seed f));
     Some (wrapu w (xor_fingerprint (xor_mix_split key (seed f))) =? v)).
Proof.
  intros Ebl. unfold contain, query. rewrite Ebl.
  set (h := xor_mix_split key (seed f)).
  pose proof (get_h_range 0 h). pose proof (get_h_range 1 h). pose proof (get_h_range 2 h).
  rewrite (wrapu_id 64 (2 * bl)) by (unfold is_u; lia).
  rewrite !(wrapu_id 32) by (unfold is_u; lia).
  replace (get_h bl 0 h) with (pos 0 (get_h bl 0 h)) by (unfold pos; lia).
  replace (get_h bl 1 h + bl) with (pos 1 (get_h bl 1 h)) by (unfold pos; lia).
  replace (get_h bl 2 h + 2 * bl) with (pos 2 (get_h bl 2 h)) by (unfold pos; lia).
  destruct (get _ (pos 0 _)); [| done]. simpl.
  destruct (get _ (pos 1 _)); [| done]. simpl. by destruct (get _ (pos 2 _)).
Qed.

(** A filter built from a peeled stack contains every key. *)
Lemma assigned_contains w st fps f keys :
  0 < w -> length fps = Z.to_nat (3 * bl) -> Forall (is_u w) fps -> stack_ok st ->
  blockLength f = bl -> hashes (seed f) keys ≡ₚ ki_hash <$> st ->
  exists fps', assign w bl st fps = Some fps' /\ length fps' = length fps /\ Forall (is_u w) fps' /\
    forall key, key ∈ keys -> contain w key (mkFilter (seed f) bl fps') = Some true.
Proof.
  intros Hw Hl Hu Hst Ebl EH.
  destruct (assign_ok w st Hw fps Hl Hu Hst) as (fps' & E & L & U' & _ & Hq).
  exists fps'. split; [done |]. split; [done |]. split; [done |]. intros key Hk.
  assert (xor_mix_split key (seed f) ∈ ki_hash <$> st) as Hin.
  { rewrite <- EH. by apply (list_elem_of_fmap_2 (fun key => xor_mix_split key (seed f))). }
  apply list_elem_of_fmap in Hin as (k & Ek & Hin).
  rewrite contain_query by done. simpl. rewrite Ek, (Hq k Hin). simpl. by rewrite Z.eqb_refl.
Qed.

End Peel.

(** ** The plain construction: decrements are applied at once *)

Definition plain_rep (u : unit) (pend : nat -> list keyindex) : Prop :=
  forall b, (b < 3)%nat -> pend b = [].

Lemma plus_pinv {Buf} bl H U V P X b k (p : Peel Buf) :
  pinv bl H U (plus V (addp b k P)) X p -> pinv bl H U (addp b k (plus V P)) X p.
Proof.
  apply pinv_perm; [done |]. intros b' _. unfold plus, addp. case_decide; [| done].
  by rewrite Permutation_middle.
Qed.

Lemma plain_nothing {bl H U pend X} {p : Peel unit} :
  plain_rep (buffers p) pend -> pinv bl H U pend X p -> pinv bl H U nothing X p.
Proof. intros R. apply pinv_perm; [done |]. intros b Hb. by rewrite (R b Hb). Qed.

#[export] Instance plain_laws bl : 0 < bl -> 3 * bl <= 2 ^ 32 ->
  PeelLaws bl (increment bl) (decrement bl) plain_current plain_flush_one plain_flush plain_flush
    plain_rep.
Proof.
  intros Hbl Hbl3. split.
  - intros T A pend b k p Hb R C ET HT.
    assert (forall b', (b' < 3)%nat -> A b' ≡ₚ T b') as EA.
    { intros b' Hb'. by rewrite (ET b' Hb'), (R b' Hb'), app_nil_r. }
    apply (cinv_perm bl A T) in C; [| done].
    destruct (increment_ok bl Hbl T b k p Hb C HT) as (p' & E & C' & _).
    exists p', (addp b k T), nothing. split; [done |]. split; [by intros ? ? |]. split; [done |].
    intros b' _. unfold nothing. by rewrite app_nil_r.
  - intros T A pend p R C ET HT. exists p. split; [done |]. split; [by intros ? ? |].
    eapply cinv_perm; [| exact C]. intros b Hb. by rewrite (ET b Hb), (R b Hb), app_nil_r.
  - intros H U V pend X b k p Hb R VI.
    destruct (decrement_ok bl Hbl H U (plus V pend) X b k p Hb (plus_pinv _ _ _ _ _ _ _ _ _ VI))
      as (p' & E & VI' & EV & _).
    exists p', pend. split; [done |]. split; [exact R |]. by split.
  - intros H U pend X b i p Hb Hi R VI. exists p, pend. split; [done |]. split; [done |].
    split; [done |]. split; [apply evolves_refl |]. intros k. rewrite (R b Hb). by intros ?%not_elem_of_nil.
  - intros H U pend X b p Hb R VI. exists p, pend. split_and!; try done.
  - intros H U pend X p R VI. exists p. split; [done |]. split; [by intros ? ? |].
    split; [by apply (plain_nothing R) | apply evolves_refl].
Qed.

(** ** The buffered construction *)

(** The entries of the buffer of block [b]. *)
Definition entries_of (u : Buffers) (b : nat) : list keyindex := concat (slots (buffer b u)).

Record buffer_ok (bl : Z) (u : setbuffer) : Prop := {
  b_bits : insignificantbits u = 18;
  b_size : slotsize u = 2 ^ 18;
  b_count : slotcount u = Z.of_nat (length (slots u));
  b_cover : bl <= Z.of_nat (length (slots u)) * 2 ^ 18;
  b_room : forall j l, slots u !! j = Some l -> Z.of_nat (length l) < 2 ^ 18;
  b_slot : forall j l k, slots u !! j = Some l -> k ∈ l -> Z.shiftr (ki_index k) 18 = Z.of_nat j
}.

Definition buffered_rep (bl : Z) (u : Buffers) (pend : nat -> list keyindex) : Prop :=
  forall b, (b < 3)%nat -> buffer_ok bl (buffer b u) /\ pend b ≡ₚ entries_of u b.

Lemma buffer_set_eq b v u : buffer b (set_buffer b v u) = v.
Proof. destruct u as [[? ?] ?]. by destruct b as [| [|]]. Qed.

Lemma buffer_set_ne b b' v u : (b < 3)%nat -> (b' < 3)%nat -> b' <> b ->
  buffer b' (set_buffer b v u) = buffer b' u.
Proof. destruct u as [[? ?] ?]. destruct b as [| [| [|]]], b' as [| [| [|]]]; intros; done || lia. Qed.

Lemma concat_slot (l : list (list keyindex)) j e e' :
  l !! j = Some e -> concat (<[j := e']> l) ≡ₚ e' ++ concat (<[j := []]> l).
Proof.
  intros E. assert (j < length l)%nat by (by eapply lookup_lt_Some).
  rewrite !insert_take_drop by done. rewrite !concat_app. simpl.
  by rewrite !(assoc_L (++)), (Permutation_app_comm e').
Qed.

Lemma concat_slot_id (l : list (list keyindex)) j e :
  l !! j = Some e -> concat l ≡ₚ e ++ concat (<[j := []]> l).
Proof. intros E. rewrite <- (concat_slot l j e e E). by rewrite list_insert_id. Qed.

(** The pending entries with the slot [j] of block [b] taken out. *)
Definition without (b : nat) (j : nat) (u : Buffers) (b' : nat) : list keyindex :=
  if decide (b' = b) then concat (<[j := []]> (slots (buffer b u))) else entries_of u b'.

Definition addl (b : nat) (l : list keyindex) (P : nat -> list keyindex) (b' : nat) : list keyindex :=
  if decide (b' = b) then l ++ P b' else P b'.

Lemma slot_index bl u i : buffer_ok bl u -> 0 <= i < bl ->
  exists l, slots u !! Z.to_nat (Z.shiftr i (insignificantbits u)) = Some l.
Proof.
  intros O Hi. apply lookup_lt_is_Some. rewrite (b_bits _ _ O).
  pose proof (b_cover _ _ O). rewrite Z.shiftr_div_pow2 by lia.
  assert (i / 2 ^ 18 < Z.of_nat (length (slots u))) by (apply Z.div_lt_upper_bound; lia).
  assert (0 <= i / 2 ^ 18) by (apply Z.div_pos; lia). lia.
Qed.

Lemma buffer_ok_set_slot bl u j l :
  buffer_ok bl u -> Z.of_nat (length l) < 2 ^ 18 ->
  (forall k, k ∈ l -> Z.shiftr (ki_index k) 18 = Z.of_nat (Z.to_nat j)) ->
  buffer_ok bl (set_slot u j l).
Proof.
  intros [B1 B2 B3 B4 B5 B6] Hl Hk. split; simpl; rewrite ?length_insert; try done.
  - intros j' l' [(<- & <- & _) | [_ ?]]%list_lookup_insert_Some; eauto.
  - intros j' l' k [(<- & <- & _) | [_ ?]]%list_lookup_insert_Some Hin; eauto.
Qed.

(** Writing a slot: the buffers represent the entries again. *)
Lemma rep_update bl b j l l0 (p : Peel Buffers) :
  (b < 3)%nat -> (forall b', (b' < 3)%nat -> buffer_ok bl (buffer b' (buffers p))) ->
  slots (buffer b (buffers p)) !! Z.to_nat j = Some l0 ->
  Z.of_nat (length l) < 2 ^ 18 ->
  (forall k, k ∈ l -> Z.shiftr (ki_index k) 18 = Z.of_nat (Z.to_nat j)) ->
  buffered_rep bl (buffers (update_slot b j l p)) (addl b l (without b (Z.to_nat j) (buffers p))).
Proof.
  intros Hb O E Hl Hk b' Hb'. unfold update_slot, set_buffers. cbn [buffers].
  destruct (decide (b' = b)) as [-> | Hne].
  - rewrite buffer_set_eq. split; [apply buffer_ok_set_slot; auto |].
    unfold addl, without, entries_of. rewrite !decide_True by done. rewrite buffer_set_eq. simpl.
    by rewrite (concat_slot _ _ _ l E).
  - rewrite buffer_set_ne by done. split; [auto |].
    unfold addl, without, entries_of. rewrite !decide_False by done. by rewrite buffer_set_ne by done.
Qed.

Lemma pinv_buffers {Buf} bl H U pend X u (p : Peel Buf) :
  pinv bl H U pend X p -> pinv bl H U pend X (set_buffers u p).
Proof. intros [Vl Vs Vh Vc Vf Vp Vm VQ Vd Vk]. by split. Qed.

Lemma evolves_buffers {Buf} (p p' : Peel Buf) u : evolves p p' -> evolves p (set_buffers u p').
Proof.
  intros [S1 Q1 P1]. split; [done | | done]. intros b Hb.
  etrans; [by apply Q1 |]. by destruct b as [| [|]].
Qed.

Section BufferedLaws.
Variable bl : Z.
Hypothesis Hbl : 0 < bl.
Hypothesis Hbl3 : 3 * bl <= 2 ^ 32.
Implicit Types p : Peel Buffers.

Lemma apply_dec_ok H U X b l : (b < 3)%nat -> forall P p, pinv bl H U (addl b l P) X p ->
  exists p', apply_all (decrement bl) b l p = Some p' /\ pinv bl H U P X p' /\ evolves p p' /\
    buffers p' = buffers p.
Proof.
  intros Hb. induction l as [| k l IH]; intros P p V; cbn [apply_all].
  { exists p. split; [done |]. split; [| split; [apply evolves_refl | done]].
    eapply pinv_perm; [done | | exact V]. intros b' _. unfold addl. by case_decide. }
  destruct (decrement_ok bl Hbl H U (addl b l P) X b k p Hb) as (p1 & E1 & V1 & EV1 & B1).
  { eapply pinv_perm; [done | | exact V]. intros b' _. unfold addl, addp. by case_decide. }
  rewrite E1. simpl. destruct (IH P p1 V1) as (p2 & E2 & V2 & EV2 & B2).
  exists p2. split; [done |]. split; [done |]. split; [by eapply evolves_trans | congruence].
Qed.

Lemma apply_inc_ok b l : (b < 3)%nat -> forall A p, cinv bl A p -> countable bl (addl b l A) ->
  exists p', apply_all (increment bl) b l p = Some p' /\ cinv bl (addl b l A) p' /\
    buffers p' = buffers p.
Proof.
  intros Hb. induction l as [| k l IH]; intros A p C HT; cbn [apply_all].
  { exists p. split; [done |]. split; [| done].
    eapply cinv_perm; [| exact C]. intros b' _. unfold addl. by case_decide. }
  assert (forall b', addl b (k :: l) A b' ≡ₚ addl b l (addp b k A) b') as EP.
  { intros b'. unfold addl, addp. case_decide; [| done]. simpl. by rewrite Permutation_middle. }
  assert (countable bl (addp b k A)) as HT1.
  { intros b' Hb'. destruct (HT b' Hb') as [L R]. rewrite EP in L. unfold addl in L, R. unfold addp in *.
    case_decide; [| done]. rewrite length_app in L. simpl in *. split; [lia |].
    intros e [-> | He]%elem_of_cons; apply R; [left | right]. apply elem_of_app. by right. }
  destruct (increment_ok bl Hbl A b k p Hb C HT1) as (p1 & E1 & C1 & B1).
  rewrite E1. simpl. destruct (IH (addp b k A) p1 C1) as (p2 & E2 & C2 & B2).
  { intros b' Hb'. destruct (HT b' Hb') as [L R]. rewrite EP in L. split; [done |].
    intros e He. apply R. by rewrite EP. }
  exists p2. split; [done |]. split; [| congruence].
  eapply cinv_perm; [| exact C2]. intros b' _. by rewrite EP.
Qed.

Lemma rep_split u pend b j l : (b < 3)%nat -> buffered_rep bl u pend ->
  slots (buffer b u) !! j = Some l ->
  forall b', (b' < 3)%nat -> pend b' ≡ₚ addl b l (without b j u) b'.
Proof.
  intros Hb R E b' Hb'. destruct (R b' Hb') as [_ ->]. unfold addl, without, entries_of.
  case_decide as Hd; [subst b' | done]. by rewrite <- (concat_slot_id _ _ _ E).
Qed.

(** Emptying a slot. *)
Lemma empty_slot_ok H U pend X b j l p :
  (b < 3)%nat -> buffered_rep bl (buffers p) pend -> pinv bl H U pend X p -> 0 <= j ->
  slots (buffer b (buffers p)) !! Z.to_nat j = Some l ->
  exists p', empty_slot bl b j p = Some p' /\
    buffers p' = buffers (update_slot b j [] p) /\
    buffered_rep bl (buffers p') (without b (Z.to_nat j) (buffers p)) /\
    pinv bl H U (without b (Z.to_nat j) (buffers p)) X p' /\ evolves p p'.
Proof.
  intros Hb R V Hj E. unfold empty_slot. rewrite E. cbn [mbind option_bind].
  destruct (apply_dec_ok H U X b l Hb (without b (Z.to_nat j) (buffers p)) p) as (p1 & E1 & V1 & EV1 & B1).
  { eapply pinv_perm; [done | | exact V]. intros b' Hb'. by apply rep_split. }
  rewrite E1. cbn [mbind option_bind]. eexists. split; [reflexivity |].
  split; [unfold update_slot; simpl; by rewrite B1 |]. split; [| split].
  - assert (buffered_rep bl (buffers (update_slot b j [] p1))
      (addl b [] (without b (Z.to_nat j) (buffers p1)))) as RU.
    { apply (rep_update bl b j [] l p1 Hb); [| by rewrite B1 | done | by intros ? ?%not_elem_of_nil].
      intros b' Hb'. rewrite B1. by apply R. }
    intros b' Hb'. destruct (RU b' Hb') as [O ER]. split; [done |]. rewrite <- ER, B1.
    unfold addl. by case_decide.
  - by apply pinv_buffers.
  - by apply evolves_buffers.
Qed.

Lemma buffered_entry u i (l : list keyindex) h :
  buffer_ok bl u -> 0 <= i -> slots u !! Z.to_nat (Z.shiftr i 18) = Some l ->
  forall k, k ∈ l ++ [mkKI h i] -> Z.shiftr (ki_index k) 18 = Z.of_nat (Z.to_nat (Z.shiftr i 18)).
Proof.
  intros O Hi E k Hk. assert (0 <= Z.shiftr i 18) by (by apply Z.shiftr_nonneg).
  apply elem_of_app in Hk as [Hk | ->%list_elem_of_singleton].
  - rewrite (b_slot _ _ O _ _ _ E Hk). done.
  - simpl. lia.
Qed.

Lemma perm_shuffle {X} (l1 l2 l3 : list X) x : l1 ++ x :: l2 ++ l3 ≡ₚ (l2 ++ [x]) ++ l1 ++ l3.
Proof.
  change (x :: l2 ++ l3) with ([x] ++ l2 ++ l3). rewrite !(assoc_L (++)). f_equiv.
  by rewrite (Permutation_app_comm (l1 ++ [x])), (Permutation_app_comm l1), (assoc_L (++)).
Qed.

Lemma buffered_dec_ok H U V pend X b k p :
  (b < 3)%nat -> buffered_rep bl (buffers p) pend -> pinv bl H U (plus V (addp b k pend)) X p ->
  exists p' pend', xor_buffered_decrement_counter bl b (ki_index k) (ki_hash k) p = Some p' /\
    buffered_rep bl (buffers p') pend' /\ pinv bl H U (plus V pend') X p' /\ evolves p p'.
Proof.
  intros Hb R VI. destruct (R b Hb) as [O EP].
  assert (0 <= ki_index k < bl) as Hi.
  { apply (v_pend _ _ _ _ _ _ VI b k Hb). unfold plus, addp. rewrite decide_True by done. apply elem_of_app; right; left. }
  destruct (slot_index bl _ _ O Hi) as [l El]. rewrite (b_bits _ _ O) in El.
  unfold xor_buffered_decrement_counter, buffered_update.
  rewrite (b_bits _ _ O), (b_size _ _ O), El. cbn [mbind option_bind].
  pose proof (b_room _ _ O _ _ El) as Hroom. rewrite (proj2 (Z.leb_gt _ _)) by lia.
  set (j := Z.shiftr (ki_index k) 18) in *. replace (mkKI (ki_hash k) (ki_index k)) with k by (by destruct k).
  pose (P := without b (Z.to_nat j) (buffers p)).
  assert (forall b', (b' < 3)%nat -> plus V (addp b k pend) b' ≡ₚ addl b (l ++ [k]) (plus V P) b') as EV.
  { intros b' Hb'. pose proof (rep_split _ _ _ _ _ Hb R El b' Hb') as ES. fold P in ES.
    unfold plus, addp, addl in *. case_decide; [| by rewrite ES].
    rewrite ES. apply perm_shuffle. }
  pose proof (buffered_entry _ _ _ (ki_hash k) O (proj1 Hi) El) as Hent.
  replace (mkKI (ki_hash k) (ki_index k)) with k in Hent by (by destruct k). fold j in Hent.
  destruct (Z.eqb_spec (Z.of_nat (length (l ++ [k]))) (2 ^ 18)) as [Hfull | Hfull].
  - destruct (apply_dec_ok H U X b (l ++ [k]) Hb (plus V P) p) as (p1 & E1 & V1 & EV1 & B1).
    { eapply pinv_perm; [done | exact EV | exact VI]. }
    rewrite E1. cbn [mbind option_bind]. exists (update_slot b j [] p1), P. split; [done |].
    split; [| split; [by apply pinv_buffers | by apply evolves_buffers]].
    assert (buffered_rep bl (buffers (update_slot b j [] p1))
      (addl b [] (without b (Z.to_nat j) (buffers p1)))) as RU.
    { apply (rep_update bl b j [] l p1 Hb); [| by rewrite B1 | done | by intros ? ?%not_elem_of_nil].
      intros b' Hb'. rewrite B1. by apply R. }
    intros b' Hb'. destruct (RU b' Hb') as [O' ER]. split; [done |]. rewrite <- ER, B1.
    unfold addl. by case_decide.
  - exists (update_slot b j (l ++ [k]) p), (addl b (l ++ [k]) P). split; [done |].
    split; [| split].
    + apply (rep_update bl b j (l ++ [k]) l p Hb); [by apply R | done | | exact Hent].
      rewrite length_app in *. cbn [length] in *. lia.
    + apply pinv_buffers. eapply pinv_perm; [done | | exact VI].
      intros b' Hb'. rewrite (EV b' Hb'). unfold plus, addl. case_decide; [| done].
      apply Permutation_app_swap_app.
    + apply evolves_buffers, evolves_refl.
Qed.

Lemma update_slot_slots b j l p :
  slots (buffer b (buffers (update_slot b j l p))) = <[Z.to_nat j := l]> (slots (buffer b (buffers p))).
Proof. unfold update_slot. simpl. by rewrite buffer_set_eq. Qed.

Lemma buffered_current_ok H U pend X b i p :
  (b < 3)%nat -> 0 <= i < bl -> buffered_rep bl (buffers p) pend -> pinv bl H U pend X p ->
  exists p' pend', xor_make_buffer_current bl b i p = Some p' /\ buffered_rep bl (buffers p') pend' /\
    pinv bl H U pend' X p' /\ evolves p p' /\ (forall k, k ∈ pend' b -> ki_index k <> i).
Proof.
  intros Hb Hi R V. destruct (R b Hb) as [O EP]. destruct (slot_index bl _ _ O Hi) as [l El].
  rewrite (b_bits _ _ O) in El. unfold xor_make_buffer_current. rewrite (b_bits _ _ O), El.
  cbn [mbind option_bind]. set (j := Z.shiftr i 18) in *.
  assert (0 <= j) as Hj by (apply Z.shiftr_nonneg; lia).
  (* in a buffer whose slot is empty there is no entry for the index *)
  assert (forall u k, buffer_ok bl u -> slots u !! Z.to_nat j = Some [] -> k ∈ concat (slots u) ->
    ki_index k <> i) as Hno.
  { intros u k Ou Eu Hk <-. apply list_elem_of_In, in_concat in Hk as (e & He & Hk).
    apply list_elem_of_In, list_elem_of_lookup in He as [j' Ej]. apply list_elem_of_In in Hk.
    pose proof (b_slot _ _ Ou _ _ _ Ej Hk) as Hs. fold j in Hs.
    assert (j' = Z.to_nat j) by lia. subst j'. rewrite Eu in Ej. injection Ej as <-.
    by apply not_elem_of_nil in Hk. }
  destruct l as [| e l].
  - exists p, pend. split; [done |]. split; [done |]. split; [done |]. split; [apply evolves_refl |].
    intros k Hk. rewrite EP in Hk. by apply (Hno (buffer b (buffers p))).
  - destruct (empty_slot_ok H U pend X b j (e :: l) p Hb R V Hj El) as (p' & E' & B' & R' & V' & EV').
    exists p', (without b (Z.to_nat j) (buffers p)). split; [done |]. split; [done |]. split; [done |].
    split; [done |]. intros k Hk. destruct (R' b Hb) as [O' EP']. rewrite EP' in Hk.
    apply (Hno (buffer b (buffers p'))); [done | | done]. rewrite B'. rewrite update_slot_slots. apply list_lookup_insert_eq. by eapply lookup_lt_Some.
Qed.

Lemma best_slot_range l : forall slot best bc, 0 <= best < slot ->
  0 <= best_slot l slot best bc < slot + Z.of_nat (length l).
Proof.
  induction l as [| e l IH]; intros slot best bc Hb; simpl; [lia |].
  destruct (bc <? length e)%nat.
  - specialize (IH (slot + 1) slot (length e)). lia.
  - specialize (IH (slot + 1) best bc). lia.
Qed.

Lemma buffered_flush_one_ok H U pend X b p :
  (b < 3)%nat -> buffered_rep bl (buffers p) pend -> pinv bl H U pend X p ->
  exists p' pend', xor_flushone_decrement_buffer bl b p = Some p' /\
    buffered_rep bl (buffers p') pend' /\ pinv bl H U pend' X p' /\ evolves p p'.
Proof.
  intros Hb R V. destruct (R b Hb) as [O EP]. unfold xor_flushone_decrement_buffer.
  destruct (slots (buffer b (buffers p))) as [| e l] eqn:Es.
  { pose proof (b_cover _ _ O) as Hc. rewrite Es in Hc. simpl in Hc. lia. }
  pose proof (best_slot_range l 1 0 (length e) ltac:(lia)) as Hbs.
  set (j := best_slot l 1 0 (length e)) in *.
  destruct (slots (buffer b (buffers p)) !! Z.to_nat j) as [e' |] eqn:Ee.
  2: { apply lookup_ge_None in Ee. rewrite Es in Ee. simpl in Ee. lia. }
  destruct (empty_slot_ok H U pend X b j e' p Hb R V ltac:(lia) Ee) as (p' & E' & _ & R' & V' & EV').
  eauto 10.
Qed.

Lemma flush_slots_S b n j p :
  flush_slots (decrement bl) b (S n) j p =
  (p' ← empty_slot bl b j p; flush_slots (decrement bl) b n (j + 1) p').
Proof.
  cbn [flush_slots]. unfold empty_slot. destruct (slots _ !! _); [| done]. cbn [mbind option_bind].
  by destruct (apply_all _ _ _ _).
Qed.

(** The first [j] slots of block [b] are empty. *)
Definition emptied (b : nat) (j : nat) p : Prop :=
  forall i, (i < j)%nat -> slots (buffer b (buffers p)) !! i = Some [].

Lemma emptied_step b j l p p' :
  slots (buffer b (buffers p)) !! j = Some l -> emptied b j p ->
  slots (buffer b (buffers p')) = <[j := []]> (slots (buffer b (buffers p))) -> emptied b (S j) p'.
Proof.
  intros E H Ep i Hi. rewrite Ep. destruct (decide (i = j)) as [-> | Hne].
  - apply list_lookup_insert_eq. by eapply lookup_lt_Some.
  - rewrite list_lookup_insert_ne by done. apply H. lia.
Qed.

Lemma emptied_all b p :
  emptied b (length (slots (buffer b (buffers p)))) p -> entries_of (buffers p) b = [].
Proof.
  unfold emptied, entries_of. generalize (slots (buffer b (buffers p))). intros l H.
  apply concat_nil_Forall, Forall_lookup. intros i e E.
  rewrite (H i) in E by (by eapply lookup_lt_Some). by injection E.
Qed.

(** The rest of the pending entries, block [b] being flushed. *)
Definition cleared (b : nat) (pend : nat -> list keyindex) (b' : nat) : list keyindex :=
  if decide (b' = b) then [] else pend b'.

Lemma flush_dec_ok H U X b : (b < 3)%nat -> forall n j pend p,
  (j + n)%nat = length (slots (buffer b (buffers p))) -> emptied b j p ->
  buffered_rep bl (buffers p) pend -> pinv bl H U pend X p ->
  exists p', flush_slots (decrement bl) b n (Z.of_nat j) p = Some p' /\
    buffered_rep bl (buffers p') (cleared b pend) /\ pinv bl H U (cleared b pend) X p' /\ evolves p p'.
Proof.
  intros Hb. induction n as [| n IH]; intros j pend p Hn He R V.
  - assert (forall b', (b' < 3)%nat -> pend b' ≡ₚ cleared b pend b') as EC.
    { intros b' Hb'. unfold cleared. case_decide; [subst | done].
      destruct (R b Hb) as [_ ->]. rewrite emptied_all; [done |]. by rewrite <- Hn, Nat.add_0_r. }
    exists p. split; [done |]. split; [| split; [| apply evolves_refl]].
    + intros b' Hb'. rewrite <- (EC b' Hb'). auto.
    + by eapply pinv_perm.
  - destruct (slots (buffer b (buffers p)) !! j) as [l |] eqn:El;
      [| apply lookup_ge_None in El; lia].
    rewrite flush_slots_S.
    destruct (empty_slot_ok H U pend X b (Z.of_nat j) l p Hb R V ltac:(lia)) as (p1 & E1 & B1 & R1 & V1 & EV1);
      [by rewrite Nat2Z.id |].
    rewrite E1. cbn [mbind option_bind]. rewrite Nat2Z.id in *.
    assert (slots (buffer b (buffers p1)) = <[j := []]> (slots (buffer b (buffers p)))) as Es.
    { rewrite B1, update_slot_slots, Nat2Z.id. done. }
    destruct (IH (S j) (without b j (buffers p)) p1) as (p2 & E2 & R2 & V2 & EV2).
    { rewrite Es, length_insert. lia. }
    { by eapply emptied_step. }
    { done. }
    { done. }
    assert (forall b', (b' < 3)%nat -> cleared b (without b j (buffers p)) b' ≡ₚ cleared b pend b') as EC.
    { intros b' Hb'. unfold cleared, without. case_decide; [done |]. by destruct (R b' Hb') as [_ ->]. }
    exists p2. replace (Z.of_nat j + 1) with (Z.of_nat (S j)) by lia. split; [done |].
    split; [| split; [by eapply pinv_perm | by eapply evolves_trans]].
    intros b' Hb'. rewrite <- (EC b' Hb'). auto.
Qed.

Lemma buffered_flush_dec_ok H U pend X p :
  buffered_rep bl (buffers p) pend -> pinv bl H U pend X p ->
  exists p', flush_decrements bl p = Some p' /\ buffered_rep bl (buffers p') nothing /\
    pinv bl H U nothing X p' /\ evolves p p'.
Proof.
  intros R V. unfold flush_decrements, xor_flush_decrement_buffer.
  assert (forall b pend p, (b < 3)%nat -> buffered_rep bl (buffers p) pend -> pinv bl H U pend X p ->
    exists p', flush_slots (decrement bl) b (Z.to_nat (slotcount (buffer b (buffers p)))) 0 p = Some p' /\
      buffered_rep bl (buffers p') (cleared b pend) /\ pinv bl H U (cleared b pend) X p' /\ evolves p p') as HF.
  { intros b d q Hb Rq Vq. destruct (Rq b Hb) as [O _]. rewrite (b_count _ _ O), Nat2Z.id.
    apply (flush_dec_ok H U X b Hb _ 0%nat d q); [done | intros i ?; lia | done | done]. }
  destruct (HF 0%nat pend p ltac:(lia) R V) as (p1 & -> & R1 & V1 & EV1). cbn [mbind option_bind].
  destruct (HF 1%nat _ p1 ltac:(lia) R1 V1) as (p2 & -> & R2 & V2 & EV2). cbn [mbind option_bind].
  destruct (HF 2%nat _ p2 ltac:(lia) R2 V2) as (p3 & -> & R3 & V3 & EV3).
  assert (forall b', (b' < 3)%nat -> cleared 2 (cleared 1 (cleared 0 pend)) b' = nothing b') as EC.
  { intros [| [| [|]]] Hb'; done || lia. }
  exists p3. split; [done |]. split; [| split].
  - intros b' Hb'. rewrite <- (EC b' Hb'). auto.
  - eapply pinv_perm; [done | | exact V3]. intros b' Hb'. by rewrite (EC b' Hb').
  - eapply evolves_trans; [exact EV1 |]. by eapply evolves_trans.
Qed.

(** *** Increments *)

Lemma cinv_buffers A u p : cinv bl A p -> cinv bl A (set_buffers u p).
Proof. intros [Cl Cc Cq Cs]. by split. Qed.

Lemma countable_perm T T' : (forall b, (b < 3)%nat -> T b ≡ₚ T' b) -> countable bl T -> countable bl T'.
Proof.
  intros E HT b Hb. destruct (HT b Hb) as [L R]. rewrite (E b Hb) in L. split; [done |].
  intros k Hk. apply R. by rewrite (E b Hb).
Qed.

Lemma countable_sub T T' : (forall b, (b < 3)%nat -> T' b ⊆+ T b) -> countable bl T -> countable bl T'.
Proof.
  intros E HT b Hb. destruct (HT b Hb) as [L R]. pose proof (submseteq_length _ _ (E b Hb)).
  split; [lia |]. intros k Hk. apply R. eapply elem_of_submseteq; [exact Hk | by apply E].
Qed.

Lemma buffered_inc_ok T A pend b k p :
  (b < 3)%nat -> buffered_rep bl (buffers p) pend -> cinv bl A p ->
  (forall b, (b < 3)%nat -> T b ≡ₚ A b ++ pend b) -> countable bl (addp b k T) ->
  exists p' A' pend', xor_buffered_increment_counter bl b (ki_index k) (ki_hash k) p = Some p' /\
    buffered_rep bl (buffers p') pend' /\ cinv bl A' p' /\
    (forall b', (b' < 3)%nat -> addp b k T b' ≡ₚ A' b' ++ pend' b').
Proof.
  intros Hb R C ET HT. destruct (R b Hb) as [O EP].
  assert (0 <= ki_index k < bl) as Hi.
  { apply (HT b Hb). unfold addp. rewrite decide_True by done. left. }
  destruct (slot_index bl _ _ O Hi) as [l El]. rewrite (b_bits _ _ O) in El.
  unfold xor_buffered_increment_counter, buffered_update.
  rewrite (b_bits _ _ O), (b_size _ _ O), El. cbn [mbind option_bind].
  pose proof (b_room _ _ O _ _ El) as Hroom. rewrite (proj2 (Z.leb_gt _ _)) by lia.
  set (j := Z.shiftr (ki_index k) 18) in *. replace (mkKI (ki_hash k) (ki_index k)) with k by (by destruct k).
  pose (P := without b (Z.to_nat j) (buffers p)).
  assert (forall b', (b' < 3)%nat -> addp b k T b' ≡ₚ addl b (l ++ [k]) A b' ++ P b') as EV.
  { intros b' Hb'. pose proof (rep_split _ _ _ _ _ Hb R El b' Hb') as ES. fold P in ES.
    specialize (ET b' Hb'). unfold addp, addl in *. case_decide; [| by rewrite ET, ES].
    rewrite ET, ES, <- (assoc_L (++)), <- perm_shuffle. by rewrite Permutation_middle. }
  pose proof (buffered_entry _ _ _ (ki_hash k) O (proj1 Hi) El) as Hent.
  replace (mkKI (ki_hash k) (ki_index k)) with k in Hent by (by destruct k). fold j in Hent.
  destruct (Z.eqb_spec (Z.of_nat (length (l ++ [k]))) (2 ^ 18)) as [Hfull | Hfull].
  - destruct (apply_inc_ok b (l ++ [k]) Hb A p C) as (p1 & E1 & C1 & B1).
    { eapply countable_sub; [| exact HT]. intros b' Hb'. rewrite (EV b' Hb'). apply submseteq_inserts_r. done. }
    rewrite E1. cbn [mbind option_bind]. exists (update_slot b j [] p1), (addl b (l ++ [k]) A), P.
    split; [done |]. split; [| split; [by apply cinv_buffers | exact EV]].
    assert (buffered_rep bl (buffers (update_slot b j [] p1))
      (addl b [] (without b (Z.to_nat j) (buffers p1)))) as RU.
    { apply (rep_update bl b j [] l p1 Hb); [| by rewrite B1 | done | by intros ? ?%not_elem_of_nil].
      intros b' Hb'. rewrite B1. by apply R. }
    intros b' Hb'. destruct (RU b' Hb') as [O' ER]. split; [done |]. rewrite <- ER, B1.
    unfold addl. by case_decide.
  - exists (update_slot b j (l ++ [k]) p), A, (addl b (l ++ [k]) P). split; [done |].
    split; [| split; [by apply cinv_buffers |]].
    + apply (rep_update bl b j (l ++ [k]) l p Hb); [by apply R | done | | exact Hent].
      rewrite length_app in *. cbn [length] in *. lia.
    + intros b' Hb'. rewrite (EV b' Hb'). unfold addl. case_decide; [| done].
      rewrite <- (assoc_L (++)). apply Permutation_app_swap_app.
Qed.

Lemma flush_inc_ok b : (b < 3)%nat -> forall n j A pend p,
  (j + n)%nat = length (slots (buffer b (buffers p))) -> emptied b j p ->
  buffered_rep bl (buffers p) pend -> cinv bl A p ->
  countable bl (plus A pend) ->
  exists p' A', flush_slots (increment bl) b n (Z.of_nat j) p = Some p' /\
    buffered_rep bl (buffers p') (cleared b pend) /\ cinv bl A' p' /\
    (forall b', (b' < 3)%nat -> plus A' (cleared b pend) b' ≡ₚ plus A pend b').
Proof.
  intros Hb. induction n as [| n IH]; intros j A pend p Hn He R C HT.
  - assert (forall b', (b' < 3)%nat -> pend b' ≡ₚ cleared b pend b') as EC.
    { intros b' Hb'. unfold cleared. case_decide; [subst | done].
      destruct (R b Hb) as [_ ->]. rewrite emptied_all; [done |]. by rewrite <- Hn, Nat.add_0_r. }
    exists p, A. split; [done |]. split; [| split; [done |]].
    + intros b' Hb'. rewrite <- (EC b' Hb'). auto.
    + intros b' Hb'. unfold plus. by rewrite <- (EC b' Hb').
  - destruct (slots (buffer b (buffers p)) !! j) as [l |] eqn:El;
      [| apply lookup_ge_None in El; lia].
    cbn [flush_slots]. rewrite Nat2Z.id, El. cbn [mbind option_bind].
    pose (P := without b j (buffers p)).
    assert (forall b', (b' < 3)%nat -> plus A pend b' ≡ₚ plus (addl b l A) P b') as EV.
    { intros b' Hb'. pose proof (rep_split _ _ _ _ _ Hb R El b' Hb') as ES. fold P in ES.
      unfold plus, addl in *. case_decide; [| by rewrite ES].
      rewrite ES, <- (assoc_L (++)). apply Permutation_app_swap_app. }
    destruct (apply_inc_ok b l Hb A p C) as (p1 & E1 & C1 & B1).
    { eapply countable_sub; [| exact HT]. intros b' Hb'. rewrite (EV b' Hb'). by apply submseteq_inserts_r. }
    rewrite E1. cbn [mbind option_bind].
    assert (buffered_rep bl (buffers (update_slot b (Z.of_nat j) [] p1)) P) as R1.
    { assert (buffered_rep bl (buffers (update_slot b (Z.of_nat j) [] p1))
        (addl b [] (without b (Z.to_nat (Z.of_nat j)) (buffers p1)))) as RU.
      { apply (rep_update bl b _ [] l p1 Hb); [| by rewrite B1, Nat2Z.id | done | by intros ? ?%not_elem_of_nil].
        intros b' Hb'. rewrite B1. by apply R. }
      intros b' Hb'. destruct (RU b' Hb') as [O' ER]. split; [done |]. rewrite <- ER, B1, Nat2Z.id.
      unfold addl. by case_decide. }
    destruct (IH (S j) (addl b l A) P (update_slot b (Z.of_nat j) [] p1)) as (p2 & A2 & E2 & R2 & C2 & EA).
    { rewrite update_slot_slots, length_insert, B1. lia. }
    { eapply emptied_step; [exact El | exact He |]. by rewrite update_slot_slots, B1, Nat2Z.id. }
    { done. }
    { by apply cinv_buffers. }
    { by eapply countable_perm. }
    assert (forall b', (b' < 3)%nat -> cleared b P b' ≡ₚ cleared b pend b') as EC.
    { intros b' Hb'. unfold cleared, P, without. case_decide; [done |]. by destruct (R b' Hb') as [_ ->]. }
    exists p2, A2. replace (Z.of_nat j + 1) with (Z.of_nat (S j)) by lia. split; [done |].
    split; [| split; [done |]].
    + intros b' Hb'. rewrite <- (EC b' Hb'). auto.
    + intros b' Hb'. rewrite (EV b' Hb'), <- (EA b' Hb'). unfold plus. by rewrite (EC b' Hb').
Qed.

Lemma buffered_flush_inc_ok T A pend p :
  buffered_rep bl (buffers p) pend -> cinv bl A p ->
  (forall b, (b < 3)%nat -> T b ≡ₚ A b ++ pend b) -> countable bl T ->
  exists p', flush_increments bl p = Some p' /\ buffered_rep bl (buffers p') nothing /\ cinv bl T p'.
Proof.
  intros R C ET HT. unfold flush_increments, xor_flush_increment_buffer.
  assert (forall b A pend p, (b < 3)%nat -> buffered_rep bl (buffers p) pend -> cinv bl A p ->
    (forall b', (b' < 3)%nat -> T b' ≡ₚ plus A pend b') ->
    exists p' A', flush_slots (increment bl) b (Z.to_nat (slotcount (buffer b (buffers p)))) 0 p = Some p' /\
      buffered_rep bl (buffers p') (cleared b pend) /\ cinv bl A' p' /\
      (forall b', (b' < 3)%nat -> T b' ≡ₚ plus A' (cleared b pend) b')) as HF.
  { intros b B d q Hb Rq Cq Eq. destruct (Rq b Hb) as [O _]. rewrite (b_count _ _ O), Nat2Z.id.
    destruct (flush_inc_ok b Hb (length (slots (buffer b (buffers q)))) 0%nat B d q) as (q' & A' & E' & R' & C' & EA);
      [done | intros i ?; lia | done | done | by eapply countable_perm |].
    exists q', A'. split_and!; try done. intros b' Hb'. by rewrite (EA b' Hb'), (Eq b' Hb'). }
  destruct (HF 0%nat A pend p ltac:(lia) R C ET) as (p1 & A1 & -> & R1 & C1 & EA1). cbn [mbind option_bind].
  destruct (HF 1%nat A1 _ p1 ltac:(lia) R1 C1 EA1) as (p2 & A2 & -> & R2 & C2 & EA2). cbn [mbind option_bind].
  destruct (HF 2%nat A2 _ p2 ltac:(lia) R2 C2 EA2) as (p3 & A3 & -> & R3 & C3 & EA3).
  assert (forall b', (b' < 3)%nat -> cleared 2 (cleared 1 (cleared 0 pend)) b' = nothing b') as EC.
  { intros [| [| [|]]] Hb'; done || lia. }
  exists p3. split; [done |]. split.
  - intros b' Hb'. rewrite <- (EC b' Hb'). auto.
  - eapply cinv_perm; [| exact C3]. intros b' Hb'. rewrite (EA3 b' Hb'). unfold plus.
    rewrite (EC b' Hb'). by rewrite app_nil_r.
Qed.

#[export] Instance buffered_laws :
  PeelLaws bl (xor_buffered_increment_counter bl) (xor_buffered_decrement_counter bl)
    (xor_make_buffer_current bl) (xor_flushone_decrement_buffer bl) (flush_increments bl)
    (flush_decrements bl) (buffered_rep bl).
Proof.
  split.
  - intros. by eapply buffered_inc_ok.
  - intros. by eapply buffered_flush_inc_ok.
  - intros. by eapply buffered_dec_ok.
  - intros. by eapply buffered_current_ok.
  - intros. by eapply buffered_flush_one_ok.
  - intros. by eapply buffered_flush_dec_ok.
Qed.

Lemma init_buffer_ok : exists u, xor_init_buffer true true bl = inr u /\ buffer_ok bl u /\
  concat (slots u) = [].
Proof.
  unfold xor_init_buffer. simpl. eexists. split; [reflexivity |].
  change (shlu 32 1 18) with (2 ^ 18).
  rewrite (wrapu_id 64) by (unfold is_u; lia).
  assert (0 <= (bl + 2 ^ 18 - 1) / 2 ^ 18 < 2 ^ 32) as Hr.
  { split; [apply Z.div_pos; lia | apply Z.div_lt_upper_bound; lia]. }
  rewrite wrapu_id by (unfold is_u; lia). set (c := (bl + 2 ^ 18 - 1) / 2 ^ 18) in *.
  assert (bl <= c * 2 ^ 18) as Hc.
  { unfold c. pose proof (Z.div_mod (bl + 2 ^ 18 - 1) (2 ^ 18) ltac:(lia)).
    pose proof (Z.mod_pos_bound (bl + 2 ^ 18 - 1) (2 ^ 18) ltac:(lia)). lia. }
  assert (forall j l, replicate (Z.to_nat c) (@nil keyindex) !! j = Some l -> l = []) as Hl.
  { intros j l E. by apply lookup_replicate in E as [-> _]. }
  split.
  - split; simpl; rewrite ?length_replicate; try done; try lia.
    + intros j l ->%Hl. simpl. lia.
    + intros j l k ->%Hl. by intros ?%not_elem_of_nil.
  - simpl. apply concat_nil_Forall, Forall_lookup. by intros i e ?%Hl.
Qed.

End BufferedLaws.

(** ** Populating a filter *)

(** The entries of a peeled stack have distinct hashes. *)
Lemma stack_ok_NoDup bl st : stack_ok bl st -> NoDup (ki_hash <$> st).
Proof.
  induction st as [| k st IH]; intros Hs; csimpl; [constructor |].
  destruct Hs as (_ & Hbelow & Hs). constructor; [| auto].
  intros (e & Ee & He)%list_elem_of_fmap.
  assert (exists b, (b < 3)%nat /\ ki_index e = pos bl b (get_h bl b (ki_hash e))) as (b & Hb & Ei).
  { clear -Hs He. induction st as [| x st IH]; [by apply not_elem_of_nil in He |].
    destruct Hs as (Hx & _ & Hs). apply elem_of_cons in He as [-> | He]; auto. }
  apply (Hbelow e b He Hb). by rewrite Ee.
Qed.

Lemma peeled_keys_distinct bl st s keys :
  stack_ok bl st -> hashes s keys ≡ₚ ki_hash <$> st -> NoDup keys.
Proof.
  intros Hs EH. apply stack_ok_NoDup in Hs. rewrite <- EH in Hs.
  unfold hashes in Hs. by eapply NoDup_fmap_1.
Qed.

(** A filter with the storage that [xor8_allocate] or [xor16_allocate] gives:
    three blocks of [w]-bit cells, addressed with 32 bits. *)
Definition allocated_filter (w : Z) (f : xor_filter) : Prop :=
  0 < blockLength f /\ 3 * blockLength f <= 2 ^ 32 /\
  length (fingerprints f) = Z.to_nat (3 * blockLength f) /\ Forall (is_u w) (fingerprints f).

(** C21: [xor8_populate] and [xor16_populate] on an allocated filter return within
    their bounds, without an access out of range; if they return true, the keys
    were distinct and the filter contains every one of them. *)
Theorem xor_populate_correct w keys f :
  0 < w -> allocated_filter w f -> Z.of_nat (length keys) < 2 ^ 32 ->
  exists ok f', populate w true true true keys f = Some (ok, f') /\ allocated_filter w f' /\
    (ok = true -> NoDup keys /\ forall key, key ∈ keys -> contain w key f' = Some true).
Proof.
  intros Hw (Hbl & Hbl3 & Hl & Hu) Hk. unfold populate.
  destruct (xor_rng_splitmix64 1) as [s rng]. cbn [negb orb].
  destruct (attempts_ok (laws := plain_laws (blockLength f) Hbl Hbl3) (blockLength f) Hbl Hbl3
    XOR_MAX_ITERATIONS rng keys (mkFilter s (blockLength f) (fingerprints f)) tt)
    as (f1 & res & E & Eb & Ef & Hres); [done | done | by intros ? ? |].
  cbn [fingerprints] in Ef. rewrite E. cbn [mbind option_bind].
  destruct res as [st |].
  - destruct Hres as [Hst EH].
    destruct (assigned_contains (blockLength f) Hbl Hbl3 w st (fingerprints f) f1 keys Hw Hl Hu Hst Eb EH)
      as (fps & Ea & La & Ua & Hc).
    rewrite Ef, Ea. cbn [mbind option_bind]. eexists true, _. split; [reflexivity |]. split.
    + split; [done |]. cbn [blockLength fingerprints]. split; [done |]. split; [congruence | done].
    + intros _. split; [by eapply peeled_keys_distinct | done].
  - exists false, f1. split; [done |]. split; [| done].
    unfold allocated_filter. by rewrite Eb, Ef.
Qed.

(** C22: the buffered constructions, whose counters are updated through write
    buffers and are current only when a slot is emptied, keep the same
    contract. *)
Theorem xor_buffered_populate_correct w keys f :
  0 < w -> allocated_filter w f -> Z.of_nat (length keys) < 2 ^ 32 ->
  exists ok f', buffered_populate w (fun _ => (true, true)) true true true keys f = Some (ok, f') /\
    allocated_filter w f' /\
    (ok = true -> NoDup keys /\ forall key, key ∈ keys -> contain w key f' = Some true).
Proof.
  intros Hw (Hbl & Hbl3 & Hl & Hu) Hk. unfold buffered_populate.
  destruct (xor_rng_splitmix64 1) as [s rng]. cbn [fst snd].
  destruct (init_buffer_ok (blockLength f) Hbl Hbl3) as (u & Eu & Ou & Cu). rewrite Eu. cbn [negb orb].
  destruct (attempts_ok (laws := buffered_laws (blockLength f) Hbl) (blockLength f) Hbl Hbl3
    XOR_MAX_ITERATIONS rng keys (mkFilter s (blockLength f) (fingerprints f)) (u, u, u))
    as (f1 & res & E & Eb & Ef & Hres); [done | done | |].
  { intros b Hb. unfold entries_of, nothing. destruct b as [| [| [|]]]; simpl; [| | | lia];
      by rewrite Cu. }
  cbn [fingerprints] in Ef. rewrite E. cbn [mbind option_bind].
  destruct res as [st |].
  - destruct Hres as [Hst EH].
    destruct (assigned_contains (blockLength f) Hbl Hbl3 w st (fingerprints f) f1 keys Hw Hl Hu Hst Eb EH)
      as (fps & Ea & La & Ua & Hc).
    rewrite Ef, Ea. cbn [mbind option_bind]. eexists true, _. split; [reflexivity |]. split.
    + split; [done |]. cbn [blockLength fingerprints]. split; [done |]. split; [congruence | done].
    + intros _. split; [by eapply peeled_keys_distinct | done].
  - exists false, f1. split; [done |]. split; [| done].
    unfold allocated_filter. by rewrite Eb, Ef.
Qed.

(** When one of the two arrays of a write buffer cannot be allocated,
    [xor_init_buffer] frees the other and leaves its pointer in place, and
    [xor_buffered_populate] frees it again. *)
Theorem xor_buffered_double_free w keys f ok_sets ok_Q ok_stack :
  buffered_populate w (fun b => (true, negb (b =? 0)%nat)) ok_sets ok_Q ok_stack keys f = None.
Proof. unfold buffered_populate. destruct (xor_rng_splitmix64 1). reflexivity. Qed.

(** ** Witnesses: six keys in a filter allocated for six *)

Definition demo_keys : list Z := [3; 5; 900; 77; 12; 13].

Definition demo_filter : xor_filter :=
  snd (xor8_allocate 6 (fun n => Some (replicate (Z.to_nat n) 0)) (mkFilter 0 0 [])).

Lemma demo_allocated : allocated_filter 8 demo_filter.
Proof.
  repeat split; try (vm_compute; congruence).
  change (fingerprints demo_filter) with (replicate 39 0). apply Forall_replicate. done.
Qed.

Lemma xor_populate_correct_witness : exists f',
  xor8_populate true true true demo_keys demo_filter = Some (true, f') /\
  forall key, key ∈ demo_keys -> xor8_contain key f' = Some true.
Proof.
  destruct (xor_populate_correct 8 demo_keys demo_filter) as (ok & f' & E & _ & Hc);
    [lia | exact demo_allocated | vm_compute; reflexivity |].
  exists f'. destruct ok; [| exfalso; vm_compute in E; discriminate E].
  split; [exact E | apply Hc; reflexivity].
Defined.

Lemma xor_buffered_populate_correct_witness : exists f',
  AddAll demo_keys 0 6 demo_filter = Some (true, f') /\
  forall key, key ∈ demo_keys -> Contain key f' = Some true.
Proof.
  destruct (xor_buffered_populate_correct 8 demo_keys demo_filter) as (ok & f' & E & _ & Hc);
    [lia | exact demo_allocated | vm_compute; reflexivity |].
  exists f'. destruct ok; [| exfalso; vm_compute in E; discriminate E].
  split; [exact E | apply Hc; reflexivity].
Defined.
