(* ===== verification/MemLog.v ===== *)
(** * The write log of a SQLite transaction (storage/cmemlog.h, storage/cmemlog.cc)

    The log is an array of linked lists, one per SQLite root page, built by
    [malloc]ed [DBRecord] nodes.  The heap of nodes and of their data buffers
    is explicit, so that lost, shared and doubly freed nodes are visible.  The
    second half of the file relates the pointer structure to a plain list of
    records per table and proves that every sequence of operations behaves as
    the list specification says.

    [None] stands for undefined behaviour: a dereference of [NULL] or of freed
    memory, an index outside an array, a signed overflow, a read past the end
    of a record; and for an exception thrown by the storage layer. *)

From Stdlib Require Import ZArith Lia.
From stdpp Require Import base numbers list gmap strings option.
Import stdpp.list_basics.list stdpp.list_relations.list stdpp.list_monad.list.
From S2P Require Import Prelude RecordUtils.
Import Varint Serial.

Local Open Scope Z_scope.

(** ** The storage layer as the log sees it

    The log calls the catalog of a database ([HustleDB::get_catalog]) and the
    tables it returns.  [C] is the state of all catalogs and tables. *)

Record UpdateMetaInfo := mkUpdateMetaInfo { tableId : Z; colNum : Z }.

Class Storage (C T : Type) := {
  (** [None]: the database has no catalog; [Some None]: [nullptr]. *)
  GetTable : string -> string -> C -> option (option T);
  DropMemTable : string -> string -> C -> option C;
  DeleteRecordTable : T -> Z -> C -> option C;
  InsertRecordTable : T -> Z -> list Z -> list Z -> C -> option C;
  UpdateRecordTable : T -> Z -> Z -> option (list UpdateMetaInfo) -> list Z -> list Z -> C -> option C
}.

Module Log.

Definition MEMLOG_HUSTLE_UPDATE : Z := 1.
Definition MEMLOG_HUSTLE_INSERT : Z := 2.
Definition MEMLOG_HUSTLE_DELETE : Z := 3.
Definition MEMLOG_OK : Z := 0.
Definition MEMLOG_ERROR : Z := 1.
Definition DEFAULT_DB_ID : Z := 0.
Definition ZERO_TYPE_ENCODING : Z := 8.
Definition ONE_TYPE_ENCODING : Z := 9.
Definition INT_MAX : Z := 2 ^ 31 - 1.

(** ** Data *)

(** Pointers are addresses; [NULL] is 0. *)
Definition NULL : Z := 0.

Record DBRecord := mkDBRecord {
  mode : Z;
  rowId : Z;
  nData : Z;
  data : Z;
  nUpdateMetaInfo : Z;
  updateMetaInfo : option (list UpdateMetaInfo);
  next_record : Z
}.

Record DBRecordList := mkDBRecordList { head : Z; tail : Z; curr_size : Z }.

Record HustleMemLog := mkHustleMemLog {
  record_list : list DBRecordList;
  total_size : Z;
  db_name : string
}.

(** The heap: live [DBRecord]s, live data buffers, and the next address that
    [malloc] hands out. *)
Record Heap := mkHeap {
  h_records : gmap Z DBRecord;
  h_buffers : gmap Z (list Z);
  h_brk : Z
}.

Definition set_next_record (q : Z) (r : DBRecord) : DBRecord :=
  mkDBRecord (mode r) (rowId r) (nData r) (data r) (nUpdateMetaInfo r) (updateMetaInfo r) q.

Definition malloc_buffer (bs : list Z) (h : Heap) : Z * Heap :=
  (h_brk h, mkHeap (h_records h) (<[h_brk h := bs]> (h_buffers h)) (h_brk h + 1)).

Definition malloc_record (r : DBRecord) (h : Heap) : Z * Heap :=
  (h_brk h, mkHeap (<[h_brk h := r]> (h_records h)) (h_buffers h) (h_brk h + 1)).

Definition free_buffer (p : Z) (h : Heap) : option Heap :=
  if p =? NULL then Some h else
  _ ← h_buffers h !! p;
  Some (mkHeap (h_records h) (delete p (h_buffers h)) (h_brk h)).

Definition free_record (p : Z) (h : Heap) : option Heap :=
  if p =? NULL then Some h else
  _ ← h_records h !! p;
  Some (mkHeap (delete p (h_records h)) (h_buffers h) (h_brk h)).

(** ** The root page map

    [std::map<int, std::map<int, std::string>> table_map]: a [std::map]
    iterates in key order, so the inner map is an association list sorted by
    root page.  A database id without entry is the empty map, which is what
    [operator\[\]] creates. *)

Abbreviation table_map_t := (gmap Z (list (Z * string))).

Definition sub_map (db_id : Z) (tm : table_map_t) : list (Z * string) := default [] (tm !! db_id).

Fixpoint map_assign (k : Z) (v : string) (m : list (Z * string)) : list (Z * string) :=
  match m with
  | [] => [(k, v)]
  | (k', v') :: m' =>
      if k =? k' then (k, v) :: m'
      else if k <? k' then (k, v) :: (k', v') :: m'
      else (k', v') :: map_assign k v m'
  end.

Fixpoint map_find (k : Z) (m : list (Z * string)) : option string :=
  match m with
  | [] => None
  | (k', v) :: m' => if k =? k' then Some v else map_find k m'
  end.

Definition map_erase (k : Z) (m : list (Z * string)) : list (Z * string) :=
  filter (fun kv => fst kv <> k) m.

Definition memlog_add_table_mapping (db_id root_page_id : Z) (table_name : string)
    (tm : table_map_t) : table_map_t :=
  <[db_id := map_assign root_page_id table_name (sub_map db_id tm)]> tm.

(** The search loop of [memlog_remove_table_mapping]: the first root page, in
    key order, whose table has the name. *)
Fixpoint first_named (name : string) (m : list (Z * string)) : option Z :=
  match m with
  | [] => None
  | (k, v) :: m' => if String.eqb v name then Some k else first_named name m'
  end.

Section WithStorage.
Context {C T : Type} {St : Storage C T}.

Definition memlog_remove_table_mapping (db_id : Z) (db_name tbl_name : string)
    (tm : table_map_t) (c : C) : option (table_map_t * C) :=
  match first_named tbl_name (sub_map db_id tm) with
  | Some k =>
      let tm' := <[db_id := map_erase k (sub_map db_id tm)]> tm in
      c' ← DropMemTable db_name tbl_name c;
      Some (tm', c')
  | None => Some (tm, c)
  end.

(** ** Initialisation, record creation and insertion *)

Definition empty_slot : DBRecordList := mkDBRecordList NULL NULL 0.

Definition set_slot (i : nat) (s : DBRecordList) (l : list DBRecordList) : option (list DBRecordList) :=
  if decide (i < length l)%nat then Some (<[i := s]> l) else None.

(** [while (table_index < total_size) record_list[table_index] = empty], with
    [n = total_size - table_index]. *)
Fixpoint init_slots (n i : nat) (l : list DBRecordList) : option (list DBRecordList) :=
  match n with
  | O => Some l
  | S n' => l' ← set_slot i empty_slot l; init_slots n' (i + 1) l'
  end.

(** [junk] is the content of memory that [malloc] and [realloc] do not
    initialise. *)
Definition hustle_memlog_initialize (junk : DBRecordList) (name : string) (initial_size : Z)
    : option (Z * option HustleMemLog) :=
  if initial_size <=? 0 then Some (MEMLOG_ERROR, None) else
  let n := Z.to_nat initial_size in
  l ← init_slots n 0 (replicate n junk);
  Some (MEMLOG_OK, Some (mkHustleMemLog l initial_size name)).

(** [memcpy] of [nData] bytes from the caller's buffer. *)
Definition memcpy_from (src : option (list Z)) (n : Z) : option (list Z) :=
  if n <? 0 then None else
  match src with
  | Some bs => if n <=? Z.of_nat (length bs) then Some (take (Z.to_nat n) bs) else None
  | None => if n =? 0 then Some [] else None
  end.

Definition hustle_memlog_create_record (mode rowId : Z) (src : option (list Z)) (nData : Z)
    (h : Heap) : option (Z * Heap) :=
  match src with
  | None =>
      if negb (mode =? MEMLOG_HUSTLE_DELETE) then Some (NULL, h) else
      bs ← memcpy_from None nData;
      let '(d, h) := malloc_buffer bs h in
      Some (malloc_record (mkDBRecord mode rowId nData d 0 None NULL) h)
  | Some _ =>
      bs ← memcpy_from src nData;
      let '(d, h) := malloc_buffer bs h in
      Some (malloc_record (mkDBRecord mode rowId nData d 0 None NULL) h)
  end.

(** The growth of the slot array: [total_size = 2 * table_id], [realloc], and
    the loop that clears the new slots. *)
Definition grow (junk : DBRecordList) (table_id : Z) (ml : HustleMemLog) : option HustleMemLog :=
  if total_size ml <=? table_id then
    let old := total_size ml in
    let new := 2 * table_id in
    if INT_MAX <? new then None else
    let l := take (Z.to_nat new)
               (record_list ml ++ replicate (Z.to_nat new - length (record_list ml)) junk) in
    l' ← init_slots (Z.to_nat (new - old)) (Z.to_nat old) l;
    Some (mkHustleMemLog l' new (db_name ml))
  else Some ml.

(** The pointer surgery that appends [record] to a slot. *)
Definition append_slot (record : Z) (s : DBRecordList) (h : Heap) : option (DBRecordList * Heap) :=
  let tl := tail s in
  h' ← (if tl =? NULL then Some h else
          r ← h_records h !! tl;
          Some (mkHeap (<[tl := set_next_record record r]> (h_records h)) (h_buffers h) (h_brk h)));
  let hd := if head s =? NULL then record else head s in
  if INT_MAX <=? curr_size s then None else
  Some (mkDBRecordList hd record (curr_size s + 1), h').

Definition hustle_memlog_insert_record (junk : DBRecordList) (mem_log : option HustleMemLog)
    (record table_id : Z) (h : Heap) : option (Z * option HustleMemLog * Heap) :=
  match mem_log with
  | None => Some (MEMLOG_ERROR, None, h)
  | Some ml =>
      (* [record == NULL && record->mode != MEMLOG_HUSTLE_DELETE]: the second
         operand is evaluated exactly when [record] is [NULL] *)
      if record =? NULL then None else
      ml ← grow junk table_id ml;
      if table_id <? 0 then None else
      s ← record_list ml !! Z.to_nat table_id;
      '(s', h') ← append_slot record s h;
      Some (MEMLOG_OK,
            Some (mkHustleMemLog (<[Z.to_nat table_id := s']> (record_list ml))
                    (total_size ml) (db_name ml)), h')
  end.

Definition hustle_memlog_get_records (mem_log : option HustleMemLog) (table_id : Z)
    : option (option DBRecordList) :=
  match mem_log with
  | None => Some None
  | Some ml =>
      if total_size ml <=? table_id then Some None else
      if table_id <? 0 then None else
      Some <$> record_list ml !! Z.to_nat table_id
  end.

(** ** Commit *)

(** The width recorded for a column: 8 and 9 encode the constants 0 and 1, and
    are passed on as [-8] and [-9]. *)
Definition column_width (typeLen : Z) : option Z :=
  if (typeLen =? ZERO_TYPE_ENCODING) || (typeLen =? ONE_TYPE_ENCODING)
  then Some (to_i32 (to_u32 (- typeLen)))
  else to_i32 <$> serialTypeLen typeLen.

(** How the loop over the header ends: with the widths, by undefined behaviour
    (a read beyond the record or a failed assertion), or not within the bound. *)
Inductive Parsed := Widths (byte_widths : list Z) | UndefinedRead | OutOfFuel.

(** [while (idx < hdrLen)]: one varint per column. *)
Fixpoint parse_widths (fuel : nat) (hdr : list Z) (hdrLen idx : Z) (byte_widths : list Z) : Parsed :=
  if idx <? hdrLen then
    match fuel with
    | O => OutOfFuel
    | S f =>
        match getVarint32 (drop (Z.to_nat idx) hdr) with
        | Some (typeLen, nBytes) =>
            match column_width typeLen with
            | Some w => parse_widths f hdr hdrLen (to_u32 (idx + nBytes)) (byte_widths ++ [w])
            | None => UndefinedRead
            end
        | None => UndefinedRead
        end
    end
  else Widths byte_widths.

(** [hdrLen] iterations are enough (C34). *)
Definition parse_record (bs : list Z) : option (Z * list Z) :=
  '(hdrLen, nBytes) ← getVarint32 bs;
  match parse_widths (Z.to_nat hdrLen) bs hdrLen nBytes [] with
  | Widths ws => Some (hdrLen, ws)
  | UndefinedRead | OutOfFuel => None
  end.

(** The body of the loop over one table's records: what is sent to the table. *)
Definition apply_record (t : T) (h : Heap) (r : DBRecord) (c : C) : option C :=
  if mode r =? MEMLOG_HUSTLE_DELETE then DeleteRecordTable t (to_u32 (rowId r)) c
  else
    bs ← h_buffers h !! data r;
    '(hdrLen, widths) ← parse_record bs;
    let record := drop (Z.to_nat hdrLen) bs in
    if mode r =? MEMLOG_HUSTLE_INSERT then
      InsertRecordTable t (to_u32 (rowId r)) record widths c
    else if mode r =? MEMLOG_HUSTLE_UPDATE then
      UpdateRecordTable t (to_u32 (rowId r)) (nUpdateMetaInfo r) (updateMetaInfo r) record widths c
    else Some c.

(** [while (head != NULL)] of the commit. *)
Fixpoint replay_chain (fuel : nat) (is_free : bool) (t : T) (hd : Z) (h : Heap) (c : C)
    : option (Heap * C) :=
  if hd =? NULL then Some (h, c) else
  match fuel with
  | O => None
  | S f =>
      r ← h_records h !! hd;
      c' ← apply_record t h r c;
      h' ← (if is_free then h1 ← free_buffer (data r) h; free_record hd h1 else Some h);
      replay_chain f is_free t (next_record r) h' c'
  end.

(** A list without cycle has at most as many nodes as there are live records. *)
Definition chain_fuel (h : Heap) : nat := size (h_records h).

(** One iteration of [while (table_index < total_size)] of the commit. *)
Definition update_table (tm : table_map_t) (is_free : bool) (i : nat) (ml : HustleMemLog)
    (h : Heap) (c : C) : option (HustleMemLog * Heap * C) :=
  s ← record_list ml !! i;
  match map_find (Z.of_nat i) (sub_map DEFAULT_DB_ID tm) with
  | None => Some (ml, h, c)
  | Some name =>
      t ← GetTable (db_name ml) name c;
      match t with
      | None => Some (ml, h, c)
      | Some t =>
          '(h', c') ← replay_chain (chain_fuel h) is_free t (head s) h c;
          l ← set_slot i empty_slot (record_list ml);
          Some (mkHustleMemLog l (total_size ml) (db_name ml), h', c')
      end
  end.

Fixpoint update_tables (n i : nat) (tm : table_map_t) (is_free : bool) (ml : HustleMemLog)
    (h : Heap) (c : C) : option (HustleMemLog * Heap * C) :=
  match n with
  | O => Some (ml, h, c)
  | S n' =>
      '(ml', h', c') ← update_table tm is_free i ml h c;
      update_tables n' (i + 1) tm is_free ml' h' c'
  end.

Definition hustle_memlog_update_db (tm : table_map_t) (mem_log : option HustleMemLog)
    (is_free : bool) (h : Heap) (c : C) : option (Z * option HustleMemLog * Heap * C) :=
  match mem_log with
  | None => Some (MEMLOG_ERROR, None, h, c)
  | Some ml =>
      '(ml', h', c') ← update_tables (Z.to_nat (total_size ml)) 0 tm is_free ml h c;
      Some (MEMLOG_OK, Some ml', h', c')
  end.

(** ** Clear and free *)

Fixpoint free_chain (fuel : nat) (hd : Z) (h : Heap) : option Heap :=
  if hd =? NULL then Some h else
  match fuel with
  | O => None
  | S f =>
      r ← h_records h !! hd;
      h1 ← free_buffer (data r) h;
      h2 ← free_record hd h1;
      free_chain f (next_record r) h2
  end.

Fixpoint clear_tables (n i : nat) (ml : HustleMemLog) (h : Heap) : option (HustleMemLog * Heap) :=
  match n with
  | O => Some (ml, h)
  | S n' =>
      s ← record_list ml !! i;
      h' ← free_chain (chain_fuel h) (head s) h;
      l ← set_slot i empty_slot (record_list ml);
      clear_tables n' (i + 1) (mkHustleMemLog l (total_size ml) (db_name ml)) h'
  end.

Definition hustle_memlog_clear (mem_log : option HustleMemLog) (h : Heap)
    : option (Z * option HustleMemLog * Heap) :=
  match mem_log with
  | None => Some (MEMLOG_ERROR, None, h)
  | Some ml =>
      '(ml', h') ← clear_tables (Z.to_nat (total_size ml)) 0 ml h;
      Some (MEMLOG_OK, Some ml', h')
  end.

Definition hustle_memlog_free (tm : table_map_t) (mem_log : option HustleMemLog) (h : Heap)
    : option (Z * table_map_t * Heap) :=
  match mem_log with
  | None => Some (MEMLOG_ERROR, tm, h)
  | Some ml =>
      '(_, _, h') ← hustle_memlog_clear (Some ml) h;
      Some (MEMLOG_OK, ∅, h')
  end.

End WithStorage.

End Log.

Import Log.

(** ** The specification: a list of entries per table *)

Module Spec.

Record Entry := mkEntry {
  e_mode : Z;
  e_rowId : Z;
  e_bytes : list Z;
  e_nUpdateMetaInfo : Z;
  e_updateMetaInfo : option (list UpdateMetaInfo)
}.

(** Appending to a table's list; the array of tables grows with empty lists. *)
Definition append (table_id : nat) (e : Entry) (log : list (list Entry)) : list (list Entry) :=
  let log := if decide (table_id < length log)%nat then log
             else log ++ replicate (2 * table_id - length log) [] in
  alter (fun es => es ++ [e]) table_id log.

Section Commit.
Context {C T : Type} {St : Storage C T}.

Definition apply_entry (t : T) (e : Entry) (c : C) : option C :=
  if e_mode e =? MEMLOG_HUSTLE_DELETE then DeleteRecordTable t (to_u32 (e_rowId e)) c
  else
    '(hdrLen, widths) ← parse_record (e_bytes e);
    let record := drop (Z.to_nat hdrLen) (e_bytes e) in
    if e_mode e =? MEMLOG_HUSTLE_INSERT then
      InsertRecordTable t (to_u32 (e_rowId e)) record widths c
    else if e_mode e =? MEMLOG_HUSTLE_UPDATE then
      UpdateRecordTable t (to_u32 (e_rowId e)) (e_nUpdateMetaInfo e) (e_updateMetaInfo e) record widths c
    else Some c.

Section Generic.
Context {A : Type} (entry : A -> Entry).

(** A table's entries are applied in the order in which they were appended. *)
Fixpoint replay (t : T) (es : list A) (c : C) : option C :=
  match es with
  | [] => Some c
  | e :: es' => c' ← apply_entry t (entry e) c; replay t es' c'
  end.

(** Tables are committed in the order of their root pages; a table that is
    not mapped, or that the catalog does not know, keeps its entries. *)
Definition commit_table (tm : table_map_t) (db : string) (i : nat) (es : list A) (c : C)
    : option (list A * C) :=
  match map_find (Z.of_nat i) (sub_map DEFAULT_DB_ID tm) with
  | None => Some (es, c)
  | Some name =>
      t ← GetTable db name c;
      match t with
      | None => Some (es, c)
      | Some t => c' ← replay t es c; Some ([], c')
      end
  end.

Fixpoint commit (tm : table_map_t) (db : string) (i : nat) (log : list (list A)) (c : C)
    : option (list (list A) * C) :=
  match log with
  | [] => Some ([], c)
  | es :: log' =>
      '(es', c') ← commit_table tm db i es c;
      '(log'', c'') ← commit tm db (i + 1) log' c';
      Some (es' :: log'', c'')
  end.

End Generic.

Lemma replay_fmap {A} (entry : A -> Entry) t es c :
  replay entry t es c = replay id t (map entry es) c.
Proof.
  revert c. induction es as [|e es IH]; intros c; [done |]. csimpl.
  destruct (apply_entry t (entry e) c); csimpl; auto.
Qed.

Lemma commit_fmap {A} (entry : A -> Entry) tm db i (log : list (list A)) c :
  commit id tm db i (map (map entry) log) c =
  prod_map (map (map entry)) id <$> commit entry tm db i log c.
Proof.
  revert i c. induction log as [|es log IH]; intros i c; [done |]. csimpl.
  unfold commit_table.
  destruct (map_find _ _) as [name|]; csimpl.
  2: { rewrite IH. destruct (commit entry tm db (i + 1) log c) as [[??]|]; done. }
  destruct (GetTable db name c) as [[t|]|]; csimpl; [| |done].
  - rewrite <- replay_fmap. destruct (replay entry t es c) as [c'|]; csimpl; [|done].
    rewrite IH. destruct (commit entry tm db (i + 1) log c') as [[??]|]; done.
  - rewrite IH. destruct (commit entry tm db (i + 1) log c) as [[??]|]; done.
Qed.

End Commit.
End Spec.

Import Spec.

(** ** The representation of the lists in the heap *)

Module Repr.

(** A node: its address, its content and the bytes of its data buffer. *)
Record Node := mkNode { n_ptr : Z; n_rec : DBRecord; n_bytes : list Z }.

Definition n_buf (n : Node) : Z := data (n_rec n).

Definition entry (n : Node) : Entry :=
  let r := n_rec n in
  mkEntry (mode r) (rowId r) (n_bytes n) (nUpdateMetaInfo r) (updateMetaInfo r).

Definition node_in (h : Heap) (n : Node) : Prop :=
  n_ptr n <> NULL /\ n_buf n <> NULL /\
  h_records h !! n_ptr n = Some (n_rec n) /\ h_buffers h !! n_buf n = Some (n_bytes n).

Fixpoint linked (p : Z) (ns : list Node) : Prop :=
  match ns with
  | [] => p = NULL
  | n :: ns' => p = n_ptr n /\ linked (next_record (n_rec n)) ns'
  end.

Definition last_ptr (ns : list Node) : Z := from_option n_ptr NULL (last ns).

Definition slot_ok (s : DBRecordList) (ns : list Node) : Prop :=
  linked (head s) ns /\ tail s = last_ptr ns /\ curr_size s = Z.of_nat (length ns).

(** The nodes are live and nothing is shared between them. *)
Definition owned (h : Heap) (ns : list Node) : Prop :=
  Forall (node_in h) ns /\ NoDup (map n_ptr ns) /\ NoDup (map n_buf ns).

Definition log_ok (h : Heap) (ml : HustleMemLog) (nss : list (list Node)) : Prop :=
  total_size ml = Z.of_nat (length nss) /\
  Forall2 slot_ok (record_list ml) nss /\
  owned h (concat nss).

Definition heap_ok (h : Heap) : Prop :=
  0 < h_brk h /\
  map_Forall (fun p _ => 0 < p < h_brk h) (h_records h) /\
  map_Forall (fun p _ => 0 < p < h_brk h) (h_buffers h).

(** The heap holds the log's nodes and nothing else: no leak. *)
Definition no_leak (h : Heap) (ns : list Node) : Prop :=
  (forall p, is_Some (h_records h !! p) -> p ∈ map n_ptr ns) /\
  (forall p, is_Some (h_buffers h !! p) -> p ∈ map n_buf ns).

Definition free_node (h : Heap) (n : Node) : Heap :=
  mkHeap (delete (n_ptr n) (h_records h)) (delete (n_buf n) (h_buffers h)) (h_brk h).

Definition free_nodes (h : Heap) (ns : list Node) : Heap := foldl free_node h ns.

Definition free_if (is_free : bool) (h : Heap) (ns : list Node) : Heap :=
  if is_free then free_nodes h ns else h.

(** *** Freeing *)

Lemma free_node_code h n :
  node_in h n -> (h1 ← free_buffer (n_buf n) h; free_record (n_ptr n) h1) = Some (free_node h n).
Proof.
  intros (Hp & Hb & Hr & Hd). unfold free_buffer, free_record.
  rewrite (proj2 (Z.eqb_neq _ _) Hb), Hd. cbn.
  by rewrite (proj2 (Z.eqb_neq _ _) Hp), Hr.
Qed.

Lemma node_in_free h m n :
  node_in h m -> n_ptr m <> n_ptr n -> n_buf m <> n_buf n -> node_in (free_node h n) m.
Proof.
  intros (Hp & Hb & Hr & Hd) ??. unfold node_in, free_node; cbn.
  by rewrite !lookup_delete_ne by done.
Qed.

Lemma owned_cons h n ns :
  owned h (n :: ns) <->
  node_in h n /\ (n_ptr n ∉ map n_ptr ns) /\ (n_buf n ∉ map n_buf ns) /\ owned h ns.
Proof. unfold owned. csimpl. rewrite Forall_cons, !NoDup_cons. tauto. Qed.

Lemma owned_Permutation h ns ms : ns ≡ₚ ms -> (owned h ns <-> owned h ms).
Proof.
  intros E. unfold owned.
  pose proof (Permutation_map n_ptr E) as E1. pose proof (Permutation_map n_buf E) as E2.
  split; intros (H1 & H2 & H3); split_and!.
  - by rewrite <- E.
  - by rewrite <- E1.
  - by rewrite <- E2.
  - by rewrite E.
  - by rewrite E1.
  - by rewrite E2.
Qed.

Lemma owned_free_node h n ns : owned h (n :: ns) -> owned (free_node h n) ns.
Proof.
  rewrite owned_cons. intros (_ & Hp & Hb & Hf & H1 & H2). split_and!; [| done | done].
  rewrite Forall_forall in Hf |- *. intros m Hm. apply node_in_free; [by auto | |].
  - intros E. apply Hp. rewrite <- E. by apply list_elem_of_fmap_2.
  - intros E. apply Hb. rewrite <- E. by apply list_elem_of_fmap_2.
Qed.

Lemma owned_free_nodes h ns ms : owned h (ns ++ ms) -> owned (free_nodes h ns) ms.
Proof.
  revert h. induction ns as [|n ns IH]; intros h; cbn; [done |].
  intros H. by apply IH, owned_free_node.
Qed.

Lemma owned_app_l h ns ms : owned h (ns ++ ms) -> owned h ns.
Proof. unfold owned. rewrite Forall_app, !map_app, !NoDup_app. tauto. Qed.

Lemma owned_app_r h ns ms : owned h (ns ++ ms) -> owned h ms.
Proof. unfold owned. rewrite Forall_app, !map_app, !NoDup_app. tauto. Qed.

Lemma owned_free_if f h ns ms : owned h (ns ++ ms) -> owned (free_if f h ns) ms.
Proof. destruct f; [apply owned_free_nodes | apply owned_app_r]. Qed.

Lemma free_nodes_app h ns ms : free_nodes h (ns ++ ms) = free_nodes (free_nodes h ns) ms.
Proof. apply foldl_app. Qed.

Lemma lookup_delete_mem {V} (m : gmap Z V) p q (l : list Z) :
  (if decide (p ∈ l) then None else delete q m !! p) =
  (if decide (p ∈ q :: l) then None else m !! p).
Proof.
  destruct (decide (p = q)) as [-> |].
  - rewrite (decide_True (P := q ∈ q :: l)) by left. rewrite lookup_delete_eq. by case_decide.
  - rewrite lookup_delete_ne by done.
    do 2 case_decide; try done; rewrite elem_of_cons in *; tauto.
Qed.

Lemma free_nodes_lookup h ns :
  (forall p, h_records (free_nodes h ns) !! p =
             if decide (p ∈ map n_ptr ns) then None else h_records h !! p) /\
  (forall p, h_buffers (free_nodes h ns) !! p =
             if decide (p ∈ map n_buf ns) then None else h_buffers h !! p) /\
  h_brk (free_nodes h ns) = h_brk h.
Proof.
  revert h. induction ns as [|n ns IH]; intros h; cbn; [split_and!; intros; try done|].
  destruct (IH (free_node h n)) as (Hr & Hb & Hk). split_and!; [intros p.. | done].
  - rewrite Hr. cbn [h_records free_node]. apply lookup_delete_mem.
  - rewrite Hb. cbn [h_buffers free_node]. apply lookup_delete_mem.
Qed.

Lemma heap_ok_free_nodes h ns : heap_ok h -> heap_ok (free_nodes h ns).
Proof.
  intros (Hk & Hr & Hb). destruct (free_nodes_lookup h ns) as (Lr & Lb & Lk).
  unfold heap_ok. rewrite Lk. split_and!; [done | intros p r E..].
  - rewrite Lr in E. case_decide; [done | eauto].
  - rewrite Lb in E. case_decide; [done | eauto].
Qed.

Lemma no_leak_free_nodes h ns ms : no_leak h (ns ++ ms) -> no_leak (free_nodes h ns) ms.
Proof.
  intros [Hr Hb]. destruct (free_nodes_lookup h ns) as (Lr & Lb & _). split; intros p Hp.
  - rewrite Lr in Hp. case_decide; [by destruct Hp |].
    apply Hr in Hp. rewrite map_app, elem_of_app in Hp. tauto.
  - rewrite Lb in Hp. case_decide; [by destruct Hp |].
    apply Hb in Hp. rewrite map_app, elem_of_app in Hp. tauto.
Qed.

Lemma no_leak_Permutation h ns ms : ns ≡ₚ ms -> (no_leak h ns <-> no_leak h ms).
Proof.
  intros E. unfold no_leak.
  pose proof (Permutation_map n_ptr E) as E1. pose proof (Permutation_map n_buf E) as E2.
  split; intros (H1 & H2); split; intros p Hp.
  - rewrite <- E1. auto.
  - rewrite <- E2. auto.
  - rewrite E1. auto.
  - rewrite E2. auto.
Qed.

(** A list of live nodes is no longer than the heap: the fuel suffices. *)
Lemma owned_fuel h ns : owned h ns -> (length ns <= chain_fuel h)%nat.
Proof.
  intros (Hf & Hp & _). unfold chain_fuel.
  rewrite <- (length_map n_ptr ns), <- size_dom.
  rewrite <- (size_list_to_set (C := gset Z)) by done.
  apply subseteq_size. intros p Hin. rewrite elem_of_list_to_set in Hin.
  apply list_elem_of_fmap in Hin as (n & -> & Hn).
  rewrite Forall_forall in Hf. apply elem_of_dom. destruct (Hf n Hn) as (_ & _ & -> & _). eauto.
Qed.

(** *** Appending *)

Definition relink (q : Z) (n : Node) : Node :=
  mkNode (n_ptr n) (set_next_record q (n_rec n)) (n_bytes n).

Fixpoint snoc (ns : list Node) (m : Node) : list Node :=
  match ns with
  | [] => [m]
  | n :: ns' =>
      match ns' with
      | [] => [relink (n_ptr m) n; m]
      | _ => n :: snoc ns' m
      end
  end.

Lemma snoc_app ns n m : snoc (ns ++ [n]) m = ns ++ [relink (n_ptr m) n; m].
Proof.
  induction ns as [|a ns IH]; [done |]. cbn -[snoc]. rewrite <- IH.
  by destruct ns.
Qed.

Lemma last_ptr_snoc ns n : last_ptr (ns ++ [n]) = n_ptr n.
Proof. unfold last_ptr. by rewrite last_snoc. Qed.

Lemma linked_snoc p ns m :
  linked p ns -> next_record (n_rec m) = NULL ->
  linked (if p =? NULL then n_ptr m else p) (snoc ns m) \/ exists n, In n ns /\ n_ptr n = NULL.
Proof.
  intros H Hm. destruct ns as [|n ns]; cbn in H.
  { subst p. left. cbn. done. }
  destruct H as [-> H]. destruct (Z.eqb_spec (n_ptr n) NULL) as [E|_].
  { right. exists n. split; [by left | done]. }
  left. revert n H. induction ns as [|n' ns IH]; intros n H.
  - cbn. done.
  - cbn -[snoc]. destruct H as [H1 H2]. split; [done |]. rewrite H1. by apply IH.
Qed.

Definition link_tail (ns : list Node) (q : Z) (h : Heap) : Heap :=
  match last ns with
  | Some n => mkHeap (<[n_ptr n := set_next_record q (n_rec n)]> (h_records h)) (h_buffers h) (h_brk h)
  | None => h
  end.

Lemma list_snoc_cases {A} (l : list A) : l = [] \/ exists l' x, l = l' ++ [x].
Proof.
  destruct (last l) as [x|] eqn:E; [right | left; by apply last_None].
  apply last_Some in E as [l' ->]. eauto.
Qed.

Lemma snoc_entries ns m : map entry (snoc ns m) = map entry ns ++ [entry m].
Proof.
  destruct (list_snoc_cases ns) as [-> | (ns' & n & ->)]; [done |].
  rewrite snoc_app, !map_app, <- app_assoc. done.
Qed.

Lemma last_ptr_snoc' ns m : last_ptr (snoc ns m) = n_ptr m.
Proof.
  destruct (list_snoc_cases ns) as [-> | (ns' & n & ->)]; [done |].
  rewrite snoc_app. change [relink (n_ptr m) n; m] with ([relink (n_ptr m) n] ++ [m]).
  rewrite app_assoc. apply last_ptr_snoc.
Qed.

Lemma snoc_length ns m : length (snoc ns m) = S (length ns).
Proof.
  destruct (list_snoc_cases ns) as [-> | (ns' & n & ->)]; [done |].
  rewrite snoc_app, !length_app. cbn. lia.
Qed.

(** Appending a fresh node keeps every node live and unshared. *)
Lemma owned_snoc h ns m rest :
  owned h (m :: ns ++ rest) -> owned (link_tail ns (n_ptr m) h) (snoc ns m ++ rest).
Proof.
  destruct (list_snoc_cases ns) as [-> | (ns' & n & ->)]; [done |].
  rewrite snoc_app. unfold link_tail. rewrite last_snoc.
  set (n' := relink (n_ptr m) n). intros H.
  assert (owned h (n :: m :: ns' ++ rest)) as Hp.
  { eapply owned_Permutation; [| exact H]. solve_Permutation. }
  apply (owned_Permutation _ (n' :: m :: ns' ++ rest)); [solve_Permutation |].
  rewrite owned_cons in Hp |- *. destruct Hp as ((H1 & H2 & H3 & H4) & H5 & H6 & H7).
  split_and!; [| done | done |].
  - split_and!; [done | done | | done]. apply lookup_insert_eq.
  - destruct H7 as (Hf & ? & ?). split_and!; [| done | done].
    rewrite Forall_forall in Hf |- *. intros x Hx. destruct (Hf x Hx) as (? & ? & ? & ?).
    split_and!; try done. cbn. rewrite lookup_insert_ne; [done |].
    intros E. apply H5. rewrite E. by apply list_elem_of_fmap_2.
Qed.

Lemma append_slot_ok h s ns m rest :
  slot_ok s ns -> owned h (m :: ns ++ rest) -> next_record (n_rec m) = NULL ->
  Z.of_nat (length ns) < INT_MAX ->
  exists s', append_slot (n_ptr m) s h = Some (s', link_tail ns (n_ptr m) h) /\ slot_ok s' (snoc ns m).
Proof.
  intros (Hl & Ht & Hs) Ho Hn Hlt.
  assert (forall n, n ∈ ns -> node_in h n) as Hlive.
  { intros n Hin. destruct Ho as (Hf & _). rewrite Forall_forall in Hf. apply Hf.
    rewrite elem_of_cons, elem_of_app. auto. }
  unfold append_slot. rewrite Ht, Hs. rewrite (proj2 (Z.leb_gt _ _) Hlt).
  assert ((if last_ptr ns =? NULL then Some h else
          r ← h_records h !! last_ptr ns;
          Some (mkHeap (<[last_ptr ns := set_next_record (n_ptr m) r]> (h_records h)) (h_buffers h) (h_brk h)))
          = Some (link_tail ns (n_ptr m) h)) as ->.
  { unfold last_ptr, link_tail. destruct (last ns) as [n|] eqn:E; [| done]. cbn.
    destruct (Hlive n) as (Hp & _ & Hr & _).
    { apply last_Some in E as [l ->]. rewrite elem_of_app, list_elem_of_singleton. auto. }
    by rewrite (proj2 (Z.eqb_neq _ _) Hp), Hr. }
  cbn. eexists. split; [reflexivity |]. split_and!; cbn.
  - destruct (linked_snoc _ _ _ Hl Hn) as [? | (n & Hin & E)]; [done |].
    apply list_elem_of_In, Hlive in Hin as [Hp _]. done.
  - by rewrite last_ptr_snoc'.
  - rewrite snoc_length. lia.
Qed.

(** *** The array of slots *)

Lemma init_slots_ok n l l' :
  length l' = n -> init_slots n (length l) (l ++ l') = Some (l ++ replicate n empty_slot).
Proof.
  revert l l'. induction n as [|n IH]; intros l l' Hl.
  - by rewrite (nil_length_inv _ Hl).
  - destruct l' as [|x l']; [done |]. cbn in Hl. cbn [init_slots].
    unfold set_slot. rewrite decide_True by (rewrite length_app; cbn; lia). cbn [mbind option_bind].
    replace (<[length l:=empty_slot]> (l ++ x :: l')) with ((l ++ [empty_slot]) ++ l').
    2: { rewrite <- (Nat.add_0_r (length l)), insert_app_r. by rewrite <- app_assoc. }
    replace (length l + 1)%nat with (length (l ++ [empty_slot])) by (rewrite length_app; done).
    rewrite IH by lia. rewrite <- app_assoc. done.
Qed.

Lemma concat_replicate_nil {A} n : concat (replicate n ([] : list A)) = [].
Proof. induction n; cbn; auto. Qed.

Lemma blank_slot_ok : slot_ok empty_slot [].
Proof. done. Qed.

Lemma initialize_ok junk name n h :
  0 < n ->
  exists ml, hustle_memlog_initialize junk name n = Some (MEMLOG_OK, Some ml) /\
    log_ok h ml (replicate (Z.to_nat n) []) /\ db_name ml = name.
Proof.
  intros Hn. unfold hustle_memlog_initialize. rewrite (proj2 (Z.leb_gt _ _) Hn).
  pose proof (init_slots_ok (Z.to_nat n) [] (replicate (Z.to_nat n) junk)) as E.
  cbn [length app] in E. rewrite E by apply length_replicate. cbn [mbind option_bind].
  eexists. split; [reflexivity |]. split; [| done]. split_and!; cbn.
  - rewrite length_replicate. lia.
  - apply Forall2_replicate, blank_slot_ok.
  - rewrite concat_replicate_nil. split_and!; constructor.
Qed.

Definition extend (table_id : nat) (nss : list (list Node)) : list (list Node) :=
  if decide (table_id < length nss)%nat then nss
  else nss ++ replicate (2 * table_id - length nss) [].

Lemma extend_concat table_id nss : concat (extend table_id nss) = concat nss.
Proof.
  unfold extend. case_decide; [done |]. by rewrite concat_app, concat_replicate_nil, app_nil_r.
Qed.

Lemma extend_length table_id nss : (0 < length nss)%nat -> (table_id < length (extend table_id nss))%nat.
Proof.
  intros H. unfold extend. case_decide; [done |]. rewrite length_app, length_replicate. lia.
Qed.

Lemma grow_ok junk table_id ml h nss :
  log_ok h ml nss -> (0 < length nss)%nat -> 2 * Z.of_nat table_id <= INT_MAX ->
  exists ml', grow junk (Z.of_nat table_id) ml = Some ml' /\
    log_ok h ml' (extend table_id nss) /\ db_name ml' = db_name ml.
Proof.
  intros (Ht & Hs & Ho) Hpos Hmax. unfold grow, extend.
  pose proof (Forall2_length _ _ _ Hs) as Hlen.
  rewrite Ht. destruct (Z.leb_spec (Z.of_nat (length nss)) (Z.of_nat table_id)) as [Hge | Hlt].
  2: { rewrite decide_True by lia. exists ml. by split_and!. }
  rewrite decide_False by lia.
  rewrite (proj2 (Z.ltb_ge _ _) Hmax).
  replace (Z.to_nat (2 * Z.of_nat table_id)) with (2 * table_id)%nat by lia.
  rewrite take_ge by (rewrite length_app, length_replicate; lia).
  replace (Z.to_nat (2 * Z.of_nat table_id - Z.of_nat (length nss)))
    with (2 * table_id - length nss)%nat by lia.
  rewrite Nat2Z.id, <- Hlen.
  rewrite init_slots_ok by apply length_replicate. cbn [mbind option_bind].
  eexists. split; [reflexivity |]. split; [| done]. split_and!; cbn [total_size record_list].
  - rewrite length_app, length_replicate. lia.
  - apply Forall2_app; [done |]. apply Forall2_replicate, blank_slot_ok.
  - by rewrite concat_app, concat_replicate_nil, app_nil_r.
Qed.

(** *** Insertion and creation *)

Lemma concat_alter_perm {A} (f : list A -> list A) i (ls : list (list A)) xs :
  ls !! i = Some xs ->
  exists rest, concat ls ≡ₚ xs ++ rest /\ concat (alter f i ls) ≡ₚ f xs ++ rest.
Proof.
  intros E. apply list_elem_of_split_length in E as (l1 & l2 & -> & ->).
  rewrite alter_app_r_alt by done. rewrite Nat.sub_diag. cbn.
  exists (concat l1 ++ concat l2). rewrite !concat_app. cbn. split; solve_Permutation.
Qed.

Lemma Forall2_alter_r {A B} (P : A -> B -> Prop) l k f i x y x' :
  Forall2 P l k -> l !! i = Some x -> k !! i = Some y -> P x' (f y) ->
  Forall2 P (<[i := x']> l) (alter f i k).
Proof.
  intros H. revert i. induction H as [|a b l k Hab H IH]; intros [|i] Hx Hy HP;
    simplify_eq/=; constructor; auto.
Qed.

Lemma insert_ok junk ml h nss m table_id :
  log_ok h ml nss -> (0 < length nss)%nat -> 2 * Z.of_nat table_id <= INT_MAX ->
  owned h (m :: concat nss) -> next_record (n_rec m) = NULL ->
  Z.of_nat (length (concat nss)) < INT_MAX ->
  exists ml' h',
    hustle_memlog_insert_record junk (Some ml) (n_ptr m) (Z.of_nat table_id) h =
      Some (MEMLOG_OK, Some ml', h') /\
    log_ok h' ml' (alter (fun ns => snoc ns m) table_id (extend table_id nss)) /\
    db_name ml' = db_name ml /\ h_brk h' = h_brk h /\
    dom (h_records h') = dom (h_records h) /\ h_buffers h' = h_buffers h.
Proof.
  intros Hok Hpos Hmax Hm Hnext Hlen. cbn [hustle_memlog_insert_record].
  assert (n_ptr m <> NULL) as Hp by (apply owned_cons in Hm as [[? _] _]; done).
  rewrite (proj2 (Z.eqb_neq _ _) Hp).
  destruct (grow_ok junk table_id ml h nss Hok Hpos Hmax) as (ml1 & -> & (Ht & Hs & Ho) & Hname).
  cbn [mbind option_bind].
  rewrite (proj2 (Z.ltb_ge (Z.of_nat table_id) 0)) by lia. rewrite Nat2Z.id.
  destruct (lookup_lt_is_Some_2 (extend table_id nss) table_id) as [ns Hns].
  { by apply extend_length. }
  destruct (Forall2_lookup_r _ _ _ _ _ Hs Hns) as (s & Hsl & Hslot). rewrite Hsl. cbn [mbind option_bind].
  destruct (concat_alter_perm (fun ns => snoc ns m) _ _ _ Hns) as (rest & P1 & P2).
  rewrite extend_concat in P1.
  assert (owned h (m :: ns ++ rest)) as Hm'.
  { eapply owned_Permutation; [| exact Hm]. by rewrite P1. }
  destruct (append_slot_ok h s ns m rest Hslot Hm' Hnext) as (s' & -> & Hs').
  { apply Permutation_length in P1. rewrite length_app in P1. lia. }
  cbn. do 2 eexists. split; [reflexivity |]. split; [split_and! | split_and!].
  - rewrite length_alter. done.
  - by eapply Forall2_alter_r.
  - cbn. eapply owned_Permutation; [exact P2 |]. by apply owned_snoc.
  - done.
  - unfold link_tail. by destruct (last ns).
  - unfold link_tail. destruct (last ns) as [n|] eqn:E; [| done]. cbn.
    apply dom_insert_lookup_L. apply last_Some in E as [l ->].
    destruct Hm' as (Hf & _). rewrite Forall_forall in Hf.
    destruct (Hf n) as (_ & _ & -> & _); [| eauto].
    rewrite elem_of_cons, !elem_of_app, list_elem_of_singleton. auto.
  - unfold link_tail. by destruct (last ns).
Qed.

(** What [hustle_memlog_create_record] allocates: a node with a buffer of its
    own, unlinked. *)
Definition new_node (mode rowId nData : Z) (bs : list Z) (h : Heap) : Node :=
  mkNode (h_brk h + 1) (mkDBRecord mode rowId nData (h_brk h) 0 None NULL) bs.

Definition alloc_node (m : Node) (h : Heap) : Heap :=
  mkHeap (<[n_ptr m := n_rec m]> (h_records h)) (<[n_buf m := n_bytes m]> (h_buffers h)) (h_brk h + 2).

Lemma create_ok mode rowId src nData h bs :
  (src = None -> mode = MEMLOG_HUSTLE_DELETE) -> memcpy_from src nData = Some bs ->
  let m := new_node mode rowId nData bs h in
  hustle_memlog_create_record mode rowId src nData h = Some (n_ptr m, alloc_node m h).
Proof.
  intros Hsrc Hbs m. unfold hustle_memlog_create_record.
  destruct src as [b|].
  - rewrite Hbs. cbn. unfold malloc_record, alloc_node. cbn. by rewrite <- Z.add_assoc.
  - rewrite Hsrc by done. rewrite Hbs. cbn. unfold malloc_record, alloc_node. cbn.
    by rewrite Hsrc, <- Z.add_assoc.
Qed.

Lemma heap_ok_fresh h : heap_ok h ->
  (forall k, 0 <= k -> h_records h !! (h_brk h + k) = None /\ h_buffers h !! (h_brk h + k) = None).
Proof.
  intros (Hk & Hr & Hb) k Hpos. split.
  - destruct (h_records h !! _) eqn:E; [| done]. apply Hr in E. lia.
  - destruct (h_buffers h !! _) eqn:E; [| done]. apply Hb in E. lia.
Qed.

Lemma heap_ok_alloc mode rowId nData bs h :
  heap_ok h -> heap_ok (alloc_node (new_node mode rowId nData bs h) h).
Proof.
  intros (Hk & Hr & Hb). unfold heap_ok. cbn. split_and!; [lia | |];
    (apply map_Forall_insert_2; [unfold n_buf; cbn; lia |]);
    intros p x E; [apply Hr in E | apply Hb in E]; lia.
Qed.

Lemma owned_alloc mode rowId nData bs h ns :
  let m := new_node mode rowId nData bs h in
  heap_ok h -> owned h ns -> owned (alloc_node m h) (m :: ns).
Proof.
  intros m Hh Ho. pose proof (heap_ok_fresh h Hh) as Hf. destruct Hh as (Hk & _ & _).
  destruct (Hf 0) as [_ Hf0]; [lia |]. destruct (Hf 1) as [Hf1 _]; [lia |].
  rewrite Z.add_0_r in Hf0.
  destruct Ho as (Hn & Hd1 & Hd2). rewrite Forall_forall in Hn.
  assert (Hp : forall n, n ∈ ns -> n_ptr n <> n_ptr m).
  { intros n Hin E. destruct (Hn n Hin) as (_ & _ & Hr & _). rewrite E in Hr. cbn in Hr. congruence. }
  assert (Hb : forall n, n ∈ ns -> n_buf n <> n_buf m).
  { intros n Hin E. destruct (Hn n Hin) as (_ & _ & _ & Hr). rewrite E in Hr.
    unfold n_buf in Hr; cbn in Hr. congruence. }
  rewrite owned_cons. split_and!.
  - unfold node_in, NULL. cbn [h_records h_buffers alloc_node]. rewrite !lookup_insert_eq.
    unfold n_buf; cbn. split_and!; try done; lia.
  - rewrite list_elem_of_fmap. intros (n & E & Hin). by apply (Hp n Hin).
  - rewrite list_elem_of_fmap. intros (n & E & Hin). by apply (Hb n Hin).
  - split_and!; [| done | done]. rewrite Forall_forall. intros n Hin.
    destruct (Hn n Hin) as (? & ? & ? & ?). split_and!; [done | done | |].
    + cbn [h_records alloc_node]. rewrite lookup_insert_ne by (by apply not_eq_sym, Hp). done.
    + cbn [h_buffers alloc_node]. rewrite lookup_insert_ne by (by apply not_eq_sym, Hb). done.
Qed.

(** *** Commit and clear *)

Section Operations.
Context {C T : Type} {St : Storage C T}.

Lemma apply_record_ok t h n c :
  node_in h n -> apply_record t h (n_rec n) c = apply_entry t (entry n) c.
Proof.
  intros (_ & _ & _ & Hb). unfold apply_record, apply_entry, entry. cbn.
  destruct (mode (n_rec n) =? MEMLOG_HUSTLE_DELETE); [done |].
  unfold n_buf in Hb. by rewrite Hb.
Qed.

Lemma replay_chain_ok fuel is_free t hd h ns c :
  linked hd ns -> owned h ns -> (length ns <= fuel)%nat ->
  replay_chain fuel is_free t hd h c =
  (fun c' => (free_if is_free h ns, c')) <$> replay entry t ns c.
Proof.
  revert hd h ns c. induction fuel as [|fuel IH]; intros hd h ns c Hl Ho Hlen.
  { destruct ns; [| cbn in Hlen; lia]. cbn in Hl. subst hd. cbn. by destruct is_free. }
  destruct ns as [|n ns]; cbn in Hl.
  { subst hd. cbn. by destruct is_free. }
  destruct Hl as [-> Hl].
  pose proof (proj1 (owned_cons _ _ _) Ho) as (Hn & _ & _ & Ho').
  cbn [replay_chain replay]. destruct Hn as (Hp & Hb & Hr & Hd).
  rewrite (proj2 (Z.eqb_neq _ _) Hp), Hr. cbn [mbind option_bind].
  rewrite apply_record_ok by done.
  destruct (apply_entry t (entry n) c) as [c'|]; [| done]. cbn [mbind option_bind].
  destruct is_free.
  - rewrite free_node_code by done. cbn [mbind option_bind].
    rewrite (IH _ _ ns); [done | done | by apply owned_free_node | cbn in Hlen; lia].
  - cbn [mbind option_bind]. rewrite (IH _ _ ns); [done | done | done | cbn in Hlen; lia].
Qed.

Lemma free_chain_ok fuel hd h ns :
  linked hd ns -> owned h ns -> (length ns <= fuel)%nat ->
  free_chain fuel hd h = Some (free_nodes h ns).
Proof.
  revert hd h ns. induction fuel as [|fuel IH]; intros hd h ns Hl Ho Hlen.
  { destruct ns; [| cbn in Hlen; lia]. cbn in Hl. by subst hd. }
  destruct ns as [|n ns]; cbn in Hl.
  { by subst hd. }
  destruct Hl as [-> Hl].
  pose proof (proj1 (owned_cons _ _ _) Ho) as (Hn & _ & _ & Ho').
  cbn [free_chain]. pose proof Hn as (Hp & Hb & Hr & Hd).
  rewrite (proj2 (Z.eqb_neq _ _) Hp), Hr. cbn [mbind option_bind].
  pose proof (free_node_code h n Hn) as E. unfold n_buf in E.
  destruct (free_buffer (data (n_rec n)) h) as [h1|]; [| done]. cbn in E |- *. rewrite E. cbn.
  rewrite (IH _ _ ns); [done | done | by apply owned_free_node | cbn in Hlen; lia].
Qed.

Lemma set_slot_app sp s sq s' :
  set_slot (length sp) s' (sp ++ s :: sq) = Some (sp ++ s' :: sq).
Proof.
  unfold set_slot. rewrite decide_True by (rewrite length_app; cbn; lia).
  f_equal. rewrite <- (Nat.add_0_r (length sp)). by rewrite insert_app_r.
Qed.

(** The commit of one slot, on a log whose earlier slots are done. *)
Lemma update_table_ok tm f sp s sq sz db ns rest h c :
  slot_ok s ns -> owned h (ns ++ rest) ->
  match commit_table entry tm db (length sp) ns c with
  | None => update_table tm f (length sp) (mkHustleMemLog (sp ++ s :: sq) sz db) h c = None
  | Some (ns', c') =>
      exists s' freed, ns = freed ++ ns' /\ slot_ok s' ns' /\
        update_table tm f (length sp) (mkHustleMemLog (sp ++ s :: sq) sz db) h c =
        Some (mkHustleMemLog (sp ++ s' :: sq) sz db, free_if f h freed, c')
  end.
Proof.
  intros (Hl & Ht & Hs) Ho. unfold commit_table, update_table.
  cbn [record_list db_name total_size].
  rewrite list_lookup_middle by done. cbn [mbind option_bind].
  assert (forall h', h' = free_if f h' []) as Hnil by (by destruct f).
  destruct (map_find _ _) as [name|].
  2: { exists s, []. split_and!; [done | done | by rewrite <- Hnil]. }
  destruct (GetTable db name c) as [[t|]|]; cbn [mbind option_bind]; [| | done].
  2: { exists s, []. split_and!; [done | done | by rewrite <- Hnil]. }
  rewrite (replay_chain_ok _ _ _ _ _ ns);
    [| done | by eapply owned_app_l | apply owned_fuel; by eapply owned_app_l].
  destruct (replay entry t ns c) as [c'|]; cbn [fmap option_fmap option_map mbind option_bind]; [| done].
  exists empty_slot, ns. rewrite app_nil_r. split_and!; [done.. |].
  by rewrite set_slot_app.
Qed.

Lemma update_tables_ok tm f db sz nss sp sq h c :
  Forall2 slot_ok sq nss -> owned h (concat nss) ->
  match commit entry tm db (length sp) nss c with
  | None => update_tables (length nss) (length sp) tm f (mkHustleMemLog (sp ++ sq) sz db) h c = None
  | Some (nss', c') =>
      exists sq' freed, Forall2 slot_ok sq' nss' /\ concat nss ≡ₚ freed ++ concat nss' /\
        update_tables (length nss) (length sp) tm f (mkHustleMemLog (sp ++ sq) sz db) h c =
        Some (mkHustleMemLog (sp ++ sq') sz db, free_if f h freed, c')
  end.
Proof.
  revert sp sq h c. induction nss as [|ns nss IH]; intros sp sq h c Hs Ho.
  { inversion Hs; subst. exists [], []. split_and!; [constructor | done | by destruct f]. }
  inversion Hs as [|s ? sq' ? Hslot Hrest]; subst. cbn [concat] in Ho. cbn [commit length update_tables].
  pose proof (update_table_ok tm f sp s sq' sz db ns _ h c Hslot Ho) as Hu.
  destruct (commit_table entry tm db (length sp) ns c) as [[ns' c1]|]; cbn [mbind option_bind].
  2: { by rewrite Hu. }
  destruct Hu as (s' & freed & -> & Hs' & ->). cbn [mbind option_bind].
  rewrite <- app_assoc in Ho. apply owned_free_if with (f := f) in Ho.
  replace (sp ++ s' :: sq') with ((sp ++ [s']) ++ sq') by (by rewrite <- app_assoc).
  specialize (IH (sp ++ [s']) sq' (free_if f h freed) c1 Hrest (owned_app_r _ _ _ Ho)).
  rewrite length_app in IH. cbn [length] in IH.
  destruct (commit entry tm db (length sp + 1) nss c1) as [[nss' c2]|]; cbn [mbind option_bind].
  - destruct IH as (sq2 & freed2 & H1 & H2 & ->).
    exists (s' :: sq2), (freed ++ freed2). split_and!; [by constructor | |].
    + cbn [concat]. rewrite H2. solve_Permutation.
    + rewrite <- app_assoc. destruct f; cbn; [by rewrite free_nodes_app | done].
  - by rewrite IH.
Qed.

Lemma clear_tables_ok db sz nss sp sq h :
  Forall2 slot_ok sq nss -> owned h (concat nss) ->
  clear_tables (length nss) (length sp) (mkHustleMemLog (sp ++ sq) sz db) h =
  Some (mkHustleMemLog (sp ++ replicate (length nss) empty_slot) sz db, free_nodes h (concat nss)).
Proof.
  revert sp sq h. induction nss as [|ns nss IH]; intros sp sq h Hs Ho.
  { inversion Hs; subst. done. }
  inversion Hs as [|s ? sq' ? (Hl & Ht & Hc) Hrest]; subst. cbn [concat] in Ho. cbn [length clear_tables].
  cbn [record_list total_size db_name]. rewrite list_lookup_middle by done. cbn [mbind option_bind].
  rewrite (free_chain_ok _ _ _ ns);
    [| done | by eapply owned_app_l | apply owned_fuel; by eapply owned_app_l].
  cbn [mbind option_bind]. rewrite set_slot_app. cbn [mbind option_bind].
  replace (sp ++ empty_slot :: sq') with ((sp ++ [empty_slot]) ++ sq') by (by rewrite <- app_assoc).
  specialize (IH (sp ++ [empty_slot]) sq' _ Hrest (owned_free_nodes _ _ _ Ho)).
  rewrite length_app in IH. cbn [length] in IH. rewrite IH.
  by rewrite <- app_assoc, <- free_nodes_app.
Qed.

End Operations.

End Repr.

Import Repr.

(** ** Sequences of operations

    What the SQLite hooks do with one connection's log: record a row change
    (create a record and insert it), add or drop a table, commit, roll back. *)

Module System.

Inductive Op :=
| OpRecord (mode rowId : Z) (src : option (list Z)) (nData : Z) (table_id : nat)
| OpAddTable (root_page_id : Z) (name : string)
| OpDropTable (name : string)
| OpCommit (is_free : bool)
| OpRollback.

Section Runs.
Context {C T : Type} {St : Storage C T}.

Record ImplState := mkImpl {
  i_log : option HustleMemLog; i_heap : Heap; i_map : table_map_t; i_storage : C }.

Record SpecState := mkSpec { s_log : list (list Entry); s_map : table_map_t; s_storage : C }.

Definition impl_step (junk : DBRecordList) (db : string) (op : Op) (st : ImplState) : option ImplState :=
  let '(mkImpl ml h tm c) := st in
  match op with
  | OpRecord m r src n tid =>
      '(p, h) ← hustle_memlog_create_record m r src n h;
      '(_, ml, h) ← hustle_memlog_insert_record junk ml p (Z.of_nat tid) h;
      Some (mkImpl ml h tm c)
  | OpAddTable root name => Some (mkImpl ml h (memlog_add_table_mapping DEFAULT_DB_ID root name tm) c)
  | OpDropTable name =>
      '(tm, c) ← memlog_remove_table_mapping DEFAULT_DB_ID db name tm c;
      Some (mkImpl ml h tm c)
  | OpCommit f =>
      '(_, ml, h, c) ← hustle_memlog_update_db tm ml f h c;
      Some (mkImpl ml h tm c)
  | OpRollback =>
      '(_, ml, h) ← hustle_memlog_clear ml h;
      Some (mkImpl ml h tm c)
  end.

Definition spec_step (db : string) (op : Op) (st : SpecState) : option SpecState :=
  let '(mkSpec log tm c) := st in
  match op with
  | OpRecord m r src n tid =>
      if bool_decide (src = None) && negb (m =? MEMLOG_HUSTLE_DELETE) then None else
      bs ← memcpy_from src n;
      Some (mkSpec (append tid (mkEntry m r bs 0 None) log) tm c)
  | OpAddTable root name => Some (mkSpec log (memlog_add_table_mapping DEFAULT_DB_ID root name tm) c)
  | OpDropTable name =>
      '(tm, c) ← memlog_remove_table_mapping DEFAULT_DB_ID db name tm c;
      Some (mkSpec log tm c)
  | OpCommit _ =>
      '(log, c) ← commit id tm db 0 log c;
      Some (mkSpec log tm c)
  | OpRollback => Some (mkSpec (replicate (length log) []) tm c)
  end.

Fixpoint run {A} (step : Op -> A -> option A) (ops : list Op) (st : A) : option A :=
  match ops with
  | [] => Some st
  | op :: ops' => st' ← step op st; run step ops' st'
  end.

(** Root pages whose doubling does not overflow an [int]. *)
Definition op_ok (op : Op) : Prop :=
  match op with OpRecord _ _ _ _ tid => 2 * Z.of_nat tid <= INT_MAX | _ => True end.

Definition frees (op : Op) : Prop := match op with OpCommit f => f = true | _ => True end.

(** The simulation relation; [k] bounds the number of pending records, [tight]
    says that every commit so far freed its records. *)
Definition related (db : string) (k : nat) (tight : Prop) (st : ImplState) (sp : SpecState) : Prop :=
  exists ml nss,
    i_log st = Some ml /\ db_name ml = db /\ log_ok (i_heap st) ml nss /\
    map (map entry) nss = s_log sp /\ (0 < length nss)%nat /\
    (length (concat nss) <= k)%nat /\ heap_ok (i_heap st) /\
    (tight -> no_leak (i_heap st) (concat nss)) /\
    i_map st = s_map sp /\ i_storage st = s_storage sp.

(** A table without mapping keeps its entries through a commit. *)
Lemma commit_unmapped {A} (e : A -> Entry) tm db i j nss c nss' c' ns :
  commit e tm db i nss c = Some (nss', c') -> nss !! j = Some ns ->
  map_find (Z.of_nat (i + j)) (sub_map DEFAULT_DB_ID tm) = None -> nss' !! j = Some ns.
Proof.
  revert i j c nss' c'. induction nss as [|x nss IH]; intros i j c nss' c' H Hj Hm; [done |].
  cbn in H. destruct (commit_table e tm db i x c) as [[ns1 c1]|] eqn:Et; cbn in H; [| done].
  destruct (commit e tm db (i + 1) nss c1) as [[nss1 c2]|] eqn:E; cbn in H; [| done].
  injection H as <- <-. destruct j as [|j]; cbn in Hj |- *.
  - rewrite Nat.add_0_r in Hm. unfold commit_table in Et. rewrite Hm in Et. congruence.
  - eapply IH; [done | done |]. by replace (i + 1 + j)%nat with (i + S j)%nat by lia.
Qed.

(** *** Entries and pointers of the appended log *)

Lemma map_alter {A B} (f : A -> B) (g : A -> A) (g' : B -> B) i l :
  (forall x, f (g x) = g' (f x)) -> map f (alter g i l) = alter g' i (map f l).
Proof.
  intros H. revert i. induction l as [|x l IH]; intros [|i]; cbn; [done.. | by rewrite H |].
  f_equal. apply IH.
Qed.

Lemma append_entries nss tid m :
  map (map entry) (alter (fun ns => snoc ns m) tid (extend tid nss)) =
  append tid (entry m) (map (map entry) nss).
Proof.
  unfold append. rewrite (map_alter _ _ (fun es => es ++ [entry m])).
  2: { intros ns. apply snoc_entries. }
  f_equal. unfold extend. rewrite length_map. case_decide; [done |].
  rewrite map_app. f_equal. apply (fmap_replicate (map entry) _ []).
Qed.

Lemma snoc_map_ptr {A} (f : Node -> A) ns m :
  (forall q n, f (relink q n) = f n) -> map f (snoc ns m) = map f ns ++ [f m].
Proof.
  intros Hf. destruct (list_snoc_cases ns) as [-> | (ns' & n & ->)]; [done |].
  rewrite snoc_app, !map_app, <- app_assoc. cbn. by rewrite Hf.
Qed.

Lemma appended_ptrs {A} (f : Node -> A) nss tid m :
  (forall q n, f (relink q n) = f n) -> (0 < length nss)%nat ->
  map f (concat (alter (fun ns => snoc ns m) tid (extend tid nss))) ≡ₚ f m :: map f (concat nss).
Proof.
  intros Hf Hpos.
  destruct (lookup_lt_is_Some_2 (extend tid nss) tid) as [ns Hns]; [by apply extend_length |].
  destruct (concat_alter_perm (fun ns => snoc ns m) _ _ _ Hns) as (rest & P1 & P2).
  rewrite extend_concat in P1.
  rewrite (Permutation_map f P2), (Permutation_map f P1), !map_app, snoc_map_ptr by done.
  solve_Permutation.
Qed.

Lemma commit_length {A} (e : A -> Entry) tm db i nss c nss' c' :
  commit e tm db i nss c = Some (nss', c') -> length nss' = length nss.
Proof.
  revert i c nss' c'. induction nss as [|ns nss IH]; intros i c nss' c'; cbn; intros H.
  - by simplify_eq.
  - destruct (commit_table e tm db i ns c) as [[ns1 c1]|]; cbn in H; [| done].
    destruct (commit e tm db (i + 1) nss c1) as [[nss1 c2]|] eqn:E; cbn in H; [| done].
    simplify_eq/=. f_equal. eauto.
Qed.

(** *** The steps simulate *)

Lemma no_leak_append (tight : Prop) h h' nss tid m r n bs :
  (tight -> no_leak h (concat nss)) -> (0 < length nss)%nat ->
  let m := new_node m r n bs h in
  dom (h_records h') = dom (h_records (alloc_node m h)) -> h_buffers h' = h_buffers (alloc_node m h) ->
  tight -> no_leak h' (concat (alter (fun ns => snoc ns m) tid (extend tid nss))).
Proof.
  intros Hn Hpos m' Hr Hb Ht. destruct (Hn Ht) as [N1 N2]. split; intros p Hp.
  - rewrite (appended_ptrs n_ptr) by done. apply elem_of_dom in Hp. rewrite Hr in Hp.
    cbn [h_records alloc_node] in Hp. rewrite dom_insert_L, elem_of_union, elem_of_singleton in Hp.
    rewrite elem_of_cons. destruct Hp as [-> | Hp]; [by left | right].
    by apply N1, elem_of_dom.
  - rewrite (appended_ptrs n_buf) by done. rewrite Hb in Hp.
    cbn [h_buffers alloc_node] in Hp. apply lookup_insert_is_Some in Hp.
    rewrite elem_of_cons. destruct Hp as [<- | [_ Hp]]; [by left | right]. by apply N2.
Qed.

Lemma sim_record junk db k tight st sp m r src n tid :
  related db k tight st sp -> 2 * Z.of_nat tid <= INT_MAX -> Z.of_nat k < INT_MAX ->
  match spec_step db (OpRecord m r src n tid) sp with
  | None => impl_step junk db (OpRecord m r src n tid) st = None
  | Some sp' => exists st', impl_step junk db (OpRecord m r src n tid) st = Some st' /\
                  related db (S k) tight st' sp'
  end.
Proof.
  destruct st as [ml h tm c], sp as [log tm' c'].
  intros (ml0 & nss & Hml & Hdb & Hok & Habs & Hpos & Hk & Hh & Hnl & Hm & Hc) Htid Hmax.
  cbn in Hml, Hok, Habs, Hh, Hnl, Hm, Hc. subst ml tm' c'. cbn [spec_step impl_step].
  destruct (bool_decide (src = None) && negb (m =? MEMLOG_HUSTLE_DELETE)) eqn:Enull.
  { apply andb_true_iff in Enull as [E1 E2]. apply bool_decide_eq_true in E1 as ->.
    cbn [hustle_memlog_create_record]. rewrite E2. cbn. done. }
  destruct (memcpy_from src n) as [bs|] eqn:Ecpy; cbn [mbind option_bind].
  2: { unfold hustle_memlog_create_record. rewrite Ecpy.
       destruct src; [done |]. cbn in Enull. rewrite Enull. by rewrite Ecpy. }
  rewrite (create_ok m r src n h bs); [| | done].
  2: { intros ->. cbn in Enull. apply negb_false_iff, Z.eqb_eq in Enull. done. }
  set (nd := new_node m r n bs h). cbn [mbind option_bind].
  pose proof (owned_alloc m r n bs h _ Hh (proj2 (proj2 Hok))) as Ho. fold nd in Ho.
  destruct (insert_ok junk ml0 (alloc_node nd h) nss nd tid) as (ml' & h' & -> & Hok' & Hn & Hb & Hd & Hbuf);
    [| done | done | done | done | lia |].
  { destruct Hok as (? & ? & ?). split_and!; [done | done |].
    by apply owned_cons in Ho as (_ & _ & _ & Ho). }
  cbn [mbind option_bind]. eexists. split; [reflexivity |].
  exists ml', (alter (fun ns => snoc ns nd) tid (extend tid nss)).
  cbn [i_log i_heap i_map i_storage s_log s_map s_storage].
  split_and!; try done; try congruence.
  - rewrite append_entries. by rewrite Habs.
  - rewrite length_alter. pose proof (extend_length tid nss Hpos). lia.
  - pose proof (Permutation_length (appended_ptrs n_ptr nss tid nd (fun _ _ => eq_refl) Hpos)) as E.
    cbn [length] in E. rewrite !length_map in E. lia.
  - destruct (heap_ok_alloc m r n bs h Hh) as (B1 & B2 & B3). fold nd in B1, B2, B3.
    unfold heap_ok. rewrite Hb, Hbuf. split_and!; [done | | done].
    intros p x E. assert (is_Some (h_records (alloc_node nd h) !! p)) as [y Ey].
    { apply elem_of_dom. rewrite <- Hd. apply elem_of_dom. eauto. }
    by apply B2 in Ey.
  - by eapply no_leak_append.
Qed.

Lemma sim_commit junk db k (tight : Prop) st sp f :
  related db k tight st sp -> (tight -> f = true) ->
  match spec_step db (OpCommit f) sp with
  | None => impl_step junk db (OpCommit f) st = None
  | Some sp' => exists st', impl_step junk db (OpCommit f) st = Some st' /\ related db k tight st' sp'
  end.
Proof.
  destruct st as [ml h tm c], sp as [log tm' c'].
  intros (ml0 & nss & Hml & Hdb & (Ht & Hs & Ho) & Habs & Hpos & Hk & Hh & Hnl & Hm & Hc) Hf.
  cbn in Hml, Ht, Hs, Ho, Habs, Hh, Hnl, Hm, Hc. subst ml tm' c' log db. cbn [spec_step impl_step].
  rewrite commit_fmap. cbn [hustle_memlog_update_db]. rewrite Ht, Nat2Z.id.
  pose proof (update_tables_ok tm f (db_name ml0) (total_size ml0) nss [] (record_list ml0) h c Hs Ho) as Hu.
  cbn [length app] in Hu. replace (mkHustleMemLog _ _ _) with ml0 in Hu by (by destruct ml0).
  destruct (commit entry tm (db_name ml0) 0 nss c) as [[nss' c']|] eqn:Ec;
    cbn [fmap option_fmap option_map mbind option_bind prod_map fst snd].
  2: { by rewrite Hu. }
  destruct Hu as (sq' & freed & Hs' & HP & ->). cbn [mbind option_bind].
  eexists. split; [reflexivity |]. pose proof (commit_length _ _ _ _ _ _ _ _ Ec) as Hlen.
  exists (mkHustleMemLog sq' (total_size ml0) (db_name ml0)), nss'.
  rewrite (owned_Permutation _ _ _ HP) in Ho.
  cbn [i_log i_heap i_map i_storage s_log s_map s_storage].
  split_and!; try done.
  - split_and!; cbn [total_size record_list]; [lia | done |]. by apply owned_free_if.
  - lia.
  - apply Permutation_length in HP. rewrite length_app in HP. lia.
  - destruct f; [by apply heap_ok_free_nodes | done].
  - intros Htight. rewrite (Hf Htight). cbn. apply no_leak_free_nodes.
    apply (no_leak_Permutation _ _ _ HP). auto.
Qed.

Lemma clear_ok ml nss h :
  log_ok h ml nss ->
  hustle_memlog_clear (Some ml) h =
  Some (MEMLOG_OK,
        Some (mkHustleMemLog (replicate (length nss) empty_slot) (total_size ml) (db_name ml)),
        free_nodes h (concat nss)).
Proof.
  intros (Ht & Hs & Ho). cbn [hustle_memlog_clear]. rewrite Ht, Nat2Z.id.
  pose proof (clear_tables_ok (db_name ml) (total_size ml) nss [] (record_list ml) h Hs Ho) as Hc.
  cbn [length app] in Hc. replace (mkHustleMemLog (record_list ml) _ _) with ml in Hc by (by destruct ml).
  rewrite Hc. cbn [mbind option_bind]. by rewrite Ht.
Qed.

Lemma log_ok_cleared h db n :
  log_ok h (mkHustleMemLog (replicate n empty_slot) (Z.of_nat n) db) (replicate n []).
Proof.
  split_and!; cbn [total_size record_list].
  - by rewrite length_replicate.
  - apply Forall2_replicate, blank_slot_ok.
  - rewrite concat_replicate_nil. split_and!; constructor.
Qed.

Lemma sim_rollback junk db k (tight : Prop) st sp :
  related db k tight st sp ->
  match spec_step db OpRollback sp with
  | None => impl_step junk db OpRollback st = None
  | Some sp' => exists st', impl_step junk db OpRollback st = Some st' /\ related db k tight st' sp'
  end.
Proof.
  destruct st as [ml h tm c], sp as [log tm' c'].
  intros (ml0 & nss & Hml & Hdb & Hok & Habs & Hpos & Hk & Hh & Hnl & Hm & Hc).
  cbn in Hml, Hok, Habs, Hh, Hnl, Hm, Hc. subst ml tm' c' log db. cbn [spec_step impl_step].
  rewrite (clear_ok _ nss) by done. cbn [mbind option_bind]. eexists. split; [reflexivity |].
  destruct Hok as (Ht & _ & _). rewrite Ht, length_map.
  do 2 eexists. cbn [i_log i_heap i_map i_storage s_log s_map s_storage].
  split_and!; [reflexivity | reflexivity | apply log_ok_cleared | | | | | | done | done].
  - apply (fmap_replicate (map entry) _ []).
  - by rewrite length_replicate.
  - rewrite concat_replicate_nil. cbn. lia.
  - by apply heap_ok_free_nodes.
  - intros Htight. rewrite concat_replicate_nil. apply no_leak_free_nodes. rewrite app_nil_r. auto.
Qed.

Lemma sim_step junk db k (tight : Prop) op st sp :
  related db k tight st sp -> op_ok op -> (tight -> frees op) -> Z.of_nat k < INT_MAX ->
  match spec_step db op sp with
  | None => impl_step junk db op st = None
  | Some sp' => exists st', impl_step junk db op st = Some st' /\ related db (S k) tight st' sp'
  end.
Proof.
  intros Hr Hop Hf Hk.
  assert (forall st' sp', related db k tight st' sp' -> related db (S k) tight st' sp') as Hweak.
  { intros st' sp' (ml & nss & H). exists ml, nss. intuition lia. }
  destruct op as [m r src n tid | root name | name | f |].
  - by apply sim_record.
  - destruct st, sp, Hr as (ml & nss & H). cbn in H. eexists. split; [reflexivity |].
    exists ml, nss. cbn. destruct H as (? & ? & ? & ? & ? & ? & ? & ? & -> & ->). split_and!; auto; lia.
  - destruct st as [lg h tm c], sp as [log tm' c'], Hr as (ml & nss & H). cbn in H.
    destruct H as (? & ? & ? & ? & ? & ? & ? & ? & -> & ->). cbn [impl_step spec_step].
    destruct (memlog_remove_table_mapping _ _ _ _ _) as [[tm2 c2]|]; cbn [mbind option_bind]; [| done].
    eexists. split; [reflexivity |]. exists ml, nss. cbn. split_and!; auto; lia.
  - pose proof (sim_commit junk db k tight st sp f Hr Hf) as H.
    destruct (spec_step _ _ _); [| done]. naive_solver.
  - pose proof (sim_rollback junk db k tight st sp Hr) as H.
    destruct (spec_step _ _ _); [| done]. naive_solver.
Qed.

Lemma sim_run junk db (tight : Prop) ops k st sp :
  related db k tight st sp -> Forall op_ok ops -> (tight -> Forall frees ops) ->
  Z.of_nat (k + length ops) <= INT_MAX ->
  match run (spec_step db) ops sp with
  | None => run (impl_step junk db) ops st = None
  | Some sp' => exists st', run (impl_step junk db) ops st = Some st' /\
                  related db (k + length ops) tight st' sp'
  end.
Proof.
  revert k st sp. induction ops as [|op ops IH]; intros k st sp Hr Ho Hf Hk; cbn [run length].
  { rewrite Nat.add_0_r. eauto. }
  apply Forall_cons in Ho as [Ho1 Ho2]. cbn [length] in Hk.
  assert (tight -> frees op) as Hf1 by (intros Ht; by apply Hf, Forall_cons in Ht as [? _]).
  assert (tight -> Forall frees ops) as Hf2 by (intros Ht; by apply Hf, Forall_cons in Ht as [_ ?]).
  pose proof (sim_step junk db k tight op st sp Hr Ho1 Hf1) as H.
  destruct (spec_step db op sp) as [sp'|]; cbn [mbind option_bind].
  - destruct H as (st' & -> & Hr'); [lia |]. cbn [mbind option_bind].
    replace (k + S (length ops))%nat with (S k + length ops)%nat by lia.
    apply IH; auto. lia.
  - rewrite H by lia. done.
Qed.

Definition empty_heap : Heap := mkHeap ∅ ∅ 1.

Lemma related_init db n c ml tight :
  (0 < n)%nat -> log_ok empty_heap ml (replicate n []) -> db_name ml = db ->
  related db 0 tight (mkImpl (Some ml) empty_heap ∅ c) (mkSpec (replicate n []) ∅ c).
Proof.
  intros Hn Hok Hdb. exists ml, (replicate n []). rewrite concat_replicate_nil.
  cbn [i_log i_heap i_map i_storage s_log s_map s_storage]. split_and!; auto.
  - apply (fmap_replicate (map entry) _ []).
  - by rewrite length_replicate.
  - split_and!; cbn; [lia | apply map_Forall_empty | apply map_Forall_empty].
  - intros _. split; intros p [x Hx]; cbn [h_records h_buffers empty_heap] in Hx;
    by rewrite lookup_empty in Hx.
Qed.

End Runs.
End System.

Import System.

(** A storage layer that records the calls it receives. *)
Module Trace.

Inductive Call :=
| CDrop (db name : string)
| CDelete (name : string) (row : Z)
| CInsert (name : string) (row : Z) (record widths : list Z)
| CUpdate (name : string) (row n : Z) (info : option (list UpdateMetaInfo)) (record widths : list Z).

#[export] Instance trace_storage : Storage (list Call) string := {|
  GetTable db name c := Some (Some name);
  DropMemTable db name c := Some (c ++ [CDrop db name]);
  DeleteRecordTable t row c := Some (c ++ [CDelete t row]);
  InsertRecordTable t row record widths c := Some (c ++ [CInsert t row record widths]);
  UpdateRecordTable t row n info record widths c := Some (c ++ [CUpdate t row n info record widths])
|}.

End Trace.

(** ** The record header

    SQLite's record format: a varint with the header's length, one varint per
    column with its serial type, then the column values. *)

Module Header.

Definition encode_header (hdrLen : Z) (types : list Z) : list Z :=
  sqlite3PutVarint hdrLen ++ concat (map sqlite3PutVarint types).

(** The bytes a column of the given serial type occupies; the constants 0 and 1
    occupy none and are passed on as [-8] and [-9]. *)
Definition width_of (t : Z) : Z :=
  if (t =? 8) || (t =? 9) then - t
  else if 12 <=? t then (t - 12) / 2
  else nth (Z.to_nat t) [0; 1; 2; 3; 4; 6; 8; 8; 0; 0; 0; 0] 0.

Lemma column_width_ok t : is_u 32 t -> column_width t = Some (width_of t).
Proof.
  intros Ht. destruct (Z.lt_ge_cases t 12) as [Hlt | Hge].
  { unfold is_u in Ht. assert (t ∈ seqZ 0 12) as Hin by (apply elem_of_seqZ; lia).
    revert Hin. apply (Forall_forall (fun t => column_width t = Some (width_of t))).
    repeat constructor. }
  unfold column_width, width_of, ZERO_TYPE_ENCODING, ONE_TYPE_ENCODING.
  rewrite (proj2 (Z.eqb_neq t 8)), (proj2 (Z.eqb_neq t 9)) by lia. cbn [orb].
  destruct (serialTypeLen_total t Ht) as (sz & -> & _ & ->); [| lia].
  rewrite (proj2 (Z.leb_le 12 t)) by lia. cbn [fmap option_fmap option_map]. f_equal.
  apply wraps_id; [lia |]. unfold is_u in Ht. unfold is_s.
  change (2 ^ (32 - 1)) with 2147483648. change (2 ^ 32) with 4294967296 in Ht.
  split; [| apply Z.div_lt_upper_bound; lia].
  pose proof (Z.div_pos (t - 12) 2). lia.
Qed.

Lemma getVarint32_put v rest :
  is_u 32 v -> Forall is_byte rest ->
  getVarint32 (sqlite3PutVarint v ++ rest) = Some (v, Z.of_nat (length (sqlite3PutVarint v))).
Proof.
  intros Hv Hr. assert (0 <= v < 2 ^ 64) by (unfold is_u in Hv; lia).
  rewrite getVarint32_ref by (apply Forall_app; split; [by apply sqlite3PutVarint_bytes | done]).
  rewrite sqlite3PutVarint_ref by done. cbn [fmap option_fmap option_map]. unfold is_u in Hv.
  rewrite saturate32_id by lia. done.
Qed.

Lemma put_length v : is_u 32 v -> 1 <= Z.of_nat (length (sqlite3PutVarint v)) <= 9.
Proof.
  intros Hv. assert (0 <= v < 2 ^ 64) as Hv' by (unfold is_u in Hv; lia).
  pose proof (sqlite3PutVarint_ref v [] Hv') as E. rewrite app_nil_r in E.
  apply varint_ref_bounds in E; [lia | lia |]. by apply sqlite3PutVarint_bytes.
Qed.

Lemma put_all_bytes types :
  Forall (is_u 32) types -> Forall is_byte (concat (map sqlite3PutVarint types)).
Proof.
  induction 1 as [|t types Ht _ IH]; cbn [map concat]; [constructor |].
  apply Forall_app. split; [| done]. apply sqlite3PutVarint_bytes. unfold is_u in Ht. lia.
Qed.

Lemma parse_widths_ok types pre body acc fuel :
  Forall (is_u 32) types -> Forall is_byte body ->
  let enc := concat (map sqlite3PutVarint types) in
  let hdrLen := Z.of_nat (length pre + length enc) in
  hdrLen < 2 ^ 32 -> (length types <= fuel)%nat ->
  parse_widths fuel (pre ++ enc ++ body) hdrLen (Z.of_nat (length pre)) acc =
  Widths (acc ++ map width_of types).
Proof.
  intros Ht Hb. cbn zeta. revert pre acc fuel.
  induction Ht as [|t types Ht Htypes IH]; intros pre acc fuel Hlen Hfuel; cbn [map concat].
  - cbn [length]. rewrite Nat.add_0_r.
    destruct fuel; cbn [parse_widths]; by rewrite Z.ltb_irrefl, app_nil_r.
  - pose proof (put_length t Ht) as Hpl. cbn [map concat] in Hlen. rewrite length_app in Hlen |- *.
    destruct fuel as [|fuel]; [cbn in Hfuel; lia |]. cbn [parse_widths].
    rewrite (proj2 (Z.ltb_lt _ _)) by lia.
    rewrite Nat2Z.id, drop_app_length, <- app_assoc.
    rewrite getVarint32_put; [| done |].
    2: { apply Forall_app. split; [by apply put_all_bytes | done]. }
    rewrite column_width_ok by done.
    rewrite wrapu_id by (unfold is_u; lia).
    specialize (IH (pre ++ sqlite3PutVarint t) (acc ++ [width_of t]) fuel).
    rewrite length_app, <- !app_assoc in IH. cbn in Hfuel.
    rewrite <- Nat2Z.inj_add, Nat.add_assoc.
    rewrite IH by (cbn in Hlen; lia). done.
Qed.

(** The loop consumes at least one byte of the record per iteration. *)
Lemma getVarint32_consumes p v n :
  Forall is_byte p -> getVarint32 p = Some (v, n) -> 1 <= n <= Z.of_nat (length p) /\ n <= 9.
Proof.
  intros Hp. rewrite getVarint32_ref by done.
  destruct (varint_spec p) as [[v' m]|] eqn:E; cbn; [| done]. intros [= _ <-].
  assert (forall k acc j q v m, varint_ref k acc j q = Some (v, m) -> j + 1 <= m <= j + Z.of_nat (length q) /\ m <= j + 1 + Z.of_nat k) as H.
  { clear. induction k as [|k IH]; intros acc j [|b q] v m E; cbn [varint_ref] in E; try done.
    - simplify_eq. cbn [length]. lia.
    - destruct (b <? 128); [simplify_eq; cbn [length]; lia |].
      apply IH in E. cbn [length]. lia. }
  apply H in E. lia.
Qed.

(** Nine bytes hold a varint. *)
Lemma getVarint32_defined p : Forall is_byte p -> (9 <= length p)%nat -> exists v n, getVarint32 p = Some (v, n) /\ is_u 32 v.
Proof.
  intros Hp Hl. rewrite getVarint32_ref by done.
  assert (forall k acc j q, (k < length q)%nat -> is_Some (varint_ref k acc j q)) as H.
  { clear. induction k as [|k IH]; intros acc j [|b q] Hl; cbn [varint_ref length] in *; try lia; [eauto |].
    destruct (b <? 128); [eauto |]. apply IH. lia. }
  destruct (H 8%nat 0 0 p) as [[v n] E]; [lia |]. unfold varint_spec. rewrite E. cbn. eexists _, _. split; [done |].
  assert (0 <= v) as Hv by (apply varint_ref_bounds in E; [lia | lia | done]). unfold saturate32, is_u. destruct (Z.ltb_spec v (2 ^ 32)); lia.
Qed.

(** The loop ends within [hdrLen - idx] iterations.  The number of columns is that
    of the varints in the header, of one to nine bytes each; a header that ends
    eight bytes before the record does is read without undefined behaviour. *)
Lemma parse_widths_run hdr hdrLen : Forall is_byte hdr -> Z.of_nat (length hdr) < 2 ^ 31 ->
  forall fuel idx acc, 0 <= idx -> (Z.to_nat (hdrLen - idx) <= fuel)%nat ->
  match parse_widths fuel hdr hdrLen idx acc with
  | OutOfFuel => False
  | UndefinedRead => Z.of_nat (length hdr) < hdrLen + 8
  | Widths ws => exists ws', ws = acc ++ ws' /\ hdrLen - idx <= 9 * Z.of_nat (length ws') /\ Z.of_nat (length ws') <= Z.max 0 (hdrLen - idx)
  end.
Proof.
  intros Hb Hl. induction fuel as [|fuel IH]; intros idx acc Hi Hf; cbn [parse_widths]; destruct (Z.ltb_spec idx hdrLen) as [Hlt | Hge];
    try lia; try (exists []; rewrite app_nil_r; cbn; split; [done | lia]).
  destruct (getVarint32 (drop (Z.to_nat idx) hdr)) as [[v n]|] eqn:E.
  - pose proof (getVarint32_consumes _ _ _ (Forall_drop _ _ _ Hb) E) as Hn. rewrite length_drop in Hn.
    destruct (column_width v) as [w|] eqn:Ew.
    + rewrite wrapu_id by (unfold is_u; lia). specialize (IH (idx + n) (acc ++ [w]) ltac:(lia) ltac:(lia)).
      destruct (parse_widths fuel hdr hdrLen (idx + n) (acc ++ [w])) as [ws | |]; [| done | done].
      destruct IH as (ws' & -> & H1 & H2). exists (w :: ws'). rewrite <- app_assoc. cbn [length app]. split; [done | lia].
    + destruct (Z.lt_ge_cases (Z.of_nat (length hdr)) (hdrLen + 8)) as [? | Hge]; [done | exfalso].
      destruct (getVarint32_defined (drop (Z.to_nat idx) hdr)) as (v' & n' & E' & Hv); [by apply Forall_drop | rewrite length_drop; lia |].
      rewrite E in E'. injection E' as <- <-. by rewrite column_width_ok in Ew.
  - destruct (Z.lt_ge_cases (Z.of_nat (length hdr)) (hdrLen + 8)) as [? | Hge]; [done | exfalso].
    destruct (getVarint32_defined (drop (Z.to_nat idx) hdr)) as (v' & n' & E' & _); [by apply Forall_drop | rewrite length_drop; lia |]. congruence.
Qed.

(** More fuel does not change a result. *)
Lemma parse_widths_more hdr hdrLen : forall f1 f2 idx acc, (f1 <= f2)%nat -> parse_widths f1 hdr hdrLen idx acc <> OutOfFuel ->
  parse_widths f2 hdr hdrLen idx acc = parse_widths f1 hdr hdrLen idx acc.
Proof.
  induction f1 as [|f1 IH]; intros f2 idx acc Hf Hne; cbn [parse_widths] in Hne |- *.
  - destruct f2; cbn [parse_widths]; by destruct (idx <? hdrLen).
  - destruct f2 as [|f2]; [lia |]. cbn [parse_widths]. destruct (idx <? hdrLen); [| done]. destruct (getVarint32 _) as [[v n]|]; [| done].
    destruct (column_width v); [| done]. apply IH; [lia | done].
Qed.

End Header.

Import Header.

(** ** Properties *)

(** C3: Refinement of the log.  Starting from [hustle_memlog_initialize], any
    sequence of row changes, table mappings, commits and rollbacks on the
    pointer structure reaches exactly the states of the specification that
    keeps one list of entries per table, appends at the end, replays each
    table in order at commit and empties everything at rollback: same storage
    calls, same pending entries, same table map, and undefined behaviour only
    where the specification has none to offer (a [NULL] record).  The heap
    stays well formed, and as long as commits free their records it holds the
    pending records and nothing else. *)
Theorem memlog_refines {C T} {St : Storage C T} (junk : DBRecordList) (db : string) (n : nat)
    (ops : list Op) (c : C) :
  (0 < n)%nat -> Forall op_ok ops -> Z.of_nat (length ops) <= INT_MAX ->
  exists ml, hustle_memlog_initialize junk db (Z.of_nat n) = Some (MEMLOG_OK, Some ml) /\
    match run (spec_step db) ops (mkSpec (replicate n []) ∅ c) with
    | None => run (impl_step junk db) ops (mkImpl (Some ml) empty_heap ∅ c) = None
    | Some sp => exists st,
        run (impl_step junk db) ops (mkImpl (Some ml) empty_heap ∅ c) = Some st /\
        related db (length ops) (Forall frees ops) st sp
    end.
Proof.
  intros Hn Hops Hlen. destruct (initialize_ok junk db (Z.of_nat n) empty_heap) as (ml & E & Hok & Hdb); [lia |].
  exists ml. split; [done |]. rewrite Nat2Z.id in Hok.
  apply (sim_run junk db (Forall frees ops) ops 0); auto. by apply related_init.
Qed.

Import Trace.

(** The bytes of the record [(5, "ab")] as SQLite lays it out: header length,
    serial types 1 (one byte) and 17 (two bytes of text), then the values. *)
Definition sample_record : list Z := [3; 1; 17; 5; 97; 98].

Definition sample_ops : list Op :=
  [OpAddTable 2 "t"; OpRecord MEMLOG_HUSTLE_INSERT 7 (Some sample_record) 6 2;
   OpRecord MEMLOG_HUSTLE_DELETE 7 None 0 2; OpCommit true].

Lemma memlog_refines_witness :
  exists ml, hustle_memlog_initialize empty_slot "db" 1 = Some (MEMLOG_OK, Some ml) /\
    exists st, run (impl_step empty_slot "db") sample_ops (mkImpl (Some ml) empty_heap ∅ []) = Some st /\
      i_storage st = [CInsert "t" 7 [5; 97; 98] [1; 2]; CDelete "t" 7].
Proof.
  destruct (memlog_refines empty_slot "db" 1 sample_ops []) as (ml & E & H).
  - lia.
  - repeat constructor; vm_compute; congruence.
  - vm_compute; congruence.
  - exists ml. split; [exact E |].
    destruct (run (spec_step "db") sample_ops _) as [sp|] eqn:Es; [| vm_compute in Es; discriminate].
    destruct H as (st & Est & ml' & nss & H). exists st. split; [exact Est |].
    destruct H as (_ & _ & _ & _ & _ & _ & _ & _ & _ & ->).
    vm_compute in Es. injection Es as <-. reflexivity.
Defined.

Lemma parse_encoded (hdrLen : Z) (types body : list Z) :
  Forall (is_u 32) types -> Forall is_byte body ->
  hdrLen = Z.of_nat (length (encode_header hdrLen types)) -> hdrLen < 2 ^ 32 ->
  parse_record (encode_header hdrLen types ++ body) = Some (hdrLen, map width_of types) /\
  drop (Z.to_nat hdrLen) (encode_header hdrLen types ++ body) = body.
Proof.
  intros Ht Hb Hlen Hmax. split.
  2: { rewrite Hlen at 1. rewrite Nat2Z.id. apply drop_app_length. }
  unfold encode_header in *. rewrite length_app in Hlen. unfold parse_record.
  rewrite <- app_assoc, getVarint32_put; [| unfold is_u; lia |].
  2: { apply Forall_app. split; [by apply put_all_bytes | done]. }
  cbn [mbind option_bind].
  pose proof (parse_widths_ok types (sqlite3PutVarint hdrLen) body [] (Z.to_nat hdrLen) Ht Hb) as E.
  cbn zeta in E. rewrite <- Hlen in E. rewrite E; [done | done |].
  assert (length types <= length (concat (map sqlite3PutVarint types)))%nat; [| lia].
  clear -Ht. induction Ht as [|t ts Ht _ IH]; cbn [map concat length]; [lia |].
  rewrite length_app. pose proof (put_length t Ht). lia.
Qed.

(** C33: The commit decodes SQLite's record format: on a record with the given
    serial types the header loop finds one width per column and the values
    start right after the header. *)
Theorem memlog_parse_roundtrip (hdrLen : Z) (types body : list Z) :
  Forall (is_u 32) types -> Forall is_byte body ->
  hdrLen = Z.of_nat (length (encode_header hdrLen types)) -> hdrLen < 2 ^ 32 ->
  parse_record (encode_header hdrLen types ++ body) = Some (hdrLen, map width_of types) /\
  drop (Z.to_nat hdrLen) (encode_header hdrLen types ++ body) = body.
Proof. apply parse_encoded. Qed.

Lemma memlog_parse_roundtrip_witness :
  parse_record (encode_header 5 [1; 8; 25; 7] ++ [42; 104; 101; 108; 108; 111; 33; 0; 0; 0; 0; 0; 0; 0; 0])
  = Some (5, [1; -8; 6; 8]).
Proof.
  apply memlog_parse_roundtrip; [repeat constructor; vm_compute; congruence .. | reflexivity | reflexivity].
Defined.



(** A commit does not touch the records of a root page without table
    mapping: its list is still there afterwards, with all its nodes live, even
    when the commit frees. *)
Theorem memlog_unmapped_kept {C T} {St : Storage C T} tm ml f h c nss i ns st' ml' h' c' :
  log_ok h ml nss -> nss !! i = Some ns ->
  map_find (Z.of_nat i) (sub_map DEFAULT_DB_ID tm) = None ->
  hustle_memlog_update_db tm (Some ml) f h c = Some (st', Some ml', h', c') ->
  exists s', record_list ml' !! i = Some s' /\ slot_ok s' ns /\ Forall (node_in h') ns.
Proof.
  intros (Ht & Hs & Ho) Hi Hm. cbn [hustle_memlog_update_db]. rewrite Ht, Nat2Z.id.
  pose proof (update_tables_ok tm f (db_name ml) (total_size ml) nss [] (record_list ml) h c Hs Ho) as Hu.
  cbn [length app] in Hu. replace (mkHustleMemLog _ _ _) with ml in Hu by (by destruct ml).
  destruct (commit entry tm (db_name ml) 0 nss c) as [[nss' c1]|] eqn:Ec; [| by rewrite Hu].
  destruct Hu as (sq' & freed & Hs' & HP & ->). cbn [mbind option_bind]. intros [= <- <- <- <-].
  pose proof (commit_unmapped _ _ _ 0 i _ _ _ _ _ Ec Hi Hm) as Hi'.
  destruct (Forall2_lookup_r _ _ _ _ _ Hs' Hi') as (s' & E & Hslot).
  exists s'. split_and!; [done | done |].
  rewrite (owned_Permutation _ _ _ HP) in Ho. apply owned_free_if with (f := f) in Ho as (Hf & _).
  rewrite Forall_forall in Hf |- *. intros n Hn. apply Hf.
  apply list_elem_of_In, in_concat. exists ns. split; apply list_elem_of_In; [| done].
  by eapply list_elem_of_lookup_2.
Qed.

Definition pending_node : Node :=
  mkNode 2 (mkDBRecord MEMLOG_HUSTLE_INSERT 7 6 1 0 None NULL) sample_record.
Definition pending_heap : Heap :=
  mkHeap {[2 := n_rec pending_node]} {[1 := sample_record]} 3.
Definition pending_log : HustleMemLog :=
  mkHustleMemLog [empty_slot; mkDBRecordList 2 2 1] 2 "db".

Lemma pending_ok : log_ok pending_heap pending_log [[]; [pending_node]].
Proof.
  split_and!; [done | repeat constructor |].
  split_and!; cbn [concat app map].
  - repeat constructor; done.
  - apply NoDup_singleton.
  - apply NoDup_singleton.
Qed.

Lemma memlog_unmapped_kept_witness :
  exists ml' h' c',
    hustle_memlog_update_db ∅ (Some pending_log) true pending_heap [] = Some (MEMLOG_OK, Some ml', h', c') /\
    exists s', record_list ml' !! 1%nat = Some s' /\ slot_ok s' [pending_node] /\
      Forall (node_in h') [pending_node].
Proof.
  do 3 eexists. split; [reflexivity |].
  eapply (memlog_unmapped_kept ∅ pending_log true pending_heap [] [[]; [pending_node]] 1);
    [exact pending_ok | reflexivity | reflexivity | reflexivity].
Defined.

(** Closing one connection clears the table map of the whole process: after
    [hustle_memlog_free] of one log, which itself frees every record it holds,
    a commit of any other log sends nothing to the storage and keeps all its
    records. *)
Theorem memlog_free_unmaps_all {C T} {St : Storage C T} tm ml1 h1 nss1 ml2 nss2 f c :
  log_ok h1 ml1 nss1 -> no_leak h1 (concat nss1) ->
  exists h2, hustle_memlog_free tm (Some ml1) h1 = Some (MEMLOG_OK, ∅, h2) /\
    h_records h2 = ∅ /\ h_buffers h2 = ∅ /\
    (forall h, log_ok h ml2 nss2 ->
       hustle_memlog_update_db ∅ (Some ml2) f h c = Some (MEMLOG_OK, Some ml2, h, c)).
Proof.
  intros Hok Hnl. unfold hustle_memlog_free. rewrite (clear_ok _ nss1) by done.
  cbn [mbind option_bind]. eexists. split; [reflexivity |].
  rewrite <- (app_nil_r (concat nss1)) in Hnl. apply no_leak_free_nodes in Hnl as [N1 N2].
  split_and!.
  - apply map_empty. intros p. apply eq_None_not_Some. intros Hp. apply N1 in Hp. by apply elem_of_nil in Hp.
  - apply map_empty. intros p. apply eq_None_not_Some. intros Hp. apply N2 in Hp. by apply elem_of_nil in Hp.
  - intros h (Ht & Hs & _). cbn [hustle_memlog_update_db]. rewrite Ht, Nat2Z.id.
    pose proof (Forall2_length _ _ _ Hs) as Hlen.
    enough (forall k i : nat, (i + k = length (record_list ml2))%nat ->
      update_tables k i ∅ f ml2 h c = Some (ml2, h, c)) as E by (rewrite E by lia; done).
    intros k. induction k as [|k IH]; intros i Hi; cbn [update_tables]; [done |].
    unfold update_table. destruct (lookup_lt_is_Some_2 (record_list ml2) i) as [s ->]; [lia |].
    cbn. apply IH. lia.
Qed.

Lemma memlog_free_unmaps_all_witness :
  exists h2, hustle_memlog_free (memlog_add_table_mapping 0 1 "t" ∅) (Some pending_log) pending_heap
      = Some (MEMLOG_OK, ∅, h2) /\
    hustle_memlog_update_db ∅ (Some pending_log) true pending_heap [] =
      Some (MEMLOG_OK, Some pending_log, pending_heap, []).
Proof.
  destruct (memlog_free_unmaps_all (memlog_add_table_mapping 0 1 "t" ∅) pending_log pending_heap
    [[]; [pending_node]] pending_log [[]; [pending_node]] true [] pending_ok) as (h2 & E & _ & _ & H).
  - split; intros p [x Hx]; apply (lookup_singleton_Some _ p _ x) in Hx as [<- _]; left.
  - exists h2. split; [exact E |]. apply H, pending_ok.
Defined.

(** A change without data that is not a deletion is never reported as
    [MEMLOG_ERROR]: [hustle_memlog_create_record] returns [NULL] for it and the
    guard of [hustle_memlog_insert_record] dereferences that pointer. *)
Theorem memlog_null_record {C T} {St : Storage C T} junk db m r n tid ml h tm (c : C) :
  m <> MEMLOG_HUSTLE_DELETE ->
  hustle_memlog_create_record m r None n h = Some (NULL, h) /\
  impl_step junk db (OpRecord m r None n tid) (mkImpl (Some ml) h tm c) = None.
Proof.
  intros Hm. unfold impl_step, hustle_memlog_create_record.
  rewrite (proj2 (Z.eqb_neq _ _) Hm). done.
Qed.

Lemma memlog_null_record_witness :
  impl_step empty_slot "db" (OpRecord MEMLOG_HUSTLE_INSERT 7 None 0 1)
    (mkImpl (Some pending_log) pending_heap ∅ []) = None.
Proof. apply memlog_null_record. discriminate. Defined.
