(* ===== verification/BitUtils.v ===== *)
(** * Bit packing and byte reversal (utils/bit_utils.h)

    [pack] turns an array of bytes used as booleans into an Arrow bitmap;
    [reverse_bytes] reverses a prefix of an array in place, which is how the
    storage layer turns SQLite's big-endian integers into machine integers.
    [None] is an access outside the array. *)

From Stdlib Require Import ZArith Lia.
From stdpp Require Import base numbers list option.
Import stdpp.list_basics.list stdpp.list_relations.list stdpp.list_monad.list.
From S2P Require Import Prelude.

Local Open Scope Z_scope.

Local Ltac Zify.zify_post_hook ::= Z.to_euclidean_division_equations.

Module Bits.

(** [current_byte = *src_byte++ ? current_byte | mask : current_byte] *)
Definition pack_bit (current_byte mask src_byte : Z) : Z :=
  if src_byte =? 0 then current_byte else Z.lor current_byte mask.

(** The unrolled loop over groups of eight; returns the bytes written and the
    position reached in the source. *)
Fixpoint pack_full (remaining_bytes : nat) (src : list Z) : option (list Z * list Z) :=
  match remaining_bytes with
  | O => Some ([], src)
  | S n =>
      match src with
      | s0 :: s1 :: s2 :: s3 :: s4 :: s5 :: s6 :: s7 :: src' =>
          let c := 0 in
          let c := pack_bit c 0x01 s0 in
          let c := pack_bit c 0x02 s1 in
          let c := pack_bit c 0x04 s2 in
          let c := pack_bit c 0x08 s3 in
          let c := pack_bit c 0x10 s4 in
          let c := pack_bit c 0x20 s5 in
          let c := pack_bit c 0x40 s6 in
          let c := pack_bit c 0x80 s7 in
          '(dst, rest) ← pack_full n src';
          Some (c :: dst, rest)
      | _ => None
      end
  end.

(** The loop over the last [length % 8] bytes. *)
Fixpoint pack_tail (remaining_bits : nat) (current_byte bit_mask : Z) (src : list Z) : option Z :=
  match remaining_bits with
  | O => Some current_byte
  | S n =>
      match src with
      | s :: src' => pack_tail n (pack_bit current_byte bit_mask s) (shlu 8 bit_mask 1) src'
      | [] => None
      end
  end.

Definition pack (len : Z) (arr : list Z) : option (list Z) :=
  '(dst, src) ← pack_full (Z.to_nat (len / 8)) arr;
  if len mod 8 =? 0 then Some dst
  else b ← pack_tail (Z.to_nat (len mod 8)) 0 0x01 src; Some (dst ++ [b]).

(** [while (start_index < end_index)], with the indices at 32 bits. *)
Fixpoint reverse_loop (fuel : nat) (start_index end_index : Z) (arr : list Z) : option (list Z) :=
  if start_index <? end_index then
    match fuel with
    | O => None
    | S f =>
        x ← arr !! Z.to_nat start_index;
        y ← arr !! Z.to_nat end_index;
        let arr := <[Z.to_nat start_index := y]> arr in
        let arr := <[Z.to_nat end_index := x]> arr in
        reverse_loop f (to_u32 (start_index + 1)) (to_u32 (end_index - 1)) arr
    end
  else Some arr.

Definition reverse_bytes (arr : list Z) (num_bytes : Z) : option (list Z) :=
  if num_bytes =? 0 then Some arr else
  reverse_loop (length arr) 0 (to_u32 (num_bytes - 1)) arr.

(** ** Packing: the bits of a group of up to eight booleans *)

Definition truthy (s : Z) : bool := negb (s =? 0).

(** Bit [i] of [acc] is the [i]-th boolean, for the [k] first of them. *)
Definition bits_of (acc : Z) (bs : list bool) : Prop :=
  0 <= acc < 2 ^ Z.of_nat (length bs) /\
  forall i, (i < length bs)%nat -> Z.testbit acc (Z.of_nat i) = nth i bs false.

Lemma bits_of_snoc acc bs s :
  bits_of acc bs -> bits_of (pack_bit acc (2 ^ Z.of_nat (length bs)) s) (bs ++ [truthy s]).
Proof.
  intros [Hr Hb]. set (k := Z.of_nat (length bs)) in *.
  assert (0 < 2 ^ k) by (apply Z.pow_pos_nonneg; lia).
  unfold bits_of. rewrite length_app. cbn [length]. rewrite Nat2Z.inj_add. fold k.
  change (Z.of_nat 1) with 1. rewrite Z.pow_add_r by lia. change (2 ^ 1) with 2.
  unfold pack_bit, truthy. destruct (s =? 0); cbn [negb].
  - split; [lia |]. intros i Hi. destruct (decide (i < length bs)%nat).
    + rewrite app_nth1 by done. auto.
    + replace i with (length bs) by lia. rewrite nth_middle.
      rewrite <- (Z.mod_small acc (2 ^ k)) by done. apply Z.mod_pow2_bits_high. lia.
  - assert (Z.lor acc (2 ^ k) = 1 * 2 ^ k + acc) as ->.
    { rewrite <- lor_add_comm by lia. by rewrite Z.mul_1_l. }
    split; [lia |]. intros i Hi. rewrite testbit_split by lia.
    destruct (decide (i < length bs)%nat).
    + rewrite (proj2 (Z.ltb_lt _ _)) by lia. rewrite app_nth1 by done. auto.
    + rewrite (proj2 (Z.ltb_ge _ _)) by lia. replace i with (length bs) by lia.
      rewrite nth_middle. fold k. by rewrite Z.sub_diag.
Qed.

Lemma bits_of_test acc bs r : bits_of acc bs -> Z.testbit acc (Z.of_nat r) = nth r bs false.
Proof.
  intros [Hr Hb]. destruct (decide (r < length bs)%nat); [auto |].
  rewrite nth_overflow by lia.
  rewrite <- (Z.mod_small acc (2 ^ Z.of_nat (length bs))) by done.
  apply Z.mod_pow2_bits_high. lia.
Qed.

Lemma bits_of_byte acc bs : bits_of acc bs -> (length bs <= 8)%nat -> is_byte acc.
Proof.
  intros [Hr _] H. unfold is_u.
  assert (2 ^ Z.of_nat (length bs) <= 2 ^ 8) by (apply Z.pow_le_mono_r; lia). lia.
Qed.

Lemma nth_window r k m (arr : list Z) :
  nth r (map truthy (take k (drop m arr))) false = (r <? k)%nat && truthy (nth (m + r) arr 0).
Proof.
  change false with (truthy 0) at 1. rewrite map_nth, nth_firstn.
  destruct (r <? k)%nat; [| done]. by rewrite nth_skipn.
Qed.

Lemma pack_tail_ok n acc bs src :
  bits_of acc bs -> (n <= length src)%nat -> (length bs + n <= 8)%nat ->
  exists b, pack_tail n acc (wrapu 8 (2 ^ Z.of_nat (length bs))) src = Some b /\
    bits_of b (bs ++ map truthy (take n src)).
Proof.
  revert acc bs src. induction n as [|n IH]; intros acc bs src Hb Hl H8.
  { exists acc. cbn. by rewrite app_nil_r. }
  destruct src as [|s src]; [cbn in Hl; lia |]. cbn [pack_tail take map].
  assert (2 ^ Z.of_nat (length bs) < 256) as Hlt.
  { change 256 with (2 ^ 8). apply Z.pow_lt_mono_r; lia. }
  rewrite (wrapu_id 8 (2 ^ Z.of_nat (length bs))) by (unfold is_u; lia).
  pose proof (bits_of_snoc acc bs s Hb) as Hb'.
  destruct (IH _ (bs ++ [truthy s]) src Hb') as (b & E & Hbits);
    [cbn in Hl; lia | rewrite length_app; cbn; lia |].
  exists b. split; [| by rewrite <- app_assoc in Hbits].
  rewrite <- E. f_equal. unfold shlu. f_equal. rewrite length_app, Z.shiftl_mul_pow2 by lia.
  cbn [length]. rewrite Nat2Z.inj_add, Z.pow_add_r by lia. done.
Qed.

Lemma pack_full_ok n src :
  (8 * n <= length src)%nat ->
  exists dst, pack_full n src = Some (dst, drop (8 * n) src) /\ length dst = n /\
    forall j, (j < n)%nat -> exists b, dst !! j = Some b /\
      bits_of b (map truthy (take 8 (drop (8 * j) src))).
Proof.
  revert src. induction n as [|n IH]; intros src Hl.
  { exists []. split_and!; [done | done |]. intros; lia. }
  do 8 (destruct src as [|? src]; [cbn in Hl; lia |]). cbn [pack_full].
  destruct (IH src) as (dst & E & Hd & Hb); [cbn in Hl; lia |]. rewrite E.
  replace (8 * S n)%nat with (8 + 8 * n)%nat by lia.
  eexists. split; [reflexivity |]. split; [cbn; lia |].
  intros [|j] Hj.
  - eexists. split; [reflexivity |].
    assert (bits_of 0 []) as B by (split; [lia | intros i Hi; cbn in Hi; lia]).
    do 8 (eapply bits_of_snoc in B). exact B.
  - destruct (Hb j) as (b & Eb & Hbits); [lia |]. exists b. split; [done |].
    replace (8 * S j)%nat with (8 + 8 * j)%nat by lia. exact Hbits.
Qed.

(** [pack] reads exactly the first [len] bytes and produces the bitmap of
    ceil([len] / 8) bytes whose bit [i] is set exactly when byte [i] is not
    zero; the bits past [len] are clear. *)
Lemma pack_ok (len : Z) (arr : list Z) :
  0 <= len <= Z.of_nat (length arr) ->
  exists out, pack len arr = Some out /\ Z.of_nat (length out) = (len + 7) / 8 /\
    Forall is_byte out /\
    forall i, (i < 8 * length out)%nat ->
      exists b, out !! (i / 8)%nat = Some b /\
        Z.testbit b (Z.of_nat (i mod 8)) = (Z.of_nat i <? len) && truthy (nth i arr 0).
Proof.
  intros Hlen. set (n := Z.to_nat (len / 8)). set (r := Z.to_nat (len mod 8)).
  pose proof (Z.div_mod len 8 ltac:(lia)) as Edm.
  pose proof (Z.mod_pos_bound len 8 ltac:(lia)) as Hm.
  pose proof (Z.div_pos len 8 ltac:(lia) ltac:(lia)) as Hdp.
  assert (len = Z.of_nat (8 * n + r)) as Elen by (unfold n, r; lia).
  assert (r < 8)%nat as Hr by (unfold r; lia).
  destruct (pack_full_ok n arr) as (dst & E & Hd & Hb); [lia |].
  unfold pack. fold n r. rewrite E. cbn [mbind option_bind].
  assert (forall j b k, bits_of b (map truthy (take k (drop (8 * j) arr))) -> forall i, (i / 8)%nat = j ->
      Z.testbit b (Z.of_nat (i mod 8)) = (i mod 8 <? k)%nat && truthy (nth i arr 0)) as Hbit.
  { intros j b k Hj i Ei. rewrite (bits_of_test _ _ _ Hj), nth_window. subst j.
    by rewrite <- (Nat.div_mod_eq i 8). }
  assert (Forall is_byte dst) as Hdb.
  { apply Forall_lookup. intros j b Ej. destruct (Hb j) as (b' & Eb & Hbits).
    { rewrite <- Hd. by eapply lookup_lt_Some. }
    simplify_eq. eapply bits_of_byte; [done |]. rewrite length_map, length_take. lia. }
  destruct (Z.eqb_spec (len mod 8) 0) as [Ez | Ez].
  - exists dst. split_and!; [done | lia | done |]. intros i Hi.
    assert (i / 8 < n)%nat as Hj by (apply Nat.Div0.div_lt_upper_bound; lia).
    destruct (Hb (i / 8)%nat Hj) as (b & Eb & Hbits). exists b. split; [done |].
    rewrite (Hbit _ _ _ Hbits i) by done.
    rewrite (proj2 (Nat.ltb_lt _ _)) by (apply Nat.mod_upper_bound; lia).
    by rewrite (proj2 (Z.ltb_lt _ _)) by lia.
  - destruct (pack_tail_ok r 0 [] (drop (8 * n) arr)) as (b & Eb & Hbits);
      [split; [cbn; lia | intros i Hi; cbn in Hi; lia] | rewrite length_drop; lia | cbn; lia |].
    change (wrapu 8 (2 ^ Z.of_nat (length []))) with 1 in Eb. rewrite Eb. cbn [mbind option_bind].
    exists (dst ++ [b]). rewrite length_app. cbn [length]. split_and!; [done | lia | |].
    { apply Forall_app. split; [done |]. apply Forall_singleton.
      eapply bits_of_byte; [exact Hbits |]. cbn [app]. rewrite length_map, length_take. lia. }
    intros i Hi. pose proof (Nat.div_mod_eq i 8) as Hdmi.
    pose proof (Nat.mod_upper_bound i 8 ltac:(lia)) as Hmi.
    destruct (decide (i / 8 < n)%nat) as [Hj | Hj].
    + destruct (Hb (i / 8)%nat Hj) as (b' & Eb' & Hbits'). exists b'.
      rewrite lookup_app_l by (rewrite Hd; done). split; [done |].
      rewrite (Hbit _ _ _ Hbits' i) by done.
      rewrite (proj2 (Nat.ltb_lt _ _)) by (apply Nat.mod_upper_bound; lia).
      by rewrite (proj2 (Z.ltb_lt _ _)) by lia.
    + assert (i / 8 = n)%nat as Ei by lia. exists b. rewrite Ei.
      rewrite lookup_app_r by (rewrite Hd; lia). rewrite Hd, Nat.sub_diag. split; [done |].
      rewrite (Hbit n _ _ Hbits i) by done. f_equal.
      destruct (Nat.ltb_spec (i mod 8) r), (Z.ltb_spec (Z.of_nat i) len); try done; lia.
Qed.

(** ** Reversal *)

Lemma reverse_loop_ok fuel pre mid post :
  Z.of_nat (length (pre ++ mid ++ post)) <= 2 ^ 32 -> mid <> [] ->
  (length mid <= fuel)%nat ->
  reverse_loop fuel (Z.of_nat (length pre)) (Z.of_nat (length pre + length mid - 1)) (pre ++ mid ++ post)
  = Some (pre ++ rev mid ++ post).
Proof.
  revert pre mid post. induction fuel as [|fuel IH]; intros pre mid post Hl Hne Hf.
  { destruct mid; [done | cbn in Hf; lia]. }
  destruct mid as [|x mid]; [done |].
  destruct mid as [|z mid] using rev_ind; clear Hne.
  { cbn [reverse_loop length]. rewrite (proj2 (Z.ltb_ge _ _)) by lia. done. }
  clear IHmid. cbn [reverse_loop].
  rewrite !length_app in Hl. cbn [length] in Hl. rewrite length_app in Hl. cbn [length] in Hl.
  assert (length (x :: mid ++ [z]) = S (S (length mid))) as Em by (cbn; rewrite length_app; cbn; lia).
  rewrite Em in Hf |- *.
  rewrite (proj2 (Z.ltb_lt _ _)) by lia. rewrite !Nat2Z.id.
  change ((x :: mid ++ [z]) ++ post) with (x :: (mid ++ [z]) ++ post).
  rewrite (list_lookup_middle pre _ x (length pre)) by done. cbn [mbind option_bind].
  replace (pre ++ x :: (mid ++ [z]) ++ post) with ((pre ++ x :: mid) ++ z :: post)
    by (rewrite <- !app_assoc; done).
  assert (length (pre ++ x :: mid) = length pre + S (S (length mid)) - 1)%nat as Ep
    by (rewrite length_app; cbn; lia).
  rewrite <- Ep, list_lookup_middle by done. cbn [mbind option_bind].
  rewrite <- (app_assoc pre). cbn [app].
  assert (forall l (a b : Z) k, <[length l := b]> (l ++ a :: k) = l ++ b :: k) as Hins.
  { intros l a b k. rewrite <- (Nat.add_0_r (length l)). by rewrite insert_app_r. }
  rewrite Hins.
  replace (pre ++ z :: mid ++ z :: post) with ((pre ++ z :: mid) ++ z :: post)
    by (by rewrite <- app_assoc).
  replace (length (pre ++ x :: mid)) with (length (pre ++ z :: mid)) by (rewrite !length_app; done).
  rewrite Hins. rewrite <- app_assoc. cbn [app].
  rewrite !wrapu_id by (unfold is_u; rewrite ?length_app; cbn [length]; lia).
  replace (pre ++ z :: mid ++ x :: post) with ((pre ++ [z]) ++ mid ++ x :: post)
    by (by rewrite <- app_assoc).
  transitivity (Some ((pre ++ [z]) ++ rev mid ++ x :: post)).
  2: { cbn. rewrite rev_app_distr. cbn. rewrite <- !app_assoc. done. }
  destruct mid as [|y mid].
  - destruct fuel; cbn [reverse_loop]; rewrite (proj2 (Z.ltb_ge _ _)) by (rewrite length_app; cbn; lia); done.
  - rewrite <- (IH (pre ++ [z]) (y :: mid) (x :: post)); [| | done |].
    + f_equal; rewrite ?length_app; cbn [length]; lia.
    + rewrite !length_app. cbn [length] in *. lia.
    + cbn [length] in *. lia.
Qed.

Lemma reverse_bytes_ok arr n :
  0 <= n <= Z.of_nat (length arr) -> Z.of_nat (length arr) <= 2 ^ 32 ->
  reverse_bytes arr n = Some (rev (take (Z.to_nat n) arr) ++ drop (Z.to_nat n) arr).
Proof.
  intros Hn Hl. unfold reverse_bytes. destruct (Z.eqb_spec n 0) as [-> | Hne].
  { done. }
  rewrite wrapu_id by (unfold is_u; lia).
  pose proof (reverse_loop_ok (length arr) [] (take (Z.to_nat n) arr) (drop (Z.to_nat n) arr)) as E.
  cbn [app] in E. rewrite take_drop in E.
  rewrite length_take in E. rewrite Nat.min_l in E by lia. cbn [length Nat.add] in E.
  rewrite <- E; [f_equal; lia | done | | lia].
  intros H. apply (f_equal length) in H. rewrite length_take in H. cbn in H. lia.
Qed.

End Bits.

Import Bits.

(** ** Example *)

Example pack_ten :
  exists out, pack 10 [1; 0; 0; 7; 0; 0; 0; 1; 0; 9] = Some out /\ Z.of_nat (length out) = 2.
Proof.
  destruct (pack_ok 10 [1; 0; 0; 7; 0; 0; 0; 1; 0; 9]) as (out & E & Hl & _); [cbn; lia |].
  exists out. split; [exact E | exact Hl].
Qed.
