(* ===== verification/Bloom.v ===== *)
(** * Bloom filters (utils/bloom_filter.h, utils/blocked_bloom_filter.h,
      utils/histogram.h)

    The lookahead filters of the join operators.  The two filter classes differ
    only in how a hash value becomes a cell index; they share the section
    [Filter].  [None] is undefined behaviour: an access outside an array, a
    signed overflow, a division by zero, a use of an uninitialised pointer. *)

From Stdlib Require Import ZArith Lia SpecFloat.
From stdpp Require Import base numbers list option strings.
Import stdpp.list_basics.list stdpp.list_relations.list stdpp.list_monad.list.
From S2P Require Import Prelude.

Local Open Scope Z_scope.

(** ** The histogram of hit rates *)

Module Hist.

Abbreviation fdiv := (SFdiv 53 1024).
Abbreviation fmul := (SFmul 53 1024).
Abbreviation fadd := (SFadd 53 1024).
Abbreviation fsub := (SFsub 53 1024).

Record Histogram := mkHistogram {
  num_bins_ : Z;
  min_ : Z;
  max_ : Z;
  range_ : spec_float;
  counts_ : list Z;
  cumulative_ : list Z;
  num_values_ : Z;
  q_ : Z;
  r_ : spec_float
}.

Definition newHistogram (num_bins min max : Z) : Histogram :=
  mkHistogram num_bins min max (double_of_Z (max - min))
    (replicate (Z.to_nat num_bins) 0) (replicate (Z.to_nat num_bins) 0) 0
    75 (fdiv (double_of_Z 75) (double_of_Z 100)).

(** Conversion of a [double] to [int]: truncation; outside the range of [int]
    it is undefined. *)
Definition int_of_double (x : spec_float) : option Z :=
  match x with
  | S754_zero _ => Some 0
  | S754_finite s m e =>
      let a := Z.shiftl (Zpos m) e in int_chk (if s then - a else a)
  | _ => None
  end.

Definition find_bin (value : spec_float) (t : Histogram) : option Z :=
  let bin := fsub (fmul (fdiv value (range_ t)) (double_of_Z (num_bins_ t))) (double_of_Z 1) in
  let bin := if SFltb bin (double_of_Z 0) then double_of_Z 0 else bin in
  int_of_double bin.

Definition hist_insert (value : spec_float) (t : Histogram) : option Histogram :=
  bin ← find_bin value t;
  c ← counts_ t !! Z.to_nat bin;
  c' ← int_chk (c + 1);
  n' ← int_chk (num_values_ t + 1);
  Some (mkHistogram (num_bins_ t) (min_ t) (max_ t) (range_ t)
          (<[Z.to_nat bin := c']> (counts_ t)) (cumulative_ t) n' (q_ t) (r_ t)).

(** [for (i = num_bins_ - 1; i >= 0; --i)]: [k] is [i + 1]. *)
Fixpoint quantile_bin (k : nat) (counts : list Z) (cut : spec_float) (sum : Z) : option Z :=
  match k with
  | O => Some (-1)
  | S i =>
      c ← counts !! i;
      sum ← int_chk (sum + c);
      if SFltb cut (double_of_Z sum) then Some (Z.of_nat i + 1) else quantile_bin i counts cut sum
  end.

(** The argument [q] is not used: the quantile is always [r_]. *)
Definition get_quantile (q : Z) (t : Histogram) : option spec_float :=
  let cut := fmul (fsub (double_of_Z 1) (r_ t)) (double_of_Z (num_values_ t)) in
  q_bin ← quantile_bin (Z.to_nat (num_bins_ t)) (counts_ t) cut 0;
  Some (fdiv (double_of_Z q_bin) (double_of_Z (num_bins_ t))).

End Hist.

Import Hist.

(** ** The filters *)

Module BF.

Definition MAX_SEED : Z := 65535.

Definition get_bit (bits : list Z) (i : Z) : option bool :=
  b ← bits !! Z.to_nat (Z.shiftr i 3);
  Some (negb (Z.land (Z.shiftr b (Z.land i 0x07)) 1 =? 0)).

Definition reduce (x N : Z) : Z := to_u32 (Z.shiftr (to_u64 (x * N)) 32).

Definition hash (x seed : Z) : Z := to_u32 (to_u64 (to_u64 x * 0x9e3779b1)).

(** Set by [set_memory] only: the constructors leave these members
    uninitialised. *)
Record Window := mkWindow {
  hit_count_queue_ : list Z;
  probe_count_queue_ : list Z;
  queue_index_ : Z;
  memory_ : Z
}.

Record BloomFilter := mkBloom {
  num_cells_ : Z;
  num_hash_ : Z;
  seeds_ : list Z;
  cells_ : list Z;
  hit_count_ : Z;
  probe_count_ : Z;
  hit_count_queue_sum_ : Z;
  probe_count_queue_sum_ : Z;
  window_ : option Window;
  hist_ : Histogram;
  fk_name_ : string
}.

(** [rands] are the results of the calls of [rand()]. *)
Definition newBloomFilter (num_vals : Z) (rands : list Z) : option BloomFilter :=
  num_cells ← int_chk (num_vals * 100);
  if num_cells <? 0 then None else
  let num_bytes := to_i32 (num_cells / 8 + 1) in
  let num_hash := 3 in
  let seeds := map (fun r => Z.rem r MAX_SEED) (take 3 rands) in
  Some (mkBloom num_cells num_hash seeds (replicate (Z.to_nat num_bytes) 0) 0 0 0 0 None
          (newHistogram 100 0 1) EmptyString).

(** The destructor frees the queue pointers. *)
Definition destroy (b : BloomFilter) : option unit := _ ← window_ b; Some tt.

Definition set_cells (cs : list Z) (b : BloomFilter) : BloomFilter :=
  mkBloom (num_cells_ b) (num_hash_ b) (seeds_ b) cs (hit_count_ b) (probe_count_ b)
    (hit_count_queue_sum_ b) (probe_count_queue_sum_ b) (window_ b) (hist_ b) (fk_name_ b).

(** [cells_\[index / 8\] |= (1u << (index % 8u))] *)
Definition set_cell (index : Z) (cells : list Z) : option (list Z) :=
  if index <? 0 then None else
  c ← cells !! Z.to_nat (Z.quot index 8);
  Some (<[Z.to_nat (Z.quot index 8) := to_u8 (Z.lor c (Z.shiftl 1 (to_u32 index mod 8)))]> cells).

Section Filter.
(** The index of a hash value among [num_cells_] cells. *)
Variable index_of : Z -> Z -> option Z.

Fixpoint insert_loop (n k : nat) (val : Z) (b : BloomFilter) : option BloomFilter :=
  match n with
  | O => Some b
  | S n' =>
      s ← seeds_ b !! k;
      i ← index_of (hash val s) (num_cells_ b);
      cs ← set_cell (to_i32 i) (cells_ b);
      insert_loop n' (k + 1) val (set_cells cs b)
  end.

Definition insert (val : Z) (b : BloomFilter) : option BloomFilter :=
  insert_loop (Z.to_nat (num_hash_ b)) 0 val b.

Fixpoint probe_loop (n k : nat) (val : Z) (b : BloomFilter) : option bool :=
  match n with
  | O => Some true
  | S n' =>
      s ← seeds_ b !! k;
      i ← index_of (hash val s) (num_cells_ b);
      bit ← get_bit (cells_ b) i;
      if negb bit then Some false else probe_loop n' (k + 1) val b
  end.

Definition probe (val : Z) (b : BloomFilter) : option bool :=
  probe_loop (Z.to_nat (num_hash_ b)) 0 val b.

Fixpoint insert_all (vals : list Z) (b : BloomFilter) : option BloomFilter :=
  match vals with
  | [] => Some b
  | v :: vals' => b' ← insert v b; insert_all vals' b'
  end.

End Filter.

(** [BloomFilter]: multiply and shift. *)
Definition bloom_index (h num_cells : Z) : option Z := Some (reduce h (to_u32 num_cells)).

(** [BlockedBloomFilter]: remainder, with [num_cells_] converted to unsigned. *)
Definition blocked_index (h num_cells : Z) : option Z :=
  if to_u32 num_cells =? 0 then None else Some (h mod to_u32 num_cells).

(** *** Hit statistics *)

Definition get_hit_rate (b : BloomFilter) : spec_float :=
  if 0 <? probe_count_queue_sum_ b then
    fdiv (fmul (double_of_Z 1) (double_of_Z (hit_count_queue_sum_ b))) (double_of_Z (probe_count_queue_sum_ b))
  else double_of_Z 1.

Definition get_hit_rate_q (q : Z) (b : BloomFilter) : option spec_float := get_quantile q (hist_ b).

Definition get_hit_rate_estimate (q : Z) (b : BloomFilter) : option spec_float :=
  let frac := fdiv (double_of_Z q) (double_of_Z 100) in
  rq ← get_hit_rate_q q b;
  Some (fadd (fmul frac (get_hit_rate b)) (fmul (fsub (double_of_Z 1) frac) rq)).

Definition compare (lhs rhs : BloomFilter) : bool := SFltb (get_hit_rate lhs) (get_hit_rate rhs).

Definition compare2 (lhs rhs : BloomFilter) : option bool :=
  l ← get_hit_rate_estimate 75 lhs;
  r ← get_hit_rate_estimate 75 rhs;
  Some (SFltb l r).

Definition set_window (hc pc hs ps : Z) (w : option Window) (h : Histogram) (b : BloomFilter) : BloomFilter :=
  mkBloom (num_cells_ b) (num_hash_ b) (seeds_ b) (cells_ b) hc pc hs ps w h (fk_name_ b).

Definition set_memory (memory : Z) (b : BloomFilter) : option BloomFilter :=
  if memory <? 0 then None else
  let q := replicate (Z.to_nat memory) 0 in
  Some (set_window (hit_count_ b) (probe_count_ b) (hit_count_queue_sum_ b) (probe_count_queue_sum_ b)
          (Some (mkWindow q q (memory - 1) memory)) (hist_ b) b).

(** What the operators do to the public counters: [probe_count_ += probes],
    [hit_count_ += hits] *)
Definition count (probes hits : Z) (b : BloomFilter) : option BloomFilter :=
  p ← int_chk (probe_count_ b + probes);
  h ← int_chk (hit_count_ b + hits);
  Some (set_window h p (hit_count_queue_sum_ b) (probe_count_queue_sum_ b) (window_ b) (hist_ b) b).

(** The queue part of [update]. *)
Definition update_window (b : BloomFilter) : option BloomFilter :=
  w ← window_ b;
  if queue_index_ w <? 0 then None else
  let i := Z.to_nat (queue_index_ w) in
  h0 ← hit_count_queue_ w !! i;
  p0 ← probe_count_queue_ w !! i;
  hs ← int_chk (hit_count_queue_sum_ b - h0);
  ps ← int_chk (probe_count_queue_sum_ b - p0);
  let hq := <[i := hit_count_ b]> (hit_count_queue_ w) in
  let pq := <[i := probe_count_ b]> (probe_count_queue_ w) in
  let qi := queue_index_ w - 1 in
  let qi := if qi <? 0 then memory_ w - 1 else qi in
  hs ← int_chk (hs + hit_count_ b);
  ps ← int_chk (ps + probe_count_ b);
  Some (set_window 0 0 hs ps (Some (mkWindow hq pq qi (memory_ w))) (hist_ b) b).

Definition update (b : BloomFilter) : option BloomFilter :=
  b ← update_window b;
  h ← hist_insert (get_hit_rate b) (hist_ b);
  Some (set_window (hit_count_ b) (probe_count_ b) (hit_count_queue_sum_ b) (probe_count_queue_sum_ b)
          (window_ b) h b).

Definition set_fact_fk_name (name : string) (b : BloomFilter) : BloomFilter :=
  mkBloom (num_cells_ b) (num_hash_ b) (seeds_ b) (cells_ b) (hit_count_ b) (probe_count_ b)
    (hit_count_queue_sum_ b) (probe_count_queue_sum_ b) (window_ b) (hist_ b) name.

Definition get_fact_fk_name (b : BloomFilter) : string := fk_name_ b.

Definition Reset (b : BloomFilter) : BloomFilter := set_window 0 0 0 0 (window_ b) (hist_ b) b.

End BF.

Import BF.

Local Ltac Zify.zify_post_hook ::= Z.to_euclidean_division_equations.

(** ** The bits of a filter *)

Module BloomBits.

Definition bit_at (cells : list Z) (i : Z) : bool :=
  Z.testbit (nth (Z.to_nat (i / 8)) cells 0) (i mod 8).

Lemma land1_testbit b k : 0 <= k -> negb (Z.land (Z.shiftr b k) 1 =? 0) = Z.testbit b k.
Proof.
  intros Hk. change 1 with (Z.ones 1). rewrite Z.land_ones by lia. change (2 ^ 1) with 2.
  rewrite <- Z.bit0_mod, Z.shiftr_spec, Z.add_0_l by lia. by destruct (Z.testbit b k).
Qed.

Lemma get_bit_ok cells i :
  0 <= i -> i / 8 < Z.of_nat (length cells) -> get_bit cells i = Some (bit_at cells i).
Proof.
  intros Hi Hl. unfold get_bit, bit_at. rewrite Z.shiftr_div_pow2 by lia. change (2 ^ 3) with 8.
  destruct (lookup_lt_is_Some_2 cells (Z.to_nat (i / 8))) as [b Hb]; [lia |].
  rewrite Hb. cbn [mbind option_bind]. rewrite (nth_lookup_Some _ _ _ _ Hb).
  rewrite (land_ones_mod i 3 7) by (done || lia). change (2 ^ 3) with 8.
  rewrite land1_testbit by lia. done.
Qed.

Lemma set_cell_ok cells i :
  0 <= i < 2 ^ 31 -> i / 8 < Z.of_nat (length cells) -> Forall is_byte cells ->
  exists cs, set_cell i cells = Some cs /\ length cs = length cells /\ Forall is_byte cs /\
    forall j, 0 <= j -> bit_at cs j = bit_at cells j || (j =? i).
Proof.
  intros Hi Hl Hb. unfold set_cell. rewrite (proj2 (Z.ltb_ge i 0)) by lia.
  rewrite Z.quot_div_nonneg by lia.
  destruct (lookup_lt_is_Some_2 cells (Z.to_nat (i / 8))) as [c Hc]; [lia |].
  rewrite Hc. cbn [mbind option_bind].
  assert (is_byte c) as Hcb by (eapply Forall_lookup_1; [exact Hb | exact Hc]).
  rewrite (wrapu_id 32) by (unfold is_u; lia).
  assert (is_byte (Z.shiftl 1 (i mod 8))) as Hsb.
  { unfold is_u. rewrite Z.shiftl_1_l. split; [apply Z.pow_nonneg; lia |].
    apply Z.pow_lt_mono_r; lia. }
  rewrite wrapu_id by (apply lor_lt; [lia | done | done]).
  eexists. split; [reflexivity |]. split_and!.
  - apply length_insert.
  - apply Forall_insert; [done |]. apply lor_lt; [lia | done | done].
  - intros j Hj. unfold bit_at. rewrite !nth_lookup.
    destruct (decide (Z.to_nat (j / 8) = Z.to_nat (i / 8))) as [E | E].
    + rewrite E, list_lookup_insert_eq by lia. rewrite Hc. cbn [from_option id].
      rewrite Z.lor_spec, Z.shiftl_1_l. f_equal.
      rewrite Z.pow2_bits_eqb by lia. destruct (Z.eqb_spec (i mod 8) (j mod 8)), (Z.eqb_spec j i); lia.
    + rewrite list_lookup_insert_ne by done. rewrite (proj2 (Z.eqb_neq j i)) by lia.
      by rewrite orb_false_r.
Qed.

(** What a filter requires of its index function, from [lo] cells on. *)
Class IndexLaw (index_of : Z -> Z -> option Z) (lo : Z) :=
  index_bound : forall h n, is_u 32 h -> lo <= n < 2 ^ 31 ->
    exists i, index_of h n = Some i /\ 0 <= i <= n.

#[export] Instance bloom_index_law : IndexLaw bloom_index 0.
Proof.
  intros h n Hh Hn. unfold bloom_index, reduce. eexists. split; [reflexivity |].
  unfold is_u in Hh. rewrite (wrapu_id 32 n) by (unfold is_u; lia).
  assert (0 <= h * n <= 2 ^ 32 * n) by nia.
  rewrite (wrapu_id 64) by (unfold is_u; nia).
  rewrite Z.shiftr_div_pow2 by lia.
  assert (0 <= h * n / 2 ^ 32 <= n) as Hd.
  { split; [apply Z.div_pos; lia |]. apply Z.div_le_upper_bound; lia. }
  rewrite wrapu_id by (unfold is_u; lia). exact Hd.
Qed.

#[export] Instance blocked_index_law : IndexLaw blocked_index 1.
Proof.
  intros h n Hh Hn. unfold blocked_index. rewrite (wrapu_id 32 n) by (unfold is_u; lia).
  rewrite (proj2 (Z.eqb_neq n 0)) by lia. eexists. split; [reflexivity |].
  pose proof (Z.mod_pos_bound h n). lia.
Qed.

(** The cell of a value; [hash] does not depend on its seed. *)
Definition cell (index_of : Z -> Z -> option Z) (num_cells v : Z) : Z :=
  default 0 (index_of (hash v 0) num_cells).

Record bloom_ok (lo : Z) (b : BloomFilter) : Prop := mkBloomOk {
  ok_cells : lo <= num_cells_ b < 2 ^ 31;
  ok_pos : 0 <= num_cells_ b;
  ok_hash : num_hash_ b = 3;
  ok_seeds : length (seeds_ b) = 3%nat;
  ok_len : Z.of_nat (length (cells_ b)) = num_cells_ b / 8 + 1;
  ok_bytes : Forall is_byte (cells_ b)
}.

Section Laws.
Context {index_of : Z -> Z -> option Z} {lo : Z} {L : IndexLaw index_of lo}.

Lemma hash_u32 v s : is_u 32 (hash v s).
Proof. apply wrapu_is_u. lia. Qed.

Lemma cell_ok b v s : bloom_ok lo b ->
  index_of (hash v s) (num_cells_ b) = Some (cell index_of (num_cells_ b) v) /\
  0 <= cell index_of (num_cells_ b) v <= num_cells_ b.
Proof.
  intros H. unfold cell. change (hash v s) with (hash v 0).
  destruct (index_bound (hash v 0) (num_cells_ b) (hash_u32 v 0) (ok_cells _ _ H)) as (i & -> & Hi).
  done.
Qed.

Lemma insert_loop_ok n k v b :
  bloom_ok lo b -> (n + k = 3)%nat ->
  exists cs, insert_loop index_of n k v b = Some (set_cells cs b) /\ bloom_ok lo (set_cells cs b) /\
    forall j, 0 <= j -> bit_at cs j =
      bit_at (cells_ b) j || (negb (n =? 0)%nat && (j =? cell index_of (num_cells_ b) v)).
Proof.
  revert k b. induction n as [|n IH]; intros k b Hb Hk; cbn [insert_loop].
  { exists (cells_ b). destruct b. split_and!; [done | done |]. intros. by rewrite orb_false_r. }
  destruct (lookup_lt_is_Some_2 (seeds_ b) k) as [s ->].
  { rewrite (ok_seeds _ _ Hb). lia. }
  cbn [mbind option_bind]. destruct (cell_ok b v s Hb) as [-> Hc]. cbn [mbind option_bind].
  set (c := cell index_of (num_cells_ b) v) in *.
  pose proof (ok_cells _ _ Hb) as Hn. pose proof (ok_len _ _ Hb) as Hl.
  rewrite wraps_id by (unfold is_s; change (2 ^ (32 - 1)) with (2 ^ 31); lia).
  destruct (set_cell_ok (cells_ b) c) as (cs & -> & H1 & H2 & H3); [lia | lia | apply Hb |].
  cbn [mbind option_bind].
  assert (bloom_ok lo (set_cells cs b)) as Hb1.
  { destruct Hb. constructor; cbn; auto; lia. }
  destruct (IH (k + 1)%nat (set_cells cs b) Hb1) as (cs' & E & Hb' & Hbits); [lia |].
  exists cs'. split_and!; [exact E | exact Hb' |]. intros j Hj.
  rewrite (Hbits j Hj). cbn [cells_ num_cells_ set_cells]. rewrite H3 by done. fold c.
  cbn [Nat.eqb negb andb]. destruct (j =? c), (bit_at (cells_ b) j), (n =? 0)%nat; done.
Qed.

Lemma probe_loop_ok n k v b :
  bloom_ok lo b -> (n + k = 3)%nat ->
  probe_loop index_of n k v b =
  Some ((n =? 0)%nat || bit_at (cells_ b) (cell index_of (num_cells_ b) v)).
Proof.
  intros Hb. revert k. induction n as [|n IH]; intros k Hk; cbn [probe_loop]; [done |].
  destruct (lookup_lt_is_Some_2 (seeds_ b) k) as [s ->].
  { rewrite (ok_seeds _ _ Hb). lia. }
  cbn [mbind option_bind]. destruct (cell_ok b v s Hb) as [-> Hc]. cbn [mbind option_bind].
  pose proof (ok_len _ _ Hb) as Hl. pose proof (ok_pos _ _ Hb).
  rewrite get_bit_ok by lia. cbn [mbind option_bind].
  destruct (bit_at _ _); cbn; [| done]. rewrite IH by lia. by rewrite orb_true_r.
Qed.

Lemma insert_all_ok vals b :
  bloom_ok lo b ->
  exists cs, insert_all index_of vals b = Some (set_cells cs b) /\ bloom_ok lo (set_cells cs b) /\
    forall j, 0 <= j -> bit_at cs j =
      bit_at (cells_ b) j || existsb (fun v => j =? cell index_of (num_cells_ b) v) vals.
Proof.
  revert b. induction vals as [|v vals IH]; intros b Hb; cbn [insert_all existsb].
  { exists (cells_ b). destruct b. split_and!; [done | done |]. intros. by rewrite orb_false_r. }
  unfold insert. rewrite (ok_hash _ _ Hb). change (Z.to_nat 3) with 3%nat.
  destruct (insert_loop_ok 3 0 v b Hb) as (cs & -> & Hb1 & Hbits); [done |]. cbn [mbind option_bind].
  destruct (IH (set_cells cs b) Hb1) as (cs' & E & Hb' & Hbits').
  exists cs'. split_and!; [exact E | exact Hb' |]. intros j Hj.
  rewrite (Hbits' j Hj). cbn [cells_ num_cells_ set_cells]. rewrite (Hbits j Hj). cbn.
  by rewrite orb_assoc.
Qed.

Lemma new_ok n rands :
  lo <= n * 100 < 2 ^ 31 -> 0 <= n -> (3 <= length rands)%nat ->
  exists b, newBloomFilter n rands = Some b /\ bloom_ok lo b /\ num_cells_ b = n * 100 /\
    forall j, bit_at (cells_ b) j = false.
Proof.
  intros Hn Hpos Hr. unfold newBloomFilter.
  rewrite int_chk_id by (unfold is_s; change (2 ^ (32 - 1)) with (2 ^ 31); lia).
  cbn [mbind option_bind]. rewrite (proj2 (Z.ltb_ge (n * 100) 0)) by lia.
  rewrite (wraps_id 32) by (unfold is_s; change (2 ^ (32 - 1)) with (2 ^ 31); lia).
  eexists. split; [reflexivity |]. split_and!; [| done |].
  - constructor; cbn [num_cells_ num_hash_ seeds_ cells_]; try done; try lia.
    + rewrite length_map, length_take. lia.
    + rewrite length_replicate. lia.
    + apply Forall_replicate. unfold is_u. lia.
  - intros j. unfold bit_at. cbn [cells_]. rewrite nth_lookup.
    destruct (replicate _ 0 !! _) as [x|] eqn:E; cbn; [| apply Z.bits_0].
    apply lookup_replicate in E as [-> _]. apply Z.bits_0.
Qed.

End Laws.

End BloomBits.

Import BloomBits.

(** ** The sliding window of hit statistics *)

Module WindowSpec.

Lemma zsum_rev l : zsum (rev l) = zsum l.
Proof.
  induction l as [|x l IH]; [done |]. cbn [rev]. rewrite zsum_app, IH, !zsum_cons.
  change (zsum []) with 0. lia.
Qed.

(** The circular queue in chronological order, from the oldest entry, which is
    the one at [i], downwards. *)
Definition chron (i : nat) (q : list Z) : list Z := rev (take (i + 1) q) ++ rev (drop (i + 1) q).

Lemma chron_split i q x :
  q !! i = Some x ->
  chron i q = x :: (rev (take i q) ++ rev (drop (i + 1) q)).
Proof.
  intros E. unfold chron. rewrite Nat.add_1_r, (take_S_r _ _ _ E).
  rewrite rev_app_distr. done.
Qed.

Lemma chron_next m i q x y :
  length q = m -> q !! i = Some x ->
  chron (if (i =? 0)%nat then m - 1 else i - 1)%nat (<[i := y]> q) =
  (rev (take i q) ++ rev (drop (i + 1) q)) ++ [y].
Proof.
  intros Hl E. pose proof (lookup_lt_Some _ _ _ E) as Hi.
  assert (<[i := y]> q = take i q ++ y :: drop (i + 1) q) as ->.
  { rewrite Nat.add_1_r. apply insert_take_drop. done. }
  assert (length (take i q) = i) as Ht by (rewrite length_take; lia).
  unfold chron. destruct (Nat.eqb_spec i 0) as [-> | Hne].
  - change (take 0 q) with (@nil Z). cbn [app].
    assert (length (drop (0 + 1) q) = m - 1)%nat as Hd by (rewrite length_drop; lia).
    set (B := drop (0 + 1) q) in *. rewrite take_ge, drop_ge by (cbn [length]; lia).
    cbn [rev app]. by rewrite app_nil_r.
  - replace (i - 1 + 1)%nat with i by lia.
    rewrite take_app_length', drop_app_length' by done. cbn [rev]. by rewrite app_assoc.
Qed.

Lemma zsum_chron i q : zsum (chron i q) = zsum q.
Proof.
  unfold chron. rewrite zsum_app, !zsum_rev, <- zsum_app, take_drop. done.
Qed.

Lemma rev_zeros k : rev (replicate k 0) = replicate k 0.
Proof.
  induction k as [|k IH]; [done |]. cbn [replicate rev]. rewrite IH.
  symmetry. apply (replicate_cons_app k 0).
Qed.

Lemma map_zeros (f : Z * Z -> Z) k : f (0, 0) = 0 -> map f (replicate k (0, 0)) = replicate k 0.
Proof. intros H. rewrite <- H at 3. apply (fmap_replicate f k (0, 0)). Qed.

Lemma zsum_zeros k : zsum (replicate k 0) = 0.
Proof. induction k as [|k IH]; [done |]. cbn [replicate]. rewrite zsum_cons, IH. done. Qed.

(** The statistics describe the batches [W], oldest first. *)
Definition window_ok (m : nat) (W : list (Z * Z)) (b : BloomFilter) : Prop :=
  exists w, window_ b = Some w /\ memory_ w = Z.of_nat m /\ 0 <= queue_index_ w < Z.of_nat m /\
    length (hit_count_queue_ w) = m /\ length (probe_count_queue_ w) = m /\
    chron (Z.to_nat (queue_index_ w)) (hit_count_queue_ w) = map fst W /\
    chron (Z.to_nat (queue_index_ w)) (probe_count_queue_ w) = map snd W /\
    hit_count_queue_sum_ b = zsum (map fst W) /\ probe_count_queue_sum_ b = zsum (map snd W).

(** A batch of probes: its tasks add their hits and probes to the counters one
    after the other, then the operator calls [update]. *)
Fixpoint count_all (tasks : list (Z * Z)) (b : BloomFilter) : option BloomFilter :=
  match tasks with
  | [] => Some b
  | hp :: tasks' => b' ← count (snd hp) (fst hp) b; count_all tasks' b'
  end.

Fixpoint run_batches (batches : list (list (Z * Z))) (b : BloomFilter) : option BloomFilter :=
  match batches with
  | [] => Some b
  | tasks :: rest => b ← count_all tasks b; b ← update b; run_batches rest b
  end.

(** The hits and probes of a batch. *)
Definition total (tasks : list (Z * Z)) : Z * Z := (zsum (map fst tasks), zsum (map snd tasks)).

Definition counts_ok (W : list (Z * Z)) : Prop :=
  Forall (fun hp => 0 <= fst hp /\ 0 <= snd hp) W /\
  zsum (map fst W) < 2 ^ 31 /\ zsum (map snd W) < 2 ^ 31.

Lemma counts_ok_tail x W : counts_ok (x :: W) -> counts_ok W.
Proof.
  intros (Hf & B1 & B2). apply Forall_cons in Hf as [[P1 P2] Hf]. cbn [map] in *. rewrite !zsum_cons in *.
  split_and!; [done | lia | lia].
Qed.

Lemma counts_ok_app W W' : counts_ok (W ++ W') -> counts_ok W.
Proof.
  intros (H & B1 & B2). apply Forall_app in H as [H1 H2]. rewrite !map_app, !zsum_app in *.
  assert (forall f : Z * Z -> Z, (forall hp, 0 <= fst hp /\ 0 <= snd hp -> 0 <= f hp) -> 0 <= zsum (map f W')) as Hf.
  { intros f Hf. apply zsum_nonneg, Forall_map. eapply Forall_impl; [exact H2 | auto]. }
  pose proof (Hf fst (fun _ P => proj1 P)). pose proof (Hf snd (fun _ P => proj2 P)).
  split_and!; [done | lia | lia].
Qed.

Lemma update_window_ok m w0 W b (hp := (hit_count_ b, probe_count_ b)) :
  window_ok m (w0 :: W) b -> counts_ok (w0 :: W ++ [hp]) ->
  exists b', update_window b = Some b' /\ window_ok m (W ++ [hp]) b'.
Proof.
  intros (w & Hw & Hm & Hq & Hl1 & Hl2 & C1 & C2 & S1 & S2) (Hpos & B1 & B2).
  unfold update_window. rewrite Hw. cbn [mbind option_bind].
  rewrite (proj2 (Z.ltb_ge (queue_index_ w) 0)) by lia.
  set (i := Z.to_nat (queue_index_ w)) in *.
  destruct (lookup_lt_is_Some_2 (hit_count_queue_ w) i) as [h0 E1]; [lia |].
  destruct (lookup_lt_is_Some_2 (probe_count_queue_ w) i) as [p0 E2]; [lia |].
  rewrite E1, E2. cbn [mbind option_bind].
  rewrite (chron_split _ _ _ E1) in C1. rewrite (chron_split _ _ _ E2) in C2.
  injection C1 as -> C1. injection C2 as -> C2.
  rewrite S1, S2. cbn [map] in *. rewrite map_app in B1, B2. rewrite !zsum_cons in *.
  rewrite zsum_app in B1, B2. cbn [map] in B1, B2. rewrite zsum_cons in B1, B2.
  change (zsum []) with 0 in *.
  apply Forall_cons in Hpos as [[P1 P2] Hpos]. apply Forall_app in Hpos as [PW Ph].
  apply Forall_singleton in Ph as [P3 P4]. cbn [hp fst snd] in *.
  assert (0 <= zsum (map fst W)) as Q1 by (apply zsum_nonneg, Forall_map; eapply Forall_impl; [exact PW | tauto]).
  assert (0 <= zsum (map snd W)) as Q2 by (apply zsum_nonneg, Forall_map; eapply Forall_impl; [exact PW | tauto]).
  rewrite !(int_chk_id (_ - _)) by (unfold is_s; change (2 ^ (32 - 1)) with (2 ^ 31); lia).
  cbn [mbind option_bind].
  rewrite !int_chk_id by (unfold is_s; change (2 ^ (32 - 1)) with (2 ^ 31); lia).
  cbn [mbind option_bind]. eexists. split; [reflexivity |].
  eexists. split; [reflexivity |].
  cbn [memory_ queue_index_ hit_count_queue_ probe_count_queue_ hit_count_queue_sum_ probe_count_queue_sum_ set_window].
  assert (Z.to_nat (if queue_index_ w - 1 <? 0 then memory_ w - 1 else queue_index_ w - 1) =
          if (i =? 0)%nat then (m - 1)%nat else (i - 1)%nat) as ->.
  { unfold i. destruct (Z.ltb_spec (queue_index_ w - 1) 0), (Nat.eqb_spec (Z.to_nat (queue_index_ w)) 0); lia. }
  rewrite (chron_next m _ _ _ _ Hl1 E1), (chron_next m _ _ _ _ Hl2 E2), C1, C2, !map_app, !zsum_app, !length_insert.
  cbn [map]. rewrite !zsum_cons. change (zsum []) with 0.
  change (fst hp) with (hit_count_ b). change (snd hp) with (probe_count_ b).
  split_and!; try done; try lia; destruct (Z.ltb_spec (queue_index_ w - 1) 0); lia.
Qed.

Lemma set_memory_ok m b :
  (0 < m)%nat -> hit_count_queue_sum_ b = 0 -> probe_count_queue_sum_ b = 0 ->
  exists b1, set_memory (Z.of_nat m) b = Some b1 /\ window_ok m (replicate m (0, 0)) b1.
Proof.
  intros Hm H1 H2. unfold set_memory. rewrite (proj2 (Z.ltb_ge _ 0)) by lia.
  eexists. split; [reflexivity |]. eexists. split; [reflexivity |].
  cbn [memory_ queue_index_ hit_count_queue_ probe_count_queue_ hit_count_queue_sum_ probe_count_queue_sum_ set_window].
  rewrite Nat2Z.id, !length_replicate. unfold chron.
  rewrite take_ge, drop_ge by (rewrite length_replicate; lia). cbn [rev].
  rewrite app_nil_r, rev_zeros, !map_zeros, zsum_zeros by done. split_and!; try done; lia.
Qed.

(** *** The histogram of the rates *)

(** The hit rate of [h] hits in [p] probes. *)
Definition rate (h p : Z) : spec_float :=
  if 0 <? p then fdiv (fmul (double_of_Z 1) (double_of_Z h)) (double_of_Z p) else double_of_Z 1.

(** In the arithmetic of doubles, hit rates fall into the bins of the histogram. *)
Definition rates_ok (N : Z) : Prop := forall h p, 0 <= h <= p -> p <= N ->
  exists bin, find_bin (rate h p) (newHistogram 100 0 1) = Some bin /\ 0 <= bin < 100.

Definition hist_ok (k : Z) (h : Histogram) : Prop :=
  num_bins_ h = 100 /\ range_ h = double_of_Z 1 /\ length (counts_ h) = 100%nat /\ Forall (fun c => 0 <= c <= k) (counts_ h) /\ 0 <= num_values_ h <= k.

Lemma newHistogram_ok : hist_ok 0 (newHistogram 100 0 1).
Proof. unfold hist_ok, newHistogram. split_and!; [done | done | done | | done | done]. cbn [counts_]. apply Forall_replicate. lia. Qed.

Lemma hist_insert_ok k h x bin : hist_ok k h -> k + 1 < 2 ^ 31 -> find_bin x (newHistogram 100 0 1) = Some bin -> 0 <= bin < 100 ->
  exists h', hist_insert x h = Some h' /\ hist_ok (k + 1) h'.
Proof.
  intros (H1 & H2 & H3 & H4 & H5) Hk Eb Hb. unfold hist_insert. assert (find_bin x h = Some bin) as ->.
  { rewrite <- Eb. unfold find_bin. rewrite H1, H2. done. }
  cbn [mbind option_bind]. destruct (lookup_lt_is_Some_2 (counts_ h) (Z.to_nat bin)) as [c Ec]; [lia |]. rewrite Ec. cbn [mbind option_bind].
  pose proof (Forall_lookup_1 _ _ _ _ H4 Ec) as Hc. cbv beta in Hc.
  rewrite !int_chk_id by (unfold is_s; change (2 ^ (32 - 1)) with (2 ^ 31); lia). cbn [mbind option_bind].
  eexists. split; [reflexivity |]. unfold hist_ok. cbn. rewrite length_insert. split_and!; try done; try lia.
  apply Forall_insert; [eapply Forall_impl; [exact H4 | cbv beta; lia] | lia].
Qed.

Lemma update_window_inv b b' : update_window b = Some b' -> exists hs ps w, b' = set_window 0 0 hs ps w (hist_ b) b.
Proof.
  unfold update_window. intros E. repeat (match type of E with
    | (mbind _ ?x) = _ => destruct x; cbn [mbind option_bind] in E; [| done]
    | (if ?c then _ else _) = _ => destruct c; [done |] end). injection E as <-. eauto.
Qed.

Lemma count_all_ok tasks : forall b, Forall (fun hp => 0 <= fst hp <= snd hp) tasks -> 0 <= hit_count_ b <= probe_count_ b ->
  probe_count_ b + snd (total tasks) < 2 ^ 31 ->
  count_all tasks b = Some (set_window (hit_count_ b + fst (total tasks)) (probe_count_ b + snd (total tasks))
    (hit_count_queue_sum_ b) (probe_count_queue_sum_ b) (window_ b) (hist_ b) b).
Proof.
  induction tasks as [|[h p] tasks IH]; intros b HF Hb Hs; cbn [count_all].
  { cbn. rewrite !Z.add_0_r. by destruct b. }
  apply Forall_cons in HF as [Hhp HF]. cbn [fst snd] in Hhp. unfold total in Hs. cbn [map fst snd] in Hs. rewrite zsum_cons in Hs.
  assert (0 <= zsum (map fst tasks) <= zsum (map snd tasks)) as Ht.
  { clear -HF. induction HF as [|x l Hx _ IH]; cbn [map]; rewrite ?zsum_cons; [by cbn | lia]. }
  unfold count. cbn [fst snd].
  do 2 (rewrite int_chk_id by (unfold is_s; change (2 ^ (32 - 1)) with (2 ^ 31); lia); cbn [mbind option_bind]).
  rewrite IH; [| done | cbn; lia | cbn; lia]. unfold total. cbn [map fst snd hit_count_ probe_count_ set_window hit_count_queue_sum_ probe_count_queue_sum_ window_ hist_].
  rewrite !zsum_cons. f_equal. destruct b. unfold set_window. cbn. f_equal; lia.
Qed.

(** Hits are probes. *)
Definition hits_ok (W : list (Z * Z)) : Prop := Forall (fun hp => 0 <= fst hp <= snd hp) W.

Lemma hits_ok_sums W : hits_ok W -> 0 <= zsum (map fst W) <= zsum (map snd W).
Proof. induction 1 as [|x l Hx _ IH]; cbn [map]; rewrite ?zsum_cons; [by cbn | lia]. Qed.

Lemma hits_counts W : hits_ok W -> zsum (map snd W) < 2 ^ 31 -> counts_ok W.
Proof.
  intros H Hs. pose proof (hits_ok_sums W H). split_and!; [| lia | lia]. eapply Forall_impl; [exact H |]. cbv beta. lia.
Qed.

(** Between two batches: the counters are zero. *)
Record resting (m : nat) (k : Z) (W : list (Z * Z)) (b : BloomFilter) : Prop := {
  re_window : window_ok m W b;
  re_hits : hit_count_ b = 0;
  re_probes : probe_count_ b = 0;
  re_hist : hist_ok k (hist_ b)
}.

Lemma batch_ok m N k w0 W tasks b : resting m k (w0 :: W) b -> hits_ok (w0 :: W) -> hits_ok tasks -> rates_ok N -> k + 1 < 2 ^ 31 ->
  zsum (map snd (w0 :: W ++ [total tasks])) <= N -> N < 2 ^ 31 ->
  exists b1 b2, count_all tasks b = Some b1 /\ update b1 = Some b2 /\ resting m (k + 1) (W ++ [total tasks]) b2 /\ hits_ok (W ++ [total tasks]).
Proof.
  intros [Hw H1 H2 Hh] HW Ht HR Hk HN HN31. pose proof (hits_ok_sums tasks Ht) as Hts.
  assert (hits_ok [total tasks]) as Hto by (by apply Forall_singleton). apply Forall_cons in HW as [Hw0 HW].
  assert (hits_ok (W ++ [total tasks])) as HW' by (by apply Forall_app). pose proof (hits_ok_sums _ HW') as Hs'. pose proof (hits_ok_sums _ HW) as HsW.
  pose proof HN as HN'. cbn [map] in HN. rewrite zsum_cons, map_app, zsum_app in HN. cbn [map] in HN. rewrite zsum_cons in HN. change (zsum []) with 0 in HN.
  rewrite map_app, zsum_app in Hs'. cbn [map] in Hs'. rewrite !zsum_cons in Hs'. change (zsum []) with 0 in Hs'. cbn [total fst snd] in *.
  pose proof (count_all_ok tasks b Ht ltac:(lia) ltac:(cbn [total snd]; lia)) as Ec. rewrite H1, H2 in Ec. cbn [total fst snd Z.add] in Ec. set (b1 := set_window _ _ _ _ _ _ _) in Ec.
  destruct (update_window_ok m w0 W b1) as (b2 & E2 & Hw2); [exact Hw | |].
  { apply hits_counts; [by constructor |]. change (hit_count_ b1, probe_count_ b1) with (total tasks). lia. }
  change (hit_count_ b1, probe_count_ b1) with (total tasks) in Hw2. destruct (update_window_inv b1 b2 E2) as (hs & ps & w & Eb2).
  assert (get_hit_rate b2 = rate (zsum (map fst (W ++ [total tasks]))) (zsum (map snd (W ++ [total tasks])))) as Er.
  { destruct Hw2 as (w' & _ & _ & _ & _ & _ & _ & _ & Hs1 & Hs2). unfold get_hit_rate, rate. by rewrite Hs1, Hs2. }
  destruct (HR (zsum (map fst (W ++ [total tasks]))) (zsum (map snd (W ++ [total tasks])))) as (bin & Ebin & Hbin).
  { rewrite !map_app, !zsum_app. cbn [map]. rewrite !zsum_cons. change (zsum []) with 0. cbn [total fst snd]. lia. }
  { rewrite map_app, zsum_app. cbn [map]. rewrite zsum_cons. change (zsum []) with 0. cbn [total snd]. lia. }
  rewrite <- Er in Ebin. destruct (hist_insert_ok k (hist_ b2) (get_hit_rate b2) bin) as (h & Eh & Hh'); [by rewrite Eb2 | done | done | done |].
  eexists _, _. split_and!; [exact Ec | unfold update; rewrite E2; cbn [mbind option_bind]; rewrite Eh; reflexivity | | done].
  constructor; [| by rewrite Eb2 | by rewrite Eb2 | exact Hh']. destruct Hw2 as (w' & Hw2). exists w'. exact Hw2.
Qed.

Lemma run_batches_ok m N batches : forall k W b, resting m k W b -> length W = m -> hits_ok W -> Forall hits_ok batches -> rates_ok N -> N < 2 ^ 31 ->
  0 <= k -> k + Z.of_nat (length batches) < 2 ^ 31 -> zsum (map snd (W ++ map total batches)) <= N ->
  exists b', run_batches batches b = Some b' /\ resting m (k + Z.of_nat (length batches)) (drop (length batches) (W ++ map total batches)) b'.
Proof.
  induction batches as [|tasks batches IH]; intros k W b Hb HW Hh HF HR HN Hk Hkn Hs.
  { cbn. rewrite app_nil_r, Z.add_0_r, drop_0. eauto. }
  destruct W as [|w0 W]; [destruct Hb as [(w & _ & _ & ? & _) _ _ _]; cbn in HW; lia |]. apply Forall_cons in HF as [Ht HF].
  cbn [map app] in Hs. rewrite zsum_cons, map_app, zsum_app in Hs. cbn [map] in Hs. rewrite zsum_cons in Hs.
  assert (0 <= zsum (map snd (map total batches))) as Hpos.
  { clear -HF. induction HF as [|t l Htl _ IH]; cbn [map]; rewrite ?zsum_cons; [by cbn |]. pose proof (hits_ok_sums t Htl). cbn [total snd]. lia. }
  pose proof Hh as Hh0. apply Forall_cons in Hh0 as [Hw0 _]. cbn [length] in Hkn.
  destruct (batch_ok m N k w0 W tasks b Hb Hh Ht HR) as (b1 & b2 & E1 & E2 & Hb2 & Hh2); [lia | | lia |].
  { cbn [map]. rewrite zsum_cons, map_app, zsum_app. cbn [map]. rewrite zsum_cons. change (zsum []) with 0. lia. }
  cbn [run_batches]. rewrite E1. cbn [mbind option_bind]. rewrite E2. cbn [mbind option_bind].
  destruct (IH (k + 1) (W ++ [total tasks]) b2 Hb2) as (b' & E' & Hb'); [rewrite length_app; cbn in *; lia | done | done | done | done | lia | lia | |].
  { rewrite <- app_assoc, map_app, zsum_app. cbn [map app]. rewrite zsum_cons. lia. }
  exists b'. split; [exact E' |]. rewrite <- app_assoc in Hb'. cbn [length map app drop] in *. replace (k + Z.of_nat (S (length batches))) with (k + 1 + Z.of_nat (length batches)) by lia.
  exact Hb'.
Qed.

End WindowSpec.

Import WindowSpec.

(** ** Properties *)

(** C25: A Bloom filter of either kind is exact up to its cells: after building
    it for [n] values and inserting any list of values, no access leaves the
    arrays, and a probe answers [true] exactly when some inserted value falls
    into the same cell. *)
Theorem bloom_probe_exact (index_of : Z -> Z -> option Z) (lo : Z) (L : IndexLaw index_of lo)
    (n : Z) (rands vals : list Z) :
  lo <= n * 100 < 2 ^ 31 -> 0 <= n -> (3 <= length rands)%nat ->
  exists b0 b, newBloomFilter n rands = Some b0 /\ insert_all index_of vals b0 = Some b /\
    forall v, probe index_of v b =
      Some (existsb (fun u => cell index_of (n * 100) v =? cell index_of (n * 100) u) vals).
Proof.
  intros Hn Hpos Hr. destruct (new_ok n rands Hn Hpos Hr) as (b0 & E0 & Hb0 & Hc & Hz).
  destruct (insert_all_ok vals b0 Hb0) as (cs & E & Hb & Hbits).
  exists b0, (set_cells cs b0). split_and!; [done | done |]. intros v.
  unfold probe. cbn [num_hash_ set_cells]. rewrite (ok_hash _ _ Hb0). change (Z.to_nat 3) with 3%nat.
  rewrite (probe_loop_ok 3 0 v (set_cells cs b0) Hb) by done. cbn [Nat.eqb orb cells_ num_cells_ set_cells].
  rewrite Hbits by (apply (cell_ok b0 v 0 Hb0)). rewrite Hz, Hc. done.
Qed.

Lemma bloom_probe_exact_witness :
  exists b0 b, newBloomFilter 2 [11; 22; 33] = Some b0 /\ insert_all bloom_index [5; 7] b0 = Some b /\
    forall v, probe bloom_index v b =
      Some (existsb (fun u => cell bloom_index (2 * 100) v =? cell bloom_index (2 * 100) u) [5; 7]).
Proof. apply (bloom_probe_exact bloom_index 0); [apply bloom_index_law | lia | lia | cbn; lia]. Defined.

(** No false negatives: a value that was inserted, in whatever order and
    among whatever others, is found by a probe of either kind of filter. *)
Theorem bloom_no_false_negatives (index_of : Z -> Z -> option Z) (lo : Z) (L : IndexLaw index_of lo)
    (b0 b : BloomFilter) (vals : list Z) (v : Z) :
  bloom_ok lo b0 -> insert_all index_of vals b0 = Some b -> v ∈ vals ->
  probe index_of v b = Some true.
Proof.
  intros Hb0 E Hv. destruct (insert_all_ok vals b0 Hb0) as (cs & E' & Hb & Hbits).
  rewrite E in E'. injection E' as ->.
  unfold probe. cbn [num_hash_ set_cells]. rewrite (ok_hash _ _ Hb0). change (Z.to_nat 3) with 3%nat.
  rewrite (probe_loop_ok 3 0 v (set_cells cs b0) Hb) by done. cbn [Nat.eqb orb cells_ num_cells_ set_cells].
  rewrite Hbits by (apply (cell_ok b0 v 0 Hb0)). f_equal. apply orb_true_iff. right.
  apply existsb_exists. exists v. split; [by apply list_elem_of_In | apply Z.eqb_refl].
Qed.

Lemma bloom_no_false_negatives_witness :
  exists b, insert_all blocked_index [5; 7; -1] (mkBloom 100 3 [1; 2; 3] (replicate 13 0) 0 0 0 0 None
      (newHistogram 100 0 1) EmptyString) = Some b /\ probe blocked_index (-1) b = Some true.
Proof.
  eexists. split; [vm_compute; reflexivity |].
  eapply (bloom_no_false_negatives blocked_index 1 blocked_index_law
    (mkBloom 100 3 [1; 2; 3] (replicate 13 0) 0 0 0 0 None (newHistogram 100 0 1) EmptyString)
    _ [5; 7; -1]); [| vm_compute; reflexivity | right; right; left].
  constructor; try (cbn; lia). apply Forall_replicate. unfold is_u. lia.
Defined.


Lemma demo_rates_4 : rates_ok 4.
Proof.
  intros h p Hh Hp. assert (p = 0 \/ p = 1 \/ p = 2 \/ p = 3 \/ p = 4) as Ep by lia. assert (h = 0 \/ h = 1 \/ h = 2 \/ h = 3 \/ h = 4) as Ehh by lia.
  destruct_or!; subst; try lia; (eexists; split; [vm_compute; reflexivity | lia]).
Qed.


(** A [BlockedBloomFilter] built for no values cannot be used: its first
    insertion or probe divides by zero, where [BloomFilter] of the same size
    answers that the value is absent. *)
Theorem blocked_empty_divides_by_zero (rands : list Z) (b : BloomFilter) (v : Z) :
  (3 <= length rands)%nat -> newBloomFilter 0 rands = Some b ->
  insert blocked_index v b = None /\ probe blocked_index v b = None /\
  probe bloom_index v b = Some false.
Proof.
  intros Hr E.
  assert (probe bloom_index v b = Some false) as Hp.
  { destruct (new_ok (lo := 0) 0 rands) as (b' & E' & Hb & _ & Hz); [lia | lia | lia |].
    rewrite E in E'. injection E' as <-.
    unfold probe. rewrite (ok_hash _ _ Hb). change (Z.to_nat 3) with 3%nat.
    rewrite (probe_loop_ok 3 0 v b Hb) by done. by rewrite Hz. }
  destruct rands as [|r0 [|r1 [|r2 rs]]]; cbn in Hr; try lia.
  injection E as <-. split_and!; [reflexivity | reflexivity | exact Hp].
Qed.

Lemma blocked_empty_divides_by_zero_witness :
  exists b, newBloomFilter 0 [1; 2; 3] = Some b /\ insert blocked_index 42 b = None /\
    probe blocked_index 42 b = None /\ probe bloom_index 42 b = Some false.
Proof.
  eexists. split; [reflexivity |].
  apply (blocked_empty_divides_by_zero [1; 2; 3]); [cbn; lia | reflexivity].
Defined.
