(* ===== verification/ExecutionPlan.v ===== *)
(** * Execution plans (execution/execution_plan.h, execution/execution_plan.cc,
      operators/operator.h)

    A plan is a list of operators with producer/consumer links.  Executing it
    (inside a task) turns every operator into a task between an entry and an
    exit continuation.  The methods are modelled on the plan and on the
    scheduler of [Scheduler.v]; the theorems compose them with the scheduler's
    system of [SchedulerSystem.v]. *)

From Stdlib Require Import ZArith Lia.
From stdpp Require Import base numbers list gmap option relations.
Import stdpp.list_basics.list stdpp.list_relations.list stdpp.list_monad.list.
From S2P Require Import Prelude Scheduler SchedulerGraph SchedulerSystem.

Local Open Scope Z_scope.

Module Plan.

Section Plan.
(** [Body]: what a task runs.  [Result], [Column]: what the plan passes along. *)
Context {Body Result Column : Type}.

(** ** operator.h *)

Record Operator := mkOperator {
  op_index_ : nat;
  op_query_id_ : Z;
  op_body : Body
}.

Definition set_operator_index (i : nat) (op : Operator) : Operator :=
  mkOperator i (op_query_id_ op) (op_body op).

(** [createTask]: a lambda task around [execute]. *)
Definition createTask (op : Operator) : Task Body := newTask (op_body op).

(** What the lambda sets on its context before it calls [execute]. *)
Definition operator_context (op : Operator) (d : TaskDescription) : TaskDescription :=
  mkTaskDescription true true kRelationalOperator (op_query_id_ op) (task_name_ d).

(** ** execution_plan.h *)

(** [operators_] holds [unique_ptr]s: [None] is one that has been moved from. *)
Record ExecutionPlan := mkPlan {
  query_id_ : Z;
  operators_ : list (option Operator);
  plan_dependents_ : gmap nat (gset nat);
  input_result_ : option Result;
  result_out_ : option Result;
  result_cols_ : list Column
}.

Definition newExecutionPlan (query_id : Z) : ExecutionPlan := mkPlan query_id [] ∅ None None [].

Definition addOperator (op : Operator) (p : ExecutionPlan) : nat * ExecutionPlan :=
  let op_index := length (operators_ p) in
  (op_index,
   mkPlan (query_id_ p) (operators_ p ++ [Some (set_operator_index op_index op)]) (plan_dependents_ p)
     (input_result_ p) (result_out_ p) (result_cols_ p)).

Definition setOperatorResult (r : option Result) (p : ExecutionPlan) : ExecutionPlan :=
  mkPlan (query_id_ p) (operators_ p) (plan_dependents_ p) (input_result_ p) r (result_cols_ p).

Definition setInputOperatorResult (r : option Result) (p : ExecutionPlan) : ExecutionPlan :=
  mkPlan (query_id_ p) (operators_ p) (plan_dependents_ p) r (result_out_ p) (result_cols_ p).

Definition setResultColumns (cs : list Column) (p : ExecutionPlan) : ExecutionPlan :=
  mkPlan (query_id_ p) (operators_ p) (plan_dependents_ p) (input_result_ p) (result_out_ p) cs.

(** [*operators_\[op_index\]] *)
Definition getOperator (op_index : nat) (p : ExecutionPlan) : option Operator :=
  mjoin (operators_ p !! op_index).

Definition add_dependent (producer consumer : nat) (m : gmap nat (gset nat)) : gmap nat (gset nat) :=
  <[producer := {[consumer]} ∪ default ∅ (m !! producer)]> m.

Definition set_dependents (m : gmap nat (gset nat)) (p : ExecutionPlan) : ExecutionPlan :=
  mkPlan (query_id_ p) (operators_ p) m (input_result_ p) (result_out_ p) (result_cols_ p).

Definition createLink (producer consumer : nat) (p : ExecutionPlan) : ExecutionPlan :=
  set_dependents (add_dependent producer consumer (plan_dependents_ p)) p.

Definition getDependents (producer : nat) (p : ExecutionPlan) : gset nat :=
  default ∅ (plan_dependents_ p !! producer).

Definition plan_size (p : ExecutionPlan) : nat := length (operators_ p).

(** The body of [for (i = 0; i < plan.size(); i++)] in [merge]: all links of
    the other plan, shifted. *)
Definition merge_links (initial_op_size : nat) (dependents m : gmap nat (gset nat)) : gmap nat (gset nat) :=
  foldl (fun m '(producer_id, consumer_set) =>
           foldl (fun m consumer_id =>
                    add_dependent (producer_id + initial_op_size) (consumer_id + initial_op_size) m)
             m (elements consumer_set))
    m (map_to_list dependents).

(** [merge] moves the operators out of [plan]; returns both plans. *)
Definition merge (plan p : ExecutionPlan) : ExecutionPlan * ExecutionPlan :=
  let initial_op_size := length (operators_ p) in
  let p1 := mkPlan (query_id_ p) (operators_ p ++ operators_ plan) (plan_dependents_ p)
              (input_result_ p) (result_out_ p) (result_cols_ p) in
  let plan' := mkPlan (query_id_ plan) (replicate (length (operators_ plan)) None) (plan_dependents_ plan)
                 (input_result_ plan) (result_out_ plan) (result_cols_ plan) in
  let m := Nat.iter (plan_size plan) (merge_links initial_op_size (plan_dependents_ plan)) (plan_dependents_ p1) in
  (setResultColumns (result_cols_ plan) (setOperatorResult (result_out_ plan) (set_dependents m p1)), plan').

(** ** execution_plan.cc *)

Context {order : SetOrder}.

(** [v\[i\] = x] on a vector. *)
Definition vec_set (i : nat) (x : Z) (v : list Z) : option (list Z) :=
  if decide (i < length v)%nat then Some (<[i := x]> v) else None.

(** The loop over the operators. *)
Fixpoint execute_operators (ops : list (option Operator)) (c_enter c_exit : Continuation)
    (task_ids c_operators : list Z) (s : Scheduler Body) : option (list Z * list Z * Scheduler Body) :=
  match ops with
  | [] => Some (task_ids, c_operators, s)
  | op :: ops' =>
      op ← op;
      let (op_cont, s) := allocateContinuation s in
      '(op_task_id, s) ← addTask (createTask op) c_enter op_cont s;
      let s := addLink op_cont c_exit s in
      task_ids ← vec_set (op_index_ op) op_task_id task_ids;
      c_operators ← vec_set (op_index_ op) op_cont c_operators;
      execute_operators ops' c_enter c_exit task_ids c_operators s
  end.

(** The links of one producer. *)
Fixpoint execute_consumers (c_producer : Continuation) (consumers : list nat) (task_ids : list Z)
    (s : Scheduler Body) : option (Scheduler Body) :=
  match consumers with
  | [] => Some s
  | consumer :: rest =>
      t ← task_ids !! consumer;
      execute_consumers c_producer rest task_ids (addLink c_producer t s)
  end.

(** The loop over [dependents_]; neither container fixes its order. *)
Fixpoint execute_links (links : list (nat * gset nat)) (task_ids c_operators : list Z)
    (s : Scheduler Body) : option (Scheduler Body) :=
  match links with
  | [] => Some s
  | (producer, consumers) :: rest =>
      c_producer ← c_operators !! producer;
      s ← execute_consumers c_producer (elements consumers) task_ids s;
      execute_links rest task_ids c_operators s
  end.

(** [execute], run by the task [ctx]; [final] is what the last lambda does. *)
Definition execute (final : Body) (ctx : Task Body) (p : ExecutionPlan) (s : Scheduler Body)
    : option (Scheduler Body) :=
  _ ← DCHECK (has_scheduler ctx);
  let (c_enter, s) := allocateContinuation s in
  let (c_exit, s) := allocateContinuation s in
  let n := length (operators_ p) in
  '(task_ids, c_operators, s) ← execute_operators (operators_ p) c_enter c_exit (replicate n 0) (replicate n 0) s;
  s ← execute_links (map_to_list (plan_dependents_ p)) task_ids c_operators s;
  '(_, s) ← addTask (newTask final) c_exit (continuation_ ctx) s;
  fire c_enter s.

End Plan.
Arguments Operator : clear implicits.
Arguments ExecutionPlan : clear implicits.
End Plan.

Import Plan.

(** ** Clients of the scheduler

    The scheduler calls a running task makes one after the other are steps of
    the system.  [ext x y y'] collects what they keep; [x] is a node that no
    call makes a dependent. *)

Module Client.

Section Client.
Context {Body : Type} {order : SetOrder}.
Implicit Types y : Sys Body.

Lemma task_range y : sys_inv y -> 0 < task_counter_ (sched y) <= kContinuationMask.
Proof. intros I. exact (i_task_counter _ I). Qed.

Lemma cont_range y : sys_inv y -> kContinuationMask < continuation_counter_ (sched y) < 2 ^ 64.
Proof. intros I. exact (i_cont_counter _ I). Qed.

(** The nodes that wait for [x] are tasks in the table. *)
Definition waiting (x : NodeID) y : Prop :=
  forall d, x ∈ preds (nodes_ (sched y)) d -> IsTaskID d = true /\ d ∈ dom (tasks_ (sched y)).

Record ext (x : NodeID) y y' : Prop := {
  e_steps : rtc step y y';
  e_inv : sys_inv y';
  e_fired : fired y' = fired y;
  e_edges : edges y ⊆ edges y';
  e_alloc : forall n, allocated (sched y) n -> allocated (sched y') n;
  e_stored : dom (tasks_ (sched y)) ⊆ dom (tasks_ (sched y'));
  e_unstored : unstored y' = unstored y;
  e_preds : preds (nodes_ (sched y')) x ⊆ preds (nodes_ (sched y)) x;
  e_held : forall t, held (sched y) t -> held (sched y') t;
  e_waiting : waiting x y -> waiting x y'
}.

Lemma ext_refl x y : sys_inv y -> ext x y y.
Proof. intros. by constructor. Qed.

Lemma ext_trans x y1 y2 y3 : ext x y1 y2 -> ext x y2 y3 -> ext x y1 y3.
Proof.
  intros [] []. constructor; auto; [by etrans | congruence | set_solver | set_solver | congruence | set_solver].
Qed.

Lemma ext_dependency x y y' n : ext x y y' -> dependency_ok y n -> dependency_ok y' n.
Proof. intros X [Ha Hf]. split; [by apply (e_alloc _ _ _ X) |]. by rewrite (e_fired _ _ _ X). Qed.

Lemma ext_dependent x y y' n : ext x y y' -> dependent_ok y n -> dependent_ok y' n.
Proof.
  intros X (Ha & Hf & Hk). split; [by apply (e_alloc _ _ _ X) |]. rewrite (e_fired _ _ _ X).
  split; [done |]. destruct Hk as [? | Hk]; [by left | right]. rewrite (e_unstored _ _ _ X).
  pose proof (e_stored _ _ _ X). set_solver.
Qed.

(** A continuation just allocated. *)
Record fresh_cont (c : Continuation) y : Prop := {
  fc_kind : IsContinuation c = true;
  fc_dependency : dependency_ok y c;
  fc_preds : preds (nodes_ (sched y)) c = ∅;
  fc_waiting : waiting c y
}.

Lemma fresh_dependent c y : fresh_cont c y -> dependent_ok y c.
Proof. intros [Hk [Ha Hf] _ _]. split; [done | split; [done | by left]]. Qed.

Lemma client_allocate x y : sys_inv y -> continuation_counter_ (sched y) < 2 ^ 64 - 1 ->
  exists y', allocateContinuation (sched y) = (continuation_counter_ (sched y), sched y') /\ ext x y y' /\
    fresh_cont (continuation_counter_ (sched y)) y' /\
    task_counter_ (sched y') = task_counter_ (sched y) /\
    continuation_counter_ (sched y') = continuation_counter_ (sched y) + 1.
Proof.
  intros I Hc. destruct y as [s p F D E U M]. cbn in *. pose proof (cont_range _ I) as Hcc. cbn in Hcc.
  set (s' := set_counters (task_counter_ s) (to_u64 (continuation_counter_ s + 1)) s).
  assert (to_u64 (continuation_counter_ s + 1) = continuation_counter_ s + 1) as Ew.
  { apply wrapu_id. unfold is_u. rewrite mask_val in *. lia. }
  assert (step (mkSys s p F D E U M) (mkSys s' p F D E U M)) as Hst by (by eapply step_allocate).
  pose proof (step_inv _ _ Hst I) as I'.
  assert (~ allocated s (continuation_counter_ s)) as Hna.
  { intros [Ha | Ha]; [pose proof (task_range _ I) as Ht; cbn in Ht |]; lia. }
  exists (mkSys s' p F D E U M). split; [done |]. split_and!; [constructor; cbn; try done | constructor; cbn | done | done].
  - by apply rtc_once.
  - intros n [Ha | Ha]; [left | right]; cbn; lia.
  - eapply (cont_id_kind s'); cbn; lia.
  - split; [right; cbn; lia |]. cbn. intros HF. by apply Hna, (i_fired _ I).
  - destruct (decide (preds (nodes_ s) (continuation_counter_ s) = ∅)) as [|Hne]; [done |].
    exfalso. by apply Hna, (i_nodes _ I), (graph_preds_dom _ _ (i_graph _ I)).
  - intros d (nd & En & _)%elem_of_preds. exfalso. apply Hna, (i_nodes _ I), elem_of_dom. eauto.
Qed.

Lemma client_addLink x y dep dpt :
  sys_inv y -> dependency_ok y dep -> dependent_ok y dpt -> dep <> x -> dpt <> x ->
  exists y', sched y' = addLink dep dpt (sched y) /\ ext x y y' /\ (dep, dpt) ∈ edges y'.
Proof.
  intros I Hd Hp Hdx Hx. destruct y as [s p F D E U M]. cbn in *.
  pose proof (step_addLink s p F D E U M dep dpt Hd Hp) as Hst.
  exists (mkSys (addLink dep dpt s) p F D (E ∪ {[(dep, dpt)]}) U M). split_and!; [done | | set_solver].
  constructor; cbn; try done.
  - by apply rtc_once.
  - by eapply step_inv.
  - set_solver.
  - rewrite preds_addLink. by rewrite decide_False.
  - intros Hw d. cbn. rewrite preds_addLink. intros Hin. apply Hw. cbn. case_decide; set_solver.
Qed.

(** The predecessors after [addTask]: the new task has the dependency, the
    dependent has the new task. *)
Lemma addTask_preds y dep dpt b (id := task_counter_ (sched y)) :
  sys_inv y -> dep <> kInvalidNodeID -> (dpt = kInvalidNodeID \/ dependent_ok y dpt) ->
  preds (link_if dep id (link_if id dpt (nodes_ (sched y)))) b =
  if decide (b = id) then {[dep]} else
  if decide (dpt <> kInvalidNodeID /\ b = dpt) then {[id]} ∪ preds (nodes_ (sched y)) b
  else preds (nodes_ (sched y)) b.
Proof.
  intros I Hdi Hp. pose proof (task_range _ I) as Ht. cbn in Ht. fold id in Ht.
  assert (~ allocated (sched y) id) as Hna by (intros [Ha | Ha]; fold id in Ha; lia).
  assert (preds (nodes_ (sched y)) id = ∅) as Hid.
  { destruct (decide (preds (nodes_ (sched y)) id = ∅)) as [|Hne]; [done |].
    exfalso. by apply Hna, (i_nodes _ I), (graph_preds_dom _ _ (i_graph _ I)). }
  assert (id <> kInvalidNodeID) as Hii by (unfold kInvalidNodeID; lia).
  assert (dpt <> id) as Hne by (intros ->; destruct Hp as [? | [? _]]; done).
  unfold link_if. rewrite (proj2 (Z.eqb_neq _ _) Hdi), (proj2 (Z.eqb_neq _ _) Hii). cbn [orb].
  rewrite preds_addLink. destruct (Z.eqb_spec dpt kInvalidNodeID) as [-> | Hdpt].
  - case_decide as Hb; [subst b; rewrite Hid; set_solver |]. rewrite decide_False by tauto. done.
  - rewrite preds_addLink. case_decide as Hb.
    + subst b. rewrite decide_False, Hid by done. set_solver.
    + repeat case_decide; tauto || done.
Qed.

(** No other node comes into being. *)
Lemma addTask_dom y t dep dpt id s' n :
  sys_inv y -> task_counter_ (sched y) < kContinuationMask -> addTask t dep dpt (sched y) = Some (id, s') ->
  n ∈ dom (nodes_ s') -> n = dep \/ n = task_counter_ (sched y) \/ n = dpt \/ n ∈ dom (nodes_ (sched y)).
Proof.
  intros I Hc Ea. pose proof (task_range _ I) as Ht. cbn in Ht. destruct (fresh_id _ I) as (Hn & Hnt & _).
  destruct (addTask_eq _ t dep dpt _ s' Hc (proj1 Ht) Hn Hnt Ea) as (-> & task & _ & _ & ->).
  cbn zeta. replace (nodes_ (set_counters _ _ _)) with
    (link_if dep (task_counter_ (sched y)) (link_if (task_counter_ (sched y)) dpt (nodes_ (sched y))))
    by (by destruct (dep =? kInvalidNodeID)).
  intros [[Hin | (_ & _ & [-> | ->])]%dom_link_if | (_ & _ & [-> | ->])]%dom_link_if; auto.
Qed.

Lemma client_addTask x y t dep dpt :
  sys_inv y -> fresh_task t -> task_counter_ (sched y) < kContinuationMask ->
  dependency_ok y dep -> (dpt = kInvalidNodeID \/ dependent_ok y dpt) ->
  allocated (sched y) x -> dpt <> x ->
  exists y', addTask t dep dpt (sched y) = Some (task_counter_ (sched y), sched y') /\ ext x y y' /\
    (dep, task_counter_ (sched y)) ∈ edges y' /\
    (dpt <> kInvalidNodeID -> (task_counter_ (sched y), dpt) ∈ edges y') /\
    dependent_ok y' (task_counter_ (sched y)) /\
    (exists t', held (sched y') t' /\ task_id_ t' = task_counter_ (sched y) /\ continuation_ t' = dpt /\ body t' = body t) /\
    task_counter_ (sched y') = task_counter_ (sched y) + 1 /\
    continuation_counter_ (sched y') = continuation_counter_ (sched y) /\
    preds (nodes_ (sched y')) (task_counter_ (sched y)) = {[dep]}.
Proof.
  intros I Hf Hc Hd Hp Hxa Hx. destruct y as [s p F D E U M]. cbn in *.
  destruct (addTask_fresh t dep dpt s Hf) as [s' Ea].
  pose proof (task_range _ I) as Ht. cbn in Ht.
  destruct (fresh_id _ I) as (Hn & Hnt & _ & Hnf). cbn in Hn, Hnt, Hnf.
  assert (dep <> kInvalidNodeID) as Hdi.
  { destruct Hd as [Ha _]. apply (allocated_range _ _ I) in Ha. unfold kInvalidNodeID. lia. }
  assert (~ allocated s (task_counter_ s)) as Hna by (intros [Ha | Ha]; lia).
  pose proof (addTask_steps s p F D E U M t dep dpt _ s' I Hc (or_intror Hd) Hp Ea) as Hst.
  destruct (addTask_held _ _ _ _ _ _ Ea Hnt) as (Hheld & Hnew).
  destruct (addTask_eq s t dep dpt _ s' Hc (proj1 Ht) Hn Hnt Ea) as (_ & task & Eid & Econt & Es').
  rewrite (proj2 (Z.eqb_neq _ _) Hdi) in Hst, Es'. cbn zeta in Es'.
  eexists (mkSys s' p F D _ U M). split; [exact Ea |].
  assert (task_counter_ s' = task_counter_ s + 1 /\ continuation_counter_ s' = continuation_counter_ s /\
    dom (tasks_ s') = {[task_counter_ s]} ∪ dom (tasks_ s)) as (Et & Ec & Edom).
  { rewrite Es'. cbn. split_and!; [done | done |]. apply dom_insert_L. }
  assert (forall b, preds (nodes_ s') b =
    if decide (b = task_counter_ s) then {[dep]} else
    if decide (dpt <> kInvalidNodeID /\ b = dpt) then {[task_counter_ s]} ∪ preds (nodes_ s) b else preds (nodes_ s) b) as Hpreds.
  { intros b. rewrite Es'. cbn. by apply addTask_preds with (y := mkSys s p F D E U M). }
  split; [constructor; cbn | split_and!; cbn].
  - exact Hst.
  - by eapply steps_inv.
  - done.
  - set_solver.
  - intros n [Ha | Ha]; [left | right]; rewrite ?Et, ?Ec; lia.
  - rewrite Edom. set_solver.
  - done.
  - rewrite Hpreds, !decide_False; [done | naive_solver | intros ->; done].
  - exact Hheld.
  - intros Hw d. cbn. rewrite Hpreds, Edom.
    destruct (decide (d = task_counter_ s)) as [-> | _]; [| destruct (decide (dpt <> kInvalidNodeID /\ d = dpt)) as [_ | _]].
    + intros _. split; [| set_solver]. eapply task_id_kind; [apply (i_task_counter _ (steps_inv _ _ Hst I)) |]. cbn. lia.
    + intros [->%elem_of_singleton | Hin]%elem_of_union; [done |]. destruct (Hw d Hin). split; [done | set_solver].
    + intros Hin. destruct (Hw d Hin). split; [done | set_solver].
  - set_solver.
  - intros Hne. rewrite (proj2 (Z.eqb_neq _ _) Hne). set_solver.
  - split; [left; cbn; rewrite Et; lia |]. split; [done |]. right. cbn. rewrite Edom. set_solver.
  - exact Hnew.
  - done.
  - done.
  - by rewrite Hpreds, decide_True.
Qed.

(** Firing keeps every task somewhere. *)
Lemma client_fire c y :
  sys_inv y -> fresh_cont c y ->
  exists y', fire c (sched y) = Some (sched y') /\ rtc step y y' /\ sys_inv y' /\ edges y' = edges y /\
    c ∈ fired y' /\ (forall t, held (sched y) t -> held (sched y') t).
Proof.
  intros I [Hk Hd Hp Hw]. destruct y as [s p F D E U M]. cbn in *. unfold waiting in Hw. cbn in Hw.
  destruct (process_tasks (store_all M s) c (i_graph _ I) (fun d Hd => proj1 (Hw d Hd)) Hp (tasks_ s) (fun d Hd => proj2 (Hw d Hd))) as [s1 E1].
  replace (set_tasks (tasks_ s) (store_all M s)) with s in E1 by (by destruct s).
  assert (step (mkSys s p F D E U M) (mkSys s1 p (mark c s s1 F) D E U M)) as Hst by (by apply step_fire).
  destruct (processDependents_store M c s s1 (i_unstored _ I) E1) as [E2 HM1].
  destruct (process_ok (store_all M s) c (i_graph _ I)) as (s2 & rel & E3 & _ & Fr & _).
  { intros nd Ec. pose proof (graph_count _ _ _ (i_graph _ I) Ec) as Hg. cbn in Hg. rewrite Hp, size_empty in Hg. done. }
  rewrite E2 in E3. injection E3 as <-.
  exists (mkSys s1 p (mark c s s1 F) D E U M). split_and!; [done | by apply rtc_once | by eapply step_inv | done | cbn; unfold mark; set_solver |].
  cbn. destruct (frame_fields _ _ _ _ Fr) as (_ & _ & Ew & _). cbn in Ew.
  destruct (f_tasks _ _ _ _ Fr) as (ids & El & _ & _ & HT). pose proof (f_queue _ _ _ _ Fr) as Eq. cbn in Eq, HT.
  pose proof (i_unstored _ I) as HM. cbn in HM.
  intros t [Hq | [[i Hi] | Hh]].
  - left. rewrite Eq. set_solver.
  - assert (M !! i = None) as HMi by (by eapply map_disjoint_Some_r).
    specialize (HT i). rewrite !lookup_union, HMi, Hi, !(right_id_L None (∪)) in HT.
    destruct (decide (i ∈ ids)) as [Hin | Hin].
    + left. rewrite Eq, El. apply elem_of_app. right. apply list_elem_of_omap. exists i. split; [done |].
      cbn. by rewrite lookup_union, Hi, HMi.
    + right; left. eauto.
  - right; right. by rewrite Ew.
Qed.

End Client.
End Client.

Import Client.

(** ** Executing a plan *)

Module PlanRun.

Section PlanRun.
Context {Body Result Column : Type} {order : SetOrder}.
Implicit Types y : Sys Body.
Implicit Types p : ExecutionPlan Body Result Column.

(** A plan built by [addOperator] and [createLink] on valid indices. *)
Definition plan_ok p : Prop :=
  (forall i o, operators_ p !! i = Some o -> exists op, o = Some op /\ op_index_ op = i) /\
  (forall producer cs, plan_dependents_ p !! producer = Some cs ->
     (producer < length (operators_ p))%nat /\ forall c, c ∈ cs -> (c < length (operators_ p))%nat).

Lemma plan_ok_new q : plan_ok (newExecutionPlan q).
Proof. split; intros; cbn in *; [by rewrite lookup_nil in * | by rewrite lookup_empty in *]. Qed.

Lemma plan_ok_add op p : plan_ok p -> plan_ok (snd (addOperator op p)).
Proof.
  intros [Hi Hd]. split; cbn.
  - intros j o. rewrite lookup_app_Some. intros [Hj | [Hl Hj]]; [auto |].
    apply list_lookup_singleton_Some in Hj as [Hj <-]. eexists. split; [done |]. cbn. lia.
  - intros pr cs Hpr. destruct (Hd pr cs Hpr) as [H1 H2]. rewrite length_app. cbn.
    split; [lia |]. intros c Hc%H2. lia.
Qed.

Lemma plan_ok_link producer consumer p :
  plan_ok p -> (producer < length (operators_ p))%nat -> (consumer < length (operators_ p))%nat -> plan_ok (createLink producer consumer p).
Proof.
  intros [Hi Hd] Hp Hc. split; [exact Hi |].
  intros pr cs. cbn. unfold add_dependent. intros [[<- <-] | [_ Hpr]]%lookup_insert_Some; [| eauto].
  split; [done |]. intros c. rewrite elem_of_union, elem_of_singleton. intros [-> | Hin]; [done |].
  destruct (plan_dependents_ p !! producer) as [cs|] eqn:E; [| set_solver]. by apply (Hd producer cs E).
Qed.

(** The links after [createLink]. *)
Lemma dependents_link producer consumer p i j :
  j ∈ getDependents i (createLink producer consumer p) <-> j ∈ getDependents i p \/ (i = producer /\ j = consumer).
Proof.
  unfold getDependents, createLink, add_dependent. cbn. rewrite lookup_insert.
  destruct (decide (producer = i)) as [->|Hne]; cbn; set_solver.
Qed.

Lemma vec_set_ok i x v : (i < length v)%nat -> vec_set i x v = Some (<[i := x]> v).
Proof. intros. unfold vec_set. by rewrite decide_True. Qed.

(** What the loop leaves behind for the operator at position [k]: its task
    [id], its continuation [c]. *)
Record placed y (c_enter c_exit : Continuation) (op : Operator Body) (id c : Z) : Prop := {
  pl_enter : (c_enter, id) ∈ edges y;
  pl_cont : (id, c) ∈ edges y;
  pl_exit : (c, c_exit) ∈ edges y;
  pl_task : dependent_ok y id;
  pl_dep : dependency_ok y c;
  pl_ne : c <> c_enter;
  pl_body : exists t, held (sched y) t /\ task_id_ t = id /\ continuation_ t = c /\ body t = op_body op
}.

Lemma placed_ext x y y' ce cx op id c : ext x y y' -> placed y ce cx op id c -> placed y' ce cx op id c.
Proof.
  intros X []. constructor; try (by apply (e_edges _ _ _ X)).
  - by eapply ext_dependent.
  - by eapply ext_dependency.
  - done.
  - destruct pl_body0 as (t & Ht & ?). exists t. split; [by apply (e_held _ _ _ X) | done].
Qed.

(** One iteration of the loop over the operators. *)
Lemma execute_operator_ok op c_enter c_exit y :
  sys_inv y -> dependency_ok y c_enter -> dependent_ok y c_exit -> c_exit <> c_enter ->
  task_counter_ (sched y) < kContinuationMask -> continuation_counter_ (sched y) < 2 ^ 64 - 1 ->
  exists y1 y2 y3, allocateContinuation (sched y) = (continuation_counter_ (sched y), sched y1) /\
    addTask (createTask op) c_enter (continuation_counter_ (sched y)) (sched y1) =
      Some (task_counter_ (sched y), sched y2) /\
    sched y3 = addLink (continuation_counter_ (sched y)) c_exit (sched y2) /\ ext c_enter y y3 /\
    placed y3 c_enter c_exit op (task_counter_ (sched y)) (continuation_counter_ (sched y)) /\
    task_counter_ (sched y3) = task_counter_ (sched y) + 1 /\
    continuation_counter_ (sched y3) = continuation_counter_ (sched y) + 1.
Proof.
  intros I Hd Hx Hne Ht Hc.
  destruct (client_allocate c_enter y I Hc) as (y1 & E1 & X1 & Fc & T1 & C1).
  set (c := continuation_counter_ (sched y)) in *. set (id := task_counter_ (sched y)) in *.
  assert (c <> c_enter) as Hce.
  { intros E. destruct Hd as [Ha _]. rewrite <- E in Ha. unfold c in Ha.
    destruct Ha as [Ha | Ha]; [| lia]. pose proof (task_range _ I). pose proof (cont_range _ I).
    unfold c in *. lia. }
  destruct (client_addTask c_enter y1 (createTask op) c_enter c) as
    (y2 & E2 & X2 & P1 & P2 & P3 & P4 & T2 & C2 & _); [apply X1 | done | lia | by eapply ext_dependency | | | done |].
  { right. by apply fresh_dependent. }
  { apply (e_alloc _ _ _ X1). by destruct Hd. }
  rewrite T1 in E2, P1, P2, P3, P4, T2. fold id in E2, P1, P2, P3, P4, T2.
  destruct (client_addLink c_enter y2 c c_exit) as (y3 & E3 & X3 & P5); [apply X2 | | | done | done |].
  { eapply ext_dependency; [exact X2 | apply Fc]. }
  { eapply ext_dependent; [exact X2 |]. by eapply ext_dependent. }
  exists y1, y2, y3. split_and!; [done | done | done | | | |].
  - eapply ext_trans; [exact X1 |]. by eapply ext_trans.
  - assert (c <> kInvalidNodeID) as Hci.
    { pose proof (cont_range _ I). unfold c, kInvalidNodeID. rewrite mask_val in *. lia. }
    constructor.
    + by apply (e_edges _ _ _ X3).
    + by apply (e_edges _ _ _ X3), P2.
    + done.
    + by eapply ext_dependent.
    + eapply ext_dependency; [exact X3 |]. eapply ext_dependency; [exact X2 | apply Fc].
    + done.
    + destruct P4 as (t & Hh & ?). exists t. split; [by apply (e_held _ _ _ X3) | done].
  - rewrite E3. unfold addLink. cbn. lia.
  - rewrite E3. unfold addLink. cbn. lia.
Qed.

Lemma execute_operators_ok ops : forall j c_enter c_exit tids cops y,
  sys_inv y -> dependency_ok y c_enter -> dependent_ok y c_exit -> c_exit <> c_enter ->
  (forall i o, ops !! i = Some o -> exists op, o = Some op /\ op_index_ op = (j + i)%nat) ->
  length tids = (j + length ops)%nat -> length cops = (j + length ops)%nat ->
  task_counter_ (sched y) + Z.of_nat (length ops) <= kContinuationMask ->
  continuation_counter_ (sched y) + Z.of_nat (length ops) < 2 ^ 64 ->
  exists tids' cops' y', execute_operators ops c_enter c_exit tids cops (sched y) = Some (tids', cops', sched y') /\
    ext c_enter y y' /\ length tids' = length tids /\ length cops' = length cops /\
    (forall i, (i < j)%nat -> tids' !! i = tids !! i /\ cops' !! i = cops !! i) /\
    (forall i op, ops !! i = Some (Some op) -> exists id c,
       tids' !! (j + i)%nat = Some id /\ cops' !! (j + i)%nat = Some c /\
       id = task_counter_ (sched y) + Z.of_nat i /\ placed y' c_enter c_exit op id c) /\
    task_counter_ (sched y') = task_counter_ (sched y) + Z.of_nat (length ops) /\
    continuation_counter_ (sched y') = continuation_counter_ (sched y) + Z.of_nat (length ops).
Proof.
  induction ops as [|o ops IH]; intros j ce cx tids cops y I Hd Hx Hne Hops L1 L2 Ht Hc.
  { exists tids, cops, y. cbn. split_and!; try done; try lia. }
  destruct (Hops 0%nat o eq_refl) as (op & -> & Ei). rewrite Nat.add_0_r in Ei. cbn [length] in *.
  destruct (execute_operator_ok op ce cx y I Hd Hx Hne) as (y1 & y2 & y3 & E1 & E2 & E3 & X & Hpl & T3 & C3); [lia | lia |].
  cbn [execute_operators mbind option_bind]. rewrite E1, E2. cbn [mbind option_bind]. rewrite <- E3.
  rewrite Ei, !vec_set_ok by lia. cbn [mbind option_bind].
  set (id := task_counter_ (sched y)) in *. set (c := continuation_counter_ (sched y)) in *.
  destruct (IH (S j) ce cx (<[j := id]> tids) (<[j := c]> cops) y3) as
    (tids' & cops' & y' & E' & X' & L1' & L2' & Hlow & Hop & T' & C');
    [apply X | by eapply ext_dependency | by eapply ext_dependent | done | | rewrite length_insert; lia ..| lia | lia |].
  { intros i o Hi. destruct (Hops (S i) o Hi) as (op' & -> & Eo). exists op'. split; [done | lia]. }
  rewrite length_insert in L1', L2'. exists tids', cops', y'. split; [exact E' |].
  split; [by eapply ext_trans |]. split_and!; [lia | lia | | | lia | lia].
  - intros i Hi. destruct (Hlow i) as [-> ->]; [lia |]. by rewrite !list_lookup_insert_ne by lia.
  - intros [|i] op' Hi; cbn in Hi.
    + injection Hi as <-. destruct (Hlow j) as [Hj1 Hj2]; [lia |].
      exists id, c. rewrite Nat.add_0_r, Hj1, Hj2, !list_lookup_insert_eq by lia.
      split_and!; [done | done | lia |]. by eapply placed_ext.
    + destruct (Hop i op' Hi) as (id' & c' & H1 & H2 & H3 & H4). exists id', c'.
      replace (j + S i)%nat with (S j + i)%nat by lia. split_and!; [done | done | lia | done].
Qed.

Definition same_counters y y' : Prop :=
  task_counter_ (sched y') = task_counter_ (sched y) /\
  continuation_counter_ (sched y') = continuation_counter_ (sched y).

Lemma execute_consumers_ok x c tids consumers : forall y,
  sys_inv y -> dependency_ok y c -> c <> x ->
  (forall k, k ∈ consumers -> exists t, tids !! k = Some t /\ dependent_ok y t /\ t <> x) ->
  exists y', execute_consumers c consumers tids (sched y) = Some (sched y') /\ ext x y y' /\ same_counters y y' /\
    (forall k t, k ∈ consumers -> tids !! k = Some t -> (c, t) ∈ edges y').
Proof.
  induction consumers as [|k ks IH]; intros y I Hd Hcx Hk.
  { exists y. split_and!; [done | by apply ext_refl | done |]. intros k t Hin. by apply elem_of_nil in Hin. }
  destruct (Hk k) as (t & Et & Hp & Hx); [left |]. cbn [execute_consumers]. rewrite Et. cbn [mbind option_bind].
  destruct (client_addLink x y c t I Hd Hp Hcx Hx) as (y1 & E1 & X1 & P1). rewrite <- E1.
  assert (same_counters y y1) as S1 by (unfold same_counters; by rewrite E1).
  destruct (IH y1) as (y' & E' & X' & S' & P'); [apply X1 | by eapply ext_dependency | done | |].
  { intros k' Hk'. destruct (Hk k') as (t' & ? & ? & ?); [by right |]. exists t'. split_and!; [done | by eapply ext_dependent | done]. }
  exists y'. split_and!; [done | by eapply ext_trans | unfold same_counters in *; intuition congruence |].
  intros k' t' Hin Et'. apply elem_of_cons in Hin as [-> | Hin]; [| eauto].
  simplify_eq. by apply (e_edges _ _ _ X').
Qed.

Lemma execute_links_ok x tids cops links : forall y,
  sys_inv y ->
  (forall producer cs, (producer, cs) ∈ links -> exists c, cops !! producer = Some c /\ dependency_ok y c /\ c <> x /\
     forall k, k ∈ cs -> exists t, tids !! k = Some t /\ dependent_ok y t /\ t <> x) ->
  exists y', execute_links links tids cops (sched y) = Some (sched y') /\ ext x y y' /\ same_counters y y' /\
    (forall producer cs k c t, (producer, cs) ∈ links -> k ∈ cs ->
       cops !! producer = Some c -> tids !! k = Some t -> (c, t) ∈ edges y').
Proof.
  induction links as [|[producer cs] links IH]; intros y I Hl.
  { exists y. split_and!; [done | by apply ext_refl | done |]. intros ? ? ? ? ? Hin. by apply elem_of_nil in Hin. }
  destruct (Hl producer cs) as (c & Ec & Hd & Hcx & Hk); [left |]. cbn [execute_links]. rewrite Ec. cbn [mbind option_bind].
  destruct (execute_consumers_ok x c tids (elements cs) y I Hd Hcx) as (y1 & E1 & X1 & S1 & P1).
  { intros k Hin. apply Hk. set_solver. }
  rewrite E1. cbn [mbind option_bind]. destruct (IH y1) as (y' & E' & X' & S' & P'); [apply X1 | |].
  { intros pr cs' Hin. destruct (Hl pr cs') as (c' & ? & ? & ? & Hk'); [by right |].
    exists c'. split_and!; [done | by eapply ext_dependency | done |].
    intros k Hin'. destruct (Hk' k Hin') as (t & ? & ? & ?). exists t. split_and!; [done | by eapply ext_dependent | done]. }
  exists y'. split_and!; [done | by eapply ext_trans | unfold same_counters in *; intuition congruence |].
  intros pr cs' k c' t Hin Hk' Ec' Et. apply elem_of_cons in Hin as [Hin | Hin]; [| eauto].
  simplify_eq. apply (e_edges _ _ _ X'), P1 with k; [set_solver | done].
Qed.

End PlanRun.
End PlanRun.

Import PlanRun.

Section Properties.
Context {Body Result Column : Type} {order : SetOrder}.
Implicit Types y : Sys Body.
Implicit Types p : ExecutionPlan Body Result Column.

(** In a later state, a path of edges to a dispatched task means that its
    source has finished. *)
Lemma later_order y y' a b :
  reachable y -> rtc step y y' -> tc (fun u v => (u, v) ∈ edges y) a b -> b ∈ dispatched y' ->
  0 < a < kContinuationMask -> a ∈ finished y'.
Proof.
  intros Hr Hst Hab Hb Ha. pose proof (reachable_inv _ (steps_reachable _ _ Hr Hst)) as I'.
  assert (a ∈ fired y') as Hf.
  { apply (order_of_edges y' a b I'); [| done]. apply (tc_edges_mono y); [by apply steps_edges | done]. }
  apply (i_finished _ I'); [done |]. unfold IsTaskID.
  rewrite IsContinuation_spec by (unfold is_u; rewrite mask_val in Ha; lia).
  rewrite (proj2 (Z.leb_gt _ _)); [done |]. rewrite mask_val in Ha. lia.
Qed.

(** The state before the entry continuation is fired. *)
Lemma execute_built y i w ctx p final (n := length (operators_ p)) (id := fun k => task_counter_ (sched y) + Z.of_nat k) :
  sys_inv y -> workers_ (sched y) !! i = Some w -> current w = Some ctx -> has_scheduler ctx = true ->
  plan_ok p -> task_counter_ (sched y) + Z.of_nat n < kContinuationMask ->
  continuation_counter_ (sched y) + Z.of_nat n + 2 < 2 ^ 64 ->
  exists c_exit cont y4 y5, rtc step y y4 /\ execute final ctx p (sched y) = Some (sched y5) /\
    rtc step y4 y5 /\ edges y5 = edges y4 /\ (forall t, held (sched y4) t -> held (sched y5) t) /\
    (forall k op, operators_ p !! k = Some (Some op) ->
       (id k, cont k) ∈ edges y4 /\ (cont k, c_exit) ∈ edges y4 /\
       exists t, held (sched y4) t /\ task_id_ t = id k /\ continuation_ t = cont k /\ body t = op_body op) /\
    (forall pr k, k ∈ getDependents pr p -> (cont pr, id k) ∈ edges y4) /\
    (c_exit, id n) ∈ edges y4 /\
    (continuation_ ctx <> kInvalidNodeID -> (id n, continuation_ ctx) ∈ edges y4).
Proof.
  intros I Ei Ec Hs [Hidx Hdeps] Ht Hc.
  assert (continuation_ ctx = kInvalidNodeID \/ dependent_ok y (continuation_ ctx)) as Hctx.
  { destruct (decide (continuation_ ctx = kInvalidNodeID)); [by left | right]. by eapply running_continuation_ok. }
  pose (ce := continuation_counter_ (sched y)). pose (cx := ce + 1).
  destruct (client_allocate ce y I) as (y1 & E1 & X1 & F1 & T1 & C1); [lia |]. fold ce in E1, F1, C1.
  destruct (client_allocate ce y1 (e_inv _ _ _ X1)) as (y2 & E2 & X2 & F2 & T2 & C2); [lia |].
  rewrite C1 in E2, F2, C2. fold cx in E2, F2, C2.
  pose proof (ext_trans _ _ _ _ X1 X2) as X12.
  destruct (execute_operators_ok (operators_ p) 0 ce cx (replicate n 0) (replicate n 0) y2) as
    (tids & cops & y3 & E3 & X3 & L1 & L2 & _ & Hops & T3 & C3).
  { apply X2. }
  { eapply ext_dependency; [exact X2 | apply F1]. }
  { by apply fresh_dependent. }
  { unfold cx. lia. }
  { intros k o Hk. destruct (Hidx k o Hk) as (op & -> & <-). by exists op. }
  { by rewrite length_replicate. }
  { by rewrite length_replicate. }
  { fold n. lia. }
  { fold n. lia. }
  fold n in T3, C3. rewrite length_replicate in L1, L2.
  assert (forall k, (k < n)%nat -> exists op c, operators_ p !! k = Some (Some op) /\
    tids !! k = Some (id k) /\ cops !! k = Some c /\ placed y3 ce cx op (id k) c) as Hpl.
  { intros k Hk. destruct (lookup_lt_is_Some_2 (operators_ p) k Hk) as [o Eo].
    destruct (Hidx k o Eo) as (op & -> & _). destruct (Hops k op Eo) as (id' & c & H1 & H2 & H3 & H4).
    exists op, c. unfold id. rewrite <- T1, <- T2, <- H3. done. }
  assert (forall k, (k < n)%nat -> id k <> ce) as Hidce.
  { intros k Hk E. pose proof (cont_range _ I). unfold id, ce in E. lia. }
  destruct (execute_links_ok ce tids cops (map_to_list (plan_dependents_ p)) y3 (e_inv _ _ _ X3)) as (y4 & E4 & X4 & [T4 C4] & Hlk).
  { intros pr cs Hin. apply elem_of_map_to_list, Hdeps in Hin as [Hpr Hcs].
    destruct (Hpl pr Hpr) as (op & c & _ & _ & Hc1 & Hc2). exists c. split_and!; [done | apply Hc2 | apply Hc2 |].
    intros k Hk. apply Hcs in Hk. destruct (Hpl k Hk) as (op' & c' & _ & Hk1 & _ & Hk2).
    exists (id k). split_and!; [done | apply Hk2 | auto]. }
  assert (task_counter_ (sched y4) = id n) as T4' by (unfold id; lia).
  pose proof (ext_trans _ _ _ _ X12 (ext_trans _ _ _ _ X3 X4)) as X14.
  destruct (client_addTask ce y4 (newTask final) cx (continuation_ ctx)) as
    (y5 & E5 & X5 & P1 & P2 & _); [apply X4 | done | rewrite T4'; unfold id; lia | | | | |].
  { eapply ext_dependency; [exact X4 |]. eapply ext_dependency; [exact X3 | apply F2]. }
  { destruct Hctx as [? | Hctx]; [by left | right]. by eapply ext_dependent. }
  { apply (e_alloc _ _ _ (ext_trans _ _ _ _ X2 (ext_trans _ _ _ _ X3 X4))). apply F1. }
  { intros E. destruct Hctx as [Hctx | [Ha _]].
    - pose proof (cont_range _ I). unfold ce, kInvalidNodeID in *. rewrite mask_val in *. lia.
    - rewrite E in Ha. pose proof (cont_range _ I). pose proof (task_range _ I).
      destruct Ha as [Ha | Ha]; unfold ce in Ha; lia. }
  rewrite T4' in E5, P1, P2.
  destruct (client_fire ce y5 (e_inv _ _ _ X5)) as (y6 & E6 & Hst6 & _ & Ed6 & _ & Hh6).
  { pose proof (ext_trans _ _ _ _ X2 (ext_trans _ _ _ _ X3 (ext_trans _ _ _ _ X4 X5))) as X25.
    constructor; [apply F1 | eapply ext_dependency; [exact X25 | apply F1] | | apply (e_waiting _ _ _ X25), F1].
    pose proof (e_preds _ _ _ X25) as Hp. rewrite (fc_preds _ _ F1) in Hp. set_solver. }
  exists cx, (fun k => default 0 (cops !! k)), y5, y6. split_and!.
  - apply (e_steps _ _ _ (ext_trans _ _ _ _ X14 X5)).
  - unfold execute. rewrite Hs. cbn [DCHECK mbind option_bind]. fold ce in E1. rewrite E1, E2. fold n.
    rewrite E3. cbn [mbind option_bind]. rewrite E4. cbn [mbind option_bind]. rewrite E5. cbn [mbind option_bind]. exact E6.
  - done.
  - done.
  - done.
  - intros k op Hk. destruct (Hpl k) as (op' & c & Hk' & _ & Hc' & Hp); [by eapply lookup_lt_Some |].
    rewrite Hk in Hk'. injection Hk' as <-. rewrite Hc'. change (default 0 (Some c)) with c.
    apply (placed_ext _ _ _ _ _ _ _ _ (ext_trans _ _ _ _ X4 X5)) in Hp. destruct Hp; done.
  - intros pr k Hk. unfold getDependents in Hk.
    destruct (plan_dependents_ p !! pr) as [cs|] eqn:Epr; [| set_solver]. cbn in Hk.
    destruct (Hdeps pr cs Epr) as [Hpr Hcs]. destruct (Hpl pr Hpr) as (op & c & _ & _ & Hc' & _).
    destruct (Hpl k (Hcs k Hk)) as (op' & c' & _ & Hk1 & _). rewrite Hc'. change (default 0 (Some c)) with c.
    apply (e_edges _ _ _ X5), (Hlk pr cs k c (id k)); try done. by apply elem_of_map_to_list.
  - exact P1.
  - exact P2.
Qed.

Lemma links_range p a b : plan_ok p -> b ∈ getDependents a p -> (a < length (operators_ p))%nat /\ (b < length (operators_ p))%nat.
Proof.
  intros [_ Hd] Hb. unfold getDependents in Hb. destruct (plan_dependents_ p !! a) as [cs|] eqn:E; [| set_solver].
  destruct (Hd a cs E) as [Ha Hcs]. auto.
Qed.

(** An operator is complete when its continuation has been fired and every task
    that holds it up, directly or through others, has finished: the root task of
    the operator and all the tasks it has spawned, which are linked to that
    continuation ([spawn_is_step], [task_chain_ordered]). *)
Definition completed y (c : Continuation) : Prop :=
  c ∈ fired y /\ forall x, IsTaskID x = true -> tc (fun u v => (u, v) ∈ edges y) x c -> x ∈ finished y.

Lemma later_completed y y' c b :
  reachable y -> rtc step y y' -> tc (fun u v => (u, v) ∈ edges y) c b -> b ∈ dispatched y' -> completed y' c.
Proof.
  intros Hr Hst Hcb Hb. pose proof (reachable_inv _ (steps_reachable _ _ Hr Hst)) as I'.
  pose proof (tc_edges_mono y y' _ _ (steps_edges _ _ Hst) Hcb) as Hcb'. split; [by apply (order_of_edges y' c b I') |].
  intros x Hx Hxc. apply (i_finished _ I'); [| done]. apply (order_of_edges y' x b I'); [| done]. by eapply tc_transitive.
Qed.

Lemma plan_task_id y k : reachable y -> task_counter_ (sched y) + Z.of_nat k < kContinuationMask ->
  IsTaskID (task_counter_ (sched y) + Z.of_nat k) = true.
Proof.
  intros Hr Hk. pose proof (task_range _ (reachable_inv _ Hr)) as Ht. unfold IsTaskID.
  rewrite mask_val in *. rewrite IsContinuation_spec by (unfold is_u; lia). rewrite (proj2 (Z.leb_gt _ _)); [done | lia].
Qed.

(** What [execute] leaves behind, with the continuations [cont] of the operators. *)
Lemma plan_execution_built y i w ctx p final (n := length (operators_ p)) (tid := fun k => task_counter_ (sched y) + Z.of_nat k) :
  reachable y -> workers_ (sched y) !! i = Some w -> current w = Some ctx -> has_scheduler ctx = true ->
  plan_ok p -> task_counter_ (sched y) + Z.of_nat n < kContinuationMask ->
  continuation_counter_ (sched y) + Z.of_nat n + 2 < 2 ^ 64 ->
  exists y' cont, rtc step y y' /\ execute final ctx p (sched y) = Some (sched y') /\
    (forall k op, operators_ p !! k = Some (Some op) -> exists t,
       held (sched y') t /\ task_id_ t = tid k /\ continuation_ t = cont k /\ body t = op_body op) /\
    (forall k, (k < n)%nat -> (tid k, cont k) ∈ edges y') /\
    (forall a b, tc (fun i j => j ∈ getDependents i p) a b -> tc (fun u v => (u, v) ∈ edges y') (cont a) (tid b)) /\
    (forall k, (k < n)%nat -> tc (fun u v => (u, v) ∈ edges y') (cont k) (tid n)) /\
    (continuation_ ctx <> kInvalidNodeID -> (tid n, continuation_ ctx) ∈ edges y').
Proof.
  intros Hr Ei Ec Hs Hok Ht Hc. pose proof (reachable_inv _ Hr) as I.
  destruct (execute_built y i w ctx p final I Ei Ec Hs Hok Ht Hc) as
    (cx & cont & y4 & y5 & R4 & Ex & R5 & Ed & Hh & Hops & Hlk & Hfin & Hcont). rewrite <- Ed in Hlk, Hfin, Hcont.
  assert (forall k, (k < n)%nat -> (tid k, cont k) ∈ edges y5 /\ (cont k, cx) ∈ edges y5) as Hop.
  { intros k Hk. destruct (lookup_lt_is_Some_2 (operators_ p) k Hk) as [o Eo].
    destruct (proj1 Hok k o Eo) as (op & -> & _). destruct (Hops k op Eo) as (? & ? & _). by rewrite Ed. }
  exists y5, cont. split_and!; [by etrans | done | | | | | done].
  - intros k op Hk. destruct (Hops k op Hk) as (_ & _ & t & Hht & ?). exists t. auto.
  - intros k Hk. by apply Hop.
  - intros a b Hab. induction Hab as [a b Hab | a b c Hab _ IH]; [by apply tc_once, Hlk |].
    eapply tc_transitive; [by apply tc_once, Hlk |]. eapply tc_l; [| exact IH]. apply Hop, (links_range p a b Hok Hab).
  - intros k Hk. eapply tc_l; [by apply Hop | by apply tc_once].
Qed.

(** C20: Executing a plan keeps its promises.  In a state where the plan's task
    runs, [execute] makes only legal calls of the scheduler, creates one task per
    operator, each with a continuation of its own, and from then on, in every
    later state of the system: a consumer is dispatched only after its producers,
    direct or not, are complete, with all the tasks they have spawned; the final
    task only after every operator is; and the final task holds up the
    continuation of the plan's own task. *)
Theorem plan_execution_ordered y i w ctx p final
    (n := length (operators_ p)) (tid := fun k => task_counter_ (sched y) + Z.of_nat k) :
  reachable y -> workers_ (sched y) !! i = Some w -> current w = Some ctx -> has_scheduler ctx = true ->
  plan_ok p -> task_counter_ (sched y) + Z.of_nat n < kContinuationMask ->
  continuation_counter_ (sched y) + Z.of_nat n + 2 < 2 ^ 64 ->
  exists y' cont, rtc step y y' /\ execute final ctx p (sched y) = Some (sched y') /\
    (forall k op, operators_ p !! k = Some (Some op) -> exists t,
       held (sched y') t /\ task_id_ t = tid k /\ continuation_ t = cont k /\ body t = op_body op) /\
    (forall producer consumer y'', tc (fun i j => j ∈ getDependents i p) producer consumer -> rtc step y' y'' ->
       tid consumer ∈ dispatched y'' -> completed y'' (cont producer) /\ tid producer ∈ finished y'') /\
    (forall k y'', (k < n)%nat -> rtc step y' y'' -> tid n ∈ dispatched y'' ->
       completed y'' (cont k) /\ tid k ∈ finished y'') /\
    (continuation_ ctx <> kInvalidNodeID -> (tid n, continuation_ ctx) ∈ edges y').
Proof.
  intros Hr Ei Ec Hs Hok Ht Hc.
  destruct (plan_execution_built y i w ctx p final Hr Ei Ec Hs Hok Ht Hc) as (y' & cont & R & Ex & Hops & Hcont & Hlk & Hfin & Hlast).
  pose proof (steps_reachable _ _ Hr R) as Hr'.
  assert (forall k b y'', (k < n)%nat -> tc (fun u v => (u, v) ∈ edges y') (cont k) b -> rtc step y' y'' -> b ∈ dispatched y'' ->
    completed y'' (cont k) /\ tid k ∈ finished y'') as Hdone.
  { intros k b y'' Hk Hkb Hst Hb. pose proof (later_completed y' y'' _ b Hr' Hst Hkb Hb) as HC. split; [done |].
    apply HC; [apply plan_task_id; [done | lia] |]. apply tc_once, (steps_edges _ _ Hst). by apply Hcont. }
  exists y', cont. split_and!; [done | done | done | | | done].
  - intros a b y'' Hab Hst Hb. eapply Hdone; [| by apply Hlk | done | done].
    inversion Hab as [? ? Hl | ? ? ? Hl]; by apply (links_range p _ _ Hok) in Hl as [? _].
  - intros k y'' Hk Hst Hb. eapply Hdone; [done | by apply Hfin | done | done].
Qed.

(** C37: The shape a plan must have to be executed is an invariant of its
    construction: a new plan has it, and [addOperator] (with the index it
    returns) and [createLink] on existing operators keep it. *)
Theorem plan_construction_ok p (op : Operator Body) producer consumer q :
  plan_ok p ->
  plan_ok (newExecutionPlan (Body := Body) (Result := Result) (Column := Column) q) /\
  (fst (addOperator op p) = length (operators_ p) /\ plan_ok (snd (addOperator op p)) /\
   getOperator (fst (addOperator op p)) (snd (addOperator op p)) =
     Some (set_operator_index (length (operators_ p)) op)) /\
  ((producer < length (operators_ p))%nat -> (consumer < length (operators_ p))%nat ->
   plan_ok (createLink producer consumer p) /\
   consumer ∈ getDependents producer (createLink producer consumer p)).
Proof.
  intros Hok. split_and!; [apply plan_ok_new | done | by apply plan_ok_add | |].
  - cbn. unfold getOperator. cbn. by rewrite list_lookup_middle.
  - intros Hp Hc. split; [by apply plan_ok_link | apply dependents_link; by right].
Qed.

(** A plan without operators never completes: [execute] leaves its final
    task deferred, waiting only for the exit continuation, which nothing
    precedes and which has not been fired. *)
Theorem empty_plan_never_completes y i w ctx p final
    (tid := task_counter_ (sched y)) (c_exit := continuation_counter_ (sched y) + 1) :
  reachable y -> workers_ (sched y) !! i = Some w -> current w = Some ctx -> has_scheduler ctx = true ->
  operators_ p = [] -> plan_dependents_ p = ∅ ->
  tid < kContinuationMask -> continuation_counter_ (sched y) + 2 < 2 ^ 64 ->
  exists y', rtc step y y' /\ execute final ctx p (sched y) = Some (sched y') /\
    tid ∈ dom (tasks_ (sched y')) /\ preds (nodes_ (sched y')) tid = {[c_exit]} /\
    preds (nodes_ (sched y')) c_exit = ∅ /\ (c_exit ∉ fired y').
Proof.
  intros Hr Ei Ec Hs Eo Ed Ht Hc. pose proof (reachable_inv _ Hr) as I.
  pose proof (task_range _ I) as Htc. pose proof (cont_range _ I) as Hcc.
  assert (continuation_ ctx = kInvalidNodeID \/ dependent_ok y (continuation_ ctx)) as Hctx.
  { destruct (decide (continuation_ ctx = kInvalidNodeID)); [by left | right]. by eapply running_continuation_ok. }
  destruct (client_allocate c_exit y I) as (y1 & E1 & X1 & F1 & T1 & C1); [lia |].
  destruct (client_allocate c_exit y1 (e_inv _ _ _ X1)) as (y2 & E2 & X2 & F2 & T2 & C2); [lia |].
  rewrite C1 in E2, F2. fold c_exit in E2, F2. pose proof (ext_trans _ _ _ _ X1 X2) as X12.
  destruct (client_addTask c_exit y2 (newTask final) c_exit (continuation_ ctx)) as
    (y3 & E3 & X3 & _ & _ & _ & _ & _ & _ & Hp); [apply X2 | done | lia | apply F2 | | apply F2 | |].
  { destruct Hctx as [? | Hctx]; [by left | right]. by eapply ext_dependent. }
  { intros E. destruct Hctx as [Hctx | [Ha _]].
    - unfold c_exit, kInvalidNodeID in *. rewrite mask_val in *. lia.
    - rewrite E in Ha. destruct Ha as [Ha | Ha]; unfold c_exit in Ha; lia. }
  rewrite T2, T1 in E3, Hp. fold tid in E3, Hp.
  exists y3. split_and!.
  - apply (e_steps _ _ _ (ext_trans _ _ _ _ X12 X3)).
  - unfold execute. rewrite Hs. cbn [DCHECK mbind option_bind]. rewrite E1, E2, Eo, Ed. cbn [execute_operators length mbind option_bind].
    rewrite map_to_list_empty. cbn [execute_links mbind option_bind]. rewrite E3. cbn [mbind option_bind].
    unfold fire, processDependents.
    enough (nodes_ (sched y3) !! continuation_counter_ (sched y) = None) as -> by done.
    apply not_elem_of_dom. intros Hin. eapply addTask_dom in Hin; [| apply X2 | | exact E3]; [| lia].
    assert (nodes_ (sched y2) = nodes_ (sched y)) as En.
    { injection E1 as E1. injection E2 as _ E2. by rewrite <- E2, <- E1. }
    rewrite En, T2, T1 in Hin. destruct Hin as [Hin | [Hin | [Hin | Hin]]].
    + unfold c_exit in Hin. lia.
    + lia.
    + destruct Hctx as [Hctx | [Ha _]]; [unfold kInvalidNodeID in *; rewrite mask_val in *; lia |].
      rewrite <- Hin in Ha. destruct Ha as [Ha | Ha]; lia.
    + apply (i_nodes _ I) in Hin as [Ha | Ha]; cbn in Ha; lia.
  - apply (e_waiting _ _ _ X3 (fc_waiting _ _ F2)). rewrite Hp. set_solver.
  - exact Hp.
  - pose proof (e_preds _ _ _ X3) as Hpx. rewrite (fc_preds _ _ F2) in Hpx. set_solver.
  - rewrite (e_fired _ _ _ X3). apply F2.
Qed.

End Properties.

(** ** Concrete plans *)

Definition demo_plan : ExecutionPlan unit unit unit :=
  let p := snd (addOperator (mkOperator 0 7 tt) (newExecutionPlan 7)) in
  let p := snd (addOperator (mkOperator 0 7 tt) p) in
  createLink 0 1 p.

Lemma demo_plan_ok : plan_ok demo_plan.
Proof.
  split.
  - intros [|[|i]] o Ho; cbn in Ho; simplify_eq; eexists; split; reflexivity.
  - assert (map_Forall (fun pr (cs : gset nat) => (pr < 2)%nat /\ set_Forall (fun c => c < 2)%nat cs)
      (plan_dependents_ demo_plan)) as H.
    { refine (bool_decide_unpack _ _). vm_compute. exact I. }
    intros pr cs Hp. destruct (H pr cs Hp) as [H1 H2]. split; [exact H1 |]. intros c Hc. by apply H2.
Qed.

Lemma plan_execution_ordered_witness : exists ctx y' (cont : nat -> Continuation),
  execute tt ctx demo_plan (sched (sys_after demo_running)) = Some (sched y') /\
  forall y'', rtc step y' y'' -> 3 ∈ dispatched y'' -> completed y'' (cont 0%nat) /\ 2 ∈ finished y''.
Proof.
  destruct demo_current as (w & ctx & Ew & Ec & Hs & _).
  destruct (plan_execution_ordered (sys_after demo_running) 1 w ctx demo_plan tt)
    as (y' & cont & _ & E & _ & Hord & _).
  - apply sys_after_reachable. vm_compute. reflexivity.
  - exact Ew.
  - exact Ec.
  - exact Hs.
  - exact demo_plan_ok.
  - vm_compute. reflexivity.
  - vm_compute. reflexivity.
  - exists ctx, y', cont. split; [exact E |]. intros y'' Hst Hd.
    apply (Hord 0%nat 1%nat y''); [apply tc_once; vm_compute; set_solver | exact Hst | exact Hd].
Defined.

Lemma plan_construction_ok_witness :
  plan_ok (snd (addOperator (mkOperator 5 7 tt) demo_plan)) /\ plan_ok (createLink 1 0 demo_plan).
Proof.
  destruct (plan_construction_ok demo_plan (mkOperator 5 7 tt) 1 0 7 demo_plan_ok) as (_ & (_ & H1 & _) & H2).
  split; [exact H1 |]. apply H2; cbn; lia.
Defined.

Lemma empty_plan_never_completes_witness : exists ctx y',
  execute tt ctx (newExecutionPlan (Result := unit) (Column := unit) 7) (sched (sys_after demo_running)) = Some (sched y') /\
  2 ∈ dom (tasks_ (sched y')).
Proof.
  destruct demo_current as (w & ctx & Ew & Ec & Hs & _).
  destruct (empty_plan_never_completes (sys_after demo_running) 1 w ctx
    (newExecutionPlan (Result := unit) (Column := unit) 7) tt) as (y' & _ & E & Ht & _).
  - apply sys_after_reachable. vm_compute. reflexivity.
  - exact Ew.
  - exact Ec.
  - exact Hs.
  - reflexivity.
  - reflexivity.
  - vm_compute. reflexivity.
  - vm_compute. reflexivity.
  - exists ctx, y'. split; [exact E | exact Ht].
Defined.

(** ** Merging plans *)

Section Merge.
Context {Body Result Column : Type}.
Implicit Types p q : ExecutionPlan Body Result Column.

(** [j] is a consumer of [i] in the map of links. *)
Definition has_link (m : gmap nat (gset nat)) (i j : nat) : Prop := j ∈ default ∅ (m !! i).

Lemma linked_add a b m i j : has_link (add_dependent a b m) i j <-> has_link m i j \/ (i = a /\ j = b).
Proof.
  unfold has_link, add_dependent. rewrite lookup_insert. destruct (decide (a = i)) as [-> | Hne]; cbn; set_solver.
Qed.

Lemma linked_row n a cs : forall m i j,
  has_link (foldl (fun m b => add_dependent (a + n) (b + n) m) m cs) i j <->
  has_link m i j \/ exists b, b ∈ cs /\ i = (a + n)%nat /\ j = (b + n)%nat.
Proof.
  induction cs as [| c cs IH]; intros m i j; cbn [foldl]; [set_solver |].
  rewrite IH, linked_add. setoid_rewrite elem_of_cons. naive_solver.
Qed.

Lemma linked_rows n (l : list (nat * gset nat)) : forall m i j,
  has_link (foldl (fun m '(a, cs) => foldl (fun m b => add_dependent (a + n) (b + n) m) m (elements cs)) m l) i j <->
  has_link m i j \/ exists a cs b, (a, cs) ∈ l /\ b ∈ cs /\ i = (a + n)%nat /\ j = (b + n)%nat.
Proof.
  induction l as [| [a cs] l IH]; intros m i j; cbn [foldl]; [set_solver |].
  rewrite IH, linked_row. setoid_rewrite elem_of_elements. setoid_rewrite elem_of_cons. naive_solver.
Qed.

Lemma linked_merge n (deps m : gmap nat (gset nat)) i j :
  has_link (merge_links n deps m) i j <->
  has_link m i j \/ exists a b, has_link deps a b /\ i = (a + n)%nat /\ j = (b + n)%nat.
Proof.
  unfold merge_links. rewrite linked_rows. setoid_rewrite elem_of_map_to_list. unfold has_link.
  split; (intros [? | H]; [by left | right]).
  - destruct H as (a & cs & b & Ha & Hb & ?). exists a, b. by rewrite Ha.
  - destruct H as (a & b & Hb & ?). destruct (deps !! a) as [cs |] eqn:Ea; [| set_solver]. by exists a, cs, b.
Qed.

(** C38: [merge] moves the links of the other plan to the new positions of its
    operators but not the operators' own indices: the merged plan has the links
    of both plans, those of [plan] shifted by the number of operators of [p], and
    its operators in that order with the indices they had.  As [execute] files
    the tasks under the stored indices, the merged plan lacks the shape it needs
    as soon as both plans have an operator: the first operator of [plan] claims
    index 0, which belongs to another. *)
Theorem merge_keeps_indices p plan : plan_ok p -> plan_ok plan ->
  let merged := fst (merge plan p) in
  operators_ merged = operators_ p ++ operators_ plan /\
  (forall i j, j ∈ getDependents i merged <-> j ∈ getDependents i p \/
     exists a b, b ∈ getDependents a plan /\ i = (a + length (operators_ p))%nat /\ j = (b + length (operators_ p))%nat) /\
  (operators_ p <> [] -> operators_ plan <> [] -> ~ plan_ok merged /\
     exists op op', operators_ merged !! 0%nat = Some (Some op) /\
       operators_ merged !! length (operators_ p) = Some (Some op') /\ op_index_ op = 0%nat /\ op_index_ op' = 0%nat).
Proof.
  intros Hp Hq merged. split_and!; [done | |].
  - intros i j. change (j ∈ getDependents i merged) with
      (has_link (Nat.iter (plan_size plan) (merge_links (length (operators_ p)) (plan_dependents_ plan)) (plan_dependents_ p)) i j).
    assert (forall k, has_link (Nat.iter k (merge_links (length (operators_ p)) (plan_dependents_ plan)) (plan_dependents_ p)) i j <->
      has_link (plan_dependents_ p) i j \/ ((0 < k)%nat /\ exists a b, has_link (plan_dependents_ plan) a b /\
        i = (a + length (operators_ p))%nat /\ j = (b + length (operators_ p))%nat)) as Hk.
    { induction k as [| k IH]; [naive_solver lia |]. rewrite Nat.iter_succ, linked_merge, IH. naive_solver lia. }
    rewrite Hk. unfold has_link, getDependents. split; [naive_solver |]. intros [? | (a & b & Hb & ?)]; [by left | right].
    split; [| by exists a, b]. unfold plan_size. destruct (links_range plan a b Hq Hb). lia.
  - intros Hne Hne'. destruct (operators_ p) as [| o l] eqn:Eo; [done |]. destruct (operators_ plan) as [| o' l'] eqn:Eo'; [done |].
    destruct (proj1 Hp 0%nat o) as (op & -> & E0); [by rewrite Eo |].
    destruct (proj1 Hq 0%nat o') as (op' & -> & E0'); [by rewrite Eo' |].
    assert (operators_ merged = (Some op :: l) ++ Some op' :: l') as Em by (unfold merged, merge; cbn; by rewrite Eo, Eo').
    assert (operators_ merged !! length (Some op :: l) = Some (Some op')) as El by (rewrite Em; by apply list_lookup_middle).
    split; [| exists op, op'; split_and!; try done; by rewrite Em].
    intros [Hi _]. destruct (Hi _ _ El) as (x & [= <-] & Hx). cbn in Hx. lia.
Qed.

End Merge.

Lemma merge_keeps_indices_witness : ~ plan_ok (fst (merge demo_plan demo_plan)) /\ 3%nat ∈ getDependents 2 (fst (merge demo_plan demo_plan)).
Proof.
  destruct (merge_keeps_indices demo_plan demo_plan demo_plan_ok demo_plan_ok) as (_ & HL & HN).
  split; [apply HN; discriminate |]. apply HL. right. exists 0%nat, 1%nat. split; [vm_compute; set_solver | split; reflexivity].
Defined.

(** The plan [demo_plan] merged into a plan with one operator. *)
Definition merged_plan : ExecutionPlan unit unit unit :=
  fst (merge demo_plan (snd (addOperator (mkOperator 0 7 tt) (newExecutionPlan 7)))).

(** An example of what [merge] loses.  It shifts the links of the other
    plan but leaves the indices stored in the moved operators alone, and
    [execute] goes by the stored indices: in the merged plan the producer of the
    link 1 -> 2 is at position 1 with stored index 0, and when [execute] returns,
    the tasks of producer and consumer are both in the queue, where the same link
    in an unmerged plan keeps the consumer deferred. *)
Theorem merge_loses_links :
  getDependents 1 merged_plan = {[2%nat]} /\
  (op_index_ <$> omap id (operators_ merged_plan)) = [0; 0; 1]%nat /\
  (exists ctx s, (w ← workers_ (sched (sys_after demo_running)) !! 1%nat; current w) = Some ctx /\
     execute tt ctx merged_plan (sched (sys_after demo_running)) = Some s /\
     (task_id_ <$> task_queue_ s) ≡ₚ [2; 3; 4]) /\
  (exists ctx s, (w ← workers_ (sched (sys_after demo_running)) !! 1%nat; current w) = Some ctx /\
     execute tt ctx demo_plan (sched (sys_after demo_running)) = Some s /\
     (task_id_ <$> task_queue_ s) ≡ₚ [2]).
Proof.
  split_and!; [vm_compute; reflexivity | reflexivity | |];
    do 2 eexists; (split; [vm_compute; reflexivity |]); (split; [vm_compute; reflexivity |]).
  - vm_compute. apply (Permutation_app_comm [3; 4] [2]).
  - vm_compute. reflexivity.
Qed.
