(* ===== verification/DisjointSet.v ===== *)
(** * Disjoint sets (utils/disjoint_set_forest.h)

    The union-find forest the join optimiser groups tables with.  Nodes are
    the positions of the vector [nodes_]; [None] is a failed [DCHECK], the
    exception of [unordered_map::at], an index out of range, or a loop that
    outlives the number of nodes.  The theorem at the end shows that none of
    these happens and that the forest decides the equivalence closure of the
    merged pairs, whatever happens to the ranks. *)

From Stdlib Require Import ZArith Lia.
From stdpp Require Import base numbers list gmap option relations.
Import stdpp.list_basics.list stdpp.list_relations.list stdpp.list_monad.list.

Module DSF.

Record Node := mkNode { rank : nat; parent : nat }.

Section Forest.
Context {ElementT : Type} `{Countable ElementT}.

Record Forest := mkForest { nodes_ : list Node; elements_map_ : gmap ElementT nat }.

Definition newForest : Forest := mkForest [] ∅.

Definition hasElement (element : ElementT) (f : Forest) : bool :=
  bool_decide (is_Some (elements_map_ f !! element)).

Definition makeSet (element : ElementT) (f : Forest) : Forest :=
  if negb (hasElement element f) then
    let pos := length (nodes_ f) in
    mkForest (nodes_ f ++ [mkNode 0 pos]) (<[element := pos]> (elements_map_ f))
  else f.

(** [while ((parent_id = nodes_[root_id].parent) != root_id)] *)
Fixpoint find_root (fuel : nat) (nodes : list Node) (root_id : nat) : option nat :=
  n ← nodes !! root_id;
  if bool_decide (parent n = root_id) then Some root_id
  else match fuel with O => None | S k => find_root k nodes (parent n) end.

(** [while (node_id != root_node_id)] of [compress_path]; also the maximum of
    the ranks on the way. *)
Fixpoint compress_loop (fuel : nat) (node_id root max_rank : nat) (nodes : list Node)
    : option (nat * list Node) :=
  if bool_decide (node_id = root) then Some (max_rank, nodes)
  else match fuel with
       | O => None
       | S k =>
           node ← nodes !! node_id;
           let max_rank := Nat.max max_rank (rank node) in
           compress_loop k (parent node) root max_rank (<[node_id := mkNode (rank node) root]> nodes)
       end.

Definition compress_path (leaf_node_id root_node_id : nat) (nodes : list Node) : option (list Node) :=
  '(max_rank, nodes') ← compress_loop (length nodes) leaf_node_id root_node_id 0 nodes;
  r ← nodes' !! root_node_id;
  Some (<[root_node_id := mkNode (max_rank + 1) (parent r)]> nodes').

Definition find (element : ElementT) (f : Forest) : option (nat * Forest) :=
  node_id ← elements_map_ f !! element;
  root_id ← find_root (length (nodes_ f)) (nodes_ f) node_id;
  nodes' ← compress_path node_id root_id (nodes_ f);
  Some (root_id, mkForest nodes' (elements_map_ f)).

(** The linking step of [merge] on two distinct roots. *)
Definition link_roots (root_id1 root_id2 : nat) (nodes : list Node) : option (list Node) :=
  n1 ← nodes !! root_id1;
  n2 ← nodes !! root_id2;
  if (rank n2 <? rank n1)%nat then Some (<[root_id2 := mkNode (rank n2) root_id1]> nodes)
  else if (rank n1 <? rank n2)%nat then Some (<[root_id1 := mkNode (rank n1) root_id2]> nodes)
  else Some (<[root_id2 := mkNode (rank n2 + 1) (parent n2)]>
               (<[root_id1 := mkNode (rank n1) root_id2]> nodes)).

Definition merge (element1 element2 : ElementT) (f : Forest) : option Forest :=
  '(root_id1, f) ← find element1 f;
  '(root_id2, f) ← find element2 f;
  if bool_decide (root_id1 = root_id2) then Some f
  else nodes' ← link_roots root_id1 root_id2 (nodes_ f);
       Some (mkForest nodes' (elements_map_ f)).

Definition isConnected (element1 element2 : ElementT) (f : Forest) : option (bool * Forest) :=
  '(r1, f) ← find element1 f;
  '(r2, f) ← find element2 f;
  Some (bool_decide (r1 = r2), f).

End Forest.
Arguments Forest _ {_ _}.

(** ** Roots *)

(** [x] reaches the root [r] in [k] steps. *)
Inductive root_in (ns : list Node) : nat -> nat -> nat -> Prop :=
| root_here x n : ns !! x = Some n -> parent n = x -> root_in ns 0 x x
| root_up k x n r : ns !! x = Some n -> parent n <> x -> root_in ns k (parent n) r -> root_in ns (S k) x r.

Definition root_of (ns : list Node) (x r : nat) : Prop := exists k, root_in ns k x r.

(** [d] decreases along parent links, and the links stay inside the vector. *)
Definition decreasing (ns : list Node) (d : nat -> nat) : Prop :=
  forall x n, ns !! x = Some n -> (parent n < length ns)%nat /\
    (parent n <> x -> (d (parent n) < d x)%nat).

Definition wf (ns : list Node) : Prop := exists d, decreasing ns d.

Lemma root_in_det ns k x r k' r' : root_in ns k x r -> root_in ns k' x r' -> k = k' /\ r = r'.
Proof.
  intros H. revert k' r'. induction H as [x n E P | k x n r E P H IH]; intros k' r' H';
    inversion H'; simplify_eq; [done |]. edestruct IH; [done |]. subst. done.
Qed.

Lemma root_of_det ns x r r' : root_of ns x r -> root_of ns x r' -> r = r'.
Proof. intros [k H1] [k' H2]. by destruct (root_in_det _ _ _ _ _ _ H1 H2). Qed.

Lemma root_of_root ns x r : root_of ns x r -> exists n, ns !! r = Some n /\ parent n = r.
Proof. intros [k H]. induction H; eauto. Qed.

Lemma root_of_refl ns r n : ns !! r = Some n -> parent n = r -> root_of ns r r.
Proof. intros. exists 0%nat. by econstructor. Qed.

Lemma root_exists ns x : wf ns -> (x < length ns)%nat -> exists r, root_of ns x r.
Proof.
  intros [d Hd]. remember (d x) as m eqn:Em. revert x Em.
  induction (lt_wf m) as [m _ IH]. intros x -> Hx.
  destruct (lookup_lt_is_Some_2 _ _ Hx) as [n E]. destruct (Hd x n E) as [Hp Hlt].
  destruct (decide (parent n = x)) as [|Hne]; [exists x; by eapply root_of_refl |].
  destruct (IH (d (parent n)) (Hlt Hne) (parent n) eq_refl Hp) as (r & k & Hr).
  exists r, (S k). by econstructor.
Qed.

Lemma root_of_lt ns x r : root_of ns x r -> (x < length ns)%nat /\ (r < length ns)%nat.
Proof.
  intros H. split.
  - destruct H as [k H]. destruct H; by eapply lookup_lt_Some.
  - apply root_of_root in H as (n & E & _). by eapply lookup_lt_Some.
Qed.

(** Along a path the measure decreases, so a path visits no node twice. *)
Lemma root_in_bound ns d k x r vs :
  decreasing ns d -> root_in ns k x r -> NoDup vs ->
  (forall v, v ∈ vs -> (v < length ns)%nat /\ (d x < d v)%nat) ->
  (k + length vs < length ns)%nat.
Proof.
  intros Hd H. revert vs. induction H as [x n E P | k x n r E P H IH]; intros vs Hnd Hvs.
  - assert (NoDup (x :: vs)) as Hn.
    { apply NoDup_cons. split; [| done]. intros Hx. destruct (Hvs x Hx). lia. }
    apply (NoDup_submseteq _ (seq 0 (length ns))) in Hn.
    + apply submseteq_length in Hn. rewrite length_seq in Hn. cbn in Hn. lia.
    + intros v Hv. apply elem_of_seq. apply elem_of_cons in Hv as [-> | Hv].
      * apply lookup_lt_Some in E. lia.
      * destruct (Hvs v Hv). lia.
  - destruct (Hd x n E) as [_ Hlt]. specialize (Hlt P).
    assert (k + length (x :: vs) < length ns)%nat as Hb; [| cbn in Hb; lia].
    apply IH.
    + apply NoDup_cons. split; [| done]. intros Hx. destruct (Hvs x Hx). lia.
    + intros v Hv. apply elem_of_cons in Hv as [-> | Hv].
      * split; [by eapply lookup_lt_Some | lia].
      * destruct (Hvs v Hv). lia.
Qed.

Lemma find_root_ok ns k x r fuel : root_in ns k x r -> (k <= fuel)%nat -> find_root fuel ns x = Some r.
Proof.
  intros H. revert fuel. induction H as [x n E P | k x n r E P H IH]; intros fuel Hf.
  - destruct fuel; cbn; rewrite E; cbn; by rewrite bool_decide_true.
  - destruct fuel as [|fuel]; [lia |]. cbn. rewrite E. cbn. rewrite bool_decide_false by done.
    apply IH. lia.
Qed.

(** ** Path compression *)

Lemma decreasing_root ns d k x r : decreasing ns d -> root_in ns k x r -> x <> r -> (d r < d x)%nat.
Proof.
  intros Hd H. induction H as [x n E P | k x n r E P H IH]; intros Hne; [done |].
  destruct (Hd x n E) as [_ Hlt]. specialize (Hlt P).
  destruct (decide (parent n = r)) as [<- | Hp]; [done |]. specialize (IH Hp). lia.
Qed.

(** Pointing [x] at its root changes no root. *)
Lemma repoint_root_in ns d k y s x n r :
  decreasing ns d -> ns !! x = Some n -> root_of ns x r -> x <> r ->
  root_in ns k y s -> exists k', (k' <= k)%nat /\ root_in (<[x := mkNode (rank n) r]> ns) k' y s.
Proof.
  intros Hd E Hr Hne H. pose proof (root_of_lt _ _ _ Hr) as [Hx _].
  assert (root_in (<[x := mkNode (rank n) r]> ns) 0 r r) as Hroot.
  { destruct (root_of_root _ _ _ Hr) as (m & Em & Pm).
    eapply root_here; [| exact Pm]. by rewrite list_lookup_insert_ne. }
  induction H as [y m Ey Py | k y m s Ey Py H IH].
  - exists 0%nat. split; [done |]. destruct (decide (x = y)) as [-> | Hxy].
    + exfalso. apply Hne. eapply root_of_det; [| exact Hr]. by eapply root_of_refl.
    + eapply root_here; [| exact Py]. by rewrite list_lookup_insert_ne.
  - destruct (decide (x = y)) as [-> | Hxy].
    + exists 1%nat. split; [lia |].
      assert (s = r) as -> by (eapply root_of_det; [| exact Hr]; exists (S k); by econstructor).
      eapply root_up; [apply list_lookup_insert_eq; done | cbn; done | exact Hroot].
    + destruct IH as (k' & Hk & IH). exists (S k'). split; [lia |].
      eapply root_up; [| exact Py | exact IH]. by rewrite list_lookup_insert_ne.
Qed.

Lemma repoint_decreasing ns d x n r :
  decreasing ns d -> ns !! x = Some n -> root_of ns x r -> x <> r ->
  decreasing (<[x := mkNode (rank n) r]> ns) d.
Proof.
  intros Hd E Hr Hne y m Ey. rewrite length_insert.
  pose proof (root_of_lt _ _ _ Hr) as [Hx Hrl].
  destruct (decide (x = y)) as [-> | Hxy].
  - rewrite list_lookup_insert_eq in Ey by done. injection Ey as <-. cbn.
    split; [done |]. intros _. destruct Hr as [k Hr]. by eapply decreasing_root.
  - rewrite list_lookup_insert_ne in Ey by done. by apply Hd.
Qed.

(** A forest with the same roots everywhere. *)
Definition same_roots (ns ns' : list Node) : Prop :=
  length ns' = length ns /\ forall x r, root_of ns x r <-> root_of ns' x r.

Lemma same_roots_intro ns ns' : wf ns -> wf ns' -> length ns' = length ns ->
  (forall x r, root_of ns x r -> root_of ns' x r) -> same_roots ns ns'.
Proof.
  intros W W' Hl H. split; [done |]. intros x r. split; [auto |]. intros H'.
  destruct (root_exists ns x W) as [r' Hr'].
  { apply root_of_lt in H' as [? _]. lia. }
  by rewrite (root_of_det _ _ _ _ H' (H _ _ Hr')).
Qed.

Lemma same_roots_trans a b c : same_roots a b -> same_roots b c -> same_roots a c.
Proof.
  intros [L1 H1] [L2 H2]. split; [congruence |]. intros x r. by rewrite H1, H2.
Qed.

Lemma compress_loop_ok ns d k x r mr fuel :
  decreasing ns d -> root_in ns k x r -> (k <= fuel)%nat ->
  exists mr' ns', compress_loop fuel x r mr ns = Some (mr', ns') /\ decreasing ns' d /\ same_roots ns ns'.
Proof.
  revert ns x mr fuel. induction k as [k IH] using lt_wf_ind. intros ns x mr fuel Hd H Hf.
  destruct (decide (x = r)) as [-> | Hne].
  { exists mr, ns. split_and!; [| done | by split].
    destruct fuel; cbn; by rewrite bool_decide_true. }
  inversion H as [| k' ? n ? E P H' ]; subst; [done |].
  destruct fuel as [|fuel]; [lia |]. cbn [compress_loop]. rewrite bool_decide_false by done.
  rewrite E. cbn [mbind option_bind].
  assert (root_of ns x r) as Hr by (exists (S k'); done).
  destruct (repoint_root_in ns d k' (parent n) r x n r Hd E Hr Hne H') as (k2 & Hk2 & H2).
  pose proof (repoint_decreasing ns d x n r Hd E Hr Hne) as Hd2.
  destruct (IH k2 ltac:(lia) _ (parent n) (Nat.max mr (rank n)) fuel Hd2 H2 ltac:(lia))
    as (mr' & ns' & -> & Hd' & Hs').
  exists mr', ns'. split_and!; [done | done |]. eapply same_roots_trans; [| exact Hs'].
  apply same_roots_intro; [by exists d | by exists d | apply length_insert |].
  intros y s [ky Hy]. destruct (repoint_root_in ns d ky y s x n r Hd E Hr Hne Hy) as (k3 & _ & H3).
  by exists k3.
Qed.

(** Changing a rank changes no parent. *)
Lemma set_rank_ok ns d x n rk :
  decreasing ns d -> ns !! x = Some n ->
  decreasing (<[x := mkNode rk (parent n)]> ns) d /\ same_roots ns (<[x := mkNode rk (parent n)]> ns).
Proof.
  intros Hd E. pose proof (lookup_lt_Some _ _ _ E) as Hx.
  set (ns' := <[x := mkNode rk (parent n)]> ns).
  assert (forall y m, ns !! y = Some m -> exists m', ns' !! y = Some m' /\ parent m' = parent m) as Hf.
  { intros y m Ey. unfold ns'. destruct (decide (x = y)) as [-> | Hxy].
    - rewrite list_lookup_insert_eq by done. simplify_eq. eauto.
    - rewrite list_lookup_insert_ne by done. eauto. }
  assert (decreasing ns' d) as Hd'.
  { intros y m Ey. unfold ns'. rewrite length_insert.
    destruct (lookup_lt_is_Some_2 ns y) as [m0 E0].
    { apply lookup_lt_Some in Ey. unfold ns' in Ey. by rewrite length_insert in Ey. }
    destruct (Hf y m0 E0) as (m' & E' & P'). simplify_eq. rewrite P'. by apply Hd. }
  split; [done |]. apply same_roots_intro; [by exists d | by exists d | apply length_insert |].
  intros y r [k H]. exists k. induction H as [y m Ey Py | k y m r Ey Py H IH].
  - destruct (Hf _ _ Ey) as (m' & E' & P'). eapply root_here; [exact E' | congruence].
  - destruct (Hf _ _ Ey) as (m' & E' & P'). eapply root_up; [exact E' | congruence |]. by rewrite P'.
Qed.

Lemma find_nodes_ok ns x : wf ns -> (x < length ns)%nat ->
  exists r ns', find_root (length ns) ns x = Some r /\ compress_path x r ns = Some ns' /\
    root_of ns x r /\ wf ns' /\ same_roots ns ns'.
Proof.
  intros W Hx. destruct (root_exists ns x W Hx) as (r & k & Hr). destruct W as [d Hd].
  assert (k + 0 < length ns)%nat as Hk.
  { apply (root_in_bound ns d k x r []); [done | done | constructor |].
    intros v Hv. by apply elem_of_nil in Hv. }
  exists r. destruct (compress_loop_ok ns d k x r 0 (length ns) Hd Hr ltac:(lia)) as (mr & ns1 & E & Hd1 & Hs1).
  unfold compress_path. rewrite E. cbn [mbind option_bind].
  destruct (lookup_lt_is_Some_2 ns1 r) as [n1 En1].
  { destruct Hs1 as [-> _]. apply (root_of_lt ns x). by exists k. }
  rewrite En1. cbn [mbind option_bind]. destruct (set_rank_ok ns1 d r n1 (mr + 1) Hd1 En1) as [Hd2 Hs2].
  eexists. split_and!; [by eapply find_root_ok; [exact Hr | lia] | reflexivity | by exists k | by exists d |].
  by eapply same_roots_trans.
Qed.

(** ** Linking two roots *)

Lemma repoint_link ns x nx y rk :
  wf ns -> ns !! x = Some nx -> parent nx = x -> root_of ns y y -> x <> y ->
  let ns' := <[x := mkNode rk y]> ns in
  wf ns' /\ length ns' = length ns /\
  forall z r, root_of ns z r -> root_of ns' z (if decide (r = x) then y else r).
Proof.
  intros W Ex Px Hy Hne. pose proof W as [d Hd]. pose proof (lookup_lt_Some _ _ _ Ex) as Hx.
  pose proof (root_of_lt _ _ _ Hy) as [_ Hyl].
  pose (hi := fun z => match find_root (length ns) ns z with
                       | Some r => if decide (r = x) then (d z + d y + 1)%nat else d z
                       | None => d z end).
  assert (forall z r, root_of ns z r -> find_root (length ns) ns z = Some r) as Hfr.
  { intros z r Hz. destruct (find_nodes_ok ns z W) as (r' & ? & E & _ & Hr' & _).
    - by apply root_of_lt in Hz as [? _].
    - by rewrite (root_of_det _ _ _ _ Hz Hr'). }
  cbn zeta. set (ns' := <[x := mkNode rk y]> ns).
  assert (wf ns') as W'.
  { exists hi. intros z n Ez. unfold ns' in *. rewrite length_insert.
    destruct (decide (x = z)) as [<- | Hz].
    - rewrite list_lookup_insert_eq in Ez by done. injection Ez as <-. cbn. split; [done |]. intros _.
      unfold hi. rewrite (Hfr y y Hy), (Hfr x x) by (by eapply root_of_refl).
      rewrite decide_False, decide_True by done. lia.
    - rewrite list_lookup_insert_ne in Ez by done. destruct (Hd z n Ez) as [Hp Hlt]. split; [done |].
      intros Hpz. specialize (Hlt Hpz). unfold hi.
      destruct (root_exists ns (parent n) W Hp) as [r Hr].
      rewrite (Hfr _ _ Hr), (Hfr z r) by (destruct Hr as [k Hr]; exists (S k); by econstructor).
      case_decide; lia. }
  split_and!; [done | apply length_insert |].
  assert (root_of ns' y y) as Hy'.
  { destruct (root_of_root _ _ _ Hy) as (m & Em & Pm). eapply root_of_refl; [| exact Pm].
    unfold ns'. by rewrite list_lookup_insert_ne. }
  intros z r [k H]. induction H as [z n Ez Pz | k z n r Ez Pz H IH].
  - case_decide as Hzx; [rewrite Hzx | eapply root_of_refl; [| exact Pz]; unfold ns'; by rewrite list_lookup_insert_ne].
    destruct Hy' as [k Hk]. exists (S k).
    eapply (root_up _ _ x (mkNode rk y)); [by apply list_lookup_insert_eq | cbn; done | exact Hk].
  - assert (x <> z) as Hxz by congruence. destruct IH as [k' IH]. exists (S k').
    eapply root_up; [unfold ns'; by rewrite list_lookup_insert_ne | exact Pz | exact IH].
Qed.

(** Linking distinct roots [a] and [b] sends both classes to one of them and
    leaves the others alone. *)
Lemma link_roots_ok ns a b :
  wf ns -> root_of ns a a -> root_of ns b b -> a <> b ->
  exists ns' w, link_roots a b ns = Some ns' /\ wf ns' /\ length ns' = length ns /\ (w = a \/ w = b) /\
    forall z r, root_of ns z r -> root_of ns' z (if decide (r = a \/ r = b) then w else r).
Proof.
  intros W Ha Hb Hne.
  destruct (root_of_root _ _ _ Ha) as (na & Ea & Pa). destruct (root_of_root _ _ _ Hb) as (nb & Eb & Pb).
  unfold link_roots. rewrite Ea, Eb. cbn [mbind option_bind].
  destruct (rank nb <? rank na)%nat; [| destruct (rank na <? rank nb)%nat].
  - destruct (repoint_link ns b nb a (rank nb) W Eb Pb Ha) as (W' & L & H); [done |].
    eexists _, a. split_and!; [reflexivity | done | done | by left |]. intros z r Hz.
    specialize (H z r Hz). repeat case_decide; intuition congruence.
  - destruct (repoint_link ns a na b (rank na) W Ea Pa Hb) as (W' & L & H); [done |].
    eexists _, b. split_and!; [reflexivity | done | done | by right |]. intros z r Hz.
    specialize (H z r Hz). repeat case_decide; intuition congruence.
  - destruct (repoint_link ns a na b (rank na) W Ea Pa Hb) as ([d Hd] & L & H); [done |].
    set (ns1 := <[a := mkNode (rank na) b]> ns) in *.
    destruct (set_rank_ok ns1 d b nb (rank nb + 1) Hd) as (Hd2 & L2 & H2).
    { unfold ns1. by rewrite list_lookup_insert_ne. }
    eexists _, b. split_and!; [reflexivity | by exists d | congruence | by right |]. intros z r Hz.
    apply H2. specialize (H z r Hz). repeat case_decide; intuition congruence.
Qed.

(** ** Elements and the closure of the merged pairs *)

Section Elements.
Context {ElementT : Type} `{Countable ElementT}.

Inductive Op :=
| OpMakeSet (e : ElementT)
| OpFind (e : ElementT)
| OpMerge (e1 e2 : ElementT)
| OpIsConnected (e1 e2 : ElementT).

Definition exec (op : Op) (f : Forest ElementT) : option (Forest ElementT) :=
  match op with
  | OpMakeSet e => Some (makeSet e f)
  | OpFind e => snd <$> find e f
  | OpMerge a b => merge a b f
  | OpIsConnected a b => snd <$> isConnected a b f
  end.

Fixpoint run (ops : list Op) (f : Forest ElementT) : option (Forest ElementT) :=
  match ops with [] => Some f | op :: ops' => f' ← exec op f; run ops' f' end.

(** The elements made and the pairs merged by a sequence of operations. *)
Definition made (ops : list Op) : gset ElementT :=
  list_to_set (omap (fun op => match op with OpMakeSet e => Some e | _ => None end) ops).

Definition merged (ops : list Op) : list (ElementT * ElementT) :=
  omap (fun op => match op with OpMerge a b => Some (a, b) | _ => None end) ops.

(** The calls respect the [DCHECK]: an element is made before it is used. *)
Definition uses (op : Op) : list ElementT :=
  match op with OpMakeSet _ => [] | OpFind e => [e] | OpMerge a b | OpIsConnected a b => [a; b] end.

Fixpoint valid (seen : gset ElementT) (ops : list Op) : Prop :=
  match ops with
  | [] => True
  | op :: ops' =>
      Forall (fun e => e ∈ seen) (uses op) /\
      valid (match op with OpMakeSet e => {[e]} ∪ seen | _ => seen end) ops'
  end.

Definition joined (pairs : list (ElementT * ElementT)) : relation ElementT :=
  rtsc (fun a b => (a, b) ∈ pairs).

Definition conn (f : Forest ElementT) (a b : ElementT) : Prop :=
  exists x y r, elements_map_ f !! a = Some x /\ elements_map_ f !! b = Some y /\
    root_of (nodes_ f) x r /\ root_of (nodes_ f) y r.

Record uf_inv (M : gset ElementT) (pairs : list (ElementT * ElementT)) (f : Forest ElementT) : Prop := {
  u_wf : wf (nodes_ f);
  u_dom : forall e, is_Some (elements_map_ f !! e) <-> e ∈ M;
  u_range : forall e x, elements_map_ f !! e = Some x -> (x < length (nodes_ f))%nat;
  u_pairs : forall a b, (a, b) ∈ pairs -> a ∈ M /\ b ∈ M;
  u_conn : forall a b, a ∈ M -> b ∈ M -> (conn f a b <-> joined pairs a b)
}.

Lemma joined_cons a b pairs u v :
  joined ((a, b) :: pairs) u v <->
  joined pairs u v \/ ((joined pairs u a \/ joined pairs u b) /\ (joined pairs v a \/ joined pairs v b)).
Proof.
  assert (Equivalence (joined pairs)) as HE by apply rtsc_equivalence.
  assert (Equivalence (joined ((a, b) :: pairs))) as HE' by apply rtsc_equivalence.
  assert (forall x y, joined pairs x y -> joined ((a, b) :: pairs) x y) as Hsub.
  { intros x y. apply rtc_subrel. intros ? ? [? | ?]; [left | right]; by right. }
  assert (joined ((a, b) :: pairs) a b) as Hab by (apply rtc_once; left; left).
  split.
  - intros Huv. induction Huv as [u | u w v Hs _ IH]; [left; reflexivity |].
    assert (joined pairs u w \/ (u = a /\ w = b) \/ (u = b /\ w = a)) as Hw.
    { destruct Hs as [Hs | Hs]; apply elem_of_cons in Hs as [? | Hs]; simplify_eq; auto;
        left; apply rtc_once; [by left | by right]. }
    destruct Hw as [Hw | [[-> ->] | [-> ->]]].
    + destruct IH as [IH | [[IH | IH] Hv]]; [left; by transitivity w | right; split; [left | done] | right; split; [right | done]];
        by transitivity w.
    + destruct IH as [IH | [_ Hv]]; right; (split; [left; reflexivity |]); [right; by symmetry | done].
    + destruct IH as [IH | [_ Hv]]; right; (split; [right; reflexivity |]); [left; by symmetry | done].
  - intros [Huv | [Hu Hv]]; [by apply Hsub |].
    assert (forall x, joined pairs x a \/ joined pairs x b -> joined ((a, b) :: pairs) x a) as Hx.
    { intros x [Hx | Hx]; [by apply Hsub | transitivity b; [by apply Hsub | by symmetry]]. }
    transitivity a; [by apply Hx | symmetry; by apply Hx].
Qed.

Lemma same_roots_inv M pairs f ns :
  uf_inv M pairs f -> wf ns -> same_roots (nodes_ f) ns -> uf_inv M pairs (mkForest ns (elements_map_ f)).
Proof.
  intros [] W [L HR]. constructor; cbn; auto; [intros; rewrite L; eauto |].
  intros a b Ha Hb. rewrite <- u_conn0 by done. unfold conn. cbn.
  setoid_rewrite HR. done.
Qed.

Lemma find_ok M pairs f e :
  uf_inv M pairs f -> e ∈ M ->
  exists x r f', find e f = Some (r, f') /\ uf_inv M pairs f' /\ elements_map_ f' = elements_map_ f /\
    elements_map_ f !! e = Some x /\ root_of (nodes_ f) x r /\ same_roots (nodes_ f) (nodes_ f').
Proof.
  intros I He. destruct (proj2 (u_dom _ _ _ I e) He) as [x Ex].
  destruct (find_nodes_ok (nodes_ f) x (u_wf _ _ _ I) (u_range _ _ _ I _ _ Ex)) as (r & ns & E1 & E2 & Hr & W & Hs).
  exists x, r, (mkForest ns (elements_map_ f)). unfold find. rewrite Ex. cbn [mbind option_bind].
  rewrite E1. cbn [mbind option_bind]. rewrite E2. cbn [mbind option_bind].
  split_and!; try done. by apply same_roots_inv.
Qed.

Lemma conn_roots M pairs f a b x y r s :
  uf_inv M pairs f -> elements_map_ f !! a = Some x -> elements_map_ f !! b = Some y ->
  root_of (nodes_ f) x r -> root_of (nodes_ f) y s -> (joined pairs a b <-> r = s).
Proof.
  intros I Ea Eb Hr Hs. rewrite <- (u_conn _ _ _ I) by (apply (u_dom _ _ _ I); eauto).
  split.
  - intros (x' & y' & t & Ea' & Eb' & H1 & H2). simplify_eq.
    rewrite (root_of_det _ _ _ _ Hr H1). by rewrite (root_of_det _ _ _ _ Hs H2).
  - intros ->. by exists x, y, s.
Qed.

Lemma makeSet_ok M pairs f e : uf_inv M pairs f -> uf_inv ({[e]} ∪ M) pairs (makeSet e f).
Proof.
  intros I. unfold makeSet, hasElement. case_bool_decide as Hin; cbn [negb].
  { assert (({[e]} ∪ M) = M) as ->; [| done]. apply (u_dom _ _ _ I) in Hin. set_solver. }
  assert (e ∉ M) as He by (by rewrite <- (u_dom _ _ _ I)).
  destruct I as [[d Hd] Hdom Hrg Hp Hc]. set (k := length (nodes_ f)).
  assert (forall x r, root_of (nodes_ f) x r -> root_of (nodes_ f ++ [mkNode 0 k]) x r) as Hold.
  { intros x r [j Hj]. exists j. induction Hj as [x n Ex Px | j x n r Ex Px Hj IH];
      [eapply root_here | eapply root_up]; eauto using lookup_app_l_Some. }
  assert (root_of (nodes_ f ++ [mkNode 0 k]) k k) as Hnew.
  { eapply root_of_refl; [by apply list_lookup_middle | done]. }
  assert (forall y r, (y < length (nodes_ f))%nat -> root_of (nodes_ f ++ [mkNode 0 k]) k r ->
    root_of (nodes_ f ++ [mkNode 0 k]) y r -> False) as Hsep.
  { intros y r Hy H1 H2. destruct (root_exists (nodes_ f) y) as [s Hs]; [by exists d | done |].
    rewrite <- (root_of_det _ _ _ _ Hnew H1) in H2.
    pose proof (root_of_det _ _ _ _ H2 (Hold _ _ Hs)) as Es. subst s.
    apply root_of_lt in Hs. unfold k in Hs. lia. }
  constructor; cbn.
  - exists d. intros x n Ex. rewrite length_app. cbn. apply lookup_app_Some in Ex as [Ex | [Hx Ex]].
    + destruct (Hd x n Ex). split; [lia | done].
    + apply list_lookup_singleton_Some in Ex as [Ex <-]. cbn. split; [lia |]. intros Hne. unfold k in *. lia.
  - intros u. rewrite lookup_insert_is_Some', Hdom. set_solver.
  - intros u x. rewrite length_app. cbn. intros [[<- <-] | [_ Eu]]%lookup_insert_Some; [lia |].
    apply Hrg in Eu. lia.
  - intros a b Hab%Hp. set_solver.
  - assert (forall u v, joined pairs u v -> u ∉ M -> u = v) as Hfresh.
    { intros u v Huv Hu. destruct Huv as [|u w v [Hw | Hw] _]; [done | |]; apply Hp in Hw; tauto. }
    intros a b Ha Hb. unfold conn. cbn.
    destruct (decide (a = e)) as [-> | Hae], (decide (b = e)) as [-> | Hbe].
    + split; [reflexivity |]. intros _. exists k, k, k. by rewrite lookup_insert_eq.
    + split.
      * intros (x & y & r & E1 & E2 & H1 & H2). rewrite lookup_insert_eq in E1.
        rewrite lookup_insert_ne in E2 by done. injection E1 as <-.
        exfalso. eauto.
      * intros Hj. by apply Hfresh in Hj.
    + split.
      * intros (x & y & r & E1 & E2 & H1 & H2). rewrite lookup_insert_eq in E2.
        rewrite lookup_insert_ne in E1 by done. injection E2 as <-.
        exfalso. eauto.
      * intros Hj. symmetry in Hj. by apply Hfresh in Hj.
    + rewrite !lookup_insert_ne by done. rewrite <- Hc by set_solver.
      split; intros (x & y & r & E1 & E2 & H1 & H2); exists x, y.
      * destruct (root_exists (nodes_ f) x) as [s Hs]; [by exists d | eauto |].
        destruct (root_exists (nodes_ f) y) as [s' Hs']; [by exists d | eauto |].
        exists s. pose proof (root_of_det _ _ _ _ H1 (Hold _ _ Hs)).
        pose proof (root_of_det _ _ _ _ H2 (Hold _ _ Hs')). subst. done.
      * exists r. split_and!; auto.
Qed.

Lemma merge_ok M pairs f a b :
  uf_inv M pairs f -> a ∈ M -> b ∈ M ->
  exists f', merge a b f = Some f' /\ uf_inv M ((a, b) :: pairs) f'.
Proof.
  intros I Ha Hb. destruct (find_ok M pairs f a I Ha) as (x & r1 & f1 & E1 & I1 & Em1 & Ex & Hr1 & Hs1).
  destruct (find_ok M pairs f1 b I1 Hb) as (y & r2 & f2 & E2 & I2 & Em2 & Ey & Hr2 & Hs2).
  unfold merge. rewrite E1. cbn [mbind option_bind]. rewrite E2. cbn [mbind option_bind].
  apply Hs1, Hs2 in Hr1. apply Hs2 in Hr2. rewrite <- Em1, <- Em2 in Ex. rewrite <- Em2 in Ey.
  clear dependent f f1. rename f2 into f, I2 into I.
  assert (forall P : Prop, P -> (forall u v, (u, v) ∈ (a, b) :: pairs -> u ∈ M /\ v ∈ M)) as Hpairs.
  { intros _ _ u v [? | Huv]%elem_of_cons; simplify_eq; [done | by apply (u_pairs _ _ _ I)]. }
  pose proof (conn_roots _ _ _ _ _ _ _ _ _ I Ex Ey Hr1 Hr2) as Hab.
  case_bool_decide as Hr.
  - exists f. split; [done |]. destruct I. constructor; eauto.
    intros u v Hu Hv. rewrite u_conn0, joined_cons by done. split; [by left |].
    apply Hab in Hr. intros [? | [Hu' Hv']]; [done |].
    assert (forall w, joined pairs w a \/ joined pairs w b -> joined pairs w a) as Hw.
    { intros w [? | ?]; [done |]. transitivity b; [done | by symmetry]. }
    transitivity a; [by apply Hw | symmetry; by apply Hw].
  - destruct (link_roots_ok (nodes_ f) r1 r2 (u_wf _ _ _ I)) as (ns & w & -> & W & L & Hw & Hroots); [| | done |].
    { destruct (root_of_root _ _ _ Hr1) as (m & ? & ?). by eapply root_of_refl. }
    { destruct (root_of_root _ _ _ Hr2) as (m & ? & ?). by eapply root_of_refl. }
    cbn [mbind option_bind]. eexists. split; [reflexivity |]. constructor; cbn; eauto.
    + apply I.
    + intros e z Ez. rewrite L. by apply (u_range _ _ _ I e).
    + intros u v Hu Hv. rewrite joined_cons.
      destruct (proj2 (u_dom _ _ _ I u) Hu) as [zu Eu]. destruct (proj2 (u_dom _ _ _ I v) Hv) as [zv Ev].
      destruct (root_exists _ zu (u_wf _ _ _ I) (u_range _ _ _ I _ _ Eu)) as [ru Hru].
      destruct (root_exists _ zv (u_wf _ _ _ I) (u_range _ _ _ I _ _ Ev)) as [rv Hrv].
      rewrite (conn_roots _ _ _ _ _ _ _ _ _ I Eu Ev Hru Hrv), (conn_roots _ _ _ _ _ _ _ _ _ I Eu Ex Hru Hr1),
        (conn_roots _ _ _ _ _ _ _ _ _ I Eu Ey Hru Hr2), (conn_roots _ _ _ _ _ _ _ _ _ I Ev Ex Hrv Hr1),
        (conn_roots _ _ _ _ _ _ _ _ _ I Ev Ey Hrv Hr2).
      pose proof (Hroots _ _ Hru) as Nu. pose proof (Hroots _ _ Hrv) as Nv.
      transitivity ((if decide (ru = r1 \/ ru = r2) then w else ru) = (if decide (rv = r1 \/ rv = r2) then w else rv)).
      * unfold conn. cbn. split.
        -- intros (? & ? & t & ? & ? & H1 & H2). simplify_eq.
           by rewrite (root_of_det _ _ _ _ Nu H1), (root_of_det _ _ _ _ Nv H2).
        -- intros E. rewrite E in Nu. by exists zu, zv, (if decide (rv = r1 \/ rv = r2) then w else rv).
      * repeat case_decide; intuition congruence.
Qed.

(** What [merge] of two different sets does to the roots. *)
Lemma merge_roots M pairs f a b x y r1 r2 f' :
  uf_inv M pairs f -> elements_map_ f !! a = Some x -> elements_map_ f !! b = Some y ->
  root_of (nodes_ f) x r1 -> root_of (nodes_ f) y r2 -> r1 <> r2 -> merge a b f = Some f' ->
  exists w, (w = r1 \/ w = r2) /\ elements_map_ f' = elements_map_ f /\
    forall z r, root_of (nodes_ f) z r -> root_of (nodes_ f') z (if decide (r = r1 \/ r = r2) then w else r).
Proof.
  intros I Ex Ey Hr1 Hr2 Hne.
  destruct (find_ok M pairs f a I) as (x' & s1 & f1 & E1 & I1 & Em1 & Ex' & Hs1 & S1); [apply (u_dom _ _ _ I); eauto |].
  destruct (find_ok M pairs f1 b I1) as (y' & s2 & f2 & E2 & I2 & Em2 & Ey' & Hs2 & S2);
    [apply (u_dom _ _ _ I); eauto |].
  rewrite Em1 in Ey'. simplify_eq. apply S1 in Hs2.
  pose proof (root_of_det _ _ _ _ Hr1 Hs1). pose proof (root_of_det _ _ _ _ Hr2 Hs2). subst s1 s2.
  unfold merge. rewrite E1. cbn [mbind option_bind]. rewrite E2. cbn [mbind option_bind].
  rewrite bool_decide_false by done. pose proof (same_roots_trans _ _ _ S1 S2) as [_ S].
  assert (forall z r, root_of (nodes_ f) z r -> root_of (nodes_ f2) r r) as Hrr.
  { intros z r Hr. destruct (root_of_root _ _ _ Hr) as (m & ? & ?). apply S. by eapply root_of_refl. }
  destruct (link_roots_ok (nodes_ f2) r1 r2 (u_wf _ _ _ I2)) as (ns & w & -> & _ & _ & Hw & Hroots);
    [by eapply Hrr | by eapply Hrr | done |].
  cbn [mbind option_bind]. intros [= <-]. exists w. cbn. split_and!; [done | congruence |].
  intros z r Hz. by apply Hroots, S.
Qed.

Lemma exec_ok M pairs f op :
  uf_inv M pairs f -> Forall (fun e => e ∈ M) (uses op) ->
  exists f', exec op f = Some f' /\
    uf_inv (match op with OpMakeSet e => {[e]} ∪ M | _ => M end)
      (match op with OpMerge a b => (a, b) :: pairs | _ => pairs end) f'.
Proof.
  intros I Hu. destruct op as [e | e | a b | a b]; cbn [exec uses] in *;
    repeat (apply Forall_cons in Hu as [? Hu]).
  - eexists. split; [done |]. by apply makeSet_ok.
  - destruct (find_ok M pairs f e I) as (x & r & f' & -> & I' & _); [done |]. by exists f'.
  - by apply merge_ok.
  - unfold isConnected. destruct (find_ok M pairs f a I) as (x & r & f1 & -> & I1 & _); [done |].
    cbn [mbind option_bind]. destruct (find_ok M pairs f1 b I1) as (y & r' & f2 & -> & I2 & _); [done |]. by exists f2.
Qed.

Lemma joined_Permutation p q u v : p ≡ₚ q -> joined p u v -> joined q u v.
Proof.
  intros HP. apply rtc_subrel. intros x y [Hx | Hx]; [left | right]; by rewrite <- HP.
Qed.

Lemma run_ok M pairs f ops :
  uf_inv M pairs f -> valid M ops ->
  exists f', run ops f = Some f' /\ uf_inv (made ops ∪ M) (rev (merged ops) ++ pairs) f'.
Proof.
  revert M pairs f. induction ops as [|op ops IH]; intros M pairs f I Hv.
  { exists f. split; [done |]. assert (made [] ∪ M = M) as -> by set_solver. done. }
  destruct Hv as [Hu Hv]. destruct (exec_ok M pairs f op I Hu) as (f1 & E1 & I1).
  cbn [run]. rewrite E1. cbn [mbind option_bind].
  destruct (IH _ _ _ I1 Hv) as (f' & E' & I'). exists f'. split; [done |].
  destruct op as [e | e | a b | a b]; try exact I'.
  - replace (made (OpMakeSet e :: ops) ∪ M) with (made ops ∪ ({[e]} ∪ M)); [exact I' |].
    unfold made. csimpl. rewrite (assoc_L (∪)), (comm_L (∪) _ {[e]}). done.
  - unfold merged. csimpl. rewrite <- app_assoc. exact I'.
Qed.

(** No operation but [makeSet] changes the number of nodes. *)
Lemma compress_loop_length fuel : forall x r mr ns mr' ns',
  compress_loop fuel x r mr ns = Some (mr', ns') -> length ns' = length ns.
Proof.
  induction fuel as [|fuel IH]; intros x r mr ns mr' ns'; cbn [compress_loop];
    (case_bool_decide; [intros [= <- <-]; done |]); [done |].
  destruct (ns !! x) as [n|]; cbn [mbind option_bind]; [| done]. intros E%IH. by rewrite length_insert in E.
Qed.

Lemma find_length e (f f' : Forest ElementT) r : find e f = Some (r, f') -> length (nodes_ f') = length (nodes_ f).
Proof.
  unfold find, compress_path. destruct (elements_map_ f !! e); cbn [mbind option_bind]; [| done].
  destruct (find_root _ _ _) as [r0|]; cbn [mbind option_bind]; [| done].
  destruct (compress_loop _ _ _ _ _) as [[mr ns]|] eqn:E; cbn [mbind option_bind]; [| done].
  destruct (ns !! r0); cbn [mbind option_bind]; [| done]. intros [= <- <-]. cbn. rewrite length_insert.
  by eapply compress_loop_length.
Qed.

Lemma merge_length a b (f f' : Forest ElementT) : merge a b f = Some f' -> length (nodes_ f') = length (nodes_ f).
Proof.
  unfold merge. destruct (find a f) as [[r1 f1]|] eqn:E1; cbn [mbind option_bind]; [| done].
  destruct (find b f1) as [[r2 f2]|] eqn:E2; cbn [mbind option_bind]; [| done].
  apply find_length in E1, E2. case_bool_decide; [intros [= <-]; congruence |].
  unfold link_roots. destruct (nodes_ f2 !! r1); cbn [mbind option_bind]; [| done].
  destruct (nodes_ f2 !! r2); cbn [mbind option_bind]; [| done].
  repeat case_match; cbn [mbind option_bind]; intros [= <-]; cbn; rewrite ?length_insert; congruence.
Qed.

Lemma makeSet_length e (f : Forest ElementT) :
  length (nodes_ f) = size (elements_map_ f) -> length (nodes_ (makeSet e f)) = size (elements_map_ (makeSet e f)).
Proof.
  intros L. unfold makeSet, hasElement. case_bool_decide as Hin; cbn [negb]; [done |]. cbn.
  rewrite length_app, map_size_insert_None; [cbn; lia |]. destruct (elements_map_ f !! e); [| done].
  exfalso. apply Hin. eauto.
Qed.

Lemma new_inv : uf_inv ∅ [] (newForest (ElementT := ElementT)).
Proof.
  constructor; cbn.
  - exists (fun _ => 0%nat). intros x n E. by rewrite lookup_nil in E.
  - intros e. rewrite lookup_empty. split; [by intros [? ?] | set_solver].
  - intros e x. by rewrite lookup_empty.
  - intros a b Hab. by apply elem_of_nil in Hab.
  - set_solver.
Qed.

End Elements.
Arguments Op : clear implicits.

End DSF.

Import DSF.

(** ** Properties *)

(** C24: Any sequence of [makeSet], [find], [merge] and [isConnected] calls that
    makes elements before using them runs to its end (no loop is infinite, no
    index leaves the vector), and afterwards [isConnected] answers, for any two
    made elements, whether they are related by the equivalence closure of the
    merged pairs. *)
Theorem disjoint_set_correct {ElementT} `{Countable ElementT} (ops : list (Op ElementT)) (a b : ElementT) :
  valid ∅ ops -> a ∈ made ops -> b ∈ made ops ->
  exists f f' ans, run ops newForest = Some f /\ isConnected a b f = Some (ans, f') /\
    (ans = true <-> rtsc (fun u v => (u, v) ∈ merged ops) a b).
Proof.
  intros Hv Ha Hb. destruct (run_ok ∅ [] newForest ops new_inv Hv) as (f & E & I).
  rewrite app_nil_r in I.
  destruct (find_ok _ _ f a I) as (x & r1 & f1 & E1 & I1 & Em1 & Ex & Hr1 & Hs1); [set_solver |].
  destruct (find_ok _ _ f1 b I1) as (y & r2 & f2 & E2 & I2 & Em2 & Ey & Hr2 & Hs2); [set_solver |].
  exists f, f2, (bool_decide (r1 = r2)). split; [done |]. unfold isConnected. rewrite E1. cbn [mbind option_bind].
  rewrite E2. split; [done |]. rewrite bool_decide_eq_true.
  rewrite Em1 in Ey. apply Hs1 in Hr2.
  rewrite <- (conn_roots _ _ _ _ _ _ _ _ _ I Ex Ey Hr1 Hr2).
  split; apply joined_Permutation; [symmetry |]; apply Permutation_rev.
Qed.

Lemma disjoint_set_correct_witness :
  exists f f' ans, run [OpMakeSet 1; OpMakeSet 2; OpMakeSet 3; OpMerge 1 2; OpMerge 2 3]%nat newForest = Some f /\
    isConnected 1%nat 3%nat f = Some (ans, f') /\
    (ans = true <-> rtsc (fun u v => (u, v) ∈ [(1, 2); (2, 3)]%nat) 1%nat 3%nat).
Proof.
  apply (disjoint_set_correct [OpMakeSet 1; OpMakeSet 2; OpMakeSet 3; OpMerge 1 2; OpMerge 2 3]%nat);
    [| vm_compute; set_solver ..].
  split_and!; repeat constructor; refine (bool_decide_unpack _ _); vm_compute; exact I.
Defined.
