(* ===== verification/ReorderJoins.v ===== *)
(** * Join reordering (optimizer/reorder_joins.h, optimizer/reorder_joins.cc)

    The greedy operator ordering: the join predicates are taken by increasing
    estimated size, a disjoint-set forest groups the tables already joined, and
    each group has an execution plan.  Uses [DisjointSet.v] and the plans of
    [ExecutionPlan.v].  Plans are shared pointers: [plans] holds addresses into
    a store.  [None] is undefined behaviour or a failed [DCHECK]; the exception
    of the function is a value. *)

From Stdlib Require Import ZArith Lia.
From stdpp Require Import base numbers list gmap option relations sorting.
Import stdpp.list_basics.list stdpp.list_relations.list stdpp.list_monad.list.
From S2P Require Import Prelude Scheduler SchedulerGraph SchedulerSystem ExecutionPlan DisjointSet.
Import Plan PlanRun DSF.

Local Open Scope Z_scope.

(** [std::priority_queue]: [pop] takes an element that no other precedes; which
    one, among equals, the standard leaves open. *)
Class PriorityQueue (A : Type) (cost : A -> Z) := {
  pq_pop : list A -> option (A * list A);
  pq_pop_spec : forall l,
    match pq_pop l with
    | None => l = []
    | Some (x, rest) => l ≡ₚ x :: rest /\ Forall (fun y => cost x <= cost y) l
    end
}.

Module Reorder.

(** Tables are pointers; a predicate names the tables of its two columns. *)
Record JoinPredicate := mkJoinPredicate { left_table : nat; right_table : nat; pred_id : nat }.

Record JoinInfo := mkJoinInfo {
  left_id : nat; right_id : nat; pred : JoinPredicate; est_size : Z }.

(** An [OperatorResult]: one made for a base table, or the output of a join. *)
Inductive OpResult := RTable (table : nat) | RJoin (pred : JoinPredicate).

(** What the task of a [HashJoin] runs on. *)
Record HashJoin := mkHashJoin { hj_inputs : list OpResult; hj_out : OpResult; hj_pred : JoinPredicate }.

Abbreviation JoinPlan := (ExecutionPlan HashJoin OpResult unit).

Inductive Outcome := PlanOut (p : JoinPlan) | NullPlan | UnsupportedJoin.

(** [populate_tables_maps]: the identifier of a table is the number of tables
    seen before it.  The list is [table_ptrs], read backwards it is [table_ids]. *)
Definition populate (t : nat) (tables : list nat) : list nat :=
  if decide (t ∈ tables) then tables else tables ++ [t].

Fixpoint populate_all (preds : list JoinPredicate) (tables : list nat) : list nat :=
  match preds with
  | [] => tables
  | jp :: preds' => populate_all preds' (populate (right_table jp) (populate (left_table jp) tables))
  end.

Definition table_id (tables : list nat) (t : nat) : option nat := fst <$> list_find (eq t) tables.

Definition compute_cost (sizes : list Z) (l r : nat) : option Z :=
  sl ← sizes !! l; sr ← sizes !! r; Some (to_u64 (sl * sr)).

(** The loop that fills the forest and the queue. *)
Fixpoint push_joins (preds : list JoinPredicate) (tables : list nat) (sizes : list Z)
    (forest : Forest nat) (q : list JoinInfo) : option (Forest nat * list JoinInfo) :=
  match preds with
  | [] => Some (forest, q)
  | jp :: preds' =>
      l ← table_id tables (left_table jp);
      r ← table_id tables (right_table jp);
      c ← compute_cost sizes l r;
      push_joins preds' tables sizes (makeSet r (makeSet l forest)) (q ++ [mkJoinInfo l r jp c])
  end.

Record State := mkState {
  st_plans : list (option nat);
  st_store : list JoinPlan;
  st_forest : Forest nat;
  st_final : option nat
}.

Definition set_plan (g : nat) (v : option nat) (st : State) : option State :=
  if decide (g < length (st_plans st))%nat
  then Some (mkState (<[g := v]> (st_plans st)) (st_store st) (st_forest st) (st_final st)) else None.

Definition set_stored (a : nat) (p : JoinPlan) (st : State) : State :=
  mkState (st_plans st) (<[a := p]> (st_store st)) (st_forest st) (st_final st).

(** The plan a group points to. *)
Definition plan_of (g : nat) (st : State) : option (nat * JoinPlan) :=
  a ← mjoin (st_plans st !! g); p ← st_store st !! a; Some (a, p).

(** The lambda [input_result]: a fresh plan and the base table for a group
    without plan, the plan's result otherwise. *)
Definition input_result (query_id : Z) (tables : list nat) (tbl_id grp_id : nat) (st : State)
    : option (option OpResult * State) :=
  slot ← st_plans st !! grp_id;
  match slot with
  | None =>
      t ← tables !! tbl_id;
      let a := length (st_store st) in
      let st := mkState (st_plans st) (st_store st ++ [newExecutionPlan query_id]) (st_forest st) (st_final st) in
      st ← set_plan grp_id (Some a) st;
      Some (Some (RTable t), st)
  | Some a => p ← st_store st !! a; Some (result_out_ p, st)
  end.

(** One iteration of the greedy loop; [Some None] is the exception. *)
Definition join_step (query_id : Z) (tables : list nat) (info : JoinInfo) (st : State)
    : option (option State) :=
  '(lgrp, f) ← find (left_id info) (st_forest st);
  '(rgrp, f) ← find (right_id info) f;
  let st := mkState (st_plans st) (st_store st) f (st_final st) in
  if bool_decide (lgrp = rgrp) then Some None else
  '(lin, st) ← input_result query_id tables (left_id info) lgrp st;
  '(rin, st) ← input_result query_id tables (right_id info) rgrp st;
  let out := RJoin (pred info) in
  let op := mkOperator 0 query_id (mkHashJoin (option_list lin ++ option_list rin) out (pred info)) in
  '(ra, rp) ← plan_of rgrp st;
  let st := set_stored ra (snd (addOperator op rp)) st in
  '(la, lp) ← plan_of lgrp st;
  '(ra, rp) ← plan_of rgrp st;
  let '(lp, rp) := Plan.merge rp lp in
  let st := set_stored la (setOperatorResult (Some out) lp) (set_stored ra rp st) in
  st ← set_plan rgrp None st;
  f ← DSF.merge (left_id info) (right_id info) (st_forest st);
  '(merged_id, f) ← find (left_id info) f;
  lslot ← st_plans st !! lgrp;
  let st := mkState (st_plans st) (st_store st) f (Some merged_id) in
  st ← set_plan merged_id lslot st;
  Some (Some st).

Section WithQueue.
Context {PQ : PriorityQueue JoinInfo est_size}.

(** [while (!min_join_q.empty())]; every iteration pops. *)
Fixpoint join_loop (fuel : nat) (query_id : Z) (tables : list nat) (q : list JoinInfo) (st : State)
    : option (option State) :=
  match pq_pop q with
  | None => Some (Some st)
  | Some (info, q') =>
      match fuel with
      | O => None
      | S k =>
          st' ← join_step query_id tables info st;
          match st' with
          | None => Some None
          | Some st' => join_loop k query_id tables q' st'
          end
      end
  end.

Definition ApplyJoinReordering (query_id : Z) (num_rows : nat -> Z) (predicates : list JoinPredicate)
    : option Outcome :=
  let tables := populate_all predicates [] in
  if (length tables <? 2)%nat then None else
  let sizes := map num_rows tables in
  '(forest, q) ← push_joins predicates tables sizes newForest [];
  let st := mkState (replicate (length tables) None) [] forest None in
  res ← join_loop (length q) query_id tables q st;
  match res with
  | None => Some UnsupportedJoin
  | Some st =>
      match st_final st with
      | None => Some NullPlan
      | Some g => '(_, p) ← plan_of g st; Some (PlanOut p)
      end
  end.

End WithQueue.

End Reorder.

Import Reorder.

(** ** A queue *)

Module SelectMin.

(** The first of the cheapest elements. *)
Fixpoint select_min {A} (cost : A -> Z) (x : A) (l : list A) : A * list A :=
  match l with
  | [] => (x, [])
  | y :: l' =>
      let '(m, rest) := select_min cost y l' in
      if cost x <=? cost m then (x, y :: l') else (m, x :: rest)
  end.

Lemma select_min_spec {A} (cost : A -> Z) l : forall x m rest, select_min cost x l = (m, rest) ->
  x :: l ≡ₚ m :: rest /\ Forall (fun y => cost m <= cost y) (x :: l).
Proof.
  induction l as [|y l IH]; intros x m rest; cbn [select_min].
  - intros [= <- <-]. split; [done |]. apply Forall_singleton. lia.
  - destruct (select_min cost y l) as [m' rest'] eqn:E. destruct (IH _ _ _ E) as [HP HF].
    destruct (Z.leb_spec (cost x) (cost m')) as [Hle | Hlt]; intros [= <- <-].
    + split; [done |]. apply Forall_cons. split; [lia |]. eapply Forall_impl; [exact HF |]. cbn. lia.
    + split; [rewrite HP; apply Permutation_swap |]. apply Forall_cons. split; [lia | exact HF].
Qed.

#[export, refine] Instance select_min_queue {A} (cost : A -> Z) : PriorityQueue A cost := {|
  pq_pop l := match l with [] => None | x :: l' => Some (select_min cost x l') end
|}.
Proof.
  intros [|x l]; [done |]. destruct (select_min cost x l) as [m rest] eqn:E.
  by apply (select_min_spec cost l).
Defined.

End SelectMin.

Import SelectMin.

(** ** The loop *)

Module ReorderProof.

(** The order in which the queue hands out the joins. *)
Fixpoint queue_order `{PriorityQueue JoinInfo est_size} (fuel : nat) (q : list JoinInfo) : list JoinInfo :=
  match fuel with
  | O => []
  | S k => match pq_pop q with Some (info, q') => info :: queue_order k q' | None => [] end
  end.

Definition edge_of (info : JoinInfo) : nat * nat := (left_id info, right_id info).

(** Some join of the sequence finds its tables already joined by the earlier
    ones. *)
Fixpoint closes_cycle (pairs : list (nat * nat)) (ord : list JoinInfo) : Prop :=
  match ord with
  | [] => False
  | info :: ord' => joined pairs (left_id info) (right_id info) \/ closes_cycle (edge_of info :: pairs) ord'
  end.

(** The predicates of the joins a plan holds. *)
Definition joins_of (p : JoinPlan) : list JoinPredicate := (fun op => hj_pred (op_body op)) <$> omap id (operators_ p).

Definition plan_ok (js : list JoinInfo) (p : JoinPlan) : Prop :=
  plan_dependents_ p = ∅ /\ joins_of p ≡ₚ pred <$> js.

(** *** What a join of the plan reads

    Lists of the joins taken so far have the latest one first. *)

(** [r] holds table [id] after the joins [taken]: the output of the latest join
    of the table's group, the base table if it was not joined yet. *)
Definition reads (tables : list nat) (taken : list JoinInfo) (id : nat) (r : OpResult) : Prop :=
  (exists later i before, taken = later ++ i :: before /\ joined (edge_of <$> taken) (left_id i) id /\
     (forall j, j ∈ later -> ~ joined (edge_of <$> taken) (left_id j) id) /\ r = RJoin (pred i)) \/
  ((forall j, j ∈ taken -> ~ joined (edge_of <$> taken) (left_id j) id) /\ exists t, tables !! id = Some t /\ r = RTable t).

(** The join was made for one of [taken], on what the joins before it had made. *)
Definition join_made (tables : list nat) (taken : list JoinInfo) (op : HashJoin) : Prop :=
  exists later info before l r, taken = later ++ info :: before /\ hj_pred op = pred info /\ hj_out op = RJoin (pred info) /\
    hj_inputs op = [l; r] /\ reads tables before (left_id info) l /\ reads tables before (right_id info) r.

Definition bodies (p : JoinPlan) : list HashJoin := op_body <$> omap id (operators_ p).

Definition made_ok (tables : list nat) (taken : list JoinInfo) (st : State) : Prop :=
  Forall (fun p => Forall (join_made tables taken) (bodies p)) (st_store st).

Lemma made_later tables info taken op : join_made tables taken op -> join_made tables (info :: taken) op.
Proof. intros (later & i & before & l & r & -> & H). exists (info :: later), i, before, l, r. done. Qed.

Lemma bodies_merge (lp rp : JoinPlan) : bodies (fst (Plan.merge rp lp)) = bodies lp ++ bodies rp /\ bodies (snd (Plan.merge rp lp)) = [].
Proof.
  unfold bodies. cbn. rewrite omap_app, fmap_app. split; [done |]. by induction (operators_ rp).
Qed.

(** The latest join of a group, whose members are [P]. *)
Definition latest (P : nat -> Prop) (taken js : list JoinInfo) : Prop :=
  (js = [] /\ forall j, j ∈ taken -> ~ P (left_id j)) \/
  exists js' later i before, js = js' ++ [i] /\ taken = later ++ i :: before /\ P (left_id i) /\ forall j, j ∈ later -> ~ P (left_id j).

Lemma latest_ext P Q taken js : (forall j, j ∈ taken -> P (left_id j) <-> Q (left_id j)) -> latest P taken js -> latest Q taken js.
Proof.
  intros H [[-> Hn] | (js' & later & i & before & -> & -> & Hi & Hn)]; [left | right].
  - split; [done |]. intros j Hj. rewrite <- H by done. auto.
  - exists js', later, i, before. split_and!; [done | done | apply H; [set_solver | done] |]. intros j Hj. rewrite <- H by set_solver. auto.
Qed.

Lemma latest_cons P info taken js : ~ P (left_id info) -> latest P taken js -> latest P (info :: taken) js.
Proof.
  intros Hi [[-> Hn] | (js' & later & i & before & -> & -> & H1 & Hn)]; [left | right].
  - split; [done |]. intros j [-> | Hj]%elem_of_cons; auto.
  - exists js', (info :: later), i, before. split_and!; [done | done | done |]. intros j [-> | Hj]%elem_of_cons; auto.
Qed.

(** What [input_result] has to find for table [id] of a group with the joins [js]. *)
Definition source_of (tables : list nat) (id : nat) (js : list JoinInfo) : option OpResult :=
  match last js with Some i => Some (RJoin (pred i)) | None => RTable <$> tables !! id end.

Lemma latest_reads tables taken id js r : latest (fun x => joined (edge_of <$> taken) x id) taken js -> source_of tables id js = Some r ->
  reads tables taken id r.
Proof.
  unfold source_of. intros [[-> Hn] | (js' & later & i & before & -> & Et & Hi & Hn)].
  - cbn. intros Er. right. split; [done |]. destruct (tables !! id) as [t|]; [| done]. injection Er as <-. by exists t.
  - rewrite last_snoc. intros [= <-]. left. by exists later, i, before.
Qed.

Lemma merge_plan_ok jl jr (lp rp : JoinPlan) : plan_ok jl lp -> plan_ok jr rp ->
  plan_ok (jl ++ jr) (fst (Plan.merge rp lp)).
Proof.
  intros [El Jl] [Er Jr]. split.
  - assert (forall k m, merge_links k ∅ m = m) as Hm
      by (intros; unfold merge_links; by rewrite map_to_list_empty).
    cbn [fst Plan.merge setResultColumns setOperatorResult set_dependents plan_dependents_].
    rewrite Er, El. induction (plan_size rp) as [|k IH]; [done |].
    cbn [Nat.iter nat_rect]. by rewrite Hm.
  - unfold joins_of in *. cbn. rewrite omap_app, !fmap_app. by rewrite Jl, Jr.
Qed.

Lemma add_plan_ok js info op (p : JoinPlan) : plan_ok js p -> hj_pred (op_body op) = pred info ->
  plan_ok (js ++ [info]) (snd (addOperator op p)).
Proof.
  intros [E J] Hop. split; [done |]. unfold joins_of in *. cbn. rewrite omap_app, !fmap_app, J. cbn. by rewrite Hop.
Qed.

Definition ids (n : nat) : gset nat := list_to_set (seq 0 n).

Lemma elem_of_ids n i : i ∈ ids n <-> (i < n)%nat.
Proof. unfold ids. rewrite elem_of_list_to_set, elem_of_seq. lia. Qed.

Lemma size_ids n : size (ids n) = n.
Proof. unfold ids. rewrite size_list_to_set by apply NoDup_seq. apply length_seq. Qed.

Definition group_ok (st : State) (g : nat) (js : list JoinInfo) : Prop :=
  (st_plans st !! g = Some None /\ js = []) \/
  (exists a p, st_plans st !! g = Some (Some a) /\ st_store st !! a = Some p /\ plan_ok js p /\
     result_out_ p = (fun i => RJoin (pred i)) <$> last js).

(** Table [id] is in the group with root [g]. *)
Definition in_group (f : Forest nat) (g id : nat) : Prop :=
  exists x, elements_map_ f !! id = Some x /\ root_of (nodes_ f) x g.

(** The groups with a plan are those with joins. *)
Definition settled (R : list (nat * list JoinInfo)) (st : State) : Prop :=
  forall g, (g, []) ∈ R -> st_plans st !! g = Some None.

(** [done] are the joins already taken, [R] the groups: the roots of the forest
    with the joins each one's plan holds. *)
Record jinv (n : nat) (done : list JoinInfo) (R : list (nat * list JoinInfo)) (st : State) : Prop := {
  j_uf : uf_inv (ids n) (edge_of <$> done) (st_forest st);
  j_nodes : length (nodes_ (st_forest st)) = n;
  j_plans : length (st_plans st) = n;
  j_roots : forall g, root_of (nodes_ (st_forest st)) g g <-> g ∈ R.*1;
  j_nodup : NoDup R.*1;
  j_count : (length R + length done = n)%nat;
  j_done : mjoin R.*2 ≡ₚ done;
  j_group : forall g js, (g, js) ∈ R -> group_ok st g js;
  j_distinct : forall g g' a, g ∈ R.*1 -> g' ∈ R.*1 -> st_plans st !! g = Some (Some a) ->
    st_plans st !! g' = Some (Some a) -> g = g';
  j_latest : forall g js, (g, js) ∈ R -> latest (in_group (st_forest st) g) done js
}.

Lemma jinv_forest n done R st f :
  jinv n done R st -> uf_inv (ids n) (edge_of <$> done) f -> elements_map_ f = elements_map_ (st_forest st) ->
  same_roots (nodes_ (st_forest st)) (nodes_ f) -> jinv n done R (mkState (st_plans st) (st_store st) f (st_final st)).
Proof.
  intros [] U Em [L S]. constructor; cbn; auto; [congruence | intros g; by rewrite <- S |].
  intros g js Hg. eapply latest_ext; [| by apply j_latest0]. intros j _. unfold in_group. rewrite Em. by setoid_rewrite S.
Qed.

Lemma jinv_Permutation n done R R' st : R ≡ₚ R' -> jinv n done R st -> jinv n done R' st.
Proof.
  intros HP []. constructor; auto.
  - intros g. by rewrite <- HP.
  - by rewrite <- HP.
  - by rewrite <- HP.
  - rewrite <- j_done0. by rewrite HP.
  - intros g js. rewrite <- HP. auto.
  - intros g g' a. rewrite <- HP. eauto.
  - intros g js. rewrite <- HP. auto.
Qed.

Lemma root_group n done R st x g : jinv n done R st -> root_of (nodes_ (st_forest st)) x g -> exists js, (g, js) ∈ R.
Proof.
  intros J Hr. destruct (root_of_root _ _ _ Hr) as (m & ? & ?).
  assert (g ∈ R.*1) as Hg by (apply (j_roots _ _ _ _ J); by eapply root_of_refl).
  apply list_elem_of_fmap in Hg as ([g' js] & -> & Hg). eauto.
Qed.

Lemma input_result_ok n done R q tables tbl g js st :
  jinv n done R st -> length tables = n -> (tbl < n)%nat -> (g, js) ∈ R ->
  exists r st' a p, input_result q tables tbl g st = Some (r, st') /\ jinv n done R st' /\
    st_forest st' = st_forest st /\ st_plans st' !! g = Some (Some a) /\ st_store st' !! a = Some p /\ plan_ok js p /\
    (forall g' a' p', st_plans st !! g' = Some (Some a') -> st_store st !! a' = Some p' ->
       st_plans st' !! g' = Some (Some a') /\ st_store st' !! a' = Some p') /\
    ((js = [] -> st_plans st !! g = Some None) -> r = source_of tables tbl js) /\
    (forall g', g' <> g -> st_plans st' !! g' = st_plans st !! g') /\
    (forall taken, made_ok tables taken st -> made_ok tables taken st').
Proof.
  intros J Ht Htbl Hg. unfold input_result.
  destruct (j_group _ _ _ _ J g js Hg) as [[Es ->] | (a & p & Es & Ep & Hp & Hres)];
    rewrite Es; cbn [mbind option_bind].
  2:{ rewrite Ep. cbn [mbind option_bind]. eexists _, st, a, p. split_and!; eauto; [intros Hse]. rewrite Hres.
      unfold source_of. destruct (last js) eqn:El; [done |]. apply last_None in El. by specialize (Hse El). }
  destruct (lookup_lt_is_Some_2 tables tbl) as [t Et]; [lia |]. rewrite Et. cbn [mbind option_bind].
  pose proof (lookup_lt_Some _ _ _ Es) as Hlt.
  unfold set_plan. cbn [st_plans]. rewrite decide_True by done. cbn [mbind option_bind].
  set (a := length (st_store st)).
  assert (forall g' a' p', st_plans st !! g' = Some (Some a') -> st_store st !! a' = Some p' ->
    <[g := Some a]> (st_plans st) !! g' = Some (Some a') /\ (st_store st ++ [newExecutionPlan q]) !! a' = Some p') as K.
  { intros g' a' p' E1 E2. rewrite list_lookup_insert_ne by congruence. split; [done |]. by apply lookup_app_l_Some. }
  assert (plan_ok [] (newExecutionPlan q : JoinPlan)) as Hp by done.
  eexists _, _, a, (newExecutionPlan q). split_and!; [reflexivity | | done | | | done | exact K | | |]; cbn.
  - destruct J. constructor; cbn; auto.
    + by rewrite length_insert.
    + intros g' js' Hg'. destruct (decide (g' = g)) as [-> | Hne].
      * right. exists a, (newExecutionPlan q). cbn. rewrite list_lookup_insert_eq by done.
        assert (js' = []) as -> by (destruct (j_group0 _ _ Hg') as [[_ ?] | (? & ? & ? & _)]; [done | congruence]).
        split_and!; [done | by apply list_lookup_middle | done | done].
      * destruct (j_group0 _ _ Hg') as [[E ->] | (a' & p' & E1 & E2 & ? & ?)].
        -- left. cbn. by rewrite list_lookup_insert_ne.
        -- right. exists a', p'. destruct (K _ _ _ E1 E2). done.
    + assert (forall g', g' ∈ R.*1 -> st_plans st !! g' = Some (Some a) -> False) as Hfresh.
      { intros g' Hg' E. apply list_elem_of_fmap in Hg' as ([? js'] & -> & Hg').
        destruct (j_group0 _ _ Hg') as [[? _] | (? & ? & E1 & E2 & _)]; cbn in *; [congruence |].
        apply lookup_lt_Some in E2. rewrite E in E1. injection E1 as <-. unfold a in E2. lia. }
      intros g1 g2 b H1 H2 E1 E2.
      apply list_lookup_insert_Some in E1 as [(<- & [= <-] & _) | [Hn1 E1]];
        apply list_lookup_insert_Some in E2 as [(<- & E2 & _) | [Hn2 E2]]; simplify_eq; eauto.
      * destruct (Hfresh _ H2 E2).
      * destruct (Hfresh _ H1 E1).
  - by apply list_lookup_insert_eq.
  - by apply list_lookup_middle.
  - intros _. unfold source_of. cbn. by rewrite Et.
  - intros g' Hne. by rewrite list_lookup_insert_ne.
  - intros taken HM. unfold made_ok in *. cbn. apply Forall_app. split; [done |]. by repeat constructor.
Qed.

(** The roots after two groups are merged. *)
Lemma merged_roots n done lg jl rg jr R st ns w g :
  jinv n done ((lg, jl) :: (rg, jr) :: R) st -> (w = lg \/ w = rg) -> length ns = n ->
  (forall z r, root_of (nodes_ (st_forest st)) z r -> root_of ns z (if decide (r = lg \/ r = rg) then w else r)) ->
  root_of ns g g <-> g ∈ (w :: R.*1).
Proof.
  intros J Hw L Hroots. destruct J.
  assert ((lg ∉ R.*1) /\ (rg ∉ R.*1)) as [Hl Hr] by (cbn in j_nodup0; rewrite !NoDup_cons in j_nodup0; set_solver).
  assert (forall r, r ∈ (lg :: rg :: R.*1) -> root_of ns r (if decide (r = lg \/ r = rg) then w else r)) as Hold.
  { intros r Hin. by apply Hroots, j_roots0. }
  rewrite elem_of_cons. split.
  - intros Hg. pose proof (root_of_lt _ _ _ Hg) as [Hlt _].
    destruct (root_exists _ g (u_wf _ _ _ j_uf0)) as [r Hgr]; [lia |].
    pose proof (root_of_det _ _ _ _ Hg (Hroots _ _ Hgr)) as E. destruct (root_of_root _ _ _ Hgr) as (m & Em & Pm).
    case_decide as Hd; [by left |]. right. subst r.
    assert (g ∈ ((lg, jl) :: (rg, jr) :: R).*1) as Hin by (apply j_roots0; by eapply root_of_refl).
    cbn in Hin. rewrite !elem_of_cons in Hin. intuition.
  - intros [-> | Hg].
    + assert (root_of ns w w); [| done]. specialize (Hold w). rewrite decide_True in Hold by done.
      apply Hold. set_solver.
    + specialize (Hold g). rewrite decide_False in Hold by (intros [-> | ->]; done). apply Hold. set_solver.
Qed.

(** The other groups keep their members. *)
Lemma group_kept f f' lg rg w g id : (forall z r, root_of (nodes_ f) z r -> root_of (nodes_ f') z (if decide (r = lg \/ r = rg) then w else r)) ->
  elements_map_ f' = elements_map_ f -> (exists x, elements_map_ f !! id = Some x /\ exists r, root_of (nodes_ f) x r) -> g <> w -> g <> lg -> g <> rg ->
  in_group f g id <-> in_group f' g id.
Proof.
  intros Hroots Em (x & Ex & r & Hr) Hw Hl Hrg. unfold in_group. rewrite Em. split; intros (y & Ey & Hy); exists y; (split; [done |]).
  - specialize (Hroots _ _ Hy). by rewrite decide_False in Hroots by (by intros [-> | ->]).
  - rewrite Ex in Ey. injection Ey as <-. pose proof (Hroots _ _ Hr) as Hr'. pose proof (root_of_det _ _ _ _ Hy Hr') as E.
    case_decide; [by subst | by subst].
Qed.

(** The state after an iteration. *)
Lemma merged_inv n done lg jl rg jr R st la ra w f P Q info :
  jinv n done ((lg, jl) :: (rg, jr) :: R) st ->
  st_plans st !! lg = Some (Some la) -> st_plans st !! rg = Some (Some ra) -> (la < length (st_store st))%nat ->
  (w = lg \/ w = rg) -> uf_inv (ids n) (edge_of info :: (edge_of <$> done)) f -> length (nodes_ f) = n ->
  (forall z r, root_of (nodes_ (st_forest st)) z r -> root_of (nodes_ f) z (if decide (r = lg \/ r = rg) then w else r)) ->
  plan_ok (jl ++ jr ++ [info]) P -> result_out_ P = Some (RJoin (pred info)) ->
  elements_map_ f = elements_map_ (st_forest st) -> in_group (st_forest st) lg (left_id info) -> Forall (fun i => (left_id i < n)%nat) done ->
  jinv n (info :: done) ((w, jl ++ jr ++ [info]) :: R)
    (mkState (<[w := Some la]> (<[rg := None]> (st_plans st))) (<[la := P]> (<[ra := Q]> (st_store st))) f (Some w)).
Proof.
  intros J El Er Hla Hw U L Hroots HP Hout Em Hinfo Hids. pose proof (fun g => merged_roots n done lg jl rg jr R st (nodes_ f) w g J Hw L Hroots) as Hm.
  destruct J. cbn in j_nodup0. rewrite !NoDup_cons in j_nodup0. destruct j_nodup0 as (Nl & Nr & ND).
  assert (w ∉ R.*1) as Nw by (destruct Hw as [-> | ->]; set_solver).
  pose proof (lookup_lt_Some _ _ _ El) as Hll. pose proof (lookup_lt_Some _ _ _ Er) as Hrl.
  assert (forall g, g ∈ R.*1 -> <[w := Some la]> (<[rg := None]> (st_plans st)) !! g = st_plans st !! g) as Hsame.
  { intros g Hg. rewrite !list_lookup_insert_ne; [done | |]; intros ->; set_solver. }
  assert (forall g a, g ∈ R.*1 -> st_plans st !! g = Some (Some a) -> a <> la /\ a <> ra) as Hna.
  { intros g a Hg E. split; intros ->.
    - assert (g = lg) as -> by (eapply (j_distinct0 g lg); eauto; cbn; set_solver). set_solver.
    - assert (g = rg) as -> by (eapply (j_distinct0 g rg); eauto; cbn; set_solver). set_solver. }
  assert (<[w := Some la]> (<[rg := None]> (st_plans st)) !! w = Some (Some la)) as Ew.
  { apply list_lookup_insert_eq. rewrite length_insert. destruct Hw; subst; done. }
  constructor; cbn [st_plans st_store st_forest st_final]; auto.
  - by rewrite !length_insert.
  - cbn. rewrite NoDup_cons. done.
  - cbn in *. lia.
  - cbn in *. rewrite <- j_done0. rewrite <- !(assoc_L (++)). cbn. solve_Permutation.
  - intros g js [[= -> ->] | Hg]%elem_of_cons.
    + right. exists la, P. cbn. split_and!; [done | | done |]; [apply list_lookup_insert_eq; by rewrite length_insert |].
      rewrite Hout, (assoc_L (++)), last_snoc. done.
    + assert (g ∈ R.*1) as Hg1 by (by apply (list_elem_of_fmap_2 fst) in Hg).
      unfold group_ok. cbn. rewrite (Hsame g Hg1).
      destruct (j_group0 g js) as [? | (a & p & E1 & E2 & ? & ?)]; [set_solver | by left |].
      right. exists a, p. destruct (Hna g a Hg1 E1). by rewrite !list_lookup_insert_ne by done.
  - intros g g' a Hg Hg' E E'. cbn in Hg, Hg'. rewrite elem_of_cons in Hg, Hg'.
    destruct Hg as [-> | Hg], Hg' as [-> | Hg']; [done | | |].
    + rewrite Ew in E. rewrite Hsame in E' by done. simplify_eq. by destruct (Hna _ _ Hg' E').
    + rewrite Ew in E'. rewrite Hsame in E by done. simplify_eq. by destruct (Hna _ _ Hg E).
    + rewrite Hsame in E, E' by done. eapply j_distinct0; eauto; cbn; set_solver.
  - assert (forall g id, g ∈ R.*1 -> (id < n)%nat -> in_group (st_forest st) g id <-> in_group f g id) as Hgrp.
    { intros g id Hg Hid. eapply group_kept; [exact Hroots | exact Em | | | |].
      - destruct (proj2 (u_dom _ _ _ j_uf0 id)) as [x Ex]; [by apply elem_of_ids |]. exists x. split; [done |].
        apply (root_exists _ x (u_wf _ _ _ j_uf0)). by apply (u_range _ _ _ j_uf0 id).
      - destruct Hw; set_solver.
      - intros ->. set_solver.
      - intros ->. set_solver. }
    intros g js [[= -> ->] | Hg]%elem_of_cons.
    + right. exists (jl ++ jr), [], info, done. split_and!; [by rewrite (assoc_L (++)) | done | | by intros ? ?%not_elem_of_nil].
      destruct Hinfo as (x & Ex & Hx). exists x. rewrite Em. split; [done |]. specialize (Hroots _ _ Hx). by rewrite decide_True in Hroots by auto.
    + assert (g ∈ R.*1) as Hg1 by (by apply (list_elem_of_fmap_2 fst) in Hg). apply latest_cons.
      * destruct Hinfo as (x & Ex & Hx). intros (y & Ey & Hy). rewrite Em, Ex in Ey. injection Ey as <-. specialize (Hroots _ _ Hx).
        rewrite decide_True in Hroots by auto. rewrite (root_of_det _ _ _ _ Hy Hroots) in Hg1. done.
      * apply (latest_ext (in_group (st_forest st) g)); [| apply j_latest0; set_solver]. intros j Hj. rewrite Forall_forall in Hids. apply Hgrp; [done | by apply Hids].
Qed.

(** The final plan is the plan of the group of the latest join. *)
Definition has_final (done : list JoinInfo) (R : list (nat * list JoinInfo)) (st : State) : Prop :=
  exists g js a, st_final st = Some g /\ (g, js) ∈ R /\ st_plans st !! g = Some (Some a) /\ last js = head done.

(** Every node is the node of a table. *)
Definition onto (f : Forest nat) : Prop := forall x, (x < length (nodes_ f))%nat -> exists e, elements_map_ f !! e = Some x.

(** What holds between the iterations. *)
Record loop_inv (tables : list nat) (n : nat) (done : list JoinInfo) (R : list (nat * list JoinInfo)) (st : State) : Prop := {
  l_inv : jinv n done R st;
  l_settled : settled R st;
  l_made : made_ok tables done st;
  l_ids : Forall (fun i => (left_id i < n)%nat) done;
  l_onto : onto (st_forest st)
}.

Lemma two_groups n done R st lg jl rg jr : jinv n done R st -> (lg, jl) ∈ R -> (rg, jr) ∈ R -> lg <> rg ->
  exists R', R ≡ₚ (lg, jl) :: (rg, jr) :: R'.
Proof.
  intros J Hl Hr Hne. apply elem_of_Permutation in Hl as [R1 HP]. rewrite HP in Hr.
  apply elem_of_cons in Hr as [? | Hr]; [congruence |]. apply elem_of_Permutation in Hr as [R2 HP2].
  exists R2. by rewrite HP, HP2.
Qed.

Lemma plan_of_eq st g a p : st_plans st !! g = Some (Some a) -> st_store st !! a = Some p ->
  plan_of g st = Some (a, p).
Proof. intros E1 E2. unfold plan_of. rewrite E1. cbn. by rewrite E2. Qed.

Lemma set_plan_eq st g v : (g < length (st_plans st))%nat ->
  set_plan g v st = Some (mkState (<[g := v]> (st_plans st)) (st_store st) (st_forest st) (st_final st)).
Proof. intros Hg. unfold set_plan. by rewrite decide_True. Qed.

(** What the two inputs of a join are, seen from the groups. *)
Lemma group_reads tables n done f g id x js r : uf_inv (ids n) (edge_of <$> done) f -> Forall (fun i => (left_id i < n)%nat) done ->
  latest (in_group f g) done js -> elements_map_ f !! id = Some x -> root_of (nodes_ f) x g -> source_of tables id js = Some r ->
  reads tables done id r.
Proof.
  intros U Hids HL Ex Hx. apply latest_reads. eapply latest_ext; [| exact HL]. intros j Hj. rewrite Forall_forall in Hids.
  destruct (proj2 (u_dom _ _ _ U (left_id j))) as [y Ey]; [apply elem_of_ids; by apply Hids |].
  destruct (root_exists _ y (u_wf _ _ _ U)) as [s Hs]; [by eapply (u_range _ _ _ U) |].
  rewrite (conn_roots _ _ _ _ _ _ _ _ _ U Ey Ex Hs Hx). split; [| intros ->; by exists y].
  intros (y' & Ey' & Hy). rewrite Ey in Ey'. injection Ey' as <-. by apply (root_of_det _ _ _ _ Hs Hy).
Qed.

Lemma source_some tables id js n : length tables = n -> (id < n)%nat -> exists r, source_of tables id js = Some r.
Proof.
  intros L Hid. unfold source_of. destruct (last js); [eauto |]. destruct (lookup_lt_is_Some_2 tables id) as [t ->]; [lia | by eexists].
Qed.

(** The plans after an iteration. *)
Lemma made_step tables done info st la ra lp rp op : made_ok tables done st -> st_store st !! la = Some lp -> st_store st !! ra = Some rp ->
  join_made tables (info :: done) (op_body op) ->
  forall P Q, bodies P = bodies lp ++ bodies (snd (addOperator op rp)) -> bodies Q = [] ->
  Forall (fun p => Forall (join_made tables (info :: done)) (bodies p)) (<[la := P]> (<[ra := Q]> (<[ra := snd (addOperator op rp)]> (st_store st)))).
Proof.
  intros HM El Er Hop P Q EP EQ.
  assert (Forall (fun p => Forall (join_made tables (info :: done)) (bodies p)) (st_store st)) as HM'.
  { eapply Forall_impl; [exact HM |]. intros p Hp. eapply Forall_impl; [exact Hp |]. intros b. apply made_later. }
  assert (Forall (join_made tables (info :: done)) (bodies (snd (addOperator op rp)))) as Hadd.
  { unfold bodies. cbn. rewrite omap_app, fmap_app. apply Forall_app. split; [exact (Forall_lookup_1 _ _ _ _ HM' Er) |]. by repeat constructor. }
  apply Forall_insert; [apply Forall_insert; [by apply Forall_insert |] |]; cbv beta.
  - by rewrite EQ.
  - rewrite EP. apply Forall_app. split; [exact (Forall_lookup_1 _ _ _ _ HM' El) | done].
Qed.

Lemma join_step_ok n done R q tables info st :
  loop_inv tables n done R st -> length tables = n -> (left_id info < n)%nat -> (right_id info < n)%nat ->
  (joined (edge_of <$> done) (left_id info) (right_id info) /\ join_step q tables info st = Some None) \/
  (~ joined (edge_of <$> done) (left_id info) (right_id info) /\ exists R' st',
     join_step q tables info st = Some (Some st') /\ loop_inv tables n (info :: done) R' st' /\ has_final (info :: done) R' st').
Proof.
  intros [J HSe HMa Hids Hon] Ht Hl Hr. unfold join_step.
  destruct (find_ok _ _ (st_forest st) (left_id info) (j_uf _ _ _ _ J)) as (x & lg & f1 & E1 & I1 & Em1 & Ex & R1 & S1);
    [by apply elem_of_ids |].
  destruct (find_ok _ _ f1 (right_id info) I1) as (y & rg & f2 & E2 & I2 & Em2 & Ey & R2 & S2); [by apply elem_of_ids |].
  rewrite E1. cbn [mbind option_bind]. rewrite E2. cbn [mbind option_bind].
  pose proof (same_roots_trans _ _ _ S1 S2) as S12. rewrite <- Em1, <- Em2 in Ex. rewrite <- Em2 in Ey.
  apply S12 in R1. apply S2 in R2.
  pose proof (conn_roots _ _ _ _ _ _ _ _ _ I2 Ex Ey R1 R2) as Hj.
  case_bool_decide as Hlr; [left; split; [by apply Hj | done] | right].
  split; [by rewrite Hj |].
  pose proof (jinv_forest _ _ _ _ _ J I2 ltac:(congruence) S12) as J2. pose proof (j_nodes _ _ _ _ J2) as Hn2. cbn in Hn2.
  assert (elements_map_ f2 = elements_map_ (st_forest st)) as Em2' by congruence. clear dependent f1.
  destruct (root_group _ _ _ _ _ _ J2 R1) as [jl Hjl]. destruct (root_group _ _ _ _ _ _ J2 R2) as [jr Hjr].
  destruct (two_groups _ _ _ _ _ _ _ _ J2 Hjl Hjr Hlr) as [R0 HR].
  destruct (source_some tables (left_id info) jl n Ht Hl) as [lsrc Els]. destruct (source_some tables (right_id info) jr n Ht Hr) as [rsrc Ers].
  pose proof (group_reads _ _ _ _ _ _ _ _ _ I2 Hids (j_latest _ _ _ _ J2 lg jl Hjl) Ex R1 Els) as Rdl.
  pose proof (group_reads _ _ _ _ _ _ _ _ _ I2 Hids (j_latest _ _ _ _ J2 rg jr Hjr) Ey R2 Ers) as Rdr.
  assert (jl = [] -> st_plans st !! lg = Some None) as Sl by (intros ->; by apply HSe).
  assert (jr = [] -> st_plans st !! rg = Some None) as Sr by (intros ->; by apply HSe). clear Hjl Hjr.
  apply (jinv_Permutation _ _ _ _ _ HR) in J2. rename J into Jst.
  destruct (input_result_ok n done _ q tables (left_id info) lg jl _ J2 Ht Hl) as
    (lin & st3 & la & lp & -> & J3 & F3 & Hla & Hlp & Plp & K3 & Lin & Same3 & Made3); [by left |]. cbn [mbind option_bind].
  destruct (input_result_ok n done _ q tables (right_id info) rg jr _ J3 Ht Hr) as
    (rin & st4 & ra & rp & -> & J4 & F4 & Hra & Hrp & Prp & K4 & Rin & Same4 & Made4); [by right; left |]. cbn [mbind option_bind].
  rewrite (Lin Sl), Els. rewrite Rin, Ers by (rewrite Same3 by done; exact Sr). cbn [option_list app]. clear Lin Rin.
  apply Made3, Made4 in HMa. cbn [st_plans] in Same3.
  destruct (K4 _ _ _ Hla Hlp) as [Hla4 Hlp4]. clear K3 K4 Hla Hlp J2 J3. cbn in F3.
  assert (la <> ra) as Hlra.
  { intros <-. apply Hlr. eapply (j_distinct _ _ _ _ J4 lg rg); eauto; cbn; set_solver. }
  pose proof (lookup_lt_Some _ _ _ Hra) as Lrg. pose proof (lookup_lt_Some _ _ _ Hlp4) as Lla.
  pose proof (lookup_lt_Some _ _ _ Hrp) as Lra.
  rewrite (plan_of_eq _ _ _ _ Hra Hrp). cbn [mbind option_bind].
  set (op := mkOperator _ _ _). pose proof (add_plan_ok jr info op rp Prp eq_refl) as Padd.
  assert (join_made tables (info :: done) (op_body op)) as Hmade by (exists [], info, done, lsrc, rsrc; by split_and!).
  pose proof (made_step tables done info st4 la ra lp rp op HMa Hlp4 Hrp Hmade) as HMst.
  destruct (addOperator op rp) as [k rp']. cbn [snd] in *.
  rewrite (plan_of_eq (set_stored ra rp' st4) lg la lp); [| done | cbn; by rewrite list_lookup_insert_ne].
  cbn [mbind option_bind].
  rewrite (plan_of_eq (set_stored ra rp' st4) rg ra rp'); [| done | cbn; by apply list_lookup_insert_eq].
  cbn [mbind option_bind].
  pose proof (merge_plan_ok _ _ _ _ Plp Padd) as Pm. pose proof (bodies_merge lp rp') as [Bl Br].
  destruct (Plan.merge rp' lp) as [lp6 rp6]. cbn [fst snd] in Pm, Bl, Br.
  specialize (HMst (setOperatorResult (Some (RJoin (pred info))) lp6) rp6 Bl Br).
  rewrite set_plan_eq by done. cbn [mbind option_bind st_forest st_plans st_store st_final set_stored].
  rewrite F4, F3.
  destruct (merge_ok _ _ f2 (left_id info) (right_id info) I2) as (f3 & E3 & I3); [by apply elem_of_ids | by apply elem_of_ids |].
  destruct (merge_roots _ _ _ _ _ _ _ _ _ _ I2 Ex Ey R1 R2 Hlr E3) as (w & Hw & Em3 & Hroots).
  destruct (find_ok _ _ f3 (left_id info) I3) as (x4 & w4 & f4 & E4 & I4 & Em4 & Ex4 & R4 & S4); [by apply elem_of_ids |].
  assert (w4 = w) as ->.
  { rewrite Em3, Ex in Ex4. injection Ex4 as <-. specialize (Hroots _ _ R1). rewrite decide_True in Hroots by auto.
    eapply root_of_det; eauto. }
  rewrite E3. cbn [mbind option_bind]. rewrite E4. cbn [mbind option_bind st_plans].
  rewrite list_lookup_insert_ne by done. rewrite Hla4. cbn [mbind option_bind].
  pose proof (lookup_lt_Some _ _ _ Hla4) as Llg.
  rewrite set_plan_eq by (cbn; rewrite length_insert; destruct Hw; subst; done).
  cbn [mbind option_bind st_plans st_store st_forest st_final].
  eexists _, _. split_and!; [reflexivity | |].
  - constructor; cbn [st_store].
    + rewrite list_insert_insert_eq. eapply (merged_inv n done lg jl rg jr R0 st4 la ra w); eauto.
      * rewrite <- (j_nodes _ _ _ _ J4), F4, F3. apply find_length in E4. apply merge_length in E3. congruence.
      * rewrite F4, F3. intros z r Hz. by apply S4, Hroots.
      * rewrite F4, F3. congruence.
      * rewrite F4, F3. by exists x.
    + intros g [[= _ E] | Hg]%elem_of_cons; [by destruct jl, jr |]. cbn.
      pose proof (j_nodup _ _ _ _ J4) as ND. cbn in ND. rewrite !NoDup_cons in ND.
      assert (g ∈ R0.*1) as Hg1 by (by apply (list_elem_of_fmap_2 fst) in Hg).
      rewrite !list_lookup_insert_ne by (intros ->; destruct Hw; subst; set_solver).
      rewrite Same4, Same3 by (intros ->; set_solver). apply HSe. rewrite HR. set_solver.
    + exact HMst.
    + by constructor.
    + cbn [st_forest]. assert (elements_map_ f4 = elements_map_ (st_forest st)) as Ee by congruence. intros z Hz. rewrite Ee. apply Hon.
      rewrite (j_nodes _ _ _ _ Jst). apply find_length in E4. apply merge_length in E3. rewrite E4, E3, Hn2 in Hz. done.
  - exists w, (jl ++ jr ++ [info]), la. cbn. split_and!; [done | by left | |].
    + apply list_lookup_insert_eq. rewrite length_insert. destruct Hw; subst; done.
    + by rewrite (assoc_L (++)), last_snoc.
Qed.

Section Queue.
Context {PQ : PriorityQueue JoinInfo est_size}.

Definition in_range (n : nat) (info : JoinInfo) : Prop := (left_id info < n)%nat /\ (right_id info < n)%nat.

Lemma queue_order_ok fuel : forall q, length q = fuel ->
  queue_order fuel q ≡ₚ q /\ StronglySorted (fun i j => est_size i <= est_size j) (queue_order fuel q).
Proof.
  induction fuel as [|k IH]; intros q L; cbn [queue_order].
  { apply nil_length_inv in L as ->. by split; [| constructor]. }
  pose proof (pq_pop_spec q) as HS. destruct (pq_pop q) as [[info q']|]; [| by subst].
  destruct HS as [HP HF]. destruct (IH q') as [HP' HS'].
  { apply Permutation_length in HP. cbn in HP. lia. }
  split; [by rewrite HP', HP |]. constructor; [done |].
  rewrite HP in HF. apply Forall_cons in HF as [_ HF]. by rewrite HP'.
Qed.

(** The whole loop, from any state it can reach. *)
Lemma join_loop_ok n qid tables fuel : forall q done R st,
  loop_inv tables n done R st -> length tables = n -> length q = fuel -> Forall (in_range n) q ->
  (done <> [] -> has_final done R st) ->
  (closes_cycle (edge_of <$> done) (queue_order fuel q) /\ join_loop fuel qid tables q st = Some None) \/
  (~ closes_cycle (edge_of <$> done) (queue_order fuel q) /\ exists R' st',
     join_loop fuel qid tables q st = Some (Some st') /\ loop_inv tables n (rev (queue_order fuel q) ++ done) R' st' /\
     (rev (queue_order fuel q) ++ done <> [] -> has_final (rev (queue_order fuel q) ++ done) R' st')).
Proof.
  induction fuel as [|k IH]; intros q done R st J Ht L HF Hfin; pose proof (pq_pop_spec q) as HS;
    cbn [join_loop queue_order closes_cycle].
  - apply nil_length_inv in L as ->. destruct (pq_pop []) as [[i q']|].
    + destruct HS as [HP _]. by apply Permutation_nil_cons in HP.
    + right. split; [tauto |]. by exists R, st.
  - destruct (pq_pop q) as [[info q']|]; [| by subst]. destruct HS as [HP _].
    rewrite HP in HF. apply Forall_cons in HF as [[Hl Hr] HF].
    assert (length q' = k) as L' by (apply Permutation_length in HP; cbn in HP; lia).
    destruct (join_step_ok n done R qid tables info st J Ht Hl Hr) as [[Hj E] | (Hj & R1 & st1 & E & J1 & F1)];
      rewrite E; cbn [mbind option_bind closes_cycle].
    { left. by split; [left |]. }
    destruct (IH q' (info :: done) R1 st1 J1 Ht L' HF) as [[Hc E'] | (Hc & R' & st' & E' & J' & F')]; [done | |].
    + left. by split; [right |].
    + right. split; [by intros [? | ?] |]. exists R', st'. cbn [rev]. by rewrite <- (assoc_L (++)).
Qed.

End Queue.

(** ** The set-up *)

Lemma populate_NoDup t tables : NoDup tables -> NoDup (populate t tables).
Proof.
  intros. unfold populate. case_decide; [done |]. apply NoDup_app. split_and!; [done | set_solver | apply NoDup_singleton].
Qed.

Lemma elem_of_populate t tables u : u ∈ populate t tables <-> u = t \/ u ∈ tables.
Proof. unfold populate. case_decide; [| set_solver]. split; [by right | by intros [-> |]]. Qed.

Lemma populate_all_NoDup preds : forall tables, NoDup tables -> NoDup (populate_all preds tables).
Proof. induction preds; intros tables ND; cbn; [done |]. auto using populate_NoDup. Qed.

Lemma elem_of_populate_all preds : forall tables u,
  u ∈ populate_all preds tables <-> u ∈ tables \/ exists jp, jp ∈ preds /\ (u = left_table jp \/ u = right_table jp).
Proof.
  induction preds as [|jp preds IH]; intros tables u; cbn; [set_solver |].
  rewrite IH, !elem_of_populate. set_solver.
Qed.

Lemma table_id_ok tables t : NoDup tables -> t ∈ tables ->
  exists i, table_id tables t = Some i /\ tables !! i = Some t.
Proof.
  intros ND Hin. apply list_elem_of_lookup in Hin as [i Ei]. unfold table_id.
  assert (list_find (eq t) tables = Some (i, t)) as ->; [| by exists i].
  apply list_find_Some. split_and!; [done | done |]. intros j y Ej Hj <-.
  assert (i = j) by (eapply NoDup_lookup; eauto). lia.
Qed.

(** The forest of [push_joins]: every node is its own root. *)
Record fresh_inv (M : gset nat) (f : Forest nat) : Prop := {
  fr_uf : uf_inv M [] f;
  fr_self : forall x m, nodes_ f !! x = Some m -> parent m = x;
  fr_size : length (nodes_ f) = size M;
  fr_onto : onto f
}.

Lemma makeSet_fresh M f e : fresh_inv M f -> fresh_inv ({[e]} ∪ M) (makeSet e f).
Proof.
  intros [U S L O]. pose proof (makeSet_ok _ _ _ e U) as U'.
  assert (forall (M : gset nat) (f : Forest nat), uf_inv M [] f -> size (elements_map_ f) = size M) as Hsz.
  { intros M' f' U0. rewrite <- size_dom. f_equal. apply set_eq. intros i. rewrite elem_of_dom. apply U0. }
  constructor; [done | | |].
  - unfold makeSet. destruct (negb _); [| done]. cbn. intros x m Ex.
    apply lookup_app_Some in Ex as [Ex | [Hle Ex]]; [by apply S |].
    apply list_lookup_singleton_Some in Ex as [Hx <-]. cbn. lia.
  - rewrite <- (Hsz _ _ U'). apply makeSet_length. rewrite (Hsz _ _ U). done.
  - unfold makeSet. destruct (negb (hasElement e f)) eqn:Ee; [| exact O]. apply negb_true_iff, bool_decide_eq_false in Ee. intros x Hx. cbn in Hx |- *. rewrite length_app in Hx. cbn in Hx. destruct (decide (x = length (nodes_ f))) as [-> | Hne].
    + exists e. by rewrite lookup_insert_eq.
    + destruct (O x) as [e' E']; [lia |]. exists e'. rewrite lookup_insert_ne; [done |]. intros ->. apply Ee. eauto.
Qed.

(** What [push_joins] queues for a predicate. *)
Record info_of (tables : list nat) (num_rows : nat -> Z) (info : JoinInfo) : Prop := {
  i_left : tables !! left_id info = Some (left_table (pred info));
  i_right : tables !! right_id info = Some (right_table (pred info));
  i_cost : est_size info = to_u64 (num_rows (left_table (pred info)) * num_rows (right_table (pred info)))
}.

Definition info_ids (infos : list JoinInfo) : gset nat := list_to_set ((left_id <$> infos) ++ (right_id <$> infos)).

Lemma push_joins_ok preds tables num_rows : forall M f q,
  NoDup tables -> Forall (fun jp => left_table jp ∈ tables /\ right_table jp ∈ tables) preds -> fresh_inv M f ->
  exists f' infos, push_joins preds tables (num_rows <$> tables) f q = Some (f', q ++ infos) /\
    fresh_inv (info_ids infos ∪ M) f' /\ pred <$> infos = preds /\ Forall (info_of tables num_rows) infos.
Proof.
  induction preds as [|jp preds IH]; intros M f q ND HF HI; cbn [push_joins].
  { exists f, []. rewrite app_nil_r. split_and!; [done | | done | constructor].
    assert (info_ids [] ∪ M = M) as -> by set_solver. done. }
  apply Forall_cons in HF as [[Hl Hr] HF].
  destruct (table_id_ok _ _ ND Hl) as (l & -> & El). destruct (table_id_ok _ _ ND Hr) as (r & -> & Er).
  unfold compute_cost. cbn [mbind option_bind]. rewrite !list_lookup_fmap, El, Er. cbn [mbind option_bind fmap option_fmap option_map].
  set (info := mkJoinInfo l r jp _).
  destruct (IH _ _ (q ++ [info]) ND HF (makeSet_fresh _ _ r (makeSet_fresh _ _ l HI))) as (f' & infos & E & HI' & Hp & Hi).
  exists f', (info :: infos). rewrite E, <- (assoc_L (++)). split_and!; [done | | cbn; by f_equal |].
  - assert (info_ids (info :: infos) ∪ M = info_ids infos ∪ ({[r]} ∪ ({[l]} ∪ M))) as ->; [| done].
    unfold info_ids. apply set_eq. intros i. cbn. set_solver.
  - by constructor.
Qed.

(** The state the greedy loop starts in. *)
Lemma start_inv tables n f : fresh_inv (ids n) f ->
  loop_inv tables n [] ((fun g => (g, [])) <$> seq 0 n) (mkState (replicate n None) [] f None).
Proof.
  intros [U S L O]. rewrite size_ids in L.
  assert (forall g js, (g, js) ∈ ((fun g => (g, [] : list JoinInfo)) <$> seq 0 n) -> js = [] /\ replicate n (@None nat) !! g = Some None) as H0.
  { intros g js (g' & [= -> ->] & Hg)%list_elem_of_fmap. split; [done |]. apply elem_of_seq in Hg. apply lookup_replicate. split; [done | lia]. }
  constructor; [| intros g Hg; by apply H0 in Hg as [_ Hg] | constructor | constructor | exact O].
  assert (forall h : list nat, ((fun g => (g, [] : list JoinInfo)) <$> h).*1 = h) as H1
    by (intros h; rewrite <- list_fmap_compose; apply list_fmap_id).
  constructor; cbn [st_plans st_store st_forest st_final]; rewrite ?H1; auto.
  - apply length_replicate.
  - intros g. rewrite elem_of_seq. split.
    + intros Hg%root_of_lt. lia.
    + intros Hg. destruct (lookup_lt_is_Some_2 (nodes_ f) g) as [m Em]; [lia |].
      eapply root_of_refl; eauto.
  - apply NoDup_seq.
  - rewrite length_fmap, length_seq. cbn. lia.
  - clear. induction (seq 0 n); by cbn.
  - intros g js [-> Hg]%H0. left. by split.
  - intros g g' a _ _ Hg. apply lookup_replicate in Hg as [? _]. done.
  - intros g js [-> Hg]%H0. left. split; [done |]. by intros j ?%not_elem_of_nil.
Qed.

Lemma tables_covered preds infos num_rows :
  let tables := populate_all preds [] in
  pred <$> infos = preds -> Forall (info_of tables num_rows) infos -> info_ids infos = ids (length tables).
Proof.
  intros tables Hp HF. pose proof (populate_all_NoDup preds [] ltac:(constructor)) as ND. fold tables in ND.
  apply set_eq. intros i. unfold info_ids. rewrite elem_of_ids, elem_of_list_to_set, elem_of_app, !list_elem_of_fmap.
  split.
  - intros [(info & -> & Hin) | (info & -> & Hin)]; rewrite Forall_forall in HF; destruct (HF _ Hin) as [El Er _];
      by eapply lookup_lt_Some.
  - intros Hi. destruct (lookup_lt_is_Some_2 _ _ Hi) as [t Et].
    pose proof (list_elem_of_lookup_2 _ _ _ Et) as Ht. apply elem_of_populate_all in Ht as [Ht | (jp & Hjp & Ht)]; [set_solver |].
    rewrite <- Hp in Hjp. apply list_elem_of_fmap in Hjp as (info & -> & Hin).
    rewrite Forall_forall in HF. destruct (HF _ Hin) as [El Er _].
    destruct Ht as [-> | ->]; [left | right]; exists info; (split; [by eapply NoDup_lookup | done]).
Qed.

Section Apply.
Context {PQ : PriorityQueue JoinInfo est_size}.

(** What the function does after the loop. *)
Definition finish (res : option State) : option Outcome :=
  match res with
  | None => Some UnsupportedJoin
  | Some st => match st_final st with None => Some NullPlan | Some g => '(_, p) ← plan_of g st; Some (PlanOut p) end
  end.

Lemma reorder_setup query_id num_rows predicates :
  let tables := populate_all predicates [] in let n := length tables in
  (2 <= n)%nat ->
  exists f infos, fresh_inv (ids n) f /\ pred <$> infos = predicates /\ infos <> [] /\
    Forall (info_of tables num_rows) infos /\ Forall (in_range n) infos /\
    ApplyJoinReordering query_id num_rows predicates =
      join_loop (length infos) query_id tables infos (mkState (replicate n None) [] f None) ≫= finish.
Proof.
  intros tables n H2.
  pose proof (populate_all_NoDup predicates [] ltac:(constructor)) as ND. fold tables in ND.
  destruct (push_joins_ok predicates tables num_rows ∅ newForest [] ND) as (f & infos & E & HI & Hp & HF).
  { apply Forall_forall. intros jp Hjp. split; apply elem_of_populate_all; right; eauto. }
  { constructor; [apply new_inv | done | done | intros x Hx; cbn in Hx; lia]. }
  rewrite (tables_covered predicates infos num_rows Hp HF) in HI. fold tables n in HI.
  assert (ids n ∪ ∅ = ids n) as HU by set_solver. rewrite HU in HI.
  exists f, infos. split_and!; try done.
  - intros ->. cbn in Hp. unfold n, tables in H2. rewrite <- Hp in H2. cbn in H2. lia.
  - eapply Forall_impl; [exact HF |]. intros info [El Er _]. split; by eapply lookup_lt_Some.
  - unfold ApplyJoinReordering. fold tables n. destruct (Nat.ltb_spec n 2); [lia |].
    change (map num_rows tables) with (num_rows <$> tables). by rewrite E.
Qed.

(** When every table is in some join, every group has joins. *)
Lemma nonempty_group n done R st g js : jinv n done R st -> onto (st_forest st) ->
  (forall id, (id < n)%nat -> exists i, i ∈ done /\ (id = left_id i \/ id = right_id i)) -> (g, js) ∈ R -> js <> [].
Proof.
  intros J HO Hc Hg Hjs. destruct (j_latest _ _ _ _ J g js Hg) as [[_ Hn] | (js' & ? & ? & ? & E & _)]; [| subst; by destruct js'].
  assert (root_of (nodes_ (st_forest st)) g g) as Hr by (apply (j_roots _ _ _ _ J); by apply (list_elem_of_fmap_2 fst) in Hg).
  pose proof (root_of_lt _ _ _ Hr) as [Hlt _]. destruct (HO g Hlt) as [e Ee]. pose proof (j_uf _ _ _ _ J) as U.
  assert (e ∈ ids n) as He by (apply (u_dom _ _ _ U); eauto). destruct (Hc e) as (i & Hi & Hid); [by apply elem_of_ids |].
  apply (Hn i Hi). assert (edge_of i ∈ edge_of <$> done) as Hp by (by apply list_elem_of_fmap_2). pose proof (u_pairs _ _ _ U _ _ Hp) as [Hl _].
  destruct (proj2 (u_dom _ _ _ U (left_id i)) Hl) as [x Ex]. destruct (root_exists _ x (u_wf _ _ _ U)) as [r Hx]; [by eapply (u_range _ _ _ U) |].
  exists x. split; [done |]. assert (r = g) as <-; [| done]. apply (conn_roots _ _ _ _ _ _ _ _ _ U Ex Ee Hx Hr).
  destruct Hid as [-> | ->]; [by apply rtc_refl | apply rtc_once; by left].
Qed.

(** The plan the loop ends with. *)
Lemma finish_ok tables n done R st infos :
  loop_inv tables n done R st -> has_final done R st -> done ≡ₚ infos ->
  exists p, finish (Some st) = Some (PlanOut p) /\ plan_dependents_ p = ∅ /\ joins_of p ⊆+ pred <$> infos /\
    result_out_ p = (fun i => RJoin (pred i)) <$> head done /\ Forall (join_made tables done) (bodies p) /\
    (length infos + 1 = n -> joins_of p ≡ₚ pred <$> infos)%nat /\
    ((forall id, id < n -> exists i, i ∈ infos /\ (id = left_id i \/ id = right_id i)) -> length infos + 1 <> n -> length (joins_of p) < length infos)%nat.
Proof.
  intros [J _ HM _ HO] (g & js & a & Hg & Hin & Ha & Hlast) HP.
  destruct (j_group _ _ _ _ J g js Hin) as [[? _] | (a' & p & Ea & Ep & [HD HJ] & Hres)]; [congruence |].
  exists p. cbn [finish]. rewrite Hg, (plan_of_eq _ _ _ _ Ea Ep). split_and!; [done | done | | by rewrite Hres, Hlast | exact (Forall_lookup_1 _ _ _ _ HM Ep) | |].
  - rewrite HJ. apply fmap_submseteq. rewrite <- HP, <- (j_done _ _ _ _ J).
    apply elem_of_Permutation in Hin as [R' ->]. cbn. by apply submseteq_inserts_r.
  - intros HL. pose proof (j_count _ _ _ _ J) as HC. rewrite (Permutation_length HP) in HC.
    destruct R as [|[g' js'] [|? ?]]; cbn in HC; [lia | | lia].
    apply list_elem_of_singleton in Hin. simplify_eq.
    pose proof (j_done _ _ _ _ J) as HDn. cbn in HDn. rewrite app_nil_r in HDn. by rewrite HJ, HDn, HP.
  - intros Hc HL. pose proof (j_count _ _ _ _ J) as HC. rewrite (Permutation_length HP) in HC. pose proof (j_done _ _ _ _ J) as HDn.
    apply elem_of_Permutation in Hin as [R' HR]. assert (exists g' js', (g', js') ∈ R') as (g' & js' & Hg').
    { destruct R' as [|[g' js'] R']; [apply Permutation_length in HR; cbn in HR; lia | exists g', js'; left]. }
    assert (js' <> []) as Hne.
    { eapply (nonempty_group n done R st g'); [exact J | exact HO | | by rewrite HR; right]. intros id Hid. destruct (Hc id Hid) as (i & Hi & H).
      exists i. by rewrite HP. }
    rewrite <- (Permutation_length HP), <- HDn, HR. rewrite (Permutation_length HJ), length_fmap. cbn. rewrite length_app.
    apply elem_of_Permutation in Hg' as [R'' ->]. cbn. rewrite length_app. destruct js'; [done |]. cbn. lia.
Qed.

End Apply.

End ReorderProof.

Import ReorderProof.

(** C23: the joins are taken from the cheapest to the dearest (estimated size: the
    product of the row counts), in an order [ord]: every join of the plan reads,
    on each side, the output of the latest join before it in this order that
    joined the side's table, or the base table if there is none, and the result
    of the plan is the output of the last join.  With two tables or more the
    function never reads outside its vectors; it throws exactly when some join
    finds its tables already joined; otherwise it returns a plan whose joins are
    among the predicates, which holds each predicate exactly once when they form
    a tree, and which has no link between its joins. *)
Theorem join_reordering_correct {PQ : PriorityQueue JoinInfo est_size}
    (query_id : Z) (num_rows : nat -> Z) (predicates : list JoinPredicate) :
  let tables := populate_all predicates [] in
  (2 <= length tables)%nat ->
  exists ord, pred <$> ord ≡ₚ predicates /\ StronglySorted (fun i j => est_size i <= est_size j) ord /\
    Forall (info_of tables num_rows) ord /\
    ((closes_cycle [] ord /\ ApplyJoinReordering query_id num_rows predicates = Some UnsupportedJoin) \/
     (~ closes_cycle [] ord /\ exists p, ApplyJoinReordering query_id num_rows predicates = Some (PlanOut p) /\
        Forall (join_made tables (reverse ord)) (bodies p) /\ result_out_ p = (fun i => RJoin (pred i)) <$> last ord /\
        plan_dependents_ p = ∅ /\ joins_of p ⊆+ predicates /\
        (length predicates + 1 = length tables -> joins_of p ≡ₚ predicates)%nat)).
Proof.
  intros tables H2.
  destruct (reorder_setup query_id num_rows predicates H2) as (f & infos & HI & Hp & Hne & HF & HR & HA).
  fold tables in HI, HF, HR, HA. set (n := length tables) in *.
  destruct (queue_order_ok (length infos) infos eq_refl) as [HP HS].
  exists (queue_order (length infos) infos). split_and!; [by rewrite HP, Hp | done | by rewrite HP |].
  destruct (join_loop_ok n query_id tables (length infos) infos [] _ _ (start_inv tables n f HI) eq_refl eq_refl HR)
    as [[Hc E] | (Hc & R & st & E & J & F)]; [done | |]; rewrite E in HA; cbn [mbind option_bind] in HA.
  { left. by split. }
  right. split; [done |]. rewrite app_nil_r in J, F.
  assert (rev (queue_order (length infos) infos) ≡ₚ infos) as HPr by (by rewrite <- Permutation_rev).
  destruct (finish_ok tables n _ R st infos J) as (p & Ef & HD & Hs & Hres & Hmade & Ht & _); [| done |].
  { apply F. intros E0. rewrite E0 in HPr. apply Permutation_nil_l in HPr. done. }
  rewrite List.rev_alt in Hres, Hmade. change (rev_append ?l []) with (reverse l) in Hres, Hmade. rewrite head_reverse in Hres.
  exists p. rewrite HA, <- Hp, length_fmap. by split_and!.
Qed.

(** Tables 1, 2 and 3 with as many rows as their names. *)
Definition demo_chain : list JoinPredicate := [mkJoinPredicate 2 3 0; mkJoinPredicate 1 2 1].

Lemma join_reordering_correct_witness :
  (2 <= length (populate_all demo_chain []))%nat /\
  exists ord, pred <$> ord ≡ₚ demo_chain /\ StronglySorted (fun i j => est_size i <= est_size j) ord /\
    exists p, ApplyJoinReordering 5 (fun t => Z.of_nat t) demo_chain = Some (PlanOut p) /\
        Forall (join_made (populate_all demo_chain []) (reverse ord)) (bodies p) /\ joins_of p ≡ₚ demo_chain.
Proof.
  assert (2 <= length (populate_all demo_chain []))%nat as H2 by (vm_compute; lia).
  split; [exact H2 |].
  destruct (join_reordering_correct 5 (fun t => Z.of_nat t) demo_chain H2) as (ord & HP & HS & _ & [[_ E] | (_ & p & E & HM & _ & _ & _ & HT)]).
  - vm_compute in E. discriminate E.
  - exists ord. split_and!; [exact HP | exact HS |]. exists p. split_and!; [exact E | exact HM | by apply HT].
Defined.

(** C39: predicates that do not connect all tables are accepted, and joins are
    lost: whenever the function returns a plan and the predicates are not a tree
    on the tables (cycles are refused, so they fall into several trees), the plan
    holds fewer joins than there are predicates. *)
Theorem join_reordering_loses_joins {PQ : PriorityQueue JoinInfo est_size}
    (query_id : Z) (num_rows : nat -> Z) (predicates : list JoinPredicate) p :
  let tables := populate_all predicates [] in
  (2 <= length tables)%nat -> ApplyJoinReordering query_id num_rows predicates = Some (PlanOut p) ->
  (length predicates + 1 <> length tables)%nat ->
  joins_of p ⊆+ predicates /\ (length (joins_of p) < length predicates)%nat.
Proof.
  intros tables H2 EA Hlen.
  destruct (reorder_setup query_id num_rows predicates H2) as (f & infos & HI & Hp & Hne & HF & HR & HA).
  fold tables in HI, HF, HR, HA. set (n := length tables) in *. rewrite HA in EA.
  destruct (queue_order_ok (length infos) infos eq_refl) as [HP _].
  destruct (join_loop_ok n query_id tables (length infos) infos [] _ _ (start_inv tables n f HI) eq_refl eq_refl HR)
    as [[_ E] | (_ & R & st & E & J & F)]; [done | |]; rewrite E in EA; [done |]. cbn [mbind option_bind] in EA. rewrite app_nil_r in J, F.
  assert (rev (queue_order (length infos) infos) ≡ₚ infos) as HPr by (by rewrite <- Permutation_rev).
  destruct (finish_ok tables n _ R st infos J) as (p' & Ef & _ & Hs & _ & _ & _ & Ht); [| done |].
  { apply F. intros E0. rewrite E0 in HPr. apply Permutation_nil_l in HPr. done. }
  rewrite Ef in EA. injection EA as <-. rewrite Hp in Hs. split; [done |]. rewrite <- Hp, length_fmap. apply Ht; [| by rewrite <- Hp, length_fmap in Hlen].
  intros id Hid. apply elem_of_ids in Hid. unfold n, tables in Hid. rewrite <- (tables_covered predicates infos num_rows Hp HF) in Hid.
  unfold info_ids in Hid. apply elem_of_list_to_set, elem_of_app in Hid as [(i & -> & Hi)%list_elem_of_fmap | (i & -> & Hi)%list_elem_of_fmap]; eauto.
Qed.

Lemma join_reordering_loses_joins_witness :
  exists p, ApplyJoinReordering 0 (fun _ => 1) [mkJoinPredicate 1 2 0; mkJoinPredicate 3 4 1] = Some (PlanOut p) /\ (length (joins_of p) < 2)%nat.
Proof.
  eexists. split; [vm_compute; reflexivity |].
  refine (proj2 (join_reordering_loses_joins 0 (fun _ => 1) [mkJoinPredicate 1 2 0; mkJoinPredicate 3 4 1] _ _ _ _)); [vm_compute; lia | vm_compute; reflexivity | vm_compute; lia].
Defined.

(** Nothing orders dependent joins: for the chain 1-2, 2-3 the second join reads
    the output of the first, yet the plan links no operator to another. *)
Theorem join_reordering_no_links :
  exists p op1 op2, ApplyJoinReordering 0 (fun t => Z.of_nat t) [mkJoinPredicate 1 2 0; mkJoinPredicate 2 3 1] = Some (PlanOut p) /\
     operators_ p = [Some op1; Some op2] /\ hj_out (op_body op1) ∈ hj_inputs (op_body op2) /\
     getDependents 0 p = ∅ /\ op_index_ op1 = op_index_ op2.
Proof.
  eexists _, _, _. split; [vm_compute; reflexivity |]. split; [vm_compute; reflexivity |].
  split_and!; [by left | vm_compute; reflexivity | reflexivity].
Qed.
