(* ===== verification/Block.v ===== *)
(** * Blocks (storage/block.h, storage/block.cc, storage/utils/util.cc)

    A block stores rows column by column in Arrow buffers: a number column has
    one buffer of fixed-width cells, a string column a buffer of 32-bit offsets
    and one of bytes; a bitmap tells which rows are valid.  The rows arrive as
    SQLite records: the bytes of the values one after the other, with the width
    of each value ([MemLog.v]; a negative width encodes the constants 0 and 1).

    Arrow's resizable buffers are not part of the sources: they are an
    interface, class [ArrowBuffers], with what the Arrow documentation says of
    [Resize].  The memory they hand out has arbitrary contents.  A block is
    changed by a state monad with exceptions; [None] is undefined behaviour
    (an access outside a buffer, a signed overflow). *)

From Stdlib Require Import ZArith Lia.
From stdpp Require Import base numbers list gmap option.
Import stdpp.list_basics.list stdpp.list_relations.list stdpp.list_monad.list.
From S2P Require Import Prelude RecordUtils MemLog BitUtils.
Import Serial Bits.

Local Open Scope Z_scope.

(** [arrow::ResizableBuffer::Resize(n, shrink)] on the memory of a buffer:
    the capacity covers the new size, and it does not decrease unless asked to
    shrink; the bytes that stay are kept. *)
Class ArrowBuffers := {
  resize_bytes : Z -> bool -> list Z -> list Z;
  resize_capacity : forall n shrink bs, n <= Z.of_nat (length (resize_bytes n shrink bs));
  resize_grows : forall n bs, (length bs <= length (resize_bytes n false bs))%nat;
  resize_keeps : forall n shrink bs i, (i < length bs)%nat -> (i < length (resize_bytes n shrink bs))%nat ->
    resize_bytes n shrink bs !! i = bs !! i;
  resize_is_byte : forall n shrink bs, Forall is_byte bs -> Forall is_byte (resize_bytes n shrink bs)
}.

Module Blocks.

Definition ESTIMATED_STR_LEN : Z := 30.

(** ** Memory *)

Definition peek (pos len : Z) (bs : list Z) : option (list Z) :=
  if (0 <=? pos) && (0 <=? len) && (pos + len <=? Z.of_nat (length bs))
  then Some (take (Z.to_nat len) (drop (Z.to_nat pos) bs)) else None.

Definition poke (pos : Z) (vs bs : list Z) : option (list Z) :=
  if (0 <=? pos) && (pos + Z.of_nat (length vs) <=? Z.of_nat (length bs))
  then Some (take (Z.to_nat pos) bs ++ vs ++ drop (Z.to_nat pos + length vs) bs) else None.

(** Little-endian integers of the machine. *)
Fixpoint le_bytes (n : nat) (v : Z) : list Z :=
  match n with O => [] | S k => v mod 256 :: le_bytes k (v / 256) end.

Fixpoint le_unsigned (bs : list Z) : Z := match bs with [] => 0 | b :: bs' => b + 256 * le_unsigned bs' end.

Definition le_signed (bs : list Z) : Z := wraps (8 * Z.of_nat (length bs)) (le_unsigned bs).

Definition get_i32 (pos : Z) (bs : list Z) : option Z := cell ← peek pos 4 bs; Some (le_signed cell).

(** ** Data *)

(** The type ids the code tells apart: numbers, other types with a [CType]
    (booleans, dates, times), strings, fixed-size binaries, and the rest. *)
Inductive DataType :=
| NumberType (width : Z)
| CTypeType (width : Z)
| StringType
| LargeStringType
| FixedSizeBinaryType (width : Z)
| OtherType.

(** [size] is the reported size, the length of [memory] the capacity. *)
Record Buffer := mkBuffer { size : Z; memory : list Z }.

(** [buffers\[1\]] and, for strings, [buffers\[2\]]. *)
Record ArrayData := mkArrayData { ad_length : Z; buffer1 : Buffer; buffer2 : option Buffer }.

Record Block := mkBlock {
  id : Z;
  schema : list DataType;
  valid : ArrayData;
  columns : list ArrayData;
  column_sizes : list Z;
  field_sizes_ : list Z;
  row_id_map : gmap Z Z;
  num_bytes : Z;
  capacity : Z;
  fixed_record_width : Z;
  num_rows : Z;
  num_cols : Z;
  metadata_enabled : bool
}.

Definition set_valid_data (v : ArrayData) (b : Block) : Block :=
  mkBlock (id b) (schema b) v (columns b) (column_sizes b) (field_sizes_ b) (row_id_map b) (num_bytes b) (capacity b)
    (fixed_record_width b) (num_rows b) (num_cols b) (metadata_enabled b).

Definition set_columns (cs : list ArrayData) (b : Block) : Block :=
  mkBlock (id b) (schema b) (valid b) cs (column_sizes b) (field_sizes_ b) (row_id_map b) (num_bytes b) (capacity b)
    (fixed_record_width b) (num_rows b) (num_cols b) (metadata_enabled b).

Definition set_sizes (sizes : list Z) (bytes : Z) (b : Block) : Block :=
  mkBlock (id b) (schema b) (valid b) (columns b) sizes (field_sizes_ b) (row_id_map b) bytes (capacity b)
    (fixed_record_width b) (num_rows b) (num_cols b) (metadata_enabled b).

Definition set_num_rows (n : Z) (b : Block) : Block :=
  mkBlock (id b) (schema b) (valid b) (columns b) (column_sizes b) (field_sizes_ b) (row_id_map b) (num_bytes b) (capacity b)
    (fixed_record_width b) n (num_cols b) (metadata_enabled b).

Definition set_row_id_map (m : gmap Z Z) (b : Block) : Block :=
  mkBlock (id b) (schema b) (valid b) (columns b) (column_sizes b) (field_sizes_ b) m (num_bytes b) (capacity b)
    (fixed_record_width b) (num_rows b) (num_cols b) (metadata_enabled b).

Abbreviation M := (StM Block).

Section WithArrow.
Context {Arrow : ArrowBuffers}.

(** [Resize] followed by [evaluate_status]: a negative size is an error. *)
Definition Resize (n : Z) (shrink : bool) (buf : Buffer) : exn + Buffer :=
  if n <? 0 then inl RuntimeError else inr (mkBuffer n (resize_bytes n shrink (memory buf))).

Definition resized (n : Z) (shrink : bool) (buf : Buffer) : M Buffer :=
  match Resize n shrink buf with inl e => throw e | inr buf' => mret buf' end.

Definition AllocateResizableBuffer (n : Z) : exn + Buffer := Resize n false (mkBuffer 0 []).

(** Zeroes the bytes between the size and the capacity. *)
Definition ZeroPadding (buf : Buffer) : Buffer :=
  mkBuffer (size buf) (take (Z.to_nat (size buf)) (memory buf) ++
                       replicate (length (memory buf) - Z.to_nat (size buf)) 0).

(** ** util.cc *)

Fixpoint compute_fixed_record_width (types : list DataType) (fixed_width : Z) : option (exn + Z) :=
  match types with
  | [] => Some (inr fixed_width)
  | NumberType w :: types' | CTypeType w :: types' | FixedSizeBinaryType w :: types' =>
      fixed_width ← int_chk (fixed_width + w); compute_fixed_record_width types' fixed_width
  | StringType :: types' => compute_fixed_record_width types' fixed_width
  | _ :: _ => Some (inl LogicError)
  end.

Fixpoint get_field_sizes (types : list DataType) : exn + list Z :=
  match types with
  | [] => inr []
  | ty :: types' =>
      match ty with
      | NumberType w | CTypeType w => match get_field_sizes types' with inr s => inr (w :: s) | e => e end
      | FixedSizeBinaryType w => match get_field_sizes types' with inr s => inr (w :: w :: s) | e => e end
      | StringType => match get_field_sizes types' with inr s => inr (-1 :: s) | e => e end
      | _ => inl LogicError
      end
  end.

(** ** Construction *)

Definition AllocateColumnData (field_size init_rows : Z) : exn + ArrayData :=
  match AllocateResizableBuffer (field_size * init_rows) with
  | inl e => inl e
  | inr data => inr (mkArrayData 0 (ZeroPadding data) None)
  end.

(** The lambda [get_allocate_buffer]. *)
Definition get_allocate_buffer (init_rows : Z) (ty : DataType) : option (exn + ArrayData) :=
  match ty with
  | NumberType w => Some (AllocateColumnData w init_rows)
  | StringType =>
      match AllocateResizableBuffer (4 * init_rows), AllocateResizableBuffer (ESTIMATED_STR_LEN * init_rows) with
      | inr offsets, inr data =>
          offsets_data ← poke 0 (le_bytes 4 0) (memory offsets);
          Some (inr (mkArrayData 0 (mkBuffer (size offsets) offsets_data) (Some (ZeroPadding data))))
      | _, _ => Some (inl RuntimeError)
      end
  | FixedSizeBinaryType w => Some (AllocateColumnData w init_rows)
  | _ => Some (inl LogicError)
  end.

Fixpoint allocate_columns (init_rows : Z) (types : list DataType) : option (exn + list ArrayData) :=
  match types with
  | [] => Some (inr [])
  | ty :: types' =>
      r ← get_allocate_buffer init_rows ty;
      match r with
      | inl e => Some (inl e)
      | inr col =>
          rs ← allocate_columns init_rows types';
          match rs with inl e => Some (inl e) | inr cols => Some (inr (col :: cols)) end
      end
  end.

Definition is_string (ty : DataType) : bool := match ty with StringType => true | _ => false end.

(** [Block(id, schema, capacity, enable_metadata)] *)
Definition newBlock (block_id : Z) (types : list DataType) (cap : Z) (enable_metadata : bool) : option (exn + Block) :=
  w ← compute_fixed_record_width types 0;
  match w, get_field_sizes types with
  | inr width, inr sizes =>
      let num_string_cols := Z.of_nat (length (filter is_string types)) in
      est ← int_chk (width + ESTIMATED_STR_LEN * num_string_cols);
      if est =? 0 then None else
      let init_rows := Z.quot cap est in
      match AllocateResizableBuffer 0 with
      | inl e => Some (inl e)
      | inr valid_buffer =>
          cs ← allocate_columns init_rows types;
          match cs with
          | inl e => Some (inl e)
          | inr cols =>
              Some (inr (mkBlock block_id types (mkArrayData 0 valid_buffer None) cols
                           (replicate (length types) 0) sizes ∅ 0 cap width 0
                           (Z.of_nat (length types)) enable_metadata))
          end
      end
  | inl e, _ => Some (inl e)
  | _, inl e => Some (inl e)
  end.

(** ** Valid bits *)

Definition get_valid (row_index : Z) (b : Block) : option bool :=
  byte ← memory (buffer1 (valid b)) !! Z.to_nat (row_index / 8);
  Some (Z.land (Z.shiftr byte (row_index mod 8)) 1 =? 1).

Definition set_valid (row_index : Z) (val : bool) : M unit :=
  b ← get;
  let buf := buffer1 (valid b) in
  byte ← defined (memory buf !! Z.to_nat (row_index / 8));
  let mask := Z.shiftl 1 (row_index mod 8) in
  let byte := if val then to_u8 (Z.lor byte mask) else to_u8 (Z.ldiff byte mask) in
  let buf := mkBuffer (size buf) (<[Z.to_nat (row_index / 8) := byte]> (memory buf)) in
  modify (set_valid_data (mkArrayData (ad_length (valid b)) buf (buffer2 (valid b)))).

Definition get_bytes_left (b : Block) : option Z := int_chk (capacity b - num_bytes b).

(** ** Insertion of a SQLite record *)

(** [column_sizes\[i\] += n; num_bytes += n;] *)
Definition add_size (i : nat) (n : Z) : M unit :=
  b ← get;
  s ← defined (column_sizes b !! i);
  s ← defined (int_chk (s + n));
  t ← defined (int_chk (num_bytes b + n));
  modify (set_sizes (<[i := s]> (column_sizes b)) t).

(** The lambda [string_handler]; returns the new [head]. *)
Definition string_handler (i : nat) (record : list Z) (byte_width head : Z) : M Z :=
  b ← get;
  col ← defined (columns b !! i);
  buf2 ← defined (buffer2 col);
  data_buffer ← resized (size buf2 + byte_width) false buf2;
  offsets_buffer ← resized (size (buffer1 col) + 4) false (buffer1 col);
  let offsets_data := memory offsets_buffer in
  offset ← defined (get_i32 (4 * num_rows b) offsets_data);
  new_offset ← defined (int_chk (offset + byte_width));
  offsets_data ← defined (poke (4 * (num_rows b + 1)) (le_bytes 4 new_offset) offsets_data);
  offset ← defined (get_i32 (4 * num_rows b) offsets_data);
  value ← defined (peek head byte_width record);
  values_data ← defined (poke offset value (memory data_buffer));
  _ ← modify (set_columns (<[i := mkArrayData (ad_length col + 1)
                                     (mkBuffer (size offsets_buffer) offsets_data)
                                     (Some (mkBuffer (size data_buffer) values_data))]> (columns b)));
  _ ← add_size i byte_width;
  mret (head + byte_width).

(** [InsertValue<field_type>]; [reverse_bytes] works in place, so the record
    is returned with the new [head]. *)
Definition InsertValue (field_size : Z) (i : nat) (head : Z) (record : list Z) (byte_width : Z) : M (Z * list Z) :=
  b ← get;
  col ← defined (columns b !! i);
  data_buffer ← resized (size (buffer1 col) + field_size) false (buffer1 col);
  let dest := field_size * num_rows b in
  let store (value : list Z) : M unit :=
    mem ← defined (poke dest value (memory data_buffer));
    modify (set_columns (<[i := mkArrayData (ad_length col + 1) (mkBuffer (size data_buffer) mem) (buffer2 col)]>
                           (columns b))) in
  if field_size <=? byte_width then
    value ← defined (peek head byte_width record);
    _ ← store value;
    _ ← add_size i byte_width;
    mret (head + byte_width, record)
  else if byte_width <? 0 then
    let val := to_u8 (- byte_width - Log.ZERO_TYPE_ENCODING) in
    _ ← store (val :: replicate (Z.to_nat field_size - 1) 0);
    _ ← add_size i field_size;
    mret (head, record)
  else
    tail ← defined (reverse_bytes (drop (Z.to_nat head) record) byte_width);
    let record := take (Z.to_nat head) record ++ tail in
    value ← defined (peek head byte_width record);
    _ ← store (value ++ replicate (Z.to_nat (field_size - byte_width)) 0);
    _ ← add_size i field_size;
    mret (head + byte_width, record).

(** [for (int i = 0; i < num_cols; i++)] with the lambda [handler]. *)
Fixpoint insert_columns (types : list DataType) (i : nat) (head : Z) (record byte_widths : list Z) : M (list Z) :=
  match types with
  | [] => mret record
  | ty :: types' =>
      byte_width ← defined (byte_widths !! i);
      match ty with
      | StringType | LargeStringType =>
          head ← string_handler i record byte_width head;
          insert_columns types' (S i) head record byte_widths
      | NumberType w | CTypeType w =>
          hr ← InsertValue w i head record byte_width;
          insert_columns types' (S i) (fst hr) (snd hr) byte_widths
      | _ => throw LogicError
      end
  end.

Fixpoint sum_widths (n : nat) (byte_widths : list Z) (acc : Z) : option Z :=
  match n, byte_widths with
  | O, _ => Some acc
  | S k, w :: ws => acc ← int_chk (acc + w); sum_widths k ws acc
  | S _, [] => None
  end.

(** [InsertRecord(uint8_t *record, int32_t *byte_widths)]; also returns the
    record as it is left in memory. *)
Definition InsertRecord (record byte_widths : list Z) : M (Z * list Z) :=
  b ← get;
  record_size ← defined (sum_widths (Z.to_nat (num_cols b)) byte_widths 0);
  bytes_left ← defined (get_bytes_left b);
  if bytes_left <? record_size then mret (-1, record) else
  let buf := buffer1 (valid b) in
  valid_buffer ← resized (size buf + 1) false buf;
  _ ← modify (set_valid_data (mkArrayData (ad_length (valid b)) valid_buffer (buffer2 (valid b))));
  _ ← set_valid (num_rows b) true;
  _ ← modify (fun b => set_valid_data (mkArrayData (ad_length (valid b) + 1) (buffer1 (valid b)) (buffer2 (valid b))) b);
  record ← insert_columns (schema b) 0 0 record byte_widths;
  b' ← get;
  n ← defined (int_chk (num_rows b' + 1));
  _ ← modify (set_num_rows n);
  mret (num_rows b', record).

(** [UpdateColumnValue<field_size>], with the record it leaves. *)
Definition UpdateColumnValue (field_size : Z) (col_num : nat) (row_num : Z) (record_value : list Z) (byte_width : Z)
    : M (list Z) :=
  b ← get;
  col ← defined (columns b !! col_num);
  let store (value record : list Z) : M (list Z) :=
    mem ← defined (poke (field_size * row_num) value (memory (buffer1 col)));
    _ ← modify (set_columns (<[col_num := mkArrayData (ad_length col) (mkBuffer (size (buffer1 col)) mem) (buffer2 col)]>
                               (columns b)));
    mret record in
  if byte_width <? 0 then
    let val := to_u8 (- byte_width - Log.ZERO_TYPE_ENCODING) in
    store (val :: replicate (Z.to_nat field_size - 1) 0) record_value
  else
    record ← defined (reverse_bytes record_value byte_width);
    value ← defined (peek 0 byte_width record);
    (* more bytes than the temporary buffer has *)
    if field_size <? byte_width then defined None else
    store (value ++ replicate (Z.to_nat (field_size - byte_width)) 0) record.

(** ** Insertion of Arrow arrays *)

(** [ArrayData::Slice(offset, length)] shares the buffers. *)
Record Slice := mkSlice { sl_data : ArrayData; sl_offset : Z; sl_length : Z }.

Definition slice_of (offset len : Z) (col : ArrayData) : Slice := mkSlice col offset len.

(** [capacity()] of a buffer. *)
Definition buffer_capacity (buf : Buffer) : Z := Z.of_nat (length (memory buf)).

(** [InsertValues<field_size>]: eight bytes per value, whatever the type. *)
Definition InsertValues (col_num : nat) (offset : Z) (vals : Slice) (num_vals : Z) : M unit :=
  b ← get;
  data_size ← defined (int_chk (8 * num_vals));
  col ← defined (columns b !! col_num);
  s ← defined (column_sizes b !! col_num);
  total ← defined (int_chk (s + data_size));
  let buf := buffer1 col in
  data_buffer ← (if buffer_capacity buf <? total then resized (buffer_capacity buf + data_size) false buf else mret buf);
  value ← defined (peek (8 * offset) data_size (memory (buffer1 (sl_data vals))));
  mem ← defined (poke (8 * num_rows b) value (memory data_buffer));
  _ ← modify (set_columns (<[col_num := mkArrayData (ad_length col + num_vals) (mkBuffer (size data_buffer) mem) (buffer2 col)]>
                             (columns b)));
  add_size col_num data_size.

(** [offsets_data\[i\] += delta] for [n] offsets from byte position [pos]. *)
Fixpoint shift_offsets (n : nat) (pos delta : Z) (mem : list Z) : option (list Z) :=
  match n with
  | O => Some mem
  | S k =>
      v ← get_i32 pos mem;
      v ← int_chk (v + delta);
      mem ← poke pos (le_bytes 4 v) mem;
      shift_offsets k (pos + 4) delta mem
  end.

(** The string case of [insert_record_handler]. *)
Definition insert_strings (i : nat) (offset : Z) (vals : Slice) (n : Z) : M unit :=
  b ← get;
  col ← defined (columns b !! i);
  buf2 ← defined (buffer2 col);
  s ← defined (column_sizes b !! i);
  let buf1 := buffer1 col in
  offsets_buffer ← (if buffer_capacity buf1 <? (num_rows b + n + 2) * 8
                    then resized (buffer_capacity buf1 + 4 * (n + 1)) false buf1 else mret buf1);
  let in_offsets := memory (buffer1 (sl_data vals)) in
  in_values ← defined (buffer2 (sl_data vals));
  lo ← defined (get_i32 (4 * offset) in_offsets);
  hi ← defined (get_i32 (4 * (offset + n)) in_offsets);
  string_size ← defined (int_chk (hi - lo));
  total ← defined (int_chk (s + string_size));
  data_buffer ← (if buffer_capacity buf2 <? total then resized total false buf2 else mret buf2);
  current_offset ← defined (get_i32 (4 * num_rows b) (memory offsets_buffer));
  offsets_data ←
    (if offset =? 0 then
       cells ← defined (peek (4 * offset) (4 * (n + 1)) in_offsets);
       mem ← defined (poke (4 * num_rows b) cells (memory offsets_buffer));
       defined (shift_offsets (Z.to_nat (n + 1)) (4 * num_rows b) current_offset mem)
     else
       cells ← defined (peek (4 * (offset + 1)) (4 * n) in_offsets);
       mem ← defined (poke (4 * (num_rows b + 1)) cells (memory offsets_buffer));
       delta ← defined (int_chk (current_offset - lo));
       defined (shift_offsets (Z.to_nat n) (4 * (num_rows b + 1)) delta mem));
  pos ← defined (get_i32 (4 * num_rows b) offsets_data);
  value ← defined (peek lo string_size (memory in_values));
  values_data ← defined (poke pos value (memory data_buffer));
  _ ← modify (set_columns (<[i := mkArrayData (ad_length col + n) (mkBuffer (size offsets_buffer) offsets_data)
                                     (Some (mkBuffer (size data_buffer) values_data))]> (columns b)));
  add_size i string_size.

(** The fixed-size binary case: the source is read at [8 * offset]. *)
Definition insert_binaries (field_size : Z) (i : nat) (offset : Z) (vals : Slice) (n : Z) : M unit :=
  b ← get;
  data_size ← defined (int_chk (field_size * n));
  col ← defined (columns b !! i);
  s ← defined (column_sizes b !! i);
  total ← defined (int_chk (s + data_size));
  let buf := buffer1 col in
  data_buffer ← (if buffer_capacity buf <? total then resized (buffer_capacity buf + data_size) false buf else mret buf);
  value ← defined (peek (8 * offset) data_size (memory (buffer1 (sl_data vals))));
  mem ← defined (poke (num_rows b * field_size) value (memory data_buffer));
  _ ← modify (set_columns (<[i := mkArrayData (ad_length col + n) (mkBuffer (size data_buffer) mem) (buffer2 col)]>
                             (columns b)));
  add_size i data_size.

Fixpoint insert_arrays (types : list DataType) (i : nat) (offset n : Z) (column_data : list Slice) : M unit :=
  match types with
  | [] => mret tt
  | ty :: types' =>
      vals ← defined (column_data !! i);
      _ ← match ty with
          | NumberType _ | CTypeType _ => InsertValues i offset vals n
          | StringType => insert_strings i offset vals n
          | FixedSizeBinaryType w => insert_binaries w i offset vals n
          | _ => throw LogicError
          end;
      insert_arrays types' (S i) offset n column_data
  end.

Fixpoint set_valid_rows (k : nat) (row : Z) : M unit :=
  match k with O => mret tt | S k' => _ ← set_valid row true; set_valid_rows k' (row + 1) end.

(** [InsertRecords(column_data)] *)
Definition InsertRecords (column_data : list Slice) : M Z :=
  first ← defined (column_data !! 0%nat);
  let n := sl_length first in
  if n =? 0 then mret (-1) else
  b ← get;
  let buf := buffer1 (valid b) in
  valid_buffer ← resized (size buf + n / 8 + 1) false buf;
  _ ← modify (set_valid_data (mkArrayData (ad_length (valid b)) (ZeroPadding valid_buffer) (buffer2 (valid b))));
  _ ← set_valid_rows (Z.to_nat n) (num_rows b);
  _ ← modify (fun b => set_valid_data (mkArrayData (ad_length (valid b) + n) (buffer1 (valid b)) (buffer2 (valid b))) b);
  _ ← insert_arrays (schema b) 0 (sl_offset first) n column_data;
  b' ← get;
  total ← defined (int_chk (num_rows b' + n));
  _ ← modify (set_num_rows total);
  mret (num_rows b' + n - 1).

End WithArrow.

End Blocks.

Import Blocks.

(** ** Buffers *)

Module RoundUp.

(** Capacities are multiples of 64; fresh memory reads as 0xAA. *)
Definition round64 (n : Z) : Z := (n + 63) / 64 * 64.

Definition resize_round (n : Z) (shrink : bool) (bs : list Z) : list Z :=
  let want := Z.to_nat (round64 n) in
  if shrink then take want bs ++ replicate (want - length bs) 0xAA
  else bs ++ replicate (want - length bs) 0xAA.

#[export, refine] Instance round_buffers : ArrowBuffers := {| resize_bytes := resize_round |}.
Proof.
  - intros n shrink bs. unfold resize_round, round64.
    assert (n <= (n + 63) / 64 * 64) by (pose proof (Z.div_mod (n + 63) 64 ltac:(lia)); pose proof (Z.mod_pos_bound (n + 63) 64 ltac:(lia)); lia).
    destruct shrink; rewrite length_app, length_replicate, ?length_take; lia.
  - intros n bs. unfold resize_round. rewrite length_app. lia.
  - intros n shrink bs i Hi Hr. unfold resize_round in *. destruct shrink.
    + rewrite length_app, length_replicate, length_take in Hr.
      rewrite lookup_app_l by (rewrite length_take; lia). apply lookup_take_lt. lia.
    + by rewrite lookup_app_l.
  - intros n shrink bs HF. unfold resize_round.
    destruct shrink; (apply Forall_app; split; [| apply Forall_replicate; unfold is_u; lia]); [by apply Forall_take | done].
Defined.

End RoundUp.

Import RoundUp.

(** ** Lemmas *)

Module BlockProof.

Section Memory.
Context {Arrow : ArrowBuffers}.

Lemma bind_resized {B} n shrink buf (k : Buffer -> M B) b : 0 <= n ->
  (resized n shrink buf ≫= k) b = k (mkBuffer n (resize_bytes n shrink (memory buf))) b.
Proof. intros Hn. unfold resized, Resize. by rewrite (proj2 (Z.ltb_ge _ _)). Qed.

Lemma take_resize k n bs : (k <= length bs)%nat -> take k (resize_bytes n false bs) = take k bs.
Proof.
  intros Hk. pose proof (resize_grows n bs) as Hg. apply list_eq. intros i.
  destruct (decide (i < k)%nat).
  - rewrite !lookup_take_lt by done. apply resize_keeps; lia.
  - rewrite !lookup_take_ge by lia. done.
Qed.

Lemma poke_ok pos vs bs : 0 <= pos -> pos + Z.of_nat (length vs) <= Z.of_nat (length bs) ->
  exists bs', poke pos vs bs = Some bs' /\ length bs' = length bs /\
    take (Z.to_nat pos + length vs) bs' = take (Z.to_nat pos) bs ++ vs.
Proof.
  intros Hp Hl. unfold poke. rewrite (proj2 (Z.leb_le _ _)), (proj2 (Z.leb_le _ _)) by lia. cbn [andb].
  eexists. split; [reflexivity |]. split.
  - rewrite !length_app, length_take, length_drop. lia.
  - rewrite (assoc_L (++)). apply take_app_length'. rewrite length_app, length_take. lia.
Qed.

Lemma take_take_le {A} (k n : nat) (l l' : list A) : (k <= n)%nat -> take n l = take n l' -> take k l = take k l'.
Proof. intros Hk E. apply (f_equal (take k)) in E. by rewrite !take_take, !Nat.min_l in E by lia. Qed.

Lemma peek_take pos len bs bs' : 0 <= pos -> 0 <= len ->
  pos + len <= Z.of_nat (length bs) -> pos + len <= Z.of_nat (length bs') ->
  take (Z.to_nat (pos + len)) bs = take (Z.to_nat (pos + len)) bs' -> peek pos len bs = peek pos len bs'.
Proof.
  intros Hp Hl H1 H2 E. unfold peek. rewrite !(proj2 (Z.leb_le _ _)) by lia. cbn [andb]. f_equal.
  rewrite !take_drop_commute. rewrite Z2Nat.inj_add in E by lia. by rewrite E.
Qed.

Lemma length_le_bytes n v : length (le_bytes n v) = n.
Proof. revert v. induction n; intros v; cbn; auto. Qed.

Lemma le_bytes_unsigned n v : le_unsigned (le_bytes n v) = v mod 256 ^ Z.of_nat n.
Proof.
  revert v. induction n as [|n IH]; intros v; [cbn; by rewrite Z.mod_1_r |].
  cbn [le_bytes le_unsigned]. rewrite IH, Nat2Z.inj_succ, Z.pow_succ_r by lia.
  rewrite Z.rem_mul_r by lia. done.
Qed.

Lemma le_bytes_signed v : is_s 32 v -> le_signed (le_bytes 4 v) = v.
Proof.
  intros Hv. unfold le_signed. rewrite le_bytes_unsigned, length_le_bytes.
  change (8 * Z.of_nat 4) with 32. change (256 ^ Z.of_nat 4) with (2 ^ 32).
  rewrite <- (wraps_id 32 v) at 2 by (done || lia). unfold wraps.
  by rewrite Zplus_mod_idemp_l.
Qed.

Lemma get_i32_poke pos v bs bs' :
  0 <= pos -> is_s 32 v -> length bs' = length bs -> pos + 4 <= Z.of_nat (length bs) ->
  take (Z.to_nat pos + 4) bs' = take (Z.to_nat pos) bs ++ le_bytes 4 v ->
  get_i32 pos bs' = Some v.
Proof.
  intros Hp Hv Hl Hb E. unfold get_i32, peek. rewrite !(proj2 (Z.leb_le _ _)) by lia. cbn [andb mbind option_bind].
  change (Z.to_nat 4) with 4%nat. rewrite take_drop_commute, E, drop_app_length' by (rewrite length_take; lia).
  by rewrite le_bytes_signed.
Qed.

Lemma get_i32_below pos q bs bs' :
  0 <= pos -> pos + 4 <= q -> q <= Z.of_nat (length bs) -> q <= Z.of_nat (length bs') ->
  take (Z.to_nat q) bs' = take (Z.to_nat q) bs -> get_i32 pos bs' = get_i32 pos bs.
Proof.
  intros Hp Hq H1 H2 E. unfold get_i32. rewrite (peek_take pos 4 bs' bs); try lia; [done |].
  eapply take_take_le; [| exact E]. lia.
Qed.

End Memory.

(** ** What a column stores *)

Definition total (cells : list (list Z)) : Z := Z.of_nat (length (concat cells)).

Lemma total_snoc cells c : total (cells ++ [c]) = total cells + Z.of_nat (length c).
Proof. unfold total. rewrite concat_app, length_app. cbn. rewrite app_nil_r. lia. Qed.

Lemma total_fixed w cells : Forall (fun c => Z.of_nat (length c) = w) cells ->
  total cells = w * Z.of_nat (length cells).
Proof.
  induction 1 as [|c cells Hc HF IH]; [unfold total; cbn; lia |].
  unfold total in *. cbn [concat length]. rewrite length_app. lia.
Qed.

Definition within (buf : Buffer) (used : Z) : Prop := 0 <= used <= size buf /\ size buf <= Z.of_nat (length (memory buf)).

(** Insertion of records keeps the used part of a buffer inside its reported
    size ([strict]); insertion of arrays only inside its capacity. *)
Definition within_gen (strict : bool) (buf : Buffer) (used : Z) : Prop :=
  if strict then within buf used else 0 <= used <= Z.of_nat (length (memory buf)).

Lemma within_cap strict buf used : within_gen strict buf used -> 0 <= used <= Z.of_nat (length (memory buf)).
Proof. destruct strict; [intros [? ?]; lia | done]. Qed.

(** The column holds the given cells, one per row. *)
Definition col_repr_gen (strict : bool) (ty : DataType) (cells : list (list Z)) (col : ArrayData) (csize : Z) : Prop :=
  let n := Z.of_nat (length cells) in
  ad_length col = n /\ csize = total cells /\
  match ty with
  | NumberType w =>
      0 < w /\ Forall (fun c => Z.of_nat (length c) = w) cells /\ within_gen strict (buffer1 col) (w * n) /\
      take (length (concat cells)) (memory (buffer1 col)) = concat cells
  | StringType =>
      exists buf2, buffer2 col = Some buf2 /\ within_gen strict (buffer1 col) (4 * (n + 1)) /\ within_gen strict buf2 (total cells) /\
        take (length (concat cells)) (memory buf2) = concat cells /\
        forall j, (j <= length cells)%nat ->
          get_i32 (4 * Z.of_nat j) (memory (buffer1 col)) = Some (total (take j cells))
  | _ => False
  end.

Abbreviation col_repr := (col_repr_gen true).

Section Columns.
Context {Arrow : ArrowBuffers}.

Lemma within_resize buf used add : within buf used -> 0 <= add ->
  within (mkBuffer (size buf + add) (resize_bytes (size buf + add) false (memory buf))) (used + add).
Proof.
  intros [H1 H2] Ha. pose proof (resize_capacity (size buf + add) false (memory buf)). split; cbn; lia.
Qed.

(** Appending [v] after the used part of a buffer. *)
Lemma append_bytes buf old v :
  within buf (Z.of_nat (length old)) -> take (length old) (memory buf) = old ->
  exists mem, poke (Z.of_nat (length old)) v
      (resize_bytes (size buf + Z.of_nat (length v)) false (memory buf)) = Some mem /\
    within (mkBuffer (size buf + Z.of_nat (length v)) mem) (Z.of_nat (length old) + Z.of_nat (length v)) /\
    take (length (old ++ v)) mem = old ++ v.
Proof.
  intros HW E. pose proof HW as [H1 H2].
  pose proof (within_resize buf _ (Z.of_nat (length v)) HW ltac:(lia)) as [H3 H4]. cbn in H3, H4.
  edestruct (poke_ok (Z.of_nat (length old)) v (resize_bytes (size buf + Z.of_nat (length v)) false (memory buf)))
    as (mem & -> & Hl & Ht); [lia | lia |].
  exists mem. split_and!; [done | split; cbn; lia |].
  rewrite Nat2Z.id, take_resize in Ht by lia. by rewrite length_app, Ht, E.
Qed.

Lemma number_insert w cells col csize v :
  col_repr (NumberType w) cells col csize -> Z.of_nat (length v) = w ->
  exists mem, poke (w * Z.of_nat (length cells)) v (resize_bytes (size (buffer1 col) + w) false (memory (buffer1 col)))
      = Some mem /\
    col_repr (NumberType w) (cells ++ [v])
      (mkArrayData (ad_length col + 1) (mkBuffer (size (buffer1 col) + w) mem) (buffer2 col)) (csize + w).
Proof.
  intros (Hn & Hc & Hw & HF & HW & Ht) Hv. pose proof (total_fixed w cells HF) as HT. unfold total in HT.
  rewrite <- HT in HW.
  destruct (append_bytes (buffer1 col) (concat cells) v HW Ht) as (mem & E & HW' & Ht').
  rewrite Hv in E, HW'. rewrite HT in E, HW'. exists mem. split; [done |].
  split_and!; cbn.
  - rewrite length_app. cbn. lia.
  - rewrite total_snoc, Hv. lia.
  - done.
  - apply Forall_app. split; [done |]. by apply Forall_singleton.
  - rewrite length_app. cbn. replace (w * Z.of_nat (length cells + 1)) with (w * Z.of_nat (length cells) + w) by lia. done.
  - rewrite concat_app. cbn. by rewrite app_nil_r.
Qed.

Lemma string_insert cells col csize v :
  col_repr StringType cells col csize -> is_s 32 (csize + Z.of_nat (length v)) ->
  exists buf2 omem dmem, buffer2 col = Some buf2 /\ 0 <= size buf2 /\ 0 <= size (buffer1 col) /\
    let n := Z.of_nat (length cells) in
    let offs := resize_bytes (size (buffer1 col) + 4) false (memory (buffer1 col)) in
    get_i32 (4 * n) offs = Some csize /\
    poke (4 * (n + 1)) (le_bytes 4 (csize + Z.of_nat (length v))) offs = Some omem /\
    get_i32 (4 * n) omem = Some csize /\
    poke csize v (resize_bytes (size buf2 + Z.of_nat (length v)) false (memory buf2)) = Some dmem /\
    col_repr StringType (cells ++ [v])
      (mkArrayData (ad_length col + 1) (mkBuffer (size (buffer1 col) + 4) omem)
         (Some (mkBuffer (size buf2 + Z.of_nat (length v)) dmem))) (csize + Z.of_nat (length v)).
Proof.
  intros (Hn & Hc & buf2 & E2 & HW1 & HW2 & Ht & Ho) Hs.
  destruct (append_bytes buf2 (concat cells) v HW2 Ht) as (dmem & Ed & HWd & Htd).
  set (n := Z.of_nat (length cells)) in *. set (offs := resize_bytes (size (buffer1 col) + 4) false (memory (buffer1 col))).
  pose proof (within_resize _ _ 4 HW1 ltac:(lia)) as [H3 H4]. cbn in H3, H4. fold offs in H4.
  pose proof HW1 as [H1 H1']. pose proof HW2 as [H2 H2'].
  assert (forall j, (j <= length cells)%nat -> get_i32 (4 * Z.of_nat j) offs = Some (total (take j cells))) as Hoffs.
  { intros j Hj. rewrite <- (Ho j Hj). apply (get_i32_below _ (4 * (n + 1))); try lia.
    apply take_resize. lia. }
  destruct (poke_ok (4 * (n + 1)) (le_bytes 4 (csize + Z.of_nat (length v))) offs) as (omem & Eo & Hlo & Hto);
    [lia | rewrite length_le_bytes; lia |]. rewrite length_le_bytes in Hto.
  assert (forall j, (j <= length cells)%nat -> get_i32 (4 * Z.of_nat j) omem = Some (total (take j cells))) as Homem.
  { intros j Hj. rewrite <- (Hoffs j Hj). apply (get_i32_below _ (4 * (n + 1))); try lia.
    apply (f_equal (take (Z.to_nat (4 * (n + 1))))) in Hto. rewrite take_take, Nat.min_l in Hto by lia.
    rewrite take_app_le in Hto by (rewrite length_take; lia). by rewrite take_take, Nat.min_id in Hto. }
  assert (total (take (length cells) cells) = csize) as Htot by (by rewrite take_ge by lia).
  exists buf2, omem, dmem. split_and!; [done | lia | lia |]. cbn zeta. fold n offs.
  split_and!.
  - rewrite <- Htot. by apply Hoffs.
  - done.
  - rewrite <- Htot. by apply Homem.
  - rewrite Hc. exact Ed.
  - unfold col_repr. cbn [ad_length buffer1 buffer2]. split_and!; [rewrite length_app; cbn; lia | rewrite total_snoc; lia |].
    exists (mkBuffer (size buf2 + Z.of_nat (length v)) dmem). split_and!; [done | | | |].
    + split; cbn; rewrite ?length_app; cbn; lia.
    + rewrite total_snoc. exact HWd.
    + rewrite concat_app. cbn [concat memory]. by rewrite app_nil_r.
    + intros j Hj. rewrite length_app in Hj. cbn in Hj. cbn [buffer1 memory].
      destruct (decide (j <= length cells)%nat) as [Hle | Hgt].
      * rewrite take_app_le by done. by apply Homem.
      * assert (j = S (length cells)) as -> by lia. rewrite take_ge by (rewrite length_app; cbn; lia).
        rewrite total_snoc, <- Hc. replace (4 * Z.of_nat (S (length cells))) with (4 * (n + 1)) by lia.
        eapply get_i32_poke; [lia | done | done | lia | exact Hto].
Qed.

End Columns.

(** ** The cell a value becomes *)

(** [bs] are the bytes of the value in the record. *)
Definition number_cell (w byte_width : Z) (bs : list Z) : list Z :=
  if w <=? byte_width then bs
  else if byte_width <? 0 then to_u8 (- byte_width - Log.ZERO_TYPE_ENCODING) :: replicate (Z.to_nat w - 1) 0
  else rev bs ++ replicate (Z.to_nat (w - byte_width)) 0.

Definition cell_of (ty : DataType) (byte_width : Z) (bs : list Z) : list Z :=
  match ty with NumberType w => number_cell w byte_width bs | _ => bs end.

Fixpoint row_of (types : list DataType) (byte_widths record : list Z) : list (list Z) :=
  match types, byte_widths with
  | ty :: types', w :: ws =>
      cell_of ty w (take (Z.to_nat w) record) :: row_of types' ws (drop (Z.to_nat w) record)
  | _, _ => []
  end.

(** A type the constructor accepts and [InsertRecord] supports. *)
Definition type_ok (ty : DataType) : Prop :=
  match ty with NumberType w => 0 < w <= 8 | StringType => True | _ => False end.

(** The widths of a SQLite value: -8 and -9 for the constants 0 and 1. *)
Definition width_ok (ty : DataType) (byte_width : Z) : Prop :=
  match ty with NumberType w => -9 <= byte_width <= w | _ => 0 <= byte_width end.

Definition stored (ty : DataType) (byte_width : Z) : Z := match ty with NumberType w => w | _ => byte_width end.

Lemma stored_bound ty bw : type_ok ty -> width_ok ty bw -> 0 <= stored ty bw <= bw + 17.
Proof. destruct ty; cbn; try done; lia. Qed.

(** [b'] differs from [b] in its columns and sizes only. *)
Definition same_frame (b b' : Block) : Prop :=
  schema b' = schema b /\ valid b' = valid b /\ capacity b' = capacity b /\
  num_rows b' = num_rows b /\ num_cols b' = num_cols b /\ id b' = id b /\ row_id_map b' = row_id_map b.

Section Steps.
Context {Arrow : ArrowBuffers}.

(** The effect of inserting a cell into column [i]. *)
Definition inserted_gen (strict : bool) (ty : DataType) (i : nat) (cells : list (list Z)) (c : list Z) (csize st : Z) (b b' : Block) : Prop :=
  exists col', b' = set_sizes (<[i := csize + st]> (column_sizes b)) (num_bytes b + st)
                      (set_columns (<[i := col']> (columns b)) b) /\
    col_repr_gen strict ty (cells ++ [c]) col' (csize + st).

Abbreviation inserted := (inserted_gen true).

Lemma add_size_ok i n b s :
  column_sizes b !! i = Some s -> is_s 32 (s + n) -> is_s 32 (num_bytes b + n) ->
  add_size i n b = Some (set_sizes (<[i := s + n]> (column_sizes b)) (num_bytes b + n) b, inr tt).
Proof.
  intros E H1 H2. unfold add_size. mstep. mstep.
  apply int_chk_id in H1, H2. mstep. mstep. done.
Qed.

Lemma peek_ok pos len bs : 0 <= pos -> 0 <= len -> pos + len <= Z.of_nat (length bs) ->
  peek pos len bs = Some (take (Z.to_nat len) (drop (Z.to_nat pos) bs)).
Proof. intros. unfold peek. by rewrite !(proj2 (Z.leb_le _ _)) by lia. Qed.

Lemma string_handler_ok i record bw head b col csize cells :
  columns b !! i = Some col -> column_sizes b !! i = Some csize -> num_rows b = Z.of_nat (length cells) ->
  col_repr StringType cells col csize ->
  0 <= bw -> 0 <= head -> head + bw <= Z.of_nat (length record) ->
  is_s 32 (csize + bw) -> is_s 32 (num_bytes b + bw) ->
  exists b', string_handler i record bw head b = Some (b', inr (head + bw)) /\
    inserted StringType i cells (take (Z.to_nat bw) (drop (Z.to_nat head) record)) csize bw b b'.
Proof.
  intros Ec Es En HR Hbw Hh Hl H1 H2. set (v := take (Z.to_nat bw) (drop (Z.to_nat head) record)).
  assert (Z.of_nat (length v) = bw) as Hv by (unfold v; rewrite length_take, length_drop; lia).
  destruct (string_insert cells col csize v HR) as
    (buf2 & omem & dmem & E2 & S2 & S1 & G1 & P1 & G2 & P2 & HR'); [by rewrite Hv |].
  rewrite Hv, <- En in *. pose proof (peek_ok head bw record Hh Hbw Hl) as Epk. fold v in Epk.
  pose proof (int_chk_id _ H1) as Ei. unfold string_handler.
  mstep. mstep. mstep. rewrite bind_resized by lia. rewrite bind_resized by lia. cbn [memory size].
  mstep. mstep. mstep. mstep. mstep. mstep. mstep.
  erewrite bind_val by (apply add_size_ok; [exact Es | done | done]).
  eexists. split; [reflexivity |]. by eexists.
Qed.

Lemma number_cell_length w bw bs : 0 < w -> bw <= w -> length bs = Z.to_nat bw ->
  Z.of_nat (length (number_cell w bw bs)) = w.
Proof.
  intros Hw Hb Hl. unfold number_cell. destruct (Z.leb_spec w bw); [lia |].
  destruct (Z.ltb_spec bw 0).
  - cbn. rewrite length_replicate. lia.
  - rewrite length_app, length_rev, length_replicate. lia.
Qed.

Lemma InsertValue_ok w i head record bw b col csize cells :
  columns b !! i = Some col -> column_sizes b !! i = Some csize -> num_rows b = Z.of_nat (length cells) ->
  col_repr (NumberType w) cells col csize ->
  bw <= w -> 0 <= head -> head + Z.max 0 bw <= Z.of_nat (length record) -> Z.of_nat (length record) <= 2 ^ 32 ->
  is_s 32 (csize + w) -> is_s 32 (num_bytes b + w) ->
  exists b' record', InsertValue w i head record bw b = Some (b', inr (head + Z.max 0 bw, record')) /\
    length record' = length record /\
    drop (Z.to_nat (head + Z.max 0 bw)) record' = drop (Z.to_nat (head + Z.max 0 bw)) record /\
    inserted (NumberType w) i cells (number_cell w bw (take (Z.to_nat bw) (drop (Z.to_nat head) record))) csize w b b'.
Proof.
  intros Ec Es En HR Hbw Hh Hl Hr H1 H2. set (bs := take (Z.to_nat bw) (drop (Z.to_nat head) record)).
  assert (length bs = Z.to_nat bw) as Hbs by (unfold bs; rewrite length_take, length_drop; lia).
  pose proof HR as (_ & _ & Hw & _ & [[_ HS] _] & _).
  pose proof (number_cell_length w bw bs Hw Hbw Hbs) as Hc.
  destruct (number_insert w cells col csize _ HR Hc) as (mem & P1 & HR'). rewrite <- En in P1.
  unfold InsertValue. mstep. mstep. rewrite bind_resized by lia. cbn [memory size].
  unfold number_cell in *. destruct (Z.leb_spec w bw) as [Hge | Hlt].
  - assert (bw = w) as -> by lia. rewrite Z.max_r in * by lia.
    pose proof (peek_ok head w record Hh ltac:(lia) Hl) as Epk. fold bs in Epk. mstep.
    erewrite bind_val by (rewrite (bind_defined _ _ _ _ P1); reflexivity).
    erewrite bind_val by (apply add_size_ok; [exact Es | done | done]).
    eexists _, record. split_and!; [reflexivity | done | done |]. by eexists.
  - destruct (Z.ltb_spec bw 0) as [Hneg | Hpos].
    + rewrite Z.max_l, Z.add_0_r by lia.
      erewrite bind_val by (rewrite (bind_defined _ _ _ _ P1); reflexivity).
      erewrite bind_val by (apply add_size_ok; [exact Es | done | done]).
      eexists _, record. split_and!; [reflexivity | done | done |]. by eexists.
    + rewrite Z.max_r in * by lia.
      rewrite (bind_defined _ (rev bs ++ drop (Z.to_nat bw) (drop (Z.to_nat head) record)));
        [| apply reverse_bytes_ok; rewrite length_drop; lia].
      set (record' := take (Z.to_nat head) record ++ rev bs ++ drop (Z.to_nat bw) (drop (Z.to_nat head) record)).
      assert (length record' = length record) as Hlr
        by (unfold record'; rewrite !length_app, length_rev, length_take, !length_drop; lia).
      assert (drop (Z.to_nat head) record' = rev bs ++ drop (Z.to_nat bw) (drop (Z.to_nat head) record)) as Hdr.
      { unfold record'. apply drop_app_length'. rewrite length_take. lia. }
      rewrite (bind_defined _ (rev bs)).
      2:{ rewrite peek_ok by lia. f_equal. rewrite Hdr. apply take_app_length'. by rewrite length_rev. }
      erewrite bind_val by (rewrite (bind_defined _ _ _ _ P1); reflexivity).
      erewrite bind_val by (apply add_size_ok; [exact Es | done | done]).
      eexists _, record'. split_and!; [reflexivity | done | | by eexists].
      rewrite Z2Nat.inj_add, <- !drop_drop by lia. rewrite Hdr. apply drop_app_length'. by rewrite length_rev.
Qed.

End Steps.

(** ** The loop over the columns *)

(** The bytes a value takes in the record; a bound of what it takes in the block. *)
Definition pos_width (w : Z) : Z := Z.max 0 w.
Definition plus17 (w : Z) : Z := w + 17.

Lemma zsum_pos_nonneg ws : 0 <= zsum (pos_width <$> ws).
Proof. induction ws as [|w ws IH]; [cbn; lia |]. rewrite fmap_cons. cbn [zsum]. unfold pos_width at 1. lia. Qed.

Definition col_cells (j : nat) (rows : list (list (list Z))) : list (list Z) := (fun row => nth j row []) <$> rows.

(** The first [i] columns have received their cell of the new row. *)
Record mid_gen {strict : bool} (rows : list (list (list Z))) (i : nat) (done : list (list Z)) (b : Block) : Prop := {
  m_columns : length (columns b) = length (schema b);
  m_sizes : length (column_sizes b) = length (schema b);
  m_types : Forall type_ok (schema b);
  m_rows : num_rows b = Z.of_nat (length rows);
  m_done : length done = i;
  m_col : forall j ty, schema b !! j = Some ty -> exists col cs,
    columns b !! j = Some col /\ column_sizes b !! j = Some cs /\
    col_repr_gen strict ty (col_cells j rows ++ (if decide (j < i)%nat then [nth j done []] else [])) col cs;
  m_sum : num_bytes b = zsum (column_sizes b)
}.

Abbreviation mid := (@mid_gen true).

Lemma mid_nonneg {strict} rows i done b : @mid_gen strict rows i done b -> Forall (Z.le 0) (column_sizes b).
Proof.
  intros []. apply Forall_lookup. intros j s Es. pose proof (lookup_lt_Some _ _ _ Es) as Hj.
  destruct (lookup_lt_is_Some_2 (schema b) j) as [ty Ety]; [congruence |].
  destruct (m_col0 j ty Ety) as (col & cs & _ & Ecs & _ & Hc & _). simplify_eq. unfold total. lia.
Qed.

Lemma inserted_frame strict ty i cells c cs st b b' : inserted_gen strict ty i cells c cs st b b' -> same_frame b b'.
Proof. intros (col' & -> & _). done. Qed.

Lemma inserted_bytes strict ty i cells c cs st b b' : inserted_gen strict ty i cells c cs st b b' -> num_bytes b' = num_bytes b + st.
Proof. intros (col' & -> & _). done. Qed.

Lemma mid_step {strict} rows i done b b' ty c cs st :
  @mid_gen strict rows i done b -> schema b !! i = Some ty -> column_sizes b !! i = Some cs ->
  inserted_gen strict ty i (col_cells i rows) c cs st b b' -> @mid_gen strict rows (S i) (done ++ [c]) b'.
Proof.
  intros [] Ety Ecs (col' & -> & HR). pose proof (lookup_lt_Some _ _ _ Ety) as Hi.
  constructor; cbn [columns schema column_sizes num_rows num_bytes set_sizes set_columns]; auto.
  - by rewrite length_insert.
  - by rewrite length_insert.
  - rewrite length_app. cbn. lia.
  - intros j ty' Ej. destruct (decide (j = i)) as [-> | Hne].
    + exists col', (cs + st). rewrite !list_lookup_insert_eq by congruence. simplify_eq.
      rewrite decide_True, nth_middle by lia. done.
    + destruct (m_col0 j ty' Ej) as (col & cs' & E1 & E2 & HR'). exists col, cs'.
      rewrite !list_lookup_insert_ne by done. split_and!; [done | done |].
      destruct (decide (j < i)%nat).
      * rewrite decide_True by lia. by rewrite app_nth1 by lia.
      * by rewrite decide_False by lia.
  - rewrite (zsum_insert _ _ _ _ Ecs). lia.
Qed.

Section Loop.
Context {Arrow : ArrowBuffers}.

(** One column. *)
Lemma column_step rows i done head record bw ty b :
  mid rows i done b -> schema b !! i = Some ty -> width_ok ty bw ->
  0 <= head -> head + Z.max 0 bw <= Z.of_nat (length record) -> Z.of_nat (length record) <= 2 ^ 32 ->
  num_bytes b + stored ty bw < 2 ^ 31 ->
  exists b' record',
    (match ty with
     | StringType | LargeStringType => h ← string_handler i record bw head; mret (h, record)
     | NumberType w | CTypeType w => InsertValue w i head record bw
     | _ => throw LogicError
     end) b = Some (b', inr (head + Z.max 0 bw, record')) /\
    length record' = length record /\
    drop (Z.to_nat (head + Z.max 0 bw)) record' = drop (Z.to_nat (head + Z.max 0 bw)) record /\
    same_frame b b' /\ num_bytes b' = num_bytes b + stored ty bw /\
    mid rows (S i) (done ++ [cell_of ty bw (take (Z.to_nat bw) (drop (Z.to_nat head) record))]) b'.
Proof.
  intros HM Ety Hbw Hh Hl Hr Hb.
  destruct (m_col _ _ _ _ HM i ty Ety) as (col & cs & E1 & E2 & HR).
  rewrite decide_False, app_nil_r in HR by lia.
  pose proof (zsum_elem _ _ _ (mid_nonneg _ _ _ _ HM) E2) as Hcs. rewrite <- (m_sum _ _ _ _ HM) in Hcs.
  assert (num_rows b = Z.of_nat (length (col_cells i rows))) as En
    by (unfold col_cells; rewrite length_fmap; apply (m_rows _ _ _ _ HM)).
  pose proof (proj1 (Forall_lookup _ _) (m_types _ _ _ _ HM) i ty Ety) as Hty.
  pose proof (stored_bound ty bw Hty Hbw) as Hst. change (2 ^ 31) with (2 ^ (32 - 1)) in Hb.
  assert (forall x, x = stored ty bw -> is_s 32 (cs + x) /\ is_s 32 (num_bytes b + x)) as Hs
    by (intros x ->; unfold is_s; lia).
  destruct ty as [w | w | | | w |]; try done; cbn [stored width_ok cell_of] in *.
  - destruct (Hs w eq_refl) as [H1 H2].
    destruct (InsertValue_ok w i head record bw b col cs (col_cells i rows)) as (b' & r' & E & Hlr & Hd & HI);
      try done; [lia |].
    exists b', r'. split_and!; [done | done | done | by eapply inserted_frame | by eapply inserted_bytes |].
    by eapply mid_step.
  - destruct (Hs bw eq_refl) as [H1 H2]. rewrite Z.max_r in * by lia.
    destruct (string_handler_ok i record bw head b col cs (col_cells i rows)) as (b' & E & HI); try done.
    exists b', record. erewrite bind_val by exact E.
    split_and!; [done | done | done | by eapply inserted_frame | by eapply inserted_bytes |].
    by eapply mid_step.
Qed.

Lemma same_frame_trans b1 b2 b3 : same_frame b1 b2 -> same_frame b2 b3 -> same_frame b1 b3.
Proof. intros (?&?&?&?&?&?&?) (?&?&?&?&?&?&?). unfold same_frame. split_and!; congruence. Qed.

Lemma insert_columns_ok rows ws limit : limit < 2 ^ 31 -> forall types i done head record b,
  mid rows i done b -> drop i (schema b) = types -> Forall2 width_ok types (drop i ws) ->
  0 <= head -> head + zsum (pos_width <$> drop i ws) <= Z.of_nat (length record) ->
  Z.of_nat (length record) <= 2 ^ 32 ->
  num_bytes b + zsum (plus17 <$> drop i ws) <= limit ->
  exists b' record', insert_columns types i head record ws b = Some (b', inr record') /\
    same_frame b b' /\ num_bytes b' <= limit /\
    mid rows (i + length types) (done ++ row_of types (drop i ws) (drop (Z.to_nat head) record)) b'.
Proof.
  intros Hlim. induction types as [|ty types IH]; intros i done head record b HM Hd HW Hh Hl Hr Hb.
  { exists b, record. cbn. rewrite app_nil_r, Nat.add_0_r. apply Forall2_nil_inv_l in HW. rewrite HW in Hb. cbn in Hb.
    split_and!; [done | done | lia | done]. }
  destruct (drop i ws) as [|bw ws'] eqn:Ews; [inversion HW |]. apply Forall2_cons in HW as [Hbw HW].
  assert (ws !! i = Some bw) as Ei by (rewrite <- (Nat.add_0_r i), <- lookup_drop, Ews; done).
  assert (schema b !! i = Some ty) as Ety by (rewrite <- (Nat.add_0_r i), <- lookup_drop, Hd; done).
  assert (drop (S i) ws = ws') as Ews' by (rewrite <- Nat.add_1_r, <- drop_drop, Ews; done).
  pose proof (proj1 (Forall_lookup _ _) (m_types _ _ _ _ HM) i ty Ety) as Hty.
  pose proof (stored_bound ty bw Hty Hbw) as Hst. rewrite fmap_cons in Hl, Hb. cbn [zsum] in Hl, Hb. unfold pos_width at 1 in Hl. unfold plus17 at 1 in Hb.
  pose proof (zsum_pos_nonneg ws') as Hz1.
  assert (0 <= zsum (plus17 <$> ws')) as Hz2.
  { clear -HW HM Hd. assert (Forall type_ok types) as HT.
    { pose proof (m_types _ _ _ _ HM) as HT. apply (Forall_drop _ i) in HT. rewrite Hd in HT.
      by apply Forall_cons in HT as [_ ?]. }
    clear HM Hd. induction HW as [|ty0 w0 types0 ws0 Hw HW IH]; [cbn; lia |]. rewrite fmap_cons. cbn [zsum]. unfold plus17 at 1. apply Forall_cons in HT as [Ht HT].
    pose proof (stored_bound _ _ Ht Hw). specialize (IH HT). lia. }
  destruct (column_step rows i done head record bw ty b HM Ety Hbw) as (b1 & r1 & E & Hlr & Hdr & HF & Hnb & HM1);
    try lia.
  destruct (IH (S i) _ (head + Z.max 0 bw) r1 b1 HM1) as (b' & r' & E' & HF' & Hlim' & HM');
    rewrite ?Ews', ?Hlr; try done; try lia.
  { destruct HF as (-> & _). by rewrite <- Nat.add_1_r, <- drop_drop, Hd. }
  exists b', r'. split_and!; [| by eapply same_frame_trans | done |].
  - cbn [insert_columns]. rewrite (bind_defined _ _ _ _ Ei).
    destruct ty as [w | w | | | w |]; try done.
    + by rewrite (bind_val _ _ _ _ _ E).
    + unfold mbind, StM_bind in E |- *. destruct (string_handler i record bw head b) as [[b0 [e | h]]|]; try done.
      injection E as <- -> ->. exact E'.
  - rewrite Ews', Hdr in HM'. cbn [row_of length]. rewrite <- (assoc_L (++)) in HM'. cbn [app] in HM'.
    replace (i + S (length types))%nat with (S i + length types)%nat by lia.
    assert (drop (Z.to_nat (head + Z.max 0 bw)) record = drop (Z.to_nat bw) (drop (Z.to_nat head) record)) as <-; [| done].
    rewrite drop_drop. f_equal. lia.
Qed.

End Loop.

(** ** What a block stores *)

Record block_rep_gen {strict : bool} (b : Block) (rows : list (list (list Z))) : Prop := {
  r_mid : @mid_gen strict rows 0 [] b;
  r_shape : Forall (fun row => length row = length (schema b)) rows;
  r_cols : num_cols b = Z.of_nat (length (schema b));
  r_limit : num_bytes b <= capacity b + 17 * num_cols b < 2 ^ 31;
  r_capacity : 0 <= capacity b;
  r_valid_length : ad_length (valid b) = Z.of_nat (length rows);
  r_valid_room : within (buffer1 (valid b)) (Z.of_nat (length rows));
  r_valid_bytes : Forall is_byte (memory (buffer1 (valid b)));
  r_valid : forall j, (j < length rows)%nat -> get_valid (Z.of_nat j) b = Some true;
  (* only a rebuild after a deletion writes the row ids *)
  r_ids : if strict then row_id_map b = ∅ else True
}.

Abbreviation block_rep := (@block_rep_gen true).

(** Every column has its cell of the new row: the row is complete. *)
Lemma mid_complete {strict} rows row b n : @mid_gen strict rows (length (schema b)) row b -> n = num_rows b + 1 ->
  @mid_gen strict (rows ++ [row]) 0 [] (set_num_rows n b).
Proof.
  intros [] ->. constructor; cbn [columns schema column_sizes num_rows num_bytes set_num_rows]; auto.
  - rewrite length_app. cbn. lia.
  - intros j ty Ej. destruct (m_col0 j ty Ej) as (col & cs & E1 & E2 & HR). exists col, cs.
    rewrite decide_True in HR by (by eapply lookup_lt_Some). rewrite decide_False by lia.
    unfold col_cells in *. rewrite fmap_app, app_nil_r. done.
Qed.

Lemma get_valid_testbit row byte b :
  memory (buffer1 (valid b)) !! Z.to_nat (row / 8) = Some byte -> 0 <= row ->
  get_valid row b = Some (Z.testbit byte (row mod 8)).
Proof.
  intros E Hr. unfold get_valid. rewrite E. cbn [mbind option_bind]. f_equal.
  change 1 with (Z.ones 1) at 1. rewrite Z.land_ones by lia. change (2 ^ 1) with 2.
  rewrite Zmod_odd, Z.testbit_odd. by destruct (Z.odd _).
Qed.

(** Setting or clearing the bit of a row keeps the others. *)
Lemma set_valid_ok row val b :
  0 <= row -> (Z.to_nat (row / 8) < length (memory (buffer1 (valid b))))%nat ->
  Forall is_byte (memory (buffer1 (valid b))) ->
  exists mem, set_valid row val b =
      Some (set_valid_data (mkArrayData (ad_length (valid b)) (mkBuffer (size (buffer1 (valid b))) mem)
                              (buffer2 (valid b))) b, inr tt) /\
    length mem = length (memory (buffer1 (valid b))) /\ Forall is_byte mem /\
    forall r b', 0 <= r -> (Z.to_nat (r / 8) < length mem)%nat -> memory (buffer1 (valid b')) = mem ->
      get_valid r b' = if r =? row then Some val else get_valid r b.
Proof.
  intros Hr Hl HB. destruct (lookup_lt_is_Some_2 _ _ Hl) as [byte Eb].
  pose proof (proj1 (Forall_lookup _ _) HB _ _ Eb) as Hb. cbv beta in Hb.
  set (mask := Z.shiftl 1 (row mod 8)). pose proof (Z.mod_pos_bound row 8 ltac:(lia)) as Hm.
  assert (0 <= mask < 2 ^ 8) as Hmask.
  { unfold mask. rewrite Z.shiftl_1_l. split; [apply Z.pow_nonneg; lia | apply Z.pow_lt_mono_r; lia]. }
  set (byte' := if val then Z.lor byte mask else Z.ldiff byte mask).
  assert (0 <= byte' < 2 ^ 8) as Hb' by (unfold byte'; destruct val; [by apply lor_lt | by apply ldiff_lt]).
  exists (<[Z.to_nat (row / 8) := byte']> (memory (buffer1 (valid b)))).
  split_and!.
  - unfold set_valid. mstep. mstep. fold mask. do 8 f_equal. unfold byte' in *. by destruct val; rewrite (wrapu_id 8) by exact Hb'.
  - by rewrite length_insert.
  - by apply Forall_insert.
  - intros r b' Hr0 Hlr Em. rewrite length_insert in Hlr.
    destruct (decide (Z.to_nat (r / 8) = Z.to_nat (row / 8))) as [Eq | Hne].
    + assert (r / 8 = row / 8) as Eq'.
      { apply Z2Nat.inj in Eq; [done | |]; apply Z.div_pos; lia. }
      rewrite (get_valid_testbit r byte' b'), (get_valid_testbit r byte b) by
        (rewrite ?Em, ?Eq'; (done || by apply list_lookup_insert_eq)).
      pose proof (Z.mod_pos_bound r 8 ltac:(lia)).
      assert (Z.testbit byte' (r mod 8) = if r mod 8 =? row mod 8 then val else Z.testbit byte (r mod 8)) as ->.
      { unfold byte', mask. rewrite (Z.eqb_sym (r mod 8)).
        destruct val; rewrite ?Z.lor_spec, ?Z.ldiff_spec, Z.shiftl_1_l, Z.pow2_bits_eqb by lia; destruct (_ =? _), (Z.testbit byte _); done. }
      destruct (Z.eqb_spec r row) as [-> | Hrr]; [by rewrite Z.eqb_refl |].
      destruct (Z.eqb_spec (r mod 8) (row mod 8)) as [Em8 |]; [| done].
      pose proof (Z.div_mod r 8 ltac:(lia)). pose proof (Z.div_mod row 8 ltac:(lia)). lia.
    + destruct (Z.eqb_spec r row) as [-> | _]; [done |]. unfold get_valid. rewrite Em.
      by rewrite list_lookup_insert_ne by congruence.
Qed.

Lemma sum_widths_ok ws : forall acc, Forall (fun w => -9 <= w) ws ->
  - 2 ^ 31 <= acc - 9 * Z.of_nat (length ws) -> acc + zsum (pos_width <$> ws) < 2 ^ 31 ->
  sum_widths (length ws) ws acc = Some (acc + zsum ws).
Proof.
  induction ws as [|w ws IH]; intros acc HF Hlo Hhi; cbn [sum_widths length zsum]; [f_equal; lia |].
  apply Forall_cons in HF as [Hw HF]. rewrite fmap_cons in Hhi. cbn [zsum length] in Hhi, Hlo. unfold pos_width at 1 in Hhi.
  pose proof (zsum_pos_nonneg ws) as Hz.
  rewrite int_chk_id by (unfold is_s; change (2 ^ (32 - 1)) with (2 ^ 31); lia). cbn [mbind option_bind].
  rewrite IH; [f_equal; lia | done | lia | lia].
Qed.

Definition record_ok (types : list DataType) (ws record : list Z) : Prop :=
  Forall2 width_ok types ws /\ zsum (pos_width <$> ws) <= Z.of_nat (length record) < 2 ^ 31.

Lemma length_row_of types ws : Forall2 width_ok types ws -> forall record, length (row_of types ws record) = length types.
Proof. induction 1 as [|ty w types ws _ _ IH]; intros record; cbn; [done |]. by rewrite IH. Qed.

Lemma widths_low types ws : Forall2 width_ok types ws -> Forall (fun w => -9 <= w) ws.
Proof. induction 1 as [|ty w types ws Hw _ IH]; constructor; [| done]. destruct ty; cbn in Hw; lia. Qed.

Lemma zsum_plus17 ws : zsum (plus17 <$> ws) = zsum ws + 17 * Z.of_nat (length ws).
Proof. induction ws as [|w ws IH]; [done |]. rewrite fmap_cons. cbn [zsum length]. unfold plus17 at 1. lia. Qed.

Section Insert.
Context {Arrow : ArrowBuffers}.

(** The bitmap part of [InsertRecord]. *)
Lemma valid_step b rows {B} (k : unit -> M B) :
  block_rep b rows ->
  exists v, (
    (valid_buffer ← resized (size (buffer1 (valid b)) + 1) false (buffer1 (valid b));
     _ ← modify (set_valid_data (mkArrayData (ad_length (valid b)) valid_buffer (buffer2 (valid b))));
     _ ← set_valid (num_rows b) true;
     _ ← modify (fun b => set_valid_data (mkArrayData (ad_length (valid b) + 1) (buffer1 (valid b)) (buffer2 (valid b))) b);
     k tt) b = k tt (set_valid_data v b)) /\
    ad_length v = Z.of_nat (length rows) + 1 /\ within (buffer1 v) (Z.of_nat (length rows) + 1) /\
    Forall is_byte (memory (buffer1 v)) /\
    forall b' j, valid b' = v -> (j < length rows + 1)%nat -> get_valid (Z.of_nat j) b' = Some true.
Proof.
  intros []. pose proof (m_rows _ _ _ _ r_mid0) as Hn.
  pose proof (within_resize _ _ 1 r_valid_room0 ltac:(lia)) as [H3 H4]. cbn in H3, H4.
  rewrite bind_resized by (destruct r_valid_room0; lia). rewrite bind_modify.
  set (buf := mkBuffer _ _). set (b1 := set_valid_data _ b).
  destruct (set_valid_ok (num_rows b) true b1) as (mem & E & Hl & HB & Hget); [lia | | by apply resize_is_byte |].
  { cbn. apply Nat2Z.inj_lt. rewrite Z2Nat.id by (apply Z.div_pos; lia).
    pose proof (Z.div_le_upper_bound (num_rows b) 8 (num_rows b) ltac:(lia) ltac:(lia)). lia. }
  erewrite bind_val by exact E. rewrite bind_modify. cbn [valid set_valid_data ad_length buffer1 buffer2 b1].
  set (v := mkArrayData _ _ _). exists v. cbn in Hl. split_and!; [done | cbn; lia | | done |].
  - split; cbn; rewrite ?Hl; lia.
  - intros b' j Hv Hj.
    assert (forall r, 0 <= r <= num_rows b -> (Z.to_nat (r / 8) < length mem)%nat) as Hidx.
    { intros r Hr. rewrite Hl. apply Nat2Z.inj_lt. rewrite Z2Nat.id by (apply Z.div_pos; lia).
      pose proof (Z.div_le_upper_bound r 8 r ltac:(lia) ltac:(lia)). lia. }
    rewrite (Hget (Z.of_nat j) b'); [| lia | apply Hidx; lia | by rewrite Hv].
    destruct (Z.eqb_spec (Z.of_nat j) (num_rows b)) as [|Hne]; [done |].
    rewrite <- (r_valid0 j) by lia. unfold get_valid. cbn. rewrite resize_keeps; [done | |].
    + destruct r_valid_room0. apply Nat2Z.inj_lt. rewrite Z2Nat.id by (apply Z.div_pos; lia).
      pose proof (Z.div_le_upper_bound (Z.of_nat j) 8 (Z.of_nat j) ltac:(lia) ltac:(lia)). lia.
    + cbn in Hidx. rewrite <- Hl. apply Hidx. lia.
Qed.

Lemma InsertRecord_ok b rows record ws :
  block_rep b rows -> record_ok (schema b) ws record -> Z.of_nat (length rows) + 1 < 2 ^ 31 ->
  (capacity b - num_bytes b < zsum ws /\ InsertRecord record ws b = Some (b, inr (-1, record))) \/
  (zsum ws <= capacity b - num_bytes b /\ exists b' record',
     InsertRecord record ws b = Some (b', inr (Z.of_nat (length rows), record')) /\
     block_rep b' (rows ++ [row_of (schema b) ws record]) /\ schema b' = schema b /\ capacity b' = capacity b /\
     id b' = id b).
Proof.
  intros HR [HW Hl] Hrows. pose proof HR as []. pose proof (m_rows _ _ _ _ r_mid0) as Hn.
  pose proof (Forall2_length _ _ _ HW) as Hlw. pose proof (widths_low _ _ HW) as Hlow.
  unfold InsertRecord. mstep.
  rewrite (bind_defined _ (zsum ws)).
  2:{ rewrite r_cols0, Nat2Z.id, Hlw. rewrite sum_widths_ok; [done | done | rewrite <- Hlw; lia | lia]. }
  assert (0 <= num_bytes b) as Hnb.
  { rewrite (m_sum _ _ _ _ r_mid0). by apply zsum_nonneg, (mid_nonneg _ _ _ _ r_mid0). }
  rewrite (bind_defined _ (capacity b - num_bytes b)).
  2:{ apply int_chk_id. unfold is_s. change (2 ^ (32 - 1)) with (2 ^ 31). lia. }
  destruct (Z.ltb_spec (capacity b - num_bytes b) (zsum ws)) as [Hlt | Hge]; [by left | right].
  split; [done |].
  match goal with |- context [resized _ _ _ ≫= ?K] =>
    destruct (valid_step b rows (fun _ => record ← insert_columns (schema b) 0 0 record ws;
      b' ← get; n ← defined (int_chk (num_rows b' + 1)); _ ← modify (set_num_rows n); mret (num_rows b', record)) HR)
      as (v & E & Hv1 & Hv2 & Hv3 & Hv4) end.
  cbv beta in E. rewrite E. clear E.
  destruct (insert_columns_ok rows ws (capacity b + 17 * num_cols b) ltac:(lia) (schema b) 0 [] 0 record (set_valid_data v b))
    as (b1 & r1 & E1 & (F1 & F2 & F3 & F4 & F5 & F6 & F7) & Hlim & HM); rewrite ?drop_0; try done; try lia.
  { by destruct r_mid0. }
  { rewrite zsum_plus17, <- Hlw. cbn. lia. }
  erewrite bind_val by exact E1. mstep. cbn in F1, F2, F3, F4, F5, F6, F7.
  rewrite (bind_defined _ (num_rows b1 + 1)) by (apply int_chk_id; unfold is_s; change (2 ^ (32 - 1)) with (2 ^ 31); lia).
  mstep. eexists _, r1. split; [by rewrite F4, Hn |]. split; [| split_and!; [exact F1 | exact F3 | exact F6]].
  rewrite drop_0 in HM. cbn in HM.
  constructor; cbn [schema num_cols num_bytes capacity valid set_num_rows]; rewrite ?F1, ?F2, ?F3, ?F5, ?length_app; cbn [length]; try done.
  - apply mid_complete; [by rewrite F1 | by rewrite F4, ?Hn].
  - apply Forall_app. split; [done |]. apply Forall_singleton. by apply length_row_of.
  - lia.
  - lia.
  - by rewrite Nat2Z.inj_add.
  - intros j Hj. apply Hv4; [done | lia].
  - cbn. by rewrite F7.
Qed.

End Insert.

(** ** Reading a cell *)

(** What Arrow's arrays return for row [i] of a column: the fixed-width cell, or
    the bytes between two offsets. *)
Definition read_column (ty : DataType) (i : Z) (col : ArrayData) : option (list Z) :=
  match ty with
  | NumberType w => peek (w * i) w (memory (buffer1 col))
  | StringType =>
      buf2 ← buffer2 col;
      lo ← get_i32 (4 * i) (memory (buffer1 col));
      hi ← get_i32 (4 * (i + 1)) (memory (buffer1 col));
      peek lo (hi - lo) (memory buf2)
  | _ => None
  end.

Definition read_cell (j : nat) (i : Z) (b : Block) : option (list Z) :=
  ty ← schema b !! j; col ← columns b !! j; read_column ty i col.

Lemma concat_slice (cells : list (list Z)) i c : cells !! i = Some c ->
  take (length c) (drop (length (concat (take i cells))) (concat cells)) = c /\
  (length (concat (take i cells)) + length c <= length (concat cells))%nat /\
  concat (take (S i) cells) = concat (take i cells) ++ c.
Proof.
  intros E. rewrite (take_S_r _ _ _ E), concat_app. cbn [concat]. rewrite app_nil_r.
  assert (concat cells = concat (take i cells) ++ c ++ concat (drop (S i) cells)) as ->.
  { rewrite <- (take_drop_middle _ _ _ E) at 1. rewrite concat_app. done. }
  rewrite drop_app_length, take_app_length, !length_app. split_and!; [done | lia | done].
Qed.

Lemma peek_concat cells i c mem : cells !! i = Some c ->
  take (length (concat cells)) mem = concat cells -> (length (concat cells) <= length mem)%nat ->
  peek (Z.of_nat (length (concat (take i cells)))) (Z.of_nat (length c)) mem = Some c.
Proof.
  intros E Ht Hl. destruct (concat_slice cells i c E) as (H1 & H2 & _).
  unfold peek. rewrite !(proj2 (Z.leb_le _ _)) by lia. cbn [andb]. rewrite !Nat2Z.id. f_equal.
  rewrite <- H1 at 2. rewrite <- Ht. rewrite !take_drop_commute, take_take. by rewrite Nat.min_l by lia.
Qed.

Lemma read_column_ok {strict} ty cells col cs i c : col_repr_gen strict ty cells col cs -> cells !! i = Some c ->
  read_column ty (Z.of_nat i) col = Some c.
Proof.
  intros (Hn & Hc & HR) E. destruct ty; try done; cbn [read_column].
  - destruct HR as (Hw & HF & HW & Ht). apply within_cap in HW. pose proof (total_fixed _ _ HF) as HT. unfold total in HT.
    assert (Z.of_nat (length c) = width) as <- by (by apply (Forall_lookup_1 _ _ _ _ HF E)).
    pose proof (total_fixed (Z.of_nat (length c)) (take i cells) ltac:(by apply Forall_take)) as Hi. unfold total in Hi.
    rewrite length_take, Nat.min_l in Hi by (apply lookup_lt_Some in E; lia).
    rewrite <- Hi. apply (peek_concat cells); [done | done | lia].
  - destruct HR as (buf2 & E2 & HW1 & HW2 & Ht & Ho). apply within_cap in HW1, HW2. rewrite E2. cbn [mbind option_bind].
    pose proof (lookup_lt_Some _ _ _ E) as Hi. rewrite (Ho i) by lia. cbn [mbind option_bind].
    replace (Z.of_nat i + 1) with (Z.of_nat (S i)) by lia. rewrite (Ho (S i)) by lia. cbn [mbind option_bind].
    unfold total in *. destruct (concat_slice cells i c E) as (_ & _ & ->). rewrite length_app.
    replace (Z.of_nat (length (concat (take i cells)) + length c) - Z.of_nat (length (concat (take i cells))))
      with (Z.of_nat (length c)) by lia.
    apply (peek_concat cells); [done | done | lia].
Qed.

Lemma read_cell_ok {strict} b rows i j row c : @block_rep_gen strict b rows -> rows !! i = Some row -> row !! j = Some c ->
  read_cell j (Z.of_nat i) b = Some c.
Proof.
  intros [] Ei Ej. unfold read_cell.
  pose proof (Forall_lookup_1 _ _ _ _ r_shape0 Ei) as Hl. cbn in Hl.
  destruct (lookup_lt_is_Some_2 (schema b) j) as [ty Ety]; [rewrite <- Hl; by eapply lookup_lt_Some |].
  destruct (m_col _ _ _ _ r_mid0 j ty Ety) as (col & cs & E1 & E2 & HR). rewrite decide_False, app_nil_r in HR by lia.
  rewrite Ety. cbn [mbind option_bind]. rewrite E1. cbn [mbind option_bind].
  eapply read_column_ok; [exact HR |]. unfold col_cells. rewrite list_lookup_fmap, Ei. cbn.
  by rewrite (nth_lookup_Some _ _ _ _ Ej).
Qed.

(** ** The bytes a block accounts for *)

Definition rows_bytes (rows : list (list (list Z))) : Z := zsum (total <$> rows).

Lemma zsum_fmap_add (f g : nat -> Z) l : zsum ((fun j => f j + g j) <$> l) = zsum (f <$> l) + zsum (g <$> l).
Proof. induction l as [|x l IH]; [done |]. rewrite !fmap_cons. cbn [zsum]. lia. Qed.

Lemma zsum_row (row : list (list Z)) :
  zsum ((fun j => Z.of_nat (length (nth j row []))) <$> seq 0 (length row)) = total row.
Proof.
  induction row as [|c row IH] using rev_ind; [done |].
  rewrite total_snoc, length_app, Nat.add_1_r, seq_S, fmap_app, zsum_app, <- IH. cbn. rewrite nth_middle.
  rewrite Z.add_0_r. f_equal. f_equal. apply list_fmap_ext. intros k j Ej. apply lookup_seq in Ej as [-> Hj].
  by rewrite app_nth1.
Qed.

Lemma column_totals rows n : Forall (fun row => length row = n) rows ->
  zsum ((fun j => total (col_cells j rows)) <$> seq 0 n) = rows_bytes rows.
Proof.
  induction rows as [|row rows IH] using rev_ind; intros HF.
  - change (zsum ((fun _ : nat => 0) <$> seq 0 n) = 0). generalize (seq 0 n) as l.
    induction l as [|x l IH]; [done |]. rewrite fmap_cons. cbn [zsum]. lia.
  - apply Forall_app in HF as [HF Hrow]. apply Forall_cons in Hrow as [Hrow _].
    unfold rows_bytes. rewrite fmap_app, zsum_app. fold (rows_bytes rows). rewrite <- (IH HF).
    change (zsum (total <$> [row])) with (total row + 0). rewrite Z.add_0_r.
    rewrite <- (zsum_row row). rewrite Hrow.
    match goal with |- _ = zsum (?f <$> _) + zsum (?g <$> _) => rewrite <- (zsum_fmap_add f g) end. f_equal. apply list_fmap_ext. intros k j _.
    assert (col_cells j (rows ++ [row]) = col_cells j rows ++ [nth j row []]) as -> by (unfold col_cells; by rewrite fmap_app).
    apply total_snoc.
Qed.

Lemma rep_bytes {strict} b rows : @block_rep_gen strict b rows -> num_bytes b = rows_bytes rows.
Proof.
  intros []. rewrite <- (column_totals rows (length (schema b))) by done. rewrite (m_sum _ _ _ _ r_mid0). f_equal.
  apply list_eq_same_length with (length (schema b)); [by rewrite length_fmap, length_seq | apply r_mid0 |].
  intros j x y Hj Ex Ey. apply list_lookup_fmap_Some in Ey as (j' & -> & Ej'). apply lookup_seq in Ej' as [-> _].
  destruct (lookup_lt_is_Some_2 (schema b) j) as [ty Ety]; [lia |].
  destruct (m_col _ _ _ _ r_mid0 j ty Ety) as (col & cs & E1 & E2 & _ & Hc & _).
  rewrite decide_False, app_nil_r in Hc by lia. simplify_eq. done.
Qed.

(** ** The constructor *)

(** The estimate [fixed_record_width + ESTIMATED_STR_LEN * num_string_cols]. *)
Fixpoint est_width (types : list DataType) : Z :=
  match types with
  | [] => 0
  | NumberType w :: types' => w + est_width types'
  | _ :: types' => ESTIMATED_STR_LEN + est_width types'
  end.

Fixpoint fixed_width (types : list DataType) : Z :=
  match types with
  | [] => 0
  | NumberType w :: types' => w + fixed_width types'
  | _ :: types' => fixed_width types'
  end.

Lemma est_width_split types : Forall type_ok types ->
  est_width types = fixed_width types + ESTIMATED_STR_LEN * Z.of_nat (length (filter is_string types)) /\
  0 <= fixed_width types <= 8 * Z.of_nat (length types) /\
  Z.of_nat (length (filter is_string types)) <= Z.of_nat (length types) /\ Z.of_nat (length types) <= est_width types.
Proof.
  unfold ESTIMATED_STR_LEN. induction 1 as [|ty types Ht HF IH]; [done |].
  destruct ty; cbn in Ht; try done; rewrite filter_cons; case_decide as Hd; try done; cbn [length est_width fixed_width];
    unfold ESTIMATED_STR_LEN; lia || (exfalso; by apply Hd).
Qed.

Section Construct.
Context {Arrow : ArrowBuffers}.

Lemma fixed_record_width_ok types : forall acc, Forall type_ok types ->
  0 <= acc -> acc + 8 * Z.of_nat (length types) < 2 ^ 31 ->
  compute_fixed_record_width types acc = Some (inr (acc + fixed_width types)).
Proof.
  induction types as [|ty types IH]; intros acc HF Ha Hb; [cbn; do 2 f_equal; lia |].
  apply Forall_cons in HF as [Ht HF]. cbn [length] in Hb.
  destruct ty; cbn in Ht; try done; cbn [compute_fixed_record_width fixed_width].
  - rewrite int_chk_id by (unfold is_s; change (2 ^ (32 - 1)) with (2 ^ 31); lia). cbn [mbind option_bind].
    rewrite IH by (done || lia). do 2 f_equal. lia.
  - by rewrite IH by (done || lia).
Qed.

Lemma field_sizes_ok types : Forall type_ok types -> exists sizes, get_field_sizes types = inr sizes.
Proof.
  induction 1 as [|ty types Ht HF [sizes IH]]; [by eexists |]. cbn. rewrite IH. destruct ty; try done; by eexists.
Qed.

Lemma alloc_ok n : 0 <= n -> AllocateResizableBuffer n = inr (mkBuffer n (resize_bytes n false [])).
Proof. intros. unfold AllocateResizableBuffer, Resize. by rewrite (proj2 (Z.ltb_ge _ _)). Qed.

Lemma padded_within n used : 0 <= used <= n -> within (ZeroPadding (mkBuffer n (resize_bytes n false []))) used.
Proof.
  intros H. pose proof (resize_capacity n false []). split; cbn; [lia |].
  rewrite length_app, length_take, length_replicate. lia.
Qed.

Lemma allocate_ok init_rows ty : type_ok ty -> 1 <= init_rows ->
  exists col, get_allocate_buffer init_rows ty = Some (inr col) /\ col_repr ty [] col 0.
Proof.
  intros Ht Hi. destruct ty; cbn in Ht; try done; cbn [get_allocate_buffer].
  - unfold AllocateColumnData. rewrite alloc_ok by lia. eexists. split; [reflexivity |].
    split_and!; [done | done | lia | constructor | apply padded_within; cbn; lia | done].
  - rewrite alloc_ok, alloc_ok by (unfold ESTIMATED_STR_LEN; lia). cbn [memory size].
    pose proof (resize_capacity (4 * init_rows) false []) as Hc.
    destruct (poke_ok 0 (le_bytes 4 0) (resize_bytes (4 * init_rows) false [])) as (mem & E & Hl & Ht');
      [lia | rewrite length_le_bytes; lia |]. rewrite length_le_bytes in Ht'.
    rewrite E. cbn [mbind option_bind]. eexists. split; [reflexivity |]. split_and!; [done | done |].
    eexists. split_and!; [reflexivity | split; cbn; lia | apply padded_within; unfold total, ESTIMATED_STR_LEN; cbn; lia | done |].
    intros [|j] Hj; [| cbn in Hj; lia]. cbn [buffer1 memory take].
    apply (get_i32_poke 0 0 (resize_bytes (4 * init_rows) false [])); [lia | unfold is_s; lia | done | lia | exact Ht'].
Qed.

Lemma allocate_columns_ok init_rows types : Forall type_ok types -> 1 <= init_rows ->
  exists cols, allocate_columns init_rows types = Some (inr cols) /\ length cols = length types /\
    forall j ty, types !! j = Some ty -> exists col, cols !! j = Some col /\ col_repr ty [] col 0.
Proof.
  intros HF Hi. induction HF as [|ty types Ht HF (cols & E & Hl & HC)]; [by exists [] |].
  destruct (allocate_ok init_rows ty Ht Hi) as (col & Ec & HR). exists (col :: cols). cbn [allocate_columns].
  rewrite Ec. cbn [mbind option_bind]. rewrite E. cbn [mbind option_bind]. split_and!; [done | cbn; by rewrite Hl |].
  intros [|j] ty' Ej; cbn in Ej |- *; [simplify_eq; eauto | eauto].
Qed.

Lemma newBlock_ok block_id types cap meta :
  Forall type_ok types -> types <> [] -> est_width types <= cap -> cap + 38 * Z.of_nat (length types) < 2 ^ 31 ->
  exists b, newBlock block_id types cap meta = Some (inr b) /\ block_rep b [] /\ schema b = types /\ capacity b = cap /\
    id b = block_id.
Proof.
  intros HF Hne He Hcap. destruct (est_width_split types HF) as (H1 & H2 & H3 & H4).
  assert (0 < Z.of_nat (length types)) as Hlen by (destruct types; [done | cbn; lia]).
  unfold newBlock. rewrite fixed_record_width_ok by (done || lia). cbn [mbind option_bind].
  destruct (field_sizes_ok types HF) as [sizes ->]. rewrite Z.add_0_l, <- H1.
  rewrite int_chk_id by (unfold is_s; change (2 ^ (32 - 1)) with (2 ^ 31); lia). cbn [mbind option_bind].
  rewrite (proj2 (Z.eqb_neq _ _)) by lia. rewrite alloc_ok by lia.
  assert (1 <= Z.quot cap (est_width types)) as Hq.
  { rewrite Z.quot_div_nonneg by lia. apply Z.div_le_lower_bound; lia. }
  destruct (allocate_columns_ok _ _ HF Hq) as (cols & -> & Hl & HC). cbn [mbind option_bind].
  eexists. split; [reflexivity |]. split_and!; [| done | done | done].
  constructor; cbn; try lia; try done.
  - constructor; cbn; try done.
    + by rewrite length_replicate.
    + intros j ty Ej. destruct (HC j ty Ej) as (col & E1 & HR). exists col, 0.
      split_and!; [done | | done]. apply lookup_replicate. split; [done |]. by eapply lookup_lt_Some.
    + clear. induction (length types) as [|k IH]; [done |]. cbn. exact IH.
  - split; cbn; [lia |]. pose proof (resize_capacity 0 false []). lia.
  - apply resize_is_byte. constructor.
Qed.

(** ** Sequences of insertions *)

(** [None] if some insertion throws. *)
Fixpoint insert_records (recs : list (list Z * list Z)) (b : Block) : option (Block * list Z) :=
  match recs with
  | [] => Some (b, [])
  | (record, ws) :: recs' =>
      r ← InsertRecord record ws b;
      match r with
      | (b', inr (code, _)) => '(b'', codes) ← insert_records recs' b'; Some (b'', code :: codes)
      | (_, inl _) => None
      end
  end.

End Construct.

(** The abstract block: the list of its rows.  A record is refused when its
    width in the log exceeds what is left of the capacity. *)
Fixpoint spec_insert_records (types : list DataType) (cap : Z) (recs : list (list Z * list Z)) (rows : list (list (list Z)))
    : list (list (list Z)) * list Z :=
  match recs with
  | [] => (rows, [])
  | (record, ws) :: recs' =>
      if cap - rows_bytes rows <? zsum ws then
        let '(rows', codes) := spec_insert_records types cap recs' rows in (rows', -1 :: codes)
      else
        let '(rows', codes) := spec_insert_records types cap recs' (rows ++ [row_of types ws record]) in
        (rows', Z.of_nat (length rows) :: codes)
  end.

Lemma insert_records_ok `{ArrowBuffers} recs : forall b rows,
  block_rep b rows -> Forall (fun rw => record_ok (schema b) (snd rw) (fst rw)) recs ->
  Z.of_nat (length rows) + Z.of_nat (length recs) < 2 ^ 31 ->
  exists b' rows' codes, insert_records recs b = Some (b', codes) /\
    spec_insert_records (schema b) (capacity b) recs rows = (rows', codes) /\ block_rep b' rows' /\
    schema b' = schema b /\ capacity b' = capacity b.
Proof.
  induction recs as [|[record ws] recs IH]; intros b rows HR HF Hn.
  { exists b, rows, []. done. }
  apply Forall_cons in HF as [Hok HF]. cbn [fst snd] in Hok. cbn [length] in Hn. cbn [insert_records spec_insert_records].
  rewrite <- (rep_bytes b rows HR).
  destruct (InsertRecord_ok b rows record ws HR Hok) as [[Hlt E] | (Hge & b1 & r1 & E & HR1 & Es & Ec & _)]; [lia | |];
    rewrite E; cbn [mbind option_bind].
  - rewrite (proj2 (Z.ltb_lt _ _)) by lia.
    destruct (IH b rows HR HF) as (b' & rows' & codes & -> & -> & ?); [lia |].
    exists b', rows', (-1 :: codes). done.
  - rewrite (proj2 (Z.ltb_ge _ _)) by lia.
    destruct (IH b1 _ HR1) as (b' & rows' & codes & -> & E2 & HR' & Es' & Ec'); [by rewrite Es | rewrite length_app; cbn; lia |].
    rewrite Es, Ec in E2. rewrite E2. exists b', rows', (Z.of_nat (length rows) :: codes).
    split_and!; [done | done | done | congruence | congruence].
Qed.

Lemma block_run_ok `{ArrowBuffers} (block_id cap : Z) (types : list DataType) (recs : list (list Z * list Z)) :
  Forall type_ok types -> types <> [] -> est_width types <= cap -> cap + 38 * Z.of_nat (length types) < 2 ^ 31 ->
  Forall (fun rw => record_ok types (snd rw) (fst rw)) recs -> Z.of_nat (length recs) < 2 ^ 31 ->
  exists b b' rows codes, newBlock block_id types cap false = Some (inr b) /\ insert_records recs b = Some (b', codes) /\
    spec_insert_records types cap recs [] = (rows, codes) /\
    num_rows b' = Z.of_nat (length rows) /\ num_bytes b' = rows_bytes rows /\
    num_bytes b' <= cap + 17 * Z.of_nat (length types) /\
    (forall i, (i < length rows)%nat -> get_valid (Z.of_nat i) b' = Some true) /\
    (forall i j row c, rows !! i = Some row -> row !! j = Some c -> read_cell j (Z.of_nat i) b' = Some c).
Proof.
  intros HT Hne He Hcap HF Hn.
  destruct (newBlock_ok block_id types cap false HT Hne He Hcap) as (b & E & HR & Es & Ec & _).
  destruct (insert_records_ok recs b [] HR) as (b' & rows & codes & E1 & E2 & HR' & Es' & Ec'); [by rewrite Es | cbn; lia |].
  rewrite Es, Ec in E2. exists b, b', rows, codes. split_and!; try done.
  - apply (m_rows _ _ _ _ (r_mid _ _ HR')).
  - apply (rep_bytes _ _ HR').
  - destruct (r_limit _ _ HR') as [Hl _]. rewrite (r_cols _ _ HR'), Es', Ec', Es, Ec in Hl. done.
  - apply (r_valid _ _ HR').
  - intros i j row c. apply (read_cell_ok _ _ _ _ _ _ HR').
Qed.

End BlockProof.

Import BlockProof.

(** C4: a block refines a list of rows.  Whatever Arrow's buffers contain when
    they are handed out, a fresh block into which SQLite records are inserted
    stays inside its buffers, returns the row number of every accepted record
    and -1 for a record wider than what is left of the capacity (leaving the
    block alone), and afterwards every cell of every accepted row reads back
    and its valid bit is set; the bytes stored exceed the capacity by at most 17
    per column. *)
Theorem block_refines_rows `{ArrowBuffers} (block_id cap : Z) (types : list DataType) (recs : list (list Z * list Z)) :
  Forall type_ok types -> types <> [] -> est_width types <= cap -> cap + 38 * Z.of_nat (length types) < 2 ^ 31 ->
  Forall (fun rw => record_ok types (snd rw) (fst rw)) recs -> Z.of_nat (length recs) < 2 ^ 31 ->
  exists b b' rows codes, newBlock block_id types cap false = Some (inr b) /\ insert_records recs b = Some (b', codes) /\
    spec_insert_records types cap recs [] = (rows, codes) /\
    num_rows b' = Z.of_nat (length rows) /\ num_bytes b' = rows_bytes rows /\
    num_bytes b' <= cap + 17 * Z.of_nat (length types) /\
    (forall i, (i < length rows)%nat -> get_valid (Z.of_nat i) b' = Some true) /\
    (forall i j row c, rows !! i = Some row -> row !! j = Some c -> read_cell j (Z.of_nat i) b' = Some c).
Proof. apply block_run_ok. Qed.

Lemma block_refines_rows_witness :
  let types := [NumberType 8; StringType] in
  let recs := [([1; 2; 65; 66], [2; 2]); ([67], [-9; 1]); (replicate 60 68, [1; 59])] in
  exists b b' codes, newBlock 0 types 50 false = Some (inr b) /\ insert_records recs b = Some (b', codes) /\
    codes = [0; 1; -1] /\ read_cell 0 0 b' = Some [2; 1; 0; 0; 0; 0; 0; 0] /\ read_cell 1 1 b' = Some [67].
Proof.
  destruct (block_refines_rows 0 50 [NumberType 8; StringType]
    [([1; 2; 65; 66], [2; 2]); ([67], [-9; 1]); (replicate 60 68, [1; 59])])
    as (b & b' & rows & codes & E1 & E2 & E3 & _ & _ & _ & _ & HC).
  - repeat (apply Forall_cons_2; [cbn; (lia || done) |]); constructor.
  - done.
  - vm_compute. done.
  - vm_compute. done.
  - repeat (apply Forall_cons_2; [split; [repeat (apply Forall2_cons_2; [cbn; lia |]); constructor | vm_compute; split; [intros [=] | reflexivity]] |]);
      constructor.
  - vm_compute. done.
  - assert (spec_insert_records [NumberType 8; StringType] 50
      [([1; 2; 65; 66], [2; 2]); ([67], [-9; 1]); (replicate 60 68, [1; 59])] [] =
      ([[[2; 1; 0; 0; 0; 0; 0; 0]; [65; 66]]; [[1; 0; 0; 0; 0; 0; 0; 0]; [67]]], [0; 1; -1])) as Es by (vm_compute; reflexivity).
    rewrite Es in E3. injection E3 as <- <-. exists b, b', [0; 1; -1]. split_and!; [done | done | done | |].
    + apply (HC 0%nat 0%nat [[2; 1; 0; 0; 0; 0; 0; 0]; [65; 66]]); reflexivity.
    + apply (HC 1%nat 1%nat [[1; 0; 0; 0; 0; 0; 0; 0]; [67]]); reflexivity.
Defined.

(** ** Integers *)

Lemma le_unsigned_app l k : le_unsigned (l ++ k) = le_unsigned l + 256 ^ Z.of_nat (length l) * le_unsigned k.
Proof.
  induction l as [|b l IH]; [cbn; lia |]. cbn [app le_unsigned length].
  rewrite IH, Nat2Z.inj_succ, Z.pow_succ_r by lia. lia.
Qed.

Lemma le_unsigned_zeros n : le_unsigned (replicate n 0) = 0.
Proof. induction n as [|n IH]; [done |]. cbn [replicate le_unsigned]. lia. Qed.

Lemma le_unsigned_rev bs : le_unsigned (rev bs) = be_unsigned bs.
Proof.
  unfold be_unsigned. induction bs as [|b bs IH] using rev_ind; [done |].
  rewrite rev_app_distr, foldl_app, <- IH. cbn. lia.
Qed.

Lemma le_unsigned_bound bs : Forall is_byte bs -> 0 <= le_unsigned bs < 256 ^ Z.of_nat (length bs).
Proof.
  induction 1 as [|b bs Hb HF IH]; [done |]. cbn [le_unsigned length]. rewrite Nat2Z.inj_succ, Z.pow_succ_r by lia.
  unfold is_u in Hb. change (2 ^ 8) with 256 in Hb. lia.
Qed.

Lemma wraps_eq_iff w u : 0 <= w -> 0 <= u < 2 ^ w -> (u = wraps w u <-> 0 <= wraps w u).
Proof.
  intros Hw Hu. destruct (decide (w = 0)) as [-> | Hne].
  { change (2 ^ 0) with 1 in Hu. assert (u = 0) as -> by lia. done. }
  unfold wraps. assert (2 ^ w = 2 * 2 ^ (w - 1)) as E by (rewrite <- Z.pow_succ_r by lia; f_equal; lia).
  assert (0 < 2 ^ (w - 1)) by (apply Z.pow_pos_nonneg; lia).
  destruct (Z.lt_ge_cases u (2 ^ (w - 1))).
  - rewrite Z.mod_small by lia. lia.
  - assert ((u + 2 ^ (w - 1)) mod 2 ^ w = u - 2 ^ (w - 1)) as -> by (symmetry; apply Z.mod_unique with 1; lia). lia.
Qed.

(** The cell of a value shorter than, or as long as, the column. *)
Lemma number_cell_short bs : Forall is_byte bs -> (length bs < 8)%nat ->
  le_signed (number_cell 8 (Z.of_nat (length bs)) bs) = be_unsigned bs /\
  (be_unsigned bs = be_signed bs <-> 0 <= be_signed bs).
Proof.
  intros HB Hlt. set (n := Z.of_nat (length bs)).
  pose proof (le_unsigned_bound (rev bs) ltac:(by apply Forall_rev)) as Hu. rewrite length_rev, le_unsigned_rev in Hu.
  assert (256 ^ Z.of_nat (length bs) = 2 ^ (8 * n)) as E256 by (change 256 with (2 ^ 8); rewrite <- Z.pow_mul_r by lia; done).
  rewrite E256 in Hu. split; [| unfold be_signed; apply wraps_eq_iff; [lia | exact Hu]].
  unfold number_cell. rewrite (proj2 (Z.leb_gt _ _)), (proj2 (Z.ltb_ge _ _)) by lia.
  unfold le_signed. rewrite le_unsigned_app, le_unsigned_zeros, le_unsigned_rev, Z.mul_0_r, Z.add_0_r.
  rewrite length_app, length_rev, length_replicate.
  replace (8 * Z.of_nat (length bs + Z.to_nat (8 - n))) with 64 by lia. apply wraps_id; [lia |].
  assert (2 ^ (8 * n) <= 2 ^ 56) by (apply Z.pow_le_mono_r; lia). unfold is_s. lia.
Qed.

Lemma number_cell_full bs : length bs = 8%nat -> le_signed (number_cell 8 8 bs) = be_signed (rev bs).
Proof.
  intros H8. unfold number_cell, le_signed, be_signed.
  rewrite Z.leb_refl, <- le_unsigned_rev, rev_involutive, length_rev. done.
Qed.

(** A fresh block with one 64-bit column stores the value [bs], whose width in
    the log is [w]: the column then returns [v]. *)
Definition reads_back `{ArrowBuffers} (w : Z) (bs : list Z) (v : Z) : Prop :=
  exists b b' cell, newBlock 0 [NumberType 8] 64 false = Some (inr b) /\
    insert_records [(bs, [w])] b = Some (b', [0]) /\ read_cell 0 0 b' = Some cell /\ le_signed cell = v.

Lemma reads_back_cell `{ArrowBuffers} w bs v : -9 <= w <= 8 -> Z.of_nat (length bs) = pos_width w ->
  le_signed (number_cell 8 w bs) = v -> reads_back w bs v.
Proof.
  intros Hw Hl Hv. unfold pos_width in Hl.
  destruct (block_run_ok 0 64 [NumberType 8] [(bs, [w])]) as (b & b' & rows & codes & E1 & E2 & E3 & _ & _ & _ & _ & HC).
  - apply Forall_cons_2; [cbn; lia | constructor].
  - done.
  - vm_compute. done.
  - vm_compute. done.
  - apply Forall_cons_2; [| constructor]. split; [apply Forall2_cons_2; [cbn; lia | constructor] |].
    cbn. unfold pos_width. lia.
  - done.
  - cbn [spec_insert_records] in E3. rewrite (proj2 (Z.ltb_ge _ _)) in E3 by (cbn; lia). injection E3 as <- <-.
    exists b, b', (number_cell 8 w bs). split_and!; [done | exact E2 | | done].
    apply (HC 0%nat 0%nat [number_cell 8 w bs]); [| done]. cbn. rewrite take_ge by lia. done.
Qed.

(** The 64-bit integer a number column returns for a value of the log.  A
    value of fewer than eight bytes is read as unsigned: it comes back right
    exactly when it is not negative.  A value of eight bytes comes back with
    its bytes reversed.  The constants 0 and 1 come back right. *)
Theorem block_integer_values `{ArrowBuffers} (bs : list Z) :
  Forall is_byte bs -> (length bs <= 8)%nat ->
  ((length bs < 8)%nat -> reads_back (Z.of_nat (length bs)) bs (be_unsigned bs) /\
     (be_unsigned bs = be_signed bs <-> 0 <= be_signed bs)) /\
  (length bs = 8%nat -> reads_back 8 bs (be_signed (rev bs))) /\
  reads_back (- Log.ZERO_TYPE_ENCODING) [] 0 /\ reads_back (- Log.ONE_TYPE_ENCODING) [] 1.
Proof.
  intros HB Hl. split_and!.
  - intros Hlt. destruct (number_cell_short bs HB Hlt) as [E Hiff].
    split; [| exact Hiff]. apply reads_back_cell; [lia | unfold pos_width; lia | done].
  - intros H8. apply reads_back_cell; [lia | unfold pos_width; lia | by apply number_cell_full].
  - apply reads_back_cell; vm_compute; done.
  - apply reads_back_cell; vm_compute; done.
Qed.

Lemma block_integer_values_witness :
  reads_back 1 [255] 255 /\ be_signed [255] = -1 /\
  reads_back 8 [0; 0; 0; 0; 0; 0; 0; 1] (2 ^ 56).
Proof.
  destruct (block_integer_values [255]) as [H1 _]; [repeat constructor; cbn; lia | cbn; lia |].
  destruct (block_integer_values [0; 0; 0; 0; 0; 0; 0; 1]) as (_ & H2 & _); [repeat constructor; cbn; lia | cbn; lia |].
  split; [exact (proj1 (H1 ltac:(cbn; lia))) |]. split; [vm_compute; reflexivity |]. exact (H2 eq_refl).
Defined.
