(* ===== verification/Table.v ===== *)
(** * Tables (storage/table.h, storage/table.cc)

    A table is a sequence of blocks ([Block.v]).  Rows enter the block the
    insert pool hands out, or a new one; [block_map] remembers for every SQLite
    row id the block and the row number.  Blocks are shared pointers held by
    [blocks] and by [insert_pool]: both hold addresses into a store of blocks.
    Which element [insert_pool.begin()] points to is left open. *)

From Stdlib Require Import ZArith Lia.
From stdpp Require Import base numbers list gmap option.
Import stdpp.list_basics.list stdpp.list_relations.list stdpp.list_monad.list.
From S2P Require Import Prelude RecordUtils MemLog BitUtils Block.
Import Blocks BlockProof.

Local Open Scope Z_scope.

(** [begin()] of an unordered map: some element, if there is one. *)
Class MapBegin := {
  map_begin : gmap Z nat -> option (Z * nat);
  map_begin_spec : forall m, match map_begin m with None => m = ∅ | Some (k, a) => m !! k = Some a end
}.

Module Tables.

Record BlockInfo := mkBlockInfo { block_id : Z; row_num : Z }.

Record DBTable := mkDBTable {
  t_metadata_enabled : bool;
  t_schema : list DataType;
  block_capacity : Z;
  block_map : gmap Z BlockInfo;
  blocks : gmap Z nat;
  insert_pool : gmap Z nat;
  block_counter : Z;
  t_fixed_record_width : Z;
  t_num_rows : Z;
  t_num_cols : Z;
  block_row_offsets : list Z;
  heap : list Block
}.

Definition set_block_map (m : gmap Z BlockInfo) (t : DBTable) : DBTable :=
  mkDBTable (t_metadata_enabled t) (t_schema t) (block_capacity t) m (blocks t) (insert_pool t) (block_counter t)
    (t_fixed_record_width t) (t_num_rows t) (t_num_cols t) (block_row_offsets t) (heap t).

Definition set_pool (m : gmap Z nat) (t : DBTable) : DBTable :=
  mkDBTable (t_metadata_enabled t) (t_schema t) (block_capacity t) (block_map t) (blocks t) m (block_counter t)
    (t_fixed_record_width t) (t_num_rows t) (t_num_cols t) (block_row_offsets t) (heap t).

Definition set_heap (h : list Block) (t : DBTable) : DBTable :=
  mkDBTable (t_metadata_enabled t) (t_schema t) (block_capacity t) (block_map t) (blocks t) (insert_pool t)
    (block_counter t) (t_fixed_record_width t) (t_num_rows t) (t_num_cols t) (block_row_offsets t) h.

Definition set_count (n : Z) (t : DBTable) : DBTable :=
  mkDBTable (t_metadata_enabled t) (t_schema t) (block_capacity t) (block_map t) (blocks t) (insert_pool t)
    (block_counter t) (t_fixed_record_width t) n (t_num_cols t) (block_row_offsets t) (heap t).

Definition set_offsets (offs : list Z) (t : DBTable) : DBTable :=
  mkDBTable (t_metadata_enabled t) (t_schema t) (block_capacity t) (block_map t) (blocks t) (insert_pool t)
    (block_counter t) (t_fixed_record_width t) (t_num_rows t) (t_num_cols t) offs (heap t).

(** [v\[i\] = x] on a vector. *)
Definition vec_write (i : nat) (x : Z) (v : list Z) : option (list Z) :=
  if (i <? length v)%nat then Some (<[i := x]> v) else None.

(** A block joins the table under the next identifier; [off] goes to
    [block_row_offsets]. *)
Definition attach (a : nat) (counter off : Z) (t : DBTable) : DBTable :=
  mkDBTable (t_metadata_enabled t) (t_schema t) (block_capacity t) (block_map t)
    (match blocks t !! block_counter t with
     | Some _ => blocks t
     | None => <[block_counter t := a]> (blocks t)
     end)
    (insert_pool t) counter (t_fixed_record_width t) (t_num_rows t) (t_num_cols t)
    (block_row_offsets t ++ [off]) (heap t).

Abbreviation T := (StM DBTable).

Section WithArrow.
Context {Arrow : ArrowBuffers} {Begin : MapBegin}.

(** [DBTable(name, schema, block_capacity, enable_metadata)] *)
Definition newDBTable (types : list DataType) (cap : Z) (enable_metadata : bool) : option (exn + DBTable) :=
  w ← compute_fixed_record_width types 0;
  match w with
  | inl e => Some (inl e)
  | inr width =>
      Some (inr (mkDBTable enable_metadata types cap ∅ ∅ ∅ 0 width 0 (Z.of_nat (length types)) [] []))
  end.

(** A method of the block at address [a]. *)
Definition on_block {A} (a : nat) (m : StM Block A) : T A := fun t =>
  b ← heap t !! a;
  '(b', r) ← m b;
  Some (set_heap (<[a := b']> (heap t)) t, r).

Definition the_block (a : nat) : T Block := t ← get; defined (heap t !! a).

(** [block_id = block_counter++; ... blocks.emplace(block_id, block);
    block_row_offsets.push_back(num_rows);] *)
Definition CreateBlock : T nat :=
  t ← get;
  counter ← defined (int_chk (block_counter t + 1));
  r ← defined (newBlock (block_counter t) (t_schema t) (block_capacity t) (t_metadata_enabled t));
  b ← or_throw r;
  let a := length (heap t) in
  _ ← modify (fun t => attach a counter (t_num_rows t) (set_heap (heap t ++ [b]) t));
  mret a.

Definition get_block (id : Z) : T nat :=
  t ← get;
  match blocks t !! id with Some a => mret a | None => throw OutOfRange end.

Definition GetBlockForInsert : T nat :=
  t ← get;
  match map_begin (insert_pool t) with
  | None => CreateBlock
  | Some (k, a) => _ ← modify (set_pool (delete k (insert_pool t))); mret a
  end.

Definition bytes_left_of (a : nat) : T Z := b ← the_block a; defined (get_bytes_left b).

(** [assert]ed: only blocks with room are marked. *)
Definition MarkBlockForInsert (a : nat) : T unit :=
  left ← bytes_left_of a;
  t ← get;
  if left <=? t_fixed_record_width t then defined None else
  b ← the_block a;
  modify (fun t => set_pool (<[id b := a]> (insert_pool t)) t).

(** [insert_pool\[block->get_id()\] = block], when there is room. *)
Definition return_to_pool (a : nat) : T unit :=
  left ← bytes_left_of a;
  t ← get;
  if t_fixed_record_width t <? left then
    b ← the_block a;
    modify (fun t => set_pool (<[id b := a]> (insert_pool t)) t)
  else mret tt.

Fixpoint get_record_size (types : list DataType) (byte_widths : list Z) (record_size : Z) : option (exn + Z) :=
  match types with
  | [] => Some (inr record_size)
  | ty :: types' =>
      match ty with
      | NumberType _ | CTypeType _ =>
          record_size ← int_chk (record_size + 8);
          get_record_size types' (tail byte_widths) record_size
      | StringType =>
          w ← head byte_widths;
          record_size ← int_chk (record_size + w);
          get_record_size types' (tail byte_widths) record_size
      | _ => Some (inl LogicError)
      end
  end.

(** [InsertRecord(uint8_t *record, int32_t *byte_widths)]; with the record as
    the block leaves it. *)
Definition InsertRecord (record byte_widths : list Z) : T (BlockInfo * list Z) :=
  a ← GetBlockForInsert;
  t ← get;
  r ← defined (get_record_size (t_schema t) byte_widths 0);
  record_size ← or_throw r;
  left ← bytes_left_of a;
  a ← (if left <? record_size then CreateBlock else mret a);
  row ← on_block a (Blocks.InsertRecord record byte_widths);
  t ← get;
  n ← defined (int_chk (t_num_rows t + 1));
  _ ← modify (set_count n);
  _ ← return_to_pool a;
  b ← the_block a;
  mret (mkBlockInfo (id b) (fst row), snd row).

(** [block_map\[rowId\] = ...]: a [uint32_t] as a key of a map on [int]. *)
Definition InsertRecordTable (row_id : Z) (record byte_widths : list Z) : T unit :=
  r ← InsertRecord record byte_widths;
  modify (fun t => set_block_map (<[to_i32 row_id := fst r]> (block_map t)) t).

(** The loop of [InsertBlocks]: the blocks are already in the store. *)
Fixpoint insert_blocks (input_blocks : list nat) : T unit :=
  match input_blocks with
  | [] => mret tt
  | a :: rest =>
      b ← the_block a;
      t ← get;
      counter ← defined (int_chk (block_counter t + 1));
      n ← defined (int_chk (t_num_rows t + num_rows b));
      _ ← modify (fun t => attach a counter n (set_count n t));
      insert_blocks rest
  end.

(** [block_row_offsets\[block_row_offsets.size()\] = -1] is outside the vector. *)
Definition InsertBlocks (input_blocks : list nat) : T unit :=
  match input_blocks with
  | [] => mret tt
  | _ =>
      _ ← insert_blocks input_blocks;
      t ← get;
      a ← defined (blocks t !! (Z.of_nat (base.size (blocks t)) - 1));
      left ← bytes_left_of a;
      if t_fixed_record_width t <? left then
        _ ← MarkBlockForInsert a;
        t ← get;
        offsets ← defined (vec_write (length (block_row_offsets t)) (-1) (block_row_offsets t));
        modify (set_offsets offsets)
      else mret tt
  end.

(** ** Deletion and update *)

(** [m\[k\]] of a [std::map] on [int]: a missing key is entered with the default. *)
Definition row_ref (k : Z) (m : gmap Z Z) : Z * gmap Z Z :=
  match m !! k with Some v => (v, m) | None => (0, <[k := 0]> m) end.

Definition info_ref (k : Z) (m : gmap Z BlockInfo) : BlockInfo * gmap Z BlockInfo :=
  match m !! k with Some v => (v, m) | None => (mkBlockInfo 0 0, <[k := mkBlockInfo 0 0]> m) end.

(** The loop of [Block::InsertRecords(block_map, row_map, valid_column,
    column_data)] over the rows; [b] is the new block. *)
Fixpoint rebuild (n : nat) (row reduced_count : Z) (filter_data : list Z) (cols : list ArrayData)
    (row_map : gmap Z Z) (map : gmap Z BlockInfo) (b : Block) : option (Block * gmap Z Z * gmap Z BlockInfo * option exn) :=
  match n with
  | O => Some (b, row_map, map, None)
  | S n' =>
      byte ← filter_data !! Z.to_nat (row / 8);
      if Z.land (Z.shiftr byte (row mod 8)) 1 =? 1 then
        let '(row_id, row_map) := row_ref (row + reduced_count) row_map in
        let b := set_row_id_map (<[row := row_id]> (row_id_map b)) b in
        let '(info, map) := info_ref row_id map in
        let map := <[row_id := mkBlockInfo (block_id info) row]> map in
        '(b, r) ← InsertRecords (slice_of row 1 <$> cols) b;
        match r with
        | inl e => Some (b, row_map, map, Some e)
        | inr _ => rebuild n' (row + 1) reduced_count filter_data cols row_map map b
        end
      else rebuild n' (row + 1) (reduced_count + 1) filter_data cols row_map map b
  end.

(** [blocks\[id\] = updatedBlock; num_rows--;] and the insert pool. *)
Definition replace_block (info : BlockInfo) (old : nat) (b : Block) (row_map : gmap Z Z) (map : gmap Z BlockInfo)
    (n : Z) (t : DBTable) : DBTable :=
  let a := length (heap t) in
  let heap' := match heap t !! old with
               | Some ob => <[old := set_row_id_map row_map ob]> (heap t)
               | None => heap t
               end in
  mkDBTable (t_metadata_enabled t) (t_schema t) (block_capacity t) map
    (<[block_id info := a]> (blocks t))
    (match insert_pool t !! block_id info with
     | Some _ => <[block_id info := a]> (insert_pool t)
     | None => insert_pool t
     end)
    (block_counter t) (t_fixed_record_width t) n (t_num_cols t) (block_row_offsets t) (heap' ++ [b]).

Definition DeleteRecordTable (row_id : Z) : T unit :=
  t ← get;
  match block_map t !! to_i32 row_id with
  | None => mret tt
  | Some info =>
      a ← get_block (block_id info);
      _ ← on_block a (set_valid (to_u32 (row_num info)) false);
      ob ← the_block a;
      r ← defined (newBlock (block_id info) (t_schema t) (capacity ob) false);
      b ← or_throw r;
      first ← defined (columns ob !! 0%nat);
      t ← get;
      r ← defined (rebuild (Z.to_nat (ad_length first)) 0 0 (memory (buffer1 (valid ob))) (columns ob)
                     (row_id_map ob) (block_map t) b);
      let '(b, row_map, map, e) := r in
      match e with
      | Some e => _ ← modify (set_block_map map); throw e
      | None =>
          n ← defined (int_chk (t_num_rows t - 1));
          modify (replace_block info a b row_map map n)
      end
  end.

(** [while (col_num > curr_offset_col)] of the update. *)
Fixpoint advance (fuel : nat) (col_num curr offset : Z) (byte_widths : list Z) : option (Z * Z) :=
  if curr <? col_num then
    match fuel with
    | O => None
    | S f =>
        w ← byte_widths !! Z.to_nat curr;
        offset ← int_chk (offset + w);
        advance f col_num (curr + 1) offset byte_widths
    end
  else Some (curr, offset).

Definition lift_update (a : nat) (w : Z) (col_num : nat) (row_num offset : Z) (record : list Z) (byte_width : Z) : T (list Z) :=
  if (offset <? 0) || (Z.of_nat (length record) <? offset) then defined None else
  tail ← on_block a (UpdateColumnValue w col_num row_num (drop (Z.to_nat offset) record) byte_width);
  mret (take (Z.to_nat offset) record ++ tail).

(** The loop over the updated columns; [record] is changed in place. *)
Fixpoint update_columns (infos : list UpdateMetaInfo) (row_id : Z) (a : nat) (row_num curr offset : Z)
    (record byte_widths : list Z) : T (list Z) :=
  match infos with
  | [] => mret record
  | info :: infos' =>
      let col_num := colNum info in
      co ← defined (advance (Z.to_nat col_num) col_num curr offset byte_widths);
      let '(curr, offset) := co in
      t ← get;
      (* [schema->field(col_num)] *)
      ty ← defined (if col_num <? 0 then None else t_schema t !! Z.to_nat col_num);
      record ←
        match ty with
        | NumberType w | CTypeType w =>
            byte_width ← defined (byte_widths !! Z.to_nat col_num);
            lift_update a w (Z.to_nat col_num) row_num offset record byte_width
        | StringType =>
            _ ← DeleteRecordTable row_id;
            r ← InsertRecord record byte_widths;
            _ ← modify (fun t => set_block_map (<[to_i32 row_id := fst r]> (block_map t)) t);
            mret (snd r)
        | _ => throw LogicError
        end;
      update_columns infos' row_id a row_num curr offset record byte_widths
  end.

Definition UpdateRecordTable (row_id : Z) (infos : list UpdateMetaInfo) (record byte_widths : list Z) : T unit :=
  t ← get;
  match block_map t !! to_i32 row_id with
  | None => mret tt
  | Some info =>
      a ← get_block (block_id info);
      _ ← update_columns infos row_id a (row_num info) 0 0 record byte_widths;
      mret tt
  end.

End WithArrow.

End Tables.

Import Tables.

(** ** Instances and lemmas *)

Module FirstKey.

#[export, refine] Instance first_key : MapBegin := {| map_begin m := match map_to_list m with [] => None | kv :: _ => Some kv end |}.
Proof.
  intros m. destruct (map_to_list m) as [|[k a] l] eqn:E.
  - by apply map_to_list_empty_iff.
  - apply elem_of_map_to_list. rewrite E. left.
Defined.

End FirstKey.

Module TableProof.

Section Insert.
Context {Arrow : ArrowBuffers} {Begin : MapBegin}.

(** What the blocks of the table hold, by address. *)
Abbreviation Rows := (list (list (list (list Z)))).

Definition row_at (R : Rows) (a i : nat) : option (list (list Z)) := rows ← R !! a; rows !! i.

Definition schema_ok (types : list DataType) (cap : Z) : Prop :=
  Forall type_ok types /\ types <> [] /\ est_width types <= cap /\ cap + 38 * Z.of_nat (length types) < 2 ^ 31.

Record tinv (types : list DataType) (cap : Z) (R : Rows) (t : DBTable) : Prop := {
  ti_schema : t_schema t = types;
  ti_capacity : block_capacity t = cap;
  ti_counter : block_counter t = Z.of_nat (length (heap t));
  ti_length : length R = length (heap t);
  ti_heap : forall a b rows, heap t !! a = Some b -> R !! a = Some rows ->
    block_rep b rows /\ schema b = types /\ capacity b = cap /\ id b = Z.of_nat a;
  ti_blocks : forall k a, blocks t !! k = Some a <-> k = Z.of_nat a /\ (a < length (heap t))%nat;
  ti_pool : forall k a, insert_pool t !! k = Some a -> (a < length (heap t))%nat;
  ti_rows : 0 <= t_num_rows t;
  ti_small : forall a rows, R !! a = Some rows -> Z.of_nat (length rows) <= t_num_rows t
}.

(** [t'] differs from [t] neither in its row map nor in its count. *)
Definition same_rows (t t' : DBTable) : Prop := block_map t' = block_map t /\ t_num_rows t' = t_num_rows t.

Lemma CreateBlock_ok types cap R t :
  schema_ok types cap -> tinv types cap R t -> block_counter t + 1 < 2 ^ 31 ->
  exists t', CreateBlock t = Some (t', inr (length R)) /\ tinv types cap (R ++ [[]]) t' /\
    same_rows t t' /\ insert_pool t' = insert_pool t /\ block_counter t' = block_counter t + 1.
Proof.
  intros (H1 & H2 & H3 & H4) [] Hc. unfold CreateBlock. mstep.
  rewrite (bind_defined _ (block_counter t + 1)) by (apply int_chk_id; unfold is_s; change (2 ^ (32 - 1)) with (2 ^ 31); lia).
  destruct (newBlock_ok (block_counter t) types cap (t_metadata_enabled t) H1 H2 H3 H4) as (b & E & HR & Es & Ec & Ei).
  rewrite ti_schema0, ti_capacity0. rewrite (bind_defined _ _ _ _ E).
  rewrite (bind_val (or_throw (inr b)) _ t t b) by done. mstep. rewrite ti_length0.
  eexists. split; [reflexivity |]. split; [| done].
  assert (blocks t !! block_counter t = None) as Hnone.
  { destruct (blocks t !! block_counter t) as [a|] eqn:Eb; [| done]. apply ti_blocks0 in Eb as [Eb Ha]. lia. }
  constructor; cbn [attach set_heap t_schema block_capacity block_counter heap blocks insert_pool t_num_rows]; rewrite ?Hnone; auto.
  - rewrite length_app. cbn. lia.
  - rewrite !length_app. cbn. lia.
  - intros a b0 rows Ea Er. apply lookup_snoc_Some in Ea as [[Ha Ea] | [-> <-]].
    + rewrite lookup_app_l in Er by lia. eauto.
    + rewrite lookup_app_r, ti_length0, Nat.sub_diag in Er by lia. injection Er as <-. split_and!; [done | done | done | congruence].
  - intros k a. rewrite length_app. cbn. destruct (decide (k = block_counter t)) as [-> | Hne].
    + rewrite lookup_insert_eq. rewrite ti_counter0. split; [intros [= <-]; split; [done | lia] | intros [E' _]; f_equal; lia].
    + rewrite lookup_insert_ne by done. rewrite ti_blocks0, ti_counter0 in *. split; intros [-> ?]; (split; [done | lia]).
  - intros k a Hk. rewrite length_app. cbn. apply ti_pool0 in Hk. lia.
  - intros a rows Er. apply lookup_snoc_Some in Er as [[Ha Er] | [_ <-]]; [eauto | cbn; lia].
Qed.

Lemma GetBlockForInsert_ok types cap R t :
  schema_ok types cap -> tinv types cap R t -> block_counter t + 1 < 2 ^ 31 ->
  exists a t' R', GetBlockForInsert t = Some (t', inr a) /\ tinv types cap R' t' /\ same_rows t t' /\
    (R' = R \/ R' = R ++ [[]]) /\ (a < length R')%nat /\ block_counter t' <= block_counter t + 1.
Proof.
  intros HS HI Hc. unfold GetBlockForInsert. mstep.
  pose proof (map_begin_spec (insert_pool t)) as HB. destruct (map_begin (insert_pool t)) as [[k a]|].
  - mstep. exists a, (set_pool (delete k (insert_pool t)) t), R. pose proof HI as [].
    split_and!; [reflexivity | | done | by left | rewrite ti_length0; eauto | cbn; lia].
    constructor; cbn; auto. intros k' a' Hk. apply lookup_delete_Some in Hk as [_ Hk]. eauto.
  - destruct (CreateBlock_ok types cap R t HS HI Hc) as (t' & E & HI' & Hs & _ & Hcnt).
    exists (length R), t', (R ++ [[]]). split_and!; [done | done | done | by right | rewrite length_app; cbn; lia | lia].
Qed.

Lemma record_size_ok types : forall ws acc, Forall type_ok types -> Forall2 width_ok types ws ->
  0 <= acc -> acc + 8 * Z.of_nat (length types) + zsum (pos_width <$> ws) < 2 ^ 31 ->
  exists rs, get_record_size types ws acc = Some (inr rs) /\ acc + zsum ws <= rs.
Proof.
  induction types as [|ty types IH]; intros ws acc HT HW Ha Hb.
  { apply Forall2_nil_inv_l in HW as ->. exists acc. cbn. split; [done | lia]. }
  destruct ws as [|w ws]; [by apply Forall2_cons_nil_inv in HW |]. apply Forall2_cons in HW as [Hw HW].
  apply Forall_cons in HT as [Ht HT]. rewrite fmap_cons in Hb. cbn [zsum length] in Hb. unfold pos_width at 1 in Hb.
  pose proof (zsum_pos_nonneg ws) as Hz.
  destruct ty; cbn in Ht, Hw; try done; cbn [get_record_size tail head mbind option_bind zsum];
    (rewrite int_chk_id by (unfold is_s; change (2 ^ (32 - 1)) with (2 ^ 31); lia)); cbn [mbind option_bind].
  - destruct (IH ws (acc + 8) HT HW) as (rs & E & Hrs); [lia | lia |]. exists rs. split; [done | lia].
  - destruct (IH ws (acc + w) HT HW) as (rs & E & Hrs); [lia | lia |]. exists rs. split; [done | lia].
Qed.

(** Contents are only ever added. *)
Definition grows (R R' : Rows) : Prop := forall a i row, row_at R a i = Some row -> row_at R' a i = Some row.

Lemma grows_refl R : grows R R.
Proof. by intros a i row. Qed.

Lemma grows_trans R1 R2 R3 : grows R1 R2 -> grows R2 R3 -> grows R1 R3.
Proof. intros H1 H2 a i row E. auto. Qed.

Lemma grows_snoc R : grows R (R ++ [[]]).
Proof.
  intros a i row E. unfold row_at in *. destruct (R !! a) as [rows|] eqn:Ea; [| done].
  by rewrite (lookup_app_l_Some _ _ _ _ Ea).
Qed.

Lemma grows_insert R a rows row : R !! a = Some rows -> grows R (<[a := rows ++ [row]]> R).
Proof.
  intros Ea a' i row' E. unfold row_at in *. destruct (decide (a = a')) as [<- | Hne].
  - rewrite list_lookup_insert_eq by (by eapply lookup_lt_Some). rewrite Ea in E. cbn in *. by apply lookup_app_l_Some.
  - by rewrite list_lookup_insert_ne.
Qed.

(** A block of the table and its contents. *)
Lemma tinv_block types cap R t a : tinv types cap R t -> (a < length R)%nat ->
  exists b rows, heap t !! a = Some b /\ R !! a = Some rows /\ block_rep b rows /\
    schema b = types /\ capacity b = cap /\ id b = Z.of_nat a /\ get_bytes_left b = Some (cap - num_bytes b).
Proof.
  intros [] Ha. destruct (lookup_lt_is_Some_2 R a Ha) as [rows Er].
  destruct (lookup_lt_is_Some_2 (heap t) a) as [b Eb]; [lia |].
  destruct (ti_heap0 a b rows Eb Er) as (HR & Es & Ec & Ei). exists b, rows. split_and!; try done.
  unfold get_bytes_left. rewrite Ec. apply int_chk_id. pose proof (r_limit _ _ HR) as Hl. rewrite (r_cols _ _ HR) in Hl.
  pose proof (zsum_nonneg _ (mid_nonneg _ _ _ _ (r_mid _ _ HR))) as Hn. rewrite <- (m_sum _ _ _ _ (r_mid _ _ HR)) in Hn.
  pose proof (r_capacity _ _ HR). rewrite Ec in *. unfold is_s. change (2 ^ (32 - 1)) with (2 ^ 31). lia.
Qed.

(** A new state of the block at [a]. *)
Lemma tinv_update types cap R t a b rows :
  tinv types cap R t -> (a < length R)%nat -> block_rep b rows -> schema b = types -> capacity b = cap ->
  id b = Z.of_nat a -> Z.of_nat (length rows) <= t_num_rows t + 1 ->
  tinv types cap (<[a := rows]> R) (set_count (t_num_rows t + 1) (set_heap (<[a := b]> (heap t)) t)).
Proof.
  intros [] Ha HR Es Ec Ei Hn.
  constructor; cbn [set_count set_heap heap t_schema block_capacity block_counter blocks insert_pool t_num_rows];
    rewrite ?length_insert; auto; [| lia |].
  - intros a' b' rows' Eb Er. destruct (decide (a = a')) as [<- | Hne].
    + rewrite list_lookup_insert_eq in Eb by lia. rewrite list_lookup_insert_eq in Er by lia. simplify_eq. done.
    + rewrite list_lookup_insert_ne in Eb by done. rewrite list_lookup_insert_ne in Er by done. eauto.
  - intros a' rows' Er. destruct (decide (a = a')) as [<- | Hne].
    + rewrite list_lookup_insert_eq in Er by lia. by simplify_eq.
    + rewrite list_lookup_insert_ne in Er by done. apply ti_small0 in Er. lia.
Qed.

Lemma return_to_pool_ok types cap R t a : tinv types cap R t -> (a < length R)%nat ->
  exists p, return_to_pool a t = Some (set_pool p t, inr tt) /\ tinv types cap R (set_pool p t).
Proof.
  intros HI Ha. destruct (tinv_block _ _ _ _ _ HI Ha) as (b & rows & Eb & Er & HR & Es & Ec & Ei & El).
  assert (the_block a t = Some (t, inr b)) as Et by (unfold the_block; mstep; unfold defined; by rewrite Eb).
  assert (bytes_left_of a t = Some (t, inr (cap - num_bytes b))) as Ebl.
  { unfold bytes_left_of. mstep. unfold defined. by rewrite El. }
  unfold return_to_pool. mstep. mstep. destruct (_ <? _).
  - mstep. eexists. split; [reflexivity |]. destruct HI. constructor; cbn; auto.
    intros k a' Hk. apply lookup_insert_Some in Hk as [[_ <-] | [_ Hk]]; [lia | eauto].
  - exists (insert_pool t). split; [by destruct t | by destruct t, HI].
Qed.

(** The part of [InsertRecord] after a block has been chosen. *)
Lemma insert_into_ok types cap R t a record ws :
  tinv types cap R t -> (a < length R)%nat -> record_ok types ws record -> t_num_rows t + 1 < 2 ^ 31 ->
  exists R' t' code r,
    (row ← on_block a (Blocks.InsertRecord record ws);
     t ← get;
     n ← defined (int_chk (t_num_rows t + 1));
     _ ← modify (set_count n);
     _ ← return_to_pool a;
     b ← the_block a;
     mret (mkBlockInfo (id b) (fst row), snd row)) t = Some (t', inr (mkBlockInfo (Z.of_nat a) code, r)) /\
    tinv types cap R' t' /\ grows R R' /\ block_map t' = block_map t /\ t_num_rows t' = t_num_rows t + 1 /\
    block_counter t' = block_counter t /\
    exists b, heap t !! a = Some b /\
      ((cap - num_bytes b < zsum ws /\ code = -1) \/
       (zsum ws <= cap - num_bytes b /\ 0 <= code /\ row_at R' a (Z.to_nat code) = Some (row_of types ws record))).
Proof.
  intros HI Ha Hrec Hn. destruct (tinv_block _ _ _ _ _ HI Ha) as (b & rows & Eb & Er & HR & Es & Ec & Ei & El).
  pose proof (ti_small _ _ _ _ HI a rows Er) as Hsm. pose proof (ti_rows _ _ _ _ HI) as Hpos.
  rewrite <- Es in Hrec.
  assert (exists b' rows' code r, Blocks.InsertRecord record ws b = Some (b', inr (code, r)) /\ block_rep b' rows' /\
    schema b' = types /\ capacity b' = cap /\ id b' = Z.of_nat a /\ Z.of_nat (length rows') <= t_num_rows t + 1 /\
    grows R (<[a := rows']> R) /\
    ((cap - num_bytes b < zsum ws /\ code = -1) \/
     (zsum ws <= cap - num_bytes b /\ 0 <= code /\ rows' !! Z.to_nat code = Some (row_of types ws record))))
    as (b' & rows' & code & r & E & HR' & Es' & Ec' & Ei' & Hl' & Hg & Hcode).
  { destruct (InsertRecord_ok b rows record ws HR Hrec) as [[Hlt E] | (Hge & b' & r & E & HR' & Es' & Ec' & Ei')]; [lia | |];
      rewrite Ec in *.
    - exists b, rows, (-1), record. split_and!; try done; [lia | | by left]. rewrite list_insert_id by done. apply grows_refl.
    - eexists b', _, _, r. split_and!; [done | exact HR' | congruence | congruence | congruence | | by apply grows_insert |].
      + rewrite length_app. cbn. lia.
      + right. split_and!; [done | lia |]. rewrite Nat2Z.id, <- Es. apply list_lookup_middle. done. }
  assert (on_block a (Blocks.InsertRecord record ws) t = Some (set_heap (<[a := b']> (heap t)) t, inr (code, r))) as Eon.
  { unfold on_block. rewrite Eb. cbn [mbind option_bind]. by rewrite E. }
  mstep. mstep.
  rewrite (bind_defined _ (t_num_rows t + 1)) by (apply int_chk_id; unfold is_s; change (2 ^ (32 - 1)) with (2 ^ 31); cbn; lia).
  mstep. pose proof (tinv_update _ _ _ _ _ _ _ HI Ha HR' Es' Ec' Ei' Hl') as HI1.
  destruct (return_to_pool_ok _ _ _ _ a HI1) as (p & Ep & HI2); [by rewrite length_insert |]. mstep.
  destruct (tinv_block _ _ _ _ a HI2) as (b2 & rows2 & Eb2 & Er2 & _ & _ & _ & Ei2 & _); [by rewrite length_insert |].
  eexists _, _, code, r. split.
  { unfold the_block. rewrite (bind_val _ _ _ (set_pool p (set_count (t_num_rows t + 1) (set_heap (<[a:=b']> (heap t)) t))) b2).
    - cbn. rewrite Ei2. reflexivity.
    - mstep. unfold defined. by rewrite Eb2. }
  split_and!; [exact HI2 | done | done | done | done |]. exists b. split; [done |].
  destruct Hcode as [? | (? & ? & ?)]; [by left | right]. split_and!; [done | done |].
  unfold row_at. rewrite list_lookup_insert_eq by done. done.
Qed.

(** The record of a row fits into an empty block, and its size is an [int]. *)
Definition table_record_ok (types : list DataType) (ws record : list Z) : Prop :=
  record_ok types ws record /\ 8 * Z.of_nat (length types) + Z.of_nat (length record) < 2 ^ 31.

(** Where a record ends up. *)
Definition stored_at (types : list DataType) (cap : Z) (R : Rows) (ws record : list Z) (info : BlockInfo) : Prop :=
  exists a code, info = mkBlockInfo (Z.of_nat a) code /\
    if cap <? zsum ws then code = -1
    else 0 <= code /\ row_at R a (Z.to_nat code) = Some (row_of types ws record).

Lemma InsertRecord_table_ok types cap R t record ws :
  schema_ok types cap -> tinv types cap R t -> table_record_ok types ws record ->
  t_num_rows t + 1 < 2 ^ 31 -> block_counter t + 2 < 2 ^ 31 ->
  exists R' t' info r, InsertRecord record ws t = Some (t', inr (info, r)) /\ tinv types cap R' t' /\ grows R R' /\
    block_map t' = block_map t /\ t_num_rows t' = t_num_rows t + 1 /\ block_counter t' <= block_counter t + 2 /\
    stored_at types cap R' ws record info.
Proof.
  intros HS HI [Hrec Hsz] Hn Hc. pose proof HS as (HT & _).
  destruct (GetBlockForInsert_ok types cap R t HS HI) as (a & t1 & R1 & E1 & HI1 & [Hm1 Hn1] & HR1 & Ha1 & Hc1); [lia |].
  assert (grows R R1) as Hg1 by (destruct HR1 as [-> | ->]; [apply grows_refl | apply grows_snoc]).
  destruct (record_size_ok types ws 0 HT) as (rs & Ers & Hrs); [apply Hrec | lia | destruct Hrec; lia |].
  destruct (tinv_block _ _ _ _ _ HI1 Ha1) as (b & rows & Eb & Er & HR & Es & Ec & Ei & El).
  assert (0 <= num_bytes b) as Hnb.
  { rewrite (m_sum _ _ _ _ (r_mid _ _ HR)). apply zsum_nonneg, (mid_nonneg _ _ _ _ (r_mid _ _ HR)). }
  assert (bytes_left_of a t1 = Some (t1, inr (cap - num_bytes b))) as Ebl.
  { unfold bytes_left_of, the_block. rewrite (bind_val _ _ t1 t1 b) by (mstep; unfold defined; by rewrite Eb).
    unfold defined. by rewrite El. }
  unfold InsertRecord. mstep. mstep. rewrite (ti_schema _ _ _ _ HI1). mstep.
  rewrite (bind_val (or_throw (inr rs)) _ t1 t1 rs) by done. mstep.
  destruct (Z.ltb_spec (cap - num_bytes b) rs) as [Hlt | Hge].
  - destruct (CreateBlock_ok types cap R1 t1 HS HI1) as (t2 & E2 & HI2 & [Hm2 Hn2] & _ & Hc2); [lia |]. mstep.
    destruct (insert_into_ok types cap (R1 ++ [[]]) t2 (length R1) record ws HI2) as
      (R' & t' & code & r & E & HI' & Hg & Hm & Hnr & Hbc & b2 & Eb2 & Hcode); [rewrite length_app; cbn; lia | done | lia |].
    exists R', t', (mkBlockInfo (Z.of_nat (length R1)) code), r. split; [exact E |]. split_and!; try done; try congruence; try lia.
    + eapply grows_trans; [exact Hg1 |]. eapply grows_trans; [apply grows_snoc | exact Hg].
    + destruct (tinv_block _ _ _ _ (length R1) HI2) as (b3 & rows3 & Eb3 & Er3 & HR3 & _); [rewrite length_app; cbn; lia |].
      rewrite lookup_app_r, Nat.sub_diag in Er3 by lia. injection Er3 as <-. rewrite Eb2 in Eb3. injection Eb3 as <-.
      rewrite (rep_bytes _ _ HR3) in Hcode. change (rows_bytes []) with 0 in Hcode.
      exists (length R1), code. split; [done |].
      destruct (Z.ltb_spec cap (zsum ws)), Hcode as [[? ?] | (? & ? & ?)]; try done; lia.
  - rewrite (bind_val (mret a) _ t1 t1 a) by done.
    destruct (insert_into_ok types cap R1 t1 a record ws HI1 Ha1 Hrec) as
      (R' & t' & code & r & E & HI' & Hg & Hm & Hnr & Hbc & b2 & Eb2 & Hcode); [lia |].
    exists R', t', (mkBlockInfo (Z.of_nat a) code), r. split; [exact E |]. split_and!; try done; try congruence; try lia.
    + eapply grows_trans; [exact Hg1 | exact Hg].
    + rewrite Eb in Eb2. injection Eb2 as <-. exists a, code. split; [done |].
      destruct (Z.ltb_spec cap (zsum ws)), Hcode as [[? ?] | (? & ? & ?)]; try done; lia.
Qed.

(** ** Sequences of insertions *)

Fixpoint insert_rows (recs : list (Z * (list Z * list Z))) : T unit :=
  match recs with
  | [] => mret tt
  | (row_id, (record, ws)) :: recs' => _ ← InsertRecordTable row_id record ws; insert_rows recs'
  end.

(** The last record of every row id (as a key of the map). *)
Definition latest (recs : list (Z * (list Z * list Z))) (m : gmap Z (list Z * list Z)) : gmap Z (list Z * list Z) :=
  foldl (fun m '(row_id, rw) => <[to_i32 row_id := rw]> m) m recs.

Definition located (types : list DataType) (cap : Z) (R : Rows) (t : DBTable) (m : gmap Z (list Z * list Z)) : Prop :=
  forall row_id, match m !! row_id with
  | None => block_map t !! row_id = None
  | Some (record, ws) => exists info, block_map t !! row_id = Some info /\ stored_at types cap R ws record info
  end.

Lemma stored_at_grows types cap R R' ws record info :
  grows R R' -> stored_at types cap R ws record info -> stored_at types cap R' ws record info.
Proof.
  intros Hg (a & code & E & H). exists a, code. split; [done |]. destruct (_ <? _); [done |].
  destruct H as [? ?]. auto.
Qed.

Lemma insert_rows_ok types cap recs : forall R t m,
  schema_ok types cap -> tinv types cap R t -> located types cap R t m ->
  Forall (fun rw => table_record_ok types (snd (snd rw)) (fst (snd rw))) recs ->
  t_num_rows t + Z.of_nat (length recs) < 2 ^ 31 -> block_counter t + 2 * Z.of_nat (length recs) < 2 ^ 31 ->
  exists R' t', insert_rows recs t = Some (t', inr tt) /\ tinv types cap R' t' /\
    located types cap R' t' (latest recs m) /\ t_num_rows t' = t_num_rows t + Z.of_nat (length recs).
Proof.
  induction recs as [|[row_id [record ws]] recs IH]; intros R t m HS HI HL HF Hn Hc.
  { exists R, t. cbn. split_and!; [done | done | done | lia]. }
  apply Forall_cons in HF as [Hok HF]. cbn [length fst snd] in *.
  destruct (InsertRecord_table_ok types cap R t record ws HS HI Hok) as (R1 & t1 & info & r & E & HI1 & Hg & Hm & Hn1 & Hc1 & Hst);
    [lia | lia |].
  assert (InsertRecordTable row_id record ws t = Some (set_block_map (<[to_i32 row_id := info]> (block_map t1)) t1, inr tt)) as Ei.
  { unfold InsertRecordTable. mstep. done. }
  destruct (IH R1 (set_block_map (<[to_i32 row_id := info]> (block_map t1)) t1) (<[to_i32 row_id := (record, ws)]> m) HS)
    as (R' & t' & E' & HI' & HL' & Hn'); [by destruct HI1 | | done | cbn; lia | cbn; lia |].
  { intros k. cbn [block_map set_block_map]. destruct (decide (to_i32 row_id = k)) as [<- | Hne].
    - rewrite !lookup_insert_eq. eauto.
    - rewrite !lookup_insert_ne by done. rewrite Hm. specialize (HL k). destruct (m !! k) as [[rec' ws']|]; [| done].
      destruct HL as (info' & Eb & Hs). exists info'. split; [done |]. by eapply stored_at_grows. }
  exists R', t'. cbn [insert_rows latest foldl]. mstep. split_and!; [exact E' | done | exact HL' | cbn in Hn'; lia].
Qed.

(** What the map of rows leads to: the last record of every row id, in a valid
    row; a record wider than a block is entered with row number -1. *)
Definition reads_back (types : list DataType) (cap : Z) (t : DBTable) (m : gmap Z (list Z * list Z)) : Prop :=
  forall key, match m !! key with
  | None => block_map t !! key = None
  | Some (record, ws) => exists info, block_map t !! key = Some info /\
      if cap <? zsum ws then row_num info = -1
      else exists a b, blocks t !! block_id info = Some a /\ heap t !! a = Some b /\
        get_valid (row_num info) b = Some true /\
        forall j c, row_of types ws record !! j = Some c -> read_cell j (row_num info) b = Some c
  end.

Lemma located_reads_back types cap R t m : tinv types cap R t -> located types cap R t m -> reads_back types cap t m.
Proof.
  intros HI HL row_id. specialize (HL row_id). destruct (m !! row_id) as [[record ws]|]; [| done].
  destruct HL as (info & Eb & a & code & -> & Hst). exists (mkBlockInfo (Z.of_nat a) code). split; [done |].
  cbn [row_num block_id]. destruct (cap <? zsum ws); [done |]. destruct Hst as [Hpos Hrow]. unfold row_at in Hrow.
  destruct (R !! a) as [rows|] eqn:Er; [| done]. cbn in Hrow.
  destruct (tinv_block _ _ _ _ a HI) as (b & rows' & Ebk & Er' & HR & _); [by eapply lookup_lt_Some |].
  rewrite Er in Er'. injection Er' as <-. exists a, b. rewrite <- (Z2Nat.id code) by done. split_and!.
  - apply (ti_blocks _ _ _ _ HI). split; [done |]. by eapply lookup_lt_Some.
  - done.
  - apply (r_valid _ _ HR). by eapply lookup_lt_Some.
  - intros j c Ej. by eapply read_cell_ok.
Qed.

Lemma new_table_ok types cap meta : schema_ok types cap ->
  exists t, newDBTable types cap meta = Some (inr t) /\ tinv types cap [] t /\ block_map t = ∅ /\ t_num_rows t = 0 /\
    block_counter t = 0.
Proof.
  intros (HT & Hne & He & Hcap). destruct (est_width_split types HT) as (H1 & H2 & H3 & H4).
  unfold newDBTable. rewrite fixed_record_width_ok by (done || lia). cbn [mbind option_bind].
  eexists. split; [reflexivity |]. split_and!; [| done | done | done].
  constructor; cbn; try done.
  intros k a. rewrite lookup_empty. split; [done | intros [_ ?]; lia].
Qed.

Lemma insert_rows_reads_back types cap meta recs :
  schema_ok types cap -> Forall (fun rw => table_record_ok types (snd (snd rw)) (fst (snd rw))) recs ->
  2 * Z.of_nat (length recs) < 2 ^ 31 ->
  exists t0 t, newDBTable types cap meta = Some (inr t0) /\ insert_rows recs t0 = Some (t, inr tt) /\
    t_num_rows t = Z.of_nat (length recs) /\ reads_back types cap t (latest recs ∅).
Proof.
  intros HS HF Hlen. destruct (new_table_ok types cap meta HS) as (t0 & E0 & HI & Hm & Hn & Hc).
  destruct (insert_rows_ok types cap recs [] t0 ∅ HS HI) as (R & t & E & HI' & HL & Hn'); try done; try lia.
  { intros k. rewrite Hm, !lookup_empty. done. }
  exists t0, t. split_and!; [done | done | lia |]. by eapply located_reads_back.
Qed.

(** A row that was inserted, with its block. *)
Lemma insert_rows_find types cap meta recs row_id record ws :
  schema_ok types cap -> Forall (fun rw => table_record_ok types (snd (snd rw)) (fst (snd rw))) recs ->
  2 * Z.of_nat (length recs) < 2 ^ 31 -> latest recs ∅ !! to_i32 row_id = Some (record, ws) -> zsum ws <= cap ->
  exists t0 t R a r b rows, newDBTable types cap meta = Some (inr t0) /\ insert_rows recs t0 = Some (t, inr tt) /\
    tinv types cap R t /\ t_num_rows t = Z.of_nat (length recs) /\
    block_map t !! to_i32 row_id = Some (mkBlockInfo (Z.of_nat a) (Z.of_nat r)) /\ blocks t !! Z.of_nat a = Some a /\
    heap t !! a = Some b /\ R !! a = Some rows /\ block_rep b rows /\ schema b = types /\
    rows !! r = Some (row_of types ws record).
Proof.
  intros HS HF Hlen Hlat Hfit. destruct (new_table_ok types cap meta HS) as (t0 & E0 & HI & Hm & Hn & Hc).
  destruct (insert_rows_ok types cap recs [] t0 ∅ HS HI) as (R & t & E & HI' & HL & Hn'); try done; try lia.
  { intros k. rewrite Hm, !lookup_empty. done. }
  specialize (HL (to_i32 row_id)). rewrite Hlat in HL. destruct HL as (info & Eb & a & code & -> & Hst).
  rewrite (proj2 (Z.ltb_ge _ _)) in Hst by done. destruct Hst as [Hp Hrow].
  destruct (Z_of_nat_complete code Hp) as [r ->]. unfold row_at in Hrow. rewrite Nat2Z.id in Hrow.
  destruct (R !! a) as [rows|] eqn:Er; [| done]. cbn in Hrow.
  destruct (tinv_block _ _ _ _ a HI') as (b & rows' & Ebk & Er' & HR & Es & _); [by eapply lookup_lt_Some |].
  rewrite Er in Er'. injection Er' as <-. exists t0, t, R, a, r, b, rows. split_and!; try done; [lia |].
  apply (ti_blocks _ _ _ _ HI'). split; [done | by eapply lookup_lt_Some].
Qed.

End Insert.

End TableProof.

Import TableProof.

(** C5: after any sequence of logged insertions into a new table, every row id
    leads to the block and row that hold its last record, valid and with every
    cell readable; the only exception is a record wider than a whole block, for
    which the table silently records row number -1 (and counts a row).  No
    access leaves a buffer, and the count of rows is the number of insertions. *)
Theorem table_insert_correct {Arrow : ArrowBuffers} {Begin : MapBegin}
    (types : list DataType) (cap : Z) (meta : bool) (recs : list (Z * (list Z * list Z))) :
  schema_ok types cap -> Forall (fun rw => table_record_ok types (snd (snd rw)) (fst (snd rw))) recs ->
  2 * Z.of_nat (length recs) < 2 ^ 31 ->
  exists t0 t, newDBTable types cap meta = Some (inr t0) /\ insert_rows recs t0 = Some (t, inr tt) /\
    t_num_rows t = Z.of_nat (length recs) /\
    forall key, match latest recs ∅ !! key with
    | None => block_map t !! key = None
    | Some (record, ws) => exists info, block_map t !! key = Some info /\
        if cap <? zsum ws then row_num info = -1
        else exists a b, blocks t !! block_id info = Some a /\ heap t !! a = Some b /\
          get_valid (row_num info) b = Some true /\
          forall j c, row_of types ws record !! j = Some c -> read_cell j (row_num info) b = Some c
    end.
Proof.
  intros HS HF Hlen. exact (insert_rows_reads_back types cap meta recs HS HF Hlen).
Qed.

Import FirstKey RoundUp.

Lemma table_insert_correct_witness :
  let types := [NumberType 8; StringType] in
  let recs := [(7, ([5; 65; 66], [1; 2])); (8, (replicate 60 68, [1; 59])); (7, ([6; 67], [1; 1]))] in
  exists t0 t, newDBTable types 40 true = Some (inr t0) /\ insert_rows recs t0 = Some (t, inr tt) /\
    t_num_rows t = 3 /\ (exists i8, block_map t !! 8 = Some i8 /\ row_num i8 = -1) /\
    exists info a b, block_map t !! 7 = Some info /\ blocks t !! block_id info = Some a /\ heap t !! a = Some b /\
      read_cell 0 (row_num info) b = Some [6; 0; 0; 0; 0; 0; 0; 0] /\ read_cell 1 (row_num info) b = Some [67].
Proof.
  destruct (table_insert_correct [NumberType 8; StringType] 40 true
    [(7, ([5; 65; 66], [1; 2])); (8, (replicate 60 68, [1; 59])); (7, ([6; 67], [1; 1]))])
    as (t0 & t & E0 & E & Hn & HL).
  - split_and!; [repeat (apply Forall_cons_2; [cbn; (lia || done) |]); constructor | done | vm_compute; done | vm_compute; done].
  - repeat (apply Forall_cons_2; [split; [split; [repeat (apply Forall2_cons_2; [cbn; lia |]); constructor |
      vm_compute; split; [intros [=] | reflexivity]] | vm_compute; reflexivity] |]); constructor.
  - vm_compute. done.
  - exists t0, t. split_and!; [exact E0 | exact E | exact Hn | |].
    + destruct (HL 8) as (i8 & E8 & H8). exists i8. split; [exact E8 | exact H8].
    + destruct (HL 7) as (info & E7 & a & b & Ea & Eb & _ & HC). exists info, a, b.
      split_and!; [exact E7 | exact Ea | exact Eb | by apply HC | by apply HC].
Defined.
