(* ===== verification/TableDelete.v ===== *)
(** * Deletion of rows (Block::InsertRecords, DBTable::DeleteRecordTable)

    A deletion clears the valid bit of the row and rebuilds the block from
    one-row slices of the old columns.  This file proves what the rebuilt block
    holds and what happens to the map from row ids to rows, over the definitions
    of [Block.v] and [Table.v]. *)

From Stdlib Require Import ZArith Lia.
From stdpp Require Import base numbers list gmap option.
Import stdpp.list_basics.list stdpp.list_relations.list stdpp.list_monad.list.
From S2P Require Import Prelude RecordUtils MemLog BitUtils Block Table.
Import Blocks BlockProof Tables TableProof.

Local Open Scope Z_scope.

Module ArrayInsert.

Section Memory.
Context {Arrow : ArrowBuffers}.

Lemma peek_length pos len bs v : peek pos len bs = Some v -> Z.of_nat (length v) = len.
Proof.
  unfold peek. destruct (Z.leb_spec 0 pos), (Z.leb_spec 0 len), (Z.leb_spec (pos + len) (Z.of_nat (length bs)));
    cbn [andb]; try done. intros [= <-]. rewrite length_take, length_drop. lia.
Qed.

Lemma poke_above pos v bs bs' q : 0 <= pos -> poke pos v bs = Some bs' -> pos + Z.of_nat (length v) <= q ->
  get_i32 q bs' = get_i32 q bs.
Proof.
  intros Hp E Hq. unfold poke in E. destruct (_ && _) eqn:Hb; [| done]. injection E as <-.
  apply andb_prop in Hb as [_ Hb]. apply Z.leb_le in Hb.
  unfold get_i32, peek. rewrite !length_app, length_take, length_drop.
  replace (Z.of_nat (Z.to_nat pos `min` length bs + (length v + (length bs - (Z.to_nat pos + length v)))))
    with (Z.of_nat (length bs)) by lia.
  destruct (_ && _); [| done]. cbn [mbind option_bind]. do 2 f_equal.
  rewrite (assoc_L (++)), drop_app_ge by (rewrite length_app, length_take; lia).
  rewrite drop_drop. f_equal. f_equal. rewrite length_app, length_take. lia.
Qed.

Lemma get_i32_at pos cell bs bs' :
  0 <= pos -> length cell = 4%nat -> length bs' = length bs -> pos + 4 <= Z.of_nat (length bs) ->
  take (Z.to_nat pos + 4) bs' = take (Z.to_nat pos) bs ++ cell -> get_i32 pos bs' = Some (le_signed cell).
Proof.
  intros Hp Hc Hl Hb E. unfold get_i32, peek. rewrite !(proj2 (Z.leb_le _ _)) by lia. cbn [andb mbind option_bind].
  change (Z.to_nat 4) with 4%nat. rewrite take_drop_commute, E, drop_app_length' by (rewrite length_take; lia). done.
Qed.

(** Writing after the used part of a memory. *)
Lemma poke_append mem old v : take (length old) mem = old -> (length old + length v <= length mem)%nat ->
  exists mem', poke (Z.of_nat (length old)) v mem = Some mem' /\ length mem' = length mem /\
    take (length (old ++ v)) mem' = old ++ v.
Proof.
  intros Ht Hl. destruct (poke_ok (Z.of_nat (length old)) v mem) as (mem' & E & Hl' & Ht'); [lia | lia |].
  exists mem'. rewrite Nat2Z.id, Ht in Ht'. by rewrite length_app.
Qed.

(** The buffer after [if (used + n > capacity) Resize(...)]. *)
Definition room (buf buf' : Buffer) (k : nat) (need : Z) : Prop :=
  need <= Z.of_nat (length (memory buf')) /\ take k (memory buf') = take k (memory buf).

Lemma reserve_ok {B} (cond : bool) n buf (k : Buffer -> M B) b used need :
  (used <= length (memory buf))%nat -> 0 <= n ->
  (cond = false -> need <= Z.of_nat (length (memory buf))) -> need <= n \/ cond = false ->
  exists buf', ((if cond then resized n false buf else mret buf) ≫= k) b = k buf' b /\ room buf buf' used need.
Proof.
  intros Hu Hn Hf Hneed. destruct cond.
  - rewrite bind_resized by done. eexists. split; [reflexivity |]. pose proof (resize_capacity n false (memory buf)).
    split; cbn; [destruct Hneed; [lia | done] |]. by apply take_resize.
  - exists buf. split; [done |]. split; [auto | done].
Qed.

Lemma get_i32_peek q bs v : get_i32 q bs = Some v -> exists cell, peek q 4 bs = Some cell /\ le_signed cell = v /\ length cell = 4%nat.
Proof.
  unfold get_i32. destruct (peek q 4 bs) as [cell|] eqn:E; cbn; [| done]. intros [= <-]. exists cell.
  apply peek_length in E. split_and!; [done | done | lia].
Qed.

Lemma peek_join q bs c1 c2 : peek q 4 bs = Some c1 -> peek (q + 4) 4 bs = Some c2 -> peek q 8 bs = Some (c1 ++ c2).
Proof.
  unfold peek. destruct (Z.leb_spec 0 q); cbn [andb]; [| done].
  destruct (Z.leb_spec (q + 4) (Z.of_nat (length bs))); cbn [andb Z.leb]; [| done]. intros [= <-].
  destruct (Z.leb_spec 0 (q + 4)); cbn [andb]; [| done].
  destruct (Z.leb_spec (q + 4 + 4) (Z.of_nat (length bs))); [| done]. intros [= <-].
  rewrite (proj2 (Z.leb_le (q + 8) _)) by lia. cbn [andb Z.leb]. f_equal.
  change (Z.to_nat 8) with (4 + 4)%nat. change (Z.to_nat 4) with 4%nat.
  rewrite <- take_take_drop, drop_drop. do 3 f_equal. lia.
Qed.

(** One shifted offset. *)
Lemma shift_one pos delta mem v :
  0 <= pos -> pos + 4 <= Z.of_nat (length mem) -> get_i32 pos mem = Some v -> is_s 32 (v + delta) ->
  exists mem', (v ← get_i32 pos mem; v ← int_chk (v + delta); poke pos (le_bytes 4 v) mem) = Some mem' /\
    length mem' = length mem /\ take (Z.to_nat pos) mem' = take (Z.to_nat pos) mem /\
    get_i32 pos mem' = Some (v + delta) /\ (forall q, pos + 4 <= q -> get_i32 q mem' = get_i32 q mem).
Proof.
  intros Hp Hl Eg Hs. rewrite Eg. cbn [mbind option_bind]. rewrite (int_chk_id _ Hs). cbn [mbind option_bind].
  destruct (poke_ok pos (le_bytes 4 (v + delta)) mem) as (mem' & E & Hlm & Ht); [done | rewrite length_le_bytes; lia |].
  rewrite length_le_bytes in Ht. exists mem'. split_and!; [done | done | | |].
  - apply (f_equal (take (Z.to_nat pos))) in Ht. rewrite take_take, Nat.min_l in Ht by lia.
    by rewrite take_app_le, take_take, Nat.min_id in Ht by (rewrite length_take; lia).
  - by eapply get_i32_poke.
  - intros q Hq. eapply poke_above; [done | exact E | rewrite length_le_bytes; lia].
Qed.

(** The offsets of one copied string: the end of row [n] is [cur + len]. *)
Lemma copy_offsets_ok (k n : Z) offs inoffs cur lo len b :
  0 <= k -> 0 <= n -> 4 * (n + 2) <= Z.of_nat (length offs) -> get_i32 (4 * n) offs = Some cur ->
  get_i32 (4 * k) inoffs = Some lo -> get_i32 (4 * (k + 1)) inoffs = Some (lo + len) -> (k = 0 -> lo = 0) ->
  is_s 32 cur -> is_s 32 (cur - lo) -> is_s 32 (cur + len) ->
  exists mem,
    (if k =? 0 then
       cells ← defined (peek (4 * k) (4 * (1 + 1)) inoffs);
       mem ← defined (poke (4 * n) cells offs);
       defined (shift_offsets (Z.to_nat (1 + 1)) (4 * n) cur mem)
     else
       cells ← defined (peek (4 * (k + 1)) (4 * 1) inoffs);
       mem ← defined (poke (4 * (n + 1)) cells offs);
       delta ← defined (int_chk (cur - lo));
       defined (shift_offsets (Z.to_nat 1) (4 * (n + 1)) delta mem) : M (list Z)) b = Some (b, inr mem) /\
    length mem = length offs /\ take (Z.to_nat (4 * n)) mem = take (Z.to_nat (4 * n)) offs /\
    get_i32 (4 * n) mem = Some cur /\ get_i32 (4 * (n + 1)) mem = Some (cur + len).
Proof.
  intros Hk Hn Hl Ecur Elo Ehi Hk0 S1 S2 S3.
  destruct (get_i32_peek _ _ _ Elo) as (A & EA & HA & LA). destruct (get_i32_peek _ _ _ Ehi) as (B & EB & HB & LB).
  destruct (Z.eqb_spec k 0) as [-> | Hne].
  - specialize (Hk0 eq_refl). subst lo. replace (4 * (0 + 1)) with (4 * 0 + 4) in EB by lia.
    rewrite (bind_defined _ (A ++ B)) by (by apply peek_join).
    destruct (poke_ok (4 * n) (A ++ B) offs) as (m1 & E1 & Hl1 & Ht1); [lia | rewrite length_app; lia |]. mstep.
    rewrite length_app, LA, LB in Ht1.
    assert (get_i32 (4 * n) m1 = Some (le_signed A)) as G1.
    { apply (get_i32_at _ A offs); [lia | done | done | lia |]. apply (f_equal (take (Z.to_nat (4 * n) + 4))) in Ht1.
      rewrite take_take, Nat.min_l in Ht1 by lia. rewrite Ht1, (assoc_L (++)). apply take_app_length'.
      rewrite length_app, length_take. lia. }
    assert (get_i32 (4 * n + 4) m1 = Some (le_signed B)) as G2.
    { apply (get_i32_at _ B m1); [lia | done | done | lia |].
      replace (Z.to_nat (4 * n + 4) + 4)%nat with (Z.to_nat (4 * n) + (4 + 4))%nat by lia. rewrite Ht1.
      apply (f_equal (take (Z.to_nat (4 * n) + 4))) in Ht1. rewrite take_take, Nat.min_l in Ht1 by lia.
      replace (Z.to_nat (4 * n + 4)) with (Z.to_nat (4 * n) + 4)%nat by lia. rewrite Ht1.
      rewrite (assoc_L (++)), take_app_length' by (rewrite length_app, length_take; lia). done. }
    rewrite HA in G1. rewrite HB in G2.
    destruct (shift_one (4 * n) cur m1 0) as (m2 & E2 & Hl2 & Ht2 & G3 & Hab); [lia | lia | done | done |].
    destruct (shift_one (4 * n + 4) cur m2 (0 + len)) as (m3 & E3 & Hl3 & Ht3 & G4 & _);
      [lia | lia | by rewrite Hab by lia | by replace (0 + len + cur) with (cur + len) by lia |].
    exists m3. change (Z.to_nat (1 + 1)) with 2%nat. cbn [shift_offsets]. unfold defined.
    assert ((v ← get_i32 (4 * n) m1; v ← int_chk (v + cur); mem ← poke (4 * n) (le_bytes 4 v) m1;
             v ← get_i32 (4 * n + 4) mem; v ← int_chk (v + cur); mem ← poke (4 * n + 4) (le_bytes 4 v) mem; Some mem) = Some m3) as ->.
    { destruct (get_i32 (4 * n) m1) as [x|]; cbn [mbind option_bind] in *; [| done].
      destruct (int_chk (x + cur)) as [y|]; cbn [mbind option_bind] in *; [| done]. rewrite E2. cbn [mbind option_bind].
      destruct (get_i32 (4 * n + 4) m2) as [x'|]; cbn [mbind option_bind] in *; [| done].
      destruct (int_chk (x' + cur)) as [y'|]; cbn [mbind option_bind] in *; [| done]. by rewrite E3. }
    split_and!; [done | congruence | | |].
    + eapply take_take_le in Ht3; [| instantiate (1 := Z.to_nat (4 * n)); lia]. rewrite Ht3, Ht2.
      apply (f_equal (take (Z.to_nat (4 * n)))) in Ht1. rewrite take_take, Nat.min_l in Ht1 by lia.
      by rewrite Ht1, take_app_le, take_take, Nat.min_id by (rewrite length_take; lia).
    + assert (get_i32 (4 * n) m3 = get_i32 (4 * n) m2) as ->; [| exact G3].
      apply (get_i32_below _ (4 * n + 4)); [lia | lia | lia | lia | exact Ht3].
    + replace (4 * (n + 1)) with (4 * n + 4) by lia. rewrite G4. f_equal. lia.
  - change (4 * 1) with 4. rewrite (bind_defined _ B) by done.
    destruct (poke_ok (4 * (n + 1)) B offs) as (m1 & E1 & Hl1 & Ht1); [lia | lia |]. mstep. rewrite LB in Ht1.
    rewrite (bind_defined _ (cur - lo)) by (by apply int_chk_id).
    assert (get_i32 (4 * (n + 1)) m1 = Some (le_signed B)) as G1 by (apply (get_i32_at _ B offs); (done || lia)).
    rewrite HB in G1.
    destruct (shift_one (4 * (n + 1)) (cur - lo) m1 (lo + len)) as (m2 & E2 & Hl2 & Ht2 & G3 & _);
      [lia | lia | done | by replace (lo + len + (cur - lo)) with (cur + len) by lia |].
    assert (take (Z.to_nat (4 * (n + 1))) m2 = take (Z.to_nat (4 * (n + 1))) offs) as Ht.
    { rewrite Ht2. apply (f_equal (take (Z.to_nat (4 * (n + 1))))) in Ht1. rewrite take_take, Nat.min_l in Ht1 by lia.
      by rewrite Ht1, take_app_le, take_take, Nat.min_id by (rewrite length_take; lia). }
    exists m2. change (Z.to_nat 1) with 1%nat. cbn [shift_offsets]. unfold defined.
    assert ((v ← get_i32 (4 * (n + 1)) m1; v ← int_chk (v + (cur - lo)); mem ← poke (4 * (n + 1)) (le_bytes 4 v) m1; Some mem)
            = Some m2) as ->.
    { destruct (get_i32 (4 * (n + 1)) m1) as [x|]; cbn [mbind option_bind] in *; [| done].
      destruct (int_chk (x + (cur - lo))) as [y|]; cbn [mbind option_bind] in *; [| done]. by rewrite E2. }
    split_and!; [done | congruence | | |].
    + eapply take_take_le; [| exact Ht]. lia.
    + rewrite <- Ecur. apply (get_i32_below _ (4 * (n + 1))); [lia | lia | lia | lia | exact Ht].
    + rewrite G3. f_equal. lia.
Qed.

End Memory.

Section Columns.
Context {Arrow : ArrowBuffers}.

Lemma InsertValues_ok i k vals b col csize cells c :
  columns b !! i = Some col -> column_sizes b !! i = Some csize -> num_rows b = Z.of_nat (length cells) ->
  col_repr_gen false (NumberType 8) cells col csize ->
  peek (8 * k) 8 (memory (buffer1 (sl_data vals))) = Some c ->
  is_s 32 (csize + 8) -> is_s 32 (num_bytes b + 8) ->
  exists b', InsertValues i k vals 1 b = Some (b', inr tt) /\ inserted_gen false (NumberType 8) i cells c csize 8 b b'.
Proof.
  intros Ec Es En HR Epk H1 H2. pose proof HR as (Hn & Hc & Hw & HF & HW & Ht). cbn in HW.
  pose proof (peek_length _ _ _ _ Epk) as Hl. pose proof (total_fixed 8 cells HF) as HT. unfold total in Hc, HT.
  unfold InsertValues. mstep. rewrite (bind_defined _ 8) by done. mstep. mstep.
  rewrite (bind_defined _ (csize + 8)) by (by apply int_chk_id).
  match goal with |- context [(if ?c then resized ?n false ?buf else mret ?buf) ≫= ?K] =>
    destruct (reserve_ok c n buf K b (length (concat cells)) (csize + 8)) as (buf' & E & Hr1 & Hr2) end.
  { lia. }
  { unfold buffer_capacity. lia. }
  { intros Hf. apply Z.ltb_ge in Hf. unfold buffer_capacity in Hf. lia. }
  { unfold buffer_capacity. destruct (Z.ltb_spec (Z.of_nat (length (memory (buffer1 col)))) (csize + 8)); [left; lia | by right]. }
  rewrite E. clear E. mstep.
  destruct (poke_append (memory buf') (concat cells) c) as (mem & Ep & Hlm & Htm); [by rewrite Hr2 | lia |].
  replace (8 * num_rows b) with (Z.of_nat (length (concat cells))) by lia. mstep. mstep.
  rewrite (add_size_ok _ _ _ csize) by done. eexists. split; [reflexivity |].
  eexists. split; [reflexivity |]. unfold col_repr_gen, total. cbn [ad_length buffer1 buffer2 memory within_gen].
  rewrite length_app, concat_app. cbn [concat length]. rewrite app_nil_r.
  split_and!; [lia | rewrite length_app; lia | lia | apply Forall_app; split; [done | by apply Forall_singleton] | lia | lia | exact Htm].
Qed.

(** What a slice of row [k] of a string column gives. *)
Lemma string_source {strict} scells src scs (k : nat) c :
  col_repr_gen strict StringType scells src scs -> scells !! k = Some c ->
  exists sbuf lo, buffer2 src = Some sbuf /\ get_i32 (4 * Z.of_nat k) (memory (buffer1 src)) = Some lo /\
    get_i32 (4 * (Z.of_nat k + 1)) (memory (buffer1 src)) = Some (lo + Z.of_nat (length c)) /\
    peek lo (Z.of_nat (length c)) (memory sbuf) = Some c /\ 0 <= lo /\ lo + Z.of_nat (length c) <= scs /\
    (Z.of_nat k = 0 -> lo = 0).
Proof.
  intros (Hn & Hc & sbuf & E2 & HW1 & HW2 & Ht & Ho) E. apply within_cap in HW1, HW2.
  pose proof (lookup_lt_Some _ _ _ E) as Hk. destruct (concat_slice scells k c E) as (_ & Hle & Hcat).
  exists sbuf, (total (take k scells)). unfold total in *. split_and!; [done | apply Ho; lia | | | lia | lia |].
  - replace (Z.of_nat k + 1) with (Z.of_nat (S k)) by lia. rewrite Ho by lia. rewrite Hcat, length_app. f_equal. lia.
  - apply (peek_concat scells); [done | done | lia].
  - intros Hz. assert (k = 0%nat) as -> by lia. done.
Qed.

Lemma insert_strings_ok {strict} i k vals b col csize cells scells scs c :
  columns b !! i = Some col -> column_sizes b !! i = Some csize -> num_rows b = Z.of_nat (length cells) ->
  col_repr_gen false StringType cells col csize ->
  col_repr_gen strict StringType scells (sl_data vals) scs -> scells !! k = Some c -> scs < 2 ^ 31 ->
  is_s 32 (csize + Z.of_nat (length c)) -> is_s 32 (num_bytes b + Z.of_nat (length c)) ->
  exists b', insert_strings i (Z.of_nat k) vals 1 b = Some (b', inr tt) /\
    inserted_gen false StringType i cells c csize (Z.of_nat (length c)) b b'.
Proof.
  intros Ec Es En HR HS Ek Hscs H1 H2.
  destruct (string_source scells _ scs k c HS Ek) as (sbuf & lo & E2s & Elo & Ehi & Epk & Hlo & Hhi & Hk0).
  destruct HR as (Hn & Hc & buf2 & E2 & HW1 & HW2 & Ht & Ho). cbn in HW1, HW2. set (len := Z.of_nat (length c)) in *.
  assert (0 <= csize) as Hc0 by (unfold total in Hc; lia).
  assert (is_s 32 csize /\ is_s 32 (csize - lo) /\ is_s 32 len) as (S1 & S2 & S3).
  { unfold is_s in *. change (2 ^ (32 - 1)) with (2 ^ 31) in *. lia. }
  unfold insert_strings. mstep. mstep. mstep. mstep.
  match goal with |- context [(if ?c then resized ?n false ?buf else mret ?buf) ≫= ?K] =>
    destruct (reserve_ok c n buf K b (Z.to_nat (4 * (num_rows b + 1))) (4 * (num_rows b + 2))) as (obuf & E & Hr1 & Hr2) end.
  { lia. }
  { unfold buffer_capacity. lia. }
  { intros Hf. apply Z.ltb_ge in Hf. unfold buffer_capacity in Hf. lia. }
  { left. unfold buffer_capacity. lia. }
  rewrite E. clear E. mstep. mstep. mstep.
  rewrite (bind_defined _ len) by (replace (lo + len - lo) with len by lia; by apply int_chk_id).
  rewrite (bind_defined _ (csize + len)) by (by apply int_chk_id).
  match goal with |- context [(if ?c then resized ?n false ?buf else mret ?buf) ≫= ?K] =>
    destruct (reserve_ok c n buf K b (length (concat cells)) (csize + len)) as (dbuf & E & Hd1 & Hd2) end.
  { unfold total in HW2. lia. }
  { lia. }
  { intros Hf. apply Z.ltb_ge in Hf. exact Hf. }
  { left. lia. }
  rewrite E. clear E.
  assert (forall j, (j <= length cells)%nat -> get_i32 (4 * Z.of_nat j) (memory obuf) = Some (total (take j cells))) as Hoo.
  { intros j Hj. rewrite <- (Ho j Hj). apply (get_i32_below _ (4 * (num_rows b + 1))); [lia | lia | lia | lia | exact Hr2]. }
  assert (get_i32 (4 * num_rows b) (memory obuf) = Some csize) as Ecur.
  { rewrite En, Hoo, take_ge by lia. by rewrite Hc. }
  mstep.
  destruct (copy_offsets_ok (Z.of_nat k) (num_rows b) (memory obuf) (memory (buffer1 (sl_data vals))) csize lo len b)
    as (omem & Eo & Hlo' & Hto & Go & Gn); [lia | lia | lia | done | done | done | done | done | done | done |].
  rewrite (bind_val _ _ b b omem Eo). mstep. mstep.
  destruct (poke_append (memory dbuf) (concat cells) c) as (dmem & Ep & Hld & Htd); [by rewrite Hd2 | unfold total in Hc; lia |].
  assert (Z.of_nat (length (concat cells)) = csize) as Hcc by (unfold total in Hc; lia). rewrite Hcc in Ep.
  mstep. mstep. rewrite (add_size_ok _ _ _ csize) by done. eexists. split; [reflexivity |].
  eexists. split; [reflexivity |]. unfold col_repr_gen. cbn [ad_length buffer1 buffer2 memory].
  split_and!; [rewrite length_app; cbn; lia | rewrite total_snoc; lia |].
  eexists. split_and!; [reflexivity | | | |]; cbn [within_gen memory].
  - rewrite length_app. cbn. lia.
  - rewrite total_snoc. lia.
  - rewrite concat_app. cbn. by rewrite app_nil_r.
  - intros j Hj. rewrite length_app in Hj. cbn in Hj. destruct (decide (j < length cells)%nat) as [Hlt | Hge].
    + rewrite take_app_le by lia. rewrite <- (Hoo j) by lia.
      apply (get_i32_below _ (4 * num_rows b)); [lia | lia | lia | lia | exact Hto].
    + destruct (decide (j = length cells)) as [-> | Hne].
      * rewrite take_app_le, take_ge by lia. rewrite <- En, Go. by rewrite Hc.
      * assert (j = S (length cells)) as -> by lia. rewrite take_ge by (rewrite length_app; cbn; lia).
        rewrite total_snoc. replace (4 * Z.of_nat (S (length cells))) with (4 * (num_rows b + 1)) by lia. rewrite Gn, Hc. done.
Qed.

(** A type the deletion supports: eight-byte numbers and strings. *)
Definition type8 (ty : DataType) : Prop := ty = NumberType 8 \/ ty = StringType.

(** The block the slices are taken from. *)
Definition source_ok (types : list DataType) (srows : list (list (list Z))) (cols : list ArrayData) : Prop :=
  forall j ty, types !! j = Some ty -> exists src scs, cols !! j = Some src /\ 0 <= scs < 2 ^ 31 /\
    col_repr_gen true ty (col_cells j srows) src scs.

Lemma insert_arrays_ok types srows cols rows (k : nat) row limit :
  Forall type8 types -> source_ok types srows cols -> srows !! k = Some row -> length row = length types ->
  limit < 2 ^ 31 -> forall rest i done b,
  @mid_gen false rows i done b -> schema b = types -> drop i types = rest ->
  num_bytes b + total (drop i row) <= limit ->
  exists b', insert_arrays rest i (Z.of_nat k) 1 (slice_of (Z.of_nat k) 1 <$> cols) b = Some (b', inr tt) /\
    same_frame b b' /\ num_bytes b' = num_bytes b + total (drop i row) /\
    @mid_gen false rows (i + length rest) (done ++ drop i row) b'.
Proof.
  intros HT HS Ek Hrow Hlim. induction rest as [|ty rest IH]; intros i done b HM Es Hd Hb.
  { apply (f_equal length) in Hd. rewrite length_drop in Hd. cbn in Hd. rewrite drop_ge by lia. exists b. cbn.
    rewrite app_nil_r, Nat.add_0_r. split_and!; [done | done | unfold total; cbn; lia | done]. }
  assert (types !! i = Some ty) as Ety by (rewrite <- (Nat.add_0_r i), <- lookup_drop, Hd; done).
  destruct (HS i ty Ety) as (src & scs & Esrc & Hscs & HR).
  destruct (lookup_lt_is_Some_2 row i) as [c Ei]; [rewrite Hrow; by eapply lookup_lt_Some |].
  assert (drop i row = c :: drop (S i) row) as Hdr by (by apply drop_S).
  assert (total (drop i row) = Z.of_nat (length c) + total (drop (S i) row)) as Htot.
  { rewrite Hdr. unfold total. cbn [concat]. rewrite length_app. lia. }
  assert (0 <= total (drop (S i) row)) as Hnn by (unfold total; lia).
  assert (col_cells i srows !! k = Some c) as Eck.
  { unfold col_cells. rewrite list_lookup_fmap, Ek. cbn. by rewrite (nth_lookup_Some _ _ _ _ Ei). }
  rewrite <- Es in Ety. destruct (m_col _ _ _ _ HM i ty Ety) as (col & cs & E1 & E2 & HR2).
  rewrite decide_False, app_nil_r in HR2 by lia.
  pose proof (zsum_elem _ _ _ (mid_nonneg _ _ _ _ HM) E2) as Hcs. rewrite <- (m_sum _ _ _ _ HM) in Hcs.
  assert (num_rows b = Z.of_nat (length (col_cells i rows))) as En
    by (unfold col_cells; rewrite length_fmap; apply (m_rows _ _ _ _ HM)).
  assert (is_s 32 (cs + Z.of_nat (length c)) /\ is_s 32 (num_bytes b + Z.of_nat (length c))) as [H1 H2].
  { unfold is_s. change (2 ^ (32 - 1)) with (2 ^ 31). lia. }
  assert (exists b1, (match ty with
      | NumberType _ | CTypeType _ => InsertValues i (Z.of_nat k) (slice_of (Z.of_nat k) 1 src) 1
      | StringType => insert_strings i (Z.of_nat k) (slice_of (Z.of_nat k) 1 src) 1
      | FixedSizeBinaryType w => insert_binaries w i (Z.of_nat k) (slice_of (Z.of_nat k) 1 src) 1
      | _ => throw LogicError end) b = Some (b1, inr tt) /\
    inserted_gen false ty i (col_cells i rows) c cs (Z.of_nat (length c)) b b1) as (b1 & E & HI).
  { destruct (Forall_lookup_1 _ _ _ _ HT ltac:(rewrite Es in Ety; exact Ety)) as [-> | ->].
    - pose proof (read_column_ok _ _ _ _ _ _ HR Eck) as Epk. cbn [read_column] in Epk.
      pose proof (peek_length _ _ _ _ Epk) as Hl. rewrite Hl in *. by apply (InsertValues_ok i _ _ b col cs).
    - eapply insert_strings_ok; eauto. lia. }
  destruct (IH (S i) (done ++ [c]) b1) as (b' & E' & HF' & Hnb & HM').
  { by eapply mid_step. }
  { destruct (inserted_frame _ _ _ _ _ _ _ _ _ HI) as (-> & _). done. }
  { by rewrite <- Nat.add_1_r, <- drop_drop, Hd. }
  { rewrite (inserted_bytes _ _ _ _ _ _ _ _ _ HI). lia. }
  rewrite (inserted_bytes _ _ _ _ _ _ _ _ _ HI) in Hnb.
  exists b'. cbn [insert_arrays]. rewrite (bind_defined _ (slice_of (Z.of_nat k) 1 src)) by (by rewrite list_lookup_fmap, Esrc).
  rewrite (bind_val _ _ _ _ _ E). split_and!; [exact E' | | lia |].
  - eapply same_frame_trans; [by eapply inserted_frame | done].
  - rewrite Hdr. rewrite <- (assoc_L (++)) in HM'. cbn [app length] in *.
    by replace (i + S (length rest))%nat with (S i + length rest)%nat by lia.
Qed.

End Columns.

(** ** A row of another block *)

Section Rows.
Context {Arrow : ArrowBuffers}.

Lemma padding_facts buf : 0 <= size buf <= Z.of_nat (length (memory buf)) -> Forall is_byte (memory buf) ->
  length (memory (ZeroPadding buf)) = length (memory buf) /\ Forall is_byte (memory (ZeroPadding buf)) /\
  forall i, Z.of_nat i < size buf -> memory (ZeroPadding buf) !! i = memory buf !! i.
Proof.
  intros Hs HB. unfold ZeroPadding. cbn [memory]. split_and!.
  - rewrite length_app, length_take, length_replicate. lia.
  - apply Forall_app. split; [by apply Forall_take | apply Forall_replicate; unfold is_u; lia].
  - intros i Hi. rewrite lookup_app_l by (rewrite length_take; lia). apply lookup_take_lt. lia.
Qed.

Lemma div8_lt r bound : 0 <= r < bound -> (Z.to_nat (r / 8) < Z.to_nat bound)%nat.
Proof.
  intros Hr. apply Z2Nat.inj_lt; [apply Z.div_pos; lia | lia |].
  pose proof (Z.div_le_upper_bound r 8 r ltac:(lia) ltac:(lia)). lia.
Qed.

(** The bitmap part of [InsertRecords] for one row. *)
Lemma array_valid_step {strict} b rows {B} (k : unit -> M B) :
  @block_rep_gen strict b rows ->
  exists v, (
    (valid_buffer ← resized (size (buffer1 (valid b)) + 1 / 8 + 1) false (buffer1 (valid b));
     _ ← modify (set_valid_data (mkArrayData (ad_length (valid b)) (ZeroPadding valid_buffer) (buffer2 (valid b))));
     _ ← set_valid_rows (Z.to_nat 1) (num_rows b);
     _ ← modify (fun b => set_valid_data (mkArrayData (ad_length (valid b) + 1) (buffer1 (valid b)) (buffer2 (valid b))) b);
     k tt) b = k tt (set_valid_data v b)) /\
    ad_length v = Z.of_nat (length rows) + 1 /\ within (buffer1 v) (Z.of_nat (length rows) + 1) /\
    Forall is_byte (memory (buffer1 v)) /\
    forall b' j, valid b' = v -> (j < length rows + 1)%nat -> get_valid (Z.of_nat j) b' = Some true.
Proof.
  intros []. pose proof (m_rows _ _ _ _ r_mid0) as Hn. change (1 / 8) with 0. rewrite Z.add_0_r.
  pose proof (within_resize _ _ 1 r_valid_room0 ltac:(lia)) as [H3 H4]. cbn in H3, H4. pose proof r_valid_room0 as [H5 H6].
  rewrite bind_resized by lia. rewrite bind_modify.
  set (buf := mkBuffer _ _). destruct (padding_facts buf) as (P1 & P2 & P3); [cbn; lia | by apply resize_is_byte |].
  cbn [size buf] in P3. set (b1 := set_valid_data _ b).
  destruct (set_valid_ok (num_rows b) true b1) as (mem & E & Hl & HB & Hget); [lia | | done |].
  { cbn [b1 valid set_valid_data buffer1]. rewrite P1. pose proof (div8_lt (num_rows b) (num_rows b + 1)). cbn. lia. }
  assert (set_valid_rows (Z.to_nat 1) (num_rows b) b1 =
    Some (set_valid_data (mkArrayData (ad_length (valid b1)) (mkBuffer (size (buffer1 (valid b1))) mem) (buffer2 (valid b1))) b1, inr tt)) as Er.
  { change (Z.to_nat 1) with 1%nat. cbn [set_valid_rows]. by rewrite (bind_val _ _ _ _ _ E). }
  erewrite bind_val by exact Er. rewrite bind_modify. cbn [valid set_valid_data ad_length buffer1 buffer2 b1].
  set (v := mkArrayData _ _ _). exists v. cbn [b1 valid set_valid_data buffer1] in Hl. rewrite P1 in Hl. cbn in Hl.
  split_and!; [done | cbn; lia | | done |].
  - split; cbn; rewrite ?Hl; lia.
  - intros b' j Hv Hj.
    rewrite (Hget (Z.of_nat j) b'); [| lia | | by rewrite Hv].
    2:{ rewrite Hl. pose proof (div8_lt (Z.of_nat j) (num_rows b + 1)). lia. }
    destruct (Z.eqb_spec (Z.of_nat j) (num_rows b)) as [|Hne]; [done |].
    rewrite <- (r_valid0 j) by lia. unfold get_valid. cbn [b1 valid set_valid_data buffer1].
    pose proof (div8_lt (Z.of_nat j) (Z.of_nat (length rows)) ltac:(lia)) as Hd.
    rewrite P3 by lia. unfold buf. cbn [memory]. rewrite resize_keeps; [done | lia | lia].
Qed.

Lemma InsertRecords_ok types srows cols rows (k : nat) row b :
  Forall type8 types -> source_ok types srows cols -> cols <> [] -> srows !! k = Some row -> length row = length types ->
  @block_rep_gen false b rows -> schema b = types -> Z.of_nat (length rows) + 1 < 2 ^ 31 ->
  num_bytes b + total row <= capacity b + 17 * num_cols b ->
  exists b' r, InsertRecords (slice_of (Z.of_nat k) 1 <$> cols) b = Some (b', inr r) /\
    @block_rep_gen false b' (rows ++ [row]) /\ schema b' = schema b /\ capacity b' = capacity b /\ num_cols b' = num_cols b /\
    id b' = id b.
Proof.
  intros HT HS Hne Ek Hrow HR Es Hn Hb. pose proof HR as []. pose proof (m_rows _ _ _ _ r_mid0) as Hnr.
  destruct cols as [|c0 cols']; [done |]. set (cols := c0 :: cols') in *.
  unfold InsertRecords. rewrite (bind_defined _ (slice_of (Z.of_nat k) 1 c0)) by done. cbn [sl_length sl_offset slice_of].
  change (1 =? 0) with false. cbv iota. mstep.
  destruct (array_valid_step b rows (fun _ => _ ← insert_arrays (schema b) 0 (Z.of_nat k) 1 (slice_of (Z.of_nat k) 1 <$> cols);
      b' ← get; total ← defined (int_chk (num_rows b' + 1)); _ ← modify (set_num_rows total); mret (num_rows b' + 1 - 1)) HR)
      as (v & E & Hv1 & Hv2 & Hv3 & Hv4).
  cbv beta in E. rewrite E. clear E.
  destruct (insert_arrays_ok types srows cols rows k row (capacity b + 17 * num_cols b) HT HS Ek Hrow ltac:(lia)
    (schema b) 0 [] (set_valid_data v b)) as (b1 & E1 & (F1 & F2 & F3 & F4 & F5 & F6 & F7) & Hnb & HM); rewrite ?drop_0; try done.
  { by destruct r_mid0. }
  rewrite (bind_val _ _ _ _ _ E1). mstep. cbn in F1, F2, F3, F4, F5, F6, F7. rewrite drop_0 in *. cbn in Hnb, HM.
  rewrite (bind_defined _ (num_rows b1 + 1)) by (apply int_chk_id; unfold is_s; change (2 ^ (32 - 1)) with (2 ^ 31); lia).
  mstep. eexists _, _. split; [reflexivity |]. split; [| split_and!; done].
  constructor; cbn [schema num_cols num_bytes capacity valid set_num_rows]; rewrite ?F1, ?F2, ?F3, ?F5, ?length_app; cbn [length]; try done.
  - apply mid_complete; [by rewrite F1 | by rewrite F4, ?Hnr].
  - apply Forall_app. split; [done |]. apply Forall_singleton. by rewrite Es.
  - lia.
  - lia.
  - by rewrite Nat2Z.inj_add.
  - intros j Hj. apply Hv4; [done | lia].
Qed.


(** ** The rows that are left *)

Lemma rows_bytes_cons row rows : rows_bytes (row :: rows) = total row + rows_bytes rows.
Proof. done. Qed.

Lemma rows_bytes_nonneg rows : 0 <= rows_bytes rows.
Proof. induction rows as [|row rows IH]; [done |]. rewrite rows_bytes_cons. unfold total. lia. Qed.

Lemma rows_bytes_app r1 r2 : rows_bytes (r1 ++ r2) = rows_bytes r1 + rows_bytes r2.
Proof. unfold rows_bytes. by rewrite fmap_app, zsum_app. Qed.

Lemma rows_bytes_take k rows : rows_bytes (take k rows) <= rows_bytes rows.
Proof.
  rewrite <- (take_drop k rows) at 2. rewrite rows_bytes_app. pose proof (rows_bytes_nonneg (drop k rows)). lia.
Qed.

Lemma rows_bytes_delete d rows : rows_bytes (delete d rows) <= rows_bytes rows.
Proof.
  revert d. induction rows as [|row rows IH]; intros d; [done |].
  destruct d as [|d]; [rewrite rows_bytes_cons; change (delete 0%nat (row :: rows)) with rows; unfold total; lia |].
  change (delete (S d) (row :: rows)) with (row :: delete d rows). rewrite !rows_bytes_cons. specialize (IH d). lia.
Qed.

Lemma delete_take_step {A} (d k : nat) (l : list A) x : l !! k = Some x ->
  delete d (take (S k) l) = if decide (k = d) then delete d (take k l) else delete d (take k l) ++ [x].
Proof.
  intros E. rewrite (take_S_r _ _ _ E). pose proof (lookup_lt_Some _ _ _ E) as Hk.
  assert (length (take k l) = k) as Hl by (rewrite length_take; lia).
  rewrite !delete_take_drop. destruct (decide (k = d)) as [<- | Hne].
  - rewrite take_app_le, drop_ge, (drop_ge (take k l)) by (rewrite ?length_app, ?Hl; cbn; lia). done.
  - destruct (decide (k < d)%nat).
    + rewrite (drop_ge (_ ++ _)), (drop_ge (take k l)), (take_ge (_ ++ _)), (take_ge (take k l))
        by (rewrite ?length_app, ?Hl; cbn; lia). by rewrite !app_nil_r.
    + rewrite take_app_le, drop_app_le by lia. by rewrite (assoc_L (++)).
Qed.

Lemma rep_row_id_map m b rows : @block_rep_gen false b rows -> @block_rep_gen false (set_row_id_map m b) rows.
Proof. intros []. constructor; [by destruct r_mid0 | done..]. Qed.

(** Every row id is looked up in a map that was never filled. *)
Definition only_zero (m : gmap Z Z) : Prop := forall k v, m !! k = Some v -> v = 0.

Lemma row_ref_zero k m : only_zero m -> fst (row_ref k m) = 0 /\ only_zero (snd (row_ref k m)).
Proof.
  intros HZ. unfold row_ref. destruct (m !! k) as [v|] eqn:E; cbn; [eauto |]. split; [done |].
  intros k' v Hk. apply lookup_insert_Some in Hk as [[_ <-] | [_ Hk]]; eauto.
Qed.

Lemma rebuild_ok types srows cols filter_data d cap :
  Forall type8 types -> source_ok types srows cols -> cols <> [] ->
  Forall (fun row => length row = length types) srows ->
  (forall k, (k < length srows)%nat -> exists byte, filter_data !! Z.to_nat (Z.of_nat k / 8) = Some byte /\
     (Z.land (Z.shiftr byte (Z.of_nat k mod 8)) 1 =? 1) = bool_decide (k <> d)) ->
  Z.of_nat (length srows) < 2 ^ 31 -> rows_bytes srows <= cap + 17 * Z.of_nat (length types) ->
  forall n k rc row_map map b, (k + n)%nat = length srows -> only_zero row_map ->
  @block_rep_gen false b (delete d (take k srows)) -> schema b = types -> capacity b = cap ->
  exists b' row_map' map', rebuild n (Z.of_nat k) rc filter_data cols row_map map b = Some (b', row_map', map', None) /\
    @block_rep_gen false b' (delete d srows) /\ schema b' = types /\ capacity b' = cap /\ id b' = id b /\
    forall key, key <> 0 -> map' !! key = map !! key.
Proof.
  intros HT HS Hne HL Hbits Hlen Hbytes. induction n as [|n IH]; intros k rc row_map map b Hk HZ HR Es Ec.
  { exists b, row_map, map. rewrite take_ge in HR by lia. split_and!; done. }
  destruct (lookup_lt_is_Some_2 srows k) as [row Ek]; [lia |].
  pose proof (delete_take_step d k srows row Ek) as Hstep.
  destruct (Hbits k) as (byte & Eb & Hbit); [lia |]. cbn [rebuild]. rewrite Eb. cbn [mbind option_bind].
  replace (Z.of_nat k + 1) with (Z.of_nat (S k)) by lia. rewrite Hbit. case_bool_decide as Hd.
  - rewrite decide_False in Hstep by done. destruct (row_ref_zero (Z.of_nat k + rc) row_map HZ) as [H0 HZ'].
    destruct (row_ref _ row_map) as [row_id rm] eqn:Erm. cbn in H0, HZ'. subst row_id.
    destruct (info_ref 0 map) as [info m1] eqn:Ei.
    assert (forall key, key <> 0 -> m1 !! key = map !! key) as Hm1.
    { intros key Hkey. unfold info_ref in Ei. destruct (map !! 0); simplify_eq; [done |]. by rewrite lookup_insert_ne. }
    set (b1 := set_row_id_map _ b).
    destruct (InsertRecords_ok types srows cols (delete d (take k srows)) k row b1) as (b2 & r & E & HR2 & Es2 & Ec2 & _ & Ei2);
      try done; [by eapply Forall_lookup_1 in HL | by apply rep_row_id_map | | |].
    { assert (length (delete d (take k srows) ++ [row]) <= length srows)%nat as Hle.
      { rewrite <- Hstep, delete_take_drop, length_app, length_take, length_drop, length_take. lia. }
      rewrite length_app in Hle. cbn in Hle. lia. }
    { pose proof (rows_bytes_take (S k) srows). pose proof (rows_bytes_delete d (take (S k) srows)) as Hdel.
      rewrite Hstep, rows_bytes_app, rows_bytes_cons in Hdel. change (rows_bytes []) with 0 in Hdel.
      pose proof (rep_bytes _ _ HR) as Hnb. cbn [b1 num_bytes capacity num_cols set_row_id_map].
      rewrite (r_cols _ _ HR), Es, Ec. lia. }
    rewrite <- Hstep in HR2. rewrite E. cbn [mbind option_bind].
    destruct (IH (S k) rc rm (<[0 := mkBlockInfo (block_id info) (Z.of_nat k)]> m1) b2) as (b' & rm' & m' & E' & HR' & Hs' & Hc' & Hi' & Hm');
      [lia | done | done | by rewrite Es2 | by rewrite Ec2 |].
    exists b', rm', m'. split_and!; [done | done | done | done | by rewrite Hi', Ei2 |].
    intros key Hkey. rewrite Hm', lookup_insert_ne by done. auto.
  - assert (k = d) as -> by (apply dec_stable; tauto). rewrite decide_True in Hstep by done. rewrite <- Hstep in HR.
    destruct (IH (S d) (rc + 1) row_map map b) as (b' & rm' & m' & E' & HR' & Hs' & Hc' & Hi' & Hm'); [lia | done.. |].
    exists b', rm', m'. done.
Qed.

End Rows.

End ArrayInsert.

Import ArrayInsert.

Module Deletion.

Section Delete.
Context {Arrow : ArrowBuffers} {Begin : MapBegin}.

Lemma col_repr_weaken ty cells col cs : col_repr_gen true ty cells col cs -> col_repr_gen false ty cells col cs.
Proof.
  unfold col_repr_gen. intros (H1 & H2 & H). split_and!; [done | done |]. destruct ty; try done.
  - destruct H as (H3 & H4 & H5 & H6). split_and!; [done | done | by apply within_cap in H5 | done].
  - destruct H as (buf2 & H3 & H4 & H5 & H6 & H7). exists buf2. apply within_cap in H4, H5. done.
Qed.

Lemma rep_weaken b rows : block_rep b rows -> @block_rep_gen false b rows.
Proof.
  intros []. constructor; try done. destruct r_mid0. constructor; try done.
  intros j ty Ej. destruct (m_col0 j ty Ej) as (col & cs & E1 & E2 & HR). exists col, cs.
  split_and!; [done | done | by apply col_repr_weaken].
Qed.

Lemma rep_source b rows : block_rep b rows -> source_ok (schema b) rows (columns b).
Proof.
  intros HR j ty Ej. pose proof HR as []. destruct (m_col _ _ _ _ r_mid0 j ty Ej) as (col & cs & E1 & E2 & HC).
  rewrite decide_False, app_nil_r in HC by lia.
  pose proof (zsum_elem _ _ _ (mid_nonneg _ _ _ _ r_mid0) E2) as Hcs. rewrite <- (m_sum _ _ _ _ r_mid0) in Hcs.
  exists col, cs. split_and!; [done | | lia | done].
  pose proof (mid_nonneg _ _ _ _ r_mid0) as HN. by eapply Forall_lookup_1 in HN.
Qed.

(** The bitmap after the bit of row [d] is cleared. *)
Lemma clear_row b rows d : block_rep b rows -> (d < length rows)%nat ->
  exists mem, set_valid (Z.of_nat d) false b =
      Some (set_valid_data (mkArrayData (ad_length (valid b)) (mkBuffer (size (buffer1 (valid b))) mem) (buffer2 (valid b))) b, inr tt) /\
    forall k, (k < length rows)%nat -> exists byte, mem !! Z.to_nat (Z.of_nat k / 8) = Some byte /\
      (Z.land (Z.shiftr byte (Z.of_nat k mod 8)) 1 =? 1) = bool_decide (k <> d).
Proof.
  intros [] Hd. pose proof r_valid_room0 as [V1 V2].
  assert (forall k, (k < length rows)%nat -> (Z.to_nat (Z.of_nat k / 8) < length (memory (buffer1 (valid b))))%nat) as H8.
  { intros k Hk. pose proof (div8_lt (Z.of_nat k) (Z.of_nat (length rows))). lia. }
  destruct (set_valid_ok (Z.of_nat d) false b) as (mem & Esv & Hl & HB & Hget); [lia | auto | done |].
  exists mem. split; [exact Esv |]. intros k Hk. specialize (H8 k Hk). rewrite <- Hl in H8.
  destruct (lookup_lt_is_Some_2 mem _ H8) as [byte Ebyte]. exists byte. split; [done |].
  set (ob := set_valid_data _ b) in Esv.
  specialize (Hget (Z.of_nat k) ob ltac:(lia) H8 eq_refl). rewrite r_valid0 in Hget by done.
  unfold get_valid in Hget. cbn [ob valid set_valid_data buffer1 memory] in Hget. rewrite Ebyte in Hget.
  cbn [mbind option_bind] in Hget.
  case_bool_decide as Hkd; destruct (Z.eqb_spec (Z.of_nat k) (Z.of_nat d)); simplify_eq/=; try congruence; lia.
Qed.

(** The rows of the new block are the other rows of the old one. *)
Lemma DeleteRecordTable_ok types cap R t row_id a d rows :
  schema_ok types cap -> Forall type8 types -> tinv types cap R t ->
  block_map t !! to_i32 row_id = Some (mkBlockInfo (Z.of_nat a) (Z.of_nat d)) -> R !! a = Some rows -> (d < length rows)%nat ->
  t_num_rows t < 2 ^ 31 ->
  exists t' ob b', DeleteRecordTable row_id t = Some (t', inr tt) /\ t_num_rows t' = t_num_rows t - 1 /\
    blocks t' = <[Z.of_nat a := length (heap t)]> (blocks t) /\
    heap t' = <[a := ob]> (heap t) ++ [b'] /\ @block_rep_gen false b' (delete d rows) /\ id b' = Z.of_nat a /\
    (forall key, key <> 0 -> block_map t' !! key = block_map t !! key).
Proof.
  intros HS HT HI Em Er Hd Hn. pose proof HS as (H1 & H2 & H3 & H4).
  destruct (tinv_block _ _ _ _ a HI) as (b & rows' & Eb & Er' & HR & Es & Ec & Ei & _); [by eapply lookup_lt_Some |].
  rewrite Er in Er'. injection Er' as <-. pose proof HR as [].
  pose proof (ti_small _ _ _ _ HI a rows Er) as Hsm.
  assert (blocks t !! Z.of_nat a = Some a) as Ebl
    by (apply (ti_blocks _ _ _ _ HI); split; [done | by eapply lookup_lt_Some]).
  destruct (clear_row b rows d HR Hd) as (mem & Esv & Hbits).
  set (ob := set_valid_data _ b) in Esv.
  destruct (newBlock_ok (Z.of_nat a) types cap false H1 H2 H3 H4) as (nb & Enb & HRn & Esn & Ecn & Ein).
  assert (exists c0, columns b !! 0%nat = Some c0 /\ ad_length c0 = Z.of_nat (length rows)) as (c0 & Ec0 & Hc0).
  { destruct types as [|ty0 types']; [done |].
    destruct (m_col _ _ _ _ r_mid0 0%nat ty0) as (col & cs & E1 & _ & HC & _); [by rewrite Es |]. exists col.
    rewrite decide_False, app_nil_r in HC by lia. unfold col_cells in HC. rewrite length_fmap in HC. done. }
  destruct (rebuild_ok types rows (columns b) mem d cap HT) with (n := length rows) (k := 0%nat) (rc := 0)
    (row_map := row_id_map b) (map := block_map t) (b := nb) as (b' & rm & map' & Er2 & HR' & Es' & Ec' & Ei' & Hmap); try done.
  { rewrite <- Es. by apply rep_source. }
  { intros Hnil. by rewrite Hnil in Ec0. }
  { by rewrite <- Es. }
  { lia. }
  { rewrite <- (rep_bytes _ _ HR), <- Ec, <- Es, <- r_cols0. lia. }
  { rewrite r_ids0. by intros k v. }
  { by apply rep_weaken. }
  unfold DeleteRecordTable. mstep. rewrite Em. cbn [block_id row_num].
  assert (get_block (Z.of_nat a) t = Some (t, inr a)) as Eg by (unfold get_block; mstep; by rewrite Ebl).
  mstep. rewrite (wrapu_id 32) by (unfold is_u; change (2 ^ 32) with (2 * 2 ^ 31); lia).
  assert (on_block a (set_valid (Z.of_nat d) false) t = Some (set_heap (<[a := ob]> (heap t)) t, inr tt)) as Eon.
  { unfold on_block. rewrite Eb. cbn [mbind option_bind]. by rewrite Esv. }
  mstep. set (t1 := set_heap _ t).
  assert (heap t1 !! a = Some ob) as Eh by (cbn; apply list_lookup_insert_eq; by eapply lookup_lt_Some).
  assert (the_block a t1 = Some (t1, inr ob)) as Eo by (unfold the_block; mstep; unfold defined; by rewrite Eh).
  mstep. rewrite (ti_schema _ _ _ _ HI). change (capacity ob) with (capacity b). rewrite Ec. mstep.
  rewrite (bind_val (or_throw (inr nb)) _ t1 t1 nb) by done.
  rewrite (bind_defined _ c0) by done. mstep. rewrite Hc0, Nat2Z.id.
  rewrite (bind_defined _ (b', rm, map', None)) by exact Er2.
  rewrite (bind_defined _ (t_num_rows t - 1)).
  2:{ apply int_chk_id. pose proof (ti_rows _ _ _ _ HI). unfold is_s. change (2 ^ (32 - 1)) with (2 ^ 31). lia. }
  eexists _, _, b'. split; [reflexivity |]. unfold replace_block. rewrite Eh. cbn [t_num_rows blocks heap block_map block_id t1 set_heap].
  rewrite length_insert, list_insert_insert_eq. split_and!; [done | done | reflexivity | done | congruence | done].
Qed.

(** A sequence of deletions. *)
Fixpoint delete_rows (ids : list Z) : T unit :=
  match ids with
  | [] => mret tt
  | row_id :: ids' => _ ← DeleteRecordTable row_id; delete_rows ids'
  end.

(** Reading a stored row, the other way round. *)
Lemma read_cell_inv {strict} b rows i j c : @block_rep_gen strict b rows -> (i < length rows)%nat ->
  read_cell j (Z.of_nat i) b = Some c -> exists row, rows !! i = Some row /\ row !! j = Some c.
Proof.
  intros HR Hi E. destruct (lookup_lt_is_Some_2 rows i Hi) as [row Er]. exists row. split; [done |].
  pose proof (Forall_lookup_1 _ _ _ _ (r_shape _ _ HR) Er) as Hl. cbv beta in Hl.
  assert (j < length row)%nat as Hj.
  { rewrite Hl. unfold read_cell in E. destruct (schema b !! j) eqn:Es; [by eapply lookup_lt_Some | done]. }
  destruct (lookup_lt_is_Some_2 row j Hj) as [c' Ec]. rewrite (read_cell_ok b rows i j row c' HR Er Ec) in E. congruence.
Qed.

Definition moved (d r : Z) : Z := if r <? d then r else r - 1.

Lemma delete_moved {A} (d i : nat) (l : list A) : i <> d ->
  delete d l !! Z.to_nat (moved (Z.of_nat d) (Z.of_nat i)) = l !! i.
Proof.
  intros Hne. unfold moved. destruct (Z.ltb_spec (Z.of_nat i) (Z.of_nat d)).
  - rewrite list_lookup_delete_lt by lia. f_equal. lia.
  - rewrite list_lookup_delete_ge by lia. f_equal. lia.
Qed.

(** Every other row of the old block, one place earlier when it came later. *)
Definition keeps_others (d : Z) (b b' : Block) : Prop :=
  num_rows b' = num_rows b - 1 /\
  forall r j c, 0 <= r < num_rows b -> r <> d -> read_cell j r b = Some c ->
    get_valid (moved d r) b' = Some true /\ read_cell j (moved d r) b' = Some c.

Lemma keeps_others_ok {s1 s2} b b' rows d : @block_rep_gen s1 b rows -> @block_rep_gen s2 b' (delete d rows) ->
  (d < length rows)%nat -> keeps_others (Z.of_nat d) b b'.
Proof.
  intros HR HR' Hd. pose proof (m_rows _ _ _ _ (r_mid _ _ HR)) as Hn. pose proof (m_rows _ _ _ _ (r_mid _ _ HR')) as Hn'.
  assert (length (delete d rows) = length rows - 1)%nat as Hlen.
  { rewrite delete_take_drop, length_app, length_take, length_drop. lia. }
  split; [lia |]. intros r j c Hr Hne Ec. rewrite <- (Z2Nat.id r) in * by lia. set (i := Z.to_nat r) in *.
  destruct (read_cell_inv b rows i j c HR) as (row & Er & Ej); [lia | done |].
  rewrite <- (delete_moved d i rows) in Er by lia.
  assert (0 <= moved (Z.of_nat d) (Z.of_nat i)) as H0 by (unfold moved; destruct (Z.ltb_spec (Z.of_nat i) (Z.of_nat d)); lia).
  rewrite <- (Z2Nat.id (moved _ _)) by done. split.
  - apply (r_valid _ _ HR'). by eapply lookup_lt_Some.
  - by eapply read_cell_ok.
Qed.

End Delete.

End Deletion.

Import Deletion.

(** C6: deleting a row that was inserted into a table of eight-byte numbers and
    strings replaces its block by a new one under the same identifier, which
    holds exactly the other rows, valid, in order and with the same cells; the
    other blocks stay as they are and the count of rows drops by one.  No access
    leaves a buffer.  The map from row ids to rows, however, is not adjusted: the
    deleted id keeps its entry, and so do the ids of the rows that moved. *)
Theorem table_delete_correct {Arrow : ArrowBuffers} {Begin : MapBegin}
    (types : list DataType) (cap : Z) (meta : bool) (recs : list (Z * (list Z * list Z))) (row_id : Z) record ws :
  schema_ok types cap -> Forall type8 types ->
  Forall (fun rw => table_record_ok types (snd (snd rw)) (fst (snd rw))) recs -> 2 * Z.of_nat (length recs) < 2 ^ 31 ->
  latest recs ∅ !! to_i32 row_id = Some (record, ws) -> zsum ws <= cap ->
  exists t0 t t' info a b a' b', newDBTable types cap meta = Some (inr t0) /\ insert_rows recs t0 = Some (t, inr tt) /\
    block_map t !! to_i32 row_id = Some info /\ blocks t !! block_id info = Some a /\ heap t !! a = Some b /\
    DeleteRecordTable row_id t = Some (t', inr tt) /\
    blocks t' = <[block_id info := a']> (blocks t) /\ heap t' !! a' = Some b' /\
    keeps_others (row_num info) b b' /\ t_num_rows t' = Z.of_nat (length recs) - 1 /\
    (forall k a2 b2, k <> block_id info -> blocks t !! k = Some a2 -> heap t !! a2 = Some b2 ->
       blocks t' !! k = Some a2 /\ heap t' !! a2 = Some b2) /\
    (forall key, key <> 0 -> block_map t' !! key = block_map t !! key).
Proof.
  intros HS HT HF Hlen Hlat Hfit.
  destruct (insert_rows_find types cap meta recs row_id record ws HS HF Hlen Hlat Hfit)
    as (t0 & t & R & a & d & b & rows & E0 & E & HI' & Hn & Eb & Ebl & Ebk & Er & HR & Es & Hrow).
  pose proof (lookup_lt_Some _ _ _ Hrow) as Hd.
  destruct (DeleteRecordTable_ok types cap R t row_id a d rows HS HT HI' Eb Er Hd)
    as (t' & ob & b' & Edel & Hcnt & Hbl & Hh & HR' & _ & Hmap); [lia |].
  exists t0, t, t', (mkBlockInfo (Z.of_nat a) (Z.of_nat d)), a, b, (length (heap t)), b'.
  pose proof (lookup_lt_Some _ _ _ Ebk) as Ha. split_and!; [done.. | | | lia | | done].
  - rewrite Hh, lookup_app_r, length_insert, Nat.sub_diag by (rewrite length_insert; lia). done.
  - by eapply keeps_others_ok.
  - intros k a2 b2 Hk Ek Ea2. cbn in Hk. rewrite Hbl, lookup_insert_ne by done. split; [done |].
    apply (ti_blocks _ _ _ _ HI') in Ek as [-> Ha2].
    rewrite Hh, lookup_app_l, list_lookup_insert_ne by (rewrite ?length_insert; (done || congruence)). done.
Qed.

Import FirstKey RoundUp.

Lemma table_delete_correct_witness :
  let types := [NumberType 8; StringType] in
  let recs := [(7, ([5; 65; 66], [1; 2])); (8, ([6; 67], [1; 1])); (9, ([7; 68], [1; 1]))] in
  exists t0 t t' info a b a' b', newDBTable types 100 true = Some (inr t0) /\ insert_rows recs t0 = Some (t, inr tt) /\
    block_map t !! 8 = Some info /\ blocks t !! block_id info = Some a /\ heap t !! a = Some b /\
    DeleteRecordTable 8 t = Some (t', inr tt) /\ heap t' !! a' = Some b' /\ keeps_others (row_num info) b b' /\
    t_num_rows t' = 2.
Proof.
  destruct (table_delete_correct [NumberType 8; StringType] 100 true
    [(7, ([5; 65; 66], [1; 2])); (8, ([6; 67], [1; 1])); (9, ([7; 68], [1; 1]))] 8 [6; 67] [1; 1])
    as (t0 & t & t' & info & a & b & a' & b' & H1 & H2 & H3 & H4 & H5 & H6 & _ & H7 & H8 & H9 & _).
  - split_and!; [repeat (apply Forall_cons_2; [cbn; (lia || done) |]); constructor | done | vm_compute; done | vm_compute; done].
  - apply Forall_cons_2; [by left | apply Forall_cons_2; [by right | constructor]].
  - repeat (apply Forall_cons_2; [split; [split; [repeat (apply Forall2_cons_2; [cbn; lia |]); constructor |
      vm_compute; split; [intros [=] | reflexivity]] | vm_compute; reflexivity] |]); constructor.
  - vm_compute. done.
  - vm_compute. reflexivity.
  - cbn. lia.
  - exists t0, t, t', info, a, b, a', b'. split_and!; [exact H1 | exact H2 | exact H3 | exact H4 | exact H5 | exact H6 | exact H7 | exact H8 | exact H9].
Defined.

(** Because the map is not adjusted, two deletions remove the wrong row.
    Rows 1, 2 and 3 are inserted and rows 1 and 2 deleted: the block then holds
    the record of row 2, and that of row 3 is gone. *)
Theorem second_delete_removes_wrong_row :
  let types := [NumberType 8; StringType] in
  let recs := [(1, ([1; 65], [1; 1])); (2, ([2; 66], [1; 1])); (3, ([3; 67], [1; 1]))] in
  exists t0 t b, newDBTable types 1000 false = Some (inr t0) /\
    (_ ← insert_rows recs; delete_rows [1; 2]) t0 = Some (t, inr tt) /\
    (a ← blocks t !! 0; heap t !! a) = Some b /\ t_num_rows t = 1 /\ num_rows b = 1 /\
    get_valid 0 b = Some true /\ read_cell 1 0 b = Some [66] /\
    block_map t !! 1 = Some (mkBlockInfo 0 0) /\ block_map t !! 2 = Some (mkBlockInfo 0 1) /\
    block_map t !! 3 = Some (mkBlockInfo 0 2).
Proof.
  eexists _, _, _. split; [vm_compute; reflexivity |]. split; [vm_compute; reflexivity |].
  split_and!; vm_compute; reflexivity.
Qed.

(** The block a deletion builds has grown its buffers by their capacity, not
    by their size, which the insertion of records relies on.  After a deletion
    from a block of 33 rows the next insertion writes outside a buffer. *)
Theorem insert_after_delete_overflows :
  let types := [NumberType 8; StringType] in
  let recs := List.map (fun i => (Z.of_nat i, ([5], [1; 0]))) (seq 1 33) in
  exists t0 t, newDBTable types 1000 false = Some (inr t0) /\
    (_ ← insert_rows recs; DeleteRecordTable 1) t0 = Some (t, inr tt) /\ InsertRecordTable 34 [5] [1; 0] t = None.
Proof.
  intros types recs.
  assert (match newDBTable types 1000 false with
          | Some (inr t0) =>
              match (_ ← insert_rows recs; DeleteRecordTable 1) t0 with
              | Some (t, inr _) => match InsertRecordTable 34 [5] [1; 0] t with None => true | _ => false end
              | _ => false
              end
          | _ => false
          end = true) as H by (vm_compute; reflexivity).
  destruct (newDBTable types 1000 false) as [[? | t0]|]; [done | | done]. exists t0.
  destruct ((_ ← insert_rows recs; DeleteRecordTable 1) t0) as [[t [? | []]]|] eqn:E; [done | | done]. exists t.
  split_and!; [done | done |]. by destruct (InsertRecordTable 34 [5] [1; 0] t).
Qed.
