(* ===== verification/TableUpdate.v ===== *)
(** * Update of number columns (Block::UpdateColumnValue, DBTable::UpdateRecordTable)

    An update overwrites the cells of number columns in place.  This file proves
    which cells change and what they become, over the definitions of [Block.v]
    and [Table.v].  The update of a string column deletes and inserts the row;
    see [TableDelete.v]. *)

From Stdlib Require Import ZArith Lia Sorting.Sorted.
From stdpp Require Import base numbers list gmap option.
Import stdpp.list_basics.list stdpp.list_relations.list stdpp.list_monad.list.
From S2P Require Import Prelude RecordUtils MemLog BitUtils Block Table.
Import Bits Blocks BlockProof Tables TableProof.

Local Open Scope Z_scope.

Module Update.

(** What a cell of width [w] becomes: the value's bytes reversed and padded with
    zeroes, also when the value has the full width. *)
Definition update_cell (w byte_width : Z) (bs : list Z) : list Z :=
  if byte_width <? 0 then to_u8 (- byte_width - Log.ZERO_TYPE_ENCODING) :: replicate (Z.to_nat w - 1) 0
  else rev bs ++ replicate (Z.to_nat (w - byte_width)) 0.

Definition reversed_prefix (byte_width : Z) (record : list Z) : list Z :=
  if byte_width <? 0 then record
  else rev (take (Z.to_nat byte_width) record) ++ drop (Z.to_nat byte_width) record.

Lemma length_update_cell w bw bs : 0 < w -> bw <= w -> (0 <= bw -> Z.of_nat (length bs) = bw) ->
  Z.of_nat (length (update_cell w bw bs)) = w.
Proof.
  intros Hw Hbw Hl. unfold update_cell. destruct (Z.ltb_spec bw 0); cbn [length]; rewrite ?length_app, ?length_rev, length_replicate; lia.
Qed.

Section Columns.
Context {Arrow : ArrowBuffers}.

(** Overwriting one of several cells of the same width. *)
Lemma poke_cell w (cells : list (list Z)) r c mem :
  Forall (fun c => Z.of_nat (length c) = w) cells -> (r < length cells)%nat -> Z.of_nat (length c) = w ->
  take (length (concat cells)) mem = concat cells -> w * Z.of_nat (length cells) <= Z.of_nat (length mem) ->
  exists mem', poke (w * Z.of_nat r) c mem = Some mem' /\ length mem' = length mem /\
    take (length (concat (<[r := c]> cells))) mem' = concat (<[r := c]> cells).
Proof.
  intros HF Hr Hc Ht Hl. destruct (lookup_lt_is_Some_2 cells r Hr) as [c0 E0].
  pose proof (Forall_lookup_1 _ _ _ _ HF E0) as Hc0. cbv beta in Hc0. pose proof (total_fixed w cells HF) as HT.
  pose proof (total_fixed w (take r cells) ltac:(by apply Forall_take)) as Hp. unfold total in HT, Hp.
  rewrite length_take, Nat.min_l in Hp by lia.
  assert (concat cells = concat (take r cells) ++ c0 ++ concat (drop (S r) cells)) as Es.
  { rewrite <- (take_drop_middle _ _ _ E0) at 1. rewrite concat_app. done. }
  assert (concat (<[r := c]> cells) = concat (take r cells) ++ c ++ concat (drop (S r) cells)) as Es'.
  { rewrite insert_take_drop by done. rewrite concat_app. done. }
  rewrite <- (take_drop (length (concat cells)) mem), Ht, Es. set (rest := drop _ mem). rewrite Es'.
  set (p := concat (take r cells)) in *. set (q := concat (drop (S r) cells)) in *.
  exists (p ++ c ++ q ++ rest). unfold poke. rewrite <- Hp. rewrite !length_app.
  rewrite !(proj2 (Z.leb_le _ _)) by lia. cbn [andb]. rewrite Nat2Z.id. split_and!.
  - f_equal. rewrite <- !(assoc_L (++)), take_app_length. do 2 f_equal.
    rewrite <- drop_drop, drop_app_length. replace (length c) with (length c0) by lia. by rewrite drop_app_length.
  - lia.
  - rewrite !(assoc_L (++)). apply take_app_length'. rewrite !length_app. lia.
Qed.

Lemma col_cells_insert i r row c rows : rows !! r = Some row -> (i < length row)%nat ->
  col_cells i (<[r := <[i := c]> row]> rows) = <[r := c]> (col_cells i rows).
Proof.
  intros Er Hi. unfold col_cells. rewrite list_fmap_insert. f_equal.
  apply nth_lookup_Some. by apply list_lookup_insert_eq.
Qed.

Lemma col_cells_insert_ne i j r row c rows : rows !! r = Some row -> i <> j ->
  col_cells j (<[r := <[i := c]> row]> rows) = col_cells j rows.
Proof.
  intros Er Hne. unfold col_cells. rewrite list_fmap_insert, (nth_lookup (<[i := c]> row)), list_lookup_insert_ne, <- nth_lookup by done.
  apply list_insert_id. by rewrite list_lookup_fmap, Er.
Qed.

Lemma UpdateColumnValue_ok b rows i r row w bw record :
  block_rep b rows -> schema b !! i = Some (NumberType w) -> rows !! r = Some row -> bw <= w ->
  bw <= Z.of_nat (length record) <= 2 ^ 32 ->
  exists b', UpdateColumnValue w i (Z.of_nat r) record bw b = Some (b', inr (reversed_prefix bw record)) /\
    block_rep b' (<[r := <[i := update_cell w bw (take (Z.to_nat bw) record)]> row]> rows) /\
    schema b' = schema b /\ capacity b' = capacity b /\ id b' = id b.
Proof.
  intros HR Ety Er Hbw Hrec. pose proof HR as []. pose proof r_mid0 as HM. destruct HM.
  destruct (m_col0 i _ Ety) as (col & cs & Ec & Ecs & HC). rewrite decide_False, app_nil_r in HC by lia.
  destruct HC as (Hn & Hc & Hw & HF & HW & Ht). pose proof (within_cap _ _ _ HW) as HW'.
  assert (length (col_cells i rows) = length rows) as Hlc by (unfold col_cells; by rewrite length_fmap).
  pose proof (lookup_lt_Some _ _ _ Er) as Hr. pose proof (Forall_lookup_1 _ _ _ _ r_shape0 Er) as Hrow. cbv beta in Hrow.
  pose proof (lookup_lt_Some _ _ _ Ety) as Hi. set (c := update_cell w bw (take (Z.to_nat bw) record)).
  assert (Z.of_nat (length c) = w) as Hlen by (apply length_update_cell; [done | done | rewrite length_take; lia]).
  destruct (poke_cell w (col_cells i rows) r c (memory (buffer1 col)) HF) as (mem & Ep & Hlm & Htm); [lia | done | done | lia |].
  set (col' := mkArrayData (ad_length col) (mkBuffer (size (buffer1 col)) mem) (buffer2 col)).
  exists (set_columns (<[i := col']> (columns b)) b). split_and!; [| | done | done | done].
  - unfold UpdateColumnValue. mstep. mstep. unfold reversed_prefix. unfold c, update_cell in Ep. destruct (Z.ltb_spec bw 0).
    + mstep. mstep. done.
    + rewrite (bind_defined _ _ _ _ (reverse_bytes_ok record bw ltac:(lia) ltac:(lia))).
      rewrite (bind_defined _ (rev (take (Z.to_nat bw) record))).
      2:{ unfold peek. rewrite !(proj2 (Z.leb_le _ _)) by (rewrite ?length_app, ?length_rev, ?length_take, ?length_drop; lia). cbn [andb].
          rewrite drop_0, take_app_length' by (rewrite length_rev, length_take; lia). done. }
      rewrite (proj2 (Z.ltb_ge _ _)) by lia. mstep. mstep. done.
  - constructor; cbn; auto.
    + constructor; cbn [schema columns column_sizes num_rows num_bytes set_columns]; rewrite ?length_insert; auto.
      intros j ty Ej. rewrite decide_False, app_nil_r by lia. destruct (decide (i = j)) as [<- | Hne].
      * rewrite Ety in Ej. injection Ej as <-. exists col', cs. rewrite list_lookup_insert_eq by (by eapply lookup_lt_Some).
        rewrite (col_cells_insert _ _ _ _ _ Er) by lia. split_and!; [done | done |].
        assert (Forall (fun c => Z.of_nat (length c) = w) (<[r := c]> (col_cells i rows))) as HF' by (by apply Forall_insert).
        unfold col_repr_gen. rewrite length_insert. split; [exact Hn |].
        split; [by rewrite Hc, !(total_fixed w), length_insert by done |].
        split; [done |]. split; [done |]. split; [| done]. destruct HW as [W1 W2]. split; [done |]. cbn. lia.
      * destruct (m_col0 j ty Ej) as (colj & csj & E1 & E2 & HCj). rewrite decide_False, app_nil_r in HCj by lia.
        exists colj, csj. rewrite list_lookup_insert_ne by done. by rewrite (col_cells_insert_ne _ _ _ _ _ _ Er Hne).
    + apply Forall_insert; [done |]. by rewrite length_insert.
    + by rewrite length_insert.
    + by rewrite length_insert.
    + rewrite length_insert. exact r_valid0.
Qed.

End Columns.

Section Loop.
Context {Arrow : ArrowBuffers} {Begin : MapBegin}.
Variables (types : list DataType) (ws record : list Z).
Hypothesis Hlen : length ws = length types.
Hypothesis Hpos : Forall (Z.le 0) ws.
Hypothesis Hrec : zsum ws <= Z.of_nat (length record) < 2 ^ 31.

(** Where the value of column [j] starts in the record. *)
Definition start (j : nat) : Z := zsum (take j ws).

Lemma start_nonneg j : 0 <= start j.
Proof. apply zsum_nonneg. by apply Forall_take. Qed.

Lemma start_le j k : (j <= k)%nat -> start j <= start k.
Proof.
  intros Hjk. unfold start. rewrite <- (take_drop j (take k ws)), take_take, Nat.min_l, zsum_app by done.
  pose proof (zsum_nonneg (drop j (take k ws)) ltac:(by apply Forall_drop, Forall_take)). lia.
Qed.

Lemma start_end j : start j <= zsum ws.
Proof. rewrite <- (take_ge ws (length ws)) by done. destruct (decide (j <= length ws)%nat).
  - by apply start_le.
  - unfold start. by rewrite !take_ge by lia.
Qed.

Lemma start_S j w : ws !! j = Some w -> start (S j) = start j + w.
Proof. intros E. unfold start. rewrite (take_S_r _ _ _ E), zsum_app. cbn. lia. Qed.

Lemma advance_ok : forall fuel (curr col : nat), (curr <= col)%nat -> (col <= length ws)%nat -> (col - curr <= fuel)%nat ->
  advance fuel (Z.of_nat col) (Z.of_nat curr) (start curr) ws = Some (Z.of_nat col, start col).
Proof.
  induction fuel as [|fuel IH]; intros curr col H1 H2 H3; cbn [advance];
    destruct (Z.ltb_spec (Z.of_nat curr) (Z.of_nat col)) as [Hlt | Hge].
  - lia.
  - by assert (curr = col) as -> by lia.
  - rewrite Nat2Z.id. destruct (lookup_lt_is_Some_2 ws curr) as [w Ew]; [lia |]. rewrite Ew. cbn [mbind option_bind].
    pose proof (start_end (S curr)). pose proof (start_nonneg (S curr)). rewrite <- (start_S _ _ Ew).
    rewrite int_chk_id by (unfold is_s; change (2 ^ (32 - 1)) with (2 ^ 31); lia). cbn [mbind option_bind].
    replace (Z.of_nat curr + 1) with (Z.of_nat (S curr)) by lia. apply IH; lia.
  - by assert (curr = col) as -> by lia.
Qed.

(** The cell an update gives column [j]. *)
Definition new_cell (j : nat) : list Z :=
  match types !! j, ws !! j with
  | Some (NumberType w), Some bw => update_cell w bw (take (Z.to_nat bw) (drop (Z.to_nat (start j)) record))
  | _, _ => []
  end.

Definition updatable (j : nat) : Prop := exists w bw, types !! j = Some (NumberType w) /\ ws !! j = Some bw /\ bw <= w.

Definition update_row (cols : list nat) (row : list (list Z)) : list (list Z) :=
  foldl (fun row j => <[j := new_cell j]> row) row cols.

(** [rec] is the record as far as the columns from [k] on are concerned. *)
Definition same_from (k : nat) (rec : list Z) : Prop :=
  length rec = length record /\ drop (Z.to_nat (start k)) rec = drop (Z.to_nat (start k)) record.

Lemma lift_update_ok t a b rows r row j w bw rec :
  heap t !! a = Some b -> block_rep b rows -> schema b = types -> rows !! r = Some row ->
  types !! j = Some (NumberType w) -> ws !! j = Some bw -> bw <= w -> same_from j rec ->
  exists b' rec', lift_update a w j (Z.of_nat r) (start j) rec bw t = Some (set_heap (<[a := b']> (heap t)) t, inr rec') /\
    block_rep b' (<[r := <[j := new_cell j]> row]> rows) /\ schema b' = types /\ capacity b' = capacity b /\ id b' = id b /\
    same_from (S j) rec'.
Proof.
  intros Eb HR Es Er Ety Ew Hw [Hl Hd]. pose proof (start_nonneg j). pose proof (start_end (S j)) as He.
  pose proof (start_S _ _ Ew) as HS. pose proof (Forall_lookup_1 _ _ _ _ Hpos Ew) as Hw0. cbv beta in Hw0.
  rewrite <- Es in Ety.
  destruct (UpdateColumnValue_ok b rows j r row w bw (drop (Z.to_nat (start j)) rec) HR Ety Er Hw) as (b' & E & HR' & Es' & Ec' & Ei').
  { rewrite length_drop. change (2 ^ 32) with (2 * 2 ^ 31). lia. }
  exists b', (take (Z.to_nat (start j)) rec ++ reversed_prefix bw (drop (Z.to_nat (start j)) rec)).
  split_and!; [| | congruence | done | done |]; [| | split].
  - unfold lift_update. rewrite !(proj2 (Z.ltb_ge _ _)) by lia. cbn [orb].
    assert (on_block a (UpdateColumnValue w j (Z.of_nat r) (drop (Z.to_nat (start j)) rec) bw) t =
      Some (set_heap (<[a := b']> (heap t)) t, inr (reversed_prefix bw (drop (Z.to_nat (start j)) rec)))) as Eon.
    { unfold on_block. rewrite Eb. cbn [mbind option_bind]. by rewrite E. }
    mstep. done.
  - unfold new_cell. rewrite <- Es, Ety, Ew. by rewrite <- Hd.
  - unfold reversed_prefix. rewrite (proj2 (Z.ltb_ge _ _)) by lia.
    rewrite !length_app, length_rev, !length_take, !length_drop. lia.
  - unfold reversed_prefix. rewrite (proj2 (Z.ltb_ge _ _)) by lia. rewrite HS, (assoc_L (++)), drop_app_length'.
    + rewrite Hd, drop_drop. f_equal. lia.
    + rewrite length_app, length_rev, !length_take, length_drop. lia.
Qed.

Lemma update_columns_ok tid row_id a r : forall cols curr k t b rows row rec,
  Forall updatable cols -> StronglySorted lt cols -> Forall (fun j => (curr <= j /\ k <= j)%nat) cols ->
  t_schema t = types -> heap t !! a = Some b -> block_rep b rows -> schema b = types -> rows !! r = Some row -> same_from k rec ->
  exists b' rec', update_columns ((fun j => mkUpdateMetaInfo tid (Z.of_nat j)) <$> cols) row_id a (Z.of_nat r)
      (Z.of_nat curr) (start curr) rec ws t = Some (set_heap (<[a := b']> (heap t)) t, inr rec') /\
    block_rep b' (<[r := update_row cols row]> rows) /\ schema b' = types.
Proof.
  induction cols as [|j cols IH]; intros curr k t b rows row rec HU HS HF Et Eb HR Es Er Hs.
  { exists b, rec. cbn. rewrite !list_insert_id by done. split_and!; [by destruct t | done | done]. }
  apply Forall_cons in HU as [(w & bw & Ety & Ew & Hw) HU]. apply StronglySorted_inv in HS as [HS Hlt].
  apply Forall_cons in HF as [[H1 H2] HF].
  assert (same_from j rec) as [Hl Hd].
  { destruct Hs as [Hl Hd]. split; [done |]. pose proof (start_le k j H2). pose proof (start_nonneg k).
    replace (Z.to_nat (start j)) with (Z.to_nat (start k) + Z.to_nat (start j - start k))%nat by lia.
    by rewrite <- !drop_drop, Hd. }
  destruct (lift_update_ok t a b rows r row j w bw rec) as (b1 & rec1 & E & HR1 & Es1 & _ & _ & Hs1); try done.
  destruct (IH j (S j) (set_heap (<[a := b1]> (heap t)) t) b1 (<[r := <[j := new_cell j]> row]> rows)
    (<[j := new_cell j]> row) rec1) as (b' & rec' & E' & HR' & Es'); try done.
  { eapply Forall_impl; [exact Hlt |]. cbn. lia. }
  { cbn. apply list_lookup_insert_eq. by eapply lookup_lt_Some. }
  { apply list_lookup_insert_eq. by eapply lookup_lt_Some. }
  exists b', rec'. rewrite list_insert_insert_eq in HR'. split_and!; [| exact HR' | done].
  rewrite fmap_cons. cbn [update_columns colNum]. rewrite Nat2Z.id.
  rewrite (bind_defined _ (Z.of_nat j, start j)).
  2:{ apply advance_ok; [done | rewrite Hlen; apply lookup_lt_Some in Ety; lia | lia]. }
  mstep. rewrite (proj2 (Z.ltb_ge _ _)) by lia. rewrite (bind_defined _ (NumberType w)) by (by rewrite Et).
  erewrite bind_val; [| rewrite (bind_defined _ bw) by done; exact E].
  rewrite E'. cbn [heap set_heap]. by rewrite list_insert_insert_eq.
Qed.

End Loop.

End Update.

Import Update.

Section Rows.
Context {Arrow : ArrowBuffers} {Begin : MapBegin}.

Lemma length_update_row types ws record cols : forall row, length (update_row types ws record cols row) = length row.
Proof. unfold update_row. induction cols as [|j cols IH]; intros row; [done |]. cbn. by rewrite IH, length_insert. Qed.

Lemma update_row_lookup types ws record cols j : forall row, (j < length row)%nat ->
  update_row types ws record cols row !! j = if decide (j ∈ cols) then Some (new_cell types ws record j) else row !! j.
Proof.
  unfold update_row. induction cols as [|k cols IH]; intros row Hj; cbn [foldl].
  { rewrite decide_False; [done |]. apply not_elem_of_nil. }
  rewrite IH by (by rewrite length_insert). destruct (decide (j ∈ cols)) as [Hin | Hout].
  - by rewrite decide_True by (by right).
  - destruct (decide (k = j)) as [-> | Hne].
    + rewrite list_lookup_insert_eq, decide_True by (done || left). done.
    + rewrite list_lookup_insert_ne, decide_False by (done || (intros [-> | ?]%elem_of_cons; done)). done.
Qed.

(** The cells of a block in which one row was replaced. *)
Lemma read_updated b b' rows r row row' i j :
  block_rep b rows -> block_rep b' (<[r := row']> rows) -> schema b' = schema b -> rows !! r = Some row ->
  (i < length rows)%nat -> read_cell j (Z.of_nat i) b' =
    if decide (i = r) then row' !! j else read_cell j (Z.of_nat i) b.
Proof.
  intros HR HR' Es Er Hi. destruct (decide (j < length (schema b))%nat) as [Hj | Hj].
  - destruct (lookup_lt_is_Some_2 rows i Hi) as [rowi Ei].
    pose proof (r_shape _ _ HR') as HS'. pose proof (Forall_lookup_1 _ _ _ _ (r_shape _ _ HR) Ei) as Hl. cbv beta in Hl.
    destruct (decide (i = r)) as [-> | Hne].
    + assert (<[r := row']> rows !! r = Some row') as Er' by (by apply list_lookup_insert_eq).
      pose proof (Forall_lookup_1 _ _ _ _ HS' Er') as Hl'. cbv beta in Hl'.
      destruct (lookup_lt_is_Some_2 row' j) as [c Ec]; [by rewrite Hl', Es |]. rewrite Ec.
      by apply (read_cell_ok b' _ r j row' c HR').
    + destruct (lookup_lt_is_Some_2 rowi j) as [c Ec]; [lia |].
      rewrite (read_cell_ok b rows i j rowi c HR Ei Ec). apply (read_cell_ok b' _ i j rowi c HR'); [| done].
      by rewrite list_lookup_insert_ne.
  - assert (schema b !! j = None) as En by (apply lookup_ge_None; lia).
    unfold read_cell. rewrite Es, En. cbn. destruct (decide (i = r)); [| done]. symmetry. apply lookup_ge_None.
    assert (<[r := row']> rows !! r = Some row') as Er' by (apply list_lookup_insert_eq; by eapply lookup_lt_Some).
    pose proof (Forall_lookup_1 _ _ _ _ (r_shape _ _ HR') Er') as Hl'. cbv beta in Hl'. rewrite Hl', Es. lia.
Qed.

End Rows.

(** C7: an update of number columns, given in increasing order, of an inserted row
    overwrites exactly those cells of that row, each with the value that the
    widths locate in the new record, reversed to machine order and padded with
    zeroes; every other cell of the block, and everything else in the table,
    stays as it was, and no access leaves a buffer or the record.  (The widths
    must not be negative: the loop would step backwards over a constant.) *)
Theorem table_update_correct {Arrow : ArrowBuffers} {Begin : MapBegin}
    (types : list DataType) (cap : Z) (meta : bool) (recs : list (Z * (list Z * list Z))) (row_id : Z) record0 ws0
    (tid : Z) (cols : list nat) (ws record : list Z) :
  schema_ok types cap ->
  Forall (fun rw => table_record_ok types (snd (snd rw)) (fst (snd rw))) recs -> 2 * Z.of_nat (length recs) < 2 ^ 31 ->
  latest recs ∅ !! to_i32 row_id = Some (record0, ws0) -> zsum ws0 <= cap ->
  length ws = length types -> Forall (Z.le 0) ws -> zsum ws <= Z.of_nat (length record) < 2 ^ 31 ->
  Forall (updatable types ws) cols -> StronglySorted lt cols ->
  exists t0 t info a b b', newDBTable types cap meta = Some (inr t0) /\ insert_rows recs t0 = Some (t, inr tt) /\
    block_map t !! to_i32 row_id = Some info /\ blocks t !! block_id info = Some a /\ heap t !! a = Some b /\
    UpdateRecordTable row_id ((fun j => mkUpdateMetaInfo tid (Z.of_nat j)) <$> cols) record ws t =
      Some (set_heap (<[a := b']> (heap t)) t, inr tt) /\
    num_rows b' = num_rows b /\
    forall i j, 0 <= i < num_rows b -> get_valid i b' = Some true /\ read_cell j i b' =
      if decide (i = row_num info /\ j ∈ cols) then Some (new_cell types ws record j) else read_cell j i b.
Proof.
  intros HS HF Hlen Hlat Hfit Hws Hpos Hrec HU Hsort.
  destruct (insert_rows_find types cap meta recs row_id record0 ws0 HS HF Hlen Hlat Hfit)
    as (t0 & t & R & a & r & b & rows & E0 & E & HI' & Hn & Eb & Ebl & Ebk & Er & HR & Es & Hrow).
  set (row := row_of types ws0 record0) in *.
  destruct (update_columns_ok types ws record Hws Hpos Hrec tid row_id a r cols 0 0 t b rows row record)
    as (b' & rec' & Eu & HR' & Es'); try done.
  { apply Forall_forall. intros. lia. }
  { by apply (ti_schema _ _ _ _ HI'). }
  exists t0, t, (mkBlockInfo (Z.of_nat a) (Z.of_nat r)), a, b, b'. split_and!; [done | done | done | done | done | | |].
  - unfold UpdateRecordTable. mstep. rewrite Eb. cbn [block_id row_num].
    assert (get_block (Z.of_nat a) t = Some (t, inr a)) as Eg by (unfold get_block; mstep; by rewrite Ebl).
    mstep. by rewrite (bind_val _ _ _ _ _ Eu).
  - rewrite (m_rows _ _ _ _ (r_mid _ _ HR)), (m_rows _ _ _ _ (r_mid _ _ HR')). by rewrite length_insert.
  - intros i j Hi. rewrite (m_rows _ _ _ _ (r_mid _ _ HR)) in Hi. rewrite <- (Z2Nat.id i) by lia. set (n := Z.to_nat i) in *.
    split; [apply (r_valid _ _ HR'); rewrite length_insert; lia |].
    rewrite (read_updated b b' rows r row _ n j HR HR') by (congruence || done || lia). cbn [row_num].
    destruct (decide (n = r)) as [-> | Hne]; [| rewrite decide_False; [done | lia]].
    pose proof (Forall_lookup_1 _ _ _ _ (r_shape _ _ HR) Hrow) as Hl. cbv beta in Hl.
    destruct (decide (j < length row)%nat) as [Hj | Hj].
    + rewrite update_row_lookup by done. destruct (decide (j ∈ cols)) as [Hin | Hout]; [by rewrite decide_True |].
      rewrite decide_False by tauto. destruct (lookup_lt_is_Some_2 row j Hj) as [c Ec]. rewrite Ec. symmetry.
      by apply (read_cell_ok b rows r j row c HR).
    + rewrite lookup_ge_None_2 by (rewrite length_update_row; lia). rewrite decide_False.
      * unfold read_cell. rewrite (lookup_ge_None_2 (schema b) j) by lia. done.
      * intros [_ Hin]. apply (proj1 (Forall_forall _ _) HU) in Hin as (w & bw & Ety & _). apply lookup_lt_Some in Ety. rewrite Es in Hl. lia.
Qed.

Import FirstKey RoundUp.

Lemma table_update_correct_witness :
  let types := [NumberType 8; StringType; NumberType 4] in
  let recs := [(7, ([5; 65; 66; 9], [1; 2; 1])); (8, ([6; 67; 8], [1; 1; 1]))] in
  exists t0 t info a b b', newDBTable types 100 true = Some (inr t0) /\ insert_rows recs t0 = Some (t, inr tt) /\
    block_map t !! 7 = Some info /\ heap t !! a = Some b /\
    UpdateRecordTable 7 [mkUpdateMetaInfo 1 0; mkUpdateMetaInfo 1 2] [1; 2; 90; 3] [2; 1; 1] t =
      Some (set_heap (<[a := b']> (heap t)) t, inr tt) /\
    num_rows b' = num_rows b /\ new_cell types [2; 1; 1] [1; 2; 90; 3] 0 = [2; 1; 0; 0; 0; 0; 0; 0] /\
    new_cell types [2; 1; 1] [1; 2; 90; 3] 2 = [3; 0; 0; 0].
Proof.
  destruct (table_update_correct [NumberType 8; StringType; NumberType 4] 100 true
    [(7, ([5; 65; 66; 9], [1; 2; 1])); (8, ([6; 67; 8], [1; 1; 1]))] 7 [5; 65; 66; 9] [1; 2; 1] 1 [0; 2]%nat [2; 1; 1] [1; 2; 90; 3])
    as (t0 & t & info & a & b & b' & H1 & H2 & H3 & _ & H5 & H6 & H7 & _).
  - split_and!; [repeat (apply Forall_cons_2; [cbn; (lia || done) |]); constructor | done | vm_compute; done | vm_compute; done].
  - repeat (apply Forall_cons_2; [split; [split; [repeat (apply Forall2_cons_2; [cbn; lia |]); constructor |
      vm_compute; split; [intros [=] | reflexivity]] | vm_compute; reflexivity] |]); constructor.
  - vm_compute. done.
  - vm_compute. reflexivity.
  - cbn. lia.
  - done.
  - repeat (apply Forall_cons_2; [lia |]). constructor.
  - cbn. lia.
  - apply Forall_cons_2; [by exists 8, 2 |]. apply Forall_cons_2; [by exists 4, 1 | constructor].
  - repeat constructor.
  - exists t0, t, info, a, b, b'. split_and!; [exact H1 | exact H2 | exact H3 | exact H5 | exact H6 | exact H7 | reflexivity | reflexivity].
Defined.

(** An update that gives column 0 the constant 1 and column 1 the value 7: the
    width -9 of the constant moves the position before the record. *)
Theorem update_after_constant_leaves_record :
  exists t0 t, newDBTable [NumberType 8; NumberType 8] 100 false = Some (inr t0) /\
    insert_rows [(1, ([5; 6], [1; 1]))] t0 = Some (t, inr tt) /\
    UpdateRecordTable 1 [mkUpdateMetaInfo 1 1] [7] [-9; 1] t = None.
Proof. eexists _, _. split; [vm_compute; reflexivity |]. split; [vm_compute; reflexivity |]. vm_compute. reflexivity. Qed.

(** An update of a number and a string: the number's bytes are reversed in the
    record, which is then inserted again, so 258 becomes 513. *)
Theorem update_string_swaps_number :
  exists t0 t b, newDBTable [NumberType 8; StringType] 100 false = Some (inr t0) /\
    (_ ← insert_rows [(1, ([5; 65], [1; 1]))];
     UpdateRecordTable 1 [mkUpdateMetaInfo 1 0; mkUpdateMetaInfo 1 1] [1; 2; 66] [2; 1]) t0 = Some (t, inr tt) /\
    (a ← blocks t !! 0; heap t !! a) = Some b /\ num_rows b = 1 /\ read_cell 1 0 b = Some [66] /\
    (le_unsigned <$> read_cell 0 0 b) = Some 513.
Proof. eexists _, _, _. split; [vm_compute; reflexivity |]. split; [vm_compute; reflexivity |]. split_and!; vm_compute; reflexivity. Qed.
