(* ===== verification/Columns.v ===== *)
(** * Columns and how they are gathered (utils/arrow_compute_wrappers.cc, utils/parallel_utils.h)

    The operators work on chunked arrays: one chunk of values per block of a
    table.  This file holds what they share: bitmaps, row offsets of chunks,
    the split of chunks into batches, and [Context::apply_indices], which
    gathers the rows named by an index array.  [None] is an access outside an
    array, a division by zero or an overflow of a signed integer. *)

From Stdlib Require Import ZArith Lia SpecFloat.
From stdpp Require Import base numbers list gmap option.
Import stdpp.list_basics.list stdpp.list_relations.list stdpp.list_monad.list.
From S2P Require Import Prelude Bloom.
Import Hist.

Local Open Scope Z_scope.

Module Columns.

(** The values of a column, chunk by chunk. *)
Abbreviation Chunks := (list (list Z)).

(** Arrow's bitmaps: bit [i] is bit [i mod 8] of byte [i / 8]. *)
Definition GetBit (bits : list Z) (i : Z) : option bool :=
  byte ← bits !! Z.to_nat (i / 8);
  Some (Z.testbit byte (i mod 8)).

(** [chunk_offsets\[i\] = chunk_offsets\[i - 1\] + col->chunk(i - 1)->length()] *)
Fixpoint offsets_from (acc : Z) (col : Chunks) : list Z :=
  match col with
  | [] => []
  | c :: col' => acc :: offsets_from (to_u64 (acc + Z.of_nat (length c))) col'
  end.

(** The vector has one element per chunk, and element 0 is written in any case. *)
Definition ComputeChunkOffsets (col : Chunks) : option (list Z) :=
  match col with
  | [] => None
  | _ => Some (offsets_from 0 col)
  end.

(** [utils::ComputeBatchConfig]; the number of parallel tasks is a [double]. *)
Definition ComputeBatchConfig (num_chunks : Z) (num_parallel : spec_float) : option (Z * Z) :=
  batch_size ← int_of_double (SFdiv 53 1024 (double_of_Z num_chunks) num_parallel);
  let batch_size := if batch_size =? 0 then num_chunks else batch_size in
  if batch_size =? 0 then None
  else Some (batch_size, Z.quot num_chunks batch_size + 1).

(** ** [Context::apply_indices] *)

Definition slice_length_ : Z := 30000.

(** [indices_array->Slice(offset, length)]: a slice ends with its array. *)
Definition Slice {A} (offset len : Z) (a : list A) : list A := take (Z.to_nat len) (drop (Z.to_nat offset) a).

Definition num_slices (n : Z) : Z := n / slice_length_ + 1.

Definition slice_at {A} (slice_i : Z) (n : Z) (a : list A) : list A :=
  if slice_i =? num_slices n - 1
  then Slice (slice_i * slice_length_) (n - (slice_i - 1) * slice_length_) a
  else Slice (slice_i * slice_length_) slice_length_ a.

(** [std::upper_bound] on sorted offsets: how many are at most [x]. *)
Fixpoint upper_bound (l : list Z) (x : Z) : nat :=
  match l with
  | [] => 0
  | y :: l' => if y <=? x then S (upper_bound l' x) else 0
  end.

(** The row offsets of the chunks and, at the end, the number of rows. *)
Fixpoint row_offsets (acc : Z) (col : Chunks) : list Z :=
  match col with
  | [] => [acc]
  | c :: col' => acc :: row_offsets (to_u32 (acc + Z.of_nat (length c))) col'
  end.

(** One element of [apply_indices_internal]. *)
Definition gather (values : Chunks) (offsets : list Z) (index : Z) : option Z :=
  let chunk_j := (Z.of_nat (upper_bound offsets index) - 1)%Z in
  if chunk_j <? 0 then None else
  chunk ← values !! Z.to_nat chunk_j;
  off ← offsets !! Z.to_nat chunk_j;
  if index - off <? 0 then None else
  chunk !! Z.to_nat (index - off).

Definition apply_indices_internal (values : Chunks) (offsets indices : list Z) (slice_i : Z) : option (list Z) :=
  mapM (gather values offsets) (slice_at slice_i (Z.of_nat (length indices)) indices).

(** With the chunk of every index at hand ([apply_indices_internal2]). *)
Definition gather2 (values : Chunks) (offsets : list Z) (ic : Z * Z) : option Z :=
  off ← offsets !! Z.to_nat (snd ic);
  chunk ← values !! Z.to_nat (snd ic);
  if fst ic - off <? 0 then None else
  chunk !! Z.to_nat (fst ic - off).

Definition apply_indices_internal2 (values : Chunks) (offsets indices index_chunks : list Z) (slice_i : Z) : option (list Z) :=
  let n := Z.of_nat (length indices) in
  let idx := slice_at slice_i n indices in
  let chk := slice_at slice_i n index_chunks in
  if (length chk <? length idx)%nat then None else
  mapM (gather2 values offsets) (zip idx chk).

(** The slices are gathered by tasks of their own; each writes its element of
    [array_vec_], whose elements become the chunks of the result. *)
Definition apply_indices (values : Chunks) (indices : list Z) (index_chunks : option (list Z)) : option Chunks :=
  match values with
  | [] => None
  | _ =>
      let offsets := row_offsets 0 values in
      let slices := Z.of_nat <$> seq 0 (Z.to_nat (num_slices (Z.of_nat (length indices)))) in
      match index_chunks with
      | None => mapM (apply_indices_internal values offsets indices) slices
      | Some ics => mapM (apply_indices_internal2 values offsets indices ics) slices
      end
  end.

End Columns.

Import Columns.

(** ** What they compute *)

Module ColumnsProof.

(** Where chunk [i] starts. *)
Definition start_row (col : Chunks) (i : nat) : nat := length (concat (take i col)).

Lemma start_row_S (col : Chunks) i c : col !! i = Some c -> start_row col (S i) = (start_row col i + length c)%nat.
Proof.
  intros E. unfold start_row. rewrite (take_S_r _ _ _ E), concat_app. cbn. rewrite length_app, app_nil_r. done.
Qed.

Lemma start_row_le (col : Chunks) i : (start_row col i <= length (concat col))%nat.
Proof. unfold start_row. rewrite <- (take_drop i col) at 2. rewrite concat_app, length_app. lia. Qed.

Lemma start_row_mono (col : Chunks) i j : (i <= j)%nat -> (start_row col i <= start_row col j)%nat.
Proof.
  intros H. unfold start_row. rewrite <- (take_drop i (take j col)), take_take, Nat.min_l, concat_app, length_app by lia. lia.
Qed.

(** Row [r] of chunk [i] is row [start_row col i + r] of the column. *)
Lemma concat_lookup (col : Chunks) i c r : col !! i = Some c -> (r < length c)%nat ->
  concat col !! (start_row col i + r)%nat = c !! r.
Proof.
  intros E Hr. unfold start_row. assert (concat col = concat (take i col) ++ c ++ concat (drop (S i) col)) as ->.
  { rewrite <- (take_drop_middle _ _ _ E) at 1. rewrite concat_app. done. }
  rewrite lookup_app_r by lia. replace (_ + r - _)%nat with r by lia. by apply lookup_app_l.
Qed.

Lemma offsets_from_ok (col : Chunks) : forall pre i,
  Z.of_nat (length (concat (pre ++ col))) < 2 ^ 32 -> (i < length col)%nat ->
  offsets_from (Z.of_nat (length (concat pre))) col !! i = Some (Z.of_nat (start_row (pre ++ col) (length pre + i))).
Proof.
  induction col as [|c col IH]; intros pre i Hl Hi; cbn [length] in Hi; [lia |]. cbn [offsets_from].
  assert (Z.of_nat (length (concat pre)) + Z.of_nat (length c) = Z.of_nat (length (concat (pre ++ [c])))) as E.
  { rewrite concat_app, length_app. cbn. rewrite app_nil_r. lia. }
  assert (pre ++ c :: col = (pre ++ [c]) ++ col) as Ep by (rewrite <- (assoc_L (++)); done).
  destruct i as [|i]; cbn [lookup list_lookup].
  - f_equal. f_equal. unfold start_row. by rewrite Nat.add_0_r, take_app_length.
  - rewrite E, wrapu_id.
    + rewrite IH; [| by rewrite <- Ep | lia]. rewrite <- Ep, length_app. cbn. do 3 f_equal. lia.
    + rewrite Ep, concat_app, length_app in Hl. unfold is_u. change (2 ^ 64) with (2 ^ 32 * 2 ^ 32). lia.
Qed.

Lemma ComputeChunkOffsets_ok (col : Chunks) : col <> [] -> Z.of_nat (length (concat col)) < 2 ^ 32 ->
  exists offs, ComputeChunkOffsets col = Some offs /\
    forall i, (i < length col)%nat -> offs !! i = Some (Z.of_nat (start_row col i)).
Proof.
  intros Hne Hl. exists (offsets_from 0 col). split; [by destruct col |]. intros i Hi.
  apply (offsets_from_ok col []); done.
Qed.

(** ** Batches *)

Lemma ComputeBatchConfig_ok num_chunks num_parallel q :
  0 < num_chunks -> int_of_double (SFdiv 53 1024 (double_of_Z num_chunks) num_parallel) = Some q -> 0 <= q ->
  exists batch_size num_batches, ComputeBatchConfig num_chunks num_parallel = Some (batch_size, num_batches) /\
    0 < batch_size <= num_chunks + q /\ num_batches = num_chunks / batch_size + 1.
Proof.
  intros Hn Eq Hq. unfold ComputeBatchConfig. rewrite Eq. cbn [mbind option_bind]. set (bs := if q =? 0 then num_chunks else q).
  assert (0 < bs) as Hbs by (unfold bs; destruct (Z.eqb_spec q 0); lia).
  rewrite (proj2 (Z.eqb_neq _ _)) by lia. exists bs, (Z.quot num_chunks bs + 1).
  rewrite Z.quot_div_nonneg by lia. split_and!; [done | done | unfold bs; destruct (Z.eqb_spec q 0); lia | done].
Qed.

(** ** Gathering *)

Definition rows (col : Chunks) : Z := Z.of_nat (length (concat col)).

Definition value_at (col : Chunks) (index : Z) : Z := default 0 (concat col !! Z.to_nat index).

Lemma row_offsets_head acc col : exists l, row_offsets acc col = acc :: l.
Proof. destruct col; eexists; reflexivity. Qed.

Lemma row_offsets_find (col : Chunks) : forall acc index,
  0 <= acc <= index -> acc + rows col < 2 ^ 32 -> index < acc + rows col ->
  exists i c, col !! i = Some c /\ upper_bound (row_offsets acc col) index = S i /\
    row_offsets acc col !! i = Some (acc + Z.of_nat (start_row col i)) /\
    acc + Z.of_nat (start_row col i) <= index < acc + Z.of_nat (start_row col i) + Z.of_nat (length c).
Proof.
  induction col as [|c col IH]; intros acc index Ha Ht Hi; unfold rows in *; cbn [concat length] in Ht, Hi; [lia |].
  rewrite length_app in Ht, Hi. cbn [row_offsets upper_bound]. rewrite (proj2 (Z.leb_le _ _)) by lia.
  rewrite wrapu_id by (unfold is_u; lia). destruct (Z.lt_ge_cases index (acc + Z.of_nat (length c))) as [Hlt | Hge].
  - exists 0%nat, c. destruct (row_offsets_head (acc + Z.of_nat (length c)) col) as [l ->]. cbn [upper_bound].
    rewrite (proj2 (Z.leb_gt _ _)) by lia. unfold start_row. cbn. split_and!; [done | done | f_equal; lia | lia | lia].
  - destruct (IH (acc + Z.of_nat (length c)) index) as (i & c' & Ei & Eu & Eo & Hb); [lia | lia | lia |].
    assert (start_row (c :: col) (S i) = (length c + start_row col i)%nat) as Es by (unfold start_row; cbn; by rewrite length_app).
    exists (S i), c'. rewrite Es, Eu. split_and!; [exact Ei | done | | lia | lia].
    transitivity (row_offsets (acc + Z.of_nat (length c)) col !! i); [done | rewrite Eo; f_equal; lia].
Qed.

Lemma value_at_chunk (col : Chunks) i c r : col !! i = Some c -> (r < length c)%nat ->
  c !! r = Some (value_at col (Z.of_nat (start_row col i + r))).
Proof.
  intros E Hr. unfold value_at. rewrite Nat2Z.id, (concat_lookup col i c r E Hr).
  by destruct (lookup_lt_is_Some_2 c r Hr) as [v ->].
Qed.

Lemma gather_ok (col : Chunks) index : 0 <= index < rows col -> rows col < 2 ^ 32 ->
  gather col (row_offsets 0 col) index = Some (value_at col index).
Proof.
  intros Hi Ht. destruct (row_offsets_find col 0 index) as (i & c & Ei & Eu & Eo & Hb); [lia | lia | lia |].
  unfold gather. rewrite Eu. replace (Z.of_nat (S i) - 1) with (Z.of_nat i) by lia.
  rewrite (proj2 (Z.ltb_ge _ _)) by lia. rewrite Nat2Z.id, Ei. cbn [mbind option_bind]. rewrite Eo. cbn [mbind option_bind].
  rewrite (proj2 (Z.ltb_ge _ _)) by lia. rewrite (value_at_chunk col i c) by (done || lia). do 2 f_equal. lia.
Qed.

(** [chunk] is the chunk of row [index]. *)
Definition in_chunk (col : Chunks) (index chunk : Z) : Prop :=
  exists (i : nat) c, chunk = Z.of_nat i /\ col !! i = Some c /\
    Z.of_nat (start_row col i) <= index < Z.of_nat (start_row col i) + Z.of_nat (length c).

Lemma row_offsets_lookup (col : Chunks) : forall acc i, 0 <= acc -> acc + rows col < 2 ^ 32 -> (i <= length col)%nat ->
  row_offsets acc col !! i = Some (acc + Z.of_nat (start_row col i)).
Proof.
  induction col as [|c col IH]; intros acc i Ha Ht Hi; unfold rows in *; cbn [length] in Hi.
  - assert (i = 0%nat) as -> by lia. cbn. f_equal. unfold start_row. cbn. lia.
  - cbn [concat] in Ht. rewrite length_app in Ht. destruct i as [|i]; cbn [row_offsets lookup list_lookup].
    + f_equal. unfold start_row. cbn. lia.
    + rewrite wrapu_id by (unfold is_u; lia). rewrite IH by lia. unfold start_row. cbn. rewrite length_app. f_equal. lia.
Qed.

Lemma gather2_ok (col : Chunks) index chunk : in_chunk col index chunk -> rows col < 2 ^ 32 ->
  gather2 col (row_offsets 0 col) (index, chunk) = Some (value_at col index).
Proof.
  intros (i & c & -> & Ei & Hb) Ht. unfold gather2. cbn [fst snd]. rewrite Nat2Z.id.
  rewrite (row_offsets_lookup col 0 i) by (apply lookup_lt_Some in Ei; lia). cbn [mbind option_bind]. rewrite Ei. cbn [mbind option_bind].
  rewrite (proj2 (Z.ltb_ge _ _)) by lia. rewrite (value_at_chunk col i c) by (done || lia). do 2 f_equal. lia.
Qed.

(** The slices of an array are its parts. *)
Lemma concat_slices {A} (L : nat) (l : list A) k : concat ((fun i => take L (drop (i * L) l)) <$> seq 0 k) = take (k * L) l.
Proof.
  induction k as [|k IH]; [done |]. rewrite seq_S, fmap_app, concat_app, IH. cbn. rewrite app_nil_r, take_take_drop. f_equal. lia.
Qed.

Definition slices (n : Z) : list Z := Z.of_nat <$> seq 0 (Z.to_nat (num_slices n)).

Lemma slice_at_concat {A} (l : list A) : concat ((fun i => slice_at i (Z.of_nat (length l)) l) <$> slices (Z.of_nat (length l))) = l.
Proof.
  set (n := Z.of_nat (length l)). assert (0 <= n / slice_length_) as Hd by (apply Z.div_pos; unfold slice_length_; lia).
  pose proof (Z.div_mod n slice_length_ ltac:(done)) as Hdm. pose proof (Z.mod_pos_bound n slice_length_ ltac:(done)) as Hm.
  unfold slices, num_slices. replace (Z.to_nat (n / slice_length_ + 1)) with (S (Z.to_nat (n / slice_length_))) by lia.
  set (k := Z.to_nat (n / slice_length_)) in *. rewrite <- list_fmap_compose, seq_S, fmap_app, concat_app. cbn [fmap list_fmap concat].
  assert ((compose (fun i => slice_at i n l) Z.of_nat) <$> seq 0 k = (fun i => take (Z.to_nat slice_length_) (drop (i * Z.to_nat slice_length_) l)) <$> seq 0 k) as ->.
  { apply list_fmap_ext. intros i x Hx. apply lookup_seq in Hx as [-> Hx]. cbn. unfold slice_at, num_slices, Slice.
    rewrite (proj2 (Z.eqb_neq _ _)) by lia. do 2 f_equal. lia. }
  rewrite concat_slices, app_nil_r. unfold compose, slice_at, num_slices, Slice. rewrite (proj2 (Z.eqb_eq _ _)) by lia.
  rewrite (take_ge (drop _ l)) by (rewrite length_drop; lia).
  replace (Z.to_nat (Z.of_nat (0 + k) * slice_length_)) with (k * Z.to_nat slice_length_)%nat by lia. apply take_drop.
Qed.

Lemma mapM_total {A B} (f : A -> option B) (g : A -> B) (l : list A) :
  Forall (fun x => f x = Some (g x)) l -> mapM f l = Some (g <$> l).
Proof. intros H. apply mapM_Some. induction H; constructor; auto. Qed.

Lemma slice_at_sub {A} i n (l : list A) x : x ∈ slice_at i n l -> x ∈ l.
Proof.
  unfold slice_at, Slice. intros Hx. apply list_elem_of_lookup in Hx as [k Hk]. apply list_elem_of_lookup.
  destruct (_ =? _); apply lookup_take_Some in Hk as [Hk _]; rewrite lookup_drop in Hk; eauto.
Qed.

(** Gathering yields the named rows in the order of the indices. *)
Lemma apply_indices_ok (col : Chunks) indices : col <> [] -> rows col < 2 ^ 32 -> Forall (fun i => 0 <= i < rows col) indices ->
  exists out, apply_indices col indices None = Some out /\ length out = Z.to_nat (num_slices (Z.of_nat (length indices))) /\
    concat out = value_at col <$> indices.
Proof.
  intros Hne Ht HF. exists ((fun i => value_at col <$> slice_at i (Z.of_nat (length indices)) indices) <$> slices (Z.of_nat (length indices))).
  split_and!.
  - unfold apply_indices. destruct col as [|c col']; [done |]. apply mapM_total. apply Forall_forall. intros i _.
    unfold apply_indices_internal. apply mapM_total. apply Forall_forall. intros x Hx. apply slice_at_sub in Hx.
    apply gather_ok; [| done]. by apply (proj1 (Forall_forall _ _) HF).
  - unfold slices. by rewrite !length_fmap, length_seq.
  - transitivity (value_at col <$> concat ((fun i => slice_at i (Z.of_nat (length indices)) indices) <$> slices (Z.of_nat (length indices))));
      [| by rewrite slice_at_concat]. generalize (slices (Z.of_nat (length indices))). intros l.
    induction l as [|i l IH]; [done |]. rewrite !fmap_cons. cbn [concat]. rewrite fmap_app. by rewrite IH.
Qed.

Lemma slice_at_zip {A B} i n (a : list A) (b : list B) : zip (slice_at i n a) (slice_at i n b) = slice_at i n (zip a b).
Proof. unfold slice_at, Slice. by destruct (_ =? _); rewrite zip_with_drop, zip_with_take. Qed.

Lemma length_slice_at {A B} i n (a : list A) (b : list B) : length a = length b -> length (slice_at i n a) = length (slice_at i n b).
Proof. intros E. unfold slice_at, Slice. destruct (_ =? _); rewrite !length_take, !length_drop; lia. Qed.

Lemma apply_indices2_ok (col : Chunks) indices ics : col <> [] -> rows col < 2 ^ 32 -> Forall2 (in_chunk col) indices ics ->
  exists out, apply_indices col indices (Some ics) = Some out /\ length out = Z.to_nat (num_slices (Z.of_nat (length indices))) /\
    concat out = value_at col <$> indices.
Proof.
  intros Hne Ht HF. pose proof (Forall2_length _ _ _ HF) as Hlen. set (n := Z.of_nat (length indices)).
  exists ((fun i => (fun ic => value_at col (fst ic)) <$> slice_at i n (zip indices ics)) <$> slices n). split_and!.
  - unfold apply_indices. destruct col as [|c col']; [done |]. apply mapM_total. apply Forall_forall. intros i _.
    unfold apply_indices_internal2. fold n. rewrite (proj2 (Nat.ltb_ge _ _)) by (by rewrite (length_slice_at i n ics indices)).
    rewrite slice_at_zip. apply mapM_total. apply Forall_forall. intros [x k] Hx. apply slice_at_sub in Hx.
    cbn [fst]. apply gather2_ok; [| done]. apply elem_of_lookup_zip_with_1 in Hx as (j & x' & k' & [= <- <-] & Ex & Ek).
    by eapply Forall2_lookup_lr.
  - unfold slices. by rewrite !length_fmap, length_seq.
  - transitivity ((fun ic => value_at col (fst ic)) <$> concat ((fun i => slice_at i n (zip indices ics)) <$> slices n)).
    + generalize (slices n). intros l. induction l as [|i l IH]; [done |]. rewrite !fmap_cons. cbn [concat]. rewrite fmap_app. by rewrite IH.
    + replace n with (Z.of_nat (length (zip indices ics))) by (rewrite length_zip_with; lia).
      rewrite slice_at_concat. rewrite <- (fst_zip indices ics) at 2 by lia. by rewrite <- list_fmap_compose.
Qed.

End ColumnsProof.
