(* ===== verification/HashJoin.v ===== *)
(** * Operator results and the hash join (operators/utils, operators/join/hash_join)

    A [LazyTable] is a table with a filter or an array of row indices; an
    [OperatorResult] is a list of them.  [HashJoin] builds a hash table on the
    join column of its right table, probes it with the column of its left table
    and rewrites the index arrays of all tables of both inputs.  The probe is
    split into tasks that the scheduler may run in any order: the order is an
    argument.  Arrow's kernel [Take] is the class [ArrowTake]. *)

From Stdlib Require Import ZArith Lia SpecFloat.
From stdpp Require Import base numbers list gmap option strings.
Import stdpp.list_basics.list stdpp.list_relations.list stdpp.list_monad.list.
From S2P Require Import Prelude Bloom Columns.
Import Hist Columns ColumnsProof.

Local Open Scope Z_scope.

(** [arrow::compute::Take(values, indices)] on arrays, with bounds checking. *)
Class ArrowTake := {
  Take : list Z -> list Z -> option (list Z);
  Take_spec : forall values indices, Forall (fun i => 0 <= i < Z.of_nat (length values)) indices ->
    Take values indices = Some ((fun i => nth (Z.to_nat i) values 0) <$> indices)
}.

Module Lazy.

Record RecordID := mkRecordID { index : Z; chunk : Z }.

(** [phmap::flat_hash_map<int64_t, std::shared_ptr<std::vector<RecordID>>>] *)
Abbreviation HashTable := (gmap Z (list RecordID)).

(** [table] is the pointer to the table; [None] is an empty [Datum], a null
    hash table, a column that is not materialised. *)
Record LazyTable := mkLazyTable {
  table : Z;
  filter : option Chunks;
  indices : option (list Z);
  index_chunks : option (list Z);
  hash_table_ : option HashTable;
  materialized_cols_ : gmap string Chunks
}.

Definition newLazyTable (t : Z) (f : option Chunks) (idxs chks : option (list Z)) (h : option HashTable) : LazyTable :=
  mkLazyTable t f idxs chks h ∅.

Definition set_materialized_column (col : string) (c : Chunks) (lt : LazyTable) : LazyTable :=
  mkLazyTable (table lt) (filter lt) (indices lt) (index_chunks lt) (hash_table_ lt) (<[col := c]> (materialized_cols_ lt)).

(** [if (indices.kind() != arrow::Datum::NONE) context_.apply_indices(...)] *)
Definition gathered (lt : LazyTable) (out : Chunks) : option Chunks :=
  match indices lt with
  | Some idxs => apply_indices out idxs (index_chunks lt)
  | None => Some out
  end.

(** [LazyTable::MaterializeColumn(ctx, col_name, out)]; [get_column] is
    [DBTable::get_column] of the table the pointer stands for. *)
Definition MaterializeColumn (get_column : Z -> string -> option Chunks) (col : string) (lt : LazyTable) : option (LazyTable * Chunks) :=
  match materialized_cols_ lt !! col with
  | Some c => Some (lt, c)
  | None =>
      out ← get_column (table lt) col;
      out ← gathered lt out;
      Some (set_materialized_column col out lt, out)
  end.

(** [OperatorResult]: the vector [lazy_tables_]. *)
Abbreviation OperatorResult := (list LazyTable).

Definition append_lazy (lt : LazyTable) (r : OperatorResult) : OperatorResult := lt :: r.
Definition append_table (t : Z) (r : OperatorResult) : OperatorResult := newLazyTable t None None None None :: r.
Definition append_result (r2 r : OperatorResult) : OperatorResult := r ++ r2.

(** The first lazy table of the given table; [None] is a null pointer. *)
Fixpoint get_table (t : Z) (r : OperatorResult) : option LazyTable :=
  match r with
  | [] => None
  | lt :: r' => if table lt =? t then Some lt else get_table t r'
  end.

End Lazy.

Import Lazy.

Module Join.

Record ColumnReference := mkColumnReference { cr_table : Z; col_name : string }.
Record JoinPredicate := mkJoinPredicate { left_col_ : ColumnReference; right_col_ : ColumnReference }.

(** [filter_data == nullptr || GetBit(filter_data, row)] *)
Definition passes (bits : option (list Z)) (row : Z) : option bool :=
  match bits with None => Some true | Some b => GetBit b row end.

(** [filter->chunk(i)], when there is a filter. *)
Definition filter_chunk (f : option Chunks) (i : nat) : option (option (list Z)) :=
  match f with None => Some None | Some chunks => b ← chunks !! i; Some (Some b) end.

(** ** Build *)

Definition insert_record (key : Z) (id : RecordID) (ht : HashTable) : HashTable :=
  match ht !! key with
  | Some record_ids => <[key := record_ids ++ [id]]> ht
  | None => <[key := [id]]> ht
  end.

(** [for (std::uint32_t row = 0; row < chunk->length(); row++)] *)
Fixpoint build_rows (values : list Z) (row offset : Z) (i : nat) (bits : option (list Z)) (ht : HashTable) : option HashTable :=
  match values with
  | [] => Some ht
  | v :: values' =>
      ok ← passes bits row;
      let ht := if (ok : bool) then insert_record v (mkRecordID (to_u32 (to_u32 offset + row)) (to_u16 (Z.of_nat i))) ht else ht in
      build_rows values' (row + 1) offset i bits ht
  end.

Fixpoint build_chunks (col : Chunks) (offsets : list Z) (i : nat) (f : option Chunks) (ht : HashTable) : option HashTable :=
  match col with
  | [] => Some ht
  | c :: col' =>
      bits ← filter_chunk f i;
      offset ← offsets !! i;
      ht ← build_rows c 0 offset i bits ht;
      build_chunks col' offsets (S i) f ht
  end.

Definition BuildHashTable (col : Chunks) (f : option Chunks) : option HashTable :=
  offsets ← ComputeChunkOffsets col;
  build_chunks col offsets 0 f ∅.

(** ** Probe *)

(** The arrays [l_idxs] and [r_idxs], of which [idx_len] elements are
    allocated; [num_indices] is the length of the written part. *)
Record Indices := mkIndices { l_idxs : list Z; r_idxs : list Z; idx_len : Z }.

Definition push_indices (l r : Z) (st : Indices) : option Indices :=
  let num_indices := Z.of_nat (length (l_idxs st)) in
  let len := if idx_len st <=? num_indices then Z.shiftl (idx_len st) 1 else idx_len st in
  if len <=? num_indices then None else
  _ ← int_chk (num_indices + 1);
  Some (mkIndices (l_idxs st ++ [l]) (r_idxs st ++ [r]) len).

Fixpoint push_matches (l : Z) (ids : list RecordID) (st : Indices) : option Indices :=
  match ids with
  | [] => Some st
  | id :: ids' => st ← push_indices l (index id) st; push_matches l ids' st
  end.

(** The values are read as [uint64_t] and looked up as [int64_t]. *)
Fixpoint probe_rows (values : list Z) (row offset : Z) (bits : option (list Z)) (ht : HashTable) (st : Indices) : option Indices :=
  match values with
  | [] => Some st
  | v :: values' =>
      ok ← passes bits row;
      st ← (if (ok : bool) then
              match ht !! to_i64 (to_u64 v) with
              | Some ids => push_matches (to_u32 (row + offset)) ids st
              | None => Some st
              end
            else Some st);
      probe_rows values' (row + 1) offset bits ht st
  end.

Definition set_at {A} (i : nat) (x : A) (l : list A) : option (list A) :=
  if (i <? length l)%nat then Some (<[i := x]> l) else None.

(** [left_indices_] and [right_indices_] *)
Record Probe := mkProbe { left_indices_ : list (list Z); right_indices_ : list (list Z) }.

Definition probe_chunk (col : Chunks) (f : option Chunks) (offsets : list Z) (ht : HashTable) (i : nat) (p : Probe) : option Probe :=
  chunk ← col !! i;
  bits ← filter_chunk f i;
  offset ← offsets !! i;
  st ← probe_rows chunk 0 offset bits ht (mkIndices [] [] (Z.of_nat (length chunk)));
  l ← set_at i (l_idxs st) (left_indices_ p);
  r ← set_at i (r_idxs st) (right_indices_ p);
  Some (mkProbe l r).

(** The loop of [ProbeHashTableBlock]: at most [n] chunks from chunk [i] on. *)
Fixpoint probe_chunks (n i : nat) (col : Chunks) (f : option Chunks) (offsets : list Z) (ht : HashTable) (p : Probe) : option Probe :=
  match n with
  | O => Some p
  | S n' =>
      if (i <? length col)%nat then
        p ← probe_chunk col f offsets ht i p;
        probe_chunks n' (S i) col f offsets ht p
      else Some p
  end.

Definition ProbeHashTableBlock (col : Chunks) (f : option Chunks) (batch_idx batch_size : Z) (offsets : list Z) (ht : HashTable)
    (p : Probe) : option Probe :=
  base_idx ← int_chk (batch_idx * batch_size);
  _ ← int_chk (base_idx + batch_size);
  probe_chunks (Z.to_nat batch_size) (Z.to_nat base_idx) col f offsets ht p.

Fixpoint run_batches (order : list nat) (col : Chunks) (f : option Chunks) (batch_size : Z) (offsets : list Z) (ht : HashTable)
    (p : Probe) : option Probe :=
  match order with
  | [] => Some p
  | k :: order' =>
      p ← ProbeHashTableBlock col f (Z.of_nat k) batch_size offsets ht p;
      run_batches order' col f batch_size offsets ht p
  end.

(** [schedule n] is the order in which the scheduler runs the [n] tasks. *)
Definition ProbeHashTable (schedule : nat -> list nat) (num_parallel : spec_float) (col : Chunks) (f : option Chunks) (ht : HashTable)
    : option Probe :=
  offsets ← ComputeChunkOffsets col;
  '(batch_size, num_batches) ← ComputeBatchConfig (Z.of_nat (length col)) num_parallel;
  run_batches (schedule (Z.to_nat num_batches)) col f batch_size offsets ht
    (mkProbe (replicate (length col) []) (replicate (length col) [])).

(** [FinishProbe]: the vectors become one array per side. *)
Definition FinishProbe (p : Probe) : list Z * list Z := (concat (left_indices_ p), concat (right_indices_ p)).

(** ** Result *)

Section Result.
Context {T : ArrowTake}.

Definition take_or_set (lt : LazyTable) (join_indices : list Z) : option LazyTable :=
  idxs ← match indices lt with Some idxs => Take idxs join_indices | None => Some join_indices end;
  Some (newLazyTable (table lt) None (Some idxs) None (hash_table_ lt)).

(** The lambda [propogate_indices]; the joined table itself takes the second
    branch. *)
Fixpoint propogate_indices (r : OperatorResult) (t : Z) (join_indices : list Z) : option OperatorResult :=
  match r with
  | [] => Some []
  | lt :: r' =>
      lt' ← (if negb (table lt =? t) && match indices lt with Some _ => true | None => false end
             then take_or_set lt join_indices
             else Some (newLazyTable (table lt) None (Some join_indices) None (hash_table_ lt)));
      r' ← propogate_indices r' t join_indices;
      Some (lt' :: r')
  end.

Definition BackPropogateResult (left_prev right_prev : OperatorResult) (left_table right_table : LazyTable)
    (joined : list Z * list Z) : option OperatorResult :=
  l ← take_or_set left_table (fst joined);
  ls ← propogate_indices left_prev (table left_table) (fst joined);
  r ← take_or_set right_table (snd joined);
  rs ← propogate_indices right_prev (table right_table) (snd joined);
  Some (l :: ls ++ r :: rs).

(** [HashJoin::Execute]: the tasks [Initialize], [Join] and [Finish] of a
    chain; the result is appended to [out]. *)
Definition Execute (get_column : Z -> string -> option Chunks) (schedule : nat -> list nat) (num_parallel : spec_float)
    (pred : JoinPredicate) (left_prev right_prev out : OperatorResult) : option OperatorResult :=
  left_table ← get_table (cr_table (left_col_ pred)) left_prev;
  right_table ← get_table (cr_table (right_col_ pred)) right_prev;
  '(left_table, lcol) ← MaterializeColumn get_column (col_name (left_col_ pred)) left_table;
  '(right_table, rcol) ← MaterializeColumn get_column (col_name (right_col_ pred)) right_table;
  ht ← match hash_table_ right_table with
       | Some h => Some h
       | None => BuildHashTable rcol (filter right_table)
       end;
  p ← ProbeHashTable schedule num_parallel lcol (filter left_table) ht;
  result ← BackPropogateResult left_prev right_prev left_table right_table (FinishProbe p);
  Some (append_result result out).

End Result.

End Join.

Import Join.

(** ** The join as a nested loop *)

Module JoinSpec.

Definition bit_of (bits : option (list Z)) (row : Z) : bool :=
  match bits with None => true | Some b => Z.testbit (nth (Z.to_nat (row / 8)) b 0) (row mod 8) end.

(** The rows of a chunk that pass its filter, with their values. *)
Fixpoint chunk_active (values : list Z) (row offset : Z) (bits : option (list Z)) : list (Z * Z) :=
  match values with
  | [] => []
  | v :: values' => (if bit_of bits row then [(offset + row, v)] else []) ++ chunk_active values' (row + 1) offset bits
  end.

Fixpoint active_from (col : Chunks) (f : option Chunks) (i : nat) (offset : Z) : list (list (Z * Z)) :=
  match col with
  | [] => []
  | c :: col' =>
      chunk_active c 0 offset (f ≫= fun chunks => chunks !! i) :: active_from col' f (S i) (offset + Z.of_nat (length c))
  end.

(** The active rows of a column, by chunk. *)
Definition active (col : Chunks) (f : option Chunks) : list (list (Z * Z)) := active_from col f 0 0.

Definition partners (k : Z) (R : list (Z * Z)) : list Z := fst <$> base.filter (fun rk => snd rk = k) R.

Definition nested_loop (L R : list (Z * Z)) : list (Z * Z) :=
  L ≫= fun lk => (fun r => (fst lk, r)) <$> partners (snd lk) R.

Definition bits_cover (c : list Z) (bits : list Z) : Prop := Z.of_nat (length c) <= 8 * Z.of_nat (length bits).

(** A filter has a bitmap for every chunk, long enough for its rows. *)
Definition filter_ok (col : Chunks) (f : option Chunks) : Prop :=
  match f with None => True | Some chunks => Forall2 bits_cover col chunks end.

(** The hash table holds, for every key, the rows with that key in order. *)
Definition holds (ht : HashTable) (R : list (Z * Z)) : Prop :=
  forall k, index <$> default [] (ht !! k) = partners k R.

Lemma partners_app k R1 R2 : partners k (R1 ++ R2) = partners k R1 ++ partners k R2.
Proof. unfold partners. by rewrite filter_app, fmap_app. Qed.

Lemma nested_loop_app L1 L2 R : nested_loop (L1 ++ L2) R = nested_loop L1 R ++ nested_loop L2 R.
Proof. unfold nested_loop. by rewrite bind_app. Qed.

Lemma passes_ok bits c row : (0 <= row < Z.of_nat (length c)) -> match bits with None => True | Some b => bits_cover c b end ->
  passes bits row = Some (bit_of bits row).
Proof.
  intros Hr Hb. unfold passes, bit_of. destruct bits as [b|]; [| done]. unfold bits_cover in Hb. unfold GetBit.
  destruct (lookup_lt_is_Some_2 b (Z.to_nat (row / 8))) as [x E].
  { apply Nat2Z.inj_lt. rewrite Z2Nat.id by (apply Z.div_pos; lia). apply Z.div_lt_upper_bound; lia. }
  rewrite E. cbn. by rewrite (nth_lookup_Some _ _ _ _ E).
Qed.

Lemma insert_record_ok key r k ht R : holds ht R -> holds (insert_record key (mkRecordID r k) ht) (R ++ [(r, key)]).
Proof.
  intros H k'. rewrite partners_app. unfold insert_record. specialize (H k'). unfold partners at 2.
  assert (base.filter (fun rk : Z * Z => snd rk = k') [(r, key)] = if decide (key = k') then [(r, key)] else []) as ->.
  { cbn. by destruct (decide (key = k')). }
  destruct (decide (key = k')) as [<- | Hne].
  - destruct (ht !! key) as [ids|] eqn:E; rewrite lookup_insert_eq; cbn in *; rewrite <- H; by rewrite ?fmap_app.
  - destruct (ht !! key); rewrite lookup_insert_ne by done; cbn; by rewrite app_nil_r.
Qed.

Lemma build_rows_ok c i offset bits : 0 <= offset -> offset + Z.of_nat (length c) < 2 ^ 32 ->
  match bits with None => True | Some b => bits_cover c b end ->
  forall values row ht R, 0 <= row -> row + Z.of_nat (length values) = Z.of_nat (length c) -> holds ht R ->
  exists ht', build_rows values row offset i bits ht = Some ht' /\ holds ht' (R ++ chunk_active values row offset bits).
Proof.
  intros Ho Hl Hb. induction values as [|v values IH]; intros row ht R Hr Hrow HR; cbn [build_rows chunk_active length] in *.
  { exists ht. by rewrite app_nil_r. }
  rewrite (passes_ok bits c) by (done || lia). cbn [mbind option_bind]. rewrite (assoc_L (++)). destruct (bit_of bits row).
  - apply IH; [lia | lia |]. rewrite (wrapu_id 32 offset) by (unfold is_u; lia). rewrite wrapu_id by (unfold is_u; lia).
    by apply insert_record_ok.
  - rewrite app_nil_r. apply IH; [lia | lia | done].
Qed.

Lemma filter_chunk_ok col f i c : filter_ok col f -> col !! i = Some c ->
  exists bits, filter_chunk f i = Some bits /\ bits = (f ≫= fun chunks => chunks !! i) /\
    match bits with None => True | Some b => bits_cover c b end.
Proof.
  intros HF E. destruct f as [chunks|]; cbn; [| by exists None]. cbn in HF.
  destruct (Forall2_lookup_l _ _ _ _ _ HF E) as (b & Eb & Hb). exists (Some b). by rewrite Eb.
Qed.

Lemma build_chunks_ok col f offsets : filter_ok col f -> rows col < 2 ^ 32 ->
  (forall i, (i < length col)%nat -> offsets !! i = Some (Z.of_nat (start_row col i))) ->
  forall rest i ht R, drop i col = rest -> holds ht R ->
  exists ht', build_chunks rest offsets i f ht = Some ht' /\
    holds ht' (R ++ concat (active_from rest f i (Z.of_nat (start_row col i)))).
Proof.
  intros HF Hl Ho. induction rest as [|c rest IH]; intros i ht R Hd HR; cbn [build_chunks active_from concat].
  { exists ht. by rewrite app_nil_r. }
  assert (col !! i = Some c) as Ei by (rewrite <- (Nat.add_0_r i), <- lookup_drop, Hd; done).
  destruct (filter_chunk_ok col f i c HF Ei) as (bits & -> & Eb & Hb). cbn [mbind option_bind].
  rewrite (Ho i) by (by eapply lookup_lt_Some). cbn [mbind option_bind].
  pose proof (start_row_S col i c Ei) as HS. pose proof (start_row_le col (S i)) as Hle. unfold rows in Hl.
  destruct (build_rows_ok c i (Z.of_nat (start_row col i)) bits ltac:(lia) ltac:(lia) Hb c 0 ht R ltac:(lia) ltac:(lia) HR) as (ht1 & -> & HR1).
  cbn [mbind option_bind]. destruct (IH (S i) ht1 _ ltac:(by rewrite <- Nat.add_1_r, <- drop_drop, Hd) HR1) as (ht2 & -> & HR2).
  exists ht2. split; [done |]. rewrite HS, Nat2Z.inj_add in HR2. by rewrite Eb, <- (assoc_L (++)) in HR2.
Qed.

Lemma BuildHashTable_ok col f : col <> [] -> rows col < 2 ^ 32 -> filter_ok col f ->
  exists ht, BuildHashTable col f = Some ht /\ holds ht (concat (active col f)).
Proof.
  intros Hne Hl HF. destruct (ComputeChunkOffsets_ok col Hne Hl) as (offs & E & Ho). unfold BuildHashTable. rewrite E. cbn [mbind option_bind].
  apply (build_chunks_ok col f offs HF Hl Ho col 0 ∅ []); [done |]. intros k. by rewrite lookup_empty.
Qed.

(** ** The probe *)

Lemma key_id v : is_s 64 v -> to_i64 (to_u64 v) = v.
Proof.
  intros Hv. assert (to_i64 (to_u64 v) = to_i64 v) as ->; [| by apply wraps_id].
  unfold wraps, wrapu. by rewrite Zplus_mod_idemp_l.
Qed.

Record indices_ok (st : Indices) : Prop := {
  io_same : length (r_idxs st) = length (l_idxs st);
  io_room : Z.of_nat (length (l_idxs st)) <= idx_len st;
  io_pos : 0 < idx_len st
}.

Lemma push_matches_ok l ids : forall st, indices_ok st -> Z.of_nat (length (l_idxs st) + length ids) < 2 ^ 31 ->
  exists st', push_matches l ids st = Some st' /\ indices_ok st' /\
    l_idxs st' = l_idxs st ++ ((fun _ => l) <$> ids) /\ r_idxs st' = r_idxs st ++ (index <$> ids).
Proof.
  induction ids as [|id ids IH]; intros st HI Hn; cbn [push_matches].
  { exists st. by rewrite !app_nil_r. }
  pose proof HI as []. cbn [length] in Hn. unfold push_indices. set (n := Z.of_nat (length (l_idxs st))) in *.
  set (len := if idx_len st <=? n then _ else _).
  assert (n < len) as Hlen by (unfold len; rewrite Z.shiftl_mul_pow2 by lia; change (2 ^ 1) with 2; destruct (Z.leb_spec (idx_len st) n); lia).
  rewrite (proj2 (Z.leb_gt _ _)) by lia.
  rewrite int_chk_id by (unfold is_s; change (2 ^ (32 - 1)) with (2 ^ 31); lia). cbn [mbind option_bind].
  edestruct (IH (mkIndices (l_idxs st ++ [l]) (r_idxs st ++ [index id]) len)) as (st' & E & HI' & El & Er).
  { constructor; cbn; rewrite ?length_app; cbn; lia. }
  { cbn. rewrite length_app. cbn. lia. }
  exists st'. split_and!; [done | done | |]; rewrite ?El, ?Er, fmap_cons; cbn; by rewrite <- (assoc_L (++)).
Qed.

Lemma nested_one l v R ids : index <$> ids = partners v R -> nested_loop [(l, v)] R = (fun id => (l, index id)) <$> ids.
Proof. intros E. unfold nested_loop. cbn. rewrite app_nil_r, <- E, <- list_fmap_compose. done. Qed.

Lemma probe_rows_ok c offset bits ht R : holds ht R -> 0 <= offset -> offset + Z.of_nat (length c) < 2 ^ 32 ->
  match bits with None => True | Some b => bits_cover c b end -> Forall (is_s 64) c ->
  forall values row st, 0 <= row -> row + Z.of_nat (length values) = Z.of_nat (length c) -> Forall (is_s 64) values -> indices_ok st ->
  Z.of_nat (length (l_idxs st) + length (nested_loop (chunk_active values row offset bits) R)) < 2 ^ 31 ->
  exists st', probe_rows values row offset bits ht st = Some st' /\ indices_ok st' /\
    l_idxs st' = l_idxs st ++ (fst <$> nested_loop (chunk_active values row offset bits) R) /\
    r_idxs st' = r_idxs st ++ (snd <$> nested_loop (chunk_active values row offset bits) R).
Proof.
  intros HH Ho Hl Hb Hc. induction values as [|v values IH]; intros row st Hr Hrow HV HI Hn; cbn [probe_rows chunk_active] in *.
  { exists st. cbn. by rewrite !app_nil_r. }
  cbn [length] in Hrow. apply Forall_cons in HV as [Hv HV]. rewrite nested_loop_app in *. rewrite length_app in Hn.
  rewrite (passes_ok bits c) by (done || lia). cbn [mbind option_bind]. destruct (bit_of bits row).
  - rewrite (key_id v Hv). rewrite (wrapu_id 32 (row + offset)) by (unfold is_u; lia). rewrite (Z.add_comm row offset).
    pose proof (nested_one (offset + row) v R _ (HH v)) as EN. rewrite EN in *.
    assert (exists st1, match ht !! v with Some ids => push_matches (offset + row) ids st | None => Some st end = Some st1 /\
      indices_ok st1 /\ l_idxs st1 = l_idxs st ++ ((fun _ => offset + row) <$> default [] (ht !! v)) /\
      r_idxs st1 = r_idxs st ++ (index <$> default [] (ht !! v))) as (st1 & E1 & HI1 & El & Er).
    { destruct (ht !! v) as [ids|]; cbn in *; [| exists st; by rewrite !app_nil_r].
      apply push_matches_ok; [done |]. rewrite length_fmap in Hn. lia. }
    rewrite E1. cbn [mbind option_bind]. destruct (IH (row + 1) st1) as (st2 & E2 & HI2 & El2 & Er2); [lia | lia | done | done | |].
    { rewrite El, length_app, length_fmap. rewrite length_fmap in Hn. lia. }
    exists st2. rewrite !fmap_app, El2, Er2, El, Er, <- !list_fmap_compose, !(assoc_L (++)). done.
  - cbn [nested_loop mbind list_bind app length] in *. apply IH; (done || lia).
Qed.

(** The pairs of chunk [i]. *)
Definition pairs_of (col : Chunks) (f : option Chunks) (R : list (Z * Z)) (i : nat) : list (Z * Z) :=
  nested_loop (nth i (active col f) []) R.

Lemma active_from_lookup f : forall col i k offset c, col !! k = Some c ->
  active_from col f i offset !! k =
    Some (chunk_active c 0 (offset + Z.of_nat (start_row col k)) (f ≫= fun chunks => chunks !! (i + k)%nat)).
Proof.
  induction col as [|c0 col IH]; intros i k offset c E; [done |]. destruct k as [|k]; cbn [active_from lookup list_lookup] in *.
  - injection E as <-. unfold start_row. cbn. rewrite Z.add_0_r, Nat.add_0_r. done.
  - rewrite (IH (S i) k _ c E). unfold start_row. cbn [take concat]. rewrite length_app.
    rewrite Nat.add_succ_comm. do 2 f_equal. lia.
Qed.

Lemma length_active col f i offset : length (active_from col f i offset) = length col.
Proof. revert i offset. induction col as [|c col IH]; intros; cbn; [done |]. by rewrite IH. Qed.

Lemma batch_range (b k x : nat) : (0 < b)%nat -> ((k * b <=? x) && (x <? k * b + b))%nat = bool_decide ((x / b)%nat = k).
Proof.
  intros Hb. pose proof (Nat.div_mod_eq x b). pose proof (Nat.mod_upper_bound x b ltac:(lia)). case_bool_decide as E.
  - rewrite (proj2 (Nat.leb_le _ _)), (proj2 (Nat.ltb_lt _ _)) by nia. done.
  - destruct (Nat.leb_spec (k * b) x), (Nat.ltb_spec x (k * b + b)); cbn; try done. exfalso. apply E. symmetry.
    apply (Nat.div_unique x b k (x - k * b)); lia.
Qed.

Lemma insert_seq {A} (g : nat -> A) n i x : (i < n)%nat -> <[i := x]> (g <$> seq 0 n) = (fun j => if (j =? i)%nat then x else g j) <$> seq 0 n.
Proof.
  intros Hi. apply list_eq_same_length with n; [by rewrite length_fmap, length_seq | by rewrite length_insert, length_fmap, length_seq |].
  intros j a b Hj. destruct (Nat.eqb_spec j i) as [-> | Hne].
  - rewrite list_lookup_insert_eq by (by rewrite length_fmap, length_seq). rewrite list_lookup_fmap, lookup_seq_lt by done. cbn.
    rewrite Nat.eqb_refl. congruence.
  - rewrite list_lookup_insert_ne by done. rewrite !list_lookup_fmap, lookup_seq_lt by done. cbn.
    rewrite (proj2 (Nat.eqb_neq _ _)) by done. congruence.
Qed.

Section Probing.
Variables (col : Chunks) (f : option Chunks) (ht : HashTable) (R : list (Z * Z)) (offsets : list Z).
Hypothesis HF : filter_ok col f.
Hypothesis Hrows : rows col < 2 ^ 32.
Hypothesis Hvals : Forall (is_s 64) (concat col).
Hypothesis HH : holds ht R.
Hypothesis Hcount : Z.of_nat (length (nested_loop (concat (active col f)) R)) < 2 ^ 31.
Hypothesis Hoff : forall i, (i < length col)%nat -> offsets !! i = Some (Z.of_nat (start_row col i)).

Definition probe_ok (p : Probe) : Prop := length (left_indices_ p) = length col /\ length (right_indices_ p) = length col.

Lemma concat_pairs : concat (pairs_of col f R <$> seq 0 (length col)) = nested_loop (concat (active col f)) R.
Proof.
  unfold pairs_of, active. rewrite <- (length_active col f 0 0). generalize (active_from col f 0 0). intros A.
  induction A as [|a A IH] using rev_ind; [done |]. rewrite length_app, Nat.add_1_r, seq_S, fmap_app, !concat_app. cbn [fmap list_fmap concat].
  rewrite nested_loop_app, !app_nil_r. f_equal.
  - rewrite <- IH. f_equal. apply list_fmap_ext. intros i x Hx. apply lookup_seq in Hx as [-> Hx]. cbn. by rewrite app_nth1.
  - rewrite app_nth2, Nat.sub_diag by lia. done.
Qed.

Lemma pairs_small i : (i < length col)%nat -> (length (pairs_of col f R i) <= length (nested_loop (concat (active col f)) R))%nat.
Proof.
  intros Hi. rewrite <- concat_pairs.
  assert ((pairs_of col f R <$> seq 0 (length col)) !! i = Some (pairs_of col f R i)) as E.
  { rewrite list_lookup_fmap, lookup_seq_lt by done. done. }
  rewrite <- (take_drop_middle _ _ _ E), concat_app, length_app. cbn. rewrite length_app. lia.
Qed.

Lemma probe_chunk_ok p i : probe_ok p -> (i < length col)%nat ->
  probe_chunk col f offsets ht i p =
    Some (mkProbe (<[i := fst <$> pairs_of col f R i]> (left_indices_ p)) (<[i := snd <$> pairs_of col f R i]> (right_indices_ p))).
Proof.
  intros [H1 H2] Hi. destruct (lookup_lt_is_Some_2 col i Hi) as [c Ec]. unfold probe_chunk. rewrite Ec. cbn [mbind option_bind].
  destruct (filter_chunk_ok col f i c HF Ec) as (bits & -> & Eb & Hb). cbn [mbind option_bind]. rewrite Hoff by done. cbn [mbind option_bind].
  pose proof (start_row_S col i c Ec) as HS. pose proof (start_row_le col (S i)) as Hle. unfold rows in Hrows.
  assert (Forall (is_s 64) c) as Hc.
  { rewrite Forall_concat in Hvals. by eapply Forall_lookup_1 in Hvals. }
  assert (pairs_of col f R i = nested_loop (chunk_active c 0 (Z.of_nat (start_row col i)) bits) R) as Ep.
  { unfold pairs_of, active. erewrite nth_lookup_Some; [| by eapply active_from_lookup]. by rewrite Z.add_0_l, Nat.add_0_l, Eb. }
  assert (exists st, probe_rows c 0 (Z.of_nat (start_row col i)) bits ht (mkIndices [] [] (Z.of_nat (length c))) = Some st /\
    l_idxs st = fst <$> pairs_of col f R i /\ r_idxs st = snd <$> pairs_of col f R i) as (st & -> & El & Er).
  { rewrite Ep. destruct c as [|v c']; [by eexists |]. set (c := v :: c') in *.
    destruct (probe_rows_ok c (Z.of_nat (start_row col i)) bits ht R HH ltac:(lia) ltac:(lia) Hb Hc c 0 (mkIndices [] [] (Z.of_nat (length c))))
      as (st & E & _ & El & Er); [lia | lia | done | | | by exists st].
    - constructor; cbn; lia.
    - pose proof (pairs_small i Hi) as Hs. rewrite Ep in Hs. cbn [l_idxs length]. lia. }
  cbn [mbind option_bind]. unfold set_at. rewrite !(proj2 (Nat.ltb_lt _ _)) by lia. cbn [mbind option_bind]. by rewrite El, Er.
Qed.

(** Which chunks have been probed. *)
Definition probed (done : nat -> bool) (p : Probe) : Prop :=
  probe_ok p /\ forall i, (i < length col)%nat -> done i = true ->
    left_indices_ p !! i = Some (fst <$> pairs_of col f R i) /\ right_indices_ p !! i = Some (snd <$> pairs_of col f R i).

Lemma probed_ext d1 d2 p : (forall x, (x < length col)%nat -> d1 x = d2 x) -> probed d1 p -> probed d2 p.
Proof. intros H [Hok HD]. split; [done |]. intros i Hi Hd. apply HD; [done | by rewrite H]. Qed.

Lemma probed_chunk d p i : (i < length col)%nat -> probed d p ->
  probed (fun j => (j =? i)%nat || d j)
    (mkProbe (<[i := fst <$> pairs_of col f R i]> (left_indices_ p)) (<[i := snd <$> pairs_of col f R i]> (right_indices_ p))).
Proof.
  intros Hi [[HL HR] HD]. split; [by split; cbn; rewrite length_insert |]. cbn. intros j Hj Hd. destruct (Nat.eqb_spec j i) as [-> | Hne].
  - by rewrite !list_lookup_insert_eq by lia.
  - rewrite !list_lookup_insert_ne by done. by apply HD.
Qed.

Lemma probe_chunks_ok : forall n i p d, probed d p ->
  exists p', probe_chunks n i col f offsets ht p = Some p' /\ probed (fun j => d j || ((i <=? j) && (j <? i + n))%nat) p'.
Proof.
  induction n as [|n IH]; intros i p d HP; cbn [probe_chunks].
  { exists p. split; [done |]. eapply probed_ext; [| exact HP]. intros x _. cbn beta.
    destruct (d x), (Nat.leb_spec i x), (Nat.ltb_spec x (i + 0)); cbn; lia || done. }
  destruct (Nat.ltb_spec i (length col)) as [Hlt | Hge].
  - rewrite (probe_chunk_ok p i (proj1 HP) Hlt).
    cbn [mbind option_bind]. destruct (IH (S i) _ _ (probed_chunk d p i Hlt HP)) as (p' & -> & HP'). exists p'. split; [done |].
    eapply probed_ext; [| exact HP']. intros x _. cbn beta.
    destruct (d x), (Nat.eqb_spec x i), (Nat.leb_spec (S i) x), (Nat.ltb_spec x (S i + n)), (Nat.leb_spec i x), (Nat.ltb_spec x (i + S n));
      cbn; lia || done.
  - exists p. split; [done |]. eapply probed_ext; [| exact HP]. intros x Hx. cbn beta.
    destruct (d x), (Nat.leb_spec i x); cbn; lia || done.
Qed.

Lemma probe_batches_ok bs : 0 < bs -> forall order p d, probed d p ->
  Forall (fun k => Z.of_nat k * bs + bs < 2 ^ 31) order ->
  exists p', run_batches order col f bs offsets ht p = Some p' /\
    probed (fun j => d j || bool_decide ((j / Z.to_nat bs)%nat ∈ order)) p'.
Proof.
  intros Hbs. induction order as [|k order IH]; intros p d HP HO; cbn [run_batches].
  { exists p. split; [done |]. eapply probed_ext; [| exact HP]. intros x _. cbn beta.
    rewrite bool_decide_eq_false_2 by apply not_elem_of_nil. by rewrite orb_false_r. }
  apply Forall_cons in HO as [Hk HO]. unfold ProbeHashTableBlock.
  rewrite int_chk_id by (unfold is_s; change (2 ^ (32 - 1)) with (2 ^ 31); nia). cbn [mbind option_bind].
  rewrite int_chk_id by (unfold is_s; change (2 ^ (32 - 1)) with (2 ^ 31); nia). cbn [mbind option_bind].
  destruct (probe_chunks_ok (Z.to_nat bs) (Z.to_nat (Z.of_nat k * bs)) p d HP) as (p1 & -> & HP1). cbn [mbind option_bind].
  destruct (IH p1 _ HP1 HO) as (p' & -> & HP'). exists p'. split; [done |]. eapply probed_ext; [| exact HP']. intros x _. cbn beta.
  replace (Z.to_nat (Z.of_nat k * bs)) with (k * Z.to_nat bs)%nat by lia. rewrite batch_range by lia. rewrite <- orb_assoc. f_equal.
  rewrite <- bool_decide_or. apply bool_decide_ext. by rewrite elem_of_cons.
Qed.

Lemma probed_all p : probed (fun _ => true) p ->
  FinishProbe p = (fst <$> nested_loop (concat (active col f)) R, snd <$> nested_loop (concat (active col f)) R).
Proof.
  intros [[HL HR] HD]. unfold FinishProbe. rewrite <- concat_pairs.
  assert (left_indices_ p = (fun i => fst <$> pairs_of col f R i) <$> seq 0 (length col) /\
    right_indices_ p = (fun i => snd <$> pairs_of col f R i) <$> seq 0 (length col)) as [-> ->].
  { split; (apply list_eq_same_length with (length col); [by rewrite length_fmap, length_seq | done |]); intros i x y Hi Ex Ey;
      rewrite list_lookup_fmap, lookup_seq_lt in Ey by done; destruct (HD i Hi eq_refl) as [E1 E2]; cbn in Ey; congruence. }
  generalize (seq 0 (length col)). intros l. f_equal;
    (induction l as [|k l IH]; [done |]; rewrite !fmap_cons; cbn [concat]; rewrite fmap_app; by rewrite IH).
Qed.

End Probing.

(** The batches, in any order and from any contents of the index vectors. *)
Lemma probe_schedule_ok schedule num_parallel q col f ht R p0 :
  (forall n, Permutation (schedule n) (seq 0 n)) ->
  int_of_double (SFdiv 53 1024 (double_of_Z (Z.of_nat (length col))) num_parallel) = Some q -> 0 <= q ->
  2 * Z.of_nat (length col) + q < 2 ^ 31 ->
  col <> [] -> filter_ok col f -> rows col < 2 ^ 32 -> Forall (is_s 64) (concat col) -> holds ht R ->
  Z.of_nat (length (nested_loop (concat (active col f)) R)) < 2 ^ 31 -> probe_ok col p0 ->
  exists offs bs nb p, ComputeChunkOffsets col = Some offs /\ ComputeBatchConfig (Z.of_nat (length col)) num_parallel = Some (bs, nb) /\
    run_batches (schedule (Z.to_nat nb)) col f bs offs ht p0 = Some p /\ probe_ok col p /\
    FinishProbe p = (fst <$> nested_loop (concat (active col f)) R, snd <$> nested_loop (concat (active col f)) R).
Proof.
  intros Hsch Eq Hq Hsmall Hne HF Hrows Hvals HH Hcount Hp0. assert (0 < length col)%nat as Hlen by (destruct col; [done | cbn; lia]).
  destruct (ComputeChunkOffsets_ok col Hne Hrows) as (offs & Eo & Ho).
  destruct (ComputeBatchConfig_ok (Z.of_nat (length col)) num_parallel q ltac:(lia) Eq Hq) as (bs & nb & Eb & Hbs & Enb).
  assert (forall k, k ∈ schedule (Z.to_nat nb) <-> (k < Z.to_nat nb)%nat) as Hin.
  { intros k. rewrite (Hsch (Z.to_nat nb)), elem_of_seq. lia. }
  pose proof (Z.div_pos (Z.of_nat (length col)) bs ltac:(lia) ltac:(lia)) as Hd0.
  pose proof (Z.div_mod (Z.of_nat (length col)) bs ltac:(lia)) as Hdm. pose proof (Z.mod_pos_bound (Z.of_nat (length col)) bs ltac:(lia)) as Hm.
  destruct (probe_batches_ok col f ht R offs HF Hrows Hvals HH Hcount Ho bs ltac:(lia) (schedule (Z.to_nat nb))
    p0 (fun _ => false)) as (p & Ep & HP).
  { split; [done |]. by intros. }
  { apply Forall_forall. intros k Hk. apply Hin in Hk. nia. }
  exists offs, bs, nb, p. split_and!; [done | done | exact Ep | apply HP |]. apply probed_all.
  eapply probed_ext; [| exact HP]. intros x Hx. cbn. apply bool_decide_eq_true_2. apply Hin.
  apply Nat.Div0.div_lt_upper_bound. nia.
Qed.

Lemma ProbeHashTable_ok schedule num_parallel q col f ht R :
  (forall n, Permutation (schedule n) (seq 0 n)) ->
  int_of_double (SFdiv 53 1024 (double_of_Z (Z.of_nat (length col))) num_parallel) = Some q -> 0 <= q ->
  2 * Z.of_nat (length col) + q < 2 ^ 31 ->
  col <> [] -> filter_ok col f -> rows col < 2 ^ 32 -> Forall (is_s 64) (concat col) -> holds ht R ->
  Z.of_nat (length (nested_loop (concat (active col f)) R)) < 2 ^ 31 ->
  exists p, ProbeHashTable schedule num_parallel col f ht = Some p /\
    FinishProbe p = (fst <$> nested_loop (concat (active col f)) R, snd <$> nested_loop (concat (active col f)) R).
Proof.
  intros Hsch Eq Hq Hsmall Hne HF Hrows Hvals HH Hcount.
  destruct (probe_schedule_ok schedule num_parallel q col f ht R (mkProbe (replicate (length col) []) (replicate (length col) [])))
    as (offs & bs & nb & p & Eo & Eb & Ep & _ & EF); try done.
  { split; cbn; by rewrite length_replicate. }
  exists p. split; [| done]. unfold ProbeHashTable. rewrite Eo. cbn [mbind option_bind]. by rewrite Eb.
Qed.

(** ** Positions and rows *)

Lemma chunk_active_in l k values : forall row offset bits, (l, k) ∈ chunk_active values row offset bits ->
  exists j, l = offset + row + Z.of_nat j /\ values !! j = Some k.
Proof.
  induction values as [|v values IH]; intros row offset bits H; cbn in H; [by apply not_elem_of_nil in H |].
  apply elem_of_app in H as [H | H].
  - destruct (bit_of bits row); [| by apply not_elem_of_nil in H]. apply list_elem_of_singleton in H as [= -> ->].
    exists 0%nat. split; [lia | done].
  - apply IH in H as (j & -> & Ej). exists (S j). split; [lia | done].
Qed.

Lemma active_in l k col f : (l, k) ∈ concat (active col f) -> 0 <= l < rows col /\ value_at col l = k.
Proof.
  intros H. apply list_elem_of_In, in_concat in H as (a & Ha & H). apply list_elem_of_In in Ha, H.
  apply list_elem_of_lookup in Ha as [i Ei]. unfold active in Ei.
  destruct (lookup_lt_is_Some_2 col i) as [c Ec]; [apply lookup_lt_Some in Ei; by rewrite length_active in Ei |].
  rewrite (active_from_lookup f col 0 i 0 c Ec) in Ei. injection Ei as <-.
  apply chunk_active_in in H as (j & -> & Ej). pose proof (lookup_lt_Some _ _ _ Ej) as Hj.
  pose proof (start_row_S col i c Ec). pose proof (start_row_le col (S i)). unfold rows. split; [lia |].
  pose proof (value_at_chunk col i c j Ec Hj) as E. rewrite Ej in E. injection E as ->. f_equal. lia.
Qed.

Lemma chunk_active_all values : forall row offset,
  chunk_active values row offset None = imap (fun j v => (offset + row + Z.of_nat j, v)) values.
Proof.
  induction values as [|v values IH]; intros row offset; [done |]. cbn [chunk_active bit_of imap]. rewrite IH. cbn [app]. f_equal.
  - f_equal. lia.
  - apply imap_ext. intros j x _. cbn. f_equal. lia.
Qed.

Lemma active_all col : concat (active col None) = imap (fun j v => (Z.of_nat j, v)) (concat col).
Proof.
  unfold active. assert (forall i n, concat (active_from col None i (Z.of_nat n)) = imap (fun j v => (Z.of_nat (n + j), v)) (concat col)) as H;
    [| by apply (H 0%nat 0%nat)].
  induction col as [|c col IH]; intros i n; [done |]. cbn [active_from concat mbind option_bind]. rewrite chunk_active_all, imap_app.
  rewrite <- Nat2Z.inj_add, IH. f_equal.
  - apply imap_ext. intros j x _. cbn. f_equal. lia.
  - apply imap_ext. intros j x _. cbn. do 2 f_equal. lia.
Qed.

Lemma nested_loop_in l r L R : (l, r) ∈ nested_loop L R -> exists k, (l, k) ∈ L /\ (r, k) ∈ R.
Proof.
  unfold nested_loop, partners. intros H. apply list_elem_of_bind in H as ([l' k] & H & HL). cbn in H.
  apply list_elem_of_fmap in H as (r' & [= <- <-] & H). apply list_elem_of_fmap in H as ([r'' k'] & -> & H).
  apply list_elem_of_filter in H as [E H]. cbn in E. subst k'. by exists k.
Qed.

End JoinSpec.

Import JoinSpec.

Module JoinResult.

(** The rows of the table that a lazy table stands for; a position of the
    lazy table is a position of this list. *)
Definition base_rows (c : Chunks) (lt : LazyTable) : list Z :=
  match indices lt with Some idxs => idxs | None => Z.of_nat <$> seq 0 (length (concat c)) end.

(** Its active positions with the values of column [c]. *)
Definition lazy_rows (c : Chunks) (lt : LazyTable) : list (Z * Z) :=
  match indices lt with
  | Some idxs => imap (fun p i => (Z.of_nat p, value_at c i)) idxs
  | None => concat (active c (filter lt))
  end.

Definition num_chunks (c : Chunks) (lt : LazyTable) : nat :=
  match indices lt with Some idxs => Z.to_nat (num_slices (Z.of_nat (length idxs))) | None => length c end.

(** What a side of the join is given: its lazy table [lt], in a result whose
    index arrays have one entry per position, and its column [c]. *)
Record side_ok (get_column : Z -> string -> option Chunks) (cr : ColumnReference) (prev : OperatorResult)
    (lt : LazyTable) (c : Chunks) : Prop := {
  s_table : get_table (cr_table cr) prev = Some lt;
  s_column : get_column (cr_table cr) (col_name cr) = Some c;
  s_cache : forall c', materialized_cols_ lt !! col_name cr = Some c' -> gathered lt c = Some c';
  s_chunks : c <> [];
  s_rows : rows c < 2 ^ 32;
  s_values : Forall (is_s 64) (concat c);
  s_active : match indices lt with
    | Some idxs => filter lt = None /\ Z.of_nat (length idxs) < 2 ^ 32 /\ Forall (fun i => 0 <= i < rows c) idxs /\
        match index_chunks lt with None => True | Some chks => Forall2 (in_chunk c) idxs chks end
    | None => filter_ok c (filter lt)
    end;
  s_aligned : Forall (fun l => match indices l with Some idxs => length idxs = length (base_rows c lt) | None => True end) prev
}.

Lemma get_table_in t prev lt : get_table t prev = Some lt -> lt ∈ prev /\ table lt = t.
Proof.
  induction prev as [|l prev IH]; cbn; [done |]. destruct (Z.eqb_spec (table l) t) as [E | _].
  - intros [= <-]. split; [left | done].
  - intros H. apply IH in H as [? ?]. split; [by right | done].
Qed.

Definition same_lazy (a b : LazyTable) : Prop :=
  table a = table b /\ filter a = filter b /\ indices a = indices b /\ hash_table_ a = hash_table_ b.

Lemma gathered_ok g cr prev lt c : side_ok g cr prev lt c ->
  exists col, gathered lt c = Some col /\ concat (active col (filter lt)) = lazy_rows c lt /\ length col = num_chunks c lt /\
    col <> [] /\ rows col = Z.of_nat (length (base_rows c lt)) /\ rows col < 2 ^ 32 /\
    Forall (is_s 64) (concat col) /\ filter_ok col (filter lt).
Proof.
  intros []. unfold gathered, lazy_rows, base_rows, num_chunks. destruct (indices lt) as [idxs|].
  - destruct s_active0 as (Ef & Hlen & Hin & Hchk). rewrite Ef.
    assert (exists out, apply_indices c idxs (index_chunks lt) = Some out /\ length out = Z.to_nat (num_slices (Z.of_nat (length idxs))) /\
      concat out = value_at c <$> idxs) as (out & E & Hl & Hc).
    { destruct (index_chunks lt) as [chks|]; [by apply apply_indices2_ok | by apply apply_indices_ok]. }
    exists out. assert (rows out = Z.of_nat (length idxs)) as Hr by (unfold rows; by rewrite Hc, length_fmap).
    split_and!; [done | | done | | done | lia | | done].
    + rewrite active_all, Hc, imap_fmap. done.
    + intros ->. cbn in Hl. unfold num_slices in Hl.
      assert (0 <= Z.of_nat (length idxs) / slice_length_) by (apply Z.div_pos; unfold slice_length_; lia). lia.
    + rewrite Hc. apply Forall_fmap, Forall_forall. intros i Hi. cbn. rewrite Forall_forall in Hin. specialize (Hin i Hi). unfold rows in Hin.
      unfold value_at. destruct (lookup_lt_is_Some_2 (concat c) (Z.to_nat i)) as [v Ev]; [lia |]. rewrite Ev. cbn. by eapply Forall_lookup_1 in s_values0.
  - exists c. split_and!; try done. by rewrite length_fmap, length_seq.
Qed.

Lemma MaterializeColumn_ok g cr prev lt c : side_ok g cr prev lt c ->
  exists lt' col, MaterializeColumn g (col_name cr) lt = Some (lt', col) /\ gathered lt c = Some col /\ same_lazy lt' lt.
Proof.
  intros HS. destruct (gathered_ok g cr prev lt c HS) as (col & E & _). pose proof HS as [].
  apply get_table_in in s_table0 as [_ Et]. unfold MaterializeColumn.
  destruct (materialized_cols_ lt !! col_name cr) as [c'|] eqn:Em.
  - exists lt, c'. split_and!; [done | auto | done].
  - rewrite Et, s_column0. cbn [mbind option_bind]. rewrite E. cbn [mbind option_bind]. eexists _, col. done.
Qed.

Section Take.
Context {T : ArrowTake}.

Definition pick (l : list Z) (ps : list Z) : list Z := (fun p => nth (Z.to_nat p) l 0) <$> ps.

Definition indices_of (t : Z) (r : OperatorResult) : option (list Z) := lt ← get_table t r; indices lt.

Lemma take_or_set_ok c lt ps : Forall (fun p => 0 <= p < Z.of_nat (length (base_rows c lt))) ps ->
  take_or_set lt ps = Some (newLazyTable (table lt) None (Some (pick (base_rows c lt) ps)) None (hash_table_ lt)).
Proof.
  intros HF. unfold take_or_set, base_rows in *. destruct (indices lt) as [idxs|]; [by rewrite Take_spec |]. cbn [mbind option_bind].
  do 3 f_equal. unfold pick. rewrite <- (list_fmap_id ps) at 1. rewrite length_fmap, length_seq in HF. apply list_fmap_ext.
  intros i p Hp. eapply Forall_lookup_1 in HF; [| exact Hp]. cbn in HF. symmetry. apply nth_lookup_Some.
  rewrite list_lookup_fmap, lookup_seq_lt by lia. cbn. f_equal. lia.
Qed.

Lemma propogate_ok n t ps prev : Forall (fun p => 0 <= p < Z.of_nat n) ps ->
  Forall (fun l => match indices l with Some idxs => length idxs = n | None => True end) prev ->
  exists r, propogate_indices prev t ps = Some r /\
    (forall t', get_table t' prev = None -> get_table t' r = None) /\
    forall t' idxs, t' <> t -> indices_of t' prev = Some idxs -> indices_of t' r = Some (pick idxs ps).
Proof.
  intros HP. unfold indices_of. induction prev as [|lt prev IH]; intros HA; cbn [propogate_indices].
  { exists []. done. }
  apply Forall_cons in HA as [Hlt HA]. destruct (IH HA) as (r & Er & Hnone & Hsome).
  assert (exists lt', (if negb (table lt =? t) && match indices lt with Some _ => true | None => false end
      then take_or_set lt ps else Some (newLazyTable (table lt) None (Some ps) None (hash_table_ lt))) = Some lt' /\ table lt' = table lt /\
      (table lt <> t -> forall idxs, indices lt = Some idxs -> indices lt' = Some (pick idxs ps))) as (lt' & El & Et & Hi).
  { destruct (Z.eqb_spec (table lt) t); cbn [negb andb]; [by eexists |]. destruct (indices lt) as [idxs|] eqn:Ei; [| by eexists].
    unfold take_or_set. rewrite Ei, Take_spec by (by rewrite Hlt). eexists. split_and!; [reflexivity | done |]. intros _ ? [= <-]. done. }
  rewrite El. cbn [mbind option_bind]. rewrite Er. cbn [mbind option_bind]. exists (lt' :: r). split; [done |]. split; cbn [get_table]; rewrite Et.
  - intros t'. destruct (table lt =? t'); [done | auto].
  - intros t' idxs Hne H. destruct (Z.eqb_spec (table lt) t') as [<- | _]; [cbn in *; by apply Hi | by apply Hsome].
Qed.

Lemma get_table_app t r1 r2 : get_table t r1 = None -> get_table t (r1 ++ r2) = get_table t r2.
Proof. induction r1 as [|l r1 IH]; cbn; [done |]. destruct (table l =? t); [done | auto]. Qed.

Lemma get_table_app_l t r1 r2 lt : get_table t r1 = Some lt -> get_table t (r1 ++ r2) = Some lt.
Proof. induction r1 as [|l r1 IH]; cbn; [done |]. destruct (table l =? t); [done | auto]. Qed.

Lemma BackPropogateResult_ok (cl cr : Chunks) left_prev right_prev lt rt (pairs : list (Z * Z)) :
  let nl := length (base_rows cl lt) in let nr := length (base_rows cr rt) in
  Forall (fun lr => 0 <= fst lr < Z.of_nat nl /\ 0 <= snd lr < Z.of_nat nr) pairs ->
  Forall (fun l => match indices l with Some idxs => length idxs = nl | None => True end) left_prev ->
  Forall (fun l => match indices l with Some idxs => length idxs = nr | None => True end) right_prev ->
  is_Some (get_table (table lt) left_prev) -> is_Some (get_table (table rt) right_prev) ->
  (forall t, is_Some (get_table t right_prev) -> get_table t left_prev = None) ->
  exists r, BackPropogateResult left_prev right_prev lt rt (fst <$> pairs, snd <$> pairs) = Some r /\
    indices_of (table lt) r = Some (pick (base_rows cl lt) (fst <$> pairs)) /\
    indices_of (table rt) r = Some (pick (base_rows cr rt) (snd <$> pairs)) /\
    (forall t idxs, t <> table lt -> indices_of t left_prev = Some idxs -> indices_of t r = Some (pick idxs (fst <$> pairs))) /\
    (forall t idxs, t <> table rt -> indices_of t right_prev = Some idxs -> indices_of t r = Some (pick idxs (snd <$> pairs))).
Proof.
  intros nl nr HP HL HR Hl Hr Hdis. unfold BackPropogateResult. cbn [fst snd].
  assert (Forall (fun p => 0 <= p < Z.of_nat nl) (fst <$> pairs)) as HPl by (apply Forall_fmap; eapply Forall_impl; [exact HP | naive_solver]).
  assert (Forall (fun p => 0 <= p < Z.of_nat nr) (snd <$> pairs)) as HPr by (apply Forall_fmap; eapply Forall_impl; [exact HP | naive_solver]).
  rewrite (take_or_set_ok cl lt) by exact HPl. cbn [mbind option_bind].
  destruct (propogate_ok nl (table lt) (fst <$> pairs) left_prev HPl HL) as (ls & -> & HLn & HLs). cbn [mbind option_bind].
  rewrite (take_or_set_ok cr rt) by exact HPr. cbn [mbind option_bind].
  destruct (propogate_ok nr (table rt) (snd <$> pairs) right_prev HPr HR) as (rs & -> & HRn & HRs). cbn [mbind option_bind].
  eexists. split; [reflexivity |].
  assert (table lt <> table rt) as Hne.
  { intros E. rewrite <- E in Hr. apply Hdis in Hr. rewrite Hr in Hl. by destruct Hl. }
  assert (forall t, is_Some (get_table t right_prev) -> t <> table lt) as Hnl.
  { intros t Ht ->. apply Hdis in Ht. rewrite Ht in Hl. by destruct Hl. }
  unfold indices_of. split_and!; cbn [get_table table newLazyTable].
  - rewrite Z.eqb_refl. done.
  - rewrite (proj2 (Z.eqb_neq _ _)) by done. rewrite get_table_app by auto. cbn [get_table table]. by rewrite Z.eqb_refl.
  - intros t idxs Ht H. rewrite (proj2 (Z.eqb_neq _ _)) by done. specialize (HLs t idxs Ht H). unfold indices_of in HLs.
    destruct (get_table t ls) as [lt'|] eqn:E; [| done]. by rewrite (get_table_app_l _ _ _ _ E).
  - intros t idxs Ht H. assert (is_Some (get_table t right_prev)) as Hs by (destruct (get_table t right_prev); done).
    rewrite (proj2 (Z.eqb_neq _ _)) by (by intros <-; eapply Hnl). rewrite get_table_app by auto. cbn [get_table table].
    rewrite (proj2 (Z.eqb_neq _ _)) by done. by apply HRs.
Qed.

(** The active rows of the right side in the order of the hash table: that of
    the rows, unless the table was built when the rows were selected. *)
Definition right_rows (c : Chunks) (lt : LazyTable) (R : list (Z * Z)) : Prop :=
  match hash_table_ lt with
  | Some h => Permutation R (lazy_rows c lt) /\ holds h R
  | None => R = lazy_rows c lt
  end.

Lemma right_rows_in c lt R x : right_rows c lt R -> x ∈ R -> x ∈ lazy_rows c lt.
Proof. unfold right_rows. destruct (hash_table_ lt); [intros [HP _]; by rewrite HP | by intros ->]. Qed.

(** The number of tasks, for [n] chunks. *)
Definition parallel_ok (num_parallel : spec_float) (n : Z) : Prop :=
  exists q, int_of_double (SFdiv 53 1024 (double_of_Z n) num_parallel) = Some q /\ 0 <= q /\ 2 * n + q < 2 ^ 31.

Lemma lazy_rows_in g cr prev lt c l k : side_ok g cr prev lt c -> (l, k) ∈ lazy_rows c lt ->
  0 <= l < Z.of_nat (length (base_rows c lt)).
Proof.
  intros HS H. destruct (gathered_ok _ _ _ _ _ HS) as (col & _ & Ea & _ & _ & Hr & _). rewrite <- Ea in H.
  apply active_in in H as [H _]. lia.
Qed.

End Take.

End JoinResult.

Import JoinResult.

(** The tables of both inputs in the result [r] of a join with the given pairs
    of positions: every index array is rewritten by its side of the pairs. *)
Definition joined (lt rt : LazyTable) (cl cr : Chunks) (left_prev right_prev : OperatorResult) (pairs : list (Z * Z)) (r : OperatorResult) : Prop :=
  indices_of (table lt) r = Some (pick (base_rows cl lt) (fst <$> pairs)) /\
  indices_of (table rt) r = Some (pick (base_rows cr rt) (snd <$> pairs)) /\
  (forall t idxs, t <> table lt -> indices_of t left_prev = Some idxs -> indices_of t r = Some (pick idxs (fst <$> pairs))) /\
  (forall t idxs, t <> table rt -> indices_of t right_prev = Some idxs -> indices_of t r = Some (pick idxs (snd <$> pairs))).

Lemma hash_join_ok {T : ArrowTake} (get_column : Z -> string -> option Chunks) (schedule : nat -> list nat)
    (num_parallel : spec_float) (pred : JoinPredicate) (left_prev right_prev out : OperatorResult) lt rt (cl cr : Chunks) R :
  (forall n, Permutation (schedule n) (seq 0 n)) -> parallel_ok num_parallel (Z.of_nat (num_chunks cl lt)) ->
  side_ok get_column (left_col_ pred) left_prev lt cl -> side_ok get_column (right_col_ pred) right_prev rt cr ->
  (forall t, is_Some (get_table t right_prev) -> get_table t left_prev = None) -> right_rows cr rt R ->
  Z.of_nat (length (nested_loop (lazy_rows cl lt) R)) < 2 ^ 31 ->
  let pairs := nested_loop (lazy_rows cl lt) R in
  exists r, Execute get_column schedule num_parallel pred left_prev right_prev out = Some (out ++ r) /\
    joined lt rt cl cr left_prev right_prev pairs r.
Proof.
  intros Hsch (q & Eq & Hq & Hsm) HL HR Hdis Hpre Hcnt pairs.
  destruct (gathered_ok _ _ _ _ _ HL) as (lcol & Egl & Eal & Hnl & Hnel & Hrl & Hl32 & Hvl & Hfl).
  destruct (gathered_ok _ _ _ _ _ HR) as (rcol & Egr & Ear & Hnr & Hner & Hrr & Hr32 & Hvr & Hfr).
  destruct (MaterializeColumn_ok _ _ _ _ _ HL) as (lt' & lcol' & Eml & Egl' & Tl & Fl & Il & Xl).
  destruct (MaterializeColumn_ok _ _ _ _ _ HR) as (rt' & rcol' & Emr & Egr' & Tr & Fr & Ir & Xr).
  rewrite Egl in Egl'. injection Egl' as <-. rewrite Egr in Egr'. injection Egr' as <-.
  destruct (get_table_in _ _ _ (s_table _ _ _ _ _ HL)) as [_ Etl]. destruct (get_table_in _ _ _ (s_table _ _ _ _ _ HR)) as [_ Etr].
  assert (exists ht, match hash_table_ rt' with Some h => Some h | None => BuildHashTable rcol (filter rt') end = Some ht /\
    holds ht R) as (ht & Eht & HH).
  { rewrite Xr, Fr. unfold right_rows in Hpre. destruct (hash_table_ rt) as [h|]; [by exists h; destruct Hpre |].
    rewrite Hpre, <- Ear. by apply BuildHashTable_ok. }
  destruct (ProbeHashTable_ok schedule num_parallel q lcol (filter lt) ht R) as (p & Ep & Efp); try done; try (by rewrite Hnl); [by rewrite Eal |].
  rewrite Eal in Efp. fold pairs in Efp. rewrite <- Fl in Ep.
  assert (base_rows cl lt' = base_rows cl lt /\ base_rows cr rt' = base_rows cr rt) as [Bl Br] by (unfold base_rows; by rewrite Il, Ir).
  destruct (BackPropogateResult_ok cl cr left_prev right_prev lt' rt' pairs) as (r & Er & H1 & H2 & H3 & H4); rewrite ?Bl, ?Br in *.
  { apply Forall_forall. intros [l r] Hin. apply nested_loop_in in Hin as (k & Hl & Hr). apply (right_rows_in _ _ _ _ Hpre) in Hr.
    split; [by eapply lazy_rows_in | by eapply lazy_rows_in]. }
  { apply (s_aligned _ _ _ _ _ HL). }
  { apply (s_aligned _ _ _ _ _ HR). }
  { rewrite Tl, Etl, (s_table _ _ _ _ _ HL). done. }
  { rewrite Tr, Etr, (s_table _ _ _ _ _ HR). done. }
  { done. }
  rewrite Tl, Tr in *. exists r. split_and!; try done. unfold Execute.
  rewrite (s_table _ _ _ _ _ HL). cbn [mbind option_bind]. rewrite (s_table _ _ _ _ _ HR). cbn [mbind option_bind].
  rewrite Eml. cbn [mbind option_bind]. rewrite Emr. cbn [mbind option_bind]. rewrite Eht. cbn [mbind option_bind].
  rewrite Ep. cbn [mbind option_bind]. by rewrite Efp, Er.
Qed.

(** C9: a hash join computes the nested-loop join of its inputs.  For every pair
    of an active left and an active right position with equal keys, in the order
    of the left positions and then of the right ones (in the order of the hash
    table, if the selection built it), the index array of every table of the left input receives the entry of the left position and that of
    every table of the right input the entry of the right position; no others
    are produced.  This holds for every order in which the tasks of the probe
    run, for inputs that are filtered, already joined or neither, and with a hash
    table built here or by the selection; no access leaves an array. *)
Theorem hash_join_correct {T : ArrowTake} (get_column : Z -> string -> option Chunks) (schedule : nat -> list nat)
    (num_parallel : spec_float) (pred : JoinPredicate) (left_prev right_prev out : OperatorResult) lt rt (cl cr : Chunks) R :
  (forall n, Permutation (schedule n) (seq 0 n)) -> parallel_ok num_parallel (Z.of_nat (num_chunks cl lt)) ->
  side_ok get_column (left_col_ pred) left_prev lt cl -> side_ok get_column (right_col_ pred) right_prev rt cr ->
  (forall t, is_Some (get_table t right_prev) -> get_table t left_prev = None) -> right_rows cr rt R ->
  Z.of_nat (length (nested_loop (lazy_rows cl lt) R)) < 2 ^ 31 ->
  let pairs := nested_loop (lazy_rows cl lt) R in
  exists r, Execute get_column schedule num_parallel pred left_prev right_prev out = Some (out ++ r) /\
    joined lt rt cl cr left_prev right_prev pairs r.
Proof. apply hash_join_ok. Qed.

(** ** A kernel and an example *)

Module ListTake.

#[export, refine] Instance list_take : ArrowTake := {|
  Take values indices := if forallb (fun i => (0 <=? i) && (i <? Z.of_nat (length values))) indices
                         then Some ((fun i => nth (Z.to_nat i) values 0) <$> indices) else None |}.
Proof.
  intros values indices HF. replace (forallb _ indices) with true; [done |]. symmetry. apply forallb_forall.
  intros i Hi. apply list_elem_of_In in Hi. rewrite Forall_forall in HF. specialize (HF i Hi).
  rewrite (proj2 (Z.leb_le _ _)), (proj2 (Z.ltb_lt _ _)) by lia. done.
Defined.

Definition demo_columns (t : Z) (col : string) : option Chunks :=
  if t =? 1 then Some [[1; 2]; [2; 3]] else if t =? 2 then Some [[2; 4; 2]; [9]] else None.

(** Table 1 has been joined with a table 3 before; table 2 has been filtered. *)
Definition demo_left : OperatorResult :=
  [newLazyTable 1 None (Some [3; 1; 2]) None None; newLazyTable 3 None (Some [7; 8; 9]) None None].
Definition demo_right : OperatorResult := [newLazyTable 2 (Some [[6]; [1]]) None None None].

End ListTake.

Import ListTake.

Lemma hash_join_correct_witness :
  exists r, Execute demo_columns (fun n => rev (seq 0 n)) (double_of_Z 8)
      (mkJoinPredicate (mkColumnReference 1 "k") (mkColumnReference 2 "k")) demo_left demo_right [] = Some r /\
    indices_of 1 r = Some [1; 2] /\ indices_of 2 r = Some [2; 2] /\ indices_of 3 r = Some [8; 9].
Proof.
  destruct (hash_join_correct demo_columns (fun n => rev (seq 0 n)) (double_of_Z 8)
    (mkJoinPredicate (mkColumnReference 1 "k") (mkColumnReference 2 "k")) demo_left demo_right []
    (newLazyTable 1 None (Some [3; 1; 2]) None None) (newLazyTable 2 (Some [[6]; [1]]) None None None)
    [[1; 2]; [2; 3]] [[2; 4; 2]; [9]] (lazy_rows [[2; 4; 2]; [9]] (newLazyTable 2 (Some [[6]; [1]]) None None None))) as (r & E & H1 & H2 & H3 & H4).
  - intros n. symmetry. apply Permutation_rev.
  - exists 0. split_and!; [vm_compute; reflexivity | lia | vm_compute; reflexivity].
  - constructor; [reflexivity | reflexivity | intros c' [=] | intros [=] | vm_compute; reflexivity | | | repeat constructor].
    + repeat (apply Forall_cons_2; [unfold is_s; lia |]). constructor.
    + split; [reflexivity |]. split; [vm_compute; reflexivity |]. split; [| exact I].
      repeat (apply Forall_cons_2; [vm_compute; split; [intros [=] | reflexivity] |]). constructor.
  - constructor; [reflexivity | reflexivity | intros c' [=] | intros [=] | vm_compute; reflexivity | | | repeat constructor].
    + repeat (apply Forall_cons_2; [unfold is_s; lia |]). constructor.
    + repeat (apply Forall2_cons_2; [vm_compute; intros [=] |]). constructor.
  - intros t [x Hx]. destruct (decide (t = 2)) as [-> | Hne]; [reflexivity |].
    unfold demo_right in Hx. cbn [get_table table newLazyTable] in Hx. rewrite (proj2 (Z.eqb_neq _ _)) in Hx by congruence. done.
  - reflexivity.
  - vm_compute. reflexivity.
  - exists r. split_and!; [exact E | | |].
    + etransitivity; [exact H1 |]. vm_compute. reflexivity.
    + etransitivity; [exact H2 |]. vm_compute. reflexivity.
    + etransitivity; [apply (H3 3 [7; 8; 9]); [done | reflexivity] |]. vm_compute. reflexivity.
Defined.
