(* ===== verification/Metadata.v ===== *)
(** * Small materialised aggregates (storage/metadata_units/sma, storage/ma_block)

    A block of a metadata-enabled table keeps, per numeric column, the minimum
    and maximum of its values ([Sma]).  A selection asks [SearchMetadata] whether
    a block can hold a matching row before it reads the column.  Arrow's kernels
    and scalars are the class [ArrowScalar]. *)

From Stdlib Require Import ZArith Lia.
From stdpp Require Import base numbers list gmap option strings.
Import stdpp.list_basics.list stdpp.list_relations.list stdpp.list_monad.list.
From S2P Require Import Prelude.

Local Open Scope Z_scope.

(** [arrow::compute::CompareOperator] *)
Inductive CompareOperator := EQUAL | NOT_EQUAL | GREATER | GREATER_EQUAL | LESS | LESS_EQUAL.

#[export] Instance CompareOperator_eq_dec : EqDecision CompareOperator.
Proof. solve_decision. Defined.

(** The function object that [comparator_switcher] picks. *)
Definition comparator (c : CompareOperator) (a b : Z) : bool :=
  match c with
  | EQUAL => a =? b
  | NOT_EQUAL => negb (a =? b)
  | GREATER => b <? a
  | GREATER_EQUAL => b <=? a
  | LESS => a <? b
  | LESS_EQUAL => a <=? b
  end.

(** What an operator means. *)
Definition compares (c : CompareOperator) (x y : Z) : Prop :=
  match c with
  | EQUAL => x = y
  | NOT_EQUAL => x <> y
  | GREATER => x > y
  | GREATER_EQUAL => x >= y
  | LESS => x < y
  | LESS_EQUAL => x <= y
  end.

#[export] Instance compares_dec c x y : Decision (compares c x y).
Proof. destruct c; cbn; apply _. Defined.

Lemma comparator_spec c x y : comparator c x y = bool_decide (compares c x y).
Proof.
  apply eq_true_iff_eq. rewrite bool_decide_eq_true. destruct c; cbn; rewrite ?negb_true_iff, ?Z.eqb_eq, ?Z.eqb_neq, ?Z.ltb_lt, ?Z.leb_le; lia.
Qed.

(** [MinMax] of an array, [None] for a status that is not ok; the scalars are
    [None] when the array has no values.  [Compare] of two scalars.
    [scalar_data] is the truth value of [BooleanScalar::data()] for a scalar with
    the given value. *)
Class ArrowScalar := {
  MinMax : list Z -> option (option Z * option Z);
  Compare : option Z -> Z -> CompareOperator -> option bool;
  scalar_data : bool -> bool;
  MinMax_spec : forall l mn mx, MinMax l = Some (mn, mx) -> l <> [] ->
    exists a b, mn = Some a /\ mx = Some b /\ a ∈ l /\ b ∈ l /\ Forall (fun x => a <= x <= b) l;
  Compare_spec : forall a b c r, Compare (Some a) b c = Some r -> r = bool_decide (compares c a b)
}.

Module Sma.

Record Sma := mkSma { status_ok : bool; min_ : option Z; max_ : option Z }.

Section Sma.
Context {A : ArrowScalar}.

(** [Sma::Sma(array)] *)
Definition newSma (array : list Z) : Sma :=
  match MinMax array with
  | Some (mn, mx) => mkSma true mn mx
  | None => mkSma false None None
  end.

(** A result that is not ok does not exclude the block. *)
Definition data_or_true (r : option bool) : bool := match r with Some b => scalar_data b | None => true end.

Definition Search (s : Sma) (val : Z) (c : CompareOperator) : bool :=
  match c with
  | GREATER | GREATER_EQUAL => data_or_true (Compare (max_ s) val c)
  | LESS | LESS_EQUAL => data_or_true (Compare (min_ s) val c)
  | EQUAL =>
      match Compare (max_ s) val LESS_EQUAL, Compare (min_ s) val LESS_EQUAL with
      | Some r, Some r_opt => scalar_data r && scalar_data r_opt
      | _, _ => true
      end
  | NOT_EQUAL => true
  end.

End Sma.

End Sma.

Import Sma.

Module MetadataAttachedBlock.

(** The type of a column matters only as numeric or not. *)
Record Column := mkColumn { numeric : bool; values : list Z }.

Record MetadataBlock := mkMetadataBlock {
  cols : list Column;
  column_metadata_list_ : list (list Sma);
  column_metadata_valid_ : list bool
}.

(** The constructor of an empty block builds no metadata. *)
Definition newMetadataBlock (columns : list Column) : MetadataBlock :=
  mkMetadataBlock columns (replicate (length columns) []) (replicate (length columns) false).

Section Build.
Context {A : ArrowScalar}.

(** The units of a column, or the exception for a status that is not ok. *)
Definition GenerateMetadataForColumn (c : Column) : exn + list Sma :=
  if numeric c then
    let entry := newSma (values c) in
    if status_ok entry then inr [entry] else inl RuntimeError
  else inr [].

Definition BuildMetadata (column_id : nat) : StM MetadataBlock unit :=
  b ← get;
  c ← defined (cols b !! column_id);
  units ← or_throw (GenerateMetadataForColumn c);
  modify (fun b => mkMetadataBlock (cols b) (<[column_id := units]> (column_metadata_list_ b)) (column_metadata_valid_ b)) ≫= fun _ =>
  modify (fun b => mkMetadataBlock (cols b) (column_metadata_list_ b) (<[column_id := true]> (column_metadata_valid_ b))).

Fixpoint build_from (n i : nat) : StM MetadataBlock unit :=
  match n with
  | O => mret tt
  | S n' => BuildMetadata i ≫= fun _ => build_from n' (S i)
  end.

(** [BuildMetadata()]: all columns. *)
Definition BuildAllMetadata : StM MetadataBlock unit := b ← get; build_from (length (cols b)) 0.

(** [for (auto &block_metadata : column_metadata_list_\[column_id\])] *)
Definition SearchMetadata (b : MetadataBlock) (column_id : nat) (val : Z) (c : CompareOperator) : option bool :=
  valid ← column_metadata_valid_ b !! column_id;
  if (valid : bool) then
    units ← column_metadata_list_ b !! column_id;
    Some (forallb (fun u => Search u val c) units)
  else Some true.

End Build.

Definition InvalidateMetadata (column_id : nat) (b : MetadataBlock) : MetadataBlock :=
  mkMetadataBlock (cols b) (column_metadata_list_ b) (<[column_id := false]> (column_metadata_valid_ b)).

(** [std::fill] *)
Definition InvalidateAllMetadata (b : MetadataBlock) : MetadataBlock :=
  mkMetadataBlock (cols b) (column_metadata_list_ b) ((fun _ => false) <$> column_metadata_valid_ b).

Definition WrapInsertion (insertion_return : Z) (b : MetadataBlock) : Z * MetadataBlock :=
  (insertion_return, if insertion_return =? -1 then b else InvalidateAllMetadata b).

End MetadataAttachedBlock.

Import MetadataAttachedBlock.

(** ** What a search tells *)

Module MetadataProof.

Section Proof.
Context {A : ArrowScalar}.

(** The unit describes the values. *)
Definition describes (u : Sma) (vals : list Z) : Prop :=
  vals <> [] -> exists a b, min_ u = Some a /\ max_ u = Some b /\ a ∈ vals /\ b ∈ vals /\ Forall (fun x => a <= x <= b) vals.

Lemma newSma_describes vals : status_ok (newSma vals) = true -> describes (newSma vals) vals.
Proof.
  unfold newSma, describes. destruct (MinMax vals) as [[mn mx]|] eqn:E; [| done]. intros _ Hne.
  destruct (MinMax_spec _ _ _ E Hne) as (a & b & -> & -> & Ha & Hb & HF). by exists a, b.
Qed.

(** The units of a column with metadata. *)
Definition units_ok (c : Column) (units : list Sma) : Prop :=
  if numeric c then exists u, units = [u] /\ describes u (values c) else units = [].

(** Valid metadata are those of the current values: the invariant of a block. *)
Definition metadata_ok (b : MetadataBlock) : Prop :=
  length (column_metadata_list_ b) = length (cols b) /\ length (column_metadata_valid_ b) = length (cols b) /\
  forall i c units, cols b !! i = Some c -> column_metadata_valid_ b !! i = Some true ->
    column_metadata_list_ b !! i = Some units -> units_ok c units.

Lemma new_metadata_ok columns : metadata_ok (newMetadataBlock columns).
Proof.
  unfold metadata_ok. cbn. rewrite !length_replicate. split_and!; [done | done |]. intros i c u _ H.
  apply lookup_replicate in H as [[=] _].
Qed.

Lemma GenerateMetadata_ok c units : GenerateMetadataForColumn c = inr units -> units_ok c units.
Proof.
  unfold GenerateMetadataForColumn, units_ok. destruct (numeric c); [| by intros [= <-]].
  destruct (status_ok _) eqn:E; intros [= <-]. eexists. split; [done |]. by apply newSma_describes.
Qed.

(** Building keeps the invariant, also when it throws half way. *)
Lemma BuildMetadata_ok i b b' r : metadata_ok b -> BuildMetadata i b = Some (b', r) ->
  metadata_ok b' /\ cols b' = cols b.
Proof.
  intros (H1 & H2 & H3). unfold BuildMetadata. rewrite bind_get. cbn beta.
  destruct (cols b !! i) as [c|] eqn:Ec; [| done]. erewrite bind_defined by done. unfold or_throw.
  unfold mbind at 1, StM_bind at 1. destruct (GenerateMetadataForColumn c) as [e | units] eqn:Eg.
  { intros [= <- <-]. done. }
  rewrite bind_modify. intros [= <- <-]. split; [| done]. unfold metadata_ok. cbn. rewrite !length_insert.
  split_and!; [done | done |]. intros j c' us Ej Hv Hu. destruct (decide (i = j)) as [<- | Hne].
  - apply list_lookup_insert_Some in Hu as [(_ & <- & _) | (? & _)]; [| done]. simplify_eq. by apply GenerateMetadata_ok.
  - rewrite list_lookup_insert_ne in Hv by done. rewrite list_lookup_insert_ne in Hu by done. eauto.
Qed.

Lemma build_from_ok n : forall i b b' r, metadata_ok b -> build_from n i b = Some (b', r) -> metadata_ok b' /\ cols b' = cols b.
Proof.
  induction n as [|n IH]; intros i b b' r Hb; cbn [build_from].
  { intros [= <- <-]. done. }
  unfold mbind, StM_bind. destruct (BuildMetadata i b) as [[b1 [e | []]]|] eqn:E; [| | done].
  - intros [= <- <-]. by eapply BuildMetadata_ok.
  - intros H. destruct (BuildMetadata_ok _ _ _ _ Hb E) as [Hb1 Ec]. rewrite <- Ec. by eapply IH.
Qed.

(** The values of the columns, changed by the operations of [Block]. *)
Definition with_cols (columns : list Column) (b : MetadataBlock) : MetadataBlock :=
  mkMetadataBlock columns (column_metadata_list_ b) (column_metadata_valid_ b).

(** What happens to a block: metadata are built, of a column or of all, also
    when that throws; rows are inserted, which changes the values of all columns
    unless the result is -1; a value of one column is updated. *)
Inductive block_step : MetadataBlock -> MetadataBlock -> Prop :=
| bs_build i b b' r : BuildMetadata i b = Some (b', r) -> block_step b b'
| bs_build_all b b' r : BuildAllMetadata b = Some (b', r) -> block_step b b'
| bs_insert b columns insertion_return : length columns = length (cols b) -> (insertion_return = -1 -> columns = cols b) ->
    block_step b (snd (WrapInsertion insertion_return (with_cols columns b)))
| bs_update b col_num c c' : cols b !! col_num = Some c -> numeric c' = numeric c ->
    block_step b (InvalidateMetadata col_num (with_cols (<[col_num := c']> (cols b)) b)).

Lemma invalidate_ok b columns : metadata_ok b -> length columns = length (cols b) -> metadata_ok (InvalidateAllMetadata (with_cols columns b)).
Proof.
  intros (H1 & H2 & _) E. unfold metadata_ok. cbn. rewrite length_fmap. split_and!; [lia | lia |].
  intros i c u _ H. rewrite list_lookup_fmap in H. by destruct (column_metadata_valid_ b !! i).
Qed.

Lemma column_update_ok b i c' : metadata_ok b -> metadata_ok (InvalidateMetadata i (with_cols (<[i := c']> (cols b)) b)).
Proof.
  intros (H1 & H2 & H3). unfold metadata_ok. cbn. rewrite !length_insert. split_and!; [done | done |]. intros j c us Ej Hv Hu.
  destruct (decide (i = j)) as [<- | Hne].
  - by apply list_lookup_insert_Some in Hv as [(_ & [=] & _) | (? & _)].
  - rewrite list_lookup_insert_ne in Ej by done. rewrite list_lookup_insert_ne in Hv by done. eauto.
Qed.

Lemma block_step_ok b b' : block_step b b' -> metadata_ok b -> metadata_ok b'.
Proof.
  intros [i b0 b1 r E | b0 b1 r E | b0 columns ret El Er | b0 i c c' _ _] Hb.
  - by eapply BuildMetadata_ok.
  - unfold BuildAllMetadata in E. rewrite bind_get in E. by eapply build_from_ok.
  - unfold WrapInsertion. destruct (Z.eqb_spec ret (-1)) as [-> | _]; [| by apply invalidate_ok].
    rewrite Er by done. by destruct b0.
  - by apply column_update_ok.
Qed.

Lemma block_steps_ok b b' : rtc block_step b b' -> metadata_ok b -> metadata_ok b'.
Proof. induction 1; eauto using block_step_ok. Qed.

(** The scalar that is tested tells whether some value satisfies the comparison. *)
Lemma Search_exact u vals val c : describes u vals -> vals <> [] -> c ∈ [GREATER; GREATER_EQUAL; LESS; LESS_EQUAL] ->
  (forall a, is_Some (Compare (Some a) val c)) -> Search u val c =
  scalar_data (bool_decide (Exists (fun x => compares c x val) vals)).
Proof.
  intros Hu Hne Hc HS. destruct (Hu Hne) as (a & z & Ea & Ez & Ha & Hz & HF). rewrite Forall_forall in HF.
  assert (forall m, (c = LESS \/ c = LESS_EQUAL -> m = a) -> (c = GREATER \/ c = GREATER_EQUAL -> m = z) ->
    data_or_true (Compare (Some m) val c) = scalar_data (bool_decide (Exists (fun x => compares c x val) vals))) as Hm.
  { intros m H1 H2. destruct (HS m) as [r E]. rewrite E. cbn [data_or_true]. apply Compare_spec in E as ->. f_equal. apply bool_decide_ext. split.
    - intros H. apply Exists_exists. exists m. split; [| done].
      repeat (apply elem_of_cons in Hc as [-> | Hc]; [first [by rewrite H1 by tauto | by rewrite H2 by tauto] |]). by apply not_elem_of_nil in Hc.
    - intros (x & Hx & Hcx)%Exists_exists. specialize (HF x Hx).
      repeat (apply elem_of_cons in Hc as [-> | Hc]; [first [rewrite H1 by tauto; cbn in *; lia | rewrite H2 by tauto; cbn in *; lia] |]).
      by apply not_elem_of_nil in Hc. }
  unfold Search. rewrite Ea, Ez.
  repeat (apply elem_of_cons in Hc as [-> | Hc]; [apply Hm; intros [[=] | [=]]; done |]). by apply not_elem_of_nil in Hc.
Qed.

(** [data()] is a pointer into the scalar: every search succeeds. *)
Lemma Search_pointer u val c : (forall r, scalar_data r = true) -> Search u val c = true.
Proof. intros Hd. unfold Search, data_or_true. destruct c; repeat case_match; rewrite ?Hd; done. Qed.

Lemma SearchMetadata_pointer b i val c : (forall r, scalar_data r = true) -> metadata_ok b -> (i < length (cols b))%nat ->
  SearchMetadata b i val c = Some true.
Proof.
  intros Hd (H1 & H2 & _) Hi. unfold SearchMetadata.
  destruct (lookup_lt_is_Some_2 (column_metadata_valid_ b) i) as [v ->]; [lia |].
  destruct (lookup_lt_is_Some_2 (column_metadata_list_ b) i) as [us ->]; [lia |]. cbn. destruct v; [| done]. f_equal.
  apply forallb_forall. intros u _. by apply Search_pointer.
Qed.

End Proof.

End MetadataProof.

Import MetadataProof.


(** ** Kernels on lists *)

Module ListScalar.

Lemma fold_min_le l : forall x, fold_left Z.min l x <= x /\ Forall (fun y => fold_left Z.min l x <= y) l.
Proof.
  induction l as [|y l IH]; intros x; cbn; [split; [lia | done] |]. destruct (IH (Z.min x y)) as [H HF].
  split; [lia |]. constructor; [lia | done].
Qed.

Lemma fold_max_ge l : forall x, x <= fold_left Z.max l x /\ Forall (fun y => y <= fold_left Z.max l x) l.
Proof.
  induction l as [|y l IH]; intros x; cbn; [split; [lia | done] |]. destruct (IH (Z.max x y)) as [H HF].
  split; [lia |]. constructor; [lia | done].
Qed.

Lemma fold_min_in l : forall x, fold_left Z.min l x ∈ x :: l.
Proof.
  induction l as [|y l IH]; intros x; cbn; [set_solver |]. specialize (IH (Z.min x y)). apply elem_of_cons in IH as [E | E]; [| set_solver].
  rewrite E. destruct (Z.min_spec x y) as [[_ ->] | [_ ->]]; set_solver.
Qed.

Lemma fold_max_in l : forall x, fold_left Z.max l x ∈ x :: l.
Proof.
  induction l as [|y l IH]; intros x; cbn; [set_solver |]. specialize (IH (Z.max x y)). apply elem_of_cons in IH as [E | E]; [| set_solver].
  rewrite E. destruct (Z.max_spec x y) as [[_ ->] | [_ ->]]; set_solver.
Qed.

Lemma min_max_bounds x l : Forall (fun y => fold_left Z.min l x <= y <= fold_left Z.max l x) (x :: l).
Proof.
  destruct (fold_min_le l x) as [H1 H2], (fold_max_ge l x) as [H3 H4]. constructor; [lia |].
  apply Forall_forall. intros y Hy. split; [by eapply Forall_forall in H2 | by eapply Forall_forall in H4].
Qed.

(** The kernels, with a given behaviour of [data()]. *)
#[refine] Definition list_scalar (data : bool -> bool) : ArrowScalar := {|
  MinMax l := Some (match l with [] => (None, None) | x :: l' => (Some (fold_left Z.min l' x), Some (fold_left Z.max l' x)) end);
  Compare a b c := match a with Some a => Some (bool_decide (compares c a b)) | None => Some false end;
  scalar_data := data |}.
Proof.
  - intros l mn mx E Hne. destruct l as [|x l]; [done |]. injection E as <- <-. eexists _, _. split_and!; [done | done | apply fold_min_in | apply fold_max_in |].
    apply min_max_bounds.
  - by intros a b c r [= <-].
Defined.

End ListScalar.

Import ListScalar.

(** The scalar's own address. *)
Definition pointer_scalar : ArrowScalar := list_scalar (fun _ => true).
(** The scalar's value. *)
Definition value_scalar : ArrowScalar := list_scalar (fun b => b).

(** A block with the values 10, 20 and 30, whose metadata are built, whose value
    20 becomes 5, and whose metadata are built again. *)
Definition demo_block (l : list Z) (units : list Sma) (valid : bool) : MetadataBlock := mkMetadataBlock [mkColumn true l] [units] [valid].

Lemma demo_block_steps : rtc (block_step (A := pointer_scalar)) (newMetadataBlock [mkColumn true [10; 20; 30]])
  (demo_block [10; 5; 30] [mkSma true (Some 5) (Some 30)] true).
Proof.
  apply (rtc_l _ _ (demo_block [10; 20; 30] [mkSma true (Some 10) (Some 30)] true)); [by eapply bs_build_all |].
  apply (rtc_l _ _ (demo_block [10; 5; 30] [mkSma true (Some 10) (Some 30)] false)).
  - exact (bs_update (demo_block [10; 20; 30] [mkSma true (Some 10) (Some 30)] true) 0 (mkColumn true [10; 20; 30]) (mkColumn true [10; 5; 30]) eq_refl eq_refl).
  - apply rtc_once. by eapply (bs_build (A := pointer_scalar) 0).
Qed.


(** The test for equality compares the maximum the wrong way round.  If the
    searches told anything, a block with the values 10, 20 and 30 would be
    excluded from a search for 20, and kept in one for 40. *)
Theorem sma_equality_reversed :
  exists b, @BuildAllMetadata value_scalar (newMetadataBlock [mkColumn true [10; 20; 30]]) = Some (b, inr tt) /\
    @SearchMetadata value_scalar b 0 20 EQUAL = Some false /\ @SearchMetadata value_scalar b 0 40 EQUAL = Some true.
Proof. eexists. split_and!; reflexivity. Qed.
