(* ===== verification/Select.v ===== *)
(** * Selection (operators/select, operators/fused/select_build_hash, DBTable::ForEachBatch)

    A selection evaluates a tree of predicates on every block of a table and
    gives the table's lazy table one bitmap per block.  [SelectBuildHash] also
    enters the selected rows into the hash table of a later join.  The blocks are
    processed by tasks of a batch of blocks each; the order in which the tasks
    reach their blocks is an argument.  [None] is undefined behaviour: an access
    outside an array, a division by zero, a column or scalar read at a type that
    is not its own. *)

From Stdlib Require Import ZArith Lia SpecFloat.
From stdpp Require Import base numbers list gmap option strings.
Import stdpp.list_basics.list stdpp.list_relations.list stdpp.list_monad.list.
From S2P Require Import Prelude BitUtils Bloom Columns HashJoin Metadata.
Import Bits Columns Lazy Join ColumnsProof JoinSpec MetadataAttachedBlock MetadataProof.

Local Open Scope Z_scope.

(** The order of strings: Arrow compares them as byte sequences. *)
Definition string_comparator (c : CompareOperator) (a b : string) : bool :=
  match c, String.compare a b with
  | EQUAL, Eq => true
  | NOT_EQUAL, (Lt | Gt) => true
  | GREATER, Gt => true
  | GREATER_EQUAL, (Gt | Eq) => true
  | LESS, Lt => true
  | LESS_EQUAL, (Lt | Eq) => true
  | _, _ => false
  end.

(** [arrow::compute::Compare] of an array of strings and a scalar: a bitmap. *)
Class ArrowStrings := {
  CompareStrings : list string -> string -> CompareOperator -> list Z;
  CompareStrings_spec : forall l s c,
    Z.of_nat (length l) <= 8 * Z.of_nat (length (CompareStrings l s c)) /\
    forall i x, l !! i = Some x ->
      bit_of (Some (CompareStrings l s c)) (Z.of_nat i) = string_comparator c x s
}.

Module Selection.

(** A numeric type is its signedness and width. *)
Inductive DataType := NumberType (signed : bool) (width : Z) | StringType.

#[export] Instance DataType_eq_dec : EqDecision DataType.
Proof. solve_decision. Defined.

Definition UINT8 : DataType := NumberType false 8.
Definition INT64 : DataType := NumberType true 64.

Inductive ColumnData := Numbers (t : DataType) (vals : list Z) | Strings (vals : list string).
Inductive Scalar := NumberScalar (t : DataType) (v : Z) | StringScalar (s : string).

Inductive FilterOperator := AND | OR | NONE.

Record Predicate := mkPredicate {
  pred_col : string;
  comparator_ : CompareOperator;
  value_ : Scalar;
  value2_ : option Scalar
}.

Inductive Node :=
| PredicateNode (predicate_ : Predicate)
| ConnectiveNode (left_child_ right_child_ : Node) (connective_ : FilterOperator).

(** What a selection reads of a block. *)
Record BlockView := mkBlockView {
  id : nat;
  num_rows : Z;
  get_column_by_name : string -> option ColumnData;
  field_index : string -> option nat;
  metadata : option MetadataBlock
}.

(** [arrow::BooleanArray] *)
Record BooleanArray := mkBooleanArray { ba_length : Z; ba_bits : list Z }.

(** [filters_]: null pointers at first. *)
Abbreviation Filters := (list (option BooleanArray)).

(** [data()->GetValues<T>(1)] *)
Definition get_values (t : DataType) (c : ColumnData) : option (list Z) :=
  match c with
  | Numbers t' vals => if decide (t = t') then Some vals else None
  | Strings _ => None
  end.

(** [for (uint32_t i = 0; i < num_rows; ++i) bytemap\[i\] = f(col_data\[i\])] *)
Definition fill_bytemap (num_rows : Z) (col_data : list Z) (f : Z -> bool) : option (list Z) :=
  mapM (fun i => v ← col_data !! i; Some (Z.b2z (f v))) (seq 0 (Z.to_nat num_rows)).

Definition packed (num_rows : Z) (bytemap : list Z) : option BooleanArray :=
  bits ← pack num_rows bytemap;
  Some (mkBooleanArray num_rows bits).

Section Filter.
Context {A : ArrowScalar} {SS : ArrowStrings}.

Definition SearchBlock (m : MetadataBlock) (b : BlockView) (col : string) (val : Z) (c : CompareOperator) : option bool :=
  i ← field_index b col;
  SearchMetadata m i val c.

(** [Filter<T, Op>]: a comparison of a numeric column with a value. *)
Definition FilterTyped (b : BlockView) (col : string) (t : DataType) (value : Z) (c : CompareOperator) : option BooleanArray :=
  let compare_all :=
    column ← get_column_by_name b col;
    col_data ← get_values t column;
    fill_bytemap (num_rows b) col_data (fun v => comparator c v value) in
  bytemap ← match metadata b with
            | Some m =>
                found ← SearchBlock m b col value c;
                if (found : bool) then compare_all else Some (replicate (Z.to_nat (num_rows b)) 0)
            | None => compare_all
            end;
  packed (num_rows b) bytemap.

(** [static_pointer_cast<arrow::UInt8Scalar>(scalar)->value] *)
Definition uint8_scalar (s : Scalar) : option Z :=
  match s with
  | NumberScalar t v => if decide (t = UINT8) then Some v else None
  | StringScalar _ => None
  end.

(** The branch for [NOT_EQUAL], which implements BETWEEN. *)
Definition FilterBetween (b : BlockView) (p : Predicate) (t : DataType) : option BooleanArray :=
  column ← get_column_by_name b (pred_col p);
  col_data ← get_values t column;
  lo ← uint8_scalar (value_ p);
  v2 ← value2_ p;
  hi ← uint8_scalar v2;
  let diff := hi - lo in
  bytemap ← fill_bytemap (num_rows b) col_data (fun v => to_u8 (v - lo) <=? to_u8 diff);
  packed (num_rows b) bytemap.

Definition numeric_filter (b : BlockView) (p : Predicate) (t : DataType) (val : Z) : option BooleanArray :=
  if decide (comparator_ p = NOT_EQUAL) then FilterBetween b p t
  else FilterTyped b (pred_col p) t val (comparator_ p).

(** Strings are compared by Arrow's kernel; the result is also stored under the
    id of the block, where [ExecuteBlock] stores the filter of the whole tree. *)
Definition default_filter (b : BlockView) (p : Predicate) (s : string) (filters : Filters) : option (Filters * BooleanArray) :=
  column ← get_column_by_name b (pred_col p);
  match column with
  | Strings vals =>
      let block_filter := mkBooleanArray (Z.of_nat (length vals)) (CompareStrings vals s (comparator_ p)) in
      filters ← set_at (id b) (Some block_filter) filters;
      Some (filters, block_filter)
  | Numbers _ _ => None
  end.

(** [Select::Filter(block, predicate)] *)
Definition FilterPredicate (b : BlockView) (p : Predicate) (filters : Filters) : option (Filters * BooleanArray) :=
  match value_ p with
  | NumberScalar t val => r ← numeric_filter b p t val; Some (filters, r)
  | StringScalar s => default_filter b p s filters
  end.

(** [for (int i = 0; i < num_bytes; ++i) left_data\[i\] = left_data\[i\] op right_data\[i\]] *)
Fixpoint combine_bytes (n i : nat) (op : Z -> Z -> Z) (left_data right_data : list Z) : option (list Z) :=
  match n with
  | O => Some left_data
  | S n' =>
      x ← left_data !! i;
      y ← right_data !! i;
      combine_bytes n' (S i) op (<[i := op x y]> left_data) right_data
  end.

Definition num_bytes (len : Z) : Z := 1 + Z.quot (len - 1) 8.

Definition connect (c : FilterOperator) (l r : BooleanArray) : option BooleanArray :=
  let n := Z.to_nat (num_bytes (ba_length l)) in
  bits ← match c with
         | AND => combine_bytes n 0 Z.land (ba_bits l) (ba_bits r)
         | OR => combine_bytes n 0 Z.lor (ba_bits l) (ba_bits r)
         | NONE => Some (ba_bits l)
         end;
  Some (mkBooleanArray (ba_length l) bits).

(** [Select::Filter(block, node)] *)
Fixpoint Filter (b : BlockView) (node : Node) (filters : Filters) : option (Filters * BooleanArray) :=
  match node with
  | PredicateNode p => FilterPredicate b p filters
  | ConnectiveNode left_child right_child connective =>
      '(filters, l) ← Filter b left_child filters;
      '(filters, r) ← Filter b right_child filters;
      block_filter ← connect connective l r;
      Some (filters, block_filter)
  end.

Definition ExecuteBlock (blocks : list BlockView) (root : Node) (block_index : nat) (filters : Filters) : option Filters :=
  b ← blocks !! block_index;
  '(filters, block_filter) ← Filter b root filters;
  set_at block_index (Some block_filter) filters.

(** [DBTable::ForEachBatch]: the size and the number of the batches. *)
Definition batch_config (num_blocks hardware_concurrency : Z) : option (Z * Z) :=
  if hardware_concurrency =? 0 then None else
  let batch_size := num_blocks / hardware_concurrency in
  let batch_size := if batch_size =? 0 then num_blocks else batch_size in
  if batch_size =? 0 then None
  else Some (batch_size, 1 + (num_blocks - 1) / batch_size).

(** The blocks of batch [batch_index]. *)
Definition batch_blocks (num_blocks batch_size batch_index : Z) : list nat :=
  let base_index := batch_index * batch_size in
  let batch_limit := Z.min (base_index + batch_size) num_blocks in
  seq (Z.to_nat base_index) (Z.to_nat (batch_limit - base_index)).

Definition ForEachBatch (num_blocks hardware_concurrency : Z) : option (list (list nat)) :=
  '(batch_size, num_batches) ← batch_config num_blocks hardware_concurrency;
  Some ((fun k => batch_blocks num_blocks batch_size (Z.of_nat k)) <$> seq 0 (Z.to_nat num_batches)).

Fixpoint run_blocks (blocks : list BlockView) (root : Node) (order : list nat) (filters : Filters) : option Filters :=
  match order with
  | [] => Some filters
  | i :: order' => filters ← ExecuteBlock blocks root i filters; run_blocks blocks root order' filters
  end.

(** [Select::Execute]; [schedule] interleaves the blocks of the batches. *)
Definition Execute (schedule : list (list nat) -> list nat) (hardware_concurrency : Z) (table : Z) (blocks : list BlockView)
    (root : Node) (out : OperatorResult) : option OperatorResult :=
  batches ← ForEachBatch (Z.of_nat (length blocks)) hardware_concurrency;
  filters ← run_blocks blocks root (schedule batches) (replicate (length blocks) None);
  chunked_filter ← mapM (fun f => f) filters;
  Some (append_lazy (newLazyTable table (Some (ba_bits <$> chunked_filter)) None None None) out).

End Filter.

End Selection.

Import Selection.

(** ** What a selection computes *)

Module SelectSpec.

(** Row [row] of the block satisfies the predicate. *)
Definition satisfies (p : Predicate) (b : BlockView) (row : Z) : bool :=
  match get_column_by_name b (pred_col p), value_ p with
  | Some (Numbers _ vals), NumberScalar _ v =>
      let x := nth (Z.to_nat row) vals 0 in
      match comparator_ p, value2_ p with
      | NOT_EQUAL, Some (NumberScalar _ hi) => (v <=? x) && (x <=? hi)
      | c, _ => bool_decide (compares c x v)
      end
  | Some (Strings vals), StringScalar s => string_comparator (comparator_ p) (nth (Z.to_nat row) vals EmptyString) s
  | _, _ => false
  end.

Fixpoint eval (n : Node) (b : BlockView) (row : Z) : bool :=
  match n with
  | PredicateNode p => satisfies p b row
  | ConnectiveNode l r AND => eval l b row && eval r b row
  | ConnectiveNode l r OR => eval l b row || eval r b row
  | ConnectiveNode l r NONE => eval l b row
  end.

(** The column is of the type of the value; [NOT_EQUAL] has two bounds and is
    for columns of [uint8_t]. *)
Definition predicate_ok (b : BlockView) (p : Predicate) : Prop :=
  match get_column_by_name b (pred_col p), value_ p with
  | Some (Numbers t vals), NumberScalar t' v =>
      t = t' /\ num_rows b <= Z.of_nat (length vals) /\ (exists i, field_index b (pred_col p) = Some i /\
        match metadata b with Some m => metadata_ok m /\ (i < length (cols m))%nat | None => True end) /\
      (comparator_ p = NOT_EQUAL -> t = UINT8 /\ Forall is_byte vals /\ is_byte v /\
        exists hi, value2_ p = Some (NumberScalar UINT8 hi) /\ is_byte hi /\ v <= hi)
  | Some (Strings vals), StringScalar s => Z.of_nat (length vals) = num_rows b
  | _, _ => False
  end.

Fixpoint node_ok (b : BlockView) (n : Node) : Prop :=
  match n with
  | PredicateNode p => predicate_ok b p
  | ConnectiveNode l r _ => node_ok b l /\ node_ok b r
  end.

Definition block_ok (root : Node) (i : nat) (b : BlockView) : Prop := id b = i /\ 0 < num_rows b /\ node_ok b root.

(** A filter of [n] rows with the bits [f]. *)
Definition is_filter (n : Z) (f : Z -> bool) (ba : BooleanArray) : Prop :=
  ba_length ba = n /\ n <= 8 * Z.of_nat (length (ba_bits ba)) /\
  forall row, 0 <= row < n -> bit_of (Some (ba_bits ba)) row = f row.

Lemma is_filter_ext n f g ba : (forall row, 0 <= row < n -> f row = g row) -> is_filter n f ba -> is_filter n g ba.
Proof. intros E (H1 & H2 & H3). split_and!; [done | done |]. intros row Hr. by rewrite H3, E. Qed.

Lemma fill_bytemap_ok n col f : n <= Z.of_nat (length col) ->
  fill_bytemap n col f = Some ((fun v => Z.b2z (f v)) <$> take (Z.to_nat n) col).
Proof.
  intros H. unfold fill_bytemap. apply mapM_Some. apply Forall2_same_length_lookup_2.
  { rewrite length_seq, length_fmap, length_take. lia. }
  intros i k v Hk Hv. apply lookup_seq in Hk as [-> Hi]. rewrite list_lookup_fmap, lookup_take_lt in Hv by lia. cbn [Nat.add].
  destruct (col !! i); [| done]. cbn in *. congruence.
Qed.

Lemma packed_ok n (bytemap : list Z) : 0 <= n <= Z.of_nat (length bytemap) ->
  exists ba, packed n bytemap = Some ba /\ is_filter n (fun row => truthy (nth (Z.to_nat row) bytemap 0)) ba.
Proof.
  intros H. destruct (pack_ok n bytemap H) as (bits & E & Hl & _ & Hb). unfold packed. rewrite E. cbn.
  exists (mkBooleanArray n bits). split; [done |]. unfold is_filter. cbn. split; [done |].
  assert (n <= 8 * Z.of_nat (length bits)) as Hn by (rewrite Hl; pose proof (Z.div_mod (n + 7) 8 ltac:(lia)); pose proof (Z.mod_pos_bound (n + 7) 8 ltac:(lia)); lia).
  split; [done |]. intros row Hr. destruct (Hb (Z.to_nat row)) as (x & Ex & Et); [lia |].
  replace (Z.to_nat (row / 8)) with (Z.to_nat row / 8)%nat by (rewrite Z2Nat.inj_div by lia; done).
  rewrite (nth_lookup_Some _ _ _ _ Ex). replace (row mod 8) with (Z.of_nat (Z.to_nat row mod 8)).
  2: { rewrite Nat2Z.inj_mod, Z2Nat.id by lia. done. }
  rewrite Et, (proj2 (Z.ltb_lt _ _)) by lia. done.
Qed.

(** A comparison of every value of a column. *)
Lemma compare_column_ok n col f : 0 <= n <= Z.of_nat (length col) ->
  exists ba, (bm ← fill_bytemap n col f; packed n bm) = Some ba /\ is_filter n (fun row => f (nth (Z.to_nat row) col 0)) ba.
Proof.
  intros H. rewrite fill_bytemap_ok by lia. cbn [mbind option_bind].
  destruct (packed_ok n ((fun v => Z.b2z (f v)) <$> take (Z.to_nat n) col)) as (ba & E & Hf).
  { rewrite length_fmap, length_take. lia. }
  exists ba. split; [done |]. eapply is_filter_ext; [| exact Hf]. cbv beta. intros row Hr.
  destruct (lookup_lt_is_Some_2 col (Z.to_nat row)) as [v Ev]; [lia |]. rewrite (nth_lookup_Some col _ _ _ Ev).
  rewrite (nth_lookup_Some _ (Z.to_nat row) 0 (Z.b2z (f v))); [by destruct (f v) |].
  rewrite list_lookup_fmap, lookup_take_lt by lia. by rewrite Ev.
Qed.

Lemma combine_bytes_ok op n : forall i l r, (i + n <= length l)%nat -> (i + n <= length r)%nat ->
  exists out, combine_bytes n i op l r = Some out /\ length out = length l /\
    forall j, nth j out 0 = if decide (i <= j < i + n)%nat then op (nth j l 0) (nth j r 0) else nth j l 0.
Proof.
  induction n as [|n IH]; intros i l r Hl Hr; cbn [combine_bytes].
  { exists l. split_and!; [done | done |]. intros j. by rewrite decide_False by lia. }
  destruct (lookup_lt_is_Some_2 l i) as [x Ex]; [lia |]. destruct (lookup_lt_is_Some_2 r i) as [y Ey]; [lia |].
  rewrite Ex. cbn [mbind option_bind]. rewrite Ey. cbn [mbind option_bind].
  destruct (IH (S i) (<[i := op x y]> l) r) as (out & E & Hlen & Hnth); [rewrite length_insert; lia | lia |].
  rewrite length_insert in Hlen. exists out. split_and!; [done | done |]. intros j. rewrite Hnth.
  destruct (decide (j = i)) as [-> | Hne].
  - rewrite decide_False, decide_True by lia. rewrite (nth_lookup_Some _ _ _ _ Ex), (nth_lookup_Some _ _ _ _ Ey).
    apply nth_lookup_Some. by rewrite list_lookup_insert_eq by lia.
  - assert (nth j (<[i := op x y]> l) 0 = nth j l 0) as -> by (rewrite !nth_lookup; by rewrite list_lookup_insert_ne by lia).
    destruct (decide (S i <= j < S i + n)%nat); [rewrite decide_True by lia | rewrite decide_False by lia]; done.
Qed.

(** The connectives act bit by bit. *)
Lemma combine_filter_ok op (bop : bool -> bool -> bool) n f g l r :
  (forall x y k, 0 <= k -> Z.testbit (op x y) k = bop (Z.testbit x k) (Z.testbit y k)) -> 0 < n ->
  is_filter n f l -> is_filter n g r ->
  exists bits, combine_bytes (Z.to_nat (num_bytes (ba_length l))) 0 op (ba_bits l) (ba_bits r) = Some bits /\
    is_filter n (fun row => bop (f row) (g row)) (mkBooleanArray (ba_length l) bits).
Proof.
  intros Hop Hn (L1 & L2 & L3) (R1 & R2 & R3). rewrite L1. unfold num_bytes. rewrite Z.quot_div_nonneg by lia.
  pose proof (Z.div_mod (n - 1) 8 ltac:(lia)) as Hd. pose proof (Z.mod_pos_bound (n - 1) 8 ltac:(lia)) as Hm.
  assert (0 <= (n - 1) / 8) as Hdp by (apply Z.div_pos; lia).
  destruct (combine_bytes_ok op (Z.to_nat (1 + (n - 1) / 8)) 0 (ba_bits l) (ba_bits r)) as (out & E & Hlen & Hnth); [lia | lia |].
  exists out. split; [done |]. unfold is_filter. cbn [ba_length ba_bits]. rewrite Hlen. split_and!; [done | done |].
  intros row Hr. rewrite <- L3, <- R3 by done. unfold bit_of. rewrite Hnth.
  pose proof (Z.div_mod row 8 ltac:(lia)). pose proof (Z.mod_pos_bound row 8 ltac:(lia)).
  assert (0 <= row / 8) by (apply Z.div_pos; lia).
  rewrite decide_True by lia. apply Hop. lia.
Qed.

Lemma connect_ok c n f g l r : 0 < n -> is_filter n f l -> is_filter n g r ->
  exists ba, connect c l r = Some ba /\
    is_filter n (fun row => match c with AND => f row && g row | OR => f row || g row | NONE => f row end) ba.
Proof.
  intros Hn HL HR. unfold connect. destruct c.
  - destruct (combine_filter_ok Z.land andb n f g l r) as (bits & -> & HB); [intros; apply Z.land_spec | done.. |]. eexists. split; [reflexivity | done].
  - destruct (combine_filter_ok Z.lor orb n f g l r) as (bits & -> & HB); [intros; apply Z.lor_spec | done.. |]. eexists. split; [reflexivity | done].
  - eexists. split; [reflexivity |]. by destruct l.
Qed.

(** Subtraction and comparison in eight bits test an interval. *)
Lemma between_ok lo hi x : is_byte lo -> is_byte hi -> is_byte x -> lo <= hi ->
  (to_u8 (x - lo) <=? to_u8 (hi - lo)) = (lo <=? x) && (x <=? hi).
Proof.
  intros Hlo Hhi Hx Hle. unfold is_u in *. rewrite (wrapu_id 8 (hi - lo)) by (unfold is_u; lia).
  destruct (Z.leb_spec lo x) as [H1 | H1]; cbn [andb].
  - rewrite wrapu_id by (unfold is_u; lia). destruct (Z.leb_spec x hi), (Z.leb_spec (x - lo) (hi - lo)); lia.
  - apply Z.leb_gt. unfold wrapu. assert ((x - lo) mod 2 ^ 8 = x - lo + 2 ^ 8) as ->; [| lia].
    symmetry. apply (Z.mod_unique_pos _ _ (-1)); lia.
Qed.

Section Filter.
Context {A : ArrowScalar} {SS : ArrowStrings} (data_pointer : forall x, scalar_data x = true).

Lemma FilterTyped_ok b p t vals v : get_column_by_name b (pred_col p) = Some (Numbers t vals) -> value_ p = NumberScalar t v ->
  0 < num_rows b -> predicate_ok b p -> comparator_ p <> NOT_EQUAL ->
  exists ba, FilterTyped b (pred_col p) t v (comparator_ p) = Some ba /\ is_filter (num_rows b) (satisfies p b) ba.
Proof.
  intros Ec Ev Hn Hok Hne. unfold predicate_ok in Hok. rewrite Ec, Ev in Hok. destruct Hok as (_ & Hl & (i & Ei & Hm) & _).
  destruct (compare_column_ok (num_rows b) vals (fun x => comparator (comparator_ p) x v)) as (ba & E & Hf); [lia |].
  exists ba. split.
  - unfold FilterTyped. rewrite Ec. cbn [mbind option_bind get_values]. rewrite decide_True by done. cbn [mbind option_bind].
    destruct (metadata b) as [m|]; [| exact E]. destruct Hm as [Hm Hi]. unfold SearchBlock. rewrite Ei. cbn [mbind option_bind].
    rewrite SearchMetadata_pointer by done. exact E.
  - eapply is_filter_ext; [| exact Hf]. cbv beta. intros row _. unfold satisfies. rewrite Ec, Ev, comparator_spec. by destruct (comparator_ p).
Qed.

Lemma FilterBetween_ok b p t vals v : get_column_by_name b (pred_col p) = Some (Numbers t vals) -> value_ p = NumberScalar t v ->
  0 < num_rows b -> predicate_ok b p -> comparator_ p = NOT_EQUAL ->
  exists ba, FilterBetween b p t = Some ba /\ is_filter (num_rows b) (satisfies p b) ba.
Proof.
  intros Ec Ev Hn Hok Hne. unfold predicate_ok in Hok. rewrite Ec, Ev in Hok.
  destruct Hok as (_ & Hl & _ & Hb). destruct (Hb Hne) as (-> & HF & Hv & hi & E2 & Hhi & Hle).
  destruct (compare_column_ok (num_rows b) vals (fun x => to_u8 (x - v) <=? to_u8 (hi - v))) as (ba & E & Hf); [lia |].
  exists ba. split.
  - unfold FilterBetween. rewrite Ec. cbn [mbind option_bind get_values]. rewrite decide_True by done. cbn [mbind option_bind].
    rewrite Ev, E2. cbn [mbind option_bind uint8_scalar]. rewrite !decide_True by done. exact E.
  - eapply is_filter_ext; [| exact Hf]. cbv beta. intros row Hr. unfold satisfies. rewrite Ec, Ev, Hne, E2.
    apply between_ok; try done. destruct (lookup_lt_is_Some_2 vals (Z.to_nat row)) as [x Ex]; [lia |].
    rewrite (nth_lookup_Some _ _ _ _ Ex). by eapply Forall_lookup_1 in HF.
Qed.

Lemma FilterPredicate_ok b p filters : 0 < num_rows b -> predicate_ok b p -> (id b < length filters)%nat ->
  exists filters' ba, FilterPredicate b p filters = Some (filters', ba) /\ is_filter (num_rows b) (satisfies p b) ba /\
    length filters' = length filters /\ forall j, j <> id b -> filters' !! j = filters !! j.
Proof.
  intros Hn Hok Hi. pose proof Hok as Hok'. unfold predicate_ok in Hok'. unfold FilterPredicate.
  destruct (get_column_by_name b (pred_col p)) as [[t vals | vals]|] eqn:Ec; [| | done]; destruct (value_ p) as [t' v | s] eqn:Ev; try done.
  - destruct Hok' as [<- _]. unfold numeric_filter. destruct (decide (comparator_ p = NOT_EQUAL)).
    + destruct (FilterBetween_ok b p t vals v) as (ba & -> & Hf); try done. by exists filters, ba.
    + destruct (FilterTyped_ok b p t vals v) as (ba & -> & Hf); try done. by exists filters, ba.
  - unfold default_filter. rewrite Ec. cbn [mbind option_bind]. unfold set_at. rewrite (proj2 (Nat.ltb_lt _ _)) by done.
    destruct (CompareStrings_spec vals s (comparator_ p)) as [Hl Hb]. eexists _, _. split_and!; [reflexivity | | |].
    + unfold is_filter. cbn [ba_length ba_bits]. split_and!; [done | lia |]. intros row Hr. unfold satisfies. rewrite Ec, Ev.
      destruct (lookup_lt_is_Some_2 vals (Z.to_nat row)) as [x Ex]; [lia |]. rewrite (nth_lookup_Some _ _ _ _ Ex).
      rewrite <- (Hb _ _ Ex). f_equal. lia.
    + by rewrite length_insert.
    + intros j Hj. by rewrite list_lookup_insert_ne by done.
Qed.

(** The filter of a tree is the evaluation of the tree. *)
Lemma Filter_ok b node : forall filters, 0 < num_rows b -> node_ok b node -> (id b < length filters)%nat ->
  exists filters' ba, Filter b node filters = Some (filters', ba) /\ is_filter (num_rows b) (eval node b) ba /\
    length filters' = length filters /\ forall j, j <> id b -> filters' !! j = filters !! j.
Proof.
  induction node as [p | l IHl r IHr c]; intros filters Hn Hok Hi; cbn [Filter eval].
  { by apply FilterPredicate_ok. }
  destruct Hok as [Hl Hr]. destruct (IHl filters Hn Hl Hi) as (f1 & bl & -> & HL & E1 & K1). cbn [mbind option_bind].
  destruct (IHr f1 Hn Hr) as (f2 & br & -> & HR & E2 & K2); [lia |]. cbn [mbind option_bind].
  destruct (connect_ok c (num_rows b) (eval l b) (eval r b) bl br Hn HL HR) as (ba & -> & HB). cbn [mbind option_bind].
  exists f2, ba. split_and!; [done | by destruct c | lia |]. intros j Hj. by rewrite K2, K1.
Qed.

Lemma ExecuteBlock_ok blocks root i b filters : blocks !! i = Some b -> block_ok root i b -> length filters = length blocks ->
  exists filters' ba, ExecuteBlock blocks root i filters = Some filters' /\ length filters' = length blocks /\
    filters' !! i = Some (Some ba) /\ is_filter (num_rows b) (eval root b) ba /\ forall j, j <> i -> filters' !! j = filters !! j.
Proof.
  intros Eb (Hid & Hn & Hok) Hl. pose proof (lookup_lt_Some _ _ _ Eb) as Hi. unfold ExecuteBlock. rewrite Eb. cbn [mbind option_bind].
  destruct (Filter_ok b root filters Hn Hok) as (f1 & ba & -> & Hf & E1 & K1); [lia |]. cbn [mbind option_bind].
  unfold set_at. rewrite (proj2 (Nat.ltb_lt _ _)) by lia. eexists _, ba. split_and!; [reflexivity | | | done |].
  - rewrite length_insert. lia.
  - rewrite list_lookup_insert_eq by lia. done.
  - intros j Hj. rewrite list_lookup_insert_ne by done. apply K1. lia.
Qed.

(** The filter of block [i] has been stored. *)
Definition stored (blocks : list BlockView) (root : Node) (filters : Filters) (i : nat) : Prop :=
  exists b ba, blocks !! i = Some b /\ filters !! i = Some (Some ba) /\ is_filter (num_rows b) (eval root b) ba.

Lemma run_blocks_ok blocks root : (forall i b, blocks !! i = Some b -> block_ok root i b) ->
  forall order filters, Forall (fun i => (i < length blocks)%nat) order -> length filters = length blocks ->
  exists filters', run_blocks blocks root order filters = Some filters' /\ length filters' = length blocks /\
    forall i, (i ∈ order \/ stored blocks root filters i) -> stored blocks root filters' i.
Proof.
  intros Hok order. induction order as [|i order IH]; intros filters HF Hl; cbn [run_blocks].
  { exists filters. split_and!; [done | done |]. intros i [H | H]; [by apply not_elem_of_nil in H | done]. }
  apply Forall_cons in HF as [Hi HF]. destruct (lookup_lt_is_Some_2 blocks i Hi) as [b Eb].
  destruct (ExecuteBlock_ok blocks root i b filters Eb (Hok _ _ Eb) Hl) as (f1 & ba & -> & L1 & S1 & Hf & K1). cbn [mbind option_bind].
  destruct (IH f1 HF L1) as (f2 & -> & L2 & HS). exists f2. split_and!; [done | done |].
  assert (stored blocks root f1 i) as Hs1 by (by exists b, ba).
  intros j Hj. apply HS. destruct (decide (j = i)) as [-> | Hne]; [by right |].
  destruct Hj as [Hj | (bj & baj & E1 & E2 & E3)]; [apply elem_of_cons in Hj as [-> | Hj]; [done | by left] |].
  right. exists bj, baj. by rewrite K1.
Qed.

End Filter.

Lemma stored_mapM blocks root : forall filters, length filters = length blocks ->
  (forall i, (i < length blocks)%nat -> stored blocks root filters i) ->
  exists bas, mapM (fun f => f) filters = Some bas /\ Forall2 (fun b ba => is_filter (num_rows b) (eval root b) ba) blocks bas.
Proof.
  induction blocks as [|b blocks IH]; intros [|f filters] Hl HS; try done; [by exists [] |].
  destruct (HS 0%nat) as (b' & ba & [= <-] & [= ->] & Hf); [cbn; lia |].
  destruct (IH filters) as (bas & E & HF); [by injection Hl | |].
  - intros i Hi. destruct (HS (S i)) as (b'' & ba' & E1 & E2 & E3); [cbn; lia |]. by exists b'', ba'.
  - exists (ba :: bas). split; [| by constructor]. cbn. by rewrite E.
Qed.

(** ** Batches *)

Lemma concat_batches n bs k : 0 < bs -> 0 <= n ->
  concat ((fun j => batch_blocks n bs (Z.of_nat j)) <$> seq 0 k) = seq 0 (Z.to_nat (Z.min (Z.of_nat k * bs) n)).
Proof.
  intros Hb Hn. induction k as [|k IH]; [by rewrite Z.min_l by lia |]. rewrite seq_S, fmap_app, concat_app, IH. cbn [fmap list_fmap concat Nat.add].
  rewrite app_nil_r. unfold batch_blocks.
  destruct (Z.le_gt_cases (Z.of_nat k * bs) n) as [H | H].
  - rewrite (Z.min_l _ _ H). change (Z.to_nat (Z.of_nat k * bs)) with (0 + Z.to_nat (Z.of_nat k * bs))%nat at 2. rewrite <- seq_app. f_equal. lia.
  - rewrite (Z.min_r _ n) by lia. rewrite (Z.min_r _ n) by lia. rewrite (Z.min_r _ n) by lia. replace (Z.to_nat (n - Z.of_nat k * bs)) with 0%nat by lia. cbn [seq]. by rewrite app_nil_r.
Qed.

(** The batches are the blocks, in order. *)
Lemma ForEachBatch_ok n hw : 0 < n -> 0 < hw -> exists batches, ForEachBatch n hw = Some batches /\ concat batches = seq 0 (Z.to_nat n).
Proof.
  intros Hn Hw. unfold ForEachBatch, batch_config. rewrite (proj2 (Z.eqb_neq _ _)) by lia.
  set (bs := if n / hw =? 0 then n else n / hw).
  assert (0 < bs) as Hb by (unfold bs; pose proof (Z.div_pos n hw); destruct (Z.eqb_spec (n / hw) 0); lia).
  rewrite (proj2 (Z.eqb_neq _ _)) by lia. cbn [mbind option_bind]. eexists. split; [reflexivity |].
  pose proof (Z.div_mod (n - 1) bs ltac:(lia)). pose proof (Z.mod_pos_bound (n - 1) bs Hb).
  assert (0 <= (n - 1) / bs) by (apply Z.div_pos; lia).
  rewrite concat_batches by lia. rewrite Z2Nat.id by lia. rewrite Z.min_r by nia. done.
Qed.

(** ** The selected rows, as a join sees them *)

(** The rows of a chunk for which [f] holds, with their values. *)
Fixpoint chunk_rows (f : Z -> bool) (values : list Z) (row offset : Z) : list (Z * Z) :=
  match values with
  | [] => []
  | v :: values' => (if f row then [(offset + row, v)] else []) ++ chunk_rows f values' (row + 1) offset
  end.

(** The selected rows of a column, by chunk. *)
Fixpoint selected_from (f : BlockView -> Z -> bool) (blocks : list BlockView) (col : Chunks) (offset : Z) : list (list (Z * Z)) :=
  match blocks, col with
  | b :: blocks', c :: col' => chunk_rows (f b) c 0 offset :: selected_from f blocks' col' (offset + Z.of_nat (length c))
  | _, _ => []
  end.

Definition selected (root : Node) (blocks : list BlockView) (col : Chunks) : list (list (Z * Z)) := selected_from (eval root) blocks col 0.

Lemma chunk_active_rows bits f : forall vals row offset,
  (forall r, row <= r < row + Z.of_nat (length vals) -> bit_of bits r = f r) ->
  chunk_active vals row offset bits = chunk_rows f vals row offset.
Proof.
  induction vals as [|v vals IH]; intros row offset H; cbn [chunk_active chunk_rows]; [done |]. cbn [length] in H.
  rewrite H by lia. f_equal. apply IH. intros r Hr. apply H. lia.
Qed.

Lemma chunk_rows_ext f g : forall vals row offset,
  (forall r, row <= r < row + Z.of_nat (length vals) -> f r = g r) -> chunk_rows f vals row offset = chunk_rows g vals row offset.
Proof.
  induction vals as [|v vals IH]; intros row offset H; cbn [chunk_rows]; [done |]. cbn [length] in H.
  rewrite H by lia. f_equal. apply IH. intros r Hr. apply H. lia.
Qed.

Definition covers (root : Node) (b : BlockView) (bits : list Z) : Prop :=
  num_rows b <= 8 * Z.of_nat (length bits) /\ forall row, 0 <= row < num_rows b -> bit_of (Some bits) row = eval root b row.

Lemma active_selected root bitmaps : forall blocks col i offset,
  Forall2 (fun b c => Z.of_nat (length c) = num_rows b) blocks col ->
  Forall2 (covers root) blocks (drop i bitmaps) ->
  active_from col (Some bitmaps) i offset = selected_from (eval root) blocks col offset.
Proof.
  induction blocks as [|b blocks IH]; intros col i offset HC HB; destruct col as [|c col]; try (by inversion HC); try done.
  apply Forall2_cons in HC as [Hc HC]. destruct (drop i bitmaps) as [|bits rest] eqn:Ed; [by inversion HB |].
  apply Forall2_cons in HB as [[_ Hb] HB].
  assert (bitmaps !! i = Some bits) as Ei by (rewrite <- (Nat.add_0_r i), <- lookup_drop, Ed; done).
  cbn [active_from selected_from]. cbn [mbind option_bind]. rewrite Ei. f_equal.
  - apply chunk_active_rows. intros r Hr. cbn in Hr. apply Hb. lia.
  - apply IH; [done |]. assert (drop (S i) bitmaps = rest) as ->; [| done].
    rewrite (drop_S _ _ _ Ei) in Ed. by injection Ed.
Qed.

Lemma filter_ok_selected root bitmaps blocks col : Forall2 (fun b c => Z.of_nat (length c) = num_rows b) blocks col ->
  Forall2 (covers root) blocks bitmaps -> filter_ok col (Some bitmaps).
Proof.
  intros HC HB. unfold filter_ok. revert bitmaps HB. induction HC as [|b c blocks col Hc HC IH]; intros bitmaps HB.
  { by apply Forall2_nil_inv_l in HB as ->. }
  apply Forall2_cons_inv_l in HB as (bits & rest & [Hb _] & HB & ->). constructor; [unfold bits_cover; lia | auto].
Qed.

End SelectSpec.

Import SelectSpec.

Lemma select_ok {A : ArrowScalar} {SS : ArrowStrings} (schedule : list (list nat) -> list nat) (hardware_concurrency table : Z)
    (blocks : list BlockView) (root : Node) (out : OperatorResult) :
  (forall x, scalar_data x = true) -> (forall l, Permutation (schedule l) (concat l)) -> 0 < hardware_concurrency -> blocks <> [] ->
  (forall i b, blocks !! i = Some b -> block_ok root i b) ->
  exists bitmaps,
    Selection.Execute schedule hardware_concurrency table blocks root out =
      Some (newLazyTable table (Some bitmaps) None None None :: out) /\
    Forall2 (covers root) blocks bitmaps /\
    forall col, Forall2 (fun b c => Z.of_nat (length c) = num_rows b) blocks col ->
      filter_ok col (Some bitmaps) /\ active col (Some bitmaps) = selected root blocks col.
Proof.
  intros Hd Hsch Hw Hne Hok. assert (0 < Z.of_nat (length blocks)) as Hn by (destruct blocks; [done | cbn; lia]).
  destruct (ForEachBatch_ok _ _ Hn Hw) as (batches & Eb & Ec). rewrite Nat2Z.id in Ec.
  pose proof (Hsch batches) as HP. rewrite Ec in HP.
  destruct (run_blocks_ok Hd blocks root Hok (schedule batches) (replicate (length blocks) None)) as (filters & Er & Hl & HS).
  { apply Forall_forall. intros i Hi. rewrite HP in Hi. apply elem_of_seq in Hi. lia. }
  { by rewrite length_replicate. }
  assert (exists bas, mapM (fun f => f) filters = Some bas /\ Forall2 (fun b ba => is_filter (num_rows b) (eval root b) ba) blocks bas) as (bas & Em & HF).
  { destruct (stored_mapM blocks root filters) as (bas & E & HF); [done | |]; [| by exists bas].
    intros i Hi. apply HS. left. rewrite HP. apply elem_of_seq. lia. }
  exists (ba_bits <$> bas).
  assert (Forall2 (covers root) blocks (ba_bits <$> bas)) as HC.
  { apply Forall2_fmap_r. eapply Forall2_impl; [exact HF |]. intros b ba (_ & H1 & H2). by split. }
  split_and!.
  - unfold Selection.Execute. rewrite Eb. cbn [mbind option_bind]. rewrite Er. cbn [mbind option_bind]. rewrite Em. done.
  - done.
  - intros col Hcol. split; [by eapply filter_ok_selected |]. by apply active_selected.
Qed.

(** ** Selection that builds the hash table of a join *)

Module BuildHash.

(** [filters_] and [hash_table_] *)
Record State := mkState { filters_ : Filters; hash_table_ : HashTable }.

(** [for (i = 1; i < num_blocks; i++) chunk_row_offsets_\[i\] = ...]: [rest] are
    the blocks from [i - 1] on. *)
Fixpoint fill_offsets (i : nat) (rest : list BlockView) (offsets : list Z) : option (list Z) :=
  match rest with
  | b :: ((_ :: _) as rest') =>
      prev ← offsets !! (i - 1)%nat;
      offsets ← set_at i (to_u64 (prev + num_rows b)) offsets;
      fill_offsets (S i) rest' offsets
  | _ => Some offsets
  end.

(** The vector has an element per row of the table. *)
Definition chunk_row_offsets_ (table_rows : Z) (blocks : list BlockView) : option (list Z) :=
  offsets ← set_at 0 0 (replicate (Z.to_nat table_rows) 0);
  fill_offsets 1 blocks offsets.

(** [data()->GetValues<uint64_t>(1, 0)] *)
Definition values64 (c : ColumnData) : option (list Z) :=
  match c with
  | Numbers (NumberType _ 64) vals => Some vals
  | _ => None
  end.

(** The rows from [row] on that pass the filter enter the local table. *)
Fixpoint local_rows (n : nat) (row : Z) (block_data : list Z) (offset : Z) (block_index : nat) (bits : option (list Z))
    (local_table : HashTable) : option HashTable :=
  match n with
  | O => Some local_table
  | S n' =>
      ok ← passes bits row;
      local_table ← (if (ok : bool) then
                       v ← block_data !! Z.to_nat row;
                       Some (insert_record (to_i64 (to_u64 v))
                               (mkRecordID (to_u32 (to_u32 offset + row)) (to_u16 (Z.of_nat block_index))) local_table)
                     else Some local_table);
      local_rows n' (row + 1) block_data offset block_index bits local_table
  end.

(** [for (auto const &\[key, val\] : local_table)] *)
Fixpoint merge_entries (entries : list (Z * list RecordID)) (ht : HashTable) : HashTable :=
  match entries with
  | [] => ht
  | (key, val) :: entries' =>
      merge_entries entries'
        match ht !! key with
        | Some ids => <[key := ids ++ val]> ht
        | None => <[key := val]> ht
        end
  end.

Section BuildHash.
Context {A : ArrowScalar} {SS : ArrowStrings}.
(** The order in which an [unordered_map] is traversed. *)
Context (traverse : HashTable -> list (Z * list RecordID)).

Definition ExecuteBlock (blocks : list BlockView) (tree : option Node) (join_column : string) (offsets : list Z) (block_index : nat)
    (st : State) : option State :=
  b ← blocks !! block_index;
  column ← get_column_by_name b join_column;
  block_data ← values64 column;
  '(filters, bits) ← match tree with
                     | Some root =>
                         '(filters, block_filter) ← Filter b root (filters_ st);
                         filters ← set_at block_index (Some block_filter) filters;
                         Some (filters, Some (ba_bits block_filter))
                     | None => Some (filters_ st, None)
                     end;
  offset ← offsets !! block_index;
  local_table ← local_rows (Z.to_nat (num_rows b)) 0 block_data offset block_index bits ∅;
  Some (mkState filters (merge_entries (traverse local_table) (hash_table_ st))).

Fixpoint run_blocks (blocks : list BlockView) (tree : option Node) (join_column : string) (offsets : list Z) (order : list nat)
    (st : State) : option State :=
  match order with
  | [] => Some st
  | i :: order' => st ← ExecuteBlock blocks tree join_column offsets i st; run_blocks blocks tree join_column offsets order' st
  end.

(** [SelectBuildHash::Execute]; [table_rows] is the table's number of rows. *)
Definition Execute (schedule : list (list nat) -> list nat) (hardware_concurrency table table_rows : Z) (blocks : list BlockView)
    (tree : option Node) (join_column : string) (out : OperatorResult) : option OperatorResult :=
  offsets ← chunk_row_offsets_ table_rows blocks;
  batches ← ForEachBatch (Z.of_nat (length blocks)) hardware_concurrency;
  st ← run_blocks blocks tree join_column offsets (schedule batches) (mkState (replicate (length blocks) None) ∅);
  chunked_filter ← match tree with
                   | Some _ => f ← mapM (fun f => f) (filters_ st); Some (Some (ba_bits <$> f))
                   | None => Some None
                   end;
  Some (append_lazy (newLazyTable table chunked_filter None None (Some (hash_table_ st))) out).

End BuildHash.

End BuildHash.

Module BuildHashSpec.

Import BuildHash.

Lemma merge_entries_lookup entries : forall ht k, NoDup entries.*1 ->
  default [] (merge_entries entries ht !! k) = default [] (ht !! k) ++ default [] ((list_to_map entries : HashTable) !! k).
Proof.
  induction entries as [|[key val] entries IH]; intros ht k Hnd; cbn [merge_entries].
  { cbn. by rewrite app_nil_r. }
  cbn [fmap list_fmap fst] in Hnd. apply NoDup_cons in Hnd as [Hni Hnd]. rewrite IH by done. cbn [list_to_map foldr uncurry fst snd].
  destruct (decide (key = k)) as [<- | Hne].
  - rewrite lookup_insert_eq. rewrite (not_elem_of_list_to_map_1 entries key) by done. cbn [default].
    rewrite app_nil_r. destruct (ht !! key) as [ids|]; rewrite lookup_insert_eq; done.
  - rewrite lookup_insert_ne by done. by destruct (ht !! key); rewrite lookup_insert_ne by done.
Qed.

Lemma merge_entries_ok entries (lt ht : HashTable) L R : Permutation entries (map_to_list lt) -> holds lt L -> holds ht R ->
  holds (merge_entries entries ht) (R ++ L).
Proof.
  intros HP HL HR k. assert (NoDup entries.*1) as Hnd by (rewrite HP; apply NoDup_fst_map_to_list).
  rewrite merge_entries_lookup by done. rewrite (list_to_map_proper _ _ Hnd HP), list_to_map_to_list.
  by rewrite fmap_app, HR, HL, partners_app.
Qed.

Lemma local_rows_ok block_data offset block_index bits : 0 <= offset -> offset + Z.of_nat (length block_data) < 2 ^ 32 ->
  Forall (is_s 64) block_data -> match bits with None => True | Some b => bits_cover block_data b end ->
  forall n row rest lt R, drop (Z.to_nat row) block_data = rest -> 0 <= row -> length rest = n -> holds lt R ->
  exists lt', local_rows n row block_data offset block_index bits lt = Some lt' /\ holds lt' (R ++ chunk_rows (bit_of bits) rest row offset).
Proof.
  intros Ho Hl HF Hb. induction n as [|n IH]; intros row rest lt R Hd Hr Hn HR; cbn [local_rows].
  { destruct rest; [| done]. exists lt. by rewrite app_nil_r. }
  destruct rest as [|v rest]; [done |]. injection Hn as Hn.
  assert (block_data !! Z.to_nat row = Some v) as Ev by (rewrite <- (Nat.add_0_r (Z.to_nat row)), <- lookup_drop, Hd; done).
  pose proof (lookup_lt_Some _ _ _ Ev) as Hlt. pose proof (Forall_lookup_1 _ _ _ _ HF Ev) as Hv.
  assert (drop (Z.to_nat (row + 1)) block_data = rest) as Hd'.
  { replace (Z.to_nat (row + 1)) with (S (Z.to_nat row)) by lia. rewrite (drop_S _ _ _ Ev) in Hd. by injection Hd. }
  rewrite (passes_ok bits block_data) by (done || lia). cbn [mbind option_bind chunk_rows]. rewrite (assoc_L (++)).
  destruct (bit_of bits row).
  - rewrite Ev. cbn [mbind option_bind]. apply IH; [done | lia | done |].
    rewrite (wrapu_id 32 offset) by (unfold is_u; lia). rewrite (wrapu_id 32 (offset + row)) by (unfold is_u; lia). rewrite key_id by done.
    by apply insert_record_ok.
  - cbn [mbind option_bind]. rewrite app_nil_r. apply IH; [done | lia | done | done].
Qed.

(** The column of the join in a block. *)
Definition join_ok (join_column : string) (b : BlockView) (c : list Z) : Prop :=
  (exists sgn, get_column_by_name b join_column = Some (Numbers (NumberType sgn 64) c)) /\
  Z.of_nat (length c) = num_rows b /\ Forall (is_s 64) c.

Definition tree_eval (tree : option Node) (b : BlockView) (row : Z) : bool :=
  match tree with Some root => eval root b row | None => true end.

Definition tree_ok (tree : option Node) (i : nat) (b : BlockView) : Prop :=
  match tree with Some root => block_ok root i b | None => True end.

Lemma fill_offsets_ok (col : Chunks) (blocks : list BlockView) : Forall2 (fun b c => Z.of_nat (length c) = num_rows b) blocks col ->
  rows col < 2 ^ 32 -> forall rest i offs, drop (i - 1) blocks = rest -> (1 <= i)%nat -> (length blocks <= length offs)%nat ->
  (forall j, (j < i)%nat -> (j < length blocks)%nat -> offs !! j = Some (Z.of_nat (start_row col j))) ->
  exists offs', fill_offsets i rest offs = Some offs' /\
    forall j, (j < length blocks)%nat -> offs' !! j = Some (Z.of_nat (start_row col j)).
Proof.
  intros HC Hr. induction rest as [|b rest IH]; intros i offs Hd Hi Hl HO.
  { cbn. exists offs. split; [done |]. intros j Hj. apply HO; [| done].
    apply (f_equal length) in Hd. rewrite length_drop in Hd. cbn [length] in Hd. lia. }
  destruct rest as [|b' rest']; cbn [fill_offsets].
  { exists offs. split; [done |]. intros j Hj. apply HO; [| done].
    apply (f_equal length) in Hd. rewrite length_drop in Hd. cbn [length] in Hd. lia. }
  pose proof (f_equal length Hd) as Hlen. rewrite length_drop in Hlen. cbn [length] in Hlen.
  rewrite HO by lia. cbn [mbind option_bind]. unfold set_at. rewrite (proj2 (Nat.ltb_lt _ _)) by lia. cbn [mbind option_bind].
  assert (blocks !! (i - 1)%nat = Some b) as Eb by (rewrite <- (Nat.add_0_r (i - 1)), <- lookup_drop, Hd; done).
  destruct (Forall2_lookup_l _ _ _ _ _ HC Eb) as (c & Ec & Hc).
  pose proof (start_row_S col _ _ Ec) as HS. replace (S (i - 1)) with i in HS by lia.
  pose proof (start_row_le col i) as Hle. unfold rows in Hr.
  rewrite wrapu_id by (unfold is_u; change (2 ^ 64) with (2 ^ 32 * 2 ^ 32); lia). apply IH.
  - replace (S i - 1)%nat with (S (i - 1)) by lia. rewrite (drop_S _ _ _ Eb) in Hd. injection Hd as Hd. done.
  - lia.
  - by rewrite length_insert.
  - intros j Hj Hjl. destruct (decide (j = i)) as [-> | Hne].
    + rewrite list_lookup_insert_eq by lia. f_equal. lia.
    + rewrite list_lookup_insert_ne by done. apply HO; lia.
Qed.

Lemma chunk_row_offsets_ok col blocks table_rows : Forall2 (fun b c => Z.of_nat (length c) = num_rows b) blocks col ->
  rows col < 2 ^ 32 -> blocks <> [] -> Z.of_nat (length blocks) <= table_rows ->
  exists offs, chunk_row_offsets_ table_rows blocks = Some offs /\
    forall j, (j < length blocks)%nat -> offs !! j = Some (Z.of_nat (start_row col j)).
Proof.
  intros HC Hr Hne Ht. assert (0 < length blocks)%nat by (destruct blocks; [done | cbn; lia]).
  unfold chunk_row_offsets_, set_at. rewrite length_replicate, (proj2 (Nat.ltb_lt _ _)) by lia. cbn [mbind option_bind].
  apply (fill_offsets_ok col); [done | done | done | lia | |].
  - rewrite length_insert, length_replicate. lia.
  - intros j Hj _. assert (j = 0%nat) as -> by lia. rewrite list_lookup_insert_eq by (rewrite length_replicate; lia). done.
Qed.

Section Run.
Context {A : ArrowScalar} {SS : ArrowStrings} (data_pointer : forall x, scalar_data x = true).
Context (traverse : HashTable -> list (Z * list RecordID)) (traverse_ok : forall h, Permutation (traverse h) (map_to_list h)).
Context (blocks : list BlockView) (tree : option Node) (join_column : string) (col : Chunks) (offsets : list Z).
Context (Htree : forall i b, blocks !! i = Some b -> tree_ok tree i b) (Hjoin : Forall2 (join_ok join_column) blocks col).
Context (Hrows : rows col < 2 ^ 32) (Hoff : forall j, (j < length blocks)%nat -> offsets !! j = Some (Z.of_nat (start_row col j))).

Definition rows_of (i : nat) : list (Z * Z) :=
  match blocks !! i, col !! i with
  | Some b, Some c => chunk_rows (tree_eval tree b) c 0 (Z.of_nat (start_row col i))
  | _, _ => []
  end.

(** The filter of block [i] has been stored, if there is a tree. *)
Definition filtered (filters : Filters) (i : nat) : Prop :=
  match tree with Some root => stored blocks root filters i | None => True end.

Lemma block_hash_ok i st R : (i < length blocks)%nat -> length (filters_ st) = length blocks -> holds (BuildHash.hash_table_ st) R ->
  exists st', BuildHash.ExecuteBlock traverse blocks tree join_column offsets i st = Some st' /\
    length (filters_ st') = length blocks /\ holds (BuildHash.hash_table_ st') (R ++ rows_of i) /\
    filtered (filters_ st') i /\ forall j, j <> i -> filters_ st' !! j = filters_ st !! j.
Proof.
  intros Hi Hl HR. destruct (lookup_lt_is_Some_2 blocks i Hi) as [b Eb].
  destruct (Forall2_lookup_l _ _ _ _ _ Hjoin Eb) as (c & Ec & [sgn Ecol] & Hlen & Hvals).
  assert (exists filters bits, match tree with
      | Some root => '(filters, block_filter) ← Filter b root (filters_ st);
          filters ← set_at i (Some block_filter) filters; Some (filters, Some (ba_bits block_filter))
      | None => Some (filters_ st, None) end = Some (filters, bits) /\ length filters = length blocks /\
      match bits with None => True | Some b => bits_cover c b end /\
      (forall row, 0 <= row < num_rows b -> bit_of bits row = tree_eval tree b row) /\ filtered filters i /\
      forall j, j <> i -> filters !! j = filters_ st !! j) as (filters & bits & Ef & Hfl & Hcov & Hbits & Hst & Hk).
  { unfold tree_ok in Htree. unfold filtered. destruct tree as [root|]; [| by exists (filters_ st), None].
    destruct (ExecuteBlock_ok data_pointer blocks root i b (filters_ st) Eb (Htree _ _ Eb) Hl) as (f & ba & E & L & S1 & F & K).
    unfold Selection.ExecuteBlock in E. rewrite Eb in E. cbn [mbind option_bind] in E.
    destruct (Filter b root (filters_ st)) as [[f1 ba1]|]; [| done]. cbn [mbind option_bind] in E |- *. rewrite E. cbn [mbind option_bind].
    assert (ba1 = ba) as ->.
    { unfold set_at in E. destruct (i <? length f1)%nat eqn:Elt; [| done]. injection E as <-. apply Nat.ltb_lt in Elt.
      rewrite list_lookup_insert_eq in S1 by done. by injection S1. }
    exists f, (Some (ba_bits ba)). split_and!; try done.
    - destruct F as (_ & F & _). unfold bits_cover. lia.
    - intros row Hr. destruct F as (_ & _ & F). by rewrite F.
    - by exists b, ba. }
  pose proof (start_row_S col _ _ Ec) as HS. pose proof (start_row_le col (S i)) as Hle. unfold rows in Hrows.
  destruct (local_rows_ok c (Z.of_nat (start_row col i)) i bits) with (n := Z.to_nat (num_rows b)) (row := 0) (rest := c) (lt := ∅ : HashTable) (R := @nil (Z * Z))
    as (lt' & El & Hlt); [lia | lia | done | done | done | lia | lia | by intros k; rewrite lookup_empty |].
  unfold BuildHash.ExecuteBlock. rewrite Eb. cbn [mbind option_bind]. rewrite Ecol. cbn [mbind option_bind values64].
  rewrite Ef. cbn [mbind option_bind]. rewrite Hoff by done. cbn [mbind option_bind]. rewrite El. cbn [mbind option_bind].
  eexists. split_and!; [reflexivity | done | | done | done]. cbn [BuildHash.hash_table_]. eapply merge_entries_ok; [apply traverse_ok | | done].
  unfold rows_of. rewrite Eb, Ec. cbn [app] in Hlt. rewrite (chunk_rows_ext _ (tree_eval tree b)) in Hlt; [done |]. intros r Hr. apply Hbits. lia.
Qed.

Lemma run_hash_ok order : forall st R, Forall (fun i => (i < length blocks)%nat) order -> length (filters_ st) = length blocks ->
  holds (BuildHash.hash_table_ st) R ->
  exists st', BuildHash.run_blocks traverse blocks tree join_column offsets order st = Some st' /\
    length (filters_ st') = length blocks /\ holds (BuildHash.hash_table_ st') (R ++ (order ≫= rows_of)) /\
    forall i, (i ∈ order \/ filtered (filters_ st) i) -> filtered (filters_ st') i.
Proof.
  induction order as [|i order IH]; intros st R HF Hl HR; cbn [BuildHash.run_blocks].
  { exists st. split_and!; [done | done | by rewrite app_nil_r |]. intros i [H | H]; [by apply not_elem_of_nil in H | done]. }
  apply Forall_cons in HF as [Hi HF].
  destruct (block_hash_ok i st R Hi Hl HR) as (st1 & -> & L1 & R1 & F1 & K1). cbn [mbind option_bind].
  destruct (IH st1 (R ++ rows_of i) HF L1 R1) as (st2 & -> & L2 & R2 & F2). exists st2. split_and!; [done | done | |].
  - rewrite bind_cons, (assoc_L (++)). done.
  - intros j Hj. apply F2. destruct (decide (j = i)) as [-> | Hne]; [by right |].
    destruct Hj as [Hj | Hj]; [apply elem_of_cons in Hj as [-> | Hj]; [done | by left] |].
    right. unfold filtered in *. destruct tree; [| done]. destruct Hj as (bj & baj & E1 & E2 & E3). exists bj, baj. by rewrite K1.
Qed.

End Run.

Lemma perm_bind {A B} (f : A -> list B) l k : Permutation l k -> Permutation (l ≫= f) (k ≫= f).
Proof.
  induction 1 as [| x l k _ IH | x y l | l k m _ IH1 _ IH2]; rewrite ?bind_cons; [done | by apply Permutation_app_head | |].
  - rewrite !(assoc_L (++)). apply Permutation_app_tail, Permutation_app_comm.
  - by transitivity (k ≫= f).
Qed.

(** BlockView by block, the rows are the selected ones. *)
Lemma rows_of_selected tree : forall blocks col pre,
  length blocks = length col ->
  (seq 0 (length blocks) ≫= fun i => match blocks !! i, col !! i with
     | Some b, Some c => chunk_rows (tree_eval tree b) c 0 (Z.of_nat (pre + start_row col i)) | _, _ => [] end) =
  concat (selected_from (tree_eval tree) blocks col (Z.of_nat pre)).
Proof.
  induction blocks as [|b blocks IH]; intros [|c col] pre Hl; try done. injection Hl as Hl. cbn [length seq selected_from concat].
  rewrite bind_cons. f_equal; [do 2 f_equal; unfold start_row; cbn; lia |].
  rewrite <- fmap_S_seq, list_fmap_bind. replace (Z.of_nat pre + Z.of_nat (length c)) with (Z.of_nat (pre + length c)) by lia.
  rewrite <- IH by done. apply list_bind_ext; [| done]. intros i. unfold compose. cbn [lookup list_lookup].
  destruct (blocks !! i), (col !! i); try done. do 2 f_equal. unfold start_row. cbn. rewrite length_app. lia.
Qed.

Lemma active_all_selected : forall (blocks : list BlockView) (col : Chunks) i offset, length blocks = length col ->
  active_from col None i offset = selected_from (tree_eval None) blocks col offset.
Proof.
  induction blocks as [|b blocks IH]; intros [|c col] i offset Hl; try done. injection Hl as Hl. cbn [active_from selected_from].
  f_equal; [by apply chunk_active_rows | by apply IH].
Qed.

(** The hash table holds the selected rows, in some order. *)
Lemma select_build_hash_ok {A : ArrowScalar} {SS : ArrowStrings} traverse (schedule : list (list nat) -> list nat)
    (hardware_concurrency table table_rows : Z) (blocks : list BlockView) (tree : option Node) (join_column : string) (col : Chunks)
    (out : OperatorResult) :
  (forall x, scalar_data x = true) -> (forall h, Permutation (traverse h) (map_to_list h)) ->
  (forall l, Permutation (schedule l) (concat l)) -> 0 < hardware_concurrency -> blocks <> [] ->
  (forall i b, blocks !! i = Some b -> tree_ok tree i b) -> Forall2 (join_ok join_column) blocks col -> rows col < 2 ^ 32 ->
  Z.of_nat (length blocks) <= table_rows ->
  exists bitmaps h R,
    BuildHash.Execute traverse schedule hardware_concurrency table table_rows blocks tree join_column out =
      Some (newLazyTable table bitmaps None None (Some h) :: out) /\
    filter_ok col bitmaps /\ active col bitmaps = selected_from (tree_eval tree) blocks col 0 /\
    Permutation R (concat (selected_from (tree_eval tree) blocks col 0)) /\ holds h R.
Proof.
  intros Hd Htr Hsch Hw Hne Htree Hjoin Hrows Htr2. assert (0 < Z.of_nat (length blocks)) as Hn by (destruct blocks; [done | cbn; lia]).
  assert (Forall2 (fun b c => Z.of_nat (length c) = num_rows b) blocks col) as HC
    by (eapply Forall2_impl; [exact Hjoin | intros b c (_ & H & _); done]).
  destruct (ForEachBatch_ok _ _ Hn Hw) as (batches & Eb & Ec). rewrite Nat2Z.id in Ec.
  pose proof (Hsch batches) as HP. rewrite Ec in HP.
  destruct (chunk_row_offsets_ok col blocks table_rows HC Hrows Hne Htr2) as (offs & Eo & Hoff).
  destruct (run_hash_ok Hd traverse Htr blocks tree join_column col offs Htree Hjoin Hrows Hoff (schedule batches)
    (mkState (replicate (length blocks) None) ∅) []) as (st & Er & Hl & HR & HS).
  { apply Forall_forall. intros i Hi. rewrite HP in Hi. apply elem_of_seq in Hi. lia. }
  { cbn. by rewrite length_replicate. }
  { intros k. cbn. by rewrite lookup_empty. }
  assert (exists bitmaps, match tree with
      | Some _ => f ← mapM (fun f => f) (filters_ st); Some (Some (ba_bits <$> f)) | None => Some None end = Some bitmaps /\
      filter_ok col bitmaps /\ active col bitmaps = selected_from (tree_eval tree) blocks col 0) as (bitmaps & Em & HF & HA).
  { destruct tree as [root|].
    - destruct (stored_mapM blocks root (filters_ st) Hl) as (bas & -> & HF).
      { intros i Hi. apply HS. left. rewrite HP. apply elem_of_seq. lia. }
      assert (Forall2 (covers root) blocks (ba_bits <$> bas)) as HB.
      { apply Forall2_fmap_r. eapply Forall2_impl; [exact HF |]. intros b ba (_ & H1 & H2). by split. }
      eexists. split; [reflexivity |]. split; [by eapply filter_ok_selected | by apply active_selected].
    - exists None. split_and!; [done | done |]. apply active_all_selected. by eapply Forall2_length. }
  exists bitmaps, (BuildHash.hash_table_ st), ([] ++ (schedule batches ≫= rows_of blocks tree col)). split_and!; try done.
  - unfold BuildHash.Execute. rewrite Eo. cbn [mbind option_bind]. rewrite Eb. cbn [mbind option_bind]. rewrite Er. cbn [mbind option_bind].
    rewrite Em. done.
  - cbn [app]. rewrite (perm_bind (rows_of blocks tree col) _ _ HP).
    change (selected_from (tree_eval tree) blocks col 0) with (selected_from (tree_eval tree) blocks col (Z.of_nat 0)).
    rewrite <- (rows_of_selected tree blocks col 0) by (by eapply Forall2_length). done.
Qed.

End BuildHashSpec.

Import JoinResult BuildHashSpec.

(** C17: a selection gives every block of the table a bitmap whose bits are the
    values of the predicate tree on the rows of the block, whatever the order in
    which the tasks reach the blocks, with and without metadata; a join that
    reads the result sees exactly the selected rows.  [NOT_EQUAL] with two bounds
    on a column of [uint8_t] selects the interval. *)
Theorem select_correct {A : ArrowScalar} {SS : ArrowStrings} (schedule : list (list nat) -> list nat) (hardware_concurrency table : Z)
    (blocks : list BlockView) (root : Node) (out : OperatorResult) :
  (forall x, scalar_data x = true) -> (forall l, Permutation (schedule l) (concat l)) -> 0 < hardware_concurrency -> blocks <> [] ->
  (forall i b, blocks !! i = Some b -> block_ok root i b) ->
  exists bitmaps,
    Selection.Execute schedule hardware_concurrency table blocks root out =
      Some (newLazyTable table (Some bitmaps) None None None :: out) /\
    Forall2 (covers root) blocks bitmaps /\
    forall col, Forall2 (fun b c => Z.of_nat (length c) = num_rows b) blocks col ->
      filter_ok col (Some bitmaps) /\ active col (Some bitmaps) = selected root blocks col.
Proof. apply select_ok. Qed.

(** ** A query: two selections and a join *)

Lemma nested_loop_perm L R R' : Permutation R R' -> Permutation (nested_loop L R) (nested_loop L R').
Proof.
  intros HP. unfold nested_loop. induction L as [|x L IH]; [done |]. rewrite !bind_cons. apply Permutation_app; [| done].
  apply fmap_Permutation. unfold partners. apply fmap_Permutation. by rewrite HP.
Qed.

Lemma pick_base c t f h ps : Forall (fun p => 0 <= p < rows c) ps -> pick (base_rows c (newLazyTable t f None None h)) ps = ps.
Proof.
  intros HF. unfold pick, base_rows. cbn. rewrite <- (list_fmap_id ps) at 2. apply list_fmap_ext. intros i p Hp.
  eapply Forall_lookup_1 in HF; [| exact Hp]. cbn in HF. unfold rows in HF. apply nth_lookup_Some.
  rewrite list_lookup_fmap, lookup_seq_lt by lia. cbn. f_equal. lia.
Qed.

Lemma join_ok_nonempty name blocks col : Forall2 (join_ok name) blocks col -> blocks <> [] -> col <> [].
Proof. by intros [] ?. Qed.

Lemma join_ok_values name blocks col : Forall2 (join_ok name) blocks col -> Forall (is_s 64) (concat col).
Proof. induction 1 as [|b c blocks col (_ & _ & H) _ IH]; cbn; [constructor | by apply Forall_app]. Qed.

(** A table that has not been joined is a side of a join. *)
Lemma side_table get_column cr c f h : get_column (cr_table cr) (col_name cr) = Some c -> filter_ok c f -> c <> [] -> rows c < 2 ^ 32 ->
  Forall (is_s 64) (concat c) ->
  side_ok get_column cr [newLazyTable (cr_table cr) f None None h] (newLazyTable (cr_table cr) f None None h) c.
Proof.
  intros Hg Hf Hne Hr Hv. constructor; try done.
  - cbn. by rewrite Z.eqb_refl.
  - by apply Forall_singleton.
Qed.

(** The plan of such a query: the operators one after the other. *)
Definition select_join {T : ArrowTake} {A : ArrowScalar} {SS : ArrowStrings} traverse schedule probe_schedule hardware_concurrency num_parallel
    get_column pred (left_blocks right_blocks : list BlockView) (root : Node) (tree : option Node) (right_rows : Z) : option OperatorResult :=
  left_prev ← Selection.Execute schedule hardware_concurrency (cr_table (left_col_ pred)) left_blocks root [];
  right_prev ← BuildHash.Execute traverse schedule hardware_concurrency (cr_table (right_col_ pred)) right_rows right_blocks tree
                 (col_name (right_col_ pred)) [];
  Join.Execute get_column probe_schedule num_parallel pred left_prev right_prev [].

(** C10: a selection on the left table, a selection on the right table that builds
    the hash table, and the join of the two results compute, for all orders in
    which the tasks of the three operators run, the pairs of a selected left row
    and a selected right row with equal keys: each pair as often as in the nested
    loop, as positions of the two index arrays of the result. *)
Theorem select_join_correct {T : ArrowTake} {A : ArrowScalar} {SS : ArrowStrings} traverse schedule probe_schedule hardware_concurrency
    num_parallel get_column pred left_blocks right_blocks root tree table_rows (cl cr : Chunks) :
  (forall x, scalar_data x = true) -> (forall h, Permutation (traverse h) (map_to_list h)) ->
  (forall l, Permutation (schedule l) (concat l)) -> (forall n, Permutation (probe_schedule n) (seq 0 n)) ->
  0 < hardware_concurrency -> parallel_ok num_parallel (Z.of_nat (length cl)) -> left_blocks <> [] -> right_blocks <> [] ->
  (forall i b, left_blocks !! i = Some b -> block_ok root i b) -> (forall i b, right_blocks !! i = Some b -> tree_ok tree i b) ->
  Forall2 (join_ok (col_name (left_col_ pred))) left_blocks cl -> Forall2 (join_ok (col_name (right_col_ pred))) right_blocks cr ->
  get_column (cr_table (left_col_ pred)) (col_name (left_col_ pred)) = Some cl ->
  get_column (cr_table (right_col_ pred)) (col_name (right_col_ pred)) = Some cr ->
  rows cl < 2 ^ 32 -> rows cr < 2 ^ 32 -> Z.of_nat (length right_blocks) <= table_rows ->
  cr_table (left_col_ pred) <> cr_table (right_col_ pred) ->
  let spec := nested_loop (concat (selected_from (eval root) left_blocks cl 0)) (concat (selected_from (tree_eval tree) right_blocks cr 0)) in
  Z.of_nat (length spec) < 2 ^ 31 ->
  exists r pairs,
    select_join traverse schedule probe_schedule hardware_concurrency num_parallel get_column pred left_blocks right_blocks root tree table_rows = Some r /\
    Permutation pairs spec /\
    indices_of (cr_table (left_col_ pred)) r = Some (fst <$> pairs) /\ indices_of (cr_table (right_col_ pred)) r = Some (snd <$> pairs).
Proof.
  intros Hd Htr Hsch Hps Hw Hpar Hnl Hnr Hl Hr Jl Jr Gl Gr Rl Rr Htab Hne spec Hspec.
  destruct (select_ok schedule hardware_concurrency (cr_table (left_col_ pred)) left_blocks root [] Hd Hsch Hw Hnl Hl) as (bml & El & _ & Hcol).
  destruct (Hcol cl) as [Fl Al]; [eapply Forall2_impl; [exact Jl | intros b c (_ & H & _); done] |]. clear Hcol. unfold selected in Al.
  destruct (select_build_hash_ok traverse schedule hardware_concurrency (cr_table (right_col_ pred)) table_rows right_blocks tree
    (col_name (right_col_ pred)) cr [] Hd Htr Hsch Hw Hnr Hr Jr Rr Htab) as (bmr & h & R & Er & Fr & Ar & PR & HR).
  set (lt := newLazyTable (cr_table (left_col_ pred)) (Some bml) None None None) in *.
  set (rt := newLazyTable (cr_table (right_col_ pred)) bmr None None (Some h)) in *.
  assert (lazy_rows cl lt = concat (selected_from (eval root) left_blocks cl 0)) as Ll by (unfold lazy_rows; cbn; by rewrite Al).
  assert (lazy_rows cr rt = concat (selected_from (tree_eval tree) right_blocks cr 0)) as Lr by (unfold lazy_rows; cbn; by rewrite Ar).
  assert (Permutation (nested_loop (lazy_rows cl lt) R) spec) as HP by (unfold spec; rewrite Ll; by apply nested_loop_perm).
  destruct (hash_join_ok get_column probe_schedule num_parallel pred [lt] [rt] [] lt rt cl cr R) as (r & Ej & J1 & J2 & _).
  - done.
  - done.
  - apply side_table; [done | done | by eapply join_ok_nonempty | done | by eapply join_ok_values].
  - apply side_table; [done | done | by eapply join_ok_nonempty | done | by eapply join_ok_values].
  - intros t. cbn. destruct (Z.eqb_spec (cr_table (right_col_ pred)) t) as [<- | _]; [| by intros []].
    by rewrite (proj2 (Z.eqb_neq _ _)) by done.
  - split; [by rewrite Lr | done].
  - by rewrite HP.
  - cbn [app] in Ej. exists r, (nested_loop (lazy_rows cl lt) R).
    assert (forall p, p ∈ nested_loop (lazy_rows cl lt) R -> 0 <= fst p < rows cl /\ 0 <= snd p < rows cr) as Hin.
    { intros [l r'] H. apply nested_loop_in in H as (k & HL & HRR). rewrite PR, <- Ar in HRR. rewrite Ll, <- Al in HL.
      apply active_in in HL as [HL _]. apply active_in in HRR as [HRR _]. done. }
    split_and!; [| done | |].
    + unfold select_join. rewrite El. cbn [mbind option_bind]. rewrite Er. cbn [mbind option_bind]. exact Ej.
    + change (table lt) with (cr_table (left_col_ pred)) in J1. unfold lt in J1 at 1. rewrite pick_base in J1; [done |].
      apply Forall_fmap, Forall_forall. intros p Hp. by apply Hin.
    + change (table rt) with (cr_table (right_col_ pred)) in J2. unfold rt in J2 at 1. rewrite pick_base in J2; [done |].
      apply Forall_fmap, Forall_forall. intros p Hp. by apply Hin.
Qed.

(** ** Kernels on lists and an example *)

Module ListStrings.

#[export, refine] Instance list_strings : ArrowStrings := {|
  CompareStrings l s c := match packed (Z.of_nat (length l)) ((fun x => Z.b2z (string_comparator c x s)) <$> l) with
                          | Some ba => ba_bits ba | None => [] end |}.
Proof.
  intros l s c. destruct (packed_ok (Z.of_nat (length l)) ((fun x => Z.b2z (string_comparator c x s)) <$> l)) as (ba & -> & _ & H1 & H2).
  { rewrite length_fmap. lia. }
  split; [done |]. intros i x Hx. rewrite H2 by (apply lookup_lt_Some in Hx; lia). rewrite Nat2Z.id.
  rewrite (nth_lookup_Some _ i 0 (Z.b2z (string_comparator c x s))); [by destruct (string_comparator c x s) |].
  by rewrite list_lookup_fmap, Hx.
Defined.

Definition demo_block (i : nat) (n : Z) (k a : list Z) (s : list string) (m : option MetadataBlock) : BlockView :=
  mkBlockView i n (fun col => if String.eqb col "k" then Some (Numbers INT64 k) else if String.eqb col "a" then Some (Numbers UINT8 a)
                          else Some (Strings s)) (fun _ => Some 0%nat) m.

(** a BETWEEN 2 AND 5 AND s = x *)
Definition demo_root : Node :=
  ConnectiveNode (PredicateNode (mkPredicate "a" NOT_EQUAL (NumberScalar UINT8 2) (Some (NumberScalar UINT8 5))))
    (PredicateNode (mkPredicate "s" EQUAL (StringScalar "x") None)) AND.

Definition demo_left_blocks : list BlockView :=
  [demo_block 0 3 [7; 8; 9] [1; 2; 5] ["x"; "x"; "y"]%string None; demo_block 1 2 [8; 7] [4; 6] ["x"; "x"]%string None].

(** k < 9, with metadata *)
Definition demo_tree : option Node := Some (PredicateNode (mkPredicate "k" LESS (NumberScalar INT64 9) None)).

Definition demo_right_blocks : list BlockView :=
  [demo_block 0 2 [8; 9] [] [] (Some (newMetadataBlock [mkColumn true [8; 9]])); demo_block 1 1 [8] [] [] None].

Definition demo_get_column (t : Z) (col : string) : option Chunks :=
  if t =? 1 then Some [[7; 8; 9]; [8; 7]] else Some [[8; 9]; [8]].

Definition demo_pred : JoinPredicate := mkJoinPredicate (mkColumnReference 1 "k") (mkColumnReference 2 "k").

Lemma demo_left_ok i b : demo_left_blocks !! i = Some b -> block_ok demo_root i b.
Proof.
  destruct i as [|[|i]]; intros E; [injection E as <- | injection E as <- | done]; (split; [reflexivity |]); (split; [reflexivity |]);
    (split; [| reflexivity]); (split; [reflexivity |]); (split; [cbn; lia |]); (split; [by exists 0%nat |]); intros _; (split; [reflexivity |]);
    (split; [repeat (apply Forall_cons_2; [unfold is_u; lia |]); constructor |]); (split; [unfold is_u; lia |]); exists 5; (split; [reflexivity |]); unfold is_u; lia.
Qed.

Lemma demo_right_ok i b : demo_right_blocks !! i = Some b -> tree_ok demo_tree i b.
Proof.
  destruct i as [|[|i]]; intros E; [injection E as <- | injection E as <- | done]; (split; [reflexivity |]); (split; [reflexivity |]);
    (split; [reflexivity |]); (split; [cbn; lia |]); (split; [exists 0%nat; split; [reflexivity |] | done]); [| exact I].
  split; [apply new_metadata_ok | cbn; lia].
Qed.

End ListStrings.

Import ListStrings ListTake.

Lemma select_correct_witness :
  exists bitmaps, @Selection.Execute pointer_scalar _ (@concat nat) 2 1 demo_left_blocks demo_root [] =
      Some [newLazyTable 1 (Some bitmaps) None None None] /\ bitmaps = [[2]; [1]].
Proof.
  destruct (@select_correct pointer_scalar _ (@concat nat) 2 1 demo_left_blocks demo_root []) as (bitmaps & E & _); try done.
  - apply demo_left_ok.
  - exists bitmaps. split; [exact E |].
    assert (@Selection.Execute pointer_scalar _ (@concat nat) 2 1 demo_left_blocks demo_root [] =
      Some [newLazyTable 1 (Some [[2]; [1]]) None None None]) as E2 by (vm_compute; reflexivity).
    rewrite E2 in E. by injection E.
Defined.

Lemma select_join_correct_witness :
  exists r pairs, @select_join _ pointer_scalar _ map_to_list (@concat nat) (fun n => rev (seq 0 n)) 2 (double_of_Z 8) demo_get_column
      demo_pred demo_left_blocks demo_right_blocks demo_root demo_tree 3 = Some r /\
    Permutation pairs [(1, 0); (1, 2); (3, 0); (3, 2)] /\ indices_of 1 r = Some (fst <$> pairs) /\ indices_of 2 r = Some (snd <$> pairs).
Proof.
  destruct (@select_join_correct _ pointer_scalar _ map_to_list (@concat nat) (fun n => rev (seq 0 n)) 2 (double_of_Z 8) demo_get_column
    demo_pred demo_left_blocks demo_right_blocks demo_root demo_tree 3 [[7; 8; 9]; [8; 7]] [[8; 9]; [8]]) as (r & pairs & E & HP & H1 & H2);
    try done.
  - intros n. symmetry. apply Permutation_rev.
  - exists 0. split_and!; [vm_compute; reflexivity | lia | vm_compute; reflexivity].
  - apply demo_left_ok.
  - apply demo_right_ok.
  - repeat (apply Forall2_cons_2; [split; [by exists true | split; [reflexivity | repeat (apply Forall_cons_2; [unfold is_s; lia |]); constructor]] |]). constructor.
  - repeat (apply Forall2_cons_2; [split; [by exists true | split; [reflexivity | repeat (apply Forall_cons_2; [unfold is_s; lia |]); constructor]] |]). constructor.
  - exists r, pairs. split_and!; [exact E | | exact H1 | exact H2]. etransitivity; [exact HP |]. vm_compute. reflexivity.
Defined.
