(* ===== verification/Expression.v ===== *)
(** * Arithmetic expressions over columns (operators/expression)

    [Expression] turns the tree of an SQL expression into postfix form and
    evaluates it for one chunk at a time with a stack of arrays.  The arrays are
    shared: the chunks of a column are the table's own, and an operator writes its
    result either into a new array or into the array of its left operand.  They
    are therefore addresses in a store.  [None] is undefined behaviour (an access
    outside an array, an empty stack, an overflow of a signed integer, a division
    by zero); exceptions are values. *)

From Stdlib Require Import ZArith Zquot Lia.
From stdpp Require Import base numbers list gmap option strings.
Import stdpp.list_basics.list stdpp.list_relations.list stdpp.list_monad.list.
From S2P Require Import Prelude Columns HashJoin.
Import Join.

Local Open Scope Z_scope.

Module Expr.

Definition TK_COLUMN : Z := 164.
Definition TK_AGG_COLUMN : Z := 166.
Definition TK_PLUS : Z := 105.
Definition TK_MINUS : Z := 106.
Definition TK_STAR : Z := 107.
Definition TK_SLASH : Z := 108.

(** [ExprReference]; [NullExpr] is the null pointer. *)
Inductive ExprReference :=
| NullExpr
| Expr (op : Z) (left_expr right_expr : ExprReference) (column_ref : option ColumnReference).

(** An integer type: its signedness and width. *)
Record CType := mkCType { ctype_signed : bool; ctype_width : Z }.

#[export] Instance CType_eq_dec : EqDecision CType.
Proof. solve_decision. Defined.

(** An Arrow array of integers. *)
Record Array := mkArray { array_type : CType; array_data : list Z }.

(** The arrays in memory; [next] is the address of the next allocation. *)
Record Store := mkStore { arrays : gmap Z Array; next : Z }.

(** [col] is the chunks of a column; [None] is a null pointer. *)
Record ExprElem := mkExprElem { ee_op : Z; ee_col : option (list Z) }.
Record OpElem := mkOpElem { is_result : bool; chunk : Z }.

(** ** Arithmetic at the width of the column *)

(** Types narrower than [int] are promoted to it. *)
Definition promoted (t : CType) : CType := if ctype_width t <? 32 then mkCType true 32 else t.

Definition in_ctype (t : CType) (x : Z) : option Z :=
  if ctype_signed t then
    if (- 2 ^ (ctype_width t - 1) <=? x) && (x <? 2 ^ (ctype_width t - 1)) then Some x else None
  else Some (wrapu (ctype_width t) x).

(** The conversion back to the type of the result. *)
Definition to_ctype (t : CType) (x : Z) : Z :=
  if ctype_signed t then wraps (ctype_width t) x else wrapu (ctype_width t) x.

Definition arith (t : CType) (op x y : Z) : option Z :=
  r ← (if op =? TK_PLUS then Some (x + y)
       else if op =? TK_MINUS then Some (x - y)
       else if op =? TK_SLASH then if y =? 0 then None else Some (Z.quot x y)
       else Some (x * y));
  r ← in_ctype (promoted t) r;
  Some (to_ctype t r).

Definition is_operator (op : Z) : bool := (op =? TK_PLUS) || (op =? TK_MINUS) || (op =? TK_SLASH) || (op =? TK_STAR).
Definition is_column (op : Z) : bool := (op =? TK_COLUMN) || (op =? TK_AGG_COLUMN).

(** ** The two phases *)

(** [postfix_expr_] and [exp_num_chunks_] *)
Record Expression := mkExpression { postfix_expr_ : list ExprElem; exp_num_chunks_ : Z }.

Section Convert.
(** The addresses of the chunks of a materialised column. *)
Context (MaterializeColumn : ColumnReference -> option (list Z)).

Fixpoint ConvertPostfix (expr : ExprReference) (e : Expression) : option Expression :=
  match expr with
  | NullExpr => Some e
  | Expr op left_expr right_expr column_ref =>
      e ← ConvertPostfix left_expr e;
      e ← ConvertPostfix right_expr e;
      if is_column op then
        cr ← column_ref;
        column ← MaterializeColumn cr;
        Some (mkExpression (postfix_expr_ e ++ [mkExprElem op (Some column)])
                (Z.max (exp_num_chunks_ e) (Z.of_nat (length column))))
      else Some (mkExpression (postfix_expr_ e ++ [mkExprElem op None]) (exp_num_chunks_ e))
  end.

(** [Expression::Initialize]; a null expression is an error. *)
Definition Initialize (expr : ExprReference) : option (exn + Expression) :=
  match expr with
  | NullExpr => Some (inl RuntimeError)
  | _ => e ← ConvertPostfix expr (mkExpression [] 0); Some (inr e)
  end.

End Convert.

(** [result_data\[row\] = left_col_data\[row\] op right_col_data\[row\]] *)
Definition write_row (t : CType) (op result left_col right_col : Z) (row : nat) (arrs : gmap Z Array) : option (gmap Z Array) :=
  l ← arrs !! left_col;
  r ← arrs !! right_col;
  x ← array_data l !! row;
  y ← array_data r !! row;
  v ← arith t op x y;
  res ← arrs !! result;
  if (row <? length (array_data res))%nat
  then Some (<[result := mkArray (array_type res) (<[row := v]> (array_data res))]> arrs)
  else None.

Fixpoint write_rows (n row : nat) (t : CType) (op result left_col right_col : Z) (arrs : gmap Z Array) : option (gmap Z Array) :=
  match n with
  | O => Some arrs
  | S n' =>
      arrs ← write_row t op result left_col right_col row arrs;
      write_rows n' (S row) t op result left_col right_col arrs
  end.

(** [ExecuteBlock(op, result, left_col, right_col)] *)
Definition ExecuteBlock (t : CType) (op result left_col right_col : Z) : StM Store Z :=
  s ← get;
  l ← defined (arrays s !! left_col);
  r ← defined (arrays s !! right_col);
  let chunk_length := Nat.max (length (array_data l)) (length (array_data r)) in
  if is_operator op then
    arrs ← defined (write_rows chunk_length 0 t op result left_col right_col (arrays s));
    _ ← modify (fun s => mkStore arrs (next s));
    mret result
  else throw RuntimeError.

(** [arrow::MakeArrayFromScalar(ScalarType(0), length)] *)
Definition MakeArray (t : CType) (len : nat) : StM Store Z := fun s =>
  Some (mkStore (<[next s := mkArray t (replicate len 0)]> (arrays s)) (next s + 1), inr (next s)).

(** [ExecuteBlock(is_result, scalar, op, left_col, right_col)] *)
Definition ExecuteBlockResult (fresh : bool) (t : CType) (op left_col right_col : Z) : StM Store Z :=
  if fresh then
    s ← get;
    l ← defined (arrays s !! left_col);
    result ← MakeArray t (length (array_data l));
    ExecuteBlock t op result left_col right_col
  else ExecuteBlock t op left_col left_col right_col.

(** One element of the postfix expression; the top of the stack is the head. *)
Definition eval_item (chunk_id : nat) (item : ExprElem) (stack : list OpElem) : StM Store (list OpElem) :=
  if is_column (ee_op item) then
    col ← defined (ee_col item);
    c ← defined (col !! chunk_id);
    mret (mkOpElem false c :: stack)
  else
    match stack with
    | right_op :: left_op :: stack' =>
        s ← get;
        l ← defined (arrays s !! chunk left_op);
        r ← defined (arrays s !! chunk right_op);
        if decide (array_type l = array_type r) then
          result ← ExecuteBlockResult (negb (is_result left_op) && negb (is_result right_op)) (array_type l) (ee_op item)
                     (chunk left_op) (chunk right_op);
          mret (mkOpElem true result :: stack')
        else throw RuntimeError
    | _ => defined None
    end.

Fixpoint eval_items (chunk_id : nat) (items : list ExprElem) (stack : list OpElem) : StM Store (list OpElem) :=
  match items with
  | [] => mret stack
  | item :: items' => stack ← eval_item chunk_id item stack; eval_items chunk_id items' stack
  end.

(** [Expression::Evaluate]: the address of the result. *)
Definition Evaluate (e : Expression) (chunk_id : nat) : StM Store Z :=
  stack ← eval_items chunk_id (postfix_expr_ e) [];
  match stack with
  | top :: _ => mret (chunk top)
  | [] => throw RuntimeError
  end.

End Expr.

Import Expr.

(** ** What an expression denotes *)

Module ExprSpec.

(** The exact integer that an operator means; a quotient is truncated. *)
Definition op_value (op x y v : Z) : Prop :=
  (op = TK_PLUS /\ v = x + y) \/ (op = TK_MINUS /\ v = x - y) \/ (op = TK_STAR /\ v = x * y) \/
  (op = TK_SLASH /\ exists r, x = y * v + r /\ Z.abs r < Z.abs y /\ 0 <= r * x).

Definition in_range (t : CType) (v : Z) : Prop :=
  if ctype_signed t then - 2 ^ (ctype_width t - 1) <= v < 2 ^ (ctype_width t - 1) else 0 <= v < 2 ^ ctype_width t.

(** [z] is the value of an operator at type [t]: the exact one, modulo the width
    of the type where C++ defines that.  A signed result must not overflow; types
    narrower than 32 bits are computed at 32. *)
Definition typed_value (t : CType) (op x y z : Z) : Prop :=
  exists v, op_value op x y v /\ in_range t z /\ (exists q, v = z + q * 2 ^ ctype_width t) /\
    (ctype_width t < 32 -> - 2 ^ 31 <= v < 2 ^ 31) /\ (32 <= ctype_width t -> ctype_signed t = true -> v = z).

Lemma op_value_slash x y v : op_value TK_SLASH x y v -> y <> 0 /\ v = Z.quot x y.
Proof.
  intros [[[=] _] | [[[=] _] | [[[=] _] | (_ & r & E & Hr & Hs)]]]. split; [lia |].
  apply (Zquot_unique_full x y v r); [| lia]. unfold Zquot.Remainder. destruct (Z.lt_trichotomy x 0) as [Hx | [-> | Hx]]; [right; assert (r <= 0) by nia; lia | | left; assert (0 <= r) by nia; lia].
  destruct (Z.eq_dec v 0) as [-> | Hv]; [lia |]. exfalso.
  assert (Z.abs y * 1 <= Z.abs y * Z.abs v) as Hm by (apply Z.mul_le_mono_nonneg_l; lia).
  rewrite <- Z.abs_mul in Hm. replace (y * v) with (- r) in Hm by lia. lia.
Qed.

Lemma wrap_range t z q : in_range t z -> to_ctype t (z + q * 2 ^ ctype_width t) = z.
Proof.
  unfold in_range, to_ctype. destruct (ctype_signed t); intros H.
  - assert (0 < ctype_width t) as Hw.
    { destruct (Z.lt_ge_cases 0 (ctype_width t)); [done |]. rewrite (Z.pow_neg_r 2 (ctype_width t - 1)) in H by lia. lia. }
    unfold wraps. replace (z + q * 2 ^ ctype_width t + 2 ^ (ctype_width t - 1)) with (z + 2 ^ (ctype_width t - 1) + q * 2 ^ ctype_width t) by lia.
    rewrite Z_mod_plus_full. by apply (wraps_id (ctype_width t) z).
  - unfold wrapu. rewrite Z_mod_plus_full. by apply Z.mod_small.
Qed.

(** The code computes the value. *)
Lemma arith_ok t op x y z : typed_value t op x y z -> arith t op x y = Some z.
Proof.
  intros (v & Hv & Hz & (q & Eq) & Hn & Hs). unfold arith.
  assert ((if op =? TK_PLUS then Some (x + y) else if op =? TK_MINUS then Some (x - y)
           else if op =? TK_SLASH then if y =? 0 then None else Some (Z.quot x y) else Some (x * y)) = Some v) as ->.
  { pose proof Hv as Hv'. destruct Hv as [[-> ->] | [[-> ->] | [[-> ->] | [-> _]]]]; [done | done | done |].
    apply op_value_slash in Hv' as [Hy ->]. cbn. by rewrite (proj2 (Z.eqb_neq y 0)). }
  cbn [mbind option_bind]. unfold in_ctype, promoted. destruct (Z.ltb_spec (ctype_width t) 32) as [Hw | Hw]; cbn [ctype_signed ctype_width].
  - specialize (Hn Hw). change (2 ^ (32 - 1)) with (2 ^ 31). rewrite (proj2 (Z.leb_le _ _)), (proj2 (Z.ltb_lt _ _)) by lia. cbn.
    f_equal. rewrite Eq. by apply wrap_range.
  - destruct (ctype_signed t) eqn:Et.
    + rewrite <- (Hs Hw eq_refl) in *. unfold in_range in Hz. rewrite Et in Hz. rewrite (proj2 (Z.leb_le _ _)), (proj2 (Z.ltb_lt _ _)) by lia. cbn.
      f_equal. pose proof (wrap_range t v 0) as HW. rewrite Z.mul_0_l, Z.add_0_r in HW. apply HW. unfold in_range. by rewrite Et.
    + cbn. f_equal. unfold to_ctype. rewrite Et. pose proof (wrap_range t z q Hz) as HW. unfold to_ctype in HW. rewrite Et in HW. rewrite Eq, HW.
      unfold in_range in Hz. rewrite Et in Hz. by apply wrapu_id.
Qed.

Definition arith_rows (t : CType) (op : Z) (xs ys : list Z) : option (list Z) :=
  if decide (length xs = length ys) then mapM (fun xy => arith t op (fst xy) (snd xy)) (zip xs ys) else None.

Definition leaf (e : ExprReference) : bool := match e with Expr op NullExpr NullExpr _ => is_column op | _ => false end.

(** Every operator has its two operands, and none has a column on its left and
    the result of an operator on its right. *)
Fixpoint safe (e : ExprReference) : Prop :=
  match e with
  | NullExpr => False
  | Expr op l r _ =>
      if leaf e then True
      else is_operator op = true /\ safe l /\ safe r /\ (leaf l = true -> leaf r = true)
  end.

Section Denote.
Context (columns : ColumnReference -> option (list Z)) (chunk_id : nat).

(** The values of the expression on the rows of the chunk. *)
Fixpoint denote (arrs : gmap Z Array) (e : ExprReference) : option (CType * list Z) :=
  match e with
  | NullExpr => None
  | Expr op l r column_ref =>
      if leaf e then
        cr ← column_ref;
        column ← columns cr;
        a ← column !! chunk_id;
        arr ← arrs !! a;
        Some (array_type arr, array_data arr)
      else
        '(t, xs) ← denote arrs l;
        '(t', ys) ← denote arrs r;
        if decide (t = t') then vs ← arith_rows t op xs ys; Some (t, vs) else None
  end.

(** What an expression means on the rows of the chunk, by the exact arithmetic. *)
Inductive means (arrs : gmap Z Array) : ExprReference -> CType -> list Z -> Prop :=
| means_column op cr column a arr : leaf (Expr op NullExpr NullExpr (Some cr)) = true -> columns cr = Some column -> column !! chunk_id = Some a ->
    arrs !! a = Some arr -> means arrs (Expr op NullExpr NullExpr (Some cr)) (array_type arr) (array_data arr)
| means_operator op l r cr t xs ys zs : leaf (Expr op l r cr) = false -> means arrs l t xs -> means arrs r t ys ->
    Forall3 (typed_value t op) xs ys zs -> means arrs (Expr op l r cr) t zs.

Lemma arith_rows_ok t op xs ys zs : Forall3 (typed_value t op) xs ys zs -> arith_rows t op xs ys = Some zs.
Proof.
  intros HF. unfold arith_rows. assert (length xs = length ys) as Hl by (induction HF; cbn; congruence). rewrite decide_True by done. clear Hl.
  induction HF as [|x y z xs ys zs H _ IH]; [done |]. cbn [zip zip_with mapM fst snd]. by rewrite (arith_ok _ _ _ _ _ H), IH.
Qed.

Lemma means_denote arrs e t vs : means arrs e t vs -> denote arrs e = Some (t, vs).
Proof.
  induction 1 as [op cr column a arr Hl Ec Ea Er | op l r cr t xs ys zs Hl _ IHl _ IHr HF]; cbn [denote]; rewrite Hl.
  - cbn [mbind option_bind]. rewrite Ec. cbn [mbind option_bind]. rewrite Ea. cbn [mbind option_bind]. by rewrite Er.
  - rewrite IHl. cbn [mbind option_bind]. rewrite IHr. cbn [mbind option_bind]. rewrite decide_True by done. by rewrite (arith_rows_ok _ _ _ _ _ HF).
Qed.

Fixpoint postfix (e : ExprReference) : list ExprElem :=
  match e with
  | NullExpr => []
  | Expr op l r column_ref =>
      postfix l ++ postfix r ++ [mkExprElem op (if is_column op then cr ← column_ref; columns cr else None)]
  end.

Fixpoint max_chunks (e : ExprReference) : Z :=
  match e with
  | NullExpr => 0
  | Expr op l r column_ref =>
      Z.max (Z.max (max_chunks l) (max_chunks r))
        (if is_column op then match column_ref ≫= columns with Some c => Z.of_nat (length c) | None => 0 end else 0)
  end.

Lemma leaf_inv op l r c : leaf (Expr op l r c) = true -> l = NullExpr /\ r = NullExpr /\ is_column op = true.
Proof. destruct l, r; done. Qed.

Lemma operator_not_column op : is_operator op = true -> is_column op = false.
Proof.
  unfold is_operator, is_column, TK_PLUS, TK_MINUS, TK_SLASH, TK_STAR, TK_COLUMN, TK_AGG_COLUMN. intros H.
  destruct (Z.eqb_spec op 164), (Z.eqb_spec op 166); subst; done.
Qed.

Lemma max_chunks_nonneg e : 0 <= max_chunks e.
Proof. induction e as [|op l IHl r IHr c]; cbn; lia. Qed.

(** The first phase produces the postfix form. *)
Lemma ConvertPostfix_ok arrs e : safe e -> forall t vs e0, denote arrs e = Some (t, vs) -> 0 <= exp_num_chunks_ e0 ->
  ConvertPostfix columns e e0 = Some (mkExpression (postfix_expr_ e0 ++ postfix e) (Z.max (exp_num_chunks_ e0) (max_chunks e))).
Proof.
  induction e as [|op l IHl r IHr cr]; intros HS t vs e0 HD H0; [done |]. cbn [safe denote] in HS, HD.
  destruct (leaf (Expr op l r cr)) eqn:El.
  - apply leaf_inv in El as (-> & -> & Eo). cbn. rewrite Eo. destruct cr as [cr|]; [| done]. cbn in HD |- *.
    destruct (columns cr) as [c|]; [| done]. cbn. do 2 f_equal. lia.
  - destruct HS as (Hop & Sl & Sr & _). destruct (denote arrs l) as [[t1 xs]|] eqn:Dl; [| done]. cbn [mbind option_bind] in HD.
    destruct (denote arrs r) as [[t2 ys]|] eqn:Dr; [| done]. cbn [ConvertPostfix].
    rewrite (IHl Sl t1 xs e0) by done. cbn [mbind option_bind]. pose proof (max_chunks_nonneg l).
    rewrite (IHr Sr t2 ys) by (cbn [exp_num_chunks_]; done || lia). cbn [mbind option_bind]. cbn [postfix max_chunks].
    rewrite (operator_not_column op Hop). cbn [postfix_expr_ exp_num_chunks_]. rewrite <- !app_assoc. do 2 f_equal. pose proof (max_chunks_nonneg r). lia.
Qed.

(** ** The stack *)

Definition store_ok (s : Store) : Prop := forall a, is_Some (arrays s !! a) -> a < next s.

(** Nothing that was allocated before has changed. *)
Definition frame (s s' : Store) : Prop := next s <= next s' /\ forall a, is_Some (arrays s !! a) -> arrays s' !! a = arrays s !! a.

Lemma store_frame_refl s : frame s s.
Proof. split; [lia | done]. Qed.

Lemma store_frame_trans s1 s2 s3 : frame s1 s2 -> frame s2 s3 -> frame s1 s3.
Proof. intros [N1 F1] [N2 F2]. split; [lia |]. intros a Ha. rewrite F2; [by apply F1 |]. by rewrite F1. Qed.

Lemma denote_frame s s' e x : frame s s' -> denote (arrays s) e = Some x -> denote (arrays s') e = Some x.
Proof.
  intros HF. revert x. induction e as [|op l IHl r IHr cr]; intros x; cbn [denote]; [done |]. destruct (leaf _).
  - destruct (cr ≫= columns) as [c|] eqn:Ec; destruct cr as [cr|]; cbn in *; try done; rewrite Ec; cbn; [| done].
    destruct (c !! chunk_id) as [a|]; cbn; [| done]. destruct (arrays s !! a) as [arr|] eqn:Ea; cbn; [| done].
    destruct HF as [_ HF]. rewrite HF, Ea by done. done.
  - destruct (denote (arrays s) l) as [[t1 xs]|]; [| done]. rewrite (IHl _ eq_refl). cbn [mbind option_bind].
    destruct (denote (arrays s) r) as [[t2 ys]|]; [| done]. by rewrite (IHr _ eq_refl).
Qed.

Lemma write_rows_ok t op res lc rc xs ys vs : res <> rc -> length xs = length ys ->
  mapM (fun xy => arith t op (fst xy) (snd xy)) (zip xs ys) = Some vs ->
  forall n row arrs t1 t2 la out, (n + row = length xs)%nat -> arrs !! rc = Some (mkArray t1 ys) ->
  arrs !! lc = Some la -> drop row (array_data la) = drop row xs ->
  arrs !! res = Some (mkArray t2 out) -> length out = length xs -> take row out = take row vs ->
  write_rows n row t op res lc rc arrs = Some (<[res := mkArray t2 vs]> arrs).
Proof.
  intros Hne Hlen Hm. pose proof (length_mapM _ _ _ Hm) as Hlv. rewrite length_zip_with in Hlv.
  induction n as [|n IH]; intros row arrs t1 t2 la out Hn Hr Hl Hd Hres Hout Ht; cbn [write_rows].
  { f_equal. symmetry. rewrite (take_ge out), (take_ge vs) in Ht by lia. subst out. by apply insert_id. }
  destruct (lookup_lt_is_Some_2 xs row) as [x Ex]; [lia |]. destruct (lookup_lt_is_Some_2 ys row) as [y Ey]; [lia |].
  destruct (lookup_lt_is_Some_2 vs row) as [v Ev]; [lia |].
  assert (arith t op x y = Some v) as Ea.
  { apply mapM_Some in Hm. assert (zip xs ys !! row = Some (x, y)) as Ez by (apply lookup_zip_with_Some; eauto).
    apply (Forall2_lookup_lr _ _ _ _ _ _ Hm Ez Ev). }
  assert (array_data la !! row = Some x) as Ela.
  { rewrite <- (Nat.add_0_r row), <- lookup_drop, Hd, lookup_drop, Nat.add_0_r. done. }
  unfold write_row. rewrite Hl. cbn [mbind option_bind]. rewrite Hr. cbn [mbind option_bind array_data]. rewrite Ela. cbn [mbind option_bind].
  rewrite Ey. cbn [mbind option_bind]. rewrite Ea. cbn [mbind option_bind]. rewrite Hres. cbn [mbind option_bind array_data array_type].
  rewrite (proj2 (Nat.ltb_lt _ _)) by lia. cbn [mbind option_bind].
  rewrite (IH (S row) _ t1 t2 (if decide (lc = res) then mkArray t2 (<[row := v]> out) else la) (<[row := v]> out)).
  - by rewrite insert_insert_eq.
  - lia.
  - by rewrite lookup_insert_ne.
  - destruct (decide (lc = res)) as [-> | Hlr]; [by rewrite lookup_insert_eq | by rewrite lookup_insert_ne].
  - assert (drop (S row) (array_data la) = drop (S row) xs) as HdS by (rewrite <- Nat.add_1_r, <- !drop_drop, Hd; done).
    destruct (decide (lc = res)) as [-> | Hlr]; [| done]. cbn [array_data]. rewrite drop_insert_lt by lia.
    rewrite Hres in Hl. injection Hl as <-. done.
  - by rewrite lookup_insert_eq.
  - by rewrite length_insert.
  - rewrite (take_S_r _ _ v) by (rewrite list_lookup_insert_eq by lia; done). rewrite (take_S_r vs _ v Ev). f_equal.
    rewrite take_insert_ge by lia. done.
Qed.

(** An operator on two arrays of equal type, with the result in [res]. *)
Lemma binary_block_ok t op res lc rc t2 xs ys vs out s : is_operator op = true -> res <> rc -> arith_rows t op xs ys = Some vs ->
  arrays s !! lc = Some (mkArray t xs) -> arrays s !! rc = Some (mkArray t ys) ->
  arrays s !! res = Some (mkArray t2 out) -> length out = length xs ->
  ExecuteBlock t op res lc rc s = Some (mkStore (<[res := mkArray t2 vs]> (arrays s)) (next s), inr res).
Proof.
  intros Hop Hne Hv Hl Hr Hres Hout. unfold arith_rows in Hv. destruct (decide (length xs = length ys)) as [Hlen|]; [| done].
  unfold ExecuteBlock. mstep. erewrite bind_defined by exact Hl. erewrite bind_defined by exact Hr. cbn [array_data]. rewrite Hop.
  erewrite bind_defined; [rewrite bind_modify; reflexivity |].
  eapply write_rows_ok; [done | exact Hlen | exact Hv | lia | exact Hr | exact Hl | done | exact Hres | done | done].
Qed.

(** Two columns: the result is a new array. *)
Lemma fresh_result_ok t op al ar xs ys vs s : is_operator op = true -> store_ok s -> arith_rows t op xs ys = Some vs ->
  arrays s !! al = Some (mkArray t xs) -> arrays s !! ar = Some (mkArray t ys) ->
  exists s' res, ExecuteBlockResult true t op al ar s = Some (s', inr res) /\ store_ok s' /\ frame s s' /\
    arrays s' !! res = Some (mkArray t vs) /\ next s <= res.
Proof.
  intros Hop Hok Hv Hl Hr. unfold ExecuteBlockResult. mstep. erewrite bind_defined by exact Hl. cbn [array_data].
  assert (next s <> ar) as Hnar by (intros <-; specialize (Hok (next s)); rewrite Hr in Hok; specialize (Hok ltac:(done)); lia).
  assert (next s <> al) as Hnal by (intros <-; specialize (Hok (next s)); rewrite Hl in Hok; specialize (Hok ltac:(done)); lia).
  erewrite bind_val by reflexivity. match goal with |- context [ExecuteBlock _ _ _ _ _ ?st] => set (s1 := st) end.
  rewrite (binary_block_ok t op (next s) al ar t xs ys vs (replicate (length xs) 0) s1); try done.
  2: { cbn. by rewrite lookup_insert_ne. } 2: { cbn. by rewrite lookup_insert_ne. } 2: { cbn. by rewrite lookup_insert_eq. }
  2: { by rewrite length_replicate. }
  eexists _, _. split; [reflexivity |]. unfold store_ok, frame. cbn [arrays next s1]. rewrite insert_insert_eq. split_and!.
  - intros b Hb. destruct (decide (b = next s)) as [-> | Hne]; [lia |]. rewrite lookup_insert_ne in Hb by done. specialize (Hok b Hb). lia.
  - lia.
  - intros b Hb. by rewrite lookup_insert_ne by (intros <-; specialize (Hok _ Hb); lia).
  - by rewrite lookup_insert_eq.
  - lia.
Qed.

(** Otherwise the result replaces the left operand. *)
Lemma in_place_ok t op al ar xs ys vs s : is_operator op = true -> store_ok s -> arith_rows t op xs ys = Some vs -> al <> ar ->
  arrays s !! al = Some (mkArray t xs) -> arrays s !! ar = Some (mkArray t ys) ->
  exists s', ExecuteBlockResult false t op al ar s = Some (s', inr al) /\ store_ok s' /\ arrays s' !! al = Some (mkArray t vs) /\
    next s' = next s /\ forall b, b <> al -> arrays s' !! b = arrays s !! b.
Proof.
  intros Hop Hok Hv Hne Hl Hr. unfold ExecuteBlockResult. rewrite (binary_block_ok t op al al ar t xs ys vs xs s) by done.
  eexists. split; [reflexivity |]. unfold store_ok. cbn [arrays next]. split_and!.
  - intros b Hb. destruct (decide (b = al)) as [-> | Hn]; [apply Hok; by rewrite Hl |]. rewrite lookup_insert_ne in Hb by done. by apply Hok.
  - by rewrite lookup_insert_eq.
  - done.
  - intros b Hb. by rewrite lookup_insert_ne.
Qed.

Lemma eval_items_app a b stack : forall s, eval_items chunk_id (a ++ b) stack s = (eval_items chunk_id a stack ≫= eval_items chunk_id b) s.
Proof.
  revert stack. induction a as [|x a IH]; intros stack s; [done |]. cbn [app eval_items]. unfold mbind, StM_bind.
  destruct (eval_item chunk_id x stack s) as [[s' [e | st]]|]; [done | | done]. by rewrite IH.
Qed.

Definition leaf_addr (e : ExprReference) : option Z :=
  match e with Expr _ _ _ (Some cr) => c ← columns cr; c !! chunk_id | _ => None end.

(** The chunk of a column is as old as the store it is read from. *)
Lemma leaf_addr_old arrs e a x : leaf e = true -> leaf_addr e = Some a -> denote arrs e = Some x -> is_Some (arrs !! a).
Proof.
  destruct e as [|op l r cr]; [done |]. intros Hl Ha. cbn [denote]. rewrite Hl. destruct cr as [cr|]; [| done]. cbn [leaf_addr] in Ha.
  cbn [mbind option_bind] in *. destruct (columns cr) as [c|]; [| done]. cbn [mbind option_bind] in *. rewrite Ha. cbn [mbind option_bind].
  by destruct (arrs !! a).
Qed.

(** A safe expression leaves its value on the stack: the array of its column or
    a new one; everything older is unchanged. *)
Lemma eval_items_ok e : safe e -> forall s stack t vs, store_ok s -> denote (arrays s) e = Some (t, vs) ->
  exists s' a, eval_items chunk_id (postfix e) stack s = Some (s', inr (mkOpElem (negb (leaf e)) a :: stack)) /\
    store_ok s' /\ frame s s' /\ arrays s' !! a = Some (mkArray t vs) /\ (leaf e = false -> next s <= a) /\
    (leaf e = true -> leaf_addr e = Some a).
Proof.
  induction e as [|op l IHl r IHr cr]; intros HS s stack t vs Hok HD; [done |]. cbn [safe denote] in HS, HD. cbn [postfix].
  destruct (leaf (Expr op l r cr)) eqn:El.
  - apply leaf_inv in El as (-> & -> & Eo). cbn [postfix app eval_items]. rewrite Eo. unfold eval_item. cbn [ee_op ee_col]. rewrite Eo.
    destruct cr as [cr|]; [| done]. cbn [mbind option_bind] in HD |- *. destruct (columns cr) as [c|] eqn:Ecr; [| done]. cbn [mbind option_bind] in HD.
    destruct (c !! chunk_id) as [a|] eqn:Ec; [| done]. cbn [mbind option_bind] in HD.
    destruct (arrays s !! a) as [arr|] eqn:Ea; [| done]. injection HD as <- <-. exists s, a. split_and!.
    + unfold mbind, StM_bind, defined. cbn. rewrite Ec. done.
    + done.
    + apply store_frame_refl.
    + by destruct arr.
    + done.
    + intros _. cbn [leaf_addr mbind option_bind]. by rewrite Ecr.
  - destruct HS as (Hop & Sl & Sr & Hlr). destruct (denote (arrays s) l) as [[t1 xs]|] eqn:Dl; [| done]. cbn [mbind option_bind] in HD.
    destruct (denote (arrays s) r) as [[t2 ys]|] eqn:Dr; [| done]. cbn [mbind option_bind] in HD.
    destruct (decide (t1 = t2)) as [<- |]; [| done]. destruct (arith_rows t1 op xs ys) as [vs'|] eqn:Ev; [| done]. injection HD as <- <-.
    destruct (IHl Sl s stack t1 xs Hok Dl) as (s1 & al & E1 & Ok1 & F1 & A1 & N1 & _).
    destruct (IHr Sr s1 (mkOpElem (negb (leaf l)) al :: stack) t1 ys Ok1) as (s2 & ar & E2 & Ok2 & F2 & A2 & N2 & L2);
      [by eapply denote_frame |].
    assert (arrays s2 !! al = Some (mkArray t1 xs)) as A1' by (destruct F2 as [_ F2]; by rewrite F2, A1).
    rewrite eval_items_app. erewrite bind_val by exact E1. rewrite eval_items_app. erewrite bind_val by exact E2.
    rewrite (operator_not_column op Hop). cbn [eval_items]. unfold eval_item. cbn [ee_op]. rewrite (operator_not_column op Hop).
    cbn [chunk is_result].
    assert (next s <= next s2) as Hn by (destruct F1, F2; lia). pose proof (store_frame_trans s s1 s2 F1 F2) as [_ F12].
    assert (exists s3 res, ExecuteBlockResult (negb (negb (leaf l)) && negb (negb (leaf r))) t1 op al ar s2 = Some (s3, inr res) /\
      store_ok s3 /\ frame s s3 /\ arrays s3 !! res = Some (mkArray t1 vs') /\ next s <= res) as (s3 & res & E3 & Ok3 & F3 & A3 & N3).
    { rewrite !negb_involutive. destruct (leaf l) eqn:Ll.
      - rewrite Hlr by done. cbn [andb]. destruct (fresh_result_ok t1 op al ar xs ys vs' s2) as (s3 & res & E3 & Ok3 & F3 & A3 & N3); try done.
        exists s3, res. split_and!; try done; [eapply store_frame_trans; [split; [exact Hn | exact F12] | done] | lia].
      - cbn [andb]. specialize (N1 eq_refl). assert (al <> ar) as Hne.
        { intros <-. destruct (leaf r) eqn:Lr.
          - destruct (leaf_addr_old (arrays s) r al (t1, ys)) as [arr Ha]; [done | by apply L2 | done |].
            specialize (Hok al). rewrite Ha in Hok. specialize (Hok ltac:(done)). lia.
          - specialize (N2 eq_refl). assert (al < next s1) by (apply Ok1; by rewrite A1). lia. }
        destruct (in_place_ok t1 op al ar xs ys vs' s2) as (s3 & E3 & Ok3 & A3 & N3 & K3); try done.
        exists s3, al. split_and!; try done. split; [lia |]. intros b Hb. rewrite K3 by (intros ->; specialize (Hok _ Hb); lia). by apply F12. }
    exists s3, res. split_and!; try done. unfold mbind at 1, StM_bind at 1. mstep. erewrite bind_defined by exact A1'. erewrite bind_defined by exact A2. cbn [array_type].
    rewrite decide_True by done. erewrite bind_val by exact E3. done.
Qed.

End Denote.

End ExprSpec.

Import ExprSpec.

(** C19: an expression in which no operator has a column on its left and an
    operator on its right evaluates, on every chunk, to the values that it means
    row by row (sums, differences, products and truncated quotients of integers,
    modulo the width of unsigned and of narrow columns; no signed value may
    overflow and no divisor be zero), and changes no array that existed before; the arrays that the
    operators reuse for their results are their own. *)
Theorem expression_correct columns chunk_id e s t vs :
  safe e -> store_ok s -> means columns chunk_id (arrays s) e t vs ->
  exists x s' a, Initialize columns e = Some (inr x) /\ exp_num_chunks_ x = max_chunks columns e /\
    Evaluate x chunk_id s = Some (s', inr a) /\ arrays s' !! a = Some (mkArray t vs) /\ frame s s'.
Proof.
  intros HS Hok HD%means_denote. pose proof (ConvertPostfix_ok columns chunk_id (arrays s) e HS t vs (mkExpression [] 0) HD ltac:(done)) as E.
  destruct (eval_items_ok columns chunk_id e HS s [] t vs Hok HD) as (s' & a & Ev & _ & F & A & _).
  eexists _, s', a. split_and!; [| | | exact A | exact F].
  - unfold Initialize. rewrite E. by destruct e.
  - cbn [exp_num_chunks_]. pose proof (max_chunks_nonneg columns e). lia.
  - unfold Evaluate. cbn [postfix_expr_ app]. erewrite bind_val by exact Ev. done.
Qed.

(** ** Examples *)

Module ExprDemo.

Definition int64 : CType := mkCType true 64.
Definition col (name : string) : ExprReference := Expr TK_COLUMN NullExpr NullExpr (Some (mkColumnReference 1 name)).
Definition demo_columns (cr : ColumnReference) : option (list Z) :=
  if String.eqb (col_name cr) "a" then Some [0] else if String.eqb (col_name cr) "b" then Some [1] else Some [2].
Definition demo_store : Store :=
  mkStore (<[0 := mkArray int64 [1; 2]]> (<[1 := mkArray int64 [10; 20]]> (<[2 := mkArray int64 [3; 5]]> ∅))) 3.

(** (a + b) * c *)
Definition sum_first : ExprReference := Expr TK_STAR (Expr TK_PLUS (col "a") (col "b") None) (col "c") None.
(** a + b * c *)
Definition product_first : ExprReference := Expr TK_PLUS (col "a") (Expr TK_STAR (col "b") (col "c") None) None.

Lemma demo_store_ok : store_ok demo_store.
Proof.
  intros a [x Hx]. unfold demo_store in *. cbn [arrays next] in *.
  repeat (apply lookup_insert_Some in Hx as [[<- _] | [_ Hx]]; [lia |]). by rewrite lookup_empty in Hx.
Qed.

Lemma demo_column name a vs : demo_columns (mkColumnReference 1 name) = Some [a] -> arrays demo_store !! a = Some (mkArray int64 vs) ->
  means demo_columns 0 (arrays demo_store) (col name) int64 vs.
Proof. intros Ec Ea. by apply (means_column demo_columns 0 (arrays demo_store) TK_COLUMN _ [a] a (mkArray int64 vs)). Qed.

Lemma demo_value op x y z : op_value op x y z -> - 2 ^ 63 <= z < 2 ^ 63 -> typed_value int64 op x y z.
Proof. intros Hv Hz. exists z. split_and!; [done | exact Hz | exists 0; lia | cbn; lia | done]. Qed.

Lemma demo_means : means demo_columns 0 (arrays demo_store) sum_first int64 [33; 110].
Proof.
  apply (means_operator _ _ _ _ _ _ _ _ [11; 22] [3; 5]); [done | | by eapply demo_column |].
  - apply (means_operator _ _ _ _ _ _ _ _ [1; 2] [10; 20]); [done | by eapply demo_column | by eapply demo_column |].
    repeat constructor; (apply demo_value; [by left | lia]).
  - repeat constructor; (apply demo_value; [right; right; by left | lia]).
Qed.

End ExprDemo.

Import ExprDemo.

Lemma expression_correct_witness :
  exists x s' a, Initialize demo_columns sum_first = Some (inr x) /\ Evaluate x 0 demo_store = Some (s', inr a) /\
    arrays s' !! a = Some (mkArray int64 [33; 110]) /\ frame demo_store s'.
Proof.
  destruct (expression_correct demo_columns 0 sum_first demo_store int64 [33; 110]) as (x & s' & a & E1 & _ & E2 & E3 & E4).
  - repeat split; done.
  - apply demo_store_ok.
  - apply demo_means.
  - exists x, s', a. split_and!; [exact E1 | exact E2 | exact E3 | exact E4].
Defined.

(** In [a + b * c] the right operand is a result and the left one a column:
    the sum is written into the column itself.  With a = 1, 2, b = 10, 20 and
    c = 3, 5 the first evaluation gives 31, 102 and leaves these values in the
    column a of the table; evaluating the same expression again gives 61, 202. *)
Theorem expression_overwrites_column :
  exists x s1 s2, Initialize demo_columns product_first = Some (inr x) /\
    Evaluate x 0 demo_store = Some (s1, inr 0) /\ arrays demo_store !! 0 = Some (mkArray int64 [1; 2]) /\
    arrays s1 !! 0 = Some (mkArray int64 [31; 102]) /\
    Evaluate x 0 s1 = Some (s2, inr 0) /\ arrays s2 !! 0 = Some (mkArray int64 [61; 202]).
Proof. eexists _, _, _. split_and!; vm_compute; reflexivity. Qed.
