(* ===== verification/Lip.v ===== *)
(** * Lookahead information passing (operators/join/lip, operators/join/join_graph)

    LIP filters the rows of a fact table before it is joined with its dimension
    tables: a Bloom filter is built on the key of every dimension, and the foreign
    keys of the fact table are probed with all of them.  The chunks of the fact
    table are probed in batches; after every batch the filters are sorted by the
    share of keys that passed them.  The tasks of one filter and batch may run in
    any order, which is an argument, and so is [std::sort].  [None] is undefined
    behaviour. *)

From Stdlib Require Import ZArith Lia SpecFloat.
From stdpp Require Import base numbers list gmap option strings.
Import stdpp.list_basics.list stdpp.list_relations.list stdpp.list_monad.list.
From S2P Require Import Prelude Bloom Columns HashJoin.
Import Hist BF BloomBits WindowSpec Columns ColumnsProof Lazy Join JoinSpec.

Local Open Scope Z_scope.

Module Graph.

(** The predicates by the table on their left. *)
Record JoinGraph := mkJoinGraph { adj_ : list (list JoinPredicate); tables_ : list Z; num_predicates_ : Z }.

Definition left_table (group : list JoinPredicate) : option Z :=
  p ← head group;
  Some (cr_table (left_col_ p)).

Fixpoint add_groups (groups : list (list JoinPredicate)) (first_size : Z) (g : JoinGraph) : option JoinGraph :=
  match groups with
  | [] => Some g
  | group :: groups' =>
      t ← left_table group;
      add_groups groups' first_size
        (mkJoinGraph (adj_ g ++ [group]) (tables_ g ++ [t]) (to_u64 (num_predicates_ g + first_size)))
  end.

(** The constructor counts the size of the first group for every group. *)
Definition newJoinGraph (groups : list (list JoinPredicate)) : option JoinGraph :=
  add_groups groups (Z.of_nat (length (default [] (head groups)))) (mkJoinGraph [] [] 0).

(** [it - tables_.end()] is a negative index for a table that is found. *)
Definition distance_from_end (t : Z) (tables : list Z) : Z :=
  match list_find (fun x => x = t) tables with
  | Some (i, _) => Z.of_nat i - Z.of_nat (length tables)
  | None => 0
  end.

Definition insert (group : list JoinPredicate) (g : JoinGraph) : option JoinGraph :=
  t ← left_table group;
  let n := to_u64 (num_predicates_ g + Z.of_nat (length group)) in
  if bool_decide (t ∈ tables_ g) then
    let i := distance_from_end t (tables_ g) in
    if i <? 0 then None else
    a ← adj_ g !! Z.to_nat i;
    Some (mkJoinGraph (<[Z.to_nat i := a ++ group]> (adj_ g)) (tables_ g) n)
  else Some (mkJoinGraph (adj_ g ++ [group]) (tables_ g ++ [t]) n).

Definition get_predicates (g : JoinGraph) (i : nat) : option (list JoinPredicate) := adj_ g !! i.

(** [get_predicates(table)] *)
Definition get_table_predicates (g : JoinGraph) (t : Z) : option (list JoinPredicate) :=
  let i := distance_from_end t (tables_ g) in
  if i <? 0 then None else adj_ g !! Z.to_nat i.

(** [find_table]: whether the table is in the graph. *)
Definition find_table (g : JoinGraph) (t : Z) : bool := bool_decide (t ∈ tables_ g).

(** A second group of a table cannot be inserted. *)
Lemma insert_known_table group g t : left_table group = Some t -> t ∈ tables_ g -> insert group g = None.
Proof.
  intros Et Ht. unfold insert. rewrite Et. cbn [mbind option_bind].
  rewrite bool_decide_true by done. unfold distance_from_end. destruct (list_find _ (tables_ g)) as [[i x]|] eqn:E.
  - apply list_find_Some in E as (E & _). apply lookup_lt_Some in E. by rewrite (proj2 (Z.ltb_lt _ _)) by lia.
  - apply list_find_None in E. rewrite Forall_forall in E. by apply E in Ht.
Qed.

End Graph.

(** ** The tasks that build the filters

    Every dimension has a chain of two tasks: the first puts its key column into
    the map [dim_pk_cols_] under the name of the column, the second takes it from
    there and builds the filter.  The chains of different dimensions interleave,
    and share the map. *)

Module Keys.

Inductive BuildTask := LoadColumn (i : nat) | BuildFilter (i : nat).

#[export] Instance BuildTask_eq_dec : EqDecision BuildTask.
Proof. solve_decision. Defined.

Record BuildState (F : Type) := mkBuild { dim_pk_cols_ : gmap string Chunks; filters_built : list (option F) }.
Arguments mkBuild {F}.
Arguments dim_pk_cols_ {F}.
Arguments filters_built {F}.

Section Tasks.
Context {F : Type} (dim_pk_col_names : list string) (load : nat -> string -> option Chunks) (build : nat -> Chunks -> option F).

Definition run_task (t : BuildTask) (st : BuildState F) : option (BuildState F) :=
  match t with
  | LoadColumn i =>
      name ← dim_pk_col_names !! i;
      c ← load i name;
      Some (mkBuild (<[name := c]> (dim_pk_cols_ st)) (filters_built st))
  | BuildFilter i =>
      name ← dim_pk_col_names !! i;
      c ← dim_pk_cols_ st !! name;
      f ← build i c;
      if decide (i < length (filters_built st))%nat then Some (mkBuild (dim_pk_cols_ st) (<[i := Some f]> (filters_built st))) else None
  end.

Fixpoint run_builds (tasks : list BuildTask) (st : BuildState F) : option (BuildState F) :=
  match tasks with
  | [] => Some st
  | t :: tasks' => st ← run_task t st; run_builds tasks' st
  end.

(** [n] filters, the tasks running in this order. *)
Definition build_all (n : nat) (tasks : list BuildTask) : option (list F) :=
  st ← run_builds tasks (mkBuild ∅ (replicate n None));
  mapM (fun f => f) (filters_built st).

End Tasks.

(** An order of the tasks: each runs once, the two of a chain in order. *)
Fixpoint loaded_first (seen : list nat) (tasks : list BuildTask) : bool :=
  match tasks with
  | [] => true
  | LoadColumn i :: tasks' => loaded_first (i :: seen) tasks'
  | BuildFilter i :: tasks' => bool_decide (i ∈ seen) && loaded_first seen tasks'
  end.

Definition task_order (n : nat) (tasks : list BuildTask) : Prop :=
  tasks ≡ₚ (LoadColumn <$> seq 0 n) ++ (BuildFilter <$> seq 0 n) /\ loaded_first [] tasks = true.

(** With different names for the key columns the chains do not disturb each other. *)
Section Order.
Context {F : Type} (names : list string) (load : nat -> string -> option Chunks) (build : nat -> Chunks -> option F).
Context (cols : list Chunks) (fs : list F).
Context (Hnames : NoDup names) (Hcols : length cols = length names) (Hfs : length fs = length names).
Context (Hload : forall i name c, names !! i = Some name -> cols !! i = Some c -> load i name = Some c).
Context (Hbuild : forall i c f, cols !! i = Some c -> fs !! i = Some f -> build i c = Some f).

Record building (seen built : list nat) (st : BuildState F) : Prop := {
  b_cols : forall i name c, i ∈ seen -> names !! i = Some name -> cols !! i = Some c -> dim_pk_cols_ st !! name = Some c;
  b_length : length (filters_built st) = length names;
  b_filters : forall i f, fs !! i = Some f -> i ∈ built -> filters_built st !! i = Some (Some f)
}.

Lemma run_builds_ok tasks : forall seen built st, building seen built st -> loaded_first seen tasks = true ->
  Forall (fun t => match t with LoadColumn i | BuildFilter i => (i < length names)%nat end) tasks ->
  exists st' seen' built', run_builds names load build tasks st = Some st' /\ building seen' built' st' /\
    (forall i, i ∈ built -> i ∈ built') /\ forall i, BuildFilter i ∈ tasks -> i ∈ built'.
Proof using Hnames Hcols Hfs Hload Hbuild.
  induction tasks as [| t tasks IH]; intros seen built st B HL HF.
  { exists st, seen, built. split_and!; [done | done | done |]. intros i Hi. by apply elem_of_nil in Hi. }
  apply Forall_cons in HF as [Ht HF]. destruct B as [B1 B2 B3]. destruct t as [i | i]; cbn [run_builds run_task loaded_first] in *;
    destruct (lookup_lt_is_Some_2 names i Ht) as [name En]; destruct (lookup_lt_is_Some_2 cols i) as [c Ec]; try lia;
    rewrite En; cbn [mbind option_bind].
  - rewrite (Hload i name c En Ec). cbn [mbind option_bind].
    destruct (IH (i :: seen) built (mkBuild (<[name := c]> (dim_pk_cols_ st)) (filters_built st))) as (st' & seen' & built' & E & B & H1 & H2);
      [constructor; cbn; [| done | done] | done | done |].
    + intros j name' c' Hj En' Ec'. destruct (decide (name' = name)) as [-> | Hne].
      * assert (j = i) as -> by (by eapply NoDup_lookup). rewrite lookup_insert_eq. congruence.
      * rewrite lookup_insert_ne by done. apply (B1 j); [| done | done]. apply elem_of_cons in Hj as [-> | ?]; [congruence | done].
    + exists st', seen', built'. split_and!; [done | done | done |]. intros j [Hj | Hj]%elem_of_cons; [done | auto].
  - apply andb_true_iff in HL as [Hs HL]. apply bool_decide_eq_true in Hs. destruct (lookup_lt_is_Some_2 fs i) as [f Ef]; [lia |].
    rewrite (B1 i name c Hs En Ec). cbn [mbind option_bind]. rewrite (Hbuild i c f Ec Ef). cbn [mbind option_bind]. rewrite decide_True by lia.
    cbn [mbind option_bind].
    destruct (IH seen (i :: built) (mkBuild (dim_pk_cols_ st) (<[i := Some f]> (filters_built st)))) as (st' & seen' & built' & E & B & H1 & H2);
      [constructor; cbn; [done | by rewrite length_insert |] | done | done |].
    + intros j f' Ej Hj. destruct (decide (j = i)) as [-> | Hne]; [rewrite list_lookup_insert_eq by lia; congruence |].
      rewrite list_lookup_insert_ne by done. apply B3; [done |]. by apply elem_of_cons in Hj as [-> | ?].
    + exists st', seen', built'. split_and!; [done | done | intros j Hj; apply H1; by right |].
      intros j [[= ->] | Hj]%elem_of_cons; [apply H1; left | auto].
Qed.

Lemma build_all_ok tasks : task_order (length names) tasks -> build_all names load build (length names) tasks = Some fs.
Proof using Hnames Hcols Hfs Hload Hbuild.
  intros [HP HL]. unfold build_all.
  destruct (run_builds_ok tasks [] [] (mkBuild ∅ (replicate (length names) None))) as (st & seen & built & -> & [_ Hl HB] & _ & Hall); [| done | |].
  - constructor; cbn; [intros i ? ? Hi; by apply elem_of_nil in Hi | apply length_replicate | intros i ? ? Hi; by apply elem_of_nil in Hi].
  - rewrite HP. apply Forall_app. split; apply Forall_fmap, Forall_forall; intros i Hi; apply elem_of_seq in Hi; cbn; lia.
  - cbn [mbind option_bind]. apply mapM_Some. apply Forall2_same_length_lookup_2; [lia |]. intros i o f Eo Ef.
    assert (i < length names)%nat as Hi by (rewrite <- Hfs; by eapply lookup_lt_Some).
    rewrite (HB i f Ef) in Eo; [by injection Eo as <- |]. apply Hall. rewrite HP, elem_of_app. right.
    apply list_elem_of_fmap. exists i. split; [done |]. apply elem_of_seq. lia.
Qed.

End Order.

End Keys.

Import Keys.

Module LIP.

Record LookupFilter := mkLookupFilter { bloom_filter : BloomFilter; hash_table : option HashTable }.

(** ** Build *)

(** [bloom_filter->insert(chunk->Value(k))] for the rows that pass the filter. *)
Fixpoint insert_rows (values : list Z) (k : Z) (bits : option (list Z)) (b : BloomFilter) : option BloomFilter :=
  match values with
  | [] => Some b
  | v :: values' =>
      ok ← passes bits k;
      b ← (if (ok : bool) then BF.insert bloom_index v b else Some b);
      insert_rows values' (k + 1) bits b
  end.

Fixpoint insert_chunks (pk_col : Chunks) (j : nat) (f : option Chunks) (b : BloomFilter) : option BloomFilter :=
  match pk_col with
  | [] => Some b
  | c :: pk_col' =>
      bits ← filter_chunk f j;
      b ← insert_rows c 0 bits b;
      insert_chunks pk_col' (S j) f b
  end.

(** [GetFilterOutputSize]: the number of bits set for the rows of a chunk. *)
Fixpoint output_size (values : list Z) (k : Z) (bits : option (list Z)) : option Z :=
  match values with
  | [] => Some 0
  | _ :: values' =>
      ok ← passes bits k;
      n ← output_size values' (k + 1) bits;
      Some (Z.b2z ok + n)
  end.

Fixpoint length_after_filtering (pk_col : Chunks) (j : nat) (f : option Chunks) : option Z :=
  match pk_col with
  | [] => Some 0
  | c :: pk_col' =>
      bits ← filter_chunk f j;
      n ← output_size c 0 bits;
      m ← length_after_filtering pk_col' (S j) f;
      Some (n + m)
  end.

(** The task of one dimension; [rands] are the results of [rand()]. *)
Definition build_filter (rands : list Z) (pk_col : Chunks) (fact_fk_name : string) (dim : LazyTable) : option LookupFilter :=
  n ← match filter dim with
      | None => Some (Z.of_nat (length (concat pk_col)))
      | Some f => length_after_filtering pk_col 0 (Some f)
      end;
  b ← newBloomFilter n rands;
  b ← insert_chunks pk_col 0 (filter dim) b;
  b ← set_memory 1 b;
  Some (mkLookupFilter (set_fact_fk_name fact_fk_name b) (hash_table_ dim)).

(** ** Probe *)

(** A key passes the Bloom filter and is in the hash table, if there is one. *)
Definition lookup_key (f : LookupFilter) (key : Z) : option bool :=
  hit ← probe bloom_index key (bloom_filter f);
  if (hit : bool) then
    match hash_table f with
    | Some h => Some (bool_decide (is_Some (h !! key)))
    | None => Some true
    end
  else Some false.

(** The first filter scans the chunk. *)
Fixpoint scan_rows (f : LookupFilter) (chunk_data : list Z) (row offset : Z) : option (list Z) :=
  match chunk_data with
  | [] => Some []
  | key :: chunk_data' =>
      hit ← lookup_key f key;
      rest ← scan_rows f chunk_data' (row + 1) offset;
      Some (if (hit : bool) then to_u32 (row + offset) :: rest else rest)
  end.

(** [while (k <= indices_length)]: an index that does not pass is swapped with
    the last one; the result is the array and the final [indices_length]. *)
Fixpoint partition (fuel : nat) (f : LookupFilter) (chunk_data : list Z) (offset k indices_length : Z) (idxs : list Z)
    : option (list Z * Z) :=
  if k <=? indices_length then
    match fuel with
    | O => None
    | S fuel' =>
        i ← idxs !! Z.to_nat k;
        key ← chunk_data !! Z.to_nat (to_u32 (i - offset));
        hit ← lookup_key f key;
        if (hit : bool) then partition fuel' f chunk_data offset (k + 1) indices_length idxs
        else
          last ← idxs !! Z.to_nat indices_length;
          partition fuel' f chunk_data offset k (indices_length - 1)
            (<[Z.to_nat indices_length := i]> (<[Z.to_nat k := last]> idxs))
    end
  else Some (idxs, indices_length).

(** The number of probes and the new indices of a chunk: the first filter probes
    all rows, the others those that are left. *)
Definition next_indices (filter_j chunk_i : nat) (f : LookupFilter) (chunk_data : list Z) (offset : Z) (lip : list (list Z))
    : option (Z * list Z) :=
  if decide (filter_j = 0%nat) then
    idxs ← scan_rows f chunk_data 0 offset;
    Some (Z.of_nat (length chunk_data), idxs)
  else
    idxs ← lip !! chunk_i;
    let probes := Z.of_nat (length idxs) in
    '(idxs', indices_length) ← partition (length idxs) f chunk_data offset 0 (probes - 1) idxs;
    Some (probes, take (Z.to_nat (indices_length + 1)) idxs').

(** [dim_filters_] and [lip_indices_] *)
Record State := mkState { dim_filters_ : list LookupFilter; lip_indices_ : list (list Z) }.

Section Probe.
(** [fact_fk_cols2_] and [chunk_row_offsets_] *)
Context (fact_fk_cols : string -> option Chunks) (chunk_row_offsets : list Z).
(** [std::sort] with [SortByBloomFilter] *)
Context (sort : (LookupFilter -> LookupFilter -> bool) -> list LookupFilter -> list LookupFilter).
(** The order in which the chunks of one filter and batch are probed. *)
Context (schedule : list nat -> list nat).

Definition probe_chunk (filter_j chunk_i : nat) (st : State) : option State :=
  f ← dim_filters_ st !! filter_j;
  fact_fk_col ← fact_fk_cols (get_fact_fk_name (bloom_filter f));
  offset ← chunk_row_offsets !! chunk_i;
  let offset := to_u32 offset in
  chunk_data ← fact_fk_col !! chunk_i;
  '(probes, idxs) ← next_indices filter_j chunk_i f chunk_data offset (lip_indices_ st);
  lip ← set_at chunk_i idxs (lip_indices_ st);
  b ← count probes (Z.of_nat (length idxs)) (bloom_filter f);
  Some (mkState (<[filter_j := mkLookupFilter b (hash_table f)]> (dim_filters_ st)) lip).

Fixpoint run_chunks (filter_j : nat) (chunks : list nat) (st : State) : option State :=
  match chunks with
  | [] => Some st
  | i :: chunks' => st ← probe_chunk filter_j i st; run_chunks filter_j chunks' st
  end.

(** The chain of a batch: filter after filter. *)
Fixpoint run_filters (n filter_j : nat) (chunks : list nat) (st : State) : option State :=
  match n with
  | O => Some st
  | S n' => st ← run_chunks filter_j (schedule chunks) st; run_filters n' (S filter_j) chunks st
  end.

Fixpoint update_all (fs : list LookupFilter) : option (list LookupFilter) :=
  match fs with
  | [] => Some []
  | f :: fs' =>
      b ← update (bloom_filter f);
      rest ← update_all fs';
      Some (mkLookupFilter b (hash_table f) :: rest)
  end.

Definition SortByBloomFilter (lhs rhs : LookupFilter) : bool := BF.compare (bloom_filter lhs) (bloom_filter rhs).

Definition update_and_sort (st : State) : option State :=
  fs ← update_all (dim_filters_ st);
  Some (mkState (sort SortByBloomFilter fs) (lip_indices_ st)).

(** The chunks of batch [batch_i]. *)
Definition batch_chunks (num_chunks batch_size batch_i : Z) : list nat :=
  let base_i := batch_i * batch_size in
  let last := if base_i + batch_size - 1 <? num_chunks then base_i + batch_size - 1 else num_chunks - 1 in
  seq (Z.to_nat base_i) (Z.to_nat (last + 1 - base_i)).

Fixpoint run_batches (n : nat) (batch_i : Z) (num_dims : nat) (num_chunks batch_size : Z) (st : State) : option State :=
  match n with
  | O => Some st
  | S n' =>
      st ← run_filters num_dims 0 (batch_chunks num_chunks batch_size batch_i) st;
      st ← update_and_sort st;
      run_batches n' (batch_i + 1) num_dims num_chunks batch_size st
  end.

(** [LIP::probe_filters(ctx)]; [batch_size_] is the number of processors. *)
Definition probe_filters (hardware_concurrency num_chunks : Z) (num_dims : nat) (st : State) : option State :=
  let batch_size := if hardware_concurrency =? 0 then num_chunks else hardware_concurrency in
  if batch_size =? 0 then None else
  run_batches (Z.to_nat (num_chunks / batch_size + 1)) 0 num_dims num_chunks batch_size st.

End Probe.

(** ** Result *)

Fixpoint index_chunks_of (i : Z) (lip : list (list Z)) : list Z :=
  match lip with
  | [] => []
  | idxs :: lip' => replicate (length idxs) (to_u16 i) ++ index_chunks_of (i + 1) lip'
  end.

(** [LIP::finish]: the fact table is appended, the dimensions are put in front. *)
Definition finish (fact_table : LazyTable) (dim_tables : list LazyTable) (lip : list (list Z)) (out : OperatorResult) : OperatorResult :=
  let out_fact_table := newLazyTable (table fact_table) (filter fact_table) (Some (concat lip)) (Some (index_chunks_of 0 lip)) None in
  fold_left (fun out dim => append_lazy dim out) dim_tables (append_result [out_fact_table] out).

(** The tables of a predicate in the previous result. *)
Fixpoint find_tables (p : JoinPredicate) (prev : OperatorResult) (acc : option LazyTable * list LazyTable)
    : option LazyTable * list LazyTable :=
  match prev with
  | [] => acc
  | lt :: prev' =>
      find_tables p prev'
        (if cr_table (left_col_ p) =? table lt then (Some lt, snd acc)
         else if cr_table (right_col_ p) =? table lt then (fst acc, snd acc ++ [lt])
         else acc)
  end.

Fixpoint collect_tables (preds : list JoinPredicate) (prev : OperatorResult) (acc : option LazyTable * list LazyTable)
    : option LazyTable * list LazyTable :=
  match preds with
  | [] => acc
  | p :: preds' => collect_tables preds' prev (find_tables p prev acc)
  end.

Section Execute.
(** [DBTable::get_column_by_name] *)
Context (get_column : Z -> string -> option Chunks).
(** The results of [rand()] for the filter of each dimension. *)
Context (rands : nat -> list Z).

(** [build_filters], the tasks running in the order [tasks]. *)
Definition build_filters (tasks : list BuildTask) (preds : list JoinPredicate) (dims : list LazyTable) : option (list LookupFilter) :=
  build_all ((fun p => col_name (right_col_ p)) <$> preds)
    (fun i name => dim ← dims !! i; get_column (table dim) name)
    (fun i pk_col => dim ← dims !! i; p ← preds !! i; build_filter (rands i) pk_col (col_name (left_col_ p)) dim)
    (length dims) tasks.

(** [fact_fk_cols_]: the materialised foreign keys of the fact table. *)
Definition fact_fk_col (fact_table : LazyTable) (name : string) : option Chunks :=
  '(_, c) ← MaterializeColumn get_column name fact_table;
  Some c.

(** [LIP::Execute]; [tasks] is the order of the tasks that build the filters,
    [schedule] that of the tasks that probe the chunks of a batch. *)
Definition Execute (sort : (LookupFilter -> LookupFilter -> bool) -> list LookupFilter -> list LookupFilter)
    (tasks : list BuildTask) (schedule : list nat -> list nat) (hardware_concurrency : Z) (graph : Graph.JoinGraph)
    (prev : list OperatorResult) (out : OperatorResult) : option OperatorResult :=
  let prev_result := concat prev in
  preds ← Graph.get_predicates graph 0;
  let '(fact, dim_tables) := collect_tables preds prev_result (None, []) in
  fact_table ← fact;
  dim_filters ← build_filters tasks preds dim_tables;
  p0 ← head preds;
  fact_col ← fact_fk_col fact_table (col_name (left_col_ p0));
  offsets ← ComputeChunkOffsets fact_col;
  st ← probe_filters (fact_fk_col fact_table) offsets sort schedule hardware_concurrency (Z.of_nat (length fact_col))
         (length dim_tables) (mkState dim_filters (replicate (length fact_col) []));
  Some (finish fact_table dim_tables (lip_indices_ st) out).

End Execute.

End LIP.

Import LIP.

(** ** One chunk *)

Module LipChunk.

Lemma filter_ext_in {A} (p q : A -> bool) (l : list A) : (forall x, x ∈ l -> p x = q x) ->
  base.filter (fun x => p x = true) l = base.filter (fun x => q x = true) l.
Proof.
  induction l as [|x l IH]; intros H; [done |]. rewrite !filter_cons, IH by (intros y Hy; apply H; by right).
  rewrite (H x) by left. done.
Qed.

Lemma filter_all {A} (p : A -> bool) (l : list A) : Forall (fun x => p x = true) l -> base.filter (fun x => p x = true) l = l.
Proof. induction 1 as [|x l Hx _ IH]; [done |]. by rewrite filter_cons, decide_True, IH by done. Qed.

Lemma filter_none {A} (p : A -> bool) (l : list A) : Forall (fun x => p x = false) l -> base.filter (fun x => p x = true) l = [].
Proof. induction 1 as [|x l Hx _ IH]; [done |]. rewrite filter_cons, decide_False by congruence. done. Qed.

Lemma Forall_and_elem {A} (P : A -> Prop) (l : list A) : Forall P l -> Forall (fun x => P x /\ x ∈ l) l.
Proof. intros H. apply Forall_forall. intros x Hx. split; [| done]. by eapply Forall_forall in H. Qed.

Lemma Forall2_perm_l {A B} (R : A -> B -> Prop) l l' k : Permutation l l' -> Forall2 R l' k -> exists k', Permutation k' k /\ Forall2 R l k'.
Proof.
  intros HP. revert k. induction HP as [| x l l' HP IH | x y l | l l1 l2 _ IH1 _ IH2]; intros k HF.
  - by exists k.
  - apply Forall2_cons_inv_l in HF as (z & k1 & Hz & HF & ->). destruct (IH k1 HF) as (k' & HP' & HF'). exists (z :: k'). split; [by constructor | by constructor].
  - apply Forall2_cons_inv_l in HF as (z & k1 & Hz & HF & ->). apply Forall2_cons_inv_l in HF as (z2 & k2 & Hz2 & HF & ->).
    exists (z2 :: z :: k2). split; [constructor | by repeat constructor].
  - destruct (IH2 k HF) as (k1 & P1 & F1). destruct (IH1 k1 F1) as (k2 & P2 & F2). exists k2. split; [by rewrite P2 | done].
Qed.

(** What a filter says about a key. *)
Definition verdict (f : LookupFilter) (key : Z) : bool := default false (lookup_key f key).

(** What does not change while the filters are used. *)
Definition static (f : LookupFilter) : Z * Z * list Z * list Z * string * option HashTable :=
  let b := bloom_filter f in (num_cells_ b, num_hash_ b, seeds_ b, cells_ b, fk_name_ b, hash_table f).

Definition filter_static (b : BloomFilter) : Z * Z * list Z * list Z := (num_cells_ b, num_hash_ b, seeds_ b, cells_ b).

Lemma probe_loop_static b b' n k key : filter_static b = filter_static b' -> probe_loop bloom_index n k key b = probe_loop bloom_index n k key b'.
Proof.
  intros [= H1 H2 H3 H4]. revert k. induction n as [|n IH]; intros k; cbn [probe_loop]; [done |].
  rewrite H3, H1, H4. destruct (seeds_ b' !! k); [| done]. cbn [mbind option_bind]. destruct (bloom_index _ _); [| done]. cbn [mbind option_bind].
  destruct (get_bit _ _) as [[]|]; cbn; [apply IH | done | done].
Qed.

Lemma lookup_key_static f f' key : static f = static f' -> lookup_key f key = lookup_key f' key.
Proof.
  intros [= H1 H2 H3 H4 H5 H6]. unfold lookup_key, probe. rewrite H2, H6. rewrite (probe_loop_static _ (bloom_filter f')); [done |].
  unfold filter_static. by rewrite H1, H2, H3, H4.
Qed.

Lemma verdict_static f f' key : static f = static f' -> verdict f key = verdict f' key.
Proof. intros H. unfold verdict. by rewrite (lookup_key_static f f'). Qed.

Definition usable (f : LookupFilter) : Prop := bloom_ok 0 (bloom_filter f).

Lemma usable_static f f' : static f = static f' -> usable f -> usable f'.
Proof. intros [= H1 H2 H3 H4 H5 H6] []. constructor; rewrite <- ?H1, <- ?H2, <- ?H3, <- ?H4; done. Qed.

Lemma lookup_key_ok f key : usable f -> lookup_key f key = Some (verdict f key).
Proof.
  intros Hb. unfold verdict. assert (is_Some (lookup_key f key)) as [x Hx]; [| by rewrite Hx]. unfold lookup_key, probe.
  rewrite (ok_hash _ _ Hb). change (Z.to_nat 3) with 3%nat. rewrite (probe_loop_ok 3 0 key (bloom_filter f) Hb) by done.
  cbn [mbind option_bind Nat.eqb orb]. destruct (bit_at _ _); [destruct (hash_table f) |]; eauto.
Qed.

(** The rows of a chunk for which [g] holds, as rows of the table. *)
Definition keep_from (g : nat -> bool) (offset : Z) (row n : nat) : list Z :=
  (fun r => offset + Z.of_nat r) <$> base.filter (fun r => g r = true) (seq row n).

Lemma keep_from_S g offset row n : keep_from g offset row (S n) =
  (if g row then [offset + Z.of_nat row] else []) ++ keep_from g offset (S row) n.
Proof. unfold keep_from. cbn [seq]. rewrite filter_cons. destruct (g row) eqn:E; [by rewrite decide_True | by rewrite decide_False by congruence]. Qed.

Lemma scan_rows_ok f offset : usable f -> 0 <= offset -> forall chunk_data row, offset + Z.of_nat row + Z.of_nat (length chunk_data) < 2 ^ 32 ->
  scan_rows f chunk_data (Z.of_nat row) offset =
  Some (keep_from (fun r => verdict f (nth (r - row) chunk_data 0)) offset row (length chunk_data)).
Proof.
  intros Hu Ho. induction chunk_data as [|key data IH]; intros row Hl; cbn [scan_rows length] in *; [done |].
  rewrite lookup_key_ok by done. cbn [mbind option_bind]. replace (Z.of_nat row + 1) with (Z.of_nat (S row)) by lia.
  rewrite IH by lia. cbn [mbind option_bind]. rewrite keep_from_S, Nat.sub_diag. cbn [nth].
  rewrite wrapu_id by (unfold is_u; lia). replace (Z.of_nat row + offset) with (offset + Z.of_nat row) by lia.
  assert (keep_from (fun r => verdict f (nth (r - S row) data 0)) offset (S row) (length data) =
          keep_from (fun r => verdict f (nth (r - row) (key :: data) 0)) offset (S row) (length data)) as ->; [| by destruct (verdict f key)].
  unfold keep_from. f_equal. apply filter_ext_in. intros r Hr. apply elem_of_seq in Hr.
  replace (r - row)%nat with (S (r - S row)) by lia. done.
Qed.

(** The key of an index of the chunk. *)
Definition key_at (chunk_data : list Z) (offset i : Z) : Z := nth (Z.to_nat (i - offset)) chunk_data 0.

Definition in_rows (offset : Z) (n : nat) (i : Z) : Prop := offset <= i < offset + Z.of_nat n.

Lemma partition_ok f chunk_data offset : usable f -> 0 <= offset -> offset + Z.of_nat (length chunk_data) < 2 ^ 32 ->
  forall fuel k L idxs, Forall (in_rows offset (length chunk_data)) idxs -> 0 <= k -> k <= L + 1 -> L < Z.of_nat (length idxs) ->
  (Z.to_nat (L + 1 - k) <= fuel)%nat ->
  (forall j i, (Z.of_nat j < k) -> idxs !! j = Some i -> verdict f (key_at chunk_data offset i) = true) ->
  (forall j i, (L < Z.of_nat j) -> idxs !! j = Some i -> verdict f (key_at chunk_data offset i) = false) ->
  exists idxs' L', partition fuel f chunk_data offset k L idxs = Some (idxs', L') /\ Permutation idxs' idxs /\ -1 <= L' < Z.of_nat (length idxs) /\
    (forall j i, (Z.of_nat j <= L') -> idxs' !! j = Some i -> verdict f (key_at chunk_data offset i) = true) /\
    (forall j i, (L' < Z.of_nat j) -> idxs' !! j = Some i -> verdict f (key_at chunk_data offset i) = false).
Proof.
  intros Hu Ho Hl. induction fuel as [|fuel IH]; intros k L idxs HF Hk HkL HL Hf Hacc Hrej; cbn [partition].
  { rewrite (proj2 (Z.leb_gt _ _)) by lia. exists idxs, L. split_and!; try done; try lia. intros j i Hj. apply Hacc. lia. }
  destruct (Z.leb_spec k L) as [Hle | Hgt].
  2: { exists idxs, L. split_and!; try done; try lia. intros j i Hj. apply Hacc. lia. }
  destruct (lookup_lt_is_Some_2 idxs (Z.to_nat k)) as [i Ei]; [lia |]. rewrite Ei. cbn [mbind option_bind].
  pose proof (Forall_lookup_1 _ _ _ _ HF Ei) as Hi. unfold in_rows in Hi. rewrite wrapu_id by (unfold is_u; lia).
  destruct (lookup_lt_is_Some_2 chunk_data (Z.to_nat (i - offset))) as [key Ek]; [lia |]. rewrite Ek. cbn [mbind option_bind].
  assert (key_at chunk_data offset i = key) as Eki by (unfold key_at; by apply nth_lookup_Some).
  rewrite lookup_key_ok by done. cbn [mbind option_bind]. destruct (verdict f key) eqn:Ev.
  - apply IH; try done; try lia. intros j i' Hj Ej. destruct (decide (Z.of_nat j = k)) as [E | Hne]; [| apply (Hacc j); [lia | done]].
    assert (j = Z.to_nat k) as -> by lia. rewrite Ei in Ej. injection Ej as <-. by rewrite Eki.
  - destruct (lookup_lt_is_Some_2 idxs (Z.to_nat L)) as [l El]; [lia |]. rewrite El. cbn [mbind option_bind].
    pose proof (Permutation_insert_swap idxs (Z.to_nat k) (Z.to_nat L) i l Ei El) as HP.
    destruct (IH k (L - 1) (<[Z.to_nat L := i]> (<[Z.to_nat k := l]> idxs))) as (idxs' & L' & E & HP' & HL' & H1 & H2).
    + by rewrite HP.
    + lia.
    + lia.
    + rewrite !length_insert. lia.
    + lia.
    + intros j i' Hj Ej. rewrite !list_lookup_insert_ne in Ej by lia. by apply (Hacc j).
    + intros j i' Hj Ej. destruct (decide (j = Z.to_nat L)) as [-> | Hne].
      * rewrite list_lookup_insert_eq in Ej by (rewrite length_insert; lia). injection Ej as <-. by rewrite Eki.
      * rewrite !list_lookup_insert_ne in Ej by lia. apply (Hrej j); [lia | done].
    + rewrite !length_insert in HL'. exists idxs', L'. split_and!; try done; try lia. by rewrite HP'.
Qed.

(** The indices that remain are those that pass. *)
Lemma partition_keeps f chunk_data offset idxs : usable f -> 0 <= offset -> offset + Z.of_nat (length chunk_data) < 2 ^ 32 ->
  Forall (in_rows offset (length chunk_data)) idxs ->
  exists idxs' L', partition (length idxs) f chunk_data offset 0 (Z.of_nat (length idxs) - 1) idxs = Some (idxs', L') /\
    Permutation (take (Z.to_nat (L' + 1)) idxs') (base.filter (fun i => verdict f (key_at chunk_data offset i) = true) idxs).
Proof.
  intros Hu Ho Hl HF. destruct (partition_ok f chunk_data offset Hu Ho Hl (length idxs) 0 (Z.of_nat (length idxs) - 1) idxs)
    as (idxs' & L' & E & HP & HL & H1 & H2); try done; try lia.
  { intros j i Hj Ej. apply lookup_lt_Some in Ej. lia. }
  exists idxs', L'. split; [done |]. rewrite <- HP. rewrite <- (take_drop (Z.to_nat (L' + 1)) idxs') at 2. rewrite filter_app.
  rewrite filter_all, filter_none, app_nil_r; [done | |].
  - apply Forall_forall. intros i Hi. apply list_elem_of_lookup in Hi as [j Ej]. rewrite lookup_drop in Ej.
    eapply H2; [| exact Ej]. lia.
  - apply Forall_forall. intros i Hi. apply list_elem_of_lookup in Hi as [j Ej]. apply lookup_take_Some in Ej as [Ej Hj].
    apply (H1 j); [lia | done].
Qed.

End LipChunk.

Import LipChunk.

(** ** All chunks and filters *)

Module LipRun.

Section Run.
Context (fact_fk_cols : string -> option Chunks) (col : Chunks) (offsets : list Z).
Context (sort : (LookupFilter -> LookupFilter -> bool) -> list LookupFilter -> list LookupFilter).
Context (schedule : list nat -> list nat).
Context (Hsort : forall lt l, Permutation (sort lt l) l) (Hsch : forall l, Permutation (schedule l) l).
Context (Hrows : rows col < 2 ^ 30) (Hoff : forall i, (i < length col)%nat -> offsets !! i = Some (Z.of_nat (start_row col i))).

Definition chunk_len (i : nat) : nat := length (default [] (col !! i)).

(** The foreign key column of a filter has the chunks of the fact table. *)
Definition has_column (f : LookupFilter) : Prop :=
  exists c, fact_fk_cols (fk_name_ (bloom_filter f)) = Some c /\ length c = length col /\
    forall i, (i < length col)%nat -> exists data, c !! i = Some data /\ length data = chunk_len i.

(** Row [r] of chunk [i] passes the filter. *)
Definition accepts (f : LookupFilter) (i r : nat) : bool :=
  match fact_fk_cols (fk_name_ (bloom_filter f)) ≫= (fun c => c !! i) with
  | Some data => verdict f (nth r data 0)
  | None => false
  end.

Definition expected (fs : list LookupFilter) (i : nat) : list Z :=
  keep_from (fun r => forallb (fun f => accepts f i r) fs) (Z.of_nat (start_row col i)) 0 (chunk_len i).

Definition same (f g : LookupFilter) : Prop := static f = static g.

Lemma accepts_same f g i r : same f g -> accepts f i r = accepts g i r.
Proof.
  intros H. pose proof H as [= _ _ _ _ E _]. unfold accepts. rewrite E. destruct (_ ≫= _); [| done]. by apply verdict_static.
Qed.

Lemma expected_same fs gs i : Forall2 same fs gs -> expected fs i = expected gs i.
Proof.
  intros HF. unfold expected, keep_from. f_equal. apply filter_ext_in. intros r _. induction HF as [|f g fs gs H _ IH]; [done |].
  cbn [forallb]. by rewrite IH, (accepts_same f g).
Qed.

Lemma expected_perm fs gs i : Permutation fs gs -> expected fs i = expected gs i.
Proof.
  intros HP. unfold expected, keep_from. f_equal. apply filter_ext_in. intros r _.
  induction HP as [| x l k _ IH | x y l | l k m _ IH1 _ IH2]; cbn [forallb]; [done | by rewrite IH | by rewrite !andb_assoc, (andb_comm (accepts y i r)) | by rewrite IH1].
Qed.

Lemma filter_keep (q : Z -> bool) g offset n : forall row,
  base.filter (fun i => q i = true) (keep_from g offset row n) = keep_from (fun r => g r && q (offset + Z.of_nat r)) offset row n.
Proof.
  induction n as [|n IH]; intros row; [done |]. rewrite !keep_from_S, filter_app, IH. f_equal. destruct (g row); cbn [andb]; [| done].
  rewrite filter_cons, filter_nil. destruct (q _); [by rewrite decide_True | by rewrite decide_False].
Qed.

Lemma expected_snoc fs f i data : fact_fk_cols (fk_name_ (bloom_filter f)) ≫= (fun c => c !! i) = Some data ->
  expected (fs ++ [f]) i =
  base.filter (fun idx => verdict f (key_at data (Z.of_nat (start_row col i)) idx) = true) (expected fs i).
Proof.
  intros E. unfold expected at 2. rewrite (filter_keep (fun idx => verdict f (key_at data (Z.of_nat (start_row col i)) idx))).
  unfold expected, keep_from. f_equal. apply filter_ext_in. intros r _. rewrite forallb_app. cbn [forallb]. rewrite andb_true_r. f_equal.
  unfold accepts. rewrite E. f_equal. unfold key_at. f_equal. lia.
Qed.

Lemma expected_in fs i : Forall (in_rows (Z.of_nat (start_row col i)) (chunk_len i)) (expected fs i).
Proof.
  unfold expected, keep_from. apply Forall_fmap, Forall_forall. intros r Hr. apply list_elem_of_filter in Hr as [_ Hr].
  apply elem_of_seq in Hr. unfold in_rows. cbn. lia.
Qed.

Lemma length_filter_le {A} (p : A -> bool) (l : list A) : (length (base.filter (fun x => p x = true) l) <= length l)%nat.
Proof. induction l as [|x l IH]; [done |]. rewrite filter_cons. destruct (decide _); cbn; lia. Qed.

Lemma length_expected fs i : (length (expected fs i) <= chunk_len i)%nat.
Proof.
  unfold expected, keep_from. rewrite length_fmap. etransitivity; [apply length_filter_le |]. by rewrite length_seq.
Qed.

(** The counters of a batch, and what probing leaves alone. *)
Definition counted (P : Z) (f : LookupFilter) : Prop :=
  0 <= hit_count_ (bloom_filter f) <= probe_count_ (bloom_filter f) /\ probe_count_ (bloom_filter f) <= P.

Definition stats (f : LookupFilter) : Z * Z * option Window * Histogram :=
  let b := bloom_filter f in (hit_count_queue_sum_ b, probe_count_queue_sum_ b, window_ b, hist_ b).

Lemma chunk_bound i : (i < length col)%nat -> (start_row col i + chunk_len i <= length (concat col))%nat.
Proof.
  intros Hi. destruct (lookup_lt_is_Some_2 col i Hi) as [c Ec]. unfold chunk_len. rewrite Ec. cbn.
  rewrite <- (start_row_S col i c Ec). apply start_row_le.
Qed.

(** The result of probing chunk [i] with filter [j]. *)
Definition probed (fs : list LookupFilter) (j i : nat) (lip : list (list Z)) : Prop :=
  j = 0%nat \/ exists idxs, lip !! i = Some idxs /\ Permutation idxs (expected (take j fs) i).

Lemma expected_next fs j f g i data : fs !! j = Some g -> same f g ->
  fact_fk_cols (fk_name_ (bloom_filter f)) ≫= (fun c => c !! i) = Some data ->
  expected (take (S j) fs) i =
  base.filter (fun idx => verdict f (key_at data (Z.of_nat (start_row col i)) idx) = true) (expected (take j fs) i).
Proof.
  intros Eg Hfg Efd. rewrite (take_S_r _ _ _ Eg). rewrite <- (expected_snoc (take j fs) f i data Efd). apply expected_same.
  apply Forall2_app; [apply Forall_Forall2_diag; by apply Forall_true | constructor; [by symmetry | constructor]].
Qed.

Lemma next_indices_ok fs j f g i data lip : fs !! j = Some g -> same f g -> usable f ->
  fact_fk_cols (fk_name_ (bloom_filter f)) ≫= (fun c => c !! i) = Some data -> length data = chunk_len i -> (i < length col)%nat ->
  probed fs j i lip ->
  exists probes idxs, next_indices j i f data (Z.of_nat (start_row col i)) lip = Some (probes, idxs) /\
    Permutation idxs (expected (take (S j) fs) i) /\ Z.of_nat (length idxs) <= probes <= Z.of_nat (chunk_len i).
Proof.
  intros Eg Hfg Hu Efd Hd Hi Hpre. pose proof (chunk_bound i Hi) as Hcb. unfold rows in Hrows.
  pose proof (expected_next fs j f g i data Eg Hfg Efd) as Ex. unfold next_indices. destruct (decide (j = 0%nat)) as [-> | Hj].
  - assert (Z.of_nat (start_row col i) + Z.of_nat 0 + Z.of_nat (length data) < 2 ^ 32) as Hlt by lia.
    pose proof (scan_rows_ok f (Z.of_nat (start_row col i)) Hu ltac:(lia) data 0 Hlt) as Es. change (Z.of_nat 0) with 0 in Es. rewrite Es. cbn [mbind option_bind]. eexists _, _. split; [reflexivity |].
    assert (keep_from (fun r => verdict f (nth (r - 0) data 0)) (Z.of_nat (start_row col i)) 0 (length data) = expected (take 1 fs) i) as ->.
    { rewrite Ex. cbn [take]. unfold expected at 1. rewrite (filter_keep (fun idx => verdict f (key_at data (Z.of_nat (start_row col i)) idx))).
      cbn [forallb andb]. rewrite Hd. unfold keep_from. f_equal. apply filter_ext_in. intros r _. unfold key_at. rewrite Nat.sub_0_r. replace (Z.of_nat (start_row col i) + Z.of_nat r - Z.of_nat (start_row col i)) with (Z.of_nat r) by lia. by rewrite Nat2Z.id. }
    split; [done |]. rewrite Hd. split; [| lia]. apply Nat2Z.inj_le, length_expected.
  - destruct Hpre as [? | (idxs & El & HPi)]; [done |]. rewrite El. cbn [mbind option_bind].
    destruct (partition_keeps f data (Z.of_nat (start_row col i)) idxs Hu) as (idxs' & L' & E & HPk); [lia | lia | |].
    { rewrite HPi, Hd. apply expected_in. }
    rewrite E. cbn [mbind option_bind]. eexists _, _. split; [reflexivity |]. split; [by rewrite HPk, HPi, Ex |].
    rewrite HPk. rewrite HPi. split; apply Nat2Z.inj_le; [apply length_filter_le | apply length_expected].
Qed.

Lemma lip_chunk_ok fs j i st f P : Forall2 same (dim_filters_ st) fs -> dim_filters_ st !! j = Some f -> usable f -> has_column f ->
  (i < length col)%nat -> length (lip_indices_ st) = length col -> probed fs j i (lip_indices_ st) ->
  counted P f -> P + Z.of_nat (chunk_len i) < 2 ^ 31 ->
  exists st' f' idxs, probe_chunk fact_fk_cols offsets j i st = Some st' /\
    dim_filters_ st' = <[j := f']> (dim_filters_ st) /\ lip_indices_ st' = <[i := idxs]> (lip_indices_ st) /\
    same f' f /\ stats f' = stats f /\ counted (P + Z.of_nat (chunk_len i)) f' /\ Permutation idxs (expected (take (S j) fs) i).
Proof.
  intros Hfs Ej Hu (c & Ec & Hlc & Hc) Hi Hlip Hpre (Hh & Hp) HPb.
  destruct (Hc i Hi) as (data & Ed & Hd). pose proof (chunk_bound i Hi) as Hcb. unfold rows in Hrows.
  destruct (Forall2_lookup_l _ _ _ _ _ Hfs Ej) as (g & Eg & Hfg).
  assert (fact_fk_cols (fk_name_ (bloom_filter f)) ≫= (fun c => c !! i) = Some data) as Efd by (rewrite Ec; exact Ed).
  destruct (next_indices_ok fs j f g i data (lip_indices_ st)) as (probes & idxs & Ep & HPx & Hb); try done.
  unfold probe_chunk. rewrite Ej. cbn [mbind option_bind]. unfold get_fact_fk_name. rewrite Ec. cbn [mbind option_bind].
  rewrite Hoff by done. cbn [mbind option_bind]. rewrite wrapu_id by (unfold is_u; lia). rewrite Ed. cbn [mbind option_bind].
  rewrite Ep. cbn [mbind option_bind]. unfold set_at. rewrite (proj2 (Nat.ltb_lt _ _)) by lia. cbn [mbind option_bind].
  unfold count. rewrite !int_chk_id by (unfold is_s; change (2 ^ (32 - 1)) with (2 ^ 31); lia). cbn [mbind option_bind].
  eexists _, _, idxs. split_and!; [reflexivity | reflexivity | reflexivity | done | done | split; cbn; lia | done].
Qed.

(** *** The statistics after a batch *)

(** The window holds the counts of the last batch; [k] batches are in the histogram. *)
Definition stats_ok (k : Z) (f : LookupFilter) : Prop :=
  (exists hp, window_ok 1 [hp] (bloom_filter f) /\ 0 <= fst hp <= rows col /\ 0 <= snd hp <= rows col) /\ hist_ok k (hist_ (bloom_filter f)).

Lemma stats_ok_same k f g : stats f = stats g -> stats_ok k g -> stats_ok k f.
Proof.
  intros [= H1 H2 H3 H4] [(hp & (w & Hw) & Hhp) Hh]. split; [| by rewrite H4]. exists hp. split; [| done].
  exists w. by rewrite H1, H2, H3.
Qed.

Lemma update_ok k f : rates_ok (rows col) -> stats_ok k f -> counted (rows col) f -> k + 1 < 2 ^ 31 ->
  exists b', update (bloom_filter f) = Some b' /\ same (mkLookupFilter b' (hash_table f)) f /\
    stats_ok (k + 1) (mkLookupFilter b' (hash_table f)) /\ counted 0 (mkLookupFilter b' (hash_table f)).
Proof.
  intros Hrate [(w0 & Hw & B1 & B2) Hh] [C1 C2] Hk. set (b := bloom_filter f) in *. set (hp := (hit_count_ b, probe_count_ b)).
  destruct (update_window_ok 1 w0 [] b Hw) as (b1 & E1 & Hw1).
  { split_and!; [repeat constructor; cbn; lia | |]; cbn [app map fst snd zsum hp]; lia. }
  cbn [app] in Hw1. fold hp in Hw1. destruct (update_window_inv b b1 E1) as (hs & ps & w & Eb1).
  assert (get_hit_rate b1 = rate (hit_count_ b) (probe_count_ b)) as Er.
  { destruct Hw1 as (w' & _ & _ & _ & _ & _ & _ & _ & Hs1 & Hs2). unfold get_hit_rate, rate. rewrite Hs1, Hs2. cbn [map fst snd zsum hp].
    by rewrite !Z.add_0_r. }
  destruct (Hrate (hit_count_ b) (probe_count_ b)) as (bin & Ebin & Hbin); [lia | lia |]. rewrite <- Er in Ebin.
  destruct (hist_insert_ok k (hist_ b1) (get_hit_rate b1) bin) as (h & Eh & Hh'); [by rewrite Eb1 | done | done | done |].
  unfold update. rewrite E1. cbn [mbind option_bind]. rewrite Eh. cbn [mbind option_bind]. eexists. split_and!; [reflexivity | | |].
  - rewrite Eb1. done.
  - split; [| done]. exists hp. split; [| cbn; lia]. destruct Hw1 as (w' & Hw1). exists w'. exact Hw1.
  - rewrite Eb1. split; cbn; lia.
Qed.

Lemma update_all_ok k fs : rates_ok (rows col) -> k + 1 < 2 ^ 31 -> forall l, Forall2 same l fs -> Forall (stats_ok k) l -> Forall (counted (rows col)) l ->
  exists l', update_all l = Some l' /\ Forall2 same l' fs /\ Forall (stats_ok (k + 1)) l' /\ Forall (counted 0) l'.
Proof.
  intros Hr Hk l Hs. induction Hs as [|f g l fs Hfg Hs IH]; intros HS HC; cbn [update_all]; [by exists [] |].
  apply Forall_cons in HS as [Hf HS]. apply Forall_cons in HC as [Cf HC]. destruct (update_ok k f Hr Hf Cf Hk) as (b & -> & S1 & T1 & C1).
  cbn [mbind option_bind]. destruct (IH HS HC) as (l' & -> & S2 & T2 & C2). eexists. split; [reflexivity |].
  split_and!; constructor; try done. unfold same in *. congruence.
Qed.

Definition weight (cs : list nat) : Z := zsum ((fun i => Z.of_nat (chunk_len i)) <$> cs).

Lemma weight_cons i cs : weight (i :: cs) = Z.of_nat (chunk_len i) + weight cs.
Proof. done. Qed.

Lemma weight_nonneg cs : 0 <= weight cs.
Proof. apply zsum_nonneg, Forall_fmap, Forall_forall. intros; cbn; lia. Qed.

Lemma weight_perm cs cs' : Permutation cs cs' -> weight cs = weight cs'.
Proof. induction 1 as [| x l k _ IH | x y l | l k m _ IH1 _ IH2]; rewrite ?weight_cons; lia. Qed.

Lemma weight_seq a m : (a + m <= length col)%nat -> weight (seq a m) = Z.of_nat (start_row col (a + m)) - Z.of_nat (start_row col a).
Proof.
  revert a. induction m as [|m IH]; intros a Ha; cbn [seq]; [rewrite Nat.add_0_r; change (weight []) with 0; lia |].
  rewrite weight_cons, IH by lia. destruct (lookup_lt_is_Some_2 col a) as [c Ec]; [lia |]. pose proof (start_row_S col a c Ec).
  unfold chunk_len. rewrite Ec. cbn [default from_option id]. replace (S a + m)%nat with (a + S m)%nat by lia. lia.
Qed.

(** All filters are those of [fs], and usable. *)
Definition filters_ok (fs : list LookupFilter) (st : State) : Prop :=
  Forall2 same (dim_filters_ st) fs /\ Forall usable fs /\ Forall has_column fs /\ length (lip_indices_ st) = length col.

Lemma filters_ok_lookup fs st j f : filters_ok fs st -> dim_filters_ st !! j = Some f -> usable f /\ has_column f.
Proof.
  intros (Hs & Hu & Hc & _) Ej. destruct (Forall2_lookup_l _ _ _ _ _ Hs Ej) as (g & Eg & Hfg).
  pose proof (Forall_lookup_1 _ _ _ _ Hu Eg). pose proof (Forall_lookup_1 _ _ _ _ Hc Eg) as (c & Ec & Hh). split.
  - by eapply usable_static; [symmetry |].
  - exists c. split; [| done]. pose proof Hfg as [= _ _ _ _ E _]. by rewrite E.
Qed.

(** Filter [j] probes the chunks [cs]. *)
Lemma run_chunks_ok fs j : forall cs st f P, filters_ok fs st -> dim_filters_ st !! j = Some f -> NoDup cs ->
  Forall (fun i => (i < length col)%nat) cs -> Forall (fun i => probed fs j i (lip_indices_ st)) cs ->
  counted P f -> P + weight cs < 2 ^ 31 ->
  exists st' f', run_chunks fact_fk_cols offsets j cs st = Some st' /\ filters_ok fs st' /\
    dim_filters_ st' = <[j := f']> (dim_filters_ st) /\ same f' f /\ stats f' = stats f /\ counted (P + weight cs) f' /\
    Forall (fun i => probed fs (S j) i (lip_indices_ st')) cs /\ (forall i, i ∉ cs -> lip_indices_ st' !! i = lip_indices_ st !! i).
Proof.
  induction cs as [|i cs IH]; intros st f P Hok Ej Hnd HF Hpre Hcnt HP; cbn [run_chunks].
  { exists st, f. rewrite list_insert_id by done. change (weight []) with 0. rewrite Z.add_0_r. done. }
  apply NoDup_cons in Hnd as [Hni Hnd]. apply Forall_cons in HF as [Hi HF]. apply Forall_cons in Hpre as [Hpi Hpre].
  rewrite weight_cons in HP. pose proof (weight_nonneg cs). destruct (filters_ok_lookup fs st j f Hok Ej) as [Hu Hc].
  pose proof Hok as (Hs & Hus & Hcs & Hl).
  destruct (lip_chunk_ok fs j i st f P) as (st1 & f1 & idxs & -> & Ef1 & El1 & S1 & T1 & C1 & HPi); try done; [lia |]. cbn [mbind option_bind].
  pose proof (lookup_lt_Some _ _ _ Ej) as Hj.
  assert (filters_ok fs st1) as Hok1.
  { split_and!; try done; [| by rewrite El1, length_insert]. rewrite Ef1. destruct (Forall2_lookup_l _ _ _ _ _ Hs Ej) as (g & Eg & Hfg).
    rewrite <- (list_insert_id fs j g Eg). apply Forall2_insert; [done |]. unfold same in *. congruence. }
  assert (dim_filters_ st1 !! j = Some f1) as Ej1 by (rewrite Ef1; by apply list_lookup_insert_eq).
  destruct (IH st1 f1 (P + Z.of_nat (chunk_len i)) Hok1 Ej1 Hnd HF) as (st2 & f2 & -> & Hok2 & Ef2 & S2 & T2 & C2 & HP2 & K2); try done; try lia.
  { eapply Forall_impl; [apply (Forall_and_elem _ _ Hpre) |]. cbv beta. intros k [[-> | (x & Ex & Hx)] Hk]; [by left |]. right. exists x.
    split; [| done]. rewrite El1, list_lookup_insert_ne by (intros ->; done). done. }
  exists st2, f2. split_and!; try done.
  - by rewrite Ef2, Ef1, list_insert_insert_eq.
  - unfold same in *. congruence.
  - congruence.
  - rewrite weight_cons. by replace (P + (Z.of_nat (chunk_len i) + weight cs)) with (P + Z.of_nat (chunk_len i) + weight cs) by lia.
  - constructor; [| done]. right. exists idxs. split; [| done]. rewrite K2 by done. rewrite El1. apply list_lookup_insert_eq. lia.
  - intros k Hk. apply not_elem_of_cons in Hk as [Hk1 Hk2]. rewrite K2 by done. rewrite El1, list_lookup_insert_ne by done. done.
Qed.

(** All filters probe the chunks [cs]: [j] filters have, [n] have not. *)
Lemma run_filters_ok k fs cs : NoDup cs -> Forall (fun i => (i < length col)%nat) cs -> weight cs <= rows col ->
  forall n j st, filters_ok fs st -> (j + n = length fs)%nat -> Forall (stats_ok k) (dim_filters_ st) ->
  (forall j' f, dim_filters_ st !! j' = Some f -> counted (if decide (j' < j)%nat then rows col else 0) f) ->
  Forall (fun i => probed fs j i (lip_indices_ st)) cs ->
  exists st', run_filters fact_fk_cols offsets schedule n j cs st = Some st' /\ filters_ok fs st' /\
    Forall (stats_ok k) (dim_filters_ st') /\ Forall (counted (rows col)) (dim_filters_ st') /\
    Forall (fun i => probed fs (length fs) i (lip_indices_ st')) cs /\ (forall i, i ∉ cs -> lip_indices_ st' !! i = lip_indices_ st !! i).
Proof.
  intros Hnd HF Hw. induction n as [|n IH]; intros j st Hok Hj HS HC HP; cbn [run_filters].
  { exists st. assert (j = length fs) as -> by lia. split_and!; try done. apply Forall_lookup. intros j' f Ef. specialize (HC j' f Ef).
    destruct (decide _) as [|Hn]; [done |]. exfalso. apply Hn. apply lookup_lt_Some in Ef. destruct Hok as (Hs & _). by rewrite <- (Forall2_length _ _ _ Hs). }
  pose proof Hok as (Hs & _). destruct (lookup_lt_is_Some_2 (dim_filters_ st) j) as [f Ef]; [rewrite (Forall2_length _ _ _ Hs); lia |].
  pose proof (HC j f Ef) as Cf. rewrite decide_False in Cf by lia.
  pose proof (weight_perm _ _ (Hsch cs)) as Ew.
  destruct (run_chunks_ok fs j (schedule cs) st f 0) as (st1 & f1 & -> & Hok1 & Ef1 & S1 & T1 & C1 & P1 & K1); try done.
  { by rewrite Hsch. } { by rewrite Hsch. } { by rewrite Hsch. } { rewrite Ew. unfold rows in *. lia. }
  cbn [mbind option_bind]. rewrite Hsch in P1. rewrite Ew, Z.add_0_l in C1.
  destruct (IH (S j) st1 Hok1) as (st2 & -> & Hok2 & S2 & C2 & P2 & K2); [lia | | | done |].
  - rewrite Ef1. apply Forall_insert; [done |]. eapply stats_ok_same; [exact T1 |]. by eapply Forall_lookup_1 in HS.
  - intros j' f' Ej'. rewrite Ef1 in Ej'. destruct (decide (j' = j)) as [-> | Hne].
    + rewrite list_lookup_insert_eq in Ej' by (by eapply lookup_lt_Some). injection Ej' as <-. rewrite decide_True by lia. destruct C1. split; [done | lia].
    + rewrite list_lookup_insert_ne in Ej' by done. specialize (HC j' f' Ej'). destruct (decide (j' < j)%nat); [rewrite decide_True by lia | rewrite decide_False by lia]; done.
  - exists st2. split_and!; try done. intros i Hi. rewrite K2 by done. apply K1. by rewrite Hsch.
Qed.

(** The filters of the operator, in the order of the moment. *)
Definition sorted_filters (fs : list LookupFilter) (st : State) : Prop := exists gs, Permutation gs fs /\ filters_ok gs st.

(** The rows of chunk [i] that pass all filters. *)
Definition done_chunk (fs : list LookupFilter) (lip : list (list Z)) (i : nat) : Prop :=
  exists idxs, lip !! i = Some idxs /\ Permutation idxs (expected fs i).

Lemma batch_chunks_spec bs k : 0 < bs -> 0 <= k ->
  exists a m, batch_chunks (Z.of_nat (length col)) bs k = seq a m /\ Z.of_nat a = k * bs /\
    (forall i, (i < length col)%nat -> k * bs <= Z.of_nat i < (k + 1) * bs -> i ∈ seq a m) /\ Forall (fun i => (i < length col)%nat) (seq a m) /\
    weight (seq a m) <= rows col.
Proof.
  intros Hb Hk. unfold batch_chunks. eexists _, _. split; [reflexivity |]. split_and!.
  - nia.
  - intros i Hi Hr. apply elem_of_seq. destruct (Z.ltb_spec (k * bs + bs - 1) (Z.of_nat (length col))); nia.
  - apply Forall_forall. intros i Hi. apply elem_of_seq in Hi. destruct (Z.ltb_spec (k * bs + bs - 1) (Z.of_nat (length col))); nia.
  - set (a := Z.to_nat (k * bs)). set (m := Z.to_nat _). destruct m as [|m'] eqn:Em; [change (weight (seq a 0)) with 0; unfold rows; lia |]. rewrite <- Em.
    assert (a + m <= length col)%nat as Ham by (unfold a, m in *; destruct (Z.ltb_spec (k * bs + bs - 1) (Z.of_nat (length col))); nia).
    rewrite weight_seq by done. pose proof (start_row_le col (a + m)). unfold rows. lia.
Qed.

Lemma lip_batches_ok bs fs : rates_ok (rows col) -> 0 < bs -> fs <> [] ->
  forall n k st, 0 <= k -> k + Z.of_nat n < 2 ^ 31 -> sorted_filters fs st -> Forall (stats_ok k) (dim_filters_ st) ->
  Forall (counted 0) (dim_filters_ st) ->
  (forall i, (i < length col)%nat -> Z.of_nat i < k * bs -> done_chunk fs (lip_indices_ st) i) ->
  exists st', LIP.run_batches fact_fk_cols offsets sort schedule n k (length fs) (Z.of_nat (length col)) bs st = Some st' /\
    length (lip_indices_ st') = length col /\
    (forall i, (i < length col)%nat -> Z.of_nat i < (k + Z.of_nat n) * bs -> done_chunk fs (lip_indices_ st') i).
Proof.
  intros Hr Hb Hne. induction n as [|n IH]; intros k st Hk Hkn (gs & HPg & Hok) HS HC HD; cbn [LIP.run_batches].
  { exists st. split_and!; [done | by destruct Hok as (_ & _ & _ & ?) |]. intros i Hi Hlt. apply HD; [done | lia]. }
  destruct (batch_chunks_spec bs k Hb Hk) as (a & m & -> & Ha & Hin & Hlt & Hw). rewrite <- (Permutation_length HPg).
  destruct (run_filters_ok k gs (seq a m)) with (n := length gs) (j := 0%nat) (st := st) as (st1 & -> & Hok1 & S1 & C1 & P1 & K1); try done.
  { apply NoDup_seq. } { intros j' f Ef. rewrite decide_False by lia. by eapply Forall_lookup_1 in HC. } { apply Forall_forall. intros; by left. }
  cbn [mbind option_bind]. pose proof Hok1 as (Hs1 & Hu1 & Hc1 & Hl1). unfold update_and_sort.
  destruct (update_all_ok k gs Hr ltac:(lia) (dim_filters_ st1) Hs1 S1 C1) as (l & -> & Hsl & Tl & Cl). cbn [mbind option_bind].
  rewrite (Permutation_length HPg).
  destruct (IH (k + 1) (mkState (sort SortByBloomFilter l) (lip_indices_ st1))) as (st2 & -> & Hl2 & D2); cbn [dim_filters_ lip_indices_]; try lia.
  - destruct (Forall2_perm_l same (sort SortByBloomFilter l) l gs) as (gs' & HPg' & Hs'); [apply Hsort | done |]. exists gs'.
    split; [by rewrite HPg' |]. split_and!; cbn [dim_filters_ lip_indices_]; [done | by rewrite HPg' | by rewrite HPg' | done].
  - by rewrite Hsort.
  - by rewrite Hsort.
  - intros i Hi Hlt'. destruct (decide (i ∈ seq a m)) as [Hin' | Hni].
    + eapply Forall_forall in P1; [| exact Hin']. destruct P1 as [E0 | (idxs & Ei & HP)].
      { apply length_zero_iff_nil in E0. subst gs. apply Permutation_nil_l in HPg. done. }
      exists idxs. split; [done |]. rewrite HP, firstn_all. by rewrite (expected_perm gs fs).
    + unfold done_chunk. rewrite K1 by done. apply HD; [done |]. destruct (Z.lt_ge_cases (Z.of_nat i) (k * bs)); [done |]. exfalso. apply Hni, Hin; [done | lia].
  - exists st2. split_and!; try done. intros i Hi Hlt'. apply D2; [done | lia].
Qed.

End Run.

End LipRun.

Import LipRun.

(** ** Building the filters *)

Module LipBuild.

Lemma insert_all_app xs ys b : insert_all bloom_index (xs ++ ys) b = insert_all bloom_index xs b ≫= insert_all bloom_index ys.
Proof. revert b. induction xs as [|x xs IH]; intros b; cbn [app insert_all]; [done |]. destruct (BF.insert bloom_index x b); [apply IH | done]. Qed.

Lemma bloom_rows_ok c bits offset : match bits with None => True | Some b => bits_cover c b end ->
  forall vals k b, 0 <= k -> k + Z.of_nat (length vals) = Z.of_nat (length c) ->
  insert_rows vals k bits b = insert_all bloom_index (snd <$> chunk_active vals k offset bits) b.
Proof.
  intros Hb. induction vals as [|v vals IH]; intros k b Hk Hl; cbn [insert_rows chunk_active length] in *; [done |].
  rewrite (passes_ok bits c) by (done || lia). cbn [mbind option_bind]. rewrite fmap_app, insert_all_app. destruct (bit_of bits k).
  - cbn [fmap list_fmap insert_all snd]. destruct (BF.insert bloom_index v b); cbn [mbind option_bind]; [apply IH; lia | done].
  - cbn. apply IH; lia.
Qed.

Lemma output_size_ok c bits offset : match bits with None => True | Some b => bits_cover c b end ->
  forall vals k, 0 <= k -> k + Z.of_nat (length vals) = Z.of_nat (length c) ->
  output_size vals k bits = Some (Z.of_nat (length (chunk_active vals k offset bits))).
Proof.
  intros Hb. induction vals as [|v vals IH]; intros k Hk Hl; cbn [output_size chunk_active length] in *; [done |].
  rewrite (passes_ok bits c) by (done || lia). cbn [mbind option_bind]. rewrite IH by lia. cbn [mbind option_bind]. f_equal.
  rewrite length_app. destruct (bit_of bits k); cbn [Z.b2z length]; lia.
Qed.

Lemma insert_chunks_ok col f : filter_ok col f -> forall rest i offset b, drop i col = rest ->
  insert_chunks rest i f b = insert_all bloom_index (snd <$> concat (active_from rest f i offset)) b.
Proof.
  intros HF. induction rest as [|c rest IH]; intros i offset b Hd; cbn [insert_chunks active_from concat]; [done |].
  assert (col !! i = Some c) as Ec by (rewrite <- (Nat.add_0_r i), <- lookup_drop, Hd; done).
  destruct (filter_chunk_ok col f i c HF Ec) as (bits & -> & -> & Hb). cbn [mbind option_bind].
  rewrite (bloom_rows_ok c _ offset Hb) by lia. rewrite fmap_app, insert_all_app.
  destruct (insert_all _ _ b); cbn [mbind option_bind]; [| done]. apply IH. rewrite (drop_S _ _ _ Ec) in Hd. by injection Hd.
Qed.

Lemma length_after_filtering_ok col f : filter_ok col f -> forall rest i offset, drop i col = rest ->
  length_after_filtering rest i f = Some (Z.of_nat (length (concat (active_from rest f i offset)))).
Proof.
  intros HF. induction rest as [|c rest IH]; intros i offset Hd; cbn [length_after_filtering active_from concat]; [done |].
  assert (col !! i = Some c) as Ec by (rewrite <- (Nat.add_0_r i), <- lookup_drop, Hd; done).
  destruct (filter_chunk_ok col f i c HF Ec) as (bits & -> & -> & Hb). cbn [mbind option_bind].
  rewrite (output_size_ok c _ offset Hb) by lia. cbn [mbind option_bind].
  rewrite (IH (S i) (offset + Z.of_nat (length c))) by (rewrite (drop_S _ _ _ Ec) in Hd; by injection Hd). cbn [mbind option_bind].
  rewrite length_app. f_equal. lia.
Qed.

(** The keys of the active rows of a dimension. *)
Definition dim_values (pk_col : Chunks) (dim : LazyTable) : list Z := snd <$> concat (active pk_col (filter dim)).

Lemma length_active_all (col : Chunks) : forall i offset, length (concat (active_from col None i offset)) = length (concat col).
Proof.
  assert (forall c row offset, length (chunk_active c row offset None) = length c) as Hc.
  { induction c as [|v c IH]; intros row offset; cbn [chunk_active bit_of]; [done |]. cbn. by rewrite IH. }
  induction col as [|c col IH]; intros i offset; cbn [active_from concat]; [done |]. rewrite !length_app, IH. by rewrite Hc.
Qed.

(** A filter accepts the keys that share a cell with an active key and that the
    hash table contains. *)
Definition accepted (vals : list Z) (h : option HashTable) (key : Z) : bool :=
  existsb (fun v => cell bloom_index (Z.of_nat (length vals) * 100) key =? cell bloom_index (Z.of_nat (length vals) * 100) v) vals &&
  match h with Some h => bool_decide (is_Some (h !! key)) | None => true end.

Lemma accepted_in vals h key : key ∈ vals -> (forall h', h = Some h' -> forall k, is_Some (h' !! k) <-> k ∈ vals) -> accepted vals h key = true.
Proof.
  intros Hk Hh. unfold accepted. apply andb_true_iff. split.
  - apply existsb_exists. exists key. split; [by apply list_elem_of_In | apply Z.eqb_refl].
  - destruct h as [h|]; [| done]. apply bool_decide_eq_true. by apply (Hh h eq_refl).
Qed.

Lemma build_filter_ok col rands pk_col name dim : filter_ok pk_col (filter dim) -> Z.of_nat (length (dim_values pk_col dim)) * 100 < 2 ^ 31 ->
  (3 <= length rands)%nat ->
  exists f, build_filter rands pk_col name dim = Some f /\ usable f /\ fk_name_ (bloom_filter f) = name /\
    (forall key, verdict f key = accepted (dim_values pk_col dim) (hash_table_ dim) key) /\ stats_ok col 0 f /\ counted 0 f /\
    window_ok 1 [(0, 0)] (bloom_filter f).
Proof.
  intros HF Hn Hr. set (vals := dim_values pk_col dim) in *. set (n := Z.of_nat (length vals)) in *.
  assert (match filter dim with None => Some (Z.of_nat (length (concat pk_col))) | Some f => length_after_filtering pk_col 0 (Some f) end = Some n) as En.
  { unfold n, vals, dim_values. rewrite length_fmap. unfold active. destruct (filter dim) as [f|] eqn:Ef.
    - by apply (length_after_filtering_ok pk_col).
    - by rewrite length_active_all. }
  destruct (BloomBits.new_ok (lo := 0) n rands) as (b0 & E0 & Hb0 & Hc0 & Hz); [lia | lia | done |].
  destruct (insert_all_ok (index_of := bloom_index) (lo := 0) vals b0 Hb0) as (cs & Ei & Hb & Hbits).
  unfold build_filter. rewrite En. cbn [mbind option_bind]. rewrite E0. cbn [mbind option_bind].
  rewrite (insert_chunks_ok pk_col (filter dim) HF pk_col 0 0) by done. change (snd <$> concat (active_from pk_col (filter dim) 0 0)) with vals.
  rewrite Ei. cbn [mbind option_bind].
  assert (hit_count_queue_sum_ b0 = 0 /\ probe_count_queue_sum_ b0 = 0 /\ hist_ b0 = newHistogram 100 0 1 /\ hit_count_ b0 = 0 /\ probe_count_ b0 = 0) as (Z1 & Z2 & Z3 & Z4 & Z5).
  { unfold newBloomFilter in E0. destruct (int_chk _); [| done]. cbn [mbind option_bind] in E0. destruct (_ <? 0); [done |]. injection E0 as <-. done. }
  destruct (set_memory_ok 1 (set_cells cs b0)) as (b1 & E1 & Hw); [lia | done | done |]. change (Z.of_nat 1) with 1 in E1.
  rewrite E1. cbn [mbind option_bind]. eexists. split; [reflexivity |].
  assert (exists w, b1 = set_window (hit_count_ b0) (probe_count_ b0) (hit_count_queue_sum_ b0) (probe_count_queue_sum_ b0) w (hist_ b0) (set_cells cs b0)) as [w Eb1].
  { unfold set_memory in E1. cbn in E1. injection E1 as <-. by eexists. }
  assert (usable (mkLookupFilter (set_fact_fk_name name b1) (hash_table_ dim))) as Hu.
  { rewrite Eb1. destruct Hb. by constructor. }
  split_and!; [done | done | | | | exact Hw].
  - intros key. unfold verdict, lookup_key, probe. rewrite Eb1. cbn [bloom_filter set_fact_fk_name num_hash_ set_window set_cells].
    rewrite (ok_hash _ _ Hb0). change (Z.to_nat 3) with 3%nat. rewrite Eb1 in Hu. rewrite (probe_loop_ok (lo := 0) 3 0 key _ Hu) by done.
    cbn [mbind option_bind Nat.eqb orb cells_ num_cells_ set_fact_fk_name set_window set_cells bloom_filter].
    rewrite Hbits by (apply (cell_ok (lo := 0) b0 key 0 Hb0)). rewrite Hz, Hc0. unfold accepted. fold n. cbn [orb hash_table].
    destruct (existsb _ vals); [by destruct (hash_table_ dim) | done].
  - split; [exists (0, 0) | by rewrite Eb1; cbn; rewrite Z3; apply newHistogram_ok]. split; [| cbn; unfold rows; lia]. exact Hw.
  - rewrite Eb1. split; cbn; lia.
Qed.

End LipBuild.

Import LipBuild.

(** ** The operator *)

Module LipResult.

Definition same_shape (c d : Chunks) : Prop := (length <$> c) = (length <$> d).

Lemma start_row_shape c d i : same_shape c d -> start_row c i = start_row d i.
Proof.
  unfold same_shape, start_row. revert d i. induction c as [|x c IH]; intros [|y d] [|i] H; try done. cbn in H. injection H as Hx H.
  cbn [take concat]. rewrite !length_app, Hx. f_equal. by apply IH.
Qed.

Lemma same_shape_lookup c d i y : same_shape c d -> d !! i = Some y -> exists x, c !! i = Some x /\ length x = length y.
Proof.
  intros H E. assert ((length <$> d) !! i = Some (length y)) as E' by (rewrite list_lookup_fmap, E; done). rewrite <- H, list_lookup_fmap in E'.
  destruct (c !! i) as [x|]; [| done]. injection E' as E'. eauto.
Qed.

(** A predicate, its dimension and its foreign key column in the fact table. *)
Record dim_ok (get_column : Z -> string -> option Chunks) (fact : LazyTable) (col : Chunks) (p : JoinPredicate) (dim : LazyTable)
    (fk pk : Chunks) : Prop := {
  d_fk : get_column (table fact) (col_name (left_col_ p)) = Some fk;
  d_pk : get_column (table dim) (col_name (right_col_ p)) = Some pk;
  d_shape : same_shape fk col;
  d_filter : filter_ok pk (filter dim);
  d_size : Z.of_nat (length (dim_values pk dim)) * 100 < 2 ^ 31;
  d_hash : forall h, hash_table_ dim = Some h -> forall k, is_Some (h !! k) <-> k ∈ dim_values pk dim
}.

Lemma has_column_ok get_column fact col p dim fk pk f : indices fact = None -> materialized_cols_ fact = ∅ ->
  dim_ok get_column fact col p dim fk pk -> fk_name_ (bloom_filter f) = col_name (left_col_ p) ->
  has_column (fact_fk_col get_column fact) col f /\ fact_fk_col get_column fact (fk_name_ (bloom_filter f)) = Some fk.
Proof.
  intros Hi Hm [] En. assert (fact_fk_col get_column fact (fk_name_ (bloom_filter f)) = Some fk) as E.
  { unfold fact_fk_col, MaterializeColumn, gathered. rewrite En, Hm, lookup_empty, d_fk0. cbn [mbind option_bind]. by rewrite Hi. }
  split; [| done]. exists fk. split_and!; [done | by rewrite <- (length_fmap length fk), d_shape0, length_fmap |].
  intros i Hlt. destruct (lookup_lt_is_Some_2 col i Hlt) as [y Ey]. destruct (same_shape_lookup fk col i y d_shape0 Ey) as (x & Ex & Hx).
  exists x. split; [done |]. unfold chunk_len. by rewrite Ey.
Qed.

(** The filters of the dimensions, and what they accept. *)
(** The filters of the dimensions, one by one. *)
Lemma filters_exist get_column rands fact col : indices fact = None -> materialized_cols_ fact = ∅ -> (forall i, (3 <= length (rands i))%nat) ->
  forall preds dims fks pks i, length preds = length dims -> length preds = length fks -> length preds = length pks ->
  (forall k p dim fk pk, preds !! k = Some p -> dims !! k = Some dim -> fks !! k = Some fk -> pks !! k = Some pk ->
     dim_ok get_column fact col p dim fk pk) ->
  exists fs, length fs = length dims /\
    (forall k p dim pk f, preds !! k = Some p -> dims !! k = Some dim -> pks !! k = Some pk -> fs !! k = Some f ->
       build_filter (rands (i + k)%nat) pk (col_name (left_col_ p)) dim = Some f) /\
    Forall usable fs /\ Forall (has_column (fact_fk_col get_column fact) col) fs /\ Forall (stats_ok col 0) fs /\ Forall (counted 0) fs /\
    forall k f fk pk dim, fs !! k = Some f -> fks !! k = Some fk -> pks !! k = Some pk -> dims !! k = Some dim ->
      fact_fk_col get_column fact (fk_name_ (bloom_filter f)) = Some fk /\
      forall key, verdict f key = accepted (dim_values pk dim) (hash_table_ dim) key.
Proof.
  intros Hi Hm Hr. induction preds as [|p preds IH]; intros dims fks pks i L1 L2 L3 HD.
  { destruct dims; [| done]. exists []. done. }
  destruct dims as [|dim dims]; [done |]. destruct fks as [|fk fks]; [done |]. destruct pks as [|pk pks]; [done |].
  injection L1 as L1. injection L2 as L2. injection L3 as L3. pose proof (HD 0%nat p dim fk pk eq_refl eq_refl eq_refl eq_refl) as HD0.
  destruct (build_filter_ok col (rands i) pk (col_name (left_col_ p)) dim) as (f & Ef & Hu & En & Hv & Hs & Hc & _); [apply HD0 | apply HD0 | done |].
  destruct (has_column_ok get_column fact col p dim fk pk f Hi Hm HD0 En) as [Hcol Efk].
  destruct (IH dims fks pks (S i) L1 L2 L3) as (fs & Hl & Efs & U & C & T & N & HV).
  { intros k p' dim' fk' pk' E1 E2 E3 E4. by apply (HD (S k)). }
  exists (f :: fs). split_and!; [cbn; by rewrite Hl | | by constructor | by constructor | by constructor | by constructor |].
  - intros [|k] p' dim' pk' f' E1 E2 E3 E4; [rewrite Nat.add_0_r; injection E1 as <-; injection E2 as <-; injection E3 as <-; by injection E4 as <- |].
    rewrite <- Nat.add_succ_comm. by apply Efs.
  - intros [|k] f' fk' pk' dim' E1 E2 E3 E4; [| by apply (HV k)]. injection E1 as <-. injection E2 as <-. injection E3 as <-. injection E4 as <-. done.
Qed.

(** The names under which the key columns are kept. *)
Definition key_names (preds : list JoinPredicate) : list string := (fun p => col_name (right_col_ p)) <$> preds.

Lemma key_columns get_column fact col preds dims fks pks : length preds = length dims -> length preds = length fks -> length preds = length pks ->
  (forall k p dim fk pk, preds !! k = Some p -> dims !! k = Some dim -> fks !! k = Some fk -> pks !! k = Some pk ->
     dim_ok get_column fact col p dim fk pk) ->
  forall i name c, key_names preds !! i = Some name -> pks !! i = Some c -> (dim ← dims !! i; get_column (table dim) name) = Some c.
Proof.
  intros L1 L2 L3 HD i name c Ep Ec. unfold key_names in Ep. rewrite list_lookup_fmap in Ep.
  destruct (preds !! i) as [p|] eqn:Ei; [| done]. injection Ep as <-. pose proof (lookup_lt_Some _ _ _ Ei) as Hi.
  destruct (lookup_lt_is_Some_2 dims i) as [dim Ed]; [lia |]. destruct (lookup_lt_is_Some_2 fks i) as [fk Ef]; [lia |].
  rewrite Ed. cbn [mbind option_bind]. apply (d_pk _ _ _ _ _ _ _ (HD i p dim fk c Ei Ed Ef Ec)).
Qed.

Lemma build_filters_ok get_column rands fact col tasks preds dims fks pks : indices fact = None -> materialized_cols_ fact = ∅ ->
  (forall i, (3 <= length (rands i))%nat) -> length preds = length dims -> length preds = length fks -> length preds = length pks ->
  (forall k p dim fk pk, preds !! k = Some p -> dims !! k = Some dim -> fks !! k = Some fk -> pks !! k = Some pk ->
     dim_ok get_column fact col p dim fk pk) ->
  NoDup (key_names preds) -> task_order (length dims) tasks ->
  exists fs, build_filters get_column rands tasks preds dims = Some fs /\ length fs = length dims /\
    Forall usable fs /\ Forall (has_column (fact_fk_col get_column fact) col) fs /\ Forall (stats_ok col 0) fs /\ Forall (counted 0) fs /\
    forall k f fk pk dim, fs !! k = Some f -> fks !! k = Some fk -> pks !! k = Some pk -> dims !! k = Some dim ->
      fact_fk_col get_column fact (fk_name_ (bloom_filter f)) = Some fk /\
      forall key, verdict f key = accepted (dim_values pk dim) (hash_table_ dim) key.
Proof.
  intros Hi Hm Hr L1 L2 L3 HD HN HT.
  destruct (filters_exist get_column rands fact col Hi Hm Hr preds dims fks pks 0 L1 L2 L3 HD) as (fs & Hl & Ef & Hrest).
  exists fs. split; [| done]. unfold build_filters.
  assert (length (key_names preds) = length dims) as Ln by (unfold key_names; by rewrite length_fmap). rewrite <- Ln in HT |- *.
  apply (build_all_ok (key_names preds) _ _ pks fs HN); [lia | lia | | | done].
  - by apply (key_columns get_column fact col preds dims fks).
  - intros i c f Ec Ei. pose proof (lookup_lt_Some _ _ _ Ec) as Hlt. destruct (lookup_lt_is_Some_2 dims i) as [dim Ed]; [lia |].
    destruct (lookup_lt_is_Some_2 preds i) as [p Ep]; [lia |]. rewrite Ed. cbn [mbind option_bind]. rewrite Ep. cbn [mbind option_bind]. by apply (Ef i).
Qed.

(** The indices chunk by chunk. *)
Lemma indices_ok col (lip : list (list Z)) : forall k, Z.of_nat (length col) < 2 ^ 16 -> (k + length lip <= length col)%nat ->
  (forall i idxs, lip !! i = Some idxs -> NoDup idxs /\ Forall (in_rows (Z.of_nat (start_row col (k + i))) (chunk_len col (k + i))) idxs) ->
  NoDup (concat lip) /\ Forall2 (in_chunk col) (concat lip) (index_chunks_of (Z.of_nat k) lip) /\
  Forall (fun r => Z.of_nat (start_row col k) <= r) (concat lip).
Proof.
  induction lip as [|idxs lip IH]; intros k H16 Hk H; cbn [concat index_chunks_of]; [split_and!; constructor |]. cbn [length] in Hk.
  destruct (H 0%nat idxs eq_refl) as [Hnd HF]. rewrite Nat.add_0_r in HF.
  destruct (lookup_lt_is_Some_2 col k) as [c Ec]; [lia |]. pose proof (start_row_S col k c Ec) as HS.
  assert (chunk_len col k = length c) as Ecl by (unfold chunk_len; by rewrite Ec).
  destruct (IH (S k)) as (N2 & F2 & B2); [done | lia | |].
  { intros i idxs' E. replace (S k + i)%nat with (k + S i)%nat by lia. by apply H. }
  split_and!.
  - apply NoDup_app. split_and!; [done | | done]. intros r H1 H2. eapply Forall_forall in HF; [| exact H1]. eapply Forall_forall in B2; [| exact H2].
    unfold in_rows in HF. cbv beta in B2. lia.
  - rewrite wrapu_id by (unfold is_u; lia). apply Forall2_app; [| replace (Z.of_nat k + 1) with (Z.of_nat (S k)) by lia; done].
    clear -HF Ec Ecl. induction HF as [|r idxs Hr HF IH]; cbn [length replicate]; [constructor |]. constructor; [| done].
    exists k, c. unfold in_rows in Hr. rewrite Ecl in Hr. split_and!; [done | done | lia | lia].
  - apply Forall_app. split; eapply Forall_impl; [exact HF | unfold in_rows; cbv beta; lia | exact B2 | cbv beta; lia].
Qed.

Lemma expected_NoDup cols col fs i : NoDup (expected cols col fs i).
Proof. unfold expected, keep_from. apply NoDup_fmap_2; [intros x y ?; lia |]. apply NoDup_filter, NoDup_seq. Qed.

(** A row of the fact table is in the result exactly if all filters accept it. *)
Lemma in_expected cols col fs i r : r ∈ expected cols col fs i <->
  exists n : nat, r = Z.of_nat (start_row col i) + Z.of_nat n /\ (n < chunk_len col i)%nat /\ forall f, f ∈ fs -> accepts cols f i n = true.
Proof.
  unfold expected, keep_from. rewrite list_elem_of_fmap. split.
  - intros (n & -> & Hn). apply list_elem_of_filter in Hn as [Ha Hn]. apply elem_of_seq in Hn. exists n. split_and!; [done | lia |].
    intros f Hf. rewrite forallb_forall in Ha. apply Ha. by apply list_elem_of_In.
  - intros (n & -> & Hn & Ha). exists n. split; [done |]. apply list_elem_of_filter. split; [| apply elem_of_seq; lia].
    apply forallb_forall. intros f Hf. apply Ha. by apply list_elem_of_In.
Qed.

Lemma fold_append_lazy dims : forall out, fold_left (fun out dim => append_lazy dim out) dims out = rev dims ++ out.
Proof. induction dims as [|d dims IH]; intros out; cbn [fold_left rev]; [done |]. rewrite IH, <- (assoc_L (++)). done. Qed.

(** The chunk and row of a row of the table. *)
Lemma row_chunk (col : Chunks) r : 0 <= r < rows col ->
  exists i n, (i < length col)%nat /\ (n < chunk_len col i)%nat /\ r = Z.of_nat (start_row col i) + Z.of_nat n.
Proof.
  unfold rows, chunk_len, start_row. revert r. induction col as [|c col IH]; intros r Hr; cbn [concat] in Hr; [cbn in Hr; lia |].
  rewrite length_app in Hr. destruct (Z.lt_ge_cases r (Z.of_nat (length c))) as [Hlt | Hge].
  - exists 0%nat, (Z.to_nat r). cbn. split_and!; lia.
  - destruct (IH (r - Z.of_nat (length c))) as (i & n & Hi & Hn & E); [lia |]. exists (S i), n. cbn [length lookup list_lookup take concat].
    rewrite length_app. split_and!; [lia | exact Hn | lia].
Qed.

(** All batches: every chunk holds the rows that all filters accept. *)
Lemma probe_filters_ok cols col offs sort schedule hardware_concurrency fs :
  (forall lt l, Permutation (sort lt l) l) -> (forall l, Permutation (schedule l) l) -> rows col < 2 ^ 30 -> Z.of_nat (length col) < 2 ^ 16 ->
  (forall i, (i < length col)%nat -> offs !! i = Some (Z.of_nat (start_row col i))) -> rates_ok (rows col) -> 0 < hardware_concurrency -> fs <> [] ->
  Forall usable fs -> Forall (has_column cols col) fs -> Forall (stats_ok col 0) fs -> Forall (counted 0) fs ->
  exists st, probe_filters cols offs sort schedule hardware_concurrency (Z.of_nat (length col)) (length fs)
      (mkState fs (replicate (length col) [])) = Some st /\
    length (lip_indices_ st) = length col /\ forall i, (i < length col)%nat -> done_chunk cols col fs (lip_indices_ st) i.
Proof.
  intros Hsort Hsch Hrows H16 Hoff Hrate Hw Hfs Hu Hc Hs Hn. set (n := Z.of_nat (length col)).
  assert (0 <= n / hardware_concurrency) as Hdp by (apply Z.div_pos; lia).
  assert (n / hardware_concurrency <= n) as Hdl by (apply Z.div_le_upper_bound; nia).
  destruct (lip_batches_ok cols col offs sort schedule Hsort Hsch Hrows Hoff hardware_concurrency fs Hrate Hw Hfs
    (Z.to_nat (n / hardware_concurrency + 1)) 0 (mkState fs (replicate (length col) []))) as (st & Est & Hlip & HDone); try done.
  { unfold n in *. lia. }
  { exists fs. split; [done |]. split_and!; cbn [dim_filters_ lip_indices_]; try done; [| by rewrite length_replicate].
    apply Forall_Forall2_diag. by apply Forall_true. }
  { intros i Hlt Hz. lia. }
  exists st. split_and!; [| done |].
  - unfold probe_filters. rewrite !(proj2 (Z.eqb_neq hardware_concurrency 0)) by lia. exact Est.
  - intros i Hlt. apply HDone; [done |]. pose proof (Z.div_mod n hardware_concurrency ltac:(lia)).
    pose proof (Z.mod_pos_bound n hardware_concurrency Hw). unfold n in *. rewrite Z2Nat.id by lia. nia.
Qed.

(** The rows of the result. *)
Lemma in_lip cols col fs lip r : length lip = length col -> (forall i, (i < length col)%nat -> done_chunk cols col fs lip i) ->
  r ∈ concat lip <-> exists i, (i < length col)%nat /\ r ∈ expected cols col fs i.
Proof.
  intros Hlip HD. rewrite list_elem_of_In, in_concat. split.
  - intros (idxs & Hx & Hr'). apply list_elem_of_In in Hx, Hr'. apply list_elem_of_lookup in Hx as [i Ei].
    assert (i < length col)%nat as Hlt by (rewrite <- Hlip; by eapply lookup_lt_Some). exists i. split; [done |].
    destruct (HD i Hlt) as (idxs' & Ei' & HP). rewrite Ei in Ei'. injection Ei' as <-. by rewrite <- HP.
  - intros (i & Hlt & Hr'). destruct (HD i Hlt) as (idxs' & Ei' & HP). exists idxs'. rewrite <- HP in Hr'.
    split; apply list_elem_of_In; [by eapply list_elem_of_lookup_2 | done].
Qed.

(** A filter judges a row by the value of its foreign key. *)
Lemma accepts_value cols col f fk pk dim i m : cols (fk_name_ (bloom_filter f)) = Some fk -> same_shape fk col ->
  (forall key, verdict f key = accepted (dim_values pk dim) (hash_table_ dim) key) -> (i < length col)%nat -> (m < chunk_len col i)%nat ->
  accepts cols f i m = accepted (dim_values pk dim) (hash_table_ dim) (value_at fk (Z.of_nat (start_row col i) + Z.of_nat m)).
Proof.
  intros Efk Hsh Hv Hlt Hm. destruct (lookup_lt_is_Some_2 col i Hlt) as [y Ey].
  destruct (same_shape_lookup fk col i y Hsh Ey) as (x & Ex & Hx). unfold accepts. rewrite Efk. cbn [mbind option_bind]. rewrite Ex, Hv. f_equal.
  assert (m < length x)%nat as Hmx by (unfold chunk_len in Hm; rewrite Ey in Hm; cbn in Hm; lia).
  rewrite <- (start_row_shape fk col i Hsh), <- Nat2Z.inj_add. apply nth_lookup_Some. by apply value_at_chunk.
Qed.

End LipResult.

Import LipResult.


(** ** An example *)

Module LipDemo.

(** Table 1 is the fact table; tables 2 and 3 are its dimensions, table 2 with a
    filter and a hash table. *)
Definition demo_columns (t : Z) (name : string) : option Chunks :=
  if t =? 1 then (if String.eqb name "fk2" then Some [[5; 7]; [5]] else Some [[1; 2]; [9]])
  else if t =? 2 then Some [[5; 6]] else Some [[1; 9]].

Definition demo_hash : HashTable := <[5 := [mkRecordID 0 0]]> ∅.
Definition demo_fact : LazyTable := newLazyTable 1 None None None None.
Definition demo_dims : list LazyTable := [newLazyTable 2 (Some [[1]]) None None (Some demo_hash); newLazyTable 3 None None None None].
Definition demo_preds : list JoinPredicate :=
  [mkJoinPredicate (mkColumnReference 1 "fk2") (mkColumnReference 2 "pk2"); mkJoinPredicate (mkColumnReference 1 "fk3") (mkColumnReference 3 "pk3")].
Definition demo_graph : Graph.JoinGraph := Graph.mkJoinGraph [demo_preds] [1] 2.
Definition demo_tasks : list BuildTask := [LoadColumn 1; LoadColumn 0; BuildFilter 0; BuildFilter 1].

Lemma demo_rates : rates_ok 3.
Proof.
  intros h p Hh Hp. assert (p = 0 \/ p = 1 \/ p = 2 \/ p = 3) as Ep by lia. assert (h = 0 \/ h = 1 \/ h = 2 \/ h = 3) as Ehh by lia.
  destruct Ep as [-> | [-> | [-> | ->]]], Ehh as [-> | [-> | [-> | ->]]]; try lia;
    (eexists; split; [vm_compute; reflexivity | lia]).
Qed.

Lemma demo_dim_ok k p dim fk pk : demo_preds !! k = Some p -> demo_dims !! k = Some dim -> [[[5; 7]; [5]]; [[1; 2]; [9]]] !! k = Some fk ->
  [[[5; 6]]; [[1; 9]]] !! k = Some pk -> dim_ok demo_columns demo_fact [[5; 7]; [5]] p dim fk pk.
Proof.
  destruct k as [|[|k]]; intros E1 E2 E3 E4; try done; injection E1 as <-; injection E2 as <-; injection E3 as <-; injection E4 as <-.
  - constructor; try reflexivity.
    + repeat (apply Forall2_cons_2; [vm_compute; intros [=] |]). constructor.
    + intros h [= <-] k'. change (dim_values _ _) with [5]. rewrite list_elem_of_singleton. unfold demo_hash. split.
      * intros [x Hx]. apply lookup_insert_Some in Hx as [[<- _] | [_ Hx]]; [done | by rewrite lookup_empty in Hx].
      * intros ->. by rewrite lookup_insert_eq.
  - by constructor.
Qed.

(** The keys of a row, dimension by dimension. *)
Lemma demo_values r : value_at [[5; 7]; [5]] r ∈ [5] -> value_at [[1; 2]; [9]] r ∈ [1; 9] ->
  forall k fk pk dim, [[[5; 7]; [5]]; [[1; 2]; [9]]] !! k = Some fk -> [[[5; 6]]; [[1; 9]]] !! k = Some pk -> demo_dims !! k = Some dim ->
  value_at fk r ∈ dim_values pk dim.
Proof.
  intros H1 H2 [|[|k]] fk pk dim E1 E2 E3; [| | discriminate E1]; injection E1 as <-; injection E2 as <-; injection E3 as <-; [exact H1 | exact H2].
Qed.

End LipDemo.

Import LipDemo.

Lemma demo_task_order : task_order 2 demo_tasks.
Proof.
  split; [| reflexivity]. apply (bool_decide_eq_true_1 _). vm_compute. reflexivity.
Qed.


(** With the same name for both key columns, the filter of the first dimension is
    built from the column of the second when its column is loaded last: every row
    of the fact table is dropped, although rows 0 and 2 join. *)
Definition clash_preds : list JoinPredicate :=
  [mkJoinPredicate (mkColumnReference 1 "fk2") (mkColumnReference 2 "pk"); mkJoinPredicate (mkColumnReference 1 "fk3") (mkColumnReference 3 "pk")].

Theorem lip_key_names_clash :
  exists chks, Execute demo_columns (fun _ => [1; 2; 3]) (fun _ l => l) [LoadColumn 0; LoadColumn 1; BuildFilter 0; BuildFilter 1] (fun l => l) 2
    (Graph.mkJoinGraph [clash_preds] [1] 2) [[demo_fact]; demo_dims] [] =
      Some (rev demo_dims ++ [newLazyTable 1 None (Some []) (Some chks) None]).
Proof. eexists. vm_compute. reflexivity. Qed.
