(* ===== verification/MultiwayJoin.v ===== *)
(** * The multiway join (operators/join/multiway_join)

    [MultiwayJoin] runs the joins of the first group of a join graph one after
    the other as a chain of tasks.  Every join probes a hash table of its right
    table and rewrites the index arrays of all tables that have been joined so
    far.  The tasks of a probe may run in any order, which is an argument.  The
    join columns hold integers; the code throws for columns of any other type. *)

From Stdlib Require Import ZArith Lia SpecFloat.
From stdpp Require Import base numbers list gmap option strings.
Import stdpp.list_basics.list stdpp.list_relations.list stdpp.list_monad.list.
From S2P Require Import Prelude Bloom Columns HashJoin Lip.
Import Hist Columns ColumnsProof Lazy Join JoinSpec JoinResult Graph.

Local Open Scope Z_scope.

Module Multi.

(** [chunk->Value(row)] as the key of the hash table, an [int64_t]. *)
Definition chunk_val (v : Z) : Z := to_i64 v.

(** ** Build *)

(** The lambda [build_hash_table] on the rows of one chunk. *)
Fixpoint build_rows (values : list Z) (row offset : Z) (i : nat) (bits : option (list Z)) (ht : HashTable) : option HashTable :=
  match values with
  | [] => Some ht
  | v :: values' =>
      ok ← passes bits row;
      let ht := if (ok : bool)
                then insert_record (chunk_val v) (mkRecordID (to_u32 (to_u32 offset + row)) (to_u16 (Z.of_nat i))) ht
                else ht in
      build_rows values' (row + 1) offset i bits ht
  end.

Fixpoint build_chunks (col : Chunks) (offsets : list Z) (i : nat) (f : option Chunks) (ht : HashTable) : option HashTable :=
  match col with
  | [] => Some ht
  | c :: col' =>
      bits ← filter_chunk f i;
      offset ← offsets !! i;
      ht ← build_rows c 0 offset i bits ht;
      build_chunks col' offsets (S i) f ht
  end.

Definition BuildHashTable (col : Chunks) (f : option Chunks) : option HashTable :=
  offsets ← ComputeChunkOffsets col;
  build_chunks col offsets 0 f ∅.

(** ** Probe *)

(** The lambdas [join] and [chunk_join]. *)
Fixpoint probe_rows (values : list Z) (row offset : Z) (bits : option (list Z)) (ht : HashTable) (st : Indices) : option Indices :=
  match values with
  | [] => Some st
  | v :: values' =>
      ok ← passes bits row;
      st ← (if (ok : bool) then
              match ht !! chunk_val v with
              | Some ids => push_matches (to_u32 (row + offset)) ids st
              | None => Some st
              end
            else Some st);
      probe_rows values' (row + 1) offset bits ht st
  end.

(** One iteration of the loop over the chunks of a batch. *)
Definition probe_chunk (col : Chunks) (f : option Chunks) (offsets : list Z) (ht : HashTable) (i : nat) (p : Probe) : option Probe :=
  offset ← offsets !! i;
  chunk ← col !! i;
  bits ← filter_chunk f i;
  st ← probe_rows chunk 0 offset bits ht (mkIndices [] [] (Z.of_nat (length chunk)));
  l ← set_at i (l_idxs st) (left_indices_ p);
  r ← set_at i (r_idxs st) (right_indices_ p);
  Some (mkProbe l r).

Fixpoint probe_chunks (n i : nat) (col : Chunks) (f : option Chunks) (offsets : list Z) (ht : HashTable) (p : Probe) : option Probe :=
  match n with
  | O => Some p
  | S n' =>
      if (i <? length col)%nat then
        p ← probe_chunk col f offsets ht i p;
        probe_chunks n' (S i) col f offsets ht p
      else Some p
  end.

Definition ProbeHashTableBlock (col : Chunks) (f : option Chunks) (batch_i batch_size : Z) (offsets : list Z) (ht : HashTable)
    (p : Probe) : option Probe :=
  base_i ← int_chk (batch_i * batch_size);
  _ ← int_chk (base_i + batch_size);
  probe_chunks (Z.to_nat batch_size) (Z.to_nat base_i) col f offsets ht p.

Fixpoint run_batches (order : list nat) (col : Chunks) (f : option Chunks) (batch_size : Z) (offsets : list Z) (ht : HashTable)
    (p : Probe) : option Probe :=
  match order with
  | [] => Some p
  | k :: order' =>
      p ← ProbeHashTableBlock col f (Z.of_nat k) batch_size offsets ht p;
      run_batches order' col f batch_size offsets ht p
  end.

(** [vector::resize]: the elements that stay keep their value. *)
Definition resize_vectors (n : nat) (v : list (list Z)) : list (list Z) := take n v ++ replicate (n - length v) [].

(** [num_parallel] is the number of threads times the parallel factor, and
    [p] holds the index vectors, which outlive a join. *)
Definition ProbeHashTable (schedule : nat -> list nat) (num_parallel : spec_float) (col : Chunks) (f : option Chunks) (ht : HashTable)
    (p : Probe) : option Probe :=
  let p := mkProbe (resize_vectors (length col) (left_indices_ p)) (resize_vectors (length col) (right_indices_ p)) in
  offsets ← ComputeChunkOffsets col;
  '(batch_size, num_batches) ← ComputeBatchConfig (Z.of_nat (length col)) num_parallel;
  let num_batches := if num_batches =? 0 then 1 else num_batches in
  run_batches (schedule (Z.to_nat num_batches)) col f batch_size offsets ht p.

(** [FinishProbe]: two tasks make one array per side. *)
Definition FinishProbe (p : Probe) : list Z * list Z := (concat (left_indices_ p), concat (right_indices_ p)).

(** ** Result *)

Section Result.
Context {T : ArrowTake}.

(** [if (d.kind() != arrow::Datum::NONE) Take(d, idxs) else default] *)
Definition take_if (d : option (list Z)) (idxs : list Z) (default : option (list Z)) : option (option (list Z)) :=
  match d with
  | Some values => new ← Take values idxs; Some (Some new)
  | None => Some default
  end.

(** The tables other than the two of the join, with the index arrays of those
    that have been joined before; the filter of the others is dropped. *)
Fixpoint propogate (r : OperatorResult) (left right : Z) (finished : gmap Z bool) (l_idxs : list Z) : option OperatorResult :=
  match r with
  | [] => Some []
  | lt :: r' =>
      if negb (table lt =? left) && negb (table lt =? right) then
        lt' ← (if default false (finished !! table lt) then
                 idxs ← indices lt;
                 new ← Take idxs l_idxs;
                 Some (newLazyTable (table lt) None (Some new) None (hash_table_ lt))
               else Some (newLazyTable (table lt) None (indices lt) (index_chunks lt) (hash_table_ lt)));
        r' ← propogate r' left right finished l_idxs;
        Some (lt' :: r')
      else propogate r' left right finished l_idxs
  end.

(** [joined_index_chunks_] stays empty. *)
Definition BackPropogateResult (prev : OperatorResult) (finished : gmap Z bool) (left right : LazyTable) (joined : list Z * list Z)
    : option OperatorResult :=
  l_new ← take_if (indices left) (fst joined) (Some (fst joined));
  l_chk ← take_if (index_chunks left) (fst joined) None;
  r_new ← take_if (indices right) (snd joined) (Some (snd joined));
  others ← propogate prev (table left) (table right) finished (fst joined);
  Some (newLazyTable (table left) None l_new l_chk (hash_table_ left)
        :: newLazyTable (table right) None r_new None (hash_table_ right) :: others).

(** What a join leaves behind for the next one. *)
Record State := mkState { prev_result_ : OperatorResult; finished_ : gmap Z bool; vectors_ : Probe }.

(** [MultiwayJoin::HashJoin(join_id)]: its chain of five tasks. *)
Definition HashJoin (get_column : Z -> string -> option Chunks) (schedule : nat -> list nat) (num_parallel : spec_float)
    (left right : Z) (left_name right_name : string) (st : State) : option State :=
  left_ ← get_table left (prev_result_ st);
  right_ ← get_table right (prev_result_ st);
  '(_, lcol) ← MaterializeColumn get_column left_name left_;
  '(_, rcol) ← MaterializeColumn get_column right_name right_;
  ht ← match hash_table_ right_ with
       | Some h => Some h
       | None => BuildHashTable rcol (filter right_)
       end;
  p ← ProbeHashTable schedule num_parallel lcol (filter left_) ht (vectors_ st);
  let finished := <[right := true]> (<[left := true]> (finished_ st)) in
  prev ← BackPropogateResult (prev_result_ st) finished left_ right_ (FinishProbe p);
  Some (mkState prev finished p).

(** ** [Execute] *)

(** [lefts_], [rights_] and [finished_]. *)
Record Tables := mkTables { lefts_ : list Z; rights_ : list Z; unfinished : gmap Z bool }.

(** The lazy tables of one predicate. *)
Fixpoint find_sides (p : JoinPredicate) (r : OperatorResult) (s : Tables) : Tables :=
  match r with
  | [] => s
  | lt :: r' =>
      let fin := <[table lt := false]> (unfinished s) in
      find_sides p r'
        (if cr_table (left_col_ p) =? table lt then mkTables (lefts_ s ++ [table lt]) (rights_ s) fin
         else if cr_table (right_col_ p) =? table lt then mkTables (lefts_ s) (rights_ s ++ [table lt]) fin
         else mkTables (lefts_ s) (rights_ s) fin)
  end.

Fixpoint find_all (ps : list JoinPredicate) (r : OperatorResult) (s : Tables) : Tables :=
  match ps with
  | [] => s
  | p :: ps' => find_all ps' r (find_sides p r s)
  end.

(** The joins [join_id], [join_id + 1], ..., [n] of them. *)
Fixpoint run_joins (n join_id : nat) (get_column : Z -> string -> option Chunks) (schedule : nat -> nat -> list nat)
    (num_parallel : spec_float) (ps : list JoinPredicate) (s : Tables) (st : State) : option State :=
  match n with
  | O => Some st
  | S n' =>
      left ← lefts_ s !! join_id;
      right ← rights_ s !! join_id;
      p ← ps !! join_id;
      st ← HashJoin get_column (schedule join_id) num_parallel left right (col_name (left_col_ p)) (col_name (right_col_ p)) st;
      run_joins n' (S join_id) get_column schedule num_parallel ps s st
  end.

(** [MultiwayJoin::Execute] with [Finish]; [schedule j n] is the order in which
    the [n] tasks of the probe of join [j] run. *)
Definition Execute (get_column : Z -> string -> option Chunks) (schedule : nat -> nat -> list nat) (num_parallel : spec_float)
    (graph : JoinGraph) (prev_result_vec : list OperatorResult) (out : OperatorResult) : option OperatorResult :=
  let prev := foldl (fun r r2 => append_result r2 r) [] prev_result_vec in
  ps ← get_predicates graph 0;
  let s := find_all ps prev (mkTables [] [] ∅) in
  st ← run_joins (length (lefts_ s)) 0 get_column schedule num_parallel ps s (mkState prev (unfinished s) (mkProbe [] []));
  Some (append_result (prev_result_ st) out).

End Result.

End Multi.

Import Multi.

(** ** The loops of the single join *)

Module MultiSpec.

Lemma chunk_val_key v : to_i64 (to_u64 v) = chunk_val v.
Proof. unfold chunk_val, wraps, wrapu. by rewrite Zplus_mod_idemp_l. Qed.

Lemma probe_rows_same ht bits offset : forall values row st,
  probe_rows values row offset bits ht st = Join.probe_rows values row offset bits ht st.
Proof.
  induction values as [|v values IH]; intros row st; [done |]. cbn [probe_rows Join.probe_rows]. rewrite chunk_val_key.
  destruct (passes bits row) as [[]|]; cbn [mbind option_bind]; [| apply IH | done].
  destruct (ht !! chunk_val v); cbn; [destruct (push_matches _ _ st); cbn; [apply IH | done] | apply IH].
Qed.

Lemma probe_chunk_same col f offsets ht i p : probe_chunk col f offsets ht i p = Join.probe_chunk col f offsets ht i p.
Proof.
  unfold probe_chunk, Join.probe_chunk. destruct (col !! i) as [c|], (filter_chunk f i) as [bits|], (offsets !! i) as [o|]; cbn; try done.
  by rewrite probe_rows_same.
Qed.

Lemma run_batches_same col f bs offsets ht order : forall p,
  run_batches order col f bs offsets ht p = Join.run_batches order col f bs offsets ht p.
Proof.
  assert (forall n i p, probe_chunks n i col f offsets ht p = Join.probe_chunks n i col f offsets ht p) as HC.
  { induction n as [|n IH]; intros i p; [done |]. cbn [probe_chunks Join.probe_chunks]. rewrite probe_chunk_same.
    destruct (i <? length col)%nat, (Join.probe_chunk col f offsets ht i p); cbn; auto. }
  induction order as [|k order IH]; intros p; [done |]. cbn [run_batches Join.run_batches].
  unfold ProbeHashTableBlock, Join.ProbeHashTableBlock. destruct (int_chk _) as [b|]; cbn [mbind option_bind]; [| done].
  destruct (int_chk _) as [b'|]; cbn [mbind option_bind]; [| done]. rewrite HC. by destruct (Join.probe_chunks _ _ _ _ _ _ _); cbn.
Qed.

Lemma build_rows_same offset i bits : forall values row ht, Forall (is_s 64) values ->
  build_rows values row offset i bits ht = Join.build_rows values row offset i bits ht.
Proof.
  induction values as [|v values IH]; intros row ht HV; [done |]. apply Forall_cons in HV as [Hv HV].
  cbn [build_rows Join.build_rows]. unfold chunk_val. rewrite wraps_id by done. destruct (passes bits row); cbn; [by rewrite IH | done].
Qed.

Lemma BuildHashTable_same col f : Forall (is_s 64) (concat col) -> BuildHashTable col f = Join.BuildHashTable col f.
Proof.
  intros HV. unfold BuildHashTable, Join.BuildHashTable. destruct (ComputeChunkOffsets col) as [offs|]; [cbn | done].
  revert HV. generalize 0%nat (∅ : HashTable). induction col as [|c col IH]; intros i ht HV; [done |].
  cbn [concat] in HV. apply Forall_app in HV as [Hc HV]. cbn [build_chunks Join.build_chunks].
  destruct (filter_chunk f i) as [bits|]; [cbn | done]. destruct (offs !! i) as [o|]; [cbn | done].
  rewrite build_rows_same by done. by destruct (Join.build_rows _ _ _ _ _ _); cbn; [apply IH |].
Qed.

Lemma length_resize n v : length (resize_vectors n v) = n.
Proof. unfold resize_vectors. rewrite length_app, length_take, length_replicate. lia. Qed.

(** A probe leaves nothing of the indices of an earlier join. *)
Lemma probe_ok_any schedule num_parallel col f ht R p :
  (forall n, Permutation (schedule n) (seq 0 n)) -> parallel_ok num_parallel (Z.of_nat (length col)) ->
  col <> [] -> filter_ok col f -> rows col < 2 ^ 32 -> Forall (is_s 64) (concat col) -> holds ht R ->
  Z.of_nat (length (nested_loop (concat (active col f)) R)) < 2 ^ 31 ->
  exists p', ProbeHashTable schedule num_parallel col f ht p = Some p' /\
    FinishProbe p' = (fst <$> nested_loop (concat (active col f)) R, snd <$> nested_loop (concat (active col f)) R).
Proof.
  intros Hsch (q & Eq & Hq & Hsm) Hne HF Hr HV HH Hc.
  destruct (probe_schedule_ok schedule num_parallel q col f ht R
    (mkProbe (resize_vectors (length col) (left_indices_ p)) (resize_vectors (length col) (right_indices_ p))))
    as (offs & bs & nb & p' & Eo & Eb & Ep & _ & EF); try done.
  { split; apply length_resize. }
  assert (0 < length col)%nat by (destruct col; [done | cbn; lia]).
  destruct (ComputeBatchConfig_ok (Z.of_nat (length col)) num_parallel q ltac:(lia) Eq Hq) as (bs' & nb' & Eb' & Hbs & Enb).
  rewrite Eb in Eb'. injection Eb' as <- <-. pose proof (Z.div_pos (Z.of_nat (length col)) bs ltac:(lia) ltac:(lia)).
  exists p'. split; [| done]. unfold ProbeHashTable. rewrite Eo. cbn [mbind option_bind]. rewrite Eb. cbn [mbind option_bind].
  rewrite (proj2 (Z.eqb_neq _ _)) by lia. by rewrite run_batches_same.
Qed.

End MultiSpec.

(** ** Tuples *)

Module MultiResult.

(** A row of the joined tables: the row of every table that takes part. *)
Abbreviation Tuple := (gmap Z Z).

Definition row_of (t : Z) (tup : Tuple) : Z := default 0 (tup !! t).

(** One join: every tuple is continued by the rows of the right table whose
    key equals the key of the row of the left table; [R] holds the rows of the
    right table with their keys. *)
Definition extend (left right : Z) (lcol : Chunks) (R : list (Z * Z)) (tups : list Tuple) : list Tuple :=
  tups ≫= fun tup => (fun r => <[right := r]> tup) <$> partners (value_at lcol (row_of left tup)) R.

(** Entry [p] of the rows a lazy table stands for. *)
Definition row_at (c : Chunks) (lt : LazyTable) (p : Z) : Z := nth (Z.to_nat p) (base_rows c lt) 0.

Definition rows_at (c : Chunks) (lt : LazyTable) (R : list (Z * Z)) : list (Z * Z) := (fun rk => (row_at c lt (fst rk), snd rk)) <$> R.

Lemma partners_rows_at c lt k R : partners k (rows_at c lt R) = row_at c lt <$> partners k R.
Proof.
  unfold partners, rows_at. induction R as [|[p k'] R IH]; [done |]. rewrite fmap_cons, !filter_cons. cbn [fst snd].
  destruct (decide (k' = k)); rewrite ?fmap_cons; [| done]. cbn. by rewrite IH.
Qed.

(** The tuples of the pairs that a probe finds. *)
Lemma extend_pairs left right lcol c rt (tup_at : Z -> Tuple) R L :
  (forall p k, (p, k) ∈ L -> value_at lcol (row_of left (tup_at p)) = k) ->
  extend left right lcol (rows_at c rt R) ((fun pk => tup_at (fst pk)) <$> L) =
    (fun lr => <[right := row_at c rt (snd lr)]> (tup_at (fst lr))) <$> nested_loop L R.
Proof.
  intros HK. unfold extend, nested_loop. induction L as [|[p k] L IH]; [done |]. rewrite fmap_cons. cbn [mbind list_bind].
  rewrite fmap_app, <- IH by (intros; apply HK; by right). f_equal. cbn [fst snd]. rewrite (HK p k) by left.
  rewrite partners_rows_at, <- !list_fmap_compose. done.
Qed.

Section Database.
Context {T : ArrowTake}.
Variables (get_column : Z -> string -> option Chunks) (nrows : Z -> Z).

(** The columns of a table have the same number of rows, fewer than 2^32. *)
Definition columns_ok : Prop := forall t name c, get_column t name = Some c ->
  c <> [] /\ rows c = nrows t /\ nrows t < 2 ^ 32 /\ Forall (is_s 64) (concat c).

(** A lazy table: its indices are rows of the table, or its filter has a bit for
    every row. *)
Record lazy_ok (lt : LazyTable) : Prop := {
  lz_indices : forall idxs, indices lt = Some idxs ->
    filter lt = None /\ Z.of_nat (length idxs) < 2 ^ 32 /\ Forall (fun i => 0 <= i < nrows (table lt)) idxs;
  lz_filter : forall name c, indices lt = None -> get_column (table lt) name = Some c -> filter_ok c (filter lt);
  lz_chunks : forall chks, index_chunks lt = Some chks -> exists idxs, indices lt = Some idxs /\ length chks = length idxs /\
    forall name c, get_column (table lt) name = Some c -> Forall2 (in_chunk c) idxs chks;
  lz_cache : forall name c c', materialized_cols_ lt !! name = Some c' -> get_column (table lt) name = Some c -> gathered lt c = Some c'
}.

Hypothesis HC : columns_ok.

Lemma lazy_side lt cr c : lazy_ok lt -> get_column (cr_table cr) (col_name cr) = Some c -> table lt = cr_table cr ->
  side_ok get_column cr [lt] lt c.
Proof.
  intros [] Ec Et. destruct (HC _ _ _ Ec) as (Hne & Hr & Hlt & HV). rewrite <- Et in *. constructor; try done.
  - cbn. by rewrite Et, Z.eqb_refl.
  - by rewrite <- Et.
  - intros c' Em. eauto.
  - lia.
  - rewrite Hr. destruct (indices lt) as [idxs|]; [| eauto]. destruct (lz_indices0 idxs eq_refl) as (? & ? & ?). split_and!; try done.
    destruct (index_chunks lt) as [chks|]; [| done]. destruct (lz_chunks0 chks eq_refl) as (idxs' & [= <-] & _ & Hchk). eauto.
  - constructor; [| done]. unfold base_rows. by destruct (indices lt).
Qed.

(** The rows a lazy table stands for are rows of the table. *)
Lemma base_rows_range lt name c : lazy_ok lt -> get_column (table lt) name = Some c ->
  Forall (fun i => 0 <= i < nrows (table lt)) (base_rows c lt).
Proof.
  intros [] Ec. destruct (HC _ _ _ Ec) as (_ & Hr & _). unfold base_rows. destruct (indices lt) as [idxs|]; [by apply lz_indices0 |].
  apply Forall_fmap, Forall_seq. intros j Hj. cbn. unfold rows in Hr. lia.
Qed.

(** Positions of a lazy table. *)
Definition positions (c : Chunks) (lt : LazyTable) (ps : list Z) : Prop := Forall (fun p => 0 <= p < Z.of_nat (length (base_rows c lt))) ps.

Lemma take_indices_ok c lt ps : positions c lt ps -> take_if (indices lt) ps (Some ps) = Some (Some (pick (base_rows c lt) ps)).
Proof.
  intros HP. pose proof (take_or_set_ok c lt ps HP) as E. unfold take_or_set in E. unfold take_if.
  destruct (indices lt) as [idxs|]; cbn in E; [| injection E as <-; done].
  destruct (Take idxs ps) as [new|]; cbn in *; [by injection E as -> | done].
Qed.

Lemma pick_lookup l ps i : Forall (fun p => 0 <= p < Z.of_nat (length l)) ps -> forall x, pick l ps !! i = Some x ->
  exists p, ps !! i = Some p /\ l !! Z.to_nat p = Some x.
Proof.
  intros HF x Hx. unfold pick in Hx. rewrite list_lookup_fmap in Hx. destruct (ps !! i) as [p|] eqn:Ep; [| done]. cbn in Hx.
  injection Hx as <-. exists p. split; [done |]. eapply Forall_lookup_1 in HF; [| exact Ep]. cbn in HF.
  destruct (lookup_lt_is_Some_2 l (Z.to_nat p)) as [y Ey]; [lia |]. by rewrite Ey, (nth_lookup_Some _ _ _ _ Ey).
Qed.

Lemma pick_Forall (P : Z -> Prop) l ps : Forall (fun p => 0 <= p < Z.of_nat (length l)) ps -> Forall P l -> Forall P (pick l ps).
Proof.
  intros HF HP. apply Forall_lookup_2. intros i x Hx. destruct (pick_lookup l ps i HF x Hx) as (p & _ & E).
  by eapply Forall_lookup_1 in HP.
Qed.

Lemma pick_Forall2 (P : Z -> Z -> Prop) l1 l2 ps : Forall (fun p => 0 <= p < Z.of_nat (length l1)) ps -> Forall2 P l1 l2 ->
  Forall2 P (pick l1 ps) (pick l2 ps).
Proof.
  intros HF HP. pose proof (Forall2_length _ _ _ HP) as El. apply Forall2_same_length_lookup_2; [by unfold pick; rewrite !length_fmap |].
  intros i x y Hx Hy. destruct (pick_lookup l1 ps i HF x Hx) as (p & E1 & Ex).
  rewrite El in HF. destruct (pick_lookup l2 ps i HF y Hy) as (p' & E2 & Ey). rewrite E1 in E2. injection E2 as <-.
  by eapply Forall2_lookup_lr.
Qed.

(** The tables of the result of a join are lazy tables again. *)
Lemma picked_ok lt c ps chk h : lazy_ok lt -> Forall (fun i => 0 <= i < nrows (table lt)) (base_rows c lt) -> positions c lt ps ->
  Z.of_nat (length ps) < 2 ^ 32 -> (forall chks, chk = Some chks -> exists chks0, index_chunks lt = Some chks0 /\ chks = pick chks0 ps) ->
  lazy_ok (newLazyTable (table lt) None (Some (pick (base_rows c lt) ps)) chk h).
Proof.
  intros Hlz HR HP Hl Hchk. constructor; cbn.
  - intros idxs [= <-]. split_and!; [done | by unfold pick; rewrite length_fmap | by apply pick_Forall].
  - intros ? ? [=].
  - intros chks E. destruct (Hchk chks E) as (chks0 & E0 & ->). destruct Hlz as [_ _ Hch _].
    destruct (Hch chks0 E0) as (idxs & Ei & El & HF). unfold positions, base_rows in *. rewrite Ei in *.
    eexists. split_and!; [done | by unfold pick; rewrite !length_fmap |]. intros name' c' Ec'. apply pick_Forall2; [done |]. by eapply HF.
  - intros ? ? ? E. by rewrite lookup_empty in E.
Qed.

Lemma take_chunks_ok c lt ps : lazy_ok lt -> positions c lt ps -> exists chk, take_if (index_chunks lt) ps None = Some chk /\
  forall chks, chk = Some chks -> exists chks0, index_chunks lt = Some chks0 /\ chks = pick chks0 ps.
Proof.
  intros [_ _ Hch _] HP. unfold take_if. destruct (index_chunks lt) as [chks|]; [| by exists None].
  destruct (Hch chks eq_refl) as (idxs & Ei & El & _). unfold positions, base_rows in HP. rewrite Ei, <- El in HP.
  rewrite Take_spec by done. cbn. eexists. split; [done |]. intros ? [= <-]. by exists chks.
Qed.

Lemma propogate_all left right finished ps n prev : Forall (fun p => 0 <= p < Z.of_nat n) ps ->
  (forall l, l ∈ prev -> table l <> left -> table l <> right -> default false (finished !! table l) = true ->
    exists idxs, indices l = Some idxs /\ length idxs = n) ->
  propogate prev left right finished ps =
    Some ((fun l => if default false (finished !! table l)
                    then newLazyTable (table l) None (Some (pick (default [] (indices l)) ps)) None (hash_table_ l)
                    else newLazyTable (table l) None (indices l) (index_chunks l) (hash_table_ l)) <$>
          base.filter (fun l => table l <> left /\ table l <> right) prev).
Proof.
  intros HP. induction prev as [|l prev IH]; intros HI; [done |]. cbn [propogate]. rewrite filter_cons.
  specialize (IH ltac:(intros; apply HI; [by right | done..])). destruct (Z.eqb_spec (table l) left), (Z.eqb_spec (table l) right); cbn [negb andb];
    try (rewrite decide_False by tauto; exact IH). rewrite decide_True by tauto. rewrite fmap_cons.
  destruct (default false (finished !! table l)) eqn:Ef; [| cbn [mbind option_bind]; by rewrite IH].
  destruct (HI l ltac:(left) n0 n1 Ef) as (idxs & -> & El). cbn [mbind option_bind]. rewrite Take_spec by (by rewrite El). cbn [mbind option_bind].
  by rewrite IH.
Qed.

(** ** One join of the chain *)

Definition drop_filter (l : LazyTable) : LazyTable := newLazyTable (table l) None (indices l) (index_chunks l) (hash_table_ l).

Lemma drop_filter_ok l : lazy_ok l -> lazy_ok (drop_filter l).
Proof.
  intros []. constructor; cbn; [| done | done | by intros ? ? ?; rewrite lookup_empty].
  intros idxs E. destruct (lz_indices0 idxs E) as (_ & ? & ?). done.
Qed.

Lemma get_table_Some t r : is_Some (get_table t r) <-> t ∈ table <$> r.
Proof.
  induction r as [|l r IH]; cbn; [split; [by intros [] | by intros ?%not_elem_of_nil] |]. rewrite elem_of_cons.
  destruct (Z.eqb_spec (table l) t) as [<- | Hne]; [split; [by left | by eauto] |]. rewrite IH. naive_solver.
Qed.

(** The rows of [t] in the tuples of the pairs. *)
Lemma pick_pairs (t right : Z) (tup_at : Z -> Tuple) (idxs : list Z) c rt L R : t <> right ->
  (forall p k, (p, k) ∈ L -> nth (Z.to_nat p) idxs 0 = row_of t (tup_at p)) ->
  pick idxs (fst <$> nested_loop L R) =
    row_of t <$> ((fun lr => <[right := row_at c rt (snd lr)]> (tup_at (fst lr))) <$> nested_loop L R).
Proof.
  intros Hne HL. unfold pick. rewrite <- !list_fmap_compose. apply list_fmap_ext. intros i [p r] Hi. cbn.
  assert ((p, r) ∈ nested_loop L R) as Hin by (apply list_elem_of_lookup; eauto). apply nested_loop_in in Hin as (k & Hl & _).
  rewrite (HL p k Hl). unfold row_of. by rewrite lookup_insert_ne.
Qed.

Lemma pick_pairs_right (right : Z) (tup_at : Z -> Tuple) c rt (pairs : list (Z * Z)) :
  pick (base_rows c rt) (snd <$> pairs) = row_of right <$> ((fun lr => <[right := row_at c rt (snd lr)]> (tup_at (fst lr))) <$> pairs).
Proof.
  unfold pick. rewrite <- !list_fmap_compose. apply list_fmap_ext. intros i [p r] _. cbn. unfold row_of. by rewrite lookup_insert_eq.
Qed.

(** What the probe is given on the right: the hash table of the lazy table, or
    its rows. *)
Definition right_table_ok (c : Chunks) (rt : LazyTable) (R : list (Z * Z)) : Prop :=
  positions c rt (fst <$> R) /\ match hash_table_ rt with Some h => holds h R | None => R = lazy_rows c rt end.

Lemma right_hash_ok cr rt c R : side_ok get_column cr [rt] rt c -> right_table_ok c rt R ->
  exists rcol ht rt', MaterializeColumn get_column (col_name cr) rt = Some (rt', rcol) /\ holds ht R /\
    match hash_table_ rt with Some h => Some h | None => BuildHashTable rcol (filter rt) end = Some ht.
Proof.
  intros HS [_ HR]. destruct (gathered_ok _ _ _ _ _ HS) as (col & E & Ea & _ & Hne & _ & Hr & HV & HF).
  destruct (MaterializeColumn_ok _ _ _ _ _ HS) as (rt' & col' & Em & E' & _). rewrite E in E'. injection E' as <-.
  destruct (hash_table_ rt) as [h|]; [by exists col, h, rt' |].
  destruct (BuildHashTable_ok col (filter rt) Hne Hr HF) as (ht & Eb & HH). exists col, ht, rt'.
  rewrite MultiSpec.BuildHashTable_same by done. by rewrite HR, <- Ea.
Qed.

Lemma left_probe_ok schedule num_parallel cr lt c ht R p :
  (forall n, Permutation (schedule n) (seq 0 n)) -> parallel_ok num_parallel (Z.of_nat (num_chunks c lt)) ->
  side_ok get_column cr [lt] lt c -> holds ht R -> Z.of_nat (length (nested_loop (lazy_rows c lt) R)) < 2 ^ 31 ->
  exists lcol lt' p', MaterializeColumn get_column (col_name cr) lt = Some (lt', lcol) /\
    ProbeHashTable schedule num_parallel lcol (filter lt) ht p = Some p' /\
    FinishProbe p' = (fst <$> nested_loop (lazy_rows c lt) R, snd <$> nested_loop (lazy_rows c lt) R).
Proof.
  intros Hsch Hpar HS HH Hc. destruct (gathered_ok _ _ _ _ _ HS) as (col & E & Ea & El & Hne & _ & Hr & HV & HF).
  destruct (MaterializeColumn_ok _ _ _ _ _ HS) as (lt' & col' & Em & E' & _). rewrite E in E'. injection E' as <-.
  rewrite <- Ea in Hc. rewrite <- El in Hpar.
  destruct (MultiSpec.probe_ok_any schedule num_parallel col (filter lt) ht R p Hsch Hpar Hne HF Hr HV HH Hc) as (p' & Ep & EF).
  exists col, lt', p'. by rewrite <- Ea.
Qed.

(** The tables after a join: those of [J] hold the rows of the tuples, the
    others are as in [prev] but for their filter. *)
Record joined_tables (J : list Z) (tups : list Tuple) (prev : OperatorResult) (st : State) : Prop := {
  jt_lazy : Forall lazy_ok (prev_result_ st);
  jt_joined : forall l, l ∈ prev_result_ st -> table l ∈ J -> indices l = Some (row_of (table l) <$> tups);
  jt_fresh : forall l, l ∈ prev_result_ st -> table l ∉ J -> exists l0, l0 ∈ prev /\ l = drop_filter l0;
  jt_tables : forall t, is_Some (get_table t (prev_result_ st)) <-> is_Some (get_table t prev);
  jt_finished : forall t, default false (finished_ st !! t) = bool_decide (t ∈ J)
}.

Section Step.
Variables (left right : Z) (lt rt : LazyTable) (cl cr : Chunks) (R : list (Z * Z)) (J : list Z) (tup_at : Z -> Tuple)
  (prev : OperatorResult) (lname rname : string).
Hypothesis Hlazy : Forall lazy_ok prev.
Hypothesis Hlt : get_table left prev = Some lt.
Hypothesis Hrt : get_table right prev = Some rt.
Hypothesis Ecl : get_column left lname = Some cl.
Hypothesis Ecr : get_column right rname = Some cr.
Hypothesis Hne : left <> right.
Hypothesis HrJ : right ∉ J.
Hypothesis HR : right_table_ok cr rt R.
Hypothesis Hcount : Z.of_nat (length (nested_loop (lazy_rows cl lt) R)) < 2 ^ 31.
Hypothesis Hleft : forall p k, (p, k) ∈ lazy_rows cl lt -> nth (Z.to_nat p) (base_rows cl lt) 0 = row_of left (tup_at p).
Hypothesis Hothers : forall l, l ∈ prev -> table l ∈ J -> table l <> left -> exists idxs, indices l = Some idxs /\
  length idxs = length (base_rows cl lt) /\ forall p k, (p, k) ∈ lazy_rows cl lt -> nth (Z.to_nat p) idxs 0 = row_of (table l) (tup_at p).

Let pairs := nested_loop (lazy_rows cl lt) R.
Let tups := (fun lr => <[right := row_at cr rt (snd lr)]> (tup_at (fst lr))) <$> pairs.

Lemma step_tables : lt ∈ prev /\ table lt = left /\ lazy_ok lt /\ rt ∈ prev /\ table rt = right /\ lazy_ok rt.
Proof.
  apply get_table_in in Hlt as [Hl El], Hrt as [Hr Er]. rewrite Forall_forall in Hlazy. split_and!; auto.
Qed.

Lemma step_left_side : side_ok get_column (mkColumnReference left lname) [lt] lt cl.
Proof. destruct step_tables as (_ & El & Hl & _). by apply lazy_side. Qed.

Lemma step_right_side : side_ok get_column (mkColumnReference right rname) [rt] rt cr.
Proof. destruct step_tables as (_ & _ & _ & _ & Er & Hr). by apply lazy_side. Qed.

Lemma step_positions : positions cl lt (fst <$> pairs) /\ positions cr rt (snd <$> pairs).
Proof.
  split; apply Forall_fmap, Forall_forall; intros [l r] Hin; apply nested_loop_in in Hin as (k & Hl & Hr); cbn.
  - by eapply lazy_rows_in; [apply step_left_side |].
  - destruct HR as [HP _]. unfold positions in HP. rewrite Forall_forall in HP. apply HP. apply list_elem_of_fmap. by exists (r, k).
Qed.

Lemma step_lazy (l : LazyTable) (c : Chunks) ps chk h : lazy_ok l -> Forall (fun i => 0 <= i < nrows (table l)) (base_rows c l) ->
  positions c l ps -> length ps = length pairs ->
  (forall chks, chk = Some chks -> exists chks0, index_chunks l = Some chks0 /\ chks = pick chks0 ps) ->
  lazy_ok (newLazyTable (table l) None (Some (pick (base_rows c l) ps)) chk h).
Proof. intros Hl HF HP El Hchk. apply picked_ok; try done. rewrite El. unfold pairs. lia. Qed.

(** The result of [BackPropogateResult]. *)
Lemma step_result finished : (forall t, default false (finished !! t) = bool_decide (t ∈ right :: left :: J)) ->
  exists prev', BackPropogateResult prev finished lt rt (fst <$> pairs, snd <$> pairs) = Some prev' /\
    forall p, joined_tables (right :: left :: J) tups prev (mkState prev' finished p).
Proof.
  intros Hfin. destruct step_tables as (Hl & El & Hlz & Hr & Er & Hrz). destruct step_positions as [HPl HPr].
  unfold BackPropogateResult. cbn [fst snd]. rewrite (take_indices_ok cl lt) by done. cbn [mbind option_bind].
  destruct (take_chunks_ok cl lt (fst <$> pairs) Hlz HPl) as (chk & -> & Hchk). cbn [mbind option_bind].
  rewrite (take_indices_ok cr rt) by done. cbn [mbind option_bind].
  rewrite (propogate_all (table lt) (table rt) finished (fst <$> pairs) (length (base_rows cl lt))) by
    (done || (rewrite El, Er; intros l Hin Hn1 Hn2; rewrite Hfin, bool_decide_eq_true; rewrite !elem_of_cons; intros [? | [? | HJ]]; try done;
      destruct (Hothers l Hin HJ Hn1) as (idxs & E1 & E2 & _); eauto)).
  cbn [mbind option_bind]. eexists. split; [reflexivity |]. intros p. constructor; cbn [prev_result_ finished_]; [| | | | done].
  - apply Forall_cons_2; [| apply Forall_cons_2].
    + apply step_lazy; try done; [| by rewrite length_fmap]. eapply base_rows_range; [done | by rewrite El].
    + apply step_lazy; try done; [| by rewrite length_fmap]. eapply base_rows_range; [done | by rewrite Er].
    + apply Forall_fmap, Forall_forall. intros l [[Hn1 Hn2] Hin]%list_elem_of_filter. rewrite El in Hn1. rewrite Er in Hn2.
      assert (lazy_ok l) as Hok by (rewrite Forall_forall in Hlazy; auto). cbn. rewrite Hfin.
      case_bool_decide as HJ; [| by apply drop_filter_ok]. rewrite !elem_of_cons in HJ. destruct HJ as [? | [? | HJ]]; [done.. |].
      destruct (Hothers l Hin HJ Hn1) as (idxs & E1 & E2 & _). rewrite E1. cbn [default].
      replace idxs with (base_rows [] l) by (unfold base_rows; by rewrite E1).
      apply step_lazy; try done; [| | by rewrite length_fmap]; unfold positions, base_rows; rewrite E1; [| by rewrite E2].
      destruct Hok as [Hi _ _ _]. by apply Hi.
  - intros l [-> | [-> | Hin]%elem_of_cons]%elem_of_cons; cbn; [| | intros HJ].
    + intros _. f_equal. rewrite El. apply pick_pairs; [done | apply Hleft].
    + intros _. f_equal. rewrite Er. apply pick_pairs_right.
    + apply list_elem_of_fmap in Hin as (l0 & -> & [[Hn1 Hn2] Hin]%list_elem_of_filter). rewrite El in Hn1. rewrite Er in Hn2.
      assert (table l0 ∈ right :: left :: J) as HJ' by (by destruct (default false (finished !! table l0))).
      rewrite Hfin, bool_decide_eq_true_2 by done. cbn. rewrite !elem_of_cons in HJ'. destruct HJ' as [? | [? | HJ']]; [done.. |].
      destruct (Hothers l0 Hin HJ' Hn1) as (idxs & -> & E2 & HE). cbn. f_equal. by apply pick_pairs.
  - intros l [-> | [-> | Hin]%elem_of_cons]%elem_of_cons; cbn; [rewrite El, !elem_of_cons; tauto | rewrite Er, !elem_of_cons; tauto |].
    apply list_elem_of_fmap in Hin as (l0 & -> & [_ Hin]%list_elem_of_filter). rewrite Hfin. case_bool_decide as HJ; cbn; [done |].
    intros _. by exists l0.
  - intros t. rewrite !get_table_Some, !fmap_cons, !elem_of_cons. cbn [table newLazyTable]. rewrite El, Er.
    assert (left ∈ table <$> prev /\ right ∈ table <$> prev) as [Hin1 Hin2] by (rewrite <- !get_table_Some, Hlt, Hrt; eauto).
    split.
    + intros [-> | [-> | Hin]]; [done.. |]. rewrite <- list_fmap_compose in Hin.
      apply list_elem_of_fmap in Hin as (l & -> & [_ Hin]%list_elem_of_filter). cbn.
      apply list_elem_of_fmap. exists l. by destruct (default false _).
    + intros Hin. destruct (decide (t = left)); [by left |]. destruct (decide (t = right)); [by right; left |]. right; right.
      apply list_elem_of_fmap in Hin as (l & -> & Hin). rewrite <- list_fmap_compose. apply list_elem_of_fmap. exists l.
      split; [cbn; by destruct (default false _) |]. by apply list_elem_of_filter.
Qed.

Lemma step_ok schedule num_parallel (fin : gmap Z bool) (p : Probe) : (forall n, Permutation (schedule n) (seq 0 n)) ->
  parallel_ok num_parallel (Z.of_nat (num_chunks cl lt)) -> (forall t, default false (fin !! t) = bool_decide (t ∈ J)) ->
  exists st', HashJoin get_column schedule num_parallel left right lname rname (mkState prev fin p) = Some st' /\
    joined_tables (right :: left :: J) tups prev st'.
Proof.
  intros Hsch Hpar Hfin. destruct (right_hash_ok _ _ _ _ step_right_side HR) as (rcol & ht & rt' & Emr & HH & Eht).
  destruct (left_probe_ok schedule num_parallel _ _ _ ht R p Hsch Hpar step_left_side HH Hcount) as (lcol & lt' & p' & Eml & Ep & EF).
  destruct (step_result (<[right := true]> (<[left := true]> fin))) as (prev' & Eb & Hst).
  { intros t. destruct (decide (t = right)) as [-> | H1]; [rewrite lookup_insert_eq, bool_decide_eq_true_2; [done | left] |].
    rewrite lookup_insert_ne by done. destruct (decide (t = left)) as [-> | H2]; [rewrite lookup_insert_eq, bool_decide_eq_true_2; [done | right; left] |].
    rewrite lookup_insert_ne by done. rewrite Hfin. apply bool_decide_ext. rewrite !elem_of_cons. tauto. }
  exists (mkState prev' (<[right := true]> (<[left := true]> fin)) p'). split; [| apply Hst]. unfold HashJoin. cbn [prev_result_ finished_ vectors_].
  rewrite Hlt. cbn [mbind option_bind]. rewrite Hrt. cbn [mbind option_bind]. cbn [col_name] in Eml, Emr. rewrite Eml. cbn [mbind option_bind].
  rewrite Emr. cbn [mbind option_bind]. rewrite Eht. cbn [mbind option_bind]. rewrite Ep. cbn [mbind option_bind]. rewrite EF. fold pairs. by rewrite Eb.
Qed.

End Step.

(** ** The chain of joins *)

Definition left_of (p : JoinPredicate) : Z := cr_table (left_col_ p).
Definition right_of (p : JoinPredicate) : Z := cr_table (right_col_ p).
Definition lcol_of (p : JoinPredicate) : Chunks := default [] (get_column (left_of p) (col_name (left_col_ p))).
Definition rcol_of (p : JoinPredicate) : Chunks := default [] (get_column (right_of p) (col_name (right_col_ p))).

Variable prev0 : OperatorResult.

(** The active rows of the left table of the first join. *)
Definition start_tuples (p : JoinPredicate) : list Tuple :=
  match get_table (left_of p) prev0 with
  | Some lt => (fun pk => {[left_of p := row_at (lcol_of p) lt (fst pk)]}) <$> lazy_rows (lcol_of p) lt
  | None => []
  end.

Definition right_entries (p : JoinPredicate) (R : list (Z * Z)) : list (Z * Z) :=
  match get_table (right_of p) prev0 with Some rt => rows_at (rcol_of p) rt R | None => [] end.

Definition join_one (p : JoinPredicate) (R : list (Z * Z)) (tups : list Tuple) : list Tuple :=
  extend (left_of p) (right_of p) (lcol_of p) (right_entries p R) tups.

(** Every predicate comes with the active positions of its right table. *)
Fixpoint join_chain (js : list (JoinPredicate * list (Z * Z))) (tups : list Tuple) : list Tuple :=
  match js with
  | [] => tups
  | (p, R) :: js' => join_chain js' (join_one p R tups)
  end.

Definition tables_of (js : list (JoinPredicate * list (Z * Z))) (J : list Z) : list Z :=
  foldl (fun J pR => right_of (fst pR) :: left_of (fst pR) :: J) J js.

Record join_ok (p : JoinPredicate) (R : list (Z * Z)) : Prop := {
  jo_lcol : get_column (left_of p) (col_name (left_col_ p)) = Some (lcol_of p);
  jo_rcol : get_column (right_of p) (col_name (right_col_ p)) = Some (rcol_of p);
  jo_left : is_Some (get_table (left_of p) prev0);
  jo_right : exists rt, get_table (right_of p) prev0 = Some rt /\ right_rows (rcol_of p) rt R;
  jo_ne : left_of p <> right_of p
}.

(** The filter of the right table survives an earlier join: there is none, or
    the selection has built the hash table. *)
Definition filter_kept (p : JoinPredicate) : Prop :=
  forall rt, get_table (right_of p) prev0 = Some rt -> hash_table_ rt = None -> filter rt = None.

(** The joins after the first: the left table has been joined, the right one
    has not. *)
Fixpoint later_ok (num_parallel : spec_float) (J : list Z) (tups : list Tuple) (js : list (JoinPredicate * list (Z * Z))) : Prop :=
  match js with
  | [] => True
  | (p, R) :: js' =>
      join_ok p R /\ left_of p ∈ J /\ (right_of p ∉ J) /\ filter_kept p /\
      Z.of_nat (length (join_one p R tups)) < 2 ^ 31 /\ parallel_ok num_parallel (num_slices (Z.of_nat (length tups))) /\
      later_ok num_parallel (right_of p :: left_of p :: J) (join_one p R tups) js'
  end.

Hypothesis Hlazy0 : Forall lazy_ok prev0.
Hypothesis Hdup : NoDup (table <$> prev0).

Lemma nodup_get (r : OperatorResult) l : NoDup (table <$> r) -> l ∈ r -> get_table (table l) r = Some l.
Proof.
  induction r as [|l' r IH]; [by intros _ ?%not_elem_of_nil |]. rewrite fmap_cons, NoDup_cons. intros [Hn HN] [-> | Hin]%elem_of_cons; cbn.
  - by rewrite Z.eqb_refl.
  - destruct (Z.eqb_spec (table l') (table l)) as [E | _]; [| auto]. exfalso. apply Hn. rewrite E. by apply list_elem_of_fmap_2.
Qed.

Lemma right_positions p R rt : join_ok p R -> get_table (right_of p) prev0 = Some rt -> right_rows (rcol_of p) rt R ->
  positions (rcol_of p) rt (fst <$> R).
Proof.
  intros [] Ert HRR. pose proof (get_table_in _ _ _ Ert) as [Hin Et]. rewrite Forall_forall in Hlazy0.
  apply Forall_fmap, Forall_forall. intros [r k] Hr. cbn. apply (right_rows_in _ _ _ _ HRR) in Hr.
  eapply lazy_rows_in; [| exact Hr]. apply (lazy_side rt (right_col_ p)); auto.
Qed.

Lemma lazy_rows_key lt c p k : (p, k) ∈ lazy_rows c lt -> value_at c (row_at c lt p) = k.
Proof.
  unfold lazy_rows, row_at, base_rows. destruct (indices lt) as [idxs|]; intros H.
  - apply list_elem_of_lookup in H as [i Hi]. rewrite list_lookup_imap in Hi. destruct (idxs !! i) as [x|] eqn:Ex; [| done].
    cbn in Hi. injection Hi as <- <-. by rewrite Nat2Z.id, (nth_lookup_Some _ _ _ _ Ex).
  - apply active_in in H as [Hr <-]. unfold rows in Hr. f_equal. apply nth_lookup_Some.
    rewrite list_lookup_fmap, lookup_seq_lt by lia. cbn. f_equal. lia.
Qed.

(** Positions of a joined table are positions of the list of tuples. *)
Lemma joined_rows t c lt (tups : list Tuple) : indices lt = Some (row_of t <$> tups) ->
  tups = (fun pk => nth (Z.to_nat (fst pk)) tups ∅) <$> lazy_rows c lt /\
  forall p k, (p, k) ∈ lazy_rows c lt -> (Z.to_nat p < length tups)%nat /\ k = value_at c (row_of t (nth (Z.to_nat p) tups ∅)).
Proof.
  intros Ei. unfold lazy_rows. rewrite Ei. split.
  - apply list_eq. intros i. rewrite list_lookup_fmap, list_lookup_imap, list_lookup_fmap. destruct (tups !! i) as [x|] eqn:Ex; [| done].
    cbn. by rewrite Nat2Z.id, (nth_lookup_Some _ _ _ _ Ex).
  - intros p k H. apply list_elem_of_lookup in H as [i Hi]. rewrite list_lookup_imap, list_lookup_fmap in Hi.
    destruct (tups !! i) as [x|] eqn:Ex; [| done]. cbn in Hi. injection Hi as <- <-. rewrite Nat2Z.id, (nth_lookup_Some _ _ _ _ Ex).
    split; [by eapply lookup_lt_Some | done].
Qed.

Lemma nth_row_of t (tups : list Tuple) i : nth i (row_of t <$> tups) 0 = row_of t (nth i tups ∅).
Proof. rewrite <- (map_nth (row_of t)). done. Qed.

Lemma first_join_ok schedule num_parallel p R fin q lt : (forall n, Permutation (schedule n) (seq 0 n)) ->
  join_ok p R -> get_table (left_of p) prev0 = Some lt -> parallel_ok num_parallel (Z.of_nat (num_chunks (lcol_of p) lt)) ->
  Z.of_nat (length (join_one p R (start_tuples p))) < 2 ^ 31 -> (forall t, default false (fin !! t) = false) ->
  exists st', HashJoin get_column schedule num_parallel (left_of p) (right_of p) (col_name (left_col_ p)) (col_name (right_col_ p))
      (mkState prev0 fin q) = Some st' /\
    joined_tables [right_of p; left_of p] (join_one p R (start_tuples p)) prev0 st'.
Proof.
  intros Hsch HJ Elt Hpar Hcnt Hfin. pose proof HJ as [Hlc Hrc _ (rt & Ert & HRR) Hne].
  unfold join_one, start_tuples, right_entries in *. rewrite Elt, Ert in *.
  rewrite (extend_pairs _ _ _ _ _ (fun x => {[left_of p := row_at (lcol_of p) lt x]})) in Hcnt |- *
    by (intros x k Hx; unfold row_of; rewrite lookup_singleton_eq; by apply lazy_rows_key).
  rewrite length_fmap in Hcnt.
  eapply (step_ok _ _ lt rt (lcol_of p) (rcol_of p) R [] (fun x => {[left_of p := row_at (lcol_of p) lt x]})); try done.
  - split; [by eapply right_positions |]. unfold right_rows in HRR. by destruct (hash_table_ rt); [apply HRR |].
  - intros x k _. unfold row_of. by rewrite lookup_singleton_eq.
  - intros l _ Hl. by apply not_elem_of_nil in Hl.
Qed.

Lemma later_join_ok schedule num_parallel p R J tups st : (forall n, Permutation (schedule n) (seq 0 n)) ->
  join_ok p R -> left_of p ∈ J -> right_of p ∉ J -> filter_kept p -> Z.of_nat (length (join_one p R tups)) < 2 ^ 31 ->
  parallel_ok num_parallel (num_slices (Z.of_nat (length tups))) -> joined_tables J tups prev0 st ->
  exists st', HashJoin get_column schedule num_parallel (left_of p) (right_of p) (col_name (left_col_ p)) (col_name (right_col_ p)) st = Some st' /\
    joined_tables (right_of p :: left_of p :: J) (join_one p R tups) prev0 st'.
Proof.
  intros Hsch HJ HlJ HrJ Hkept Hcnt Hpar [Hlz Hjoined Hfresh Htabs Hfin]. pose proof HJ as [Hlc Hrc Hl (rt & Ert & HRR) Hne].
  destruct st as [prev fin q]. cbn [prev_result_ finished_] in *.
  destruct (proj2 (Htabs (left_of p)) Hl) as [lt Elt]. destruct (proj2 (Htabs (right_of p)) ltac:(by eexists)) as [rt' Ert'].
  pose proof (get_table_in _ _ _ Elt) as [Hlin Hlt]. pose proof (get_table_in _ _ _ Ert') as [Hrin Hrt].
  assert (rt' = drop_filter rt) as ->.
  { destruct (Hfresh rt' Hrin ltac:(by rewrite Hrt)) as (l0 & Hin & ->). f_equal. cbn in Hrt.
    apply nodup_get in Hin; [| done]. rewrite Hrt, Ert in Hin. by injection Hin. }
  pose proof (Hjoined lt Hlin ltac:(by rewrite Hlt)) as Ei. rewrite Hlt in Ei.
  destruct (joined_rows (left_of p) (lcol_of p) lt tups Ei) as [Etups Hpos].
  assert (base_rows (lcol_of p) lt = row_of (left_of p) <$> tups) as Eb by (unfold base_rows; by rewrite Ei).
  unfold join_one, right_entries in *. rewrite Ert in *.
  assert (extend (left_of p) (right_of p) (lcol_of p) (rows_at (rcol_of p) rt R) tups =
    (fun lr => <[right_of p := row_at (rcol_of p) (drop_filter rt) (snd lr)]> (nth (Z.to_nat (fst lr)) tups ∅)) <$>
      nested_loop (lazy_rows (lcol_of p) lt) R) as Eext.
  { rewrite Etups at 1. apply (extend_pairs (left_of p) (right_of p) (lcol_of p) (rcol_of p) rt (fun x => nth (Z.to_nat x) tups ∅)).
    intros x k Hx. symmetry. by apply Hpos. }
  rewrite Eext in Hcnt |- *. rewrite length_fmap in Hcnt.
  edestruct (step_ok (left_of p) (right_of p) lt (drop_filter rt) (lcol_of p) (rcol_of p) R J (fun x => nth (Z.to_nat x) tups ∅) prev)
    as (st' & E & HT); try exact Hcnt; try done.
  - split; [by eapply (right_positions p R rt) |]. cbn. unfold right_rows in HRR. specialize (Hkept rt Ert).
    destruct (hash_table_ rt); [apply HRR |]. rewrite HRR. unfold lazy_rows. cbn. destruct (indices rt); [done |]. by rewrite Hkept.
  - intros x k Hx. rewrite Eb. apply nth_row_of.
  - intros l Hin HlJ' _. exists (row_of (table l) <$> tups). split_and!; [auto | by rewrite Eb, !length_fmap |].
    intros x k _. apply nth_row_of.
  - unfold num_chunks. rewrite Ei, length_fmap. rewrite Z2Nat.id; [done |]. unfold num_slices.
    pose proof (Z.div_pos (Z.of_nat (length tups)) slice_length_ ltac:(lia) ltac:(done)). lia.
  - exists st'. split; [done |]. destruct HT as [? ? Hf' Ht' ?]. constructor; try done.
    + intros l Hin Hn. destruct (Hf' l Hin Hn) as (l0 & Hin0 & ->). rewrite !not_elem_of_cons in Hn. destruct Hn as (_ & _ & Hn). cbn in Hn.
      destruct (Hfresh l0 Hin0 Hn) as (l1 & Hin1 & ->). by exists l1.
    + intros t. by rewrite Ht'.
Qed.

(** [Execute] finds the two tables of every predicate. *)
Lemma find_sides_ok p r s : NoDup (table <$> r) -> left_of p <> right_of p -> is_Some (get_table (left_of p) r) -> is_Some (get_table (right_of p) r) ->
  exists fin, find_sides p r s = mkTables (lefts_ s ++ [left_of p]) (rights_ s ++ [right_of p]) fin /\
    (forall t, default false (unfinished s !! t) = false -> default false (fin !! t) = false).
Proof.
  intros HN Hne Hl Hr. rewrite get_table_Some in Hl, Hr.
  assert (exists fin, find_sides p r s = mkTables (lefts_ s ++ (if decide (left_of p ∈ table <$> r) then [left_of p] else []))
    (rights_ s ++ (if decide (right_of p ∈ table <$> r) then [right_of p] else [])) fin /\
    (forall t, default false (unfinished s !! t) = false -> default false (fin !! t) = false)) as (fin & E & Hf).
  { clear Hl Hr. revert s. induction r as [|l r IH]; intros s.
    { exists (unfinished s). rewrite !decide_False by apply not_elem_of_nil. rewrite !app_nil_r. by destruct s. }
    rewrite fmap_cons, NoDup_cons in HN. destruct HN as [Hn HN]. cbn [find_sides]. rewrite fmap_cons. fold (left_of p) (right_of p).
    match goal with |- context [find_sides p r ?s'] => destruct (IH HN s') as (fin & -> & Hf) end. exists fin. split.
    - destruct (Z.eqb_spec (left_of p) (table l)) as [El | Hnl]; [| destruct (Z.eqb_spec (right_of p) (table l)) as [Er | Hnr]]; cbn.
      + rewrite (decide_False (P := left_of p ∈ table <$> r)), (decide_True (P := left_of p ∈ table l :: _)) by (rewrite El; done || left).
        rewrite app_nil_r, El. f_equal. f_equal. apply decide_ext. rewrite elem_of_cons. split; [tauto | intros [|]; congruence].
      + rewrite (decide_False (P := right_of p ∈ table <$> r)), (decide_True (P := right_of p ∈ table l :: _)) by (rewrite Er; done || left).
        rewrite app_nil_r, Er. f_equal. f_equal. apply decide_ext. rewrite elem_of_cons. split; [tauto | intros [|]; congruence].
      + f_equal; f_equal; apply decide_ext; rewrite elem_of_cons; (split; [tauto | intros [|]; congruence]).
    - intros t Ht. apply Hf. destruct (_ =? _); [| destruct (_ =? _)]; cbn; (destruct (decide (table l = t)) as [<- | Ht'];
        [by rewrite lookup_insert_eq | by rewrite lookup_insert_ne]). }
  rewrite !decide_True in E by done. by exists fin.
Qed.

Lemma find_all_ok ps : forall s, Forall (fun p => exists R, join_ok p R) ps ->
  exists fin, find_all ps prev0 s = mkTables (lefts_ s ++ (left_of <$> ps)) (rights_ s ++ (right_of <$> ps)) fin /\
    (forall t, default false (unfinished s !! t) = false -> default false (fin !! t) = false).
Proof.
  induction ps as [|p ps IH]; intros s HF; cbn [find_all].
  { exists (unfinished s). cbn. rewrite !app_nil_r. by destruct s. }
  apply Forall_cons in HF as [[R [_ _ Hl (rt & Ert & _) Hne]] HF].
  destruct (find_sides_ok p prev0 s Hdup Hne Hl ltac:(by eexists)) as (fin & -> & Hf). destruct (IH (mkTables (lefts_ s ++ [left_of p]) (rights_ s ++ [right_of p]) fin) HF) as (fin' & -> & Hf').
  exists fin'. cbn. rewrite <- !(assoc_L (++)). split; [done |]. intros t Ht. by apply Hf', Hf.
Qed.

Section Run.
Variables (schedule : nat -> nat -> list nat) (num_parallel : spec_float) (ps : list JoinPredicate) (fin : gmap Z bool).
Hypothesis Hsch : forall j n, Permutation (schedule j n) (seq 0 n).

Let s := mkTables (left_of <$> ps) (right_of <$> ps) fin.

(** A join of the loop is the join of its predicate. *)
Lemma run_joins_S n j p st : ps !! j = Some p ->
  run_joins (S n) j get_column schedule num_parallel ps s st =
    (st ← HashJoin get_column (schedule j) num_parallel (left_of p) (right_of p) (col_name (left_col_ p)) (col_name (right_col_ p)) st;
     run_joins n (S j) get_column schedule num_parallel ps s st).
Proof. intros E. cbn [run_joins lefts_ rights_ s]. rewrite !list_lookup_fmap, E. done. Qed.

Lemma later_joins_ok js : forall j J tups st, drop j ps = fst <$> js -> later_ok num_parallel J tups js -> joined_tables J tups prev0 st ->
  exists st', run_joins (length js) j get_column schedule num_parallel ps s st = Some st' /\
    joined_tables (tables_of js J) (join_chain js tups) prev0 st'.
Proof.
  induction js as [|[p R] js IH]; intros j J tups st Hd HL HT; [by exists st |]. cbn [later_ok] in HL.
  destruct HL as (HJ & HlJ & HrJ & Hk & Hc & Hp & HL). cbn [length].
  assert (ps !! j = Some p) as Ej by (rewrite <- (Nat.add_0_r j), <- lookup_drop, Hd; done).
  destruct (later_join_ok (schedule j) num_parallel p R J tups st (Hsch j) HJ HlJ HrJ Hk Hc Hp HT) as (st1 & E1 & HT1).
  rewrite (run_joins_S _ _ p) by done. rewrite E1. cbn [mbind option_bind]. apply IH; [| done | done].
  rewrite <- Nat.add_1_r, <- drop_drop, Hd. done.
Qed.

End Run.

Lemma later_join_preds np js : forall J tups, later_ok np J tups js -> Forall (fun p => exists R, join_ok p R) (fst <$> js).
Proof. induction js as [|[p R] js IH]; intros J tups HL; [constructor |]. destruct HL as (HJ & _ & _ & _ & _ & _ & HL). constructor; [by exists R | by eapply IH]. Qed.

Lemma join_ok_tables p R J t : join_ok p R -> (forall t, t ∈ J -> is_Some (get_table t prev0)) -> t ∈ right_of p :: left_of p :: J ->
  is_Some (get_table t prev0).
Proof. intros [_ _ Hl (rt & Ert & _) _] HJ. rewrite !elem_of_cons. intros [-> | [-> | ?]]; [by eexists | done | auto]. Qed.

Lemma tables_known np js : forall J tups, later_ok np J tups js -> (forall t, t ∈ J -> is_Some (get_table t prev0)) ->
  forall t, t ∈ tables_of js J -> is_Some (get_table t prev0).
Proof.
  induction js as [|[p R] js IH]; intros J tups HL HJ; [done |]. destruct HL as (Hp & _ & _ & _ & _ & _ & HL).
  eapply IH; [exact HL |]. intros t. by apply (join_ok_tables p R).
Qed.

(** The whole chain. *)
Lemma multiway_ok schedule num_parallel p R js graph prev_vec out lt :
  (forall j n, Permutation (schedule j n) (seq 0 n)) -> get_predicates graph 0 = Some (p :: (fst <$> js)) -> prev0 = concat prev_vec ->
  join_ok p R -> get_table (left_of p) prev0 = Some lt -> parallel_ok num_parallel (Z.of_nat (num_chunks (lcol_of p) lt)) ->
  Z.of_nat (length (join_one p R (start_tuples p))) < 2 ^ 31 ->
  later_ok num_parallel [right_of p; left_of p] (join_one p R (start_tuples p)) js ->
  exists r, Execute get_column schedule num_parallel graph prev_vec out = Some (out ++ r) /\
    forall t, t ∈ tables_of ((p, R) :: js) [] ->
      indices_of t r = Some (row_of t <$> join_chain ((p, R) :: js) (start_tuples p)).
Proof.
  intros Hsch Eg Ep HJ Elt Hpar Hcnt HL. unfold Execute. rewrite Eg. cbn [mbind option_bind].
  assert (foldl (fun r r2 => append_result r2 r) [] prev_vec = prev0) as ->.
  { rewrite Ep. unfold append_result. rewrite <- (app_nil_l (concat prev_vec)). generalize (@nil LazyTable). clear.
    induction prev_vec as [|r prev_vec IH]; intros acc; cbn; [by rewrite app_nil_r |]. rewrite IH, (assoc_L (++)). done. }
  destruct (find_all_ok (p :: (fst <$> js)) (mkTables [] [] ∅)) as (fin & -> & Hf).
  { constructor; [by exists R | by eapply later_join_preds]. }
  cbn [lefts_ rights_ unfinished app]. rewrite length_fmap. cbn [length]. rewrite length_fmap.
  rewrite (run_joins_S _ _ _ _ _ _ p) by done.
  destruct (first_join_ok (schedule 0%nat) num_parallel p R fin (mkProbe [] []) lt (Hsch 0%nat) HJ Elt Hpar Hcnt) as (st1 & -> & HT1).
  { intros t. apply Hf. done. }
  cbn [mbind option_bind]. destruct (later_joins_ok schedule num_parallel (p :: (fst <$> js)) fin Hsch js 1 _ _ st1 eq_refl HL HT1) as (st2 & -> & HT2).
  cbn [mbind option_bind]. exists (prev_result_ st2). split; [done |]. intros t Ht.
  assert (is_Some (get_table t prev0)) as Hin.
  { eapply tables_known; [exact HL | | exact Ht]. intros t' Ht'. eapply join_ok_tables; [exact HJ | | exact Ht']. by intros ? ?%not_elem_of_nil. }
  destruct HT2 as [_ Hjo _ Htab _].
  unfold indices_of. destruct (proj2 (Htab t) Hin) as [l El]. rewrite El. cbn [mbind option_bind].
  apply get_table_in in El as [Hl <-]. by apply Hjo.
Qed.

End Database.

End MultiResult.

Import MultiResult.

(** C11: a multiway join computes the join of all its tables.  Starting from the
    active rows of the first left table, every predicate in turn continues each
    tuple by the active rows of its right table with the same key; at the end the
    index arrays of all joined tables are aligned and entry [i] of the array of a
    table is its row in tuple [i].  This holds for every order of the tasks of
    the probes, when the left table of every later predicate has been joined and
    its right table has not, and when a right table that is joined later has no
    filter or comes with the hash table of its selection; no access leaves an
    array. *)
Theorem multiway_join_correct {T : ArrowTake} (get_column : Z -> string -> option Chunks) (nrows : Z -> Z)
    (schedule : nat -> nat -> list nat) (num_parallel : spec_float) (graph : JoinGraph) (prev_vec : list OperatorResult) (out : OperatorResult)
    (p : JoinPredicate) (R : list (Z * Z)) (js : list (JoinPredicate * list (Z * Z))) (lt : LazyTable) :
  columns_ok get_column nrows -> Forall (lazy_ok get_column nrows) (concat prev_vec) -> NoDup (table <$> concat prev_vec) ->
  (forall j n, Permutation (schedule j n) (seq 0 n)) -> get_predicates graph 0 = Some (p :: (fst <$> js)) ->
  join_ok get_column (concat prev_vec) p R -> get_table (left_of p) (concat prev_vec) = Some lt ->
  parallel_ok num_parallel (Z.of_nat (num_chunks (lcol_of get_column p) lt)) ->
  Z.of_nat (length (join_one get_column (concat prev_vec) p R (start_tuples get_column (concat prev_vec) p))) < 2 ^ 31 ->
  later_ok get_column (concat prev_vec) num_parallel [right_of p; left_of p]
    (join_one get_column (concat prev_vec) p R (start_tuples get_column (concat prev_vec) p)) js ->
  exists r, Multi.Execute get_column schedule num_parallel graph prev_vec out = Some (out ++ r) /\
    forall t, t ∈ tables_of ((p, R) :: js) [] ->
      indices_of t r = Some (row_of t <$> join_chain get_column (concat prev_vec) ((p, R) :: js) (start_tuples get_column (concat prev_vec) p)).
Proof. intros HC HZ HD Hsch Eg HJ Elt Hpar Hcnt HL. by eapply multiway_ok. Qed.

(** ** An example *)

Module MultiDemo.

Import ListTake.

(** A fact table 1 with two foreign keys and dimension tables 2 and 3. *)
Definition demo_column (t : Z) (name : string) : option Chunks :=
  if (t =? 1) && bool_decide (name = "a") then Some [[1; 2]; [3; 2]]
  else if (t =? 1) && bool_decide (name = "b") then Some [[7; 8]; [7; 9]]
  else if (t =? 2) && bool_decide (name = "k") then Some [[2; 3; 2]]
  else if (t =? 3) && bool_decide (name = "k") then Some [[7; 9; 8]]
  else None.

Definition demo_nrows (t : Z) : Z := if t =? 1 then 4 else 3.

Definition pred_a : JoinPredicate := mkJoinPredicate (mkColumnReference 1 "a") (mkColumnReference 2 "k").
Definition pred_b : JoinPredicate := mkJoinPredicate (mkColumnReference 1 "b") (mkColumnReference 3 "k").

(** Row 2 of table 2 has been filtered out. *)
Definition demo_prev : list OperatorResult :=
  [[newLazyTable 1 None None None None]; [newLazyTable 2 (Some [[3]]) None None None]; [newLazyTable 3 None None None None]].

(** The same with a filter that keeps row 0 of table 3. *)
Definition demo_filtered : list OperatorResult :=
  [[newLazyTable 1 None None None None]; [newLazyTable 2 (Some [[3]]) None None None]; [newLazyTable 3 (Some [[1]]) None None None]].

Definition demo_graph : JoinGraph := mkJoinGraph [[pred_a; pred_b]] [1] 2.

Lemma demo_columns_ok : columns_ok demo_column demo_nrows.
Proof.
  intros t name c. unfold demo_column, demo_nrows.
  destruct (Z.eqb_spec t 1), (Z.eqb_spec t 2), (Z.eqb_spec t 3); try lia; cbn [andb];
    repeat case_bool_decide; intros [= <-]; (split; [done |]; split; [reflexivity |]; split; [lia |]);
    repeat (apply Forall_cons_2; [unfold is_s; lia |]); constructor.
Qed.

Lemma demo_lazy_ok : Forall (lazy_ok demo_column demo_nrows) (concat demo_prev).
Proof.
  repeat apply Forall_cons_2; [| | | constructor]; (constructor; cbn; [by intros ? [=] | | by intros ? [=] | by intros ? ? ? ?%lookup_empty_Some]).
  - done.
  - intros name c _. unfold demo_column. cbn. case_bool_decide; [| done]. intros [= <-].
    repeat (apply Forall2_cons_2; [vm_compute; intros [=] |]). constructor.
  - done.
Qed.

End MultiDemo.

Import MultiDemo.

Lemma multiway_join_correct_witness :
  exists r, Multi.Execute (T := ListTake.list_take) demo_column (fun _ n => rev (seq 0 n)) (double_of_Z 8) demo_graph demo_prev [] = Some r /\
    indices_of 1 r = Some [1; 2; 3] /\ indices_of 2 r = Some [0; 1; 0] /\ indices_of 3 r = Some [2; 0; 1].
Proof.
  destruct (multiway_join_correct (T := ListTake.list_take) demo_column demo_nrows (fun _ n => rev (seq 0 n)) (double_of_Z 8) demo_graph demo_prev []
    pred_a [(0, 2); (1, 3)] [(pred_b, [(0, 7); (1, 9); (2, 8)])] (newLazyTable 1 None None None None)) as (r & E & H).
  - apply demo_columns_ok.
  - apply demo_lazy_ok.
  - vm_compute. repeat (apply NoDup_cons; split; [rewrite ?elem_of_cons, elem_of_nil; lia |]). constructor.
  - intros _ n. symmetry. apply Permutation_rev.
  - reflexivity.
  - constructor; [reflexivity | reflexivity | by eexists | eexists; split; reflexivity | done].
  - reflexivity.
  - exists 0. split_and!; [vm_compute; reflexivity | lia | vm_compute; reflexivity].
  - vm_compute. reflexivity.
  - split_and!.
    + constructor; [reflexivity | reflexivity | by eexists | eexists; split; reflexivity | done].
    + right. left.
    + rewrite !elem_of_cons, elem_of_nil. unfold right_of, left_of. cbn. lia.
    + intros rt [= <-] _. reflexivity.
    + vm_compute. reflexivity.
    + exists 0. split_and!; [vm_compute; reflexivity | lia | vm_compute; reflexivity].
    + exact I.
  - exists r. split_and!; [exact E | | |].
    + etransitivity; [apply (H 1) | vm_compute; reflexivity]. right. left.
    + etransitivity; [apply (H 2) | vm_compute; reflexivity]. right. right. left.
    + etransitivity; [apply (H 3) | vm_compute; reflexivity]. left.
Defined.

(** The filter of a table that is joined second is lost: of table 3 only row 0
    was selected, but the rows 1 and 2 take part in the join. *)
Theorem multiway_join_drops_filter :
  exists r, Multi.Execute (T := ListTake.list_take) demo_column (fun _ n => seq 0 n) (double_of_Z 8) demo_graph demo_filtered [] = Some r /\
    indices_of 3 r = Some [2; 0; 1].
Proof. eexists. split; vm_compute; reflexivity. Qed.
