(* ===== verification/FilterJoin.v ===== *)
(** * The fused filter and join (operators/fused/filter_join)

    [FilterJoin] is lookahead information passing that joins on the fly: a row of
    the fact table that passes a filter is looked up in the hash table of the
    dimension, and the row of the dimension is recorded next to it.  A row that
    fails a later filter is removed from all arrays.  The tasks of one filter and
    batch may run in any order, which is an argument, and so is [std::sort].
    [None] is undefined behaviour, a failed assertion or the exception for a
    dimension without a hash table. *)

From Stdlib Require Import ZArith Lia SpecFloat.
From stdpp Require Import base numbers list gmap option strings.
Import stdpp.list_basics.list stdpp.list_relations.list stdpp.list_monad.list.
From S2P Require Import Prelude Bloom Columns HashJoin Lip.
Import Keys Hist BF BloomBits WindowSpec Columns ColumnsProof Lazy Join JoinSpec JoinResult.
Import LipChunk LipRun LipBuild LipResult.

Local Open Scope Z_scope.

Module FJ.

Record LookupFilterJoin := mkLookupFilterJoin { bloom_filter : BloomFilter; hash_table : HashTable; indices_ : list (list Z) }.

(** ** Build *)

(** The second task of a dimension. *)
Definition build_join_filter (rands : list Z) (pk_col : Chunks) (fact_fk_name : string) (dim : LazyTable) : option LookupFilterJoin :=
  n ← match filter dim with
      | None => Some (Z.of_nat (length (concat pk_col)))
      | Some f => LIP.length_after_filtering pk_col 0 (Some f)
      end;
  b ← newBloomFilter n rands;
  b ← LIP.insert_chunks pk_col 0 (filter dim) b;
  b ← set_memory 1 b;
  h ← hash_table_ dim;
  Some (mkLookupFilterJoin (set_fact_fk_name fact_fk_name b) h []).

(** ** Probe *)

(** The row of the dimension for a key, if the key passes the Bloom filter and
    is in the hash table; the keys of a dimension are unique. *)
Definition lookup_row (f : LookupFilterJoin) (key : Z) : option (option Z) :=
  hit ← probe bloom_index key (bloom_filter f);
  if (hit : bool) then
    match hash_table f !! key with
    | Some [id] => Some (Some (index id))
    | Some _ => None
    | None => Some None
    end
  else Some None.

(** The first filter scans the chunk. *)
Fixpoint join_rows (f : LookupFilterJoin) (chunk_data : list Z) (row offset : Z) : option (list Z * list Z) :=
  match chunk_data with
  | [] => Some ([], [])
  | key :: chunk_data' =>
      m ← lookup_row f key;
      '(idxs, dim_idxs) ← join_rows f chunk_data' (row + 1) offset;
      Some (match (m : option Z) with
            | Some r => (to_u32 (row + offset) :: idxs, r :: dim_idxs)
            | None => (idxs, dim_idxs)
            end)
  end.

(** Exchanges the elements [k] and [last] of an array. *)
Definition swap (k last : Z) (a : list Z) : option (list Z) :=
  x ← a !! Z.to_nat k;
  y ← a !! Z.to_nat last;
  Some (<[Z.to_nat last := x]> (<[Z.to_nat k := y]> a)).

(** [while (join_row_idx <= indices_length)]; [prevs] are the arrays of the
    dimensions of the earlier filters and [dims] is the written part of
    [dim_indices]. *)
Fixpoint join_partition (fuel : nat) (f : LookupFilterJoin) (chunk_data : list Z) (offset k indices_length : Z) (idxs : list Z)
    (prevs : list (list Z)) (dims : list Z) : option (list Z * Z * list (list Z) * list Z) :=
  if k <=? indices_length then
    match fuel with
    | O => None
    | S fuel' =>
        i ← idxs !! Z.to_nat k;
        key ← chunk_data !! Z.to_nat (to_u32 (i - offset));
        m ← lookup_row f key;
        match (m : option Z) with
        | Some r =>
            if Z.of_nat (length chunk_data) <=? k then None else
            join_partition fuel' f chunk_data offset (k + 1) indices_length idxs prevs (dims ++ [r])
        | None =>
            prevs ← mapM (swap k indices_length) prevs;
            idxs ← swap k indices_length idxs;
            join_partition fuel' f chunk_data offset k (indices_length - 1) idxs prevs dims
        end
    end
  else Some (idxs, indices_length, prevs, dims).

(** [dim_filters_] and [lip_indices_] *)
Record JoinState := mkJoinState { join_filters_ : list LookupFilterJoin; join_lip_ : list (list Z) }.

Definition set_indices (i : nat) (idxs : list Z) (f : LookupFilterJoin) : option LookupFilterJoin :=
  l ← set_at i idxs (indices_ f);
  Some (mkLookupFilterJoin (bloom_filter f) (hash_table f) l).

(** The arrays of the earlier filters are cut to [n] elements. *)
Fixpoint resize_all (i : nat) (n : Z) (fs : list LookupFilterJoin) (arrays : list (list Z)) : option (list LookupFilterJoin) :=
  match fs, arrays with
  | f :: fs', a :: arrays' =>
      f ← set_indices i (take (Z.to_nat n) a) f;
      fs' ← resize_all i n fs' arrays';
      Some (f :: fs')
  | _, _ => Some []
  end.

Section Probe.
(** [fact_fk_cols2_] and [chunk_row_offsets_] *)
Context (fact_fk_cols : string -> option Chunks) (chunk_row_offsets : list Z).
(** [std::sort] with [SortByBloomFilterJoin] *)
Context (sort : (LookupFilterJoin -> LookupFilterJoin -> bool) -> list LookupFilterJoin -> list LookupFilterJoin).
(** The order in which the chunks of one filter and batch are probed. *)
Context (schedule : list nat -> list nat).

(** The first filter probes all rows of the chunk. *)
Definition join_first (chunk_i : nat) (f : LookupFilterJoin) (chunk_data : list Z) (offset : Z) (st : JoinState) : option JoinState :=
  '(idxs, dim_idxs) ← join_rows f chunk_data 0 offset;
  lip ← set_at chunk_i idxs (join_lip_ st);
  f ← set_indices chunk_i dim_idxs f;
  Some (mkJoinState (<[0%nat := f]> (join_filters_ st)) lip).

(** The others probe the rows that passed the filters before. *)
Definition join_later (filter_j chunk_i : nat) (f : LookupFilterJoin) (chunk_data : list Z) (offset : Z) (st : JoinState) : option JoinState :=
  prevs ← mapM (fun g => indices_ g !! chunk_i) (take filter_j (join_filters_ st));
  idxs ← join_lip_ st !! chunk_i;
  '(idxs, indices_length, prevs, dims) ←
    join_partition (length idxs) f chunk_data offset 0 (Z.of_nat (length idxs) - 1) idxs prevs [];
  fs ← resize_all chunk_i (indices_length + 1) (take filter_j (join_filters_ st)) prevs;
  f ← set_indices chunk_i (take (Z.to_nat (indices_length + 1)) dims) f;
  lip ← set_at chunk_i (take (Z.to_nat (indices_length + 1)) idxs) (join_lip_ st);
  Some (mkJoinState (fs ++ f :: drop (S filter_j) (join_filters_ st)) lip).

(** The task of filter [filter_j] and chunk [chunk_i]. *)
Definition join_chunk (filter_j chunk_i : nat) (st : JoinState) : option JoinState :=
  f ← join_filters_ st !! filter_j;
  fact_fk_col ← fact_fk_cols (get_fact_fk_name (bloom_filter f));
  offset ← chunk_row_offsets !! chunk_i;
  let offset := to_u32 offset in
  chunk_data ← fact_fk_col !! chunk_i;
  if decide (filter_j = 0%nat) then join_first chunk_i f chunk_data offset st
  else join_later filter_j chunk_i f chunk_data offset st.

Fixpoint join_chunks (filter_j : nat) (chunks : list nat) (st : JoinState) : option JoinState :=
  match chunks with
  | [] => Some st
  | i :: chunks' => st ← join_chunk filter_j i st; join_chunks filter_j chunks' st
  end.

(** The chain of a batch: filter after filter. *)
Fixpoint join_filters (n filter_j : nat) (chunks : list nat) (st : JoinState) : option JoinState :=
  match n with
  | O => Some st
  | S n' => st ← join_chunks filter_j (schedule chunks) st; join_filters n' (S filter_j) chunks st
  end.

Fixpoint update_filters (fs : list LookupFilterJoin) : option (list LookupFilterJoin) :=
  match fs with
  | [] => Some []
  | f :: fs' =>
      b ← update (bloom_filter f);
      rest ← update_filters fs';
      Some (mkLookupFilterJoin b (hash_table f) (indices_ f) :: rest)
  end.

Definition SortByBloomFilterJoin (lhs rhs : LookupFilterJoin) : bool := BF.compare (bloom_filter lhs) (bloom_filter rhs).

Definition update_sort (st : JoinState) : option JoinState :=
  fs ← update_filters (join_filters_ st);
  Some (mkJoinState (sort SortByBloomFilterJoin fs) (join_lip_ st)).

Fixpoint join_batches (n : nat) (batch_i : Z) (num_dims : nat) (num_chunks batch_size : Z) (st : JoinState) : option JoinState :=
  match n with
  | O => Some st
  | S n' =>
      st ← join_filters num_dims 0 (LIP.batch_chunks num_chunks batch_size batch_i) st;
      st ← update_sort st;
      join_batches n' (batch_i + 1) num_dims num_chunks batch_size st
  end.

(** [ProbeFilters(ctx)]; [num_parallel] is the number of processors times the
    parallel factor. *)
Definition ProbeFilters (num_parallel num_chunks : Z) (num_dims : nat) (st : JoinState) : option JoinState :=
  let batch_size := if num_parallel =? 0 then num_chunks else num_parallel in
  if batch_size =? 0 then None else
  let num_batches := Z.quot num_chunks batch_size + 1 in
  let num_batches := if num_batches =? 0 then 1 else num_batches in
  join_batches (Z.to_nat num_batches) 0 num_dims num_chunks batch_size st.

End Probe.

(** ** Result *)

(** Dimension [i] receives the indices of filter [i]. *)
Fixpoint join_dims (dims : list LazyTable) (fs : list LookupFilterJoin) : option (list LazyTable) :=
  match dims with
  | [] => Some []
  | dim :: dims' =>
      f ← head fs;
      rest ← join_dims dims' (tail fs);
      Some (newLazyTable (table dim) None (Some (concat (indices_ f))) None (hash_table_ dim) :: rest)
  end.

Definition Finish (fact_table : LazyTable) (dim_tables : list LazyTable) (st : JoinState) (out : OperatorResult) : option OperatorResult :=
  dims ← join_dims dim_tables (join_filters_ st);
  Some (append_result
    (newLazyTable (table fact_table) None (Some (concat (join_lip_ st))) (Some (LIP.index_chunks_of 0 (join_lip_ st))) None :: dims) out).

Section Execute.
(** [DBTable::get_column_by_name] *)
Context (get_column : Z -> string -> option Chunks).
(** The results of [rand()] for the filter of each dimension. *)
Context (rands : nat -> list Z).

(** [BuildFilters], the tasks running in the order [tasks]. *)
Definition BuildFilters (tasks : list BuildTask) (preds : list JoinPredicate) (dims : list LazyTable) : option (list LookupFilterJoin) :=
  build_all ((fun p => col_name (right_col_ p)) <$> preds)
    (fun i name => dim ← dims !! i; get_column (table dim) name)
    (fun i pk_col => dim ← dims !! i; p ← preds !! i; build_join_filter (rands i) pk_col (col_name (left_col_ p)) dim)
    (length dims) tasks.

(** [bf.indices_.resize(fact_col->num_chunks())] *)
Definition resize_indices (n : nat) (f : LookupFilterJoin) : LookupFilterJoin :=
  mkLookupFilterJoin (bloom_filter f) (hash_table f) (take n (indices_ f) ++ replicate (n - length (indices_ f)) []).

(** [FilterJoin::Execute]: the tables of the predicates are found as in LIP. *)
Definition Execute (sort : (LookupFilterJoin -> LookupFilterJoin -> bool) -> list LookupFilterJoin -> list LookupFilterJoin)
    (tasks : list BuildTask) (schedule : list nat -> list nat) (num_parallel : Z) (graph : Graph.JoinGraph)
    (prev : list OperatorResult) (out : OperatorResult) : option OperatorResult :=
  let prev_result := concat prev in
  preds ← Graph.get_predicates graph 0;
  let '(fact, dim_tables) := LIP.collect_tables preds prev_result (None, []) in
  fact_table ← fact;
  dim_filters ← BuildFilters tasks preds dim_tables;
  p0 ← head preds;
  fact_col ← LIP.fact_fk_col get_column fact_table (col_name (left_col_ p0));
  offsets ← ComputeChunkOffsets fact_col;
  st ← ProbeFilters (LIP.fact_fk_col get_column fact_table) offsets sort schedule num_parallel (Z.of_nat (length fact_col))
         (length dim_tables) (mkJoinState (resize_indices (length fact_col) <$> dim_filters) (replicate (length fact_col) []));
  Finish fact_table dim_tables st out.

End Execute.

End FJ.

Import FJ.

(** ** One chunk *)

Module FJChunk.

(** The filter of lookahead information passing with the same parts. *)
Definition lip_of (f : LookupFilterJoin) : LIP.LookupFilter := LIP.mkLookupFilter (bloom_filter f) (Some (hash_table f)).

Definition unique (f : LookupFilterJoin) : Prop := forall key ids, hash_table f !! key = Some ids -> exists id, ids = [id].

(** The row of the dimension that a key joins with. *)
Definition match_of (f : LookupFilterJoin) (key : Z) : Z := default 0 (index <$> (hash_table f !! key ≫= head)).

Lemma lookup_row_ok f key : usable (lip_of f) -> unique f ->
  lookup_row f key = Some (if verdict (lip_of f) key then Some (match_of f key) else None).
Proof.
  intros Hu Hq. pose proof (lookup_key_ok (lip_of f) key Hu) as E. unfold LIP.lookup_key in E. cbn [lip_of LIP.bloom_filter LIP.hash_table] in E.
  unfold lookup_row, match_of. destruct (probe _ _ _) as [[]|]; cbn [mbind option_bind] in *; [| by injection E as <- | done].
  destruct (hash_table f !! key) as [ids|] eqn:Eh; cbn in E; injection E as <-; [| done]. by destruct (Hq key ids Eh) as [id ->].
Qed.

(** The row of the dimension for row [i] of the fact table. *)
Definition row_match (f : LookupFilterJoin) (chunk_data : list Z) (offset i : Z) : Z := match_of f (key_at chunk_data offset i).

Lemma join_rows_ok f offset (g : Z -> Z) : usable (lip_of f) -> unique f -> forall chunk_data row idxs,
  LIP.scan_rows (lip_of f) chunk_data row offset = Some idxs ->
  (forall n key, chunk_data !! n = Some key -> g (to_u32 (row + Z.of_nat n + offset)) = match_of f key) ->
  join_rows f chunk_data row offset = Some (idxs, g <$> idxs).
Proof.
  intros Hu Hq. induction chunk_data as [|key data IH]; intros row idxs E Hg; cbn [join_rows LIP.scan_rows] in *; [by injection E as <- |].
  rewrite lookup_row_ok by done. rewrite lookup_key_ok in E by done. cbn [mbind option_bind] in *.
  destruct (LIP.scan_rows _ data (row + 1) offset) as [rest|] eqn:Es; [| done]. cbn [mbind option_bind] in *.
  rewrite (IH (row + 1) rest Es). 2: { intros n k Ek. rewrite <- (Hg (S n) k Ek). do 2 f_equal. lia. }
  cbn [mbind option_bind]. injection E as <-. destruct (verdict _ key); [| done]. rewrite fmap_cons. do 2 f_equal.
  rewrite <- (Hg 0%nat key eq_refl). f_equal. do 2 f_equal. lia.
Qed.

Lemma swap_fmap (g : Z -> Z) k last idxs x y : idxs !! Z.to_nat k = Some x -> idxs !! Z.to_nat last = Some y ->
  swap k last (g <$> idxs) = Some (g <$> <[Z.to_nat last := x]> (<[Z.to_nat k := y]> idxs)).
Proof. intros Ex Ey. unfold swap. rewrite !list_lookup_fmap, Ex, Ey. cbn. by rewrite !list_fmap_insert. Qed.

(** The arrays of the dimensions, for the indices of the fact table. *)
Definition images (gs : list (Z -> Z)) (idxs : list Z) : list (list Z) := map (fun g => map g idxs) gs.

Lemma mapM_swap (gs : list (Z -> Z)) k last (idxs : list Z) x y : idxs !! Z.to_nat k = Some x -> idxs !! Z.to_nat last = Some y ->
  mapM (swap k last) (images gs idxs) = Some (images gs (<[Z.to_nat last := x]> (<[Z.to_nat k := y]> idxs))).
Proof.
  intros Ex Ey. induction gs as [|g gs IH]; [done |]. cbn [images map mapM]. pose proof (swap_fmap g k last idxs x y Ex Ey) as E.
  change (map g idxs) with (g <$> idxs). rewrite E. cbn [mbind option_bind].
  fold (images gs idxs). by rewrite IH.
Qed.

(** Every array stays a function of the indices of the fact table. *)
Lemma join_partition_ok f chunk_data offset (gs : list (Z -> Z)) : usable (lip_of f) -> unique f ->
  forall fuel k L idxs idxs' L', LIP.partition fuel (lip_of f) chunk_data offset k L idxs = Some (idxs', L') ->
  Forall (in_rows offset (length chunk_data)) idxs -> 0 <= offset -> offset + Z.of_nat (length chunk_data) < 2 ^ 32 -> (length idxs <= length chunk_data)%nat ->
  0 <= k <= L + 1 -> L < Z.of_nat (length idxs) ->
  join_partition fuel f chunk_data offset k L idxs (images gs idxs) (row_match f chunk_data offset <$> take (Z.to_nat k) idxs) =
    Some (idxs', L', images gs idxs', row_match f chunk_data offset <$> take (Z.to_nat (L' + 1)) idxs').
Proof.
  intros Hu Hq. induction fuel as [|fuel IH]; intros k L idxs idxs' L' E HF Ho Hd Hl Hk HL; cbn [join_partition LIP.partition] in *;
    destruct (Z.leb_spec k L) as [Hle | Hgt]; try done; try (injection E as <- <-; by replace (L + 1) with k by lia).
  destruct (idxs !! Z.to_nat k) as [i|] eqn:Ei; [| done]. cbn [mbind option_bind] in *.
  pose proof (Forall_lookup_1 _ _ _ _ HF Ei) as Hi. unfold in_rows in Hi. rewrite wrapu_id in E |- * by (unfold is_u; lia).
  destruct (chunk_data !! Z.to_nat (i - offset)) as [key|] eqn:Ek; [| done]. cbn [mbind option_bind] in *.
  rewrite lookup_row_ok by done. rewrite lookup_key_ok in E by done. cbn [mbind option_bind] in *.
  destruct (verdict (lip_of f) key) eqn:Ev.
  - rewrite (proj2 (Z.leb_gt _ _)) by lia. rewrite <- (IH (k + 1) L idxs idxs' L' E) by (done || lia). f_equal.
    replace (Z.to_nat (k + 1)) with (S (Z.to_nat k)) by lia. rewrite (take_S_r _ _ _ Ei), fmap_app. cbn. do 2 f_equal.
    unfold row_match, key_at. by rewrite (nth_lookup_Some _ _ _ _ Ek).
  - destruct (idxs !! Z.to_nat L) as [l|] eqn:El; [| done]. cbn [mbind option_bind] in *.
    rewrite (mapM_swap gs k L idxs i l Ei El). cbn [mbind option_bind]. unfold swap. rewrite Ei, El. cbn [mbind option_bind].
    rewrite <- (IH k (L - 1) _ idxs' L' E).
    + f_equal. f_equal. rewrite !take_insert_ge by lia. done.
    + by rewrite (Permutation_insert_swap idxs (Z.to_nat k) (Z.to_nat L) i l Ei El).
    + done.
    + done.
    + by rewrite !length_insert.
    + lia.
    + rewrite !length_insert. lia.
Qed.

End FJChunk.

Import FJChunk.

(** ** All chunks and filters *)

Module FJRun.

Section Run.
Context (cols : string -> option Chunks) (col : Chunks) (offsets : list Z) (fs : list LookupFilterJoin).
Context (schedule : list nat -> list nat).
Context (Hsch : forall l, Permutation (schedule l) l).
Context (Hrows : rows col < 2 ^ 30) (Hoff : forall i, (i < length col)%nat -> offsets !! i = Some (Z.of_nat (start_row col i))).

(** Row [r] of the fact table, in chunk [i], joins with this row of the dimension. *)
Definition fact_match (f : LookupFilterJoin) (i : nat) (r : Z) : Z :=
  match cols (fk_name_ (bloom_filter f)) ≫= (fun c => c !! i) with
  | Some data => row_match f data (Z.of_nat (start_row col i)) r
  | None => 0
  end.

Definition same_filter (f g : LookupFilterJoin) : Prop := same (lip_of f) (lip_of g).

Lemma fact_match_same f g i r : same_filter f g -> fact_match f i r = fact_match g i r.
Proof. intros [= H1 H2 H3 H4 H5 H6]. unfold fact_match, row_match, match_of. by rewrite H5, H6. Qed.

(** The filters are those of [fs]. *)
Record run_ok (st : JoinState) : Prop := {
  ro_same : Forall2 same_filter (join_filters_ st) fs;
  ro_lip : length (join_lip_ st) = length col;
  ro_indices : Forall (fun f => length (indices_ f) = length col) (join_filters_ st)
}.

(** What the operator is given. *)
Record given : Prop := {
  g_usable : Forall (fun f => usable (lip_of f)) fs;
  g_column : Forall (fun f => has_column cols col (lip_of f)) fs;
  g_unique : Forall unique fs
}.

(** [j] filters have probed chunk [i]: the arrays of their dimensions are
    aligned with the rows that are left. *)
Definition joined (j i : nat) (st : JoinState) : Prop :=
  j = 0%nat \/ exists idxs, join_lip_ st !! i = Some idxs /\ Permutation idxs (expected cols col (lip_of <$> take j fs) i) /\
    forall j' f, (j' < j)%nat -> join_filters_ st !! j' = Some f -> indices_ f !! i = Some (fact_match f i <$> idxs).

(** Only chunk [i] of the indices may differ. *)
Definition touched (i : nat) (f f' : LookupFilterJoin) : Prop :=
  bloom_filter f' = bloom_filter f /\ hash_table f' = hash_table f /\ length (indices_ f') = length (indices_ f) /\
  forall k, k <> i -> indices_ f' !! k = indices_ f !! k.

Record framed (i : nat) (st st' : JoinState) : Prop := {
  fr_filters : Forall2 (touched i) (join_filters_ st) (join_filters_ st');
  fr_lip : forall k, k <> i -> join_lip_ st' !! k = join_lip_ st !! k;
  fr_length : length (join_lip_ st') = length (join_lip_ st)
}.

Lemma touched_same i f f' : touched i f f' -> same_filter f' f.
Proof. intros (H1 & H2 & _). unfold same_filter, same, static, lip_of. cbn. by rewrite H1, H2. Qed.

Lemma touched_match i f f' k r : touched i f f' -> fact_match f' k r = fact_match f k r.
Proof. intros H. by apply fact_match_same, (touched_same i). Qed.

Lemma framed_ok i st st' : framed i st st' -> run_ok st -> run_ok st'.
Proof.
  intros [HF _ HL] []. constructor; [| by rewrite HL |].
  - clear -HF ro_same0. revert ro_same0. generalize fs. induction HF as [|f f' l l' H _ IH]; intros gs Hs; [done |].
    apply Forall2_cons_inv_l in Hs as (g & gs' & Hg & Hs & ->). constructor; [| auto]. apply touched_same in H. unfold same_filter, same in *. congruence.
  - apply Forall_lookup_2. intros j f' Ej. destruct (Forall2_lookup_r _ _ _ _ _ HF Ej) as (f & Ef & (_ & _ & -> & _)).
    by eapply Forall_lookup_1 in ro_indices0.
Qed.

Lemma framed_joined i k j st st' : framed i st st' -> k <> i -> joined j k st -> joined j k st'.
Proof.
  intros [HF HL _] Hk [-> | (idxs & Ei & HP & HJ)]; [by left |]. right. exists idxs. split_and!; [by rewrite HL | done |].
  intros j' f' Hj Ef'. destruct (Forall2_lookup_r _ _ _ _ _ HF Ef') as (f & Ef & Ht). pose proof Ht as (_ & _ & _ & H). rewrite H by done.
  rewrite (HJ j' f Hj Ef). f_equal. apply list_fmap_ext. intros. symmetry. by apply (touched_match i).
Qed.

Lemma set_indices_ok i idxs f : (i < length (indices_ f))%nat ->
  set_indices i idxs f = Some (mkLookupFilterJoin (bloom_filter f) (hash_table f) (<[i := idxs]> (indices_ f))).
Proof. intros H. unfold set_indices, set_at. by rewrite (proj2 (Nat.ltb_lt _ _)). Qed.

Lemma touched_insert i idxs f : touched i f (mkLookupFilterJoin (bloom_filter f) (hash_table f) (<[i := idxs]> (indices_ f))).
Proof. split_and!; cbn; [done | done | by rewrite length_insert |]. intros k Hk. by rewrite list_lookup_insert_ne. Qed.

Lemma resize_all_ok i n (idxs : list Z) : forall l, Forall (fun f => (i < length (indices_ f))%nat) l ->
  exists l', resize_all i n l (images ((fun f => fact_match f i) <$> l) idxs) = Some l' /\ Forall2 (touched i) l l' /\
    Forall2 (fun f f' => indices_ f' !! i = Some (fact_match f i <$> take (Z.to_nat n) idxs)) l l'.
Proof.
  induction l as [|f l IH]; intros HF; [by exists [] |]. apply Forall_cons in HF as [Hf HF]. destruct (IH HF) as (l' & El & H1 & H2).
  rewrite fmap_cons. cbn [images map resize_all]. fold (images ((fun f => fact_match f i) <$> l) idxs).
  rewrite set_indices_ok by done. cbn [mbind option_bind]. rewrite El. cbn [mbind option_bind]. eexists. split_and!; [reflexivity | |].
  - constructor; [apply touched_insert | done].
  - constructor; [| done]. cbn. rewrite list_lookup_insert_eq by done. f_equal. symmetry. apply fmap_take.
Qed.

Lemma put_filter i j f f' l l' : l !! j = Some f -> Forall2 (touched i) (take j l) l' -> touched i f f' ->
  Forall2 (touched i) l (l' ++ f' :: drop (S j) l).
Proof.
  intros Ej HF Hf. rewrite <- (take_drop_middle l j f Ej) at 1. apply Forall2_app; [done |]. constructor; [done |].
  apply Forall_Forall2_diag, Forall_forall. intros x _. by split_and!.
Qed.

(** One filter and chunk: the filter [f] and the keys [data] of the chunk. *)
Section Chunk.
Variables (i : nat) (st : JoinState) (f : LookupFilterJoin) (data : list Z).
Hypothesis Hlt : (i < length col)%nat.
Hypothesis Hl : length (join_lip_ st) = length col.
Hypothesis Hi : Forall (fun f => length (indices_ f) = length col) (join_filters_ st).
Hypothesis Hif : (i < length (indices_ f))%nat.
Hypothesis Hu : usable (lip_of f).
Hypothesis Hq : unique f.
Hypothesis Hd : length data = chunk_len col i.
Hypothesis Em : fact_match f i = row_match f data (Z.of_nat (start_row col i)).

Lemma join_first_ok probes idxs : join_filters_ st !! 0%nat = Some f ->
  LIP.next_indices 0 i (lip_of f) data (Z.of_nat (start_row col i)) (join_lip_ st) = Some (probes, idxs) ->
  Permutation idxs (expected cols col (lip_of <$> take 1 fs) i) ->
  exists st', join_first i f data (Z.of_nat (start_row col i)) st = Some st' /\ framed i st st' /\ joined 1 i st'.
Proof.
  intros Ej En HP. pose proof (chunk_bound col i Hlt) as Hcb. unfold rows in Hrows. unfold join_first. unfold LIP.next_indices in En. rewrite decide_True in En by done.
  destruct (LIP.scan_rows _ _ _ _) as [idxs'|] eqn:Es; [| done]. cbn [mbind option_bind] in En. injection En as _ <-.
  rewrite (join_rows_ok f _ (fact_match f i) Hu Hq data 0 idxs' Es).
  2: { intros n key Ek. pose proof (lookup_lt_Some _ _ _ Ek). rewrite wrapu_id by (unfold is_u; lia). rewrite Em. unfold row_match, key_at.
       f_equal. apply nth_lookup_Some. rewrite <- Ek. f_equal. lia. }
  cbn [mbind option_bind]. unfold set_at. rewrite (proj2 (Nat.ltb_lt _ _)) by lia. cbn [mbind option_bind].
  rewrite set_indices_ok by done. cbn [mbind option_bind]. eexists. split; [reflexivity |]. split.
  + constructor; cbn [join_filters_ join_lip_]; [| intros k Hk; by rewrite list_lookup_insert_ne | by rewrite length_insert].
    destruct (join_filters_ st) as [|f0 l]; [done |]. injection Ej as ->. apply (put_filter i 0 f _ (f :: l) []); [done | constructor | apply touched_insert].
  + right. exists idxs'. cbn [join_filters_ join_lip_]. split_and!; [by rewrite list_lookup_insert_eq by lia | done |].
    intros j' f' Hj' Ef'. assert (j' = 0%nat) as -> by lia. rewrite list_lookup_insert_eq in Ef' by (by eapply lookup_lt_Some).
    injection Ef' as <-. cbn. by rewrite list_lookup_insert_eq.
Qed.

Lemma join_later_ok j probes idxs : j <> 0%nat -> join_filters_ st !! j = Some f -> joined j i st ->
  LIP.next_indices j i (lip_of f) data (Z.of_nat (start_row col i)) (join_lip_ st) = Some (probes, idxs) ->
  Permutation idxs (expected cols col (lip_of <$> take (S j) fs) i) ->
  exists st', join_later j i f data (Z.of_nat (start_row col i)) st = Some st' /\ framed i st st' /\ joined (S j) i st'.
Proof.
  intros Hj0 Ej HJ En HP. pose proof (chunk_bound col i Hlt) as Hcb. unfold rows in Hrows. unfold join_later. unfold LIP.next_indices in En. rewrite decide_False in En by done.
  destruct HJ as [? | (idxs0 & El & HP0 & HJ)]; [done |]. rewrite El in *. cbn [mbind option_bind] in En.
  destruct (LIP.partition _ _ _ _ _ _ _) as [[idxs1 L]|] eqn:Epart; [| done]. cbn [mbind option_bind] in En. injection En as _ <-.
  set (l := take j (join_filters_ st)).
  rewrite (mapM_total _ (fun x => map (fact_match x i) idxs0) l).
  2: { apply Forall_lookup_2. intros j' x Ex. apply lookup_take_Some in Ex as [Ex Hj']. by apply (HJ j' x). }
  cbn [mbind option_bind]. replace ((fun x => map (fact_match x i) idxs0) <$> l) with (images ((fun x => fact_match x i) <$> l) idxs0)
    by (unfold images; apply map_map).
  pose proof (expected_in cols col (lip_of <$> take j fs) i) as Hin. rewrite <- HP0, <- Hd in Hin.
  pose proof (length_expected cols col (lip_of <$> take j fs) i) as Hle. rewrite <- HP0, <- Hd in Hle.
  pose proof (join_partition_ok f data (Z.of_nat (start_row col i)) ((fun x => fact_match x i) <$> l) Hu Hq _ _ _ _ _ _ Epart) as EP.
  change (take (Z.to_nat 0) idxs0) with (@nil Z) in EP. cbn [fmap list_fmap] in EP. rewrite EP by (done || lia). clear EP. cbn [mbind option_bind].
  destruct (resize_all_ok i (L + 1) idxs1 l) as (l' & Er & HT & HV).
  { apply Forall_lookup_2. intros j' x Ex. apply lookup_take_Some in Ex as [Ex _]. eapply Forall_lookup_1 in Hi; [| exact Ex]. cbv beta in Hi. by rewrite Hi. }
  rewrite Er. cbn [mbind option_bind]. rewrite set_indices_ok by done. cbn [mbind option_bind]. unfold set_at. rewrite (proj2 (Nat.ltb_lt _ _)) by lia.
  cbn [mbind option_bind]. eexists. split; [reflexivity |]. split.
  + constructor; cbn [join_filters_ join_lip_]; [| intros k Hk; by rewrite list_lookup_insert_ne | by rewrite length_insert].
    apply (put_filter i j f); [done | done | apply touched_insert].
  + right. eexists. cbn [join_filters_ join_lip_]. split_and!; [by rewrite list_lookup_insert_eq by lia | done |].
    assert (length l' = j) as Hl'.
    { rewrite <- (Forall2_length _ _ _ HT). unfold l. rewrite length_take. apply lookup_lt_Some in Ej. lia. }
    intros j' f' Hj' Ef'. destruct (decide (j' = j)) as [-> | Hne].
    * rewrite lookup_app_r in Ef' by lia. rewrite Hl', Nat.sub_diag in Ef'. injection Ef' as <-. cbn [indices_].
      rewrite list_lookup_insert_eq by done. f_equal. rewrite <- fmap_take, take_take, Nat.min_id, <- Em. done.
    * rewrite lookup_app_l in Ef' by lia. destruct (Forall2_lookup_r _ _ _ _ _ HV Ef') as (x & Ex & ->). f_equal.
      destruct (Forall2_lookup_lr _ _ _ _ _ _ HT Ex Ef') as (H1 & H2 & _). unfold fact_match, row_match, match_of. by rewrite H1, H2.
Qed.

End Chunk.

(** The task of one filter and chunk. *)
Lemma join_chunk_ok j i st f : given -> run_ok st -> join_filters_ st !! j = Some f -> (i < length col)%nat -> joined j i st ->
  exists st', join_chunk cols offsets j i st = Some st' /\ framed i st st' /\ joined (S j) i st'.
Proof.
  intros [Gu Gc Gq] [Hs Hl Hi] Ej Hlt HJ. destruct (Forall2_lookup_l _ _ _ _ _ Hs Ej) as (g & Eg & Hfg).
  assert (usable (lip_of f)) as Hu by (eapply usable_static; [symmetry; exact Hfg |]; by eapply Forall_lookup_1 in Gu).
  assert (unique f) as Hq.
  { pose proof (Forall_lookup_1 _ _ _ _ Gq Eg) as Hq. pose proof Hfg as [= _ _ _ _ _ E]. unfold unique. by rewrite E. }
  pose proof (Forall_lookup_1 _ _ _ _ Gc Eg) as (c & Ec & Hlc & Hc). destruct (Hc i Hlt) as (data & Ed & Hd).
  assert (cols (fk_name_ (bloom_filter f)) = Some c) as Ecf by (pose proof Hfg as [= _ _ _ _ E _]; by rewrite E).
  assert (fact_match f i = row_match f data (Z.of_nat (start_row col i))) as Em.
  { unfold fact_match. rewrite Ecf. cbn [mbind option_bind]. by rewrite Ed. }
  pose proof (chunk_bound col i Hlt) as Hcb. unfold rows in Hrows.
  assert (i < length (indices_ f))%nat as Hif by (eapply Forall_lookup_1 in Hi; [| exact Ej]; cbv beta in Hi; by rewrite Hi).
  destruct (next_indices_ok cols col Hrows (lip_of <$> fs) j (lip_of f) (lip_of g) i data (join_lip_ st)) as (probes & idxs & En & HP & _); try done.
  { by rewrite list_lookup_fmap, Eg. }
  { cbn [lip_of LIP.bloom_filter]. rewrite Ecf. exact Ed. }
  { destruct HJ as [-> | (idxs & E & HP & _)]; [by left |]. right. exists idxs. split; [done |]. by rewrite <- fmap_take. }
  rewrite <- fmap_take in HP. unfold join_chunk. rewrite Ej. cbn [mbind option_bind]. unfold get_fact_fk_name. rewrite Ecf. cbn [mbind option_bind].
  rewrite Hoff by done. cbn [mbind option_bind]. rewrite wrapu_id by (unfold is_u; lia). rewrite Ed. cbn [mbind option_bind].
  destruct (decide (j = 0%nat)) as [-> | Hj0].
  - by eapply (join_first_ok i st f data).
  - by eapply (join_later_ok i st f data).
Qed.

(** Chunks other than [cs] are left alone, and so are the Bloom filters. *)
Definition kept (cs : list nat) (st st' : JoinState) : Prop :=
  run_ok st' /\ (bloom_filter <$> join_filters_ st') = (bloom_filter <$> join_filters_ st) /\
  forall j i, i ∉ cs -> joined j i st -> joined j i st'.

Lemma framed_kept i st st' : framed i st st' -> run_ok st -> kept [i] st st'.
Proof.
  intros HF Hok. split_and!; [by eapply framed_ok | |].
  - destruct HF as [HF _ _]. induction HF as [|f f' l l' (H & _) _ IH]; [done |]. rewrite !fmap_cons. by rewrite H, IH.
  - intros j k Hk. apply (framed_joined i); [done |]. intros ->. apply Hk. left.
Qed.

Lemma kept_trans cs ds es st st1 st2 : (forall i, i ∉ es -> (i ∉ cs) /\ (i ∉ ds)) -> kept cs st st1 -> kept ds st1 st2 -> kept es st st2.
Proof.
  intros Hes (_ & B1 & J1) (R2 & B2 & J2). split_and!; [done | congruence |]. intros j i Hi HJ. apply Hes in Hi as [H1 H2]. auto.
Qed.

Lemma join_chunks_ok j : given -> (j < length fs)%nat -> forall cs st, run_ok st -> NoDup cs -> Forall (fun i => (i < length col)%nat) cs ->
  Forall (fun i => joined j i st) cs ->
  exists st', join_chunks cols offsets j cs st = Some st' /\ kept cs st st' /\ Forall (fun i => joined (S j) i st') cs.
Proof.
  intros HG Hj. induction cs as [|i cs IH]; intros st Hok Hnd HF HJ; cbn [join_chunks].
  { exists st. split_and!; [done | | constructor]. by split_and!. }
  apply NoDup_cons in Hnd as [Hni Hnd]. apply Forall_cons in HF as [Hi HF]. apply Forall_cons in HJ as [HJi HJ].
  destruct (lookup_lt_is_Some_2 (join_filters_ st) j) as [f Ef]; [destruct Hok as [Hs _ _]; by rewrite (Forall2_length _ _ _ Hs) |].
  destruct (join_chunk_ok j i st f HG Hok Ef Hi HJi) as (st1 & -> & Hfr & HJ1). cbn [mbind option_bind].
  pose proof (framed_kept i st st1 Hfr Hok) as K1. pose proof K1 as (Hok1 & _ & KJ1).
  destruct (IH st1 Hok1 Hnd HF) as (st2 & -> & K2 & HJ2).
  { apply Forall_forall. intros k Hk. eapply Forall_forall in HJ; [| exact Hk]. apply KJ1; [| done]. rewrite list_elem_of_singleton. by intros ->. }
  exists st2. split_and!; [done | |].
  - eapply kept_trans; [| exact K1 | exact K2]. intros k [Hk1 Hk2]%not_elem_of_cons. split; [| done]. by rewrite list_elem_of_singleton.
  - constructor; [| done]. destruct K2 as (_ & _ & KJ2). by apply KJ2.
Qed.

Lemma join_filters_ok cs : given -> NoDup cs -> Forall (fun i => (i < length col)%nat) cs -> forall n j st, run_ok st -> (j + n = length fs)%nat ->
  Forall (fun i => joined j i st) cs ->
  exists st', join_filters cols offsets schedule n j cs st = Some st' /\ kept cs st st' /\ Forall (fun i => joined (length fs) i st') cs.
Proof.
  intros HG Hnd HF. induction n as [|n IH]; intros j st Hok Hj HJ; cbn [join_filters].
  { exists st. assert (j = length fs) as -> by lia. split_and!; [done | by split_and! | done]. }
  destruct (join_chunks_ok j HG ltac:(lia) (schedule cs) st Hok) as (st1 & -> & K1 & HJ1); try (by rewrite Hsch). cbn [mbind option_bind].
  rewrite Hsch in HJ1. destruct (IH (S j) st1) as (st2 & -> & K2 & HJ2); [apply K1 | lia | done |].
  exists st2. split_and!; [done | | done]. eapply kept_trans; [| exact K1 | exact K2]. intros i Hi. by rewrite Hsch.
Qed.

(** *** The statistics stay those of a filter that was never probed *)

Definition idle (k : Z) (b : BloomFilter) : Prop :=
  hit_count_ b = 0 /\ probe_count_ b = 0 /\ window_ok 1 [(0, 0)] b /\ hist_ok k (hist_ b).

Lemma idle_rate k b : idle k b -> get_hit_rate b = double_of_Z 1.
Proof. intros (_ & _ & (w & _ & _ & _ & _ & _ & _ & _ & _ & Hp) & _). unfold get_hit_rate. by rewrite Hp. Qed.

Lemma idle_update k b : idle k b -> k + 1 < 2 ^ 31 ->
  exists b', update b = Some b' /\ filter_static b' = filter_static b /\ fk_name_ b' = fk_name_ b /\ idle (k + 1) b'.
Proof.
  intros (H1 & H2 & Hw & Hh) Hk. destruct (update_window_ok 1 (0, 0) [] b Hw) as (b1 & E1 & Hw1).
  { rewrite H1, H2. split_and!; [repeat constructor; cbn; lia | |]; cbn; lia. }
  cbn [app] in Hw1. rewrite H1, H2 in Hw1. destruct (update_window_inv b b1 E1) as (hs & ps & w & Eb1).
  assert (idle k b1) as Hi1 by (rewrite Eb1 in *; split_and!; done). pose proof (idle_rate k b1 Hi1) as Er.
  destruct (hist_insert_ok k (hist_ b1) (get_hit_rate b1) 99) as (h & Eh & Hh'); [apply Hi1 | done | rewrite Er; vm_compute; reflexivity | lia |].
  unfold update. rewrite E1. cbn [mbind option_bind]. rewrite Eh. cbn [mbind option_bind]. eexists. split_and!; [reflexivity | by rewrite Eb1 | by rewrite Eb1 |].
  destruct Hi1 as (C1 & C2 & (w' & Hw') & _). split_and!; [done | done | | done]. by exists w'.
Qed.

Lemma update_filters_ok k l : k + 1 < 2 ^ 31 -> Forall (fun f => idle k (bloom_filter f)) l ->
  exists l', update_filters l = Some l' /\ Forall2 (fun f f' => same_filter f' f /\ indices_ f' = indices_ f) l l' /\
    Forall (fun f => idle (k + 1) (bloom_filter f)) l'.
Proof.
  intros Hk. induction 1 as [|f l Hf _ IH]; cbn [update_filters]; [by exists [] |]. destruct (idle_update k _ Hf Hk) as (b & -> & [= S1 S2 S3 S4] & S5 & Hb).
  cbn [mbind option_bind]. destruct IH as (l' & -> & HF & HI). cbn [mbind option_bind]. eexists. split_and!; [reflexivity | |]; constructor; try done.
  split; [| done]. unfold same_filter, same, static, lip_of. cbn. by rewrite S1, S2, S3, S4, S5.
Qed.

End Run.

(** *** Batches: the filters may change places between them *)

Section Batches.
Context (cols : string -> option Chunks) (col : Chunks) (offsets : list Z).
Context (sort : (LookupFilterJoin -> LookupFilterJoin -> bool) -> list LookupFilterJoin -> list LookupFilterJoin).
Context (schedule : list nat -> list nat).
Context (Hsort : forall cmp l, Permutation (sort cmp l) l) (Hsch : forall l, Permutation (schedule l) l).
Context (Hrows : rows col < 2 ^ 30) (Hoff : forall i, (i < length col)%nat -> offsets !! i = Some (Z.of_nat (start_row col i))).

(** [sort] leaves a list in place when no element is smaller than another. *)
Definition keeps_equals : Prop := forall cmp l, (forall x y, x ∈ l -> y ∈ l -> cmp x y = false) -> sort cmp l = l.

Lemma Forall2_Permutation {A B} (R : A -> B -> Prop) l l' : Permutation l l' -> forall k, Forall2 R l k ->
  exists k', Permutation k' k /\ Forall2 R l' k'.
Proof.
  induction 1 as [| x l l' _ IH | x y l | l l1 l2 _ IH1 _ IH2]; intros k HF.
  - by exists k.
  - apply Forall2_cons_inv_l in HF as (z & k0 & Hz & HF & ->). destruct (IH k0 HF) as (k' & HP & HF'). exists (z :: k'). split; [by constructor | by constructor].
  - apply Forall2_cons_inv_l in HF as (z & k0 & Hz & HF & ->). apply Forall2_cons_inv_l in HF as (w & k1 & Hw & HF & ->).
    exists (w :: z :: k1). split; [constructor | by repeat constructor].
  - destruct (IH1 k HF) as (k1 & HP1 & HF1). destruct (IH2 k1 HF1) as (k2 & HP2 & HF2). exists k2. split; [by etrans | done].
Qed.

Lemma same_filters_trans l m fs2 fs : Forall2 same_filter l fs2 -> Forall2 same_filter m fs2 -> Forall2 same_filter m fs -> Forall2 same_filter l fs.
Proof.
  intros H1. revert m fs. induction H1 as [|x y l fs2 Hxy _ IH]; intros m fs H2 H3.
  - apply Forall2_nil_inv_r in H2 as ->. by apply Forall2_nil_inv_l in H3 as ->.
  - apply Forall2_cons_inv_r in H2 as (z & m' & Hz & H2 & ->). apply Forall2_cons_inv_l in H3 as (w & fs' & Hw & H3 & ->).
    constructor; [unfold same_filter, same in *; congruence | by apply (IH m')].
Qed.

Lemma given_perm fs fs' : Permutation fs' fs -> given cols col fs -> given cols col fs'.
Proof. intros HP [U C Q]. constructor; by rewrite HP. Qed.

(** Every chunk is joined by all filters. *)
Definition all_joined (fs : list LookupFilterJoin) (i : nat) (st : JoinState) : Prop := joined cols col fs (length fs) i st.

Lemma update_sort_ok fs k st : k + 1 < 2 ^ 31 -> run_ok col fs st -> Forall (fun f => idle k (bloom_filter f)) (join_filters_ st) ->
  exists st' fs', update_sort sort st = Some st' /\ Permutation fs' fs /\ (keeps_equals -> Forall2 same_filter (join_filters_ st') fs) /\
    run_ok col fs' st' /\
    Forall (fun f => idle (k + 1) (bloom_filter f)) (join_filters_ st') /\
    forall i, all_joined fs i st -> all_joined fs' i st'.
Proof.
  intros Hk [Hs Hl Hi] HI. unfold update_sort. destruct (update_filters_ok k _ Hk HI) as (l & -> & HF & HI'). cbn [mbind option_bind].
  assert (Forall2 same_filter l fs) as Hlf.
  { clear -HF Hs. revert Hs. generalize fs. induction HF as [|f f' m m' [H _] _ IH]; intros gs Hs; [done |].
    apply Forall2_cons_inv_l in Hs as (g & gs' & Hg & Hs & ->). constructor; [unfold same_filter, same in *; congruence | auto]. }
  destruct (Forall2_Permutation same_filter _ _ (Permutation_sym (Hsort SortByBloomFilterJoin l)) fs Hlf) as (fs' & HP & HF').
  eexists _, fs'. split; [reflexivity |]. split_and!; [done | | | cbn [join_filters_]; by rewrite Hsort |].
  - intros HK. cbn [join_filters_]. rewrite HK; [done |]. intros x y Hx Hy. rewrite Forall_forall in HI'. unfold SortByBloomFilterJoin, BF.compare.
    rewrite (idle_rate _ _ (HI' x Hx)), (idle_rate _ _ (HI' y Hy)). reflexivity.
  - constructor; cbn [join_filters_ join_lip_]; [done | done |]. rewrite Hsort.
    apply Forall_lookup_2. intros j f' Ej. destruct (Forall2_lookup_r _ _ _ _ _ HF Ej) as (f & Ef & (_ & ->)). by eapply Forall_lookup_1 in Hi.
  - intros i [E | (idxs & E & HPi & HJ)]; [left; by rewrite (Permutation_length HP) |]. right. exists idxs. split_and!; [done | |].
    + rewrite firstn_all in *. by rewrite (expected_perm cols col (lip_of <$> fs') (lip_of <$> fs)) by (by rewrite HP).
    + intros j' f' Hj' Ef'. cbn in Ef'. apply list_elem_of_lookup_2 in Ef'. rewrite Hsort in Ef'. apply list_elem_of_lookup in Ef' as [m Ef'].
      destruct (Forall2_lookup_r _ _ _ _ _ HF Ef') as (f & Ef & (H1 & ->)). rewrite (HJ m f); [| | done].
      * f_equal. apply list_fmap_ext. intros n x _. symmetry. by apply fact_match_same.
      * rewrite <- (Forall2_length _ _ _ Hs). by eapply lookup_lt_Some.
Qed.

Lemma join_batches_ok bs : 0 < bs -> forall n k fs st, given cols col fs -> 0 <= k -> k + Z.of_nat n < 2 ^ 31 -> run_ok col fs st ->
  Forall (fun f => idle k (bloom_filter f)) (join_filters_ st) ->
  (forall i, (i < length col)%nat -> Z.of_nat i < k * bs -> all_joined fs i st) ->
  exists st' fs', join_batches cols offsets sort schedule n k (length fs) (Z.of_nat (length col)) bs st = Some st' /\
    Permutation fs' fs /\ (keeps_equals -> Forall2 same_filter (join_filters_ st') fs) /\ run_ok col fs' st' /\
    (forall i, (i < length col)%nat -> Z.of_nat i < (k + Z.of_nat n) * bs -> all_joined fs' i st').
Proof.
  intros Hb. induction n as [|n IH]; intros k fs st HG Hk Hkn Hok HI HD; cbn [join_batches].
  { exists st, fs. split_and!; [done | done | intros _; apply Hok | done |]. intros i Hi Hlt. apply HD; [done | lia]. }
  destruct (batch_chunks_spec col bs k Hb Hk) as (a & m & -> & Ha & Hin & Hlt & _).
  destruct (join_filters_ok cols col offsets fs schedule Hsch Hrows Hoff (seq a m) HG (NoDup_seq a m) Hlt (length fs) 0 st Hok) as (st1 & -> & (Hok1 & B1 & J1) & HJ1); [done | |].
  { apply Forall_forall. intros; by left. }
  cbn [mbind option_bind].
  assert (Forall (fun f => idle k (bloom_filter f)) (join_filters_ st1)) as HI1.
  { rewrite <- (Forall_fmap bloom_filter (idle k)), B1, Forall_fmap. done. }
  destruct (update_sort_ok fs k st1 ltac:(lia) Hok1 HI1) as (st2 & fs2 & -> & HP2 & HK2 & Hok2 & HI2 & J2). cbn [mbind option_bind].
  rewrite <- (Permutation_length HP2).
  destruct (IH (k + 1) fs2 st2) as (st3 & fs3 & -> & HP3 & HK3 & Hok3 & D3); [by eapply given_perm | lia | lia | done | done | |].
  - intros i Hi Hlt'. apply J2. destruct (decide (i ∈ seq a m)) as [Hi' | Hni]; [by eapply Forall_forall in HJ1 |].
    apply J1; [done |]. apply HD; [done |]. destruct (Z.lt_ge_cases (Z.of_nat i) (k * bs)); [done |]. exfalso. apply Hni, Hin; [done | lia].
  - exists st3, fs3. split_and!; [done | by etrans | | done |].
    + intros HK. eapply same_filters_trans; [exact (HK3 HK) | apply Hok2 | exact (HK2 HK)].
    + intros i Hi Hlt'. apply D3; [done | lia].
Qed.

Lemma ProbeFilters_ok fs num_parallel st : given cols col fs -> 0 < num_parallel -> Z.of_nat (length col) < 2 ^ 16 -> run_ok col fs st ->
  Forall (fun f => idle 0 (bloom_filter f)) (join_filters_ st) ->
  exists st' fs', ProbeFilters cols offsets sort schedule num_parallel (Z.of_nat (length col)) (length fs) st = Some st' /\
    Permutation fs' fs /\ (keeps_equals -> Forall2 same_filter (join_filters_ st') fs) /\ run_ok col fs' st' /\
    forall i, (i < length col)%nat -> all_joined fs' i st'.
Proof.
  intros HG Hp H16 Hok HI. set (n := Z.of_nat (length col)) in *.
  assert (0 <= n / num_parallel) as Hdp by (apply Z.div_pos; lia).
  assert (n / num_parallel <= n) as Hdl by (apply Z.div_le_upper_bound; nia).
  destruct (join_batches_ok num_parallel Hp (Z.to_nat (n / num_parallel + 1)) 0 fs st) as (st' & fs' & E & HP & HK & Hok' & HD); try done; [lia | intros; lia |].
  exists st', fs'. split_and!; [| done | done | done |].
  - unfold ProbeFilters. rewrite !(proj2 (Z.eqb_neq num_parallel 0)) by lia. rewrite Z.quot_div_nonneg by lia.
    rewrite (proj2 (Z.eqb_neq (n / num_parallel + 1) 0)) by lia. exact E.
  - intros i Hi. apply HD; [done |]. pose proof (Z.div_mod n num_parallel ltac:(lia)). pose proof (Z.mod_pos_bound n num_parallel Hp).
    unfold n in *. rewrite Z2Nat.id by lia. nia.
Qed.

End Batches.

End FJRun.

Import FJRun.

(** ** The operator *)

Module FJResult.

(** A dimension: its keys are unique and the selection has built its hash
    table, whose entries are in the order of [R]. *)
Record join_dim_ok (get_column : Z -> string -> option Chunks) (fact : LazyTable) (col : Chunks) (p : JoinPredicate) (dim : LazyTable)
    (fk pk : Chunks) : Prop := {
  jd_dim : dim_ok get_column fact col p dim fk pk;
  jd_keys : NoDup (dim_values pk dim);
  jd_hash : exists h R, hash_table_ dim = Some h /\ holds h R /\ Permutation R (concat (active pk (filter dim)))
}.

Lemma partners_unique (R : list (Z * Z)) key : NoDup (snd <$> R) -> key ∈ snd <$> R -> exists r, partners key R = [r] /\ (r, key) ∈ R.
Proof.
  unfold partners. induction R as [|[r k] R IH]; [by intros _ ?%not_elem_of_nil |]. rewrite fmap_cons. cbn [snd]. intros [Hn HN]%NoDup_cons.
  rewrite filter_cons. cbn [snd]. intros [-> | Hin]%elem_of_cons.
  - rewrite decide_True by done. exists r. split; [| left]. rewrite fmap_cons. cbn. f_equal.
    assert (base.filter (fun rk : Z * Z => rk.2 = k) R = []) as ->; [| done]. apply elem_of_nil_inv. intros [r' k'] [E Hx]%list_elem_of_filter. cbn in E. subst k'.
    apply Hn. apply list_elem_of_fmap. by exists (r', k).
  - rewrite decide_False by (intros ->; done). destruct (IH HN Hin) as (r' & -> & Hr). exists r'. split; [done | by right].
Qed.

(** The hash table of a dimension finds the row of a key. *)
Lemma dim_hash_ok get_column fact col p dim fk pk h : join_dim_ok get_column fact col p dim fk pk -> hash_table_ dim = Some h ->
  forall key ids, h !! key = Some ids -> exists id, ids = [id] /\ (index id, key) ∈ concat (active pk (filter dim)).
Proof.
  intros [HD HN (h' & R & Eh & HH & HP)] Eh'. rewrite Eh in Eh'. injection Eh' as ->. intros key ids E.
  pose proof (proj1 (d_hash _ _ _ _ _ _ _ HD h Eh key) ltac:(eauto)) as Hk. unfold dim_values in *. rewrite <- HP in Hk, HN.
  destruct (partners_unique R key HN Hk) as (r & Er & Hr). specialize (HH key). rewrite E in HH. cbn in HH. rewrite Er in HH.
  destruct ids as [|id [|? ?]]; try done. injection HH as <-. exists id. by rewrite <- HP.
Qed.

Lemma build_join_filter_ok get_column rands fact col p dim fk pk : indices fact = None -> materialized_cols_ fact = ∅ -> (3 <= length rands)%nat ->
  join_dim_ok get_column fact col p dim fk pk ->
  exists f, build_join_filter rands pk (col_name (left_col_ p)) dim = Some f /\ indices_ f = [] /\ hash_table_ dim = Some (hash_table f) /\
    usable (lip_of f) /\ has_column (LIP.fact_fk_col get_column fact) col (lip_of f) /\ unique f /\ idle 0 (bloom_filter f) /\
    LIP.fact_fk_col get_column fact (fk_name_ (bloom_filter f)) = Some fk /\
    (forall key, verdict (lip_of f) key = accepted (dim_values pk dim) (hash_table_ dim) key).
Proof.
  intros Hi Hm Hr HJ. pose proof HJ as [HD _ (h & R & Eh & _ & _)].
  destruct (build_filter_ok col rands pk (col_name (left_col_ p)) dim) as (f & Ef & Hu & En & Hv & [_ Hs] & [Hc1 Hc2] & Hw); [apply HD | apply HD | done |].
  destruct (has_column_ok get_column fact col p dim fk pk f Hi Hm HD En) as [Hcol Efk].
  unfold LIP.build_filter in Ef. unfold build_join_filter. rewrite Eh in *.
  destruct (match filter dim with None => _ | Some _ => _ end); [| done]. cbn [mbind option_bind] in *.
  destruct (newBloomFilter _ _); [| done]. cbn [mbind option_bind] in *. destruct (LIP.insert_chunks _ _ _ _); [| done]. cbn [mbind option_bind] in *.
  destruct (set_memory _ _) as [?|]; [| done]. cbn [mbind option_bind] in *. injection Ef as <-. eexists. split; [reflexivity |]. cbn in *.
  split_and!; try done.
  - intros key ids E. destruct (dim_hash_ok _ _ _ _ _ _ _ _ HJ Eh key ids E) as (id & -> & _). by exists id.
  - unfold idle. cbn. split_and!; [lia | lia | exact Hw | done].
Qed.

Lemma join_filters_exist get_column rands fact col : indices fact = None -> materialized_cols_ fact = ∅ -> (forall i, (3 <= length (rands i))%nat) ->
  forall preds dims fks pks i, length preds = length dims -> length preds = length fks -> length preds = length pks ->
  (forall k p dim fk pk, preds !! k = Some p -> dims !! k = Some dim -> fks !! k = Some fk -> pks !! k = Some pk ->
     join_dim_ok get_column fact col p dim fk pk) ->
  exists fs, length fs = length dims /\
    (forall k p dim pk f, preds !! k = Some p -> dims !! k = Some dim -> pks !! k = Some pk -> fs !! k = Some f ->
       build_join_filter (rands (i + k)%nat) pk (col_name (left_col_ p)) dim = Some f) /\
    Forall (fun f => indices_ f = []) fs /\
    given (LIP.fact_fk_col get_column fact) col fs /\ Forall (fun f => idle 0 (bloom_filter f)) fs /\
    forall k f fk pk dim, fs !! k = Some f -> fks !! k = Some fk -> pks !! k = Some pk -> dims !! k = Some dim ->
      hash_table_ dim = Some (hash_table f) /\ LIP.fact_fk_col get_column fact (fk_name_ (bloom_filter f)) = Some fk /\
      forall key, verdict (lip_of f) key = accepted (dim_values pk dim) (hash_table_ dim) key.
Proof.
  intros Hi Hm Hr. induction preds as [|p preds IH]; intros dims fks pks i L1 L2 L3 HD.
  { destruct dims; [| done]. exists []. split_and!; try done; constructor; constructor. }
  destruct dims as [|dim dims]; [done |]. destruct fks as [|fk fks]; [done |]. destruct pks as [|pk pks]; [done |].
  injection L1 as L1. injection L2 as L2. injection L3 as L3. pose proof (HD 0%nat p dim fk pk eq_refl eq_refl eq_refl eq_refl) as HD0.
  destruct (build_join_filter_ok get_column (rands i) fact col p dim fk pk Hi Hm (Hr i) HD0) as (f & Ef & Hx & Eh & Hu & Hc & Hq & Hid & Efk & Hv).
  destruct (IH dims fks pks (S i) L1 L2 L3) as (fs & Hl & Efs & X & [U C Q] & I & HV).
  { intros k p' dim' fk' pk' E1 E2 E3 E4. by apply (HD (S k)). }
  exists (f :: fs). split_and!; [cbn; by rewrite Hl | | by constructor | by constructor; constructor | by constructor |].
  - intros [|k] p' dim' pk' f' E1 E2 E3 E4; [| rewrite Nat.add_succ_r; by apply (Efs k)].
    injection E1 as <-. injection E2 as <-. injection E3 as <-. injection E4 as <-. by rewrite Nat.add_0_r.
  - intros [|k] f' fk' pk' dim' E1 E2 E3 E4; [| by apply (HV k)]. injection E1 as <-. injection E2 as <-. injection E3 as <-. injection E4 as <-. done.
Qed.

Lemma BuildFilters_ok get_column rands fact col tasks preds dims fks pks : indices fact = None -> materialized_cols_ fact = ∅ ->
  (forall i, (3 <= length (rands i))%nat) -> length preds = length dims -> length preds = length fks -> length preds = length pks ->
  (forall k p dim fk pk, preds !! k = Some p -> dims !! k = Some dim -> fks !! k = Some fk -> pks !! k = Some pk ->
     join_dim_ok get_column fact col p dim fk pk) ->
  NoDup (key_names preds) -> task_order (length dims) tasks ->
  exists fs, BuildFilters get_column rands tasks preds dims = Some fs /\ length fs = length dims /\ Forall (fun f => indices_ f = []) fs /\
    given (LIP.fact_fk_col get_column fact) col fs /\ Forall (fun f => idle 0 (bloom_filter f)) fs /\
    forall k f fk pk dim, fs !! k = Some f -> fks !! k = Some fk -> pks !! k = Some pk -> dims !! k = Some dim ->
      hash_table_ dim = Some (hash_table f) /\ LIP.fact_fk_col get_column fact (fk_name_ (bloom_filter f)) = Some fk /\
      forall key, verdict (lip_of f) key = accepted (dim_values pk dim) (hash_table_ dim) key.
Proof.
  intros Hi Hm Hr L1 L2 L3 HD HN HT.
  destruct (join_filters_exist get_column rands fact col Hi Hm Hr preds dims fks pks 0 L1 L2 L3 HD) as (fs & Hl & Ef & Hrest).
  exists fs. split; [| done]. unfold BuildFilters.
  assert (length (key_names preds) = length dims) as Ln by (unfold key_names; by rewrite length_fmap). rewrite <- Ln in HT |- *.
  apply (build_all_ok (key_names preds) _ _ pks fs HN); [lia | lia | | | done].
  - apply (key_columns get_column fact col preds dims fks); try done. intros k p dim fk pk E1 E2 E3 E4. exact (jd_dim _ _ _ _ _ _ _ (HD k p dim fk pk E1 E2 E3 E4)).
  - intros i c f Ec Ei. pose proof (lookup_lt_Some _ _ _ Ec) as Hlt. destruct (lookup_lt_is_Some_2 dims i) as [dim Ed]; [lia |].
    destruct (lookup_lt_is_Some_2 preds i) as [p Ep]; [lia |]. rewrite Ed. cbn [mbind option_bind]. rewrite Ep. cbn [mbind option_bind]. by apply (Ef i).
Qed.

Lemma accepted_iff vals h key : (forall k, is_Some (h !! k) <-> k ∈ vals) -> accepted vals (Some h) key = true <-> key ∈ vals.
Proof.
  intros Hh. split; [| intros Hk; apply accepted_in; [done | by intros ? [= <-]]].
  unfold accepted. intros [_ H]%andb_true_iff. apply bool_decide_eq_true in H. by apply Hh.
Qed.

Lemma Forall2_concat {A B} (P : A -> B -> Prop) (l : list (list A)) (k : list (list B)) : length l = length k ->
  (forall i x y, l !! i = Some x -> k !! i = Some y -> Forall2 P x y) -> Forall2 P (concat l) (concat k).
Proof.
  revert k. induction l as [|x l IH]; intros [|y k] Hl H; try done. cbn [concat]. apply Forall2_app; [by apply (H 0%nat) |].
  apply IH; [by injection Hl |]. intros i. apply (H (S i)).
Qed.

Lemma join_dims_ok dims : forall fs, length fs = length dims ->
  exists l, join_dims dims fs = Some l /\ length l = length dims /\
    forall k dim f, dims !! k = Some dim -> fs !! k = Some f ->
      l !! k = Some (newLazyTable (table dim) None (Some (concat (indices_ f))) None (hash_table_ dim)).
Proof.
  induction dims as [|d dims IH]; intros [|f fs] Hl; try done; cbn [join_dims]; [by exists [] |]. cbn [head tail mbind option_bind].
  destruct (IH fs ltac:(by injection Hl)) as (l & -> & Hll & H). cbn [mbind option_bind]. eexists. split_and!; [reflexivity | cbn; by rewrite Hll |].
  intros [|k] dim g; [by intros [= <-] [= <-] | apply H].
Qed.

(** The rows of a dimension next to the rows of the fact table. *)
Lemma dim_rows_ok get_column fact (col : Chunks) fs st k f g p dim fk pk :
  let cols := LIP.fact_fk_col get_column fact in
  run_ok col fs st -> (forall i, (i < length col)%nat -> joined cols col fs (length fs) i st) -> fs <> [] ->
  f ∈ fs -> same_filter g f -> join_filters_ st !! k = Some g -> join_dim_ok get_column fact col p dim fk pk -> cols (fk_name_ (bloom_filter f)) = Some fk ->
  hash_table_ dim = Some (hash_table f) -> (forall key, verdict (lip_of f) key = accepted (dim_values pk dim) (hash_table_ dim) key) ->
  Forall2 (fun r d => (d, value_at fk r) ∈ concat (active pk (filter dim))) (concat (join_lip_ st)) (concat (indices_ g)).
Proof.
  intros cols [Hs Hl Hx] HJ Hne Ef Hgf Eg HD Ec Eh Hv. pose proof (jd_dim _ _ _ _ _ _ _ HD) as HD0.
  pose proof (Forall_lookup_1 _ _ _ _ Hx Eg) as Hlg. cbv beta in Hlg.
  apply Forall2_concat; [by rewrite Hl |]. intros i idxs dix E1 E2.
  assert (i < length col)%nat as Hi by (rewrite <- Hl; by eapply lookup_lt_Some).
  destruct (HJ i Hi) as [E0 | (idxs' & E1' & HP & HM)]; [by apply length_zero_iff_nil in E0 |]. rewrite E1 in E1'. injection E1' as <-.
  rewrite (HM k g) in E2; [| rewrite <- (Forall2_length _ _ _ Hs); by eapply lookup_lt_Some | done]. injection E2 as <-. rewrite firstn_all in HP.
  apply Forall2_fmap_r, Forall_Forall2_diag, Forall_forall. intros r Hr. rewrite HP in Hr. apply in_expected in Hr as (n & -> & Hn & Ha).
  specialize (Ha (lip_of f)). rewrite (accepts_value cols col (lip_of f) fk pk dim) in Ha by (done || apply HD0).
  specialize (Ha ltac:(by apply list_elem_of_fmap_2)). rewrite Eh in Ha.
  apply (accepted_iff _ _ _ (d_hash _ _ _ _ _ _ _ HD0 _ Eh)) in Ha. apply (d_hash _ _ _ _ _ _ _ HD0 _ Eh) in Ha as [ids Eids].
  destruct (dim_hash_ok _ _ _ _ _ _ _ _ HD Eh _ ids Eids) as (id & -> & Hin). unfold compose. rewrite (fact_match_same cols col g f) by done.
  destruct (lookup_lt_is_Some_2 col i Hi) as [y Ey]. destruct (same_shape_lookup fk col i y (d_shape _ _ _ _ _ _ _ HD0) Ey) as (x & Ex & Hxy).
  unfold fact_match. rewrite Ec. cbn [mbind option_bind]. rewrite Ex. unfold row_match, match_of, key_at.
  replace (Z.to_nat (Z.of_nat (start_row col i) + Z.of_nat n - Z.of_nat (start_row col i))) with n by lia.
  assert (n < length x)%nat as Hnx by (unfold chunk_len in Hn; rewrite Ey in Hn; cbn in Hn; lia).
  rewrite (nth_lookup_Some _ _ _ _ (value_at_chunk fk i x n Ex Hnx)). rewrite (start_row_shape fk col i (d_shape _ _ _ _ _ _ _ HD0)), Nat2Z.inj_add, Eids. exact Hin.
Qed.

(** The rows that all filters accept are those whose keys are all found. *)
Lemma kept_rows get_column fact (col : Chunks) preds dims fks pks fs r : let cols := LIP.fact_fk_col get_column fact in
  length preds = length dims -> length preds = length fks -> length preds = length pks -> length fs = length dims ->
  (forall k p dim fk pk, preds !! k = Some p -> dims !! k = Some dim -> fks !! k = Some fk -> pks !! k = Some pk ->
     join_dim_ok get_column fact col p dim fk pk) ->
  (forall k f fk pk dim, fs !! k = Some f -> fks !! k = Some fk -> pks !! k = Some pk -> dims !! k = Some dim ->
      hash_table_ dim = Some (hash_table f) /\ cols (fk_name_ (bloom_filter f)) = Some fk /\
      forall key, verdict (lip_of f) key = accepted (dim_values pk dim) (hash_table_ dim) key) ->
  (exists i, (i < length col)%nat /\ r ∈ expected cols col (lip_of <$> fs) i) <->
  (0 <= r < rows col /\ forall k fk pk dim, fks !! k = Some fk -> pks !! k = Some pk -> dims !! k = Some dim -> value_at fk r ∈ dim_values pk dim).
Proof.
  intros cols L1 L2 L3 Hlf HD HV.
  assert (forall k f fk pk dim i m, fs !! k = Some f -> fks !! k = Some fk -> pks !! k = Some pk -> dims !! k = Some dim ->
    (i < length col)%nat -> (m < chunk_len col i)%nat ->
    accepts cols (lip_of f) i m = true <-> value_at fk (Z.of_nat (start_row col i) + Z.of_nat m) ∈ dim_values pk dim) as Hacc.
  { intros k f fk pk dim i m E1 E2 E3 E4 Hi Hm. destruct (HV k f fk pk dim E1 E2 E3 E4) as (Eh & Efk & Hv).
    destruct (lookup_lt_is_Some_2 preds k) as [p Ep]; [rewrite L1; by eapply lookup_lt_Some |].
    pose proof (jd_dim _ _ _ _ _ _ _ (HD k p dim fk pk Ep E4 E2 E3)) as HD0.
    rewrite (accepts_value cols col (lip_of f) fk pk dim) by (done || apply HD0). rewrite Eh.
    apply accepted_iff. by apply (d_hash _ _ _ _ _ _ _ HD0). }
  split.
  - intros (i & Hi & Hr). apply in_expected in Hr as (m & -> & Hm & Ha). pose proof (chunk_bound col i Hi). split; [unfold rows; lia |].
    intros k fk pk dim E1 E2 E3. destruct (lookup_lt_is_Some_2 fs k) as [f Ef]; [rewrite Hlf; by eapply lookup_lt_Some |].
    apply (Hacc k f fk pk dim i m); try done. apply Ha. apply list_elem_of_fmap_2. by eapply list_elem_of_lookup_2.
  - intros [Hr Hall]. destruct (row_chunk col r Hr) as (i & m & Hi & Hm & ->). exists i. split; [done |]. apply in_expected. exists m. split_and!; [done | done |].
    intros f' Hf'. apply list_elem_of_fmap in Hf' as (f & -> & Hf). apply list_elem_of_lookup in Hf as [k Ef]. pose proof (lookup_lt_Some _ _ _ Ef) as Hk.
    destruct (lookup_lt_is_Some_2 fks k) as [fk Efk]; [lia |]. destruct (lookup_lt_is_Some_2 pks k) as [pk Epk]; [lia |].
    destruct (lookup_lt_is_Some_2 dims k) as [dim Ed]; [lia |]. apply (Hacc k f fk pk dim i m); try done. by apply (Hall k).
Qed.

(** The rows that are left, chunk by chunk. *)
Lemma join_result_ok cols (col : Chunks) fs fs' st (dims : list LazyTable) : Permutation fs' fs -> fs' <> [] -> length fs = length dims -> Z.of_nat (length col) < 2 ^ 16 ->
  run_ok col fs' st -> (forall i, (i < length col)%nat -> all_joined cols col fs' i st) ->
  (forall i, (i < length col)%nat -> done_chunk cols col (lip_of <$> fs) (join_lip_ st) i) /\ length (join_filters_ st) = length dims /\
  NoDup (concat (join_lip_ st)) /\ Forall2 (in_chunk col) (concat (join_lip_ st)) (LIP.index_chunks_of 0 (join_lip_ st)).
Proof.
  intros HP Hne Hlf H16 [Hs Hl _] HJ.
  assert (forall i, (i < length col)%nat -> done_chunk cols col (lip_of <$> fs) (join_lip_ st) i) as HDone.
  { intros i Hlt. destruct (HJ i Hlt) as [E0 | (idxs & Ei & HPi & _)]; [by apply length_zero_iff_nil in E0 |]. exists idxs. split; [done |].
    rewrite firstn_all in HPi. by rewrite (expected_perm cols col (lip_of <$> fs) (lip_of <$> fs')) by (by rewrite HP). }
  destruct (indices_ok col (join_lip_ st) 0 H16) as (N & F & _); [lia | |].
  { intros i idxs Ei. destruct (HDone i) as (idxs' & Ei' & HPi); [rewrite <- Hl; by eapply lookup_lt_Some |].
    rewrite Ei in Ei'. injection Ei' as <-. cbn [Nat.add]. rewrite HPi. split; [apply expected_NoDup | apply expected_in]. }
  split_and!; try done. by rewrite (Forall2_length _ _ _ Hs), (Permutation_length HP).
Qed.

End FJResult.

Import FJResult.

(** C12: the fused filter and join keeps exactly the rows of the fact table whose
    foreign keys all occur among the active keys of their dimensions, each once
    and with its chunk.  Next to the rows it puts one index array per dimension,
    aligned with them, which for every row holds the active row of a dimension
    with the row's key; no two arrays belong to the same dimension.  When
    [std::sort] leaves filters of equal rate in place, as is needed because their
    rates are never updated and the arrays are handed out by position, the array
    of every dimension is its own; C++ does not promise that, and without it the
    arrays are handed out in some order [pos].  All this holds for every order of
    the tasks that build and probe, for key columns with different names and for
    dimensions with unique keys and the hash tables of their selections.  The
    filter of the fact table plays no part. *)
Theorem filter_join_correct get_column rands sort tasks schedule num_parallel graph prev out preds p0 fact dims fks pks (col : Chunks) :
  (forall cmp l, Permutation (sort cmp l) l) -> (forall l, Permutation (schedule l) l) ->
  (forall i, (3 <= length (rands i))%nat) -> 0 < num_parallel -> Graph.get_predicates graph 0 = Some preds -> head preds = Some p0 ->
  LIP.collect_tables preds (concat prev) (None, []) = (Some fact, dims) -> indices fact = None -> materialized_cols_ fact = ∅ ->
  get_column (table fact) (col_name (left_col_ p0)) = Some col -> col <> [] -> rows col < 2 ^ 30 -> Z.of_nat (length col) < 2 ^ 16 ->
  length preds = length dims -> length preds = length fks -> length preds = length pks ->
  (forall k p dim fk pk, preds !! k = Some p -> dims !! k = Some dim -> fks !! k = Some fk -> pks !! k = Some pk ->
     join_dim_ok get_column fact col p dim fk pk) ->
  NoDup (key_names preds) -> task_order (length dims) tasks ->
  exists idxs chks dims' (pos : nat -> nat),
    FJ.Execute get_column rands sort tasks schedule num_parallel graph prev out =
      Some (out ++ newLazyTable (table fact) None (Some idxs) (Some chks) None :: dims') /\
    NoDup idxs /\ Forall2 (in_chunk col) idxs chks /\
    (forall r, r ∈ idxs <-> 0 <= r < rows col /\
       forall k fk pk dim, fks !! k = Some fk -> pks !! k = Some pk -> dims !! k = Some dim -> value_at fk r ∈ dim_values pk dim) /\
    length dims' = length dims /\ (forall k k', pos k = pos k' -> k = k') /\
    (forall k dim, dims !! k = Some dim -> (pos k < length dims)%nat /\
       exists didxs, dims' !! k = Some (newLazyTable (table dim) None (Some didxs) None (hash_table_ dim)) /\
         (forall fk pk dim', fks !! pos k = Some fk -> pks !! pos k = Some pk -> dims !! pos k = Some dim' ->
            Forall2 (fun r d => (d, value_at fk r) ∈ concat (active pk (filter dim'))) idxs didxs) /\
         (keeps_equals sort -> forall fk pk, fks !! k = Some fk -> pks !! k = Some pk ->
            Forall2 (fun r d => (d, value_at fk r) ∈ concat (active pk (filter dim))) idxs didxs)).
Proof.
  intros Hsort Hsch Hr Hw Eg Eh Et Hi Hm Ec Hne Hrows H16 L1 L2 L3 HD HN HT.
  destruct (BuildFilters_ok get_column rands fact col tasks preds dims fks pks Hi Hm Hr L1 L2 L3 HD HN HT) as (fs & Efs & Hlf & Hx & HG & HI & HV).
  set (cols := LIP.fact_fk_col get_column fact) in *.
  assert (cols (col_name (left_col_ p0)) = Some col) as Ef0.
  { unfold cols, LIP.fact_fk_col, MaterializeColumn, gathered. rewrite Hm, lookup_empty, Ec. cbn [mbind option_bind]. by rewrite Hi. }
  destruct (ComputeChunkOffsets_ok col Hne) as (offs & Eo & Hoff); [unfold rows in Hrows; lia |].
  assert (fs <> []) as Hfs by (intros ->; destruct preds; [done |]; cbn in *; lia).
  destruct (ProbeFilters_ok cols col offs sort schedule Hsort Hsch Hrows Hoff fs num_parallel
    (mkJoinState (resize_indices (length col) <$> fs) (replicate (length col) []))) as (st & fs' & Est & HP & HK & Hok & HJ); try done.
  { constructor; cbn; [apply Forall2_fmap_l, Forall_Forall2_diag; by apply Forall_true | by rewrite length_replicate |].
    apply Forall_fmap. eapply Forall_impl; [exact Hx |]. intros f Ef. cbn. rewrite Ef, length_app, length_take, length_replicate. cbn. lia. }
  { cbn. apply Forall_fmap. eapply Forall_impl; [exact HI |]. done. }
  assert (fs' <> []) as Hfs' by (intros ->; by apply Permutation_nil in HP).
  destruct (join_result_ok cols col fs fs' st dims) as (HDone & Hlj & N & F); try done.
  destruct (join_dims_ok dims (join_filters_ st) Hlj) as (dims' & Ed' & Hld & Hd'). destruct (proj1 (Permutation_inj fs' fs) HP) as (_ & pos & Hpos & Epos).
  exists (concat (join_lip_ st)), (LIP.index_chunks_of 0 (join_lip_ st)), dims', pos. split_and!; [| done | done | | done | done |].
  - unfold FJ.Execute. rewrite Eg. cbn [mbind option_bind]. rewrite Et. cbn [mbind option_bind]. rewrite Efs. cbn [mbind option_bind]. rewrite Eh. cbn [mbind option_bind].
    fold cols. rewrite Ef0. cbn [mbind option_bind]. rewrite Eo. cbn [mbind option_bind]. rewrite <- Hlf, Est. cbn [mbind option_bind]. unfold Finish.
    rewrite Ed'. done.
  - intros r. rewrite (in_lip cols col (lip_of <$> fs)); [| apply Hok | done]. by apply (kept_rows get_column fact col preds dims fks pks fs).
  - intros k dim E3. pose proof (lookup_lt_Some _ _ _ E3) as Hk. destruct (lookup_lt_is_Some_2 (join_filters_ st) k) as [g Egk]; [by rewrite Hlj |].
    destruct (Forall2_lookup_l _ _ _ _ _ (ro_same _ _ _ Hok) Egk) as (f' & Ef' & Hgf'). pose proof Ef' as Ef''. rewrite Epos in Ef''.
    split; [rewrite <- Hlf; by eapply lookup_lt_Some |]. exists (concat (indices_ g)). split_and!; [by apply Hd' | |].
    + intros fk pk dim' D1 D2 D3. destruct (HV (pos k) f' fk pk dim' Ef'' D1 D2 D3) as (V1 & V2 & V3).
      destruct (lookup_lt_is_Some_2 preds (pos k)) as [p Ep]; [rewrite L1; by eapply lookup_lt_Some |].
      exact (dim_rows_ok get_column fact col fs' st k f' g p dim' fk pk Hok HJ Hfs' (list_elem_of_lookup_2 _ _ _ Ef') Hgf' Egk (HD _ p dim' fk pk Ep D3 D1 D2) V2 V1 V3).
    + intros Heq fk pk D1 D2. destruct (Forall2_lookup_l _ _ _ _ _ (HK Heq) Egk) as (f & Ef & Hgf). destruct (HV k f fk pk dim Ef D1 D2 E3) as (V1 & V2 & V3).
      destruct (lookup_lt_is_Some_2 preds k) as [p Ep]; [by rewrite L1 |].
      refine (dim_rows_ok get_column fact col fs' st k f g p dim fk pk Hok HJ Hfs' _ Hgf Egk (HD k p dim fk pk Ep E3 D1 D2) V2 V1 V3).
      rewrite HP. by eapply list_elem_of_lookup_2.
Qed.

(** ** An example *)

Module FJDemo.

(** Table 1 is the fact table, with a filter that removes its row 0; tables 2
    and 3 are its dimensions. *)
Definition demo_columns (t : Z) (name : string) : option Chunks :=
  if t =? 1 then (if String.eqb name "fk2" then Some [[5; 7]; [5]] else Some [[9; 2]; [1]])
  else if t =? 2 then Some [[6; 5]] else Some [[1; 9]].

Definition demo_fact : LazyTable := newLazyTable 1 (Some [[2]; [1]]) None None None.
Definition demo_dims : list LazyTable :=
  [newLazyTable 2 (Some [[2]]) None None (Some (<[5 := [mkRecordID 1 0]]> ∅));
   newLazyTable 3 None None None (Some (<[1 := [mkRecordID 0 0]]> (<[9 := [mkRecordID 1 0]]> ∅)))].
Definition demo_preds : list JoinPredicate :=
  [mkJoinPredicate (mkColumnReference 1 "fk2") (mkColumnReference 2 "pk2"); mkJoinPredicate (mkColumnReference 1 "fk3") (mkColumnReference 3 "pk3")].
Definition demo_graph : Graph.JoinGraph := Graph.mkJoinGraph [demo_preds] [1] 2.

(** An insertion sort. *)
Fixpoint place (cmp : LookupFilterJoin -> LookupFilterJoin -> bool) (x : LookupFilterJoin) (l : list LookupFilterJoin) : list LookupFilterJoin :=
  match l with
  | [] => [x]
  | y :: l' => if cmp y x then y :: place cmp x l' else x :: l
  end.
Definition insertion_sort (cmp : LookupFilterJoin -> LookupFilterJoin -> bool) (l : list LookupFilterJoin) : list LookupFilterJoin :=
  foldr (place cmp) [] l.

Lemma place_perm cmp x l : Permutation (place cmp x l) (x :: l).
Proof. induction l as [|y l IH]; [done |]. cbn [place]. destruct (cmp y x); [| done]. rewrite IH. constructor. Qed.

Lemma insertion_sort_perm cmp l : Permutation (insertion_sort cmp l) l.
Proof. induction l as [|x l IH]; [done |]. cbn [insertion_sort foldr]. fold (insertion_sort cmp l). by rewrite place_perm, IH. Qed.

Lemma insertion_sort_equal cmp l : (forall x y, x ∈ l -> y ∈ l -> cmp x y = false) -> insertion_sort cmp l = l.
Proof.
  induction l as [|x l IH]; intros H; [done |]. cbn [insertion_sort foldr]. fold (insertion_sort cmp l).
  rewrite IH by (intros; apply H; by right). destruct l as [|y l']; [done |]. cbn. rewrite H; [done | right; left | left].
Qed.

Lemma demo_join_dim_ok k p dim fk pk : demo_preds !! k = Some p -> demo_dims !! k = Some dim -> [[[5; 7]; [5]]; [[9; 2]; [1]]] !! k = Some fk ->
  [[[6; 5]]; [[1; 9]]] !! k = Some pk -> join_dim_ok demo_columns demo_fact [[5; 7]; [5]] p dim fk pk.
Proof.
  destruct k as [|[|k]]; intros E1 E2 E3 E4; try done; injection E1 as <-; injection E2 as <-; injection E3 as <-; injection E4 as <-; constructor.
  - constructor; try reflexivity.
    + repeat (apply Forall2_cons_2; [vm_compute; intros [=] |]). constructor.
    + intros h [= <-] k'. change (dim_values _ _) with [5]. rewrite list_elem_of_singleton, lookup_insert_is_Some', lookup_empty.
      split; [intros [-> | [? ?]]; done | by left].
  - apply (bool_decide_eq_true_1 _). vm_compute. reflexivity.
  - eexists _, [(1, 5)]. split_and!; [reflexivity | | reflexivity]. intros k'. destruct (decide (k' = 5)) as [-> | Hne]; [reflexivity |].
    rewrite lookup_insert_ne by done. unfold partners. rewrite filter_cons_False by (cbn; congruence). reflexivity.
  - constructor; try reflexivity. intros h [= <-] k'. change (dim_values _ _) with [1; 9].
    rewrite !elem_of_cons, elem_of_nil, !lookup_insert_is_Some', lookup_empty. split; [intros [-> | [-> | [? ?]]]; tauto || done | intros [-> | [-> | []]]; tauto].
  - apply (bool_decide_eq_true_1 _). vm_compute. reflexivity.
  - eexists _, [(0, 1); (1, 9)]. split_and!; [reflexivity | | reflexivity]. intros k'. destruct (decide (k' = 1)) as [-> | H1]; [reflexivity |].
    destruct (decide (k' = 9)) as [-> | H9]; [reflexivity |]. rewrite !lookup_insert_ne by done. unfold partners.
    rewrite !filter_cons_False by (cbn; congruence). reflexivity.
Qed.

End FJDemo.

Import FJDemo.

Lemma filter_join_correct_witness :
  exists idxs chks dims', FJ.Execute demo_columns (fun _ => [1; 2; 3]) insertion_sort LipDemo.demo_tasks (fun l => rev l) 2 demo_graph [[demo_fact]; demo_dims] [] =
      Some (newLazyTable 1 None (Some idxs) (Some chks) None :: dims') /\ NoDup idxs /\ (0 ∈ idxs /\ 2 ∈ idxs /\ 1 ∉ idxs) /\ length dims' = 2%nat /\
    exists didxs h, dims' !! 1%nat = Some (newLazyTable 3 None (Some didxs) None h) /\
      Forall2 (fun r d => (d, value_at [[9; 2]; [1]] r) ∈ [(0, 1); (1, 9)]) idxs didxs.
Proof.
  destruct (filter_join_correct demo_columns (fun _ => [1; 2; 3]) insertion_sort LipDemo.demo_tasks (fun l => rev l) 2 demo_graph [[demo_fact]; demo_dims] []
    demo_preds (mkJoinPredicate (mkColumnReference 1 "fk2") (mkColumnReference 2 "pk2")) demo_fact demo_dims
    [[[5; 7]; [5]]; [[9; 2]; [1]]] [[[6; 5]]; [[1; 9]]] [[5; 7]; [5]]) as (idxs & chks & dims' & pos & E & HN & _ & Hin & Hl & _ & Hd); try reflexivity.
  - apply insertion_sort_perm.
  - intros l. symmetry. apply Permutation_rev.
  - intros [=].
  - apply demo_join_dim_ok.
  - apply (bool_decide_eq_true_1 _). vm_compute. reflexivity.
  - apply demo_task_order.
  - exists idxs, chks, dims'. split_and!; [exact E | exact HN | | | | exact Hl |].
    + apply Hin. split; [vm_compute; split; [intros [=] | reflexivity] |]. intros [|[|k]] fk pk dim E1 E2 E3; [| | discriminate E1];
        injection E1 as <-; injection E2 as <-; injection E3 as <-; apply (bool_decide_eq_true_1 _); vm_compute; reflexivity.
    + apply Hin. split; [vm_compute; split; [intros [=] | reflexivity] |]. intros [|[|k]] fk pk dim E1 E2 E3; [| | discriminate E1];
        injection E1 as <-; injection E2 as <-; injection E3 as <-; apply (bool_decide_eq_true_1 _); vm_compute; reflexivity.
    + intros H. apply Hin in H as [_ H]. specialize (H 0%nat _ _ _ eq_refl eq_refl eq_refl). change (dim_values _ _) with [5] in H.
      apply list_elem_of_singleton in H. vm_compute in H. discriminate H.
    + destruct (Hd 1%nat _ eq_refl) as (_ & didxs & Ed & _ & Hown). eexists didxs, _. split; [exact Ed |].
      exact (Hown insertion_sort_equal _ _ eq_refl eq_refl).
Defined.

(** The filter of the fact table is lost: row 0 was removed by the selection on
    the fact table, and is part of the result. *)
Theorem filter_join_ignores_fact_filter :
  exists r, FJ.Execute demo_columns (fun _ => [1; 2; 3]) insertion_sort LipDemo.demo_tasks (fun l => l) 2 demo_graph [[demo_fact]; demo_dims] [] = Some r /\
    indices_of 1 r = Some [0; 2] /\ indices_of 2 r = Some [1; 1] /\ indices_of 3 r = Some [1; 0].
Proof. eexists. split; [vm_compute; reflexivity |]. split_and!; vm_compute; reflexivity. Qed.

(** A [std::sort] that exchanges two filters of equal rate, which C++ allows,
    exchanges the index arrays of the two dimensions. *)
Theorem filter_join_unstable_sort :
  exists r, FJ.Execute demo_columns (fun _ => [1; 2; 3]) (fun _ l => rev l) LipDemo.demo_tasks (fun l => l) 3 demo_graph [[demo_fact]; demo_dims] [] = Some r /\
    indices_of 1 r = Some [0; 2] /\ indices_of 2 r = Some [1; 0] /\ indices_of 3 r = Some [1; 1].
Proof. eexists. split; [vm_compute; reflexivity |]. split_and!; vm_compute; reflexivity. Qed.
