(* ===== verification/AggregateSort.v ===== *)
(** * The ORDER BY clause of the aggregates (operators/aggregate)

    What the two aggregate operators share: the references of the GROUP BY and
    ORDER BY clauses, the columns of the result, and [SortResult], which sorts
    the result once per ORDER BY column, from the last to the first.  Arrow's
    kernels on the columns of the result are the class [ArrowSort]. *)

From Stdlib Require Import ZArith Lia SpecFloat.
From stdpp Require Import base numbers list option strings sorting.
Import stdpp.list_basics.list stdpp.list_relations.list stdpp.list_monad.list.
From S2P Require Import Prelude HashJoin.
Import Join.

Local Open Scope Z_scope.

Module Agg.

Inductive AggregateKernel := SUM | COUNT | MEAN.

(** The types the operators tell apart; [NUMBER] is any other number type and
    [OTHER] any other type. *)
Inductive DataType := INT64 | DOUBLE | NUMBER | BOOL | STRING | LARGE_STRING | BINARY | FIXED_SIZE_BINARY | OTHER.

#[export] Instance AggregateKernel_eq_dec : EqDecision AggregateKernel.
Proof. solve_decision. Defined.
#[export] Instance DataType_eq_dec : EqDecision DataType.
Proof. solve_decision. Defined.

Definition is_number_type (t : DataType) : bool := match t with INT64 | DOUBLE | NUMBER => true | _ => false end.
Definition is_string_type (t : DataType) : bool := match t with STRING | LARGE_STRING => true | _ => false end.

(** A value of a column that is not a number is represented by a number of its
    own; doubles are IEEE values. *)
Inductive Cell := CInt (z : Z) | CDouble (f : spec_float).

Record Datum := mkDatum { dtype : DataType; cells : list Cell }.

Definition nullptr : Z := 0.

(** [OrderByReference]; a null table is the aggregate column. *)
Record OrderByReference := mkOrderByReference { col_ref_ : ColumnReference; is_desc : bool }.

Inductive SortOrder := Ascending | Descending.

End Agg.

Import Agg.

(** [a] comes before [b] or together with it. *)
Definition precedes (leb : Cell -> Cell -> bool) (o : SortOrder) (a b : Cell) : Prop :=
  match o with Ascending => leb a b = true | Descending => leb b a = true end.

(** Row [i] comes before row [j] in a stable sort of a column. *)
Definition before (leb : Cell -> Cell -> bool) (o : SortOrder) (l : list Cell) (i j : nat) : Prop :=
  exists a b, l !! i = Some a /\ l !! j = Some b /\ precedes leb o a b /\ (precedes leb o b a -> (i < j)%nat).

(** [arrow::compute::SortIndices] defines a stable sort of an array of numbers
    or strings; [arrow::compute::Take] gathers elements.  [None] is an error
    status. *)
Class ArrowSort := {
  cell_leb : DataType -> Cell -> Cell -> bool;
  SortIndices : SortOrder -> Datum -> option (list nat);
  TakeCells : list Cell -> list nat -> option (list Cell);
  SortIndices_spec : forall o d, is_number_type (dtype d) || is_string_type (dtype d) = true ->
    exists idx, SortIndices o d = Some idx /\ idx ≡ₚ seq 0 (length (cells d)) /\
      StronglySorted (before (cell_leb (dtype d)) o (cells d)) idx;
  TakeCells_spec : forall l idx out, mapM (fun i => l !! i) idx = Some out -> TakeCells l idx = Some out
}.

Module AggSort.

Section Sort.
Context {AS : ArrowSort}.

(** [evaluate_status(status, ...)] *)
Definition evaluate_status {S A} (x : option A) : StM S A :=
  match x with Some a => mret a | None => throw RuntimeError end.

(** The inner loop: the GROUP BY columns of the table of the ORDER BY column. *)
Fixpoint same_table (order_by_ref : OrderByReference) (group_by_refs : list ColumnReference) (j : nat) : list nat :=
  match group_by_refs with
  | [] => []
  | g :: group_by_refs' =>
      if cr_table (col_ref_ order_by_ref) =? cr_table g
      then j :: same_table order_by_ref group_by_refs' (S j)
      else same_table order_by_ref group_by_refs' (S j)
  end.

Definition order_to_group (order_by_refs : list OrderByReference) (group_by_refs : list ColumnReference) : list nat :=
  order_by_refs ≫= (fun o => same_table o group_by_refs 0).

Definition take_datum {S} (sorted_indices : list nat) (d : Datum) : StM S Datum :=
  out ← evaluate_status (TakeCells (cells d) sorted_indices);
  mret (mkDatum (dtype d) out).

Fixpoint take_groups {S} (sorted_indices : list nat) (groups : list Datum) : StM S (list Datum) :=
  match groups with
  | [] => mret []
  | d :: groups' =>
      d ← take_datum sorted_indices d;
      groups' ← take_groups sorted_indices groups';
      mret (d :: groups')
  end.

(** The body of the loop for ORDER BY column [i]. *)
Definition sort_step {S} (order : SortOrder) (otg : list nat) (i : nat) (order_ref : OrderByReference)
    (st : list Datum * Datum) : StM S (list Datum * Datum) :=
  let '(groups, aggregates) := st in
  sorted_indices ←
    (if cr_table (col_ref_ order_ref) =? nullptr then evaluate_status (SortIndices order aggregates)
     else
       k ← defined (otg !! i);
       group ← defined (groups !! k);
       evaluate_status (SortIndices order group));
  aggregates ← take_datum sorted_indices aggregates;
  groups ← take_groups sorted_indices groups;
  mret (groups, aggregates).

(** [for (int i = order_by_refs_.size() - 1; i >= 0; i--)]: the columns from
    [i] on are done first. *)
Fixpoint sort_from {S} (order_of : OrderByReference -> SortOrder) (otg : list nat) (i : nat) (order_by_refs : list OrderByReference)
    (st : list Datum * Datum) : StM S (list Datum * Datum) :=
  match order_by_refs with
  | [] => mret st
  | o :: order_by_refs' =>
      st ← sort_from order_of otg (1 + i) order_by_refs' st;
      sort_step (order_of o) otg i o st
  end.

Definition sort_result {S} (order_of : OrderByReference -> SortOrder) (order_by_refs : list OrderByReference)
    (group_by_refs : list ColumnReference) (groups : list Datum) (aggregates : Datum) : StM S (list Datum * Datum) :=
  sort_from order_of (order_to_group order_by_refs group_by_refs) 0 order_by_refs (groups, aggregates).

End Sort.

End AggSort.

Import AggSort.

(** ** Sorting by several columns *)

Module AggSortSpec.

(** [out] are the elements of [l] that [idx] names. *)
Definition picks {A} (l : list A) (idx : list nat) (out : list A) : Prop := Forall2 (fun i x => l !! i = Some x) idx out.

Lemma picks_mapM {A} (l : list A) idx out : picks l idx out <-> mapM (fun i => l !! i) idx = Some out.
Proof. symmetry. apply mapM_Some. Qed.

Lemma picks_total {A} (l : list A) idx : Forall (fun i => (i < length l)%nat) idx -> exists out, picks l idx out.
Proof.
  induction 1 as [|i idx Hi _ [out IH]]; [by exists []; constructor |].
  destruct (lookup_lt_is_Some_2 l i Hi) as [x Hx]. exists (x :: out). by constructor.
Qed.

Lemma picks_compose {A} (l m o : list A) p q r : picks l p m -> picks m q o -> picks p q r -> picks l r o.
Proof.
  intros Hp Hq Hr. apply Forall2_same_length_lookup. pose proof (Forall2_length _ _ _ Hq). pose proof (Forall2_length _ _ _ Hr).
  split; [lia |]. intros k i x Hi Hx. destruct (Forall2_lookup_r _ _ _ _ _ Hq Hx) as (j & Hj & Ej).
  pose proof (Forall2_lookup_lr _ _ _ _ _ _ Hr Hj Hi) as Ei. exact (Forall2_lookup_lr _ _ _ _ _ _ Hp Ei Ej).
Qed.

Lemma picks_nth {A} (d : A) (l : list A) idx out : picks l idx out -> out = (fun i => nth i l d) <$> idx.
Proof. induction 1 as [|i x idx out Hi _ IH]; [done |]. cbn. rewrite (nth_lookup_Some _ _ _ _ Hi). by f_equal. Qed.

Lemma fmap_nth_seq {A} (d : A) (l : list A) : (fun i => nth i l d) <$> seq 0 (length l) = l.
Proof.
  apply list_eq. intros i. rewrite list_lookup_fmap. destruct (decide (i < length l)%nat) as [Hi|Hi].
  - rewrite lookup_seq_lt by lia. cbn. destruct (lookup_lt_is_Some_2 l i Hi) as [x Hx]. by rewrite (nth_lookup_Some _ _ _ _ Hx), Hx.
  - rewrite lookup_seq_ge, lookup_ge_None_2 by lia. done.
Qed.

(** Picking by a permutation of all positions permutes. *)
Lemma picks_perm {A} (l : list A) idx out : idx ≡ₚ seq 0 (length l) -> picks l idx out -> out ≡ₚ l.
Proof.
  intros Hp Hk. destruct l as [|d l].
  - apply Permutation_nil_r in Hp as ->. by inversion Hk.
  - rewrite (picks_nth d _ _ _ Hk), Hp. by rewrite fmap_nth_seq.
Qed.

Lemma perm_seq_bound idx n : idx ≡ₚ seq 0 n -> Forall (fun i => (i < n)%nat) idx.
Proof. intros ->. apply Forall_forall. intros i Hi. apply elem_of_seq in Hi. lia. Qed.

Lemma StronglySorted_lookup {A} (R : A -> A -> Prop) (l : list A) :
  StronglySorted R l <-> forall i j x y, (i < j)%nat -> l !! i = Some x -> l !! j = Some y -> R x y.
Proof.
  induction l as [|a l IH]; [by split; [intros _ [] | constructor] |]. rewrite StronglySorted_cons, IH, Forall_lookup. split.
  - intros [Ha Hl] [|i] [|j] x y Hij Hx Hy; [lia | | lia |].
    + injection Hx as <-. by apply (Ha j).
    + apply (Hl i j); [lia | done | done].
  - intros H. split.
    + intros i x Hx. by apply (H 0%nat (S i)); [lia | |].
    + intros i j x y Hij Hx Hy. by apply (H (S i) (S j)); [lia | |].
Qed.

Section Spec.
Context {AS : ArrowSort}.

(** Row [i] comes before row [j] when the columns are compared one after the
    other; rows that agree on all of them keep their order. *)
Fixpoint lex (keys : list (SortOrder * Datum)) (i j : nat) : Prop :=
  match keys with
  | [] => (i < j)%nat
  | (o, d) :: keys' =>
      exists a b, cells d !! i = Some a /\ cells d !! j = Some b /\
        precedes (cell_leb (dtype d)) o a b /\ (precedes (cell_leb (dtype d)) o b a -> lex keys' i j)
  end.

(** [d'] is [d] with its rows in the order [p]. *)
Definition permuted (p : list nat) (d d' : Datum) : Prop := dtype d' = dtype d /\ picks (cells d) p (cells d').

Lemma lex_step keys o d d' p q r :
  StronglySorted (lex keys) p -> permuted p d d' -> StronglySorted (before (cell_leb (dtype d')) o (cells d')) q -> picks p q r ->
  StronglySorted (lex ((o, d) :: keys)) r.
Proof.
  intros Hp [Et Hd] Hq Hr. rewrite StronglySorted_lookup in Hp, Hq |- *. intros u v i j Huv Hi Hj.
  destruct (Forall2_lookup_r _ _ _ _ _ Hr Hi) as (qi & Hqi & Epi). destruct (Forall2_lookup_r _ _ _ _ _ Hr Hj) as (qj & Hqj & Epj).
  destruct (Hq u v qi qj Huv Hqi Hqj) as (a & b & Ha & Hb & Hle & Heq). rewrite Et in Hle, Heq. exists a, b. split_and!.
  - exact (Forall2_lookup_lr _ _ _ _ _ _ Hd Epi Ha).
  - exact (Forall2_lookup_lr _ _ _ _ _ _ Hd Epj Hb).
  - exact Hle.
  - intros Hge. by apply (Hp qi qj); [apply Heq | |].
Qed.

Definition sortable (d : Datum) : Prop := is_number_type (dtype d) || is_string_type (dtype d) = true.

Lemma take_datum_ok {S} (s : S) n p q r d d' : length (cells d) = n -> permuted p d d' -> length p = n -> q ≡ₚ seq 0 n -> picks p q r ->
  exists e, take_datum q d' s = Some (s, inr e) /\ permuted r d e.
Proof.
  intros Hn [Et Hd] Hlp Hq Hr. pose proof (Forall2_length _ _ _ Hd) as Hl. destruct (picks_total (cells d') q) as [out Hout].
  { eapply Forall_impl; [by apply perm_seq_bound |]. intros i Hi. cbn in Hi. lia. }
  exists (mkDatum (dtype d') out). split.
  - unfold take_datum. rewrite (TakeCells_spec _ _ out) by (by apply picks_mapM). done.
  - split; [done |]. exact (picks_compose _ _ _ _ _ _ Hd Hout Hr).
Qed.

Lemma take_groups_ok {S} (s : S) n p q r ds ds' : Forall (fun d => length (cells d) = n) ds -> Forall2 (permuted p) ds ds' ->
  length p = n -> q ≡ₚ seq 0 n -> picks p q r ->
  exists es, take_groups q ds' s = Some (s, inr es) /\ Forall2 (permuted r) ds es.
Proof.
  intros Hn Hds Hlp Hq Hr. induction Hds as [|d d' ds ds' Hd _ IH]; [by exists []; repeat constructor |].
  apply Forall_cons in Hn as [Hd0 Hn]. destruct (IH Hn) as (es & Ees & Hes). destruct (take_datum_ok s n p q r d d') as (e & Ee & He); try done.
  exists (e :: es). split; [| by constructor]. cbn [take_groups]. erewrite bind_val by exact Ee. by erewrite bind_val by exact Ees.
Qed.

(** The column that the loop sorts by for ORDER BY column [i]. *)
Definition sort_column (otg : list nat) (groups : list Datum) (aggregates : Datum) (i : nat) (o : OrderByReference) : option Datum :=
  if cr_table (col_ref_ o) =? nullptr then Some aggregates else k ← otg !! i; groups !! k.

Lemma sort_from_ok {S} (s : S) order_of otg groups aggregates n :
  Forall (fun d => length (cells d) = n) (aggregates :: groups) ->
  forall os i keys, Forall2 (fun io d => sort_column otg groups aggregates (fst io) (snd io) = Some d /\ sortable d) (imap (fun k o => (i + k, o)%nat) os) keys ->
  exists p groups' aggregates', sort_from order_of otg i os (groups, aggregates) s = Some (s, inr (groups', aggregates')) /\
    p ≡ₚ seq 0 n /\ permuted p aggregates aggregates' /\ Forall2 (permuted p) groups groups' /\
    StronglySorted (lex (zip (order_of <$> os) keys)) p.
Proof.
  intros Hn. assert (forall d, length (cells d) = n -> permuted (seq 0 n) d d) as Hid.
  { intros d <-. split; [done |]. apply Forall2_same_length_lookup. rewrite length_seq. split; [done |].
    intros k i x Hk Hx. apply lookup_seq in Hk as [-> _]. done. }
  apply Forall_cons in Hn as [Hna Hng]. induction os as [|o os IH]; intros i keys HK.
  - exists (seq 0 n), groups, aggregates. inversion HK. split_and!; [done | done | by apply Hid | | ].
    + clear -Hng Hid. induction Hng; constructor; auto.
    + apply StronglySorted_lookup. intros a b x y Hab Hx Hy. apply lookup_seq in Hx as [-> _]. apply lookup_seq in Hy as [-> _]. cbn. lia.
  - cbn [imap] in HK. apply Forall2_cons_inv_l in HK as (d & keys' & [Hd Hs] & HK' & ->). rewrite Nat.add_0_r in Hd. cbn [fst snd] in Hd.
    destruct (IH (1 + i)%nat keys') as (p & gs & ag & E & Hp & Hag & Hgs & Hsort).
    { rewrite (imap_ext _ (fun k o => (i + (1 + k), o)%nat)) by (intros k o' _; cbn; f_equal; lia). exact HK'. }
    pose proof (Permutation_length Hp) as Hlp. rewrite length_seq in Hlp.
    assert (exists d', sort_column otg gs ag i o = Some d' /\ permuted p d d' /\ length (cells d) = n) as (d' & Hd' & Hperm & Hdn).
    { unfold sort_column in Hd |- *. destruct (_ =? _); [injection Hd as <-; by exists ag |]. destruct (otg !! i) as [k|]; [| done].
      cbn [mbind option_bind] in Hd |- *. destruct (Forall2_lookup_l _ _ _ _ _ Hgs Hd) as (d' & Hd' & Hperm). exists d'. split_and!; try done.
      exact (proj1 (Forall_lookup _ _) Hng k d Hd). }
    destruct (SortIndices_spec (order_of o) d') as (q & Eq & Hq & Hqs). { destruct Hperm as [-> _]. exact Hs. }
    pose proof (Forall2_length _ _ _ (proj2 Hperm)) as Hld. rewrite <- Hld, Hlp in Hq.
    destruct (picks_total p q) as [r Hr]. { eapply Forall_impl; [by apply perm_seq_bound |]. cbn. lia. }
    destruct (take_datum_ok s n p q r aggregates ag) as (ag' & Ea & Ha'); try done.
    destruct (take_groups_ok s n p q r groups gs) as (gs' & Eg & Hg'); try done.
    exists r, gs', ag'. split_and!; try done.
    + cbn [sort_from]. erewrite bind_val by exact E. unfold sort_step, sort_column in *. destruct (_ =? nullptr).
      * injection Hd' as <-. rewrite Eq. cbn [evaluate_status]. erewrite bind_val by reflexivity. erewrite bind_val by exact Ea. by erewrite bind_val by exact Eg.
      * destruct (otg !! i) as [k|]; [| done]. cbn [mbind option_bind] in Hd'. unfold mbind at 1, StM_bind at 1.
        erewrite bind_defined by done. erewrite bind_defined by exact Hd'. rewrite Eq. cbn [evaluate_status mret StM_ret].
        erewrite bind_val by exact Ea. by erewrite bind_val by exact Eg.
    + transitivity p; [| exact Hp]. apply (picks_perm p q r); [by rewrite Hlp | done].
    + cbn [fmap list_fmap zip]. eapply lex_step; done.
Qed.

(** ** Which columns are compared *)

(** The columns of the ORDER BY clause as it is written. *)
Definition key_column (group_by_refs : list ColumnReference) (groups : list Datum) (aggregates : Datum) (o : OrderByReference) (d : Datum) : Prop :=
  if cr_table (col_ref_ o) =? nullptr then d = aggregates
  else exists j, group_by_refs !! j = Some (col_ref_ o) /\ groups !! j = Some d.

(** No two GROUP BY columns are of one table, and the aggregate comes last. *)
Record order_ok (order_by_refs : list OrderByReference) (group_by_refs : list ColumnReference) : Prop := {
  order_tables : NoDup (cr_table <$> group_by_refs);
  order_tables_known : Forall (fun g => cr_table g <> nullptr) group_by_refs;
  order_aggregate_last : exists cols aggs, order_by_refs = cols ++ aggs /\
    Forall (fun o => cr_table (col_ref_ o) <> nullptr) cols /\ Forall (fun o => cr_table (col_ref_ o) = nullptr) aggs
}.

Lemma same_table_other o gs : Forall (fun g => cr_table g <> cr_table (col_ref_ o)) gs -> forall b, same_table o gs b = [].
Proof.
  induction 1 as [|g gs Hg _ IH]; intros b; [done |]. cbn [same_table]. rewrite (proj2 (Z.eqb_neq _ _)) by congruence. apply IH.
Qed.

Lemma same_table_ok o gs : NoDup (cr_table <$> gs) -> forall j b, gs !! j = Some (col_ref_ o) -> same_table o gs b = [(b + j)%nat].
Proof.
  induction gs as [|g gs IH]; intros Hnd j b Hj; [done |]. apply NoDup_cons in Hnd as [Hg Hnd]. destruct j as [|j]; cbn [same_table].
  - injection Hj as ->. rewrite Z.eqb_refl, same_table_other; [f_equal; lia |]. apply Forall_forall. intros h Hh E.
    apply Hg. rewrite <- E. by apply list_elem_of_fmap_2.
  - cbn in Hj. rewrite (proj2 (Z.eqb_neq _ _)); [rewrite (IH Hnd j) by done; f_equal; lia |].
    intros E. apply Hg. rewrite <- E. apply (list_elem_of_fmap_2 cr_table). by apply list_elem_of_lookup_2 with j.
Qed.

Lemma order_columns order_by_refs group_by_refs groups aggregates keys : order_ok order_by_refs group_by_refs ->
  Forall2 (key_column group_by_refs groups aggregates) order_by_refs keys -> Forall sortable keys ->
  Forall2 (fun io d => sort_column (order_to_group order_by_refs group_by_refs) groups aggregates (fst io) (snd io) = Some d /\ sortable d)
    (imap (fun k o => ((0 + k)%nat, o)) order_by_refs) keys.
Proof.
  intros [Hnd Hk (cols & aggs & -> & Hc & Ha)] HK HS. apply Forall2_same_length_lookup. rewrite length_imap.
  split; [by eapply Forall2_length |]. intros i io d Hi Hd. rewrite list_lookup_imap in Hi.
  destruct ((cols ++ aggs) !! i) as [o|] eqn:Ho; [| done]. injection Hi as <-. cbn [fst snd].
  split; [| exact (proj1 (Forall_lookup _ _) HS i d Hd)]. pose proof (Forall2_lookup_lr _ _ _ _ _ _ HK Ho Hd) as Hkey.
  unfold key_column, sort_column in *. destruct (Z.eqb_spec (cr_table (col_ref_ o)) nullptr) as [En | Hn]; [by subst |].
  destruct Hkey as (j & Hj & Hg). replace (order_to_group (cols ++ aggs) group_by_refs !! i) with (Some j); [done |].
  apply lookup_app_Some in Ho as [Ho | [_ Ho]]; [| by apply (proj1 (Forall_lookup _ _) Ha) in Ho].
  unfold order_to_group. rewrite bind_app. assert (length (cols ≫= (fun o => same_table o group_by_refs 0)) = length cols /\
    forall i o j, cols !! i = Some o -> group_by_refs !! j = Some (col_ref_ o) -> (cols ≫= (fun o => same_table o group_by_refs 0)) !! i = Some j) as [Hl Hlook].
  { apply Forall2_app_inv_l in HK as (k1 & k2 & HK & _ & _). clear - Hnd Hc HK. induction HK as [|o d cols k1 Hkey _ IH]; [done |].
    apply Forall_cons in Hc as [Ho Hc]. destruct (IH Hc) as [Hl Hlook]. unfold key_column in Hkey. rewrite (proj2 (Z.eqb_neq _ _) Ho) in Hkey.
    destruct Hkey as (j & Hj & _). rewrite bind_cons, (same_table_ok o group_by_refs Hnd j 0 Hj). split; [cbn; by rewrite Hl |].
    intros [|i] o' j' Ho' Hj'; cbn; [| by apply (Hlook i o')]. injection Ho' as <-. f_equal.
    assert ((cr_table <$> group_by_refs) !! j = Some (cr_table (col_ref_ o))) as E1 by (by rewrite list_lookup_fmap, Hj).
    assert ((cr_table <$> group_by_refs) !! j' = Some (cr_table (col_ref_ o))) as E2 by (by rewrite list_lookup_fmap, Hj').
    by eapply NoDup_lookup. }
  rewrite lookup_app_l by (rewrite Hl; by eapply lookup_lt_Some). by erewrite Hlook.
Qed.

(** Row [i] of the sorted columns does not come after row [j]. *)
Fixpoint lex_le (keys : list (SortOrder * Datum)) (i j : nat) : Prop :=
  match keys with
  | [] => True
  | (o, d) :: keys' =>
      exists a b, cells d !! i = Some a /\ cells d !! j = Some b /\
        precedes (cell_leb (dtype d)) o a b /\ (precedes (cell_leb (dtype d)) o b a -> lex_le keys' i j)
  end.

Lemma lex_permuted p os keys keys' : Forall2 (permuted p) keys keys' -> forall a b i j,
  p !! a = Some i -> p !! b = Some j -> lex (zip os keys) i j -> lex_le (zip os keys') a b.
Proof.
  intros HF a b i j Ha Hb. revert os. induction HF as [|d d' keys keys' [Et Hd] _ IH]; intros [|o os]; cbn [zip zip_with lex lex_le]; try done.
  intros (x & y & Hx & Hy & Hle & Heq). rewrite Et. exists x, y. split_and!; [| | done | by intros Hge; apply IH, Heq].
  - destruct (Forall2_lookup_l _ _ _ _ _ Hd Ha) as (x' & Hx' & E). by simplify_eq.
  - destruct (Forall2_lookup_l _ _ _ _ _ Hd Hb) as (y' & Hy' & E). by simplify_eq.
Qed.

Lemma key_columns_permuted p group_by_refs groups aggregates groups' aggregates' os keys :
  Forall2 (permuted p) groups groups' -> permuted p aggregates aggregates' ->
  Forall2 (key_column group_by_refs groups aggregates) os keys ->
  exists keys', Forall2 (key_column group_by_refs groups' aggregates') os keys' /\ Forall2 (permuted p) keys keys'.
Proof.
  intros Hg Ha. induction 1 as [|o d os keys Hk _ (keys' & IH1 & IH2)]; [by exists []; split; constructor |].
  assert (exists d', key_column group_by_refs groups' aggregates' o d' /\ permuted p d d') as (d' & Hk' & Hp).
  { unfold key_column in *. destruct (_ =? _); [subst; by exists aggregates' |]. destruct Hk as (j & Hj & Hd).
    destruct (Forall2_lookup_l _ _ _ _ _ Hg Hd) as (d' & Hd' & Hp). exists d'. split; [| done]. by exists j. }
  exists (d' :: keys'). split; by constructor.
Qed.

(** [SortResult] sorts all columns alike, by the columns of the clause. *)
Lemma sort_result_ok {S} (s : S) order_of order_by_refs group_by_refs groups aggregates keys n :
  order_ok order_by_refs group_by_refs -> Forall2 (key_column group_by_refs groups aggregates) order_by_refs keys ->
  Forall sortable keys -> Forall (fun d => length (cells d) = n) (aggregates :: groups) ->
  exists p groups' aggregates' keys', sort_result order_of order_by_refs group_by_refs groups aggregates s = Some (s, inr (groups', aggregates')) /\
    p ≡ₚ seq 0 n /\ permuted p aggregates aggregates' /\ Forall2 (permuted p) groups groups' /\
    Forall2 (key_column group_by_refs groups' aggregates') order_by_refs keys' /\
    (forall a b, (a < b < n)%nat -> lex_le (zip (order_of <$> order_by_refs) keys') a b).
Proof.
  intros Ho HK HS Hn. destruct (sort_from_ok s order_of (order_to_group order_by_refs group_by_refs) groups aggregates n Hn order_by_refs 0 keys)
    as (p & groups' & aggregates' & E & Hp & Ha & Hg & Hsort); [by apply order_columns |].
  destruct (key_columns_permuted p group_by_refs groups aggregates groups' aggregates' order_by_refs keys Hg Ha HK) as (keys' & HK' & Hperm).
  exists p, groups', aggregates', keys'. split_and!; try done. intros a b Hab. pose proof (Permutation_length Hp) as Hl. rewrite length_seq in Hl.
  destruct (lookup_lt_is_Some_2 p a) as [i Hi]; [lia |]. destruct (lookup_lt_is_Some_2 p b) as [j Hj]; [lia |].
  eapply lex_permuted; [done | done | done |]. rewrite StronglySorted_lookup in Hsort. apply (Hsort a b); [lia | done | done].
Qed.

End Spec.

End AggSortSpec.

Import AggSortSpec.

(** ** The kernels exist *)

Module MergeSortKernels.

(** Finite doubles are multiples of [2^-1074]; NaN comes last. *)
Definition double_key (f : spec_float) : Z :=
  match f with
  | S754_zero _ => 0
  | S754_infinity sg => if sg then - 2 ^ 3000 else 2 ^ 3000
  | S754_nan => 2 ^ 3001
  | S754_finite sg m e => (if sg then -1 else 1) * Z.shiftl (Zpos m) (e + 1074)
  end.

Definition cell_key (c : Cell) : Z := match c with CInt z => z | CDouble f => double_key f end.

Definition row_key (o : SortOrder) (l : list Cell) (i : nat) : Z :=
  match o with Ascending => 1 | Descending => -1 end * default 0 (cell_key <$> l !! i).

Definition row_le (o : SortOrder) (l : list Cell) (i j : nat) : Prop :=
  row_key o l i < row_key o l j \/ (row_key o l i = row_key o l j /\ (i <= j)%nat).

Local Instance row_le_dec o l i j : Decision (row_le o l i j).
Proof. unfold row_le. apply _. Defined.
Local Instance row_le_trans o l : Transitive (row_le o l).
Proof. intros i j k. unfold row_le. lia. Qed.
Local Instance row_le_total o l : Total (row_le o l).
Proof. intros i j. unfold row_le. lia. Qed.

Lemma sort_indices_spec o l : let idx := merge_sort (row_le o l) (seq 0 (length l)) in
  idx ≡ₚ seq 0 (length l) /\ StronglySorted (before (fun a b => cell_key a <=? cell_key b) o l) idx.
Proof.
  intros idx. assert (idx ≡ₚ seq 0 (length l)) as Hp by apply merge_sort_Permutation. split; [done |].
  pose proof (StronglySorted_merge_sort (row_le o l) (seq 0 (length l))) as Hs. fold idx in Hs.
  assert (NoDup idx) as Hnd by (rewrite Hp; apply NoDup_seq). pose proof (perm_seq_bound _ _ Hp) as HF.
  rewrite StronglySorted_lookup in Hs |- *. intros u v i j Huv Hi Hj.
  destruct (lookup_lt_is_Some_2 l i) as [a Ha]; [exact (proj1 (Forall_lookup _ _) HF u i Hi) |].
  destruct (lookup_lt_is_Some_2 l j) as [b Hb]; [exact (proj1 (Forall_lookup _ _) HF v j Hj) |].
  assert (i <> j) as Hne by (intros ->; pose proof (NoDup_lookup _ _ _ _ Hnd Hi Hj); lia).
  pose proof (Hs u v i j Huv Hi Hj) as Hle. unfold row_le, row_key in Hle. rewrite Ha, Hb in Hle. cbn [fmap option_fmap option_map default] in Hle.
  exists a, b. unfold id in Hle. destruct o; cbn [precedes] in *; rewrite !Z.leb_le; (split_and!; [done | done | lia | lia]).
Qed.

#[export] Program Instance MergeSort : ArrowSort := {|
  cell_leb := fun _ a b => cell_key a <=? cell_key b;
  SortIndices := fun o d => Some (merge_sort (row_le o (cells d)) (seq 0 (length (cells d))));
  TakeCells := fun l idx => mapM (fun i => l !! i) idx
|}.
Next Obligation. intros o d _. eexists. split; [done | apply sort_indices_spec]. Qed.
Next Obligation. done. Qed.

End MergeSortKernels.
