(* ===== verification/HashAggregate.v ===== *)
(** * The hash aggregate (operators/aggregate/hash_aggregate)

    [HashAggregate] groups the rows of a result by the hash of their GROUP BY
    values.  In the first phase tasks aggregate ranges of chunks into hash maps
    of their own; in the second the maps are merged; [Finish] reads the GROUP BY
    values back from the first row of each group, and the result is sorted.
    [std::hash] is the class [StdHash]; the order in which an
    [std::unordered_map] is iterated and the order in which the tasks run are
    arguments.  [None] is undefined behaviour or a failed assertion. *)

From Stdlib Require Import ZArith Lia SpecFloat.
From stdpp Require Import base numbers list gmap option strings sorting.
Import stdpp.list_basics.list stdpp.list_relations.list stdpp.list_monad.list.
From S2P Require Import Prelude Columns HashJoin Expression AggregateSort.
Import Columns ColumnsProof Lazy Join Expr ExprSpec Agg AggSort AggSortSpec.

Local Open Scope Z_scope.

(** [std::hash] of the values of a type. *)
Class StdHash := {
  std_hash : DataType -> Z -> Z;
  std_hash_range : forall t v, is_u 64 (std_hash t v)
}.

Module HashAgg.

(** [HashAggregateStrategy] *)
Record HashAggregateStrategy := mkStrategy { partitions : Z; chunks : Z }.

Definition suggestedNumTasks (s : HashAggregateStrategy) : Z :=
  if chunks s <? partitions s then chunks s else partitions s.

(** The range of chunks of a task; [None] is a failed assertion or an overflow. *)
Definition getChunkID (task_id num_threads num_chunks : Z) : option (Z * Z) :=
  if (task_id <? 0) || (num_threads <=? 0) || (num_chunks <? 0) then None else
  if num_chunks <=? task_id then Some (-1, -1) else
  upper ← int_chk (num_chunks + num_threads);
  let M := Z.quot (upper - 1) num_threads in
  let m := Z.quot num_chunks num_threads in
  let FR := Z.rem num_chunks num_threads in
  '(start, last) ←
    (if task_id <? FR then
       start ← int_chk (M * task_id);
       last ← int_chk (M * (task_id + 1));
       Some (start, last)
     else
       base ← int_chk (M * FR);
       d ← int_chk (m * (task_id - FR));
       e ← int_chk (m * (task_id + 1 - FR));
       start ← int_chk (base + d);
       last ← int_chk (base + e);
       Some (start, last));
  Some (if start <? 0 then 0 else start, if num_chunks <? last then num_chunks else last).

Definition HashCombine (seed val : Z) : Z :=
  Z.lxor seed (to_u64 (val + 0x9e3779b9 + shlu 64 seed 6 + Z.shiftr seed 2)).

Abbreviation HashMap := (gmap Z Z).
Abbreviation MeanHashMap := (gmap Z spec_float).
Abbreviation TupleMap := (gmap Z (Z * Z)).

(** [global_map], by the kernel that built it. *)
Inductive GlobalMap := IntMap (m : HashMap) | MeanMap (m : MeanHashMap).

(** [AggregateReference]; [NullExpr] is a null expression. *)
Record AggregateReference := mkAggregateReference {
  kernel : AggregateKernel;
  agg_name : string;
  agg_col_ref : ColumnReference;
  expr_ref : ExprReference
}.

(** A GROUP BY column. *)
Record GroupCol := mkGroupCol { gb_type : DataType; gb_chunks : Chunks }.

(** What is aggregated: the column [agg_col_] or [expression_]. *)
Inductive Source := SColumn (t : DataType) (agg_col : Chunks) | SExpr (e : Expression).

(** The arrays in memory and the vectors of the tasks' maps. *)
Record State := mkState {
  store : Store;
  value_maps : list HashMap;
  count_maps : list HashMap;
  tuple_maps : list TupleMap
}.

(** The maps of one task. *)
Record Maps := mkMaps { value_map : HashMap; count_map : HashMap; tuple_map : TupleMap }.

Definition i64_chk (x : Z) : option Z := if (- 2 ^ 63 <=? x) && (x <? 2 ^ 63) then Some x else None.

(** [find], then [insert] or addition to the element found. *)
Definition add_value (key v : Z) (m : HashMap) : option HashMap :=
  match m !! key with
  | None => Some (<[key := v]> m)
  | Some x => y ← i64_chk (v + x); Some (<[key := y]> m)
  end.

(** The types of [arrow::is_primitive_ctype], [is_base_binary_type] and
    [is_fixed_size_binary_type]. *)
Definition hashable (t : DataType) : bool := match t with OTHER => false | _ => true end.

Section FirstPhase.
Context {H : StdHash}.

Fixpoint group_key {St} (cols : list GroupCol) (chunk_index item_index : nat) (key : Z) : StM St Z :=
  match cols with
  | [] => mret key
  | group_by :: cols' =>
      chunk ← defined (gb_chunks group_by !! chunk_index);
      if hashable (gb_type group_by) then
        val ← defined (chunk !! item_index);
        group_key cols' chunk_index item_index (HashCombine key (std_hash (gb_type group_by) val))
      else throw RuntimeError
  end.

(** The switch on the type of the aggregated column; [assert] excludes sums and
    means of strings, other types only print a message. *)
Definition agg_item_value (k : AggregateKernel) (t : DataType) (chunk : list Z) (item_index : nat) : option Z :=
  match t with
  | STRING | FIXED_SIZE_BINARY => match k with COUNT => Some 1 | _ => None end
  | INT64 => match k with COUNT => Some 1 | _ => chunk !! item_index end
  | _ => Some 0
  end.

Definition update_maps (k : AggregateKernel) (key v : Z) (m : Maps) : option Maps :=
  match k with
  | SUM => vm ← add_value key v (value_map m); Some (mkMaps vm (count_map m) (tuple_map m))
  | COUNT => vm ← add_value key 1 (value_map m); Some (mkMaps vm (count_map m) (tuple_map m))
  | MEAN =>
      match value_map m !! key with
      | None =>
          (* insert does nothing when the key is there *)
          Some (mkMaps (<[key := v]> (value_map m)) (<[key := default 1 (count_map m !! key)]> (count_map m)) (tuple_map m))
      | Some x =>
          c ← count_map m !! key;
          y ← i64_chk (v + x);
          c' ← i64_chk (1 + c);
          Some (mkMaps (<[key := y]> (value_map m)) (<[key := c']> (count_map m)) (tuple_map m))
      end
  end.

Definition update_tuples (key chunk_index item_index : Z) (m : Maps) : Maps :=
  match tuple_map m !! key with
  | Some _ => m
  | None => mkMaps (value_map m) (count_map m) (<[key := (chunk_index, item_index)]> (tuple_map m))
  end.

(** [for (int item_index = 0; item_index < chunk_size; ++item_index)] *)
Fixpoint scan_rows (n item_index : nat) (k : AggregateKernel) (t : DataType) (agg_chunk : list Z) (cols : list GroupCol)
    (bits : option (list Z)) (chunk_index : nat) : StM Maps unit :=
  match n with
  | O => mret tt
  | S n' =>
      ok ← defined (passes bits (Z.of_nat item_index));
      _ ← (if (ok : bool) then
             key ← group_key cols chunk_index item_index 0;
             v ← defined (agg_item_value k t agg_chunk item_index);
             m ← get;
             m ← defined (update_maps k key v m);
             modify (fun _ => update_tuples key (Z.of_nat chunk_index) (Z.of_nat item_index) m)
           else mret tt);
      scan_rows n' (S item_index) k t agg_chunk cols bits chunk_index
  end.

(** [vector::at] *)
Definition at_ {St A} (l : list A) (i : nat) : StM St A :=
  match l !! i with Some x => mret x | None => throw OutOfRange end.

(** Runs [f] on the maps of task [tid]; only means have count maps. *)
Definition with_maps (k : AggregateKernel) (tid : nat) (f : StM Maps unit) : StM State unit :=
  s ← get;
  cm ← match k with MEAN => at_ (count_maps s) tid | _ => mret ∅ end;
  vm ← at_ (value_maps s) tid;
  tm ← at_ (tuple_maps s) tid;
  '(m, r) ← defined (f (mkMaps vm cm tm));
  _ ← modify (fun s => mkState (store s) (<[tid := value_map m]> (value_maps s))
               match k with MEAN => <[tid := count_map m]> (count_maps s) | _ => count_maps s end
               (<[tid := tuple_map m]> (tuple_maps s)));
  or_throw r.

Definition data_type (t : CType) : DataType := if decide (t = mkCType true 64) then INT64 else NUMBER.

(** [expression_->Evaluate(internal, chunk_index)] or the chunk of the column. *)
Definition agg_chunk (src : Source) (chunk_index : nat) : StM State (DataType * list Z) :=
  match src with
  | SColumn t col => chunk ← defined (col !! chunk_index); mret (t, chunk)
  | SExpr e => fun s =>
      match Evaluate e chunk_index (store s) with
      | None => None
      | Some (st, r) =>
          let s' := mkState st (value_maps s) (count_maps s) (tuple_maps s) in
          match r with
          | inl ex => Some (s', inl ex)
          | inr a => arr ← arrays st !! a; Some (s', inr (data_type (array_type arr), array_data arr))
          end
      end
  end.

Definition FirstPhaseAggregateChunk_ (k : AggregateKernel) (src : Source) (cols : list GroupCol) (filter_ : option Chunks)
    (tid chunk_index : nat) : StM State unit :=
  '(t, chunk) ← agg_chunk src chunk_index;
  bits ← defined (filter_chunk filter_ chunk_index);
  with_maps k tid (scan_rows (length chunk) 0 k t chunk cols bits chunk_index).

(** [for (int i = st; i < ed; i++)], with [n = ed - st]. *)
Fixpoint FirstPhaseAggregateChunks (k : AggregateKernel) (src : Source) (cols : list GroupCol) (filter_ : option Chunks)
    (tid : nat) (n i : nat) : StM State unit :=
  match n with
  | O => mret tt
  | S n' =>
      _ ← FirstPhaseAggregateChunk_ k src cols filter_ tid i;
      FirstPhaseAggregateChunks k src cols filter_ tid n' (S i)
  end.

Definition first_phase_task (k : AggregateKernel) (src : Source) (cols : list GroupCol) (filter_ : option Chunks)
    (totalThreads num_chunks : Z) (tid : nat) : StM State unit :=
  '(st, ed) ← defined (getChunkID (Z.of_nat tid) totalThreads num_chunks);
  if ed <=? st then mret tt
  else FirstPhaseAggregateChunks k src cols filter_ tid (Z.to_nat (ed - st)) (Z.to_nat st).

(** The tasks of the first phase, in the order in which they run. *)
Fixpoint run_tasks (k : AggregateKernel) (src : Source) (cols : list GroupCol) (filter_ : option Chunks)
    (totalThreads num_chunks : Z) (order : list nat) : StM State unit :=
  match order with
  | [] => mret tt
  | tid :: order' =>
      _ ← first_phase_task k src cols filter_ totalThreads num_chunks tid;
      run_tasks k src cols filter_ totalThreads num_chunks order'
  end.

(** Every task has its maps, all empty. *)
Definition InitializeLocalHashTables (k : AggregateKernel) (num_tasks : nat) (st : Store) : State :=
  mkState st (replicate num_tasks ∅) match k with MEAN => replicate num_tasks ∅ | _ => [] end (replicate num_tasks ∅).

End FirstPhase.

(** ** Second phase

    [iter i m] is the order in which the [i]-th map is iterated. *)

Section SecondPhase.
Context (iter : forall V : Type, nat -> gmap Z V -> list (Z * V)).

Fixpoint merge_values (items : list (Z * Z)) (big_map : HashMap) : option HashMap :=
  match items with
  | [] => Some big_map
  | (key, value) :: items' => big_map ← add_value key value big_map; merge_values items' big_map
  end.

Fixpoint merge_maps (i : nat) (maps : list HashMap) (big_map : HashMap) : option HashMap :=
  match maps with
  | [] => Some big_map
  | m :: maps' => big_map ← merge_values (iter Z i m) big_map; merge_maps (S i) maps' big_map
  end.

(** One item of a count map.  When the key is already in [big_count_map], the
    count is added through [it], the element of [big_value_map].  A key without
    value throws [std::exception] itself, here [RuntimeError]. *)
Definition merge_mean_item (vmap : HashMap) (key count : Z) (big : HashMap * HashMap) : option (exn + HashMap * HashMap) :=
  let '(big_value_map, big_count_map) := big in
  match vmap !! key with
  | None => Some (inl RuntimeError)
  | Some value =>
      bv ← add_value key value big_value_map;
      match big_count_map !! key with
      | None => Some (inr (bv, <[key := count]> big_count_map))
      | Some _ =>
          x ← (match big_value_map !! key with Some _ => bv !! key | None => None end);
          y ← i64_chk (x + count);
          Some (inr (<[key := y]> bv, big_count_map))
      end
  end.

Fixpoint merge_mean_items (vmap : HashMap) (items : list (Z * Z)) (big : HashMap * HashMap) : option (exn + HashMap * HashMap) :=
  match items with
  | [] => Some (inr big)
  | (key, count) :: items' =>
      r ← merge_mean_item vmap key count big;
      match r with inl e => Some (inl e) | inr big => merge_mean_items vmap items' big end
  end.

Fixpoint merge_mean_maps (i : nat) (vmaps cmaps : list HashMap) (big : HashMap * HashMap) : option (exn + HashMap * HashMap) :=
  match vmaps, cmaps with
  | [], _ => Some (inr big)
  | _ :: _, [] => Some (inl OutOfRange)
  | vmap :: vmaps', cmap :: cmaps' =>
      r ← merge_mean_items vmap (iter Z i cmap) big;
      match r with inl e => Some (inl e) | inr big => merge_mean_maps (S i) vmaps' cmaps' big end
  end.

(** [(double)value / (double)count] *)
Definition mean (value count : Z) : spec_float := SFdiv 53 1024 (double_of_Z value) (double_of_Z count).

Fixpoint mean_items (big_value_map : HashMap) (items : list (Z * Z)) (final : MeanHashMap) : exn + MeanHashMap :=
  match items with
  | [] => inr final
  | (key, count) :: items' =>
      match big_value_map !! key with
      | None => inl RuntimeError
      | Some value => mean_items big_value_map items' (<[key := mean value count]> final)
      end
  end.

Fixpoint merge_tuples (items : list (Z * (Z * Z))) (m : TupleMap) : TupleMap :=
  match items with
  | [] => m
  | (key, value) :: items' => merge_tuples items' (match m !! key with None => <[key := value]> m | Some _ => m end)
  end.

Fixpoint merge_tuple_maps (i : nat) (maps : list TupleMap) (m : TupleMap) : TupleMap :=
  match maps with
  | [] => m
  | tm :: maps' => merge_tuple_maps (S i) maps' (merge_tuples (iter (Z * Z) i tm) m)
  end.

Definition SecondPhaseAggregate (k : AggregateKernel) (s : State) : option (exn + GlobalMap * TupleMap) :=
  let tuples := merge_tuple_maps 0 (tuple_maps s) ∅ in
  match k with
  | SUM | COUNT => m ← merge_maps 0 (value_maps s) ∅; Some (inr (IntMap m, tuples))
  | MEAN =>
      r ← merge_mean_maps 0 (value_maps s) (count_maps s) (∅, ∅);
      match r with
      | inl e => Some (inl e)
      | inr (bv, bc) =>
          match mean_items bv (iter Z (length (value_maps s)) bc) ∅ with
          | inl e => Some (inl e)
          | inr m => Some (inr (MeanMap m, tuples))
          end
      end
  end.

(** ** The result *)

Definition find_deref {V} (m : gmap Z V) (key : Z) : option V := m !! key.

(** [construct_group_by_cols]: one value per group, of the row in the tuple map. *)
Fixpoint group_values {St} (col : Chunks) (tuples : list (Z * (Z * Z))) : StM St (list Cell) :=
  match tuples with
  | [] => mret []
  | (_, (chunk_id, item_index)) :: tuples' =>
      chunk ← at_ col (Z.to_nat chunk_id);
      v ← defined (chunk !! Z.to_nat item_index);
      vs ← group_values col tuples';
      mret (CInt v :: vs)
  end.

Fixpoint group_by_arrays {St} (cols : list GroupCol) (tuples : list (Z * (Z * Z))) : StM St (list Datum) :=
  match cols with
  | [] => mret []
  | c :: cols' =>
      if is_string_type (gb_type c) || is_number_type (gb_type c) then
        vs ← group_values (gb_chunks c) tuples;
        ds ← group_by_arrays cols' tuples;
        mret (mkDatum (gb_type c) vs :: ds)
      else throw LogicError
  end.

(** [create_agg_table] *)
Definition agg_array (g : GlobalMap) (tuples : list (Z * (Z * Z))) : option Datum :=
  match g with
  | IntMap m => vs ← mapM (fun t => find_deref m (fst t)) tuples; Some (mkDatum INT64 (CInt <$> vs))
  | MeanMap m => vs ← mapM (fun t => find_deref m (fst t)) tuples; Some (mkDatum DOUBLE (CDouble <$> vs))
  end.

Definition OutputSchema (group_fields : list (string * DataType)) (k : AggregateKernel) (agg_col_name : string) : list (string * DataType) :=
  group_fields ++ [(agg_col_name, match k with MEAN => DOUBLE | SUM | COUNT => INT64 end)].

Context {AS : ArrowSort}.

Definition SortResult {St} (order_by_refs : list OrderByReference) (group_by_refs : list ColumnReference)
    (groups : list Datum) (aggregates : Datum) : StM St (list Datum * Datum) :=
  sort_result (fun r => if is_desc r then Descending else Ascending) order_by_refs group_by_refs groups aggregates.

(** The columns that are inserted into the output table; the tuple map is
    iterated in the same order by every loop. *)
Definition Finish {St} (order_by_refs : list OrderByReference) (group_by_refs : list ColumnReference) (cols : list GroupCol)
    (n : nat) (g : GlobalMap) (tuples : TupleMap) : StM St (list Datum) :=
  let items := iter (Z * Z) n tuples in
  groups ← group_by_arrays cols items;
  aggregates ← defined (agg_array g items);
  '(groups, aggregates) ← SortResult order_by_refs group_by_refs groups aggregates;
  mret (groups ++ [aggregates]).

End SecondPhase.

(** ** The operator *)

Section Operator.
Context {H : StdHash} {AS : ArrowSort}.
Context (iter : forall V : Type, nat -> gmap Z V -> list (Z * V)).
Context (get_column : Z -> string -> option Chunks) (get_type : Z -> string -> DataType).
(** The addresses of the chunks of a materialised column of an expression. *)
Context (expr_columns : ColumnReference -> option (list Z)).
Context (hardware_concurrency : Z) (schedule : nat -> list nat).

Fixpoint materialize_groups (prev_result : OperatorResult) (group_by_refs : list ColumnReference) : option (list GroupCol) :=
  match group_by_refs with
  | [] => Some []
  | g :: group_by_refs' =>
      lt ← get_table (cr_table g) prev_result;
      '(_, col) ← MaterializeColumn get_column (col_name g) lt;
      cols ← materialize_groups prev_result group_by_refs';
      Some (mkGroupCol (get_type (cr_table g) (col_name g)) col :: cols)
  end.

(** The first task of [ComputeAggregates]: the aggregated column with the
    filter of its table, or the expression. *)
Definition aggregate_source (prev_result : OperatorResult) (ref : AggregateReference) : option (exn + Source * option Chunks) :=
  match expr_ref ref with
  | NullExpr =>
      lt ← get_table (cr_table (agg_col_ref ref)) prev_result;
      '(lt, col) ← MaterializeColumn get_column (col_name (agg_col_ref ref)) lt;
      Some (inr (SColumn (get_type (cr_table (agg_col_ref ref)) (col_name (agg_col_ref ref))) col, Lazy.filter lt))
  | e =>
      r ← Expr.Initialize expr_columns e;
      match r with inl ex => Some (inl ex) | inr x => Some (inr (SExpr x, None)) end
  end.

Definition source_chunks (src : Source) : Z :=
  match src with SColumn _ col => Z.of_nat (length col) | SExpr e => exp_num_chunks_ e end.

Definition ComputeAggregates (k : AggregateKernel) (src : Source) (cols : list GroupCol) (filter_ : option Chunks) (st : Store)
    : option (exn + GlobalMap * TupleMap) :=
  let num_chunks := source_chunks src in
  let num_tasks := suggestedNumTasks (mkStrategy (to_i32 hardware_concurrency) num_chunks) in
  let s := InitializeLocalHashTables k (Z.to_nat num_tasks) st in
  '(s, r) ← run_tasks k src cols filter_ (to_i32 hardware_concurrency) num_chunks (schedule (Z.to_nat num_tasks)) s;
  match r with inl e => Some (inl e) | inr _ => SecondPhaseAggregate iter k s end.

(** [HashAggregate::Execute]: the chain of [Initialize], [ComputeAggregates] and
    [Finish]; the schema and the columns of the output table. *)
Definition Execute (ref : AggregateReference) (group_by_refs : list ColumnReference) (order_by_refs : list OrderByReference)
    (prev_result : OperatorResult) (st : Store) : option (exn + list (string * DataType) * list Datum) :=
  let fields := (fun g => (col_name g, get_type (cr_table g) (col_name g))) <$> group_by_refs in
  cols ← materialize_groups prev_result group_by_refs;
  r ← aggregate_source prev_result ref;
  match r with
  | inl e => Some (inl e)
  | inr (src, filter_) =>
      r ← ComputeAggregates (kernel ref) src cols filter_ st;
      match r with
      | inl e => Some (inl e)
      | inr (g, tuples) =>
          '(_, r) ← Finish iter order_by_refs group_by_refs cols 0 g tuples tt;
          match r with
          | inl e => Some (inl e)
          | inr out => Some (inr (OutputSchema fields (kernel ref) (agg_name ref), out))
          end
      end
  end.

End Operator.

End HashAgg.

Import HashAgg.

(** ** The ranges of the tasks partition the chunks *)

Module HashAggSpec.

Section Ranges.
Context (threads n : Z) (Ht : 0 < threads) (Hn : 0 <= n) (Hmax : n + threads < 2 ^ 31).

(** Where the range of task [t] starts. *)
Definition bound (t : Z) : Z :=
  if t <? n mod threads then (n / threads + 1) * t else (n / threads + 1) * (n mod threads) + n / threads * (t - n mod threads).

Lemma bound_0 : bound 0 = 0.
Proof. unfold bound. pose proof (Z.mod_pos_bound n threads Ht). destruct (Z.ltb_spec 0 (n mod threads)); [lia |]. replace (n mod threads) with 0 by lia. lia. Qed.

Lemma bound_last : bound (Z.min n threads) = n.
Proof.
  unfold bound. pose proof (Z.mod_pos_bound n threads Ht). pose proof (Z.div_mod n threads ltac:(lia)) as E.
  destruct (Z.ltb_spec (Z.min n threads) (n mod threads)); [pose proof (Z.mod_le n threads Hn Ht); lia |].
  destruct (Z.min_spec n threads) as [[Hlt ->] | [Hge ->]]; [| nia].
  rewrite Z.mod_small, Z.div_small by lia. lia.
Qed.

Lemma bound_step t : 0 <= t -> bound (t + 1) = bound t + (if t <? n mod threads then n / threads + 1 else n / threads).
Proof. intros H. unfold bound. destruct (Z.ltb_spec (t + 1) (n mod threads)), (Z.ltb_spec t (n mod threads)); try nia. Qed.

Lemma bound_mono t u : 0 <= t <= u -> bound t <= bound u.
Proof.
  intros H. assert (forall k : nat, bound t <= bound (t + Z.of_nat k)) as Hk.
  { induction k as [|k IH]; [by rewrite Z.add_0_r |]. replace (t + Z.of_nat (S k)) with ((t + Z.of_nat k) + 1) by lia.
    rewrite bound_step by lia. pose proof (Z.div_pos n threads Hn Ht). destruct (_ <? _); lia. }
  specialize (Hk (Z.to_nat (u - t))). replace (t + Z.of_nat (Z.to_nat (u - t))) with u in Hk by lia. done.
Qed.

Lemma bound_range t : 0 <= t <= Z.min n threads -> 0 <= bound t <= n.
Proof.
  intros H. pose proof (bound_mono 0 t ltac:(lia)). pose proof (bound_mono t (Z.min n threads) ltac:(lia)).
  rewrite bound_0, bound_last in *. lia.
Qed.

Lemma ceil_div : n mod threads <> 0 -> (n + threads - 1) / threads = n / threads + 1.
Proof.
  intros H0. pose proof (Z.mod_pos_bound n threads Ht). pose proof (Z.div_mod n threads ltac:(lia)).
  symmetry. apply (Z.div_unique _ _ _ (n mod threads - 1)); lia.
Qed.

Lemma getChunkID_ok t : 0 <= t < Z.min n threads -> getChunkID t threads n = Some (bound t, bound (t + 1)).
Proof.
  intros H. unfold getChunkID. rewrite (proj2 (Z.ltb_ge t 0)), (proj2 (Z.leb_gt threads 0)), (proj2 (Z.ltb_ge n 0)), (proj2 (Z.leb_gt n t)) by lia.
  cbn [orb]. rewrite (int_chk_id (n + threads)) by (unfold is_s; change (2 ^ (32 - 1)) with (2 ^ 31); lia). cbn [mbind option_bind]. cbv zeta.
  rewrite !Z.quot_div_nonneg, Z.rem_mod_nonneg by lia.
  pose proof (bound_range t ltac:(lia)) as B1. pose proof (bound_range (t + 1) ltac:(lia)) as B2.
  pose proof (bound_mono t (t + 1) ltac:(lia)) as B3. pose proof (Z.div_pos n threads Hn Ht) as Hd. pose proof (Z.mod_pos_bound n threads Ht) as Hm.
  pose proof (Z.div_mod n threads ltac:(lia)) as Edm. pose proof (bound_step t ltac:(lia)) as Es.
  destruct (Z.ltb_spec t (n mod threads)) as [Hlt | Hge].
  - rewrite ceil_div by lia. assert (bound t = (n / threads + 1) * t) as Et by (unfold bound; by rewrite (proj2 (Z.ltb_lt _ _) Hlt)).
    assert (bound (t + 1) = (n / threads + 1) * (t + 1)) as Et1 by (rewrite bound_step, (proj2 (Z.ltb_lt _ _) Hlt), Et by lia; lia).
    rewrite <- Et, <- Et1. rewrite !int_chk_id by (unfold is_s; change (2 ^ (32 - 1)) with (2 ^ 31); lia). cbn [mbind option_bind].
    rewrite (proj2 (Z.ltb_ge (bound t) 0)), (proj2 (Z.ltb_ge n (bound (t + 1)))) by lia. done.
  - assert ((n + threads - 1) / threads * (n mod threads) = (n / threads + 1) * (n mod threads)) as ->.
    { destruct (decide (n mod threads = 0)) as [-> | H0]; [lia |]. by rewrite ceil_div. }
    assert (bound t = (n / threads + 1) * (n mod threads) + n / threads * (t - n mod threads)) as Et by (unfold bound; by rewrite (proj2 (Z.ltb_ge _ _) Hge)).
    assert (bound (t + 1) = (n / threads + 1) * (n mod threads) + n / threads * (t + 1 - n mod threads)) as Et1
      by (unfold bound; rewrite (proj2 (Z.ltb_ge (t + 1) _)); [done | lia]).
    rewrite !int_chk_id by (unfold is_s; change (2 ^ (32 - 1)) with (2 ^ 31); nia). cbn [mbind option_bind]. rewrite !int_chk_id by (unfold is_s; change (2 ^ (32 - 1)) with (2 ^ 31); nia). cbn [mbind option_bind].
    rewrite <- Et, <- Et1. rewrite (proj2 (Z.ltb_ge (bound t) 0)), (proj2 (Z.ltb_ge n (bound (t + 1)))) by lia. done.
Qed.

End Ranges.

(** ** Maps that hold sums *)

(** The sum of the values that go with a key. *)
Definition total (k : Z) (es : list (Z * Z)) : Z := zsum (snd <$> base.filter (fun e => fst e = k) es).

Definition sums (m : HashMap) (es : list (Z * Z)) : Prop :=
  forall k, m !! k = if decide (k ∈ es.*1) then Some (total k es) else None.

(** No sum of some of the values overflows. *)
Definition weight (es : list (Z * Z)) : Z := zsum (Z.abs <$> es.*2).

Lemma total_app k e1 e2 : total k (e1 ++ e2) = total k e1 + total k e2.
Proof. unfold total. by rewrite filter_app, fmap_app, zsum_app. Qed.

Lemma total_one k k' v : total k [(k', v)] = if decide (k' = k) then v else 0.
Proof. unfold total. cbn. destruct (decide (k' = k)); cbn; lia. Qed.

Lemma total_absent k es : k ∉ es.*1 -> total k es = 0.
Proof.
  induction es as [|[k' v] es IH]; [done |]. intros Hk. apply not_elem_of_cons in Hk as [Hne Hk].
  change ((k', v) :: es) with ([(k', v)] ++ es). rewrite total_app, total_one, IH, decide_False by done. done.
Qed.

Lemma weight_app e1 e2 : weight (e1 ++ e2) = weight e1 + weight e2.
Proof. unfold weight. by rewrite !fmap_app, zsum_app. Qed.

Lemma abs_weight_nonneg es : 0 <= weight es.
Proof. induction es as [|e es IH]; [done |]. unfold weight in *. cbn. lia. Qed.

Lemma total_bound k es : Z.abs (total k es) <= weight es.
Proof.
  induction es as [|[k' v] es IH]; [done |]. change ((k', v) :: es) with ([(k', v)] ++ es).
  rewrite total_app, weight_app, total_one. unfold weight at 1. cbn. destruct (decide _); lia.
Qed.

Lemma i64_chk_ok x : Z.abs x < 2 ^ 63 -> i64_chk x = Some x.
Proof. intros H. unfold i64_chk. rewrite (proj2 (Z.leb_le _ _)), (proj2 (Z.ltb_lt _ _)) by lia. done. Qed.

Lemma sums_default m es k : sums m es -> default 0 (m !! k) = total k es.
Proof. intros H. rewrite H. destruct (decide _); [done |]. by rewrite total_absent. Qed.

Lemma sums_empty : sums ∅ [].
Proof. intros k. by rewrite lookup_empty. Qed.

Lemma add_value_ok key v m : Z.abs (v + default 0 (m !! key)) < 2 ^ 63 ->
  add_value key v m = Some (<[key := v + default 0 (m !! key)]> m).
Proof.
  intros H. unfold add_value. destruct (m !! key) as [x|]; cbn [default] in *; unfold id in *.
  - by rewrite i64_chk_ok.
  - by rewrite Z.add_0_r.
Qed.

Lemma add_value_sums key v m es : sums m es -> weight (es ++ [(key, v)]) < 2 ^ 63 ->
  add_value key v m = Some (<[key := v + total key es]> m) /\ sums (<[key := v + total key es]> m) (es ++ [(key, v)]).
Proof.
  intros Hm Hw. pose proof (sums_default m es key Hm) as Ed. rewrite weight_app in Hw. unfold weight at 2 in Hw. cbn in Hw. split.
  - rewrite add_value_ok; rewrite Ed; [done |]. pose proof (total_bound key es). lia.
  - intros k. rewrite total_app, total_one, fmap_app. destruct (decide (key = k)) as [<- | Hne].
    + rewrite lookup_insert_eq, decide_True by set_solver. f_equal. lia.
    + rewrite lookup_insert_ne, Hm by done. rewrite Z.add_0_r. destruct (decide (k ∈ es.*1)), (decide (k ∈ es.*1 ++ [(key, v)].*1)) as [H|H]; try done.
      * exfalso. apply H. set_solver.
      * exfalso. apply elem_of_app in H as [H | H]; [done |]. cbn in H. set_solver.
Qed.

(** Merging a map adds its values. *)
Lemma merge_values_ok items : forall big, NoDup items.*1 ->
  (forall k v, (k, v) ∈ items -> Z.abs (v + default 0 (big !! k)) < 2 ^ 63) ->
  exists big', merge_values items big = Some big' /\
    forall k, (forall v, (k, v) ∈ items -> big' !! k = Some (v + default 0 (big !! k))) /\ (k ∉ items.*1 -> big' !! k = big !! k).
Proof.
  induction items as [|[key v] items IH]; intros big Hnd Hb; cbn [merge_values].
  { exists big. split; [done |]. intros k. split; [intros v Hv; by apply not_elem_of_nil in Hv | done]. }
  apply NoDup_cons in Hnd as [Hkey Hnd]. rewrite add_value_ok by (apply Hb; left). cbn [mbind option_bind].
  assert (forall k w, (k, w) ∈ items -> k <> key) as Hne by (intros k w Hw ->; apply Hkey; by apply (list_elem_of_fmap_2 fst) in Hw).
  destruct (IH (<[key := v + default 0 (big !! key)]> big) Hnd) as (big' & E & Hlook).
  { intros k w Hw. rewrite lookup_insert_ne by (apply not_eq_sym; by eapply Hne). apply Hb. by right. }
  exists big'. split; [done |]. intros k. destruct (Hlook k) as [H1 H2]. split.
  - intros w Hw. apply elem_of_cons in Hw as [[= -> ->] | Hw].
    + rewrite H2 by done. by rewrite lookup_insert_eq.
    + rewrite (H1 w Hw), lookup_insert_ne by (apply not_eq_sym; by eapply Hne). done.
  - intros Hk. apply not_elem_of_cons in Hk as [Hk1 Hk2]. rewrite (H2 Hk2). by rewrite lookup_insert_ne.
Qed.

Lemma iter_keys {V} (items : list (Z * V)) (m : gmap Z V) : items ≡ₚ map_to_list m ->
  NoDup items.*1 /\ (forall k v, (k, v) ∈ items <-> m !! k = Some v) /\ (forall k, k ∈ items.*1 <-> is_Some (m !! k)).
Proof.
  intros Hp. assert (forall k v, (k, v) ∈ items <-> m !! k = Some v) as Hin by (intros k v; rewrite Hp; apply elem_of_map_to_list).
  split_and!; [rewrite Hp; apply NoDup_fst_map_to_list | done |]. intros k. rewrite list_elem_of_fmap. split.
  - intros ([k' v] & -> & H). exists v. by apply Hin.
  - intros [v Hv]. exists (k, v). split; [done |]. by apply Hin.
Qed.

Lemma merge_values_sums items m1 m2 e1 e2 : sums m1 e1 -> sums m2 e2 -> items ≡ₚ map_to_list m2 -> weight (e1 ++ e2) < 2 ^ 63 ->
  exists m, merge_values items m1 = Some m /\ sums m (e1 ++ e2).
Proof.
  intros H1 H2 Hp Hw. apply iter_keys in Hp as (Hnd & Hin & Hkeys). destruct (merge_values_ok items m1 Hnd) as (m & E & Hlook).
  { intros k v Hv. apply Hin in Hv. rewrite H2 in Hv. destruct (decide _); [| done]. injection Hv as <-.
    rewrite (sums_default m1 e1), Z.add_comm, <- total_app by done. pose proof (total_bound k (e1 ++ e2)). lia. }
  exists m. split; [done |]. intros k. destruct (Hlook k) as [Ha Hb]. rewrite fmap_app, total_app.
  destruct (m2 !! k) as [v|] eqn:E2.
  - rewrite (Ha v) by (by apply Hin). rewrite (sums_default m1 e1) by done. rewrite H2 in E2. destruct (decide _) as [Hk|]; [| done].
    injection E2 as <-. rewrite decide_True by set_solver. f_equal. lia.
  - rewrite Hb by (rewrite Hkeys, E2; by intros [? ?]). rewrite H1. rewrite H2 in E2. destruct (decide (k ∈ e2.*1)) as [|Hk]; [done |].
    rewrite (total_absent k e2), Z.add_0_r by done. destruct (decide (k ∈ e1.*1)) as [Hk1 | Hk1].
    + by rewrite decide_True by set_solver.
    + by rewrite decide_False by set_solver.
Qed.

(** ** Maps that hold the position of a row *)

Definition tuples_ok (tm : TupleMap) (ts : list (Z * (Z * Z))) : Prop :=
  forall k, match tm !! k with Some p => (k, p) ∈ ts | None => k ∉ ts.*1 end.

Lemma tuples_ok_empty : tuples_ok ∅ [].
Proof. intros k. rewrite lookup_empty. apply not_elem_of_nil. Qed.

Lemma tuples_ok_snoc tm ts k p : tuples_ok tm ts -> tm !! k = None -> tuples_ok (<[k := p]> tm) (ts ++ [(k, p)]).
Proof.
  intros H Hk k'. destruct (decide (k = k')) as [<- | Hne]; [rewrite lookup_insert_eq; set_solver |].
  rewrite lookup_insert_ne by done. specialize (H k'). destruct (tm !! k'); [set_solver |]. rewrite fmap_app. set_solver.
Qed.

Lemma tuples_ok_more tm ts ts' : tuples_ok tm ts -> (forall k, k ∈ ts'.*1 -> is_Some (tm !! k)) -> tuples_ok tm (ts ++ ts').
Proof.
  intros H H' k. specialize (H k). specialize (H' k). destruct (tm !! k); [set_solver |]. rewrite fmap_app.
  intros Hk. apply elem_of_app in Hk as [Hk | Hk]; [done |]. by apply H' in Hk as [? ?].
Qed.

Lemma merge_tuples_ok items : forall tm ts, tuples_ok tm ts -> tuples_ok (merge_tuples items tm) (ts ++ items).
Proof.
  induction items as [|[k p] items IH]; intros tm ts H; cbn [merge_tuples]; [by rewrite app_nil_r |].
  replace (ts ++ (k, p) :: items) with ((ts ++ [(k, p)]) ++ items) by (by rewrite <- app_assoc). apply IH.
  destruct (tm !! k) as [q|] eqn:E; [| by apply tuples_ok_snoc]. apply tuples_ok_more; [done |].
  intros k' Hk'. cbn in Hk'. apply list_elem_of_singleton in Hk' as ->. by rewrite E.
Qed.

Lemma tuples_ok_equiv tm t1 t2 : tuples_ok tm t1 -> t1 ⊆ t2 -> (forall k, k ∈ t2.*1 -> k ∈ t1.*1) -> tuples_ok tm t2.
Proof. intros H Hs Hk k. specialize (H k). destruct (tm !! k); [by apply Hs | intros Hin; by apply H, Hk]. Qed.

Section Iteration.
Context (iter : forall V : Type, nat -> gmap Z V -> list (Z * V)) (iter_perm : forall V i (m : gmap Z V), iter V i m ≡ₚ map_to_list m).

Lemma merge_maps_sums maps ess : Forall2 sums maps ess -> forall i m0 e0, sums m0 e0 -> weight (e0 ++ concat ess) < 2 ^ 63 ->
  exists m, merge_maps iter i maps m0 = Some m /\ sums m (e0 ++ concat ess).
Proof.
  induction 1 as [|m es maps ess Hm _ IH]; intros i m0 e0 H0 Hw; cbn [merge_maps concat] in *; [exists m0; by rewrite app_nil_r |].
  rewrite app_assoc in Hw |- *. pose proof (abs_weight_nonneg (concat ess)). rewrite weight_app in Hw.
  destruct (merge_values_sums (iter Z i m) m0 m e0 es) as (m1 & -> & Hm1); [done | done | apply iter_perm | lia |]. cbn [mbind option_bind].
  apply IH; [done |]. rewrite weight_app. lia.
Qed.

Lemma merge_tuple_maps_ok tms tss : Forall2 tuples_ok tms tss -> forall i tm0 t0, tuples_ok tm0 t0 ->
  tuples_ok (merge_tuple_maps iter i tms tm0) (t0 ++ concat tss).
Proof.
  induction 1 as [|tm ts tms tss Htm _ IH]; intros i tm0 t0 H0; cbn [merge_tuple_maps concat]; [by rewrite app_nil_r |].
  rewrite app_assoc. apply IH. pose proof (iter_keys _ _ (iter_perm _ i tm)) as (_ & Hin & Hkeys).
  eapply tuples_ok_equiv; [by apply merge_tuples_ok | |].
  - intros [k p] Hkp. apply elem_of_app in Hkp as [Hkp | Hkp]; [set_solver |]. apply Hin in Hkp. specialize (Htm k). rewrite Hkp in Htm. set_solver.
  - intros k. rewrite !fmap_app, !elem_of_app. intros [Hk | Hk]; [by left |]. right. apply Hkeys. specialize (Htm k).
    destruct (tm !! k); [done | done].
Qed.

End Iteration.

(** ** First phase *)

(** A selected row: the hash of its group, its position and its value. *)
Record Entry := mkEntry { e_key : Z; e_pos : Z * Z; e_val : Z }.

Definition values (es : list Entry) : list (Z * Z) := (fun e => (e_key e, e_val e)) <$> es.
Definition ones (es : list Entry) : list (Z * Z) := (fun e => (e_key e, 1)) <$> es.
Definition positions (es : list Entry) : list (Z * (Z * Z)) := (fun e => (e_key e, e_pos e)) <$> es.

(** No sum or count of the entries overflows. *)
Definition small (es : list Entry) : Prop := weight (values es) < 2 ^ 63 /\ Z.of_nat (length es) < 2 ^ 63.

Lemma weight_ones es : weight (ones es) = Z.of_nat (length es).
Proof. induction es as [|e es IH]; [done |]. unfold weight, ones in *. cbn [fmap list_fmap length zsum snd]. rewrite IH. lia. Qed.

Lemma small_app_l e1 e2 : small (e1 ++ e2) -> small e1.
Proof.
  unfold small, values. rewrite fmap_app, weight_app, length_app. intros [H1 H2].
  pose proof (abs_weight_nonneg ((fun e => (e_key e, e_val e)) <$> e2)). lia.
Qed.

Record maps_hold (k : AggregateKernel) (m : Maps) (es : list Entry) : Prop := {
  mh_values : sums (value_map m) (values es);
  mh_counts : k = MEAN -> sums (count_map m) (ones es);
  mh_tuples : tuples_ok (tuple_map m) (positions es)
}.

Lemma update_maps_ok k m es key c i v : maps_hold k m es -> (k = COUNT -> v = 1) -> small (es ++ [mkEntry key (c, i) v]) ->
  exists m', (forall w, (k <> COUNT -> w = v) -> update_maps k key w m = Some m') /\
    maps_hold k (update_tuples key c i m') (es ++ [mkEntry key (c, i) v]).
Proof.
  intros [Hv Hc Ht] HC [Hw Hl]. unfold values in Hw. rewrite fmap_app in Hw. cbn in Hw.
  destruct (add_value_sums key v (value_map m) (values es) Hv Hw) as [Ev Sv]. set (vm := <[key := _]> (value_map m)) in *.
  set (cm := match k with MEAN => <[key := 1 + total key (ones es)]> (count_map m) | _ => count_map m end).
  exists (mkMaps vm cm (tuple_map m)). split.
  - intros w Hwv. destruct k; cbn [update_maps].
    + rewrite Hwv, Ev by done. done.
    + rewrite HC in Ev by done. rewrite Ev. done.
    + rewrite (Hwv ltac:(done)). specialize (Hc eq_refl). pose proof (sums_default _ _ key Hv) as Dv. pose proof (sums_default _ _ key Hc) as Dc.
      assert (Z.abs (v + total key (values es)) < 2 ^ 63) as B1.
      { pose proof (total_bound key (values es ++ [(key, v)])) as B. rewrite total_app, total_one, decide_True in B by done. fold (values es) in Hw. lia. }
      assert (Z.abs (1 + total key (ones es)) < 2 ^ 63) as B2.
      { pose proof (total_bound key (ones es ++ [(key, 1)])) as B. rewrite total_app, total_one, decide_True, weight_app, weight_ones in B by done.
        unfold weight in B. cbn in B. rewrite length_app in Hl. cbn in Hl. lia. }
      unfold cm, vm. rewrite <- Dv, <- Dc in *.
      destruct (value_map m !! key) as [x|] eqn:Ex.
      * assert (is_Some (count_map m !! key)) as [y Ey].
        { rewrite Hv in Ex. rewrite Hc. destruct (decide (key ∈ (values es).*1)) as [H|]; [| done]. rewrite decide_True; [done |].
          unfold values, ones in *. rewrite <- list_fmap_compose in *. exact H. }
        rewrite Ey in *. cbn [mbind option_bind default] in *. unfold id in *. rewrite !i64_chk_ok by done. done.
      * assert (count_map m !! key = None) as ->.
        { rewrite Hv in Ex. rewrite Hc. destruct (decide (key ∈ (values es).*1)) as [|H]; [done |]. rewrite decide_False; [done |].
          unfold values, ones in *. rewrite <- list_fmap_compose in *. exact H. }
        cbn [default]. rewrite Z.add_0_r. done.
  - unfold update_tuples. cbn [tuple_map value_map count_map].
    assert (k = MEAN -> sums cm (ones (es ++ [mkEntry key (c, i) v]))) as Sc.
    { intros ->. unfold ones. rewrite fmap_app. apply add_value_sums; [by apply Hc |]. fold (ones es). rewrite weight_app, weight_ones.
      rewrite length_app in Hl. unfold weight. cbn in Hl |- *. lia. }
    destruct (tuple_map m !! key) as [q|] eqn:Eq; split; cbn [value_map count_map tuple_map]; try done.
    1, 3: unfold values; by rewrite fmap_app.
    + unfold positions. rewrite fmap_app. apply tuples_ok_more; [done |]. intros k' Hk'. cbn in Hk'. apply list_elem_of_singleton in Hk' as ->. by rewrite Eq.
    + unfold positions. rewrite fmap_app. by apply tuples_ok_snoc.
Qed.

Section Scan.
Context {H : StdHash} (k : AggregateKernel) (cols : list GroupCol).

(** The hash of a group. *)
Definition hash_group (ts : list DataType) (g : list Z) : Z := foldl (fun key tv => HashCombine key (std_hash (fst tv) (snd tv))) 0 (zip ts g).

(** The GROUP BY values of a row. *)
Definition group_at (c i : nat) : list Z := (fun g => default 0 (chunk ← gb_chunks g !! c; chunk !! i)) <$> cols.

Definition group_types : list DataType := gb_type <$> cols.

Definition row_value (vals : list Z) (i : nat) : Z := match k with COUNT => 1 | _ => nth i vals 0 end.

Definition entry_at (vals : list Z) (c i : nat) : Entry :=
  mkEntry (hash_group group_types (group_at c i)) (Z.of_nat c, Z.of_nat i) (row_value vals i).

Definition selected (bits : option (list Z)) (i n : nat) : list nat := base.filter (fun r => JoinSpec.bit_of bits (Z.of_nat r) = true) (seq i n).

Definition chunk_entries (bits : option (list Z)) (vals : list Z) (c : nat) : list Entry := entry_at vals c <$> selected bits 0 (length vals).

(** The GROUP BY columns have the rows of chunk [c]. *)
Definition groups_cover (c n : nat) : Prop :=
  Forall (fun g => hashable (gb_type g) = true /\ exists chunk, gb_chunks g !! c = Some chunk /\ (n <= length chunk)%nat) cols.

(** Sums and means are of 64-bit integers. *)
Definition type_ok (t : DataType) : Prop := k = COUNT \/ t = INT64.

Lemma group_key_ok {St} (s : St) c n i : groups_cover c n -> (i < n)%nat ->
  group_key cols c i 0 s = Some (s, inr (hash_group group_types (group_at c i))).
Proof.
  unfold groups_cover, hash_group, group_types, group_at. intros HF Hi.
  enough (forall key, group_key cols c i key s = Some (s, inr (foldl (fun key tv => HashCombine key (std_hash (fst tv) (snd tv))) key
    (zip (gb_type <$> cols) ((fun g => default 0 (chunk ← gb_chunks g !! c; chunk !! i)) <$> cols))))) by done.
  induction HF as [|g cols' [Hh (chunk & Hc & Hl)] _ IH]; intros key; [done |]. cbn [group_key fmap list_fmap zip foldl].
  erewrite bind_defined by exact Hc. rewrite Hh. destruct (lookup_lt_is_Some_2 chunk i) as [v Hv]; [lia |].
  erewrite bind_defined by exact Hv. rewrite IH. rewrite Hc. cbn [mbind option_bind default]. rewrite Hv. done.
Qed.

Lemma agg_item_value_ok t vals i : type_ok t -> (i < length vals)%nat ->
  exists w, agg_item_value k t vals i = Some w /\ (k <> COUNT -> w = row_value vals i).
Proof.
  unfold agg_item_value, row_value, type_ok. intros [-> | ->] Hi; [destruct t; eexists; split; (reflexivity || done) |].
  destruct (lookup_lt_is_Some_2 vals i Hi) as [v Hv]. rewrite (nth_lookup_Some _ _ _ _ Hv), Hv. destruct k; eexists; done.
Qed.

Lemma scan_group_rows_ok t vals bits c : type_ok t -> groups_cover c (length vals) ->
  match bits with None => True | Some b => JoinSpec.bits_cover vals b end ->
  forall n i m es, (i + n = length vals)%nat -> maps_hold k m es -> small (es ++ (entry_at vals c <$> selected bits i n)) ->
  exists m', scan_rows n i k t vals cols bits c m = Some (m', inr tt) /\ maps_hold k m' (es ++ (entry_at vals c <$> selected bits i n)).
Proof.
  intros Ht Hg Hb. induction n as [|n IH]; intros i m es Hn Hm Hs; [exists m; by rewrite app_nil_r |].
  cbn [scan_rows]. rewrite (bind_defined _ (JoinSpec.bit_of bits (Z.of_nat i))) by (apply JoinSpec.passes_ok with vals; [lia | done]).
  unfold selected in *. cbn [seq] in Hs |- *. rewrite filter_cons in Hs |- *. destruct (JoinSpec.bit_of bits (Z.of_nat i)) eqn:Eb.
  - rewrite decide_True in Hs |- * by done. rewrite fmap_cons in Hs |- *.
    change (entry_at vals c i :: ?l) with ([entry_at vals c i] ++ l) in *. rewrite app_assoc in Hs |- *.
    destruct (agg_item_value_ok t vals i) as (w & Ew & Hw); [done | lia |].
    destruct (update_maps_ok k m es (hash_group group_types (group_at c i)) (Z.of_nat c) (Z.of_nat i) (row_value vals i)) as (m1 & E1 & Hm1);
      [done | by unfold row_value; intros -> | by eapply small_app_l |].
    destruct (IH (S i) (update_tuples (hash_group group_types (group_at c i)) (Z.of_nat c) (Z.of_nat i) m1) (es ++ [entry_at vals c i]))
      as (m' & E' & Hm'); [lia | exact Hm1 | exact Hs |].
    exists m'. split; [| done]. erewrite bind_val; [exact E' |]. erewrite bind_val by (apply (group_key_ok m c (length vals) i Hg); lia).
    erewrite bind_defined by exact Ew. mstep. erewrite bind_defined by (apply E1, Hw). done.
  - rewrite decide_False in Hs |- * by done. apply (IH (S i) m es); [lia | done | done].
Qed.

End Scan.

(** The chunks of a source have these values, in every state of the store that
    keeps the arrays of [s0]. *)
Definition source_ok (src : Source) (t : DataType) (vals : nat -> list Z) (n : nat) (s0 : Store) : Prop :=
  forall s c, store_ok (store s) -> frame s0 (store s) -> (c < n)%nat ->
    exists st, agg_chunk src c s = Some (mkState st (value_maps s) (count_maps s) (tuple_maps s), inr (t, vals c)) /\ store_ok st /\ frame s0 st.

Lemma source_column_ok t col s0 : source_ok (SColumn t col) t (fun c => nth c col []) (length col) s0.
Proof.
  intros [st vm cm tm] c Hs Hf Hc. destruct (lookup_lt_is_Some_2 col c Hc) as [v Hv]. exists st. split_and!; try done.
  cbn [agg_chunk]. erewrite bind_defined by exact Hv. by rewrite (nth_lookup_Some _ _ _ _ Hv).
Qed.

Lemma source_expr_ok columns e t vals n s0 : safe e -> (forall c, (c < n)%nat -> denote columns c (arrays s0) e = Some (mkCType true 64, vals c)) ->
  t = INT64 -> source_ok (SExpr (mkExpression (postfix columns e) (max_chunks columns e))) t vals n s0.
Proof.
  intros HS HD -> [st vm cm tm] c Hs Hf Hc. pose proof (denote_frame columns c s0 st e _ Hf (HD c Hc)) as D.
  destruct (eval_items_ok columns c e HS st [] _ _ Hs D) as (s' & a & E & Hs' & F & A & _). exists s'. split_and!; [| done | by eapply store_frame_trans].
  cbn [agg_chunk store]. unfold Evaluate. cbn [postfix_expr_]. erewrite bind_val by exact E. cbn [mret StM_ret chunk value_maps count_maps tuple_maps].
  rewrite A. done.
Qed.

Lemma small_concat_elem Es i es : Es !! i = Some es -> small (concat Es) -> small es.
Proof.
  intros Hi. unfold small. intros [Hw Hl]. revert i Hi Hw Hl. induction Es as [|x Es IH]; intros [|i] Hi Hw Hl; [done | done | |]; cbn [concat] in *;
    unfold values in Hw; rewrite fmap_app, weight_app in Hw; rewrite length_app in Hl; fold (values x) (values (concat Es)) in Hw.
  - injection Hi as <-. pose proof (abs_weight_nonneg (values (concat Es))). lia.
  - pose proof (abs_weight_nonneg (values x)). apply (IH i); [done | lia | lia].
Qed.

Section Phase1.
Context {H : StdHash} (k : AggregateKernel) (cols : list GroupCol) (f : option Chunks).
Context (src : Source) (t : DataType) (vals : nat -> list Z) (n : nat) (s0 : Store).
Context (Hsrc : source_ok src t vals n s0) (Htype : type_ok k t).

Definition bits_at (c : nat) : option (list Z) := f ≫= fun chunks => chunks !! c.

(** The columns and the filter agree with the aggregated values. *)
Definition shape_ok (c : nat) : Prop :=
  groups_cover cols c (length (vals c)) /\
  match f with None => True | Some chunks => exists b, chunks !! c = Some b /\ JoinSpec.bits_cover (vals c) b end.

Context (Hshape : forall c, (c < n)%nat -> shape_ok c).

Definition entries (c : nat) : list Entry := chunk_entries k cols (bits_at c) (vals c) c.

Record state_holds (s : State) (Es : list (list Entry)) : Prop := {
  sh_store : store_ok (store s) /\ frame s0 (store s);
  sh_values : Forall2 sums (value_maps s) (values <$> Es);
  sh_counts : k = MEAN -> Forall2 sums (count_maps s) (ones <$> Es);
  sh_tuples : Forall2 tuples_ok (tuple_maps s) (positions <$> Es)
}.

Lemma first_phase_chunk_ok s Es tid es c : state_holds s Es -> Es !! tid = Some es -> (c < n)%nat -> small (es ++ entries c) ->
  exists s', FirstPhaseAggregateChunk_ k src cols f tid c s = Some (s', inr tt) /\ state_holds s' (<[tid := es ++ entries c]> Es).
Proof.
  intros [[Hs Hf] Hv Hc Ht] He Hcn Hsm. destruct (Hsrc s c Hs Hf Hcn) as (st & E & Hst & Hfr). destruct (Hshape c Hcn) as [Hg Hb].
  assert ((values <$> Es) !! tid = Some (values es)) as Lv by (by rewrite list_lookup_fmap, He).
  assert ((ones <$> Es) !! tid = Some (ones es)) as Lc by (by rewrite list_lookup_fmap, He).
  assert ((positions <$> Es) !! tid = Some (positions es)) as Lt by (by rewrite list_lookup_fmap, He).
  destruct (Forall2_lookup_r _ _ _ _ _ Hv Lv) as (vm & Evm & Svm). destruct (Forall2_lookup_r _ _ _ _ _ Ht Lt) as (tm & Etm & Stm).
  assert (exists cm, (match k with MEAN => at_ (count_maps s) tid | _ => mret ∅ end : StM State HashMap) (mkState st (value_maps s) (count_maps s) (tuple_maps s))
      = Some (mkState st (value_maps s) (count_maps s) (tuple_maps s), inr cm) /\ (k = MEAN -> sums cm (ones es))) as (cm & Ecm & Scm).
  { destruct k; [by exists ∅ | by exists ∅ |]. destruct (Forall2_lookup_r _ _ _ _ _ (Hc eq_refl) Lc) as (cm & Ecm & Scm).
    exists cm. unfold at_. rewrite Ecm. done. }
  unfold FirstPhaseAggregateChunk_. erewrite bind_val by exact E. cbv beta iota.
  rewrite (bind_defined _ (bits_at c)).
  2: { unfold filter_chunk, bits_at. destruct f as [chunks|]; [| done]. destruct Hb as (b & Eb & _). cbn [mbind option_bind]. by rewrite Eb. }
  destruct (scan_group_rows_ok k cols t (vals c) (bits_at c) c Htype Hg) with (n := length (vals c)) (i := 0%nat) (m := mkMaps vm cm tm) (es := es)
    as (m' & Em & [Mv Mc Mt]); [| done | done | exact Hsm |].
  { unfold bits_at. destruct f as [chunks|]; [| done]. destruct Hb as (b & Eb & Hb). cbn [mbind option_bind]. by rewrite Eb. }
  eexists. split.
  - unfold with_maps. mstep. cbn [count_maps value_maps tuple_maps]. erewrite bind_val by exact Ecm.
    unfold at_. rewrite Evm. erewrite bind_val by reflexivity. rewrite Etm. erewrite bind_val by reflexivity.
    erewrite bind_defined by exact Em. cbv beta iota. mstep. reflexivity.
  - split; cbn [store value_maps count_maps tuple_maps]; rewrite ?list_fmap_insert.
    + done.
    + by apply Forall2_insert.
    + intros Ek. rewrite Ek. apply Forall2_insert; [by apply Hc | by apply Mc].
    + by apply Forall2_insert.
Qed.

Lemma first_phase_chunks_ok tid : forall j i s Es es, state_holds s Es -> Es !! tid = Some es -> (i + j <= n)%nat -> small (es ++ concat (entries <$> seq i j)) ->
  exists s', FirstPhaseAggregateChunks k src cols f tid j i s = Some (s', inr tt) /\ state_holds s' (<[tid := es ++ concat (entries <$> seq i j)]> Es).
Proof.
  induction j as [|j IH]; intros i s Es es HS He Hij Hsm; cbn [FirstPhaseAggregateChunks seq fmap list_fmap concat] in *.
  { exists s. rewrite app_nil_r, list_insert_id by done. done. }
  rewrite app_assoc in Hsm |- *. destruct (first_phase_chunk_ok s Es tid es i HS He) as (s1 & E1 & HS1); [lia | by eapply small_app_l |].
  destruct (IH (S i) s1 (<[tid := es ++ entries i]> Es) (es ++ entries i)) as (s' & E' & HS'); [done | | lia | done |].
  { apply list_lookup_insert_eq. by eapply lookup_lt_Some. }
  exists s'. split; [by erewrite bind_val by exact E1 |]. by rewrite list_insert_insert_eq in HS'.
Qed.

Context (threads : Z) (Hth : 0 < threads) (Hmax : Z.of_nat n + threads < 2 ^ 31).

Definition first_chunk (tid : nat) : nat := Z.to_nat (bound threads (Z.of_nat n) (Z.of_nat tid)).

(** The entries of task [tid]. *)
Definition task_entries (tid : nat) : list Entry :=
  concat (entries <$> seq (first_chunk tid) (first_chunk (S tid) - first_chunk tid)).

Definition num_tasks : nat := Z.to_nat (Z.min (Z.of_nat n) threads).

Lemma first_chunk_le tid : (tid < num_tasks)%nat -> (first_chunk tid <= first_chunk (S tid) <= n)%nat.
Proof.
  unfold first_chunk, num_tasks. intros Ht. pose proof (bound_mono threads (Z.of_nat n) Hth ltac:(lia) (Z.of_nat tid) (Z.of_nat (S tid)) ltac:(lia)).
  pose proof (bound_range threads (Z.of_nat n) Hth ltac:(lia) (Z.of_nat (S tid)) ltac:(lia)).
  pose proof (bound_range threads (Z.of_nat n) Hth ltac:(lia) (Z.of_nat tid) ltac:(lia)). lia.
Qed.

(** All tasks together have the entries of all chunks. *)
Lemma task_entries_concat : concat (task_entries <$> seq 0 num_tasks) = concat (entries <$> seq 0 n).
Proof.
  assert (forall j, (j <= num_tasks)%nat -> concat (task_entries <$> seq 0 j) = concat (entries <$> seq 0 (first_chunk j))) as HJ.
  { induction j as [|j IH]; intros Hj.
    - unfold first_chunk. rewrite bound_0 by lia. done.
    - rewrite seq_S, fmap_app, concat_app, IH by lia. cbn [fmap list_fmap concat]. rewrite app_nil_r, Nat.add_0_l. unfold task_entries.
      pose proof (first_chunk_le j ltac:(lia)).
      replace (first_chunk (S j)) with (first_chunk j + (first_chunk (S j) - first_chunk j))%nat at 2 by lia.
      rewrite seq_app, fmap_app, concat_app. done. }
  rewrite HJ by done. unfold first_chunk, num_tasks. rewrite Z2Nat.id by lia. rewrite bound_last by lia. by rewrite Nat2Z.id.
Qed.

Context (Hsmall : small (concat (entries <$> seq 0 n))).

Lemma first_phase_task_ok tid s Es : state_holds s Es -> Es !! tid = Some [] -> (tid < num_tasks)%nat ->
  exists s', first_phase_task k src cols f threads (Z.of_nat n) tid s = Some (s', inr tt) /\ state_holds s' (<[tid := task_entries tid]> Es).
Proof.
  intros HS He Ht. pose proof (first_chunk_le tid Ht) as Hle. unfold first_phase_task, num_tasks in *.
  rewrite (bind_defined _ (bound threads (Z.of_nat n) (Z.of_nat tid), bound threads (Z.of_nat n) (Z.of_nat tid + 1))) by (apply getChunkID_ok; lia).
  cbv beta iota. pose proof (bound_range threads (Z.of_nat n) Hth ltac:(lia) (Z.of_nat tid) ltac:(lia)) as B1.
  pose proof (bound_range threads (Z.of_nat n) Hth ltac:(lia) (Z.of_nat tid + 1) ltac:(lia)) as B2.
  assert (first_chunk (S tid) = Z.to_nat (bound threads (Z.of_nat n) (Z.of_nat tid + 1))) as ES by (unfold first_chunk; do 2 f_equal; lia).
  assert (Z.to_nat (bound threads (Z.of_nat n) (Z.of_nat tid + 1) - bound threads (Z.of_nat n) (Z.of_nat tid)) = (first_chunk (S tid) - first_chunk tid)%nat) as En
    by (rewrite ES; unfold first_chunk; lia).
  destruct (Z.leb_spec (bound threads (Z.of_nat n) (Z.of_nat tid + 1)) (bound threads (Z.of_nat n) (Z.of_nat tid))) as [Hge | Hlt].
  - exists s. split; [done |]. unfold task_entries. replace (first_chunk (S tid) - first_chunk tid)%nat with 0%nat by lia. by rewrite list_insert_id.
  - rewrite En. change (Z.to_nat (bound threads (Z.of_nat n) (Z.of_nat tid))) with (first_chunk tid). unfold task_entries.
    apply (first_phase_chunks_ok tid _ _ s Es [] HS He); [lia |]. apply (small_concat_elem (task_entries <$> seq 0 num_tasks) tid).
    + rewrite list_lookup_fmap, lookup_seq_lt by (unfold num_tasks; lia). done.
    + by rewrite task_entries_concat.
Qed.

(** Whatever the order of the tasks, every task has aggregated its chunks. *)
Lemma run_tasks_ok : forall order (d : nat -> bool) s, NoDup order -> Forall (fun x => (x < num_tasks)%nat) order -> Forall (fun x => d x = false) order ->
  state_holds s ((fun x => if d x then task_entries x else []) <$> seq 0 num_tasks) ->
  exists s', run_tasks k src cols f threads (Z.of_nat n) order s = Some (s', inr tt) /\
    state_holds s' ((fun x => if d x || bool_decide (x ∈ order) then task_entries x else []) <$> seq 0 num_tasks).
Proof.
  induction order as [|tid order IH]; intros d s Hnd Hb Hd HS; cbn [run_tasks].
  { exists s. split; [done |]. rewrite (list_fmap_ext _ (fun x => if d x then task_entries x else [])); [done |].
    intros i x _. rewrite (bool_decide_eq_false_2 (x ∈ [])) by apply not_elem_of_nil. by rewrite orb_false_r. }
  apply NoDup_cons in Hnd as [Hni Hnd]. apply Forall_cons in Hb as [Hb1 Hb]. apply Forall_cons in Hd as [Hd1 Hd].
  destruct (first_phase_task_ok tid s _ HS) as (s1 & E1 & HS1); [| done |].
  { rewrite list_lookup_fmap, lookup_seq_lt by done. cbn. by rewrite Hd1. }
  rewrite JoinSpec.insert_seq in HS1 by done.
  destruct (IH (fun x => (x =? tid)%nat || d x) s1 Hnd Hb) as (s' & E' & HS').
  - apply Forall_forall. intros x Hx. rewrite (proj1 (Forall_forall _ _) Hd x Hx), orb_false_r. apply Nat.eqb_neq. by intros ->.
  - rewrite (list_fmap_ext _ (fun x => if (x =? tid)%nat then task_entries tid else if d x then task_entries x else [])); [done |].
    intros i x _. by destruct (Nat.eqb_spec x tid) as [-> |].
  - exists s'. split; [by erewrite bind_val by exact E1 |].
    rewrite (list_fmap_ext _ (fun x => if (x =? tid)%nat || d x || bool_decide (x ∈ order) then task_entries x else [])); [done |].
    intros i x _. destruct (Nat.eqb_spec x tid) as [-> | Hne].
    + rewrite (bool_decide_eq_true_2 (tid ∈ tid :: order)) by left. by rewrite orb_true_r.
    + cbn [orb]. rewrite (bool_decide_ext (x ∈ tid :: order) (x ∈ order)); [done | set_solver].
Qed.

Lemma first_phase_ok order : order ≡ₚ seq 0 num_tasks -> store_ok s0 ->
  exists s, run_tasks k src cols f threads (Z.of_nat n) order (InitializeLocalHashTables k num_tasks s0) = Some (s, inr tt) /\
    state_holds s (task_entries <$> seq 0 num_tasks).
Proof.
  intros Hp H0. destruct (run_tasks_ok order (fun _ => false) (InitializeLocalHashTables k num_tasks s0)) as (s & E & HS).
  - rewrite Hp. apply NoDup_seq.
  - rewrite Hp. apply Forall_forall. intros x Hx. apply elem_of_seq in Hx. lia.
  - by apply Forall_true.
  - assert (forall {A B} (R : A -> B -> Prop) (x : A) (g : list Entry -> B), R x (g []) ->
      Forall2 R (replicate num_tasks x) (g <$> ((fun _ => []) <$> seq 0 num_tasks))) as HR.
    { intros A B R x g Hx. rewrite <- list_fmap_compose. apply Forall2_same_length_lookup. rewrite length_replicate, length_fmap, length_seq.
      split; [done |]. intros i a b Ha Hb. apply lookup_replicate in Ha as [-> _]. apply list_lookup_fmap_Some in Hb as (y & -> & _). done. }
    split; cbn [store value_maps count_maps tuple_maps InitializeLocalHashTables].
    + split; [done | apply store_frame_refl].
    + apply HR, sums_empty.
    + intros ->. apply HR, sums_empty.
    + apply HR, tuples_ok_empty.
  - exists s. split; [done |]. rewrite (list_fmap_ext _ task_entries) in HS; [done |]. intros i x Hx. cbn [orb].
    rewrite bool_decide_eq_true_2; [done |]. rewrite Hp. by apply list_elem_of_lookup_2 in Hx.
Qed.

End Phase1.

(** ** Second phase *)

Section Phase2.
Context (iter : forall V : Type, nat -> gmap Z V -> list (Z * V)) (iter_perm : forall V i (m : gmap Z V), iter V i m ≡ₚ map_to_list m).

(** Into empty maps: values and counts are copied. *)
Lemma merge_mean_items_ok vmap items : forall bv bc, NoDup items.*1 ->
  (forall k c, (k, c) ∈ items -> bv !! k = None /\ bc !! k = None /\ is_Some (vmap !! k)) ->
  exists bv' bc', merge_mean_items vmap items (bv, bc) = Some (inr (bv', bc')) /\
    forall k, (forall c, (k, c) ∈ items -> bv' !! k = vmap !! k /\ bc' !! k = Some c) /\ (k ∉ items.*1 -> bv' !! k = bv !! k /\ bc' !! k = bc !! k).
Proof.
  induction items as [|[key c] items IH]; intros bv bc Hnd Hb; cbn [merge_mean_items].
  { exists bv, bc. split; [done |]. intros k. split; [intros v Hv; by apply not_elem_of_nil in Hv | done]. }
  apply NoDup_cons in Hnd as [Hkey Hnd]. destruct (Hb key c) as (B1 & B2 & [v Hv]); [left |].
  unfold merge_mean_item. rewrite Hv. unfold add_value. rewrite B1. cbn [mbind option_bind]. rewrite B2.
  assert (forall k w, (k, w) ∈ items -> k <> key) as Hne by (intros k w Hw ->; apply Hkey; by apply (list_elem_of_fmap_2 fst) in Hw).
  destruct (IH (<[key := v]> bv) (<[key := c]> bc) Hnd) as (bv' & bc' & E & Hlook).
  { intros k w Hw. pose proof (Hne k w Hw). rewrite !lookup_insert_ne by done. apply (Hb k w). by right. }
  exists bv', bc'. split; [done |]. intros k. destruct (Hlook k) as [H1 H2]. split.
  - intros w Hw. apply elem_of_cons in Hw as [[= -> ->] | Hw]; [| by apply H1]. destruct (H2 Hkey) as [-> ->]. by rewrite !lookup_insert_eq.
  - intros Hk. apply not_elem_of_cons in Hk as [Hk1 Hk2]. destruct (H2 Hk2) as [-> ->]. by rewrite !lookup_insert_ne.
Qed.

Lemma mean_items_ok bv items : forall fm, NoDup items.*1 -> (forall k c, (k, c) ∈ items -> is_Some (bv !! k)) ->
  exists fm', mean_items bv items fm = inr fm' /\ forall k,
    (forall c, (k, c) ∈ items -> fm' !! k = (fun v => mean v c) <$> bv !! k) /\ (k ∉ items.*1 -> fm' !! k = fm !! k).
Proof.
  induction items as [|[key c] items IH]; intros fm Hnd Hb; cbn [mean_items].
  { exists fm. split; [done |]. intros k. split; [intros v Hv; by apply not_elem_of_nil in Hv | done]. }
  apply NoDup_cons in Hnd as [Hkey Hnd]. destruct (Hb key c) as [v Hv]; [left |]. rewrite Hv.
  destruct (IH (<[key := mean v c]> fm) Hnd) as (fm' & E & Hlook); [intros k w Hw; apply (Hb k w); by right |].
  exists fm'. split; [done |]. intros k. destruct (Hlook k) as [H1 H2]. split.
  - intros w Hw. apply elem_of_cons in Hw as [[= -> ->] | Hw]; [| by apply H1]. rewrite (H2 Hkey), lookup_insert_eq, Hv. done.
  - intros Hk. apply not_elem_of_cons in Hk as [Hk1 Hk2]. rewrite (H2 Hk2). by rewrite lookup_insert_ne.
Qed.

(** The value of a key in the global map. *)
Definition global_cell (g : GlobalMap) (key : Z) : option Cell :=
  match g with IntMap m => CInt <$> m !! key | MeanMap m => CDouble <$> m !! key end.

Definition expected (k : AggregateKernel) (es : list Entry) (key : Z) : Cell :=
  match k with
  | MEAN => CDouble (mean (total key (values es)) (total key (ones es)))
  | _ => CInt (total key (values es))
  end.

Definition agg_type (k : AggregateKernel) : DataType := match k with MEAN => DOUBLE | _ => INT64 end.

Definition global_ok (k : AggregateKernel) (g : GlobalMap) (es : list Entry) : Prop :=
  match g with IntMap _ => k <> MEAN | MeanMap _ => k = MEAN end /\
  forall key, key ∈ (values es).*1 -> global_cell g key = Some (expected k es key).

Lemma keys_values_ones es : (values es).*1 = (ones es).*1.
Proof. unfold values, ones. by rewrite <- !list_fmap_compose. Qed.

(** The keys of different tasks are different. *)
Fixpoint separate (Es : list (list Entry)) : Prop :=
  match Es with
  | [] => True
  | es :: Es' => (forall key, key ∈ (values es).*1 -> key ∉ (values (concat Es')).*1) /\ separate Es'
  end.

Lemma sums_disjoint m m1 m2 e1 e2 : sums m1 e1 -> sums m2 e2 -> (forall k, k ∈ e1.*1 -> k ∉ e2.*1) ->
  (forall k, m !! k = match m2 !! k with Some v => Some v | None => m1 !! k end) -> sums m (e1 ++ e2).
Proof.
  intros H1 H2 Hd Hm k. rewrite Hm, H1, H2, fmap_app, total_app. specialize (Hd k).
  destruct (decide (k ∈ e2.*1)) as [K2 | K2].
  - rewrite decide_True by set_solver. rewrite (total_absent k e1) by naive_solver. done.
  - rewrite (total_absent k e2), Z.add_0_r by done. destruct (decide (k ∈ e1.*1)) as [K1 | K1].
    + by rewrite decide_True by set_solver.
    + by rewrite decide_False by set_solver.
Qed.

Lemma merge_mean_maps_ok : forall Es vms cms, Forall2 sums vms (values <$> Es) -> Forall2 sums cms (ones <$> Es) -> separate Es ->
  forall i bv bc e0, sums bv (values e0) -> sums bc (ones e0) -> (forall key, key ∈ (values e0).*1 -> key ∉ (values (concat Es)).*1) ->
  exists bv' bc', merge_mean_maps iter i vms cms (bv, bc) = Some (inr (bv', bc')) /\
    sums bv' (values (e0 ++ concat Es)) /\ sums bc' (ones (e0 ++ concat Es)).
Proof.
  induction Es as [|es Es IH]; intros vms cms Hv Hc Hsep i bv bc e0 H0v H0c Hd; cbn [fmap list_fmap concat separate] in *.
  { apply Forall2_nil_inv_r in Hv as ->. exists bv, bc. by rewrite app_nil_r. }
  apply Forall2_cons_inv_r in Hv as (vm & vms' & Hvm & Hv & ->). apply Forall2_cons_inv_r in Hc as (cm & cms' & Hcm & Hc & ->).
  destruct Hsep as [Hse Hsep]. cbn [merge_mean_maps]. pose proof (iter_keys _ _ (iter_perm Z i cm)) as (Hnd & Hin & Hkeys).
  assert (forall k, k ∈ (values e0).*1 -> k ∉ (values es).*1) as Hd0.
  { intros k Hk Hk'. apply (Hd k Hk). unfold values. rewrite fmap_app, fmap_app. apply elem_of_app. by left. }
  destruct (merge_mean_items_ok vm (iter Z i cm) bv bc Hnd) as (bv1 & bc1 & -> & Hlook).
  { intros k c Hkc. apply Hin in Hkc. rewrite Hcm, <- keys_values_ones in Hkc. destruct (decide _) as [Hk|]; [| done].
    assert (k ∉ (values e0).*1) as Hk0 by (intros Hk0; by apply (Hd0 k)).
    rewrite H0v, H0c, Hvm, <- keys_values_ones, !decide_False, decide_True by done. done. }
  cbn [mbind option_bind].
  assert (sums bv1 (values (e0 ++ es)) /\ sums bc1 (ones (e0 ++ es))) as [S1 S2].
  { unfold values, ones. rewrite !fmap_app. fold (values e0) (values es) (ones e0) (ones es). split.
    - apply (sums_disjoint _ bv vm); try done. intros k. destruct (Hlook k) as [H1 H2]. destruct (vm !! k) as [v|] eqn:Ek.
      + rewrite Hvm in Ek. destruct (decide _) as [Hk|]; [| done]. apply (H1 (total k (ones es))), Hin.
        by rewrite Hcm, <- keys_values_ones, decide_True.
      + apply H2. rewrite Hkeys, Hcm, <- keys_values_ones. rewrite Hvm in Ek. destruct (decide _); [done |]. by intros [? ?].
    - apply (sums_disjoint _ bc cm); try done; [by rewrite <- !keys_values_ones |]. intros k. destruct (Hlook k) as [H1 H2]. destruct (cm !! k) as [c|] eqn:Ek.
      + apply H1. by apply Hin.
      + apply H2. rewrite Hkeys, Ek. by intros [? ?]. }
  rewrite app_assoc. apply IH; try done. intros k. unfold values. rewrite fmap_app, fmap_app. fold (values e0) (values es).
  intros Hk Hk'. apply elem_of_app in Hk as [Hk | Hk]; [| by apply (Hse k)]. apply (Hd k Hk). unfold values. rewrite fmap_app, fmap_app. apply elem_of_app. by right.
Qed.

(** The means of the values that the maps hold. *)
Lemma means_ok i bv bc es : sums bv (values es) -> sums bc (ones es) ->
  exists m, mean_items bv (iter Z i bc) ∅ = inr m /\ global_ok MEAN (MeanMap m) es.
Proof.
  intros Hv Hc. pose proof (iter_keys _ _ (iter_perm Z i bc)) as (Hnd & Hin & Hkeys).
  destruct (mean_items_ok bv (iter Z i bc) ∅ Hnd) as (m & E & Hm).
  { intros k c Hkc. apply Hin in Hkc. rewrite Hc in Hkc. rewrite Hv, keys_values_ones. by destruct (decide _). }
  exists m. split; [done |]. split; [done |]. intros key Hkey. cbn [global_cell expected].
  rewrite (proj1 (Hm key) (total key (ones es))) by (apply Hin; rewrite Hc, decide_True; [done | by rewrite <- keys_values_ones]).
  by rewrite Hv, decide_True.
Qed.

Lemma second_phase_ok k s s0 Es : state_holds k s0 s Es -> (k = MEAN -> separate Es) -> small (concat Es) ->
  exists g tm, SecondPhaseAggregate iter k s = Some (inr (g, tm)) /\ global_ok k g (concat Es) /\ tuples_ok tm (positions (concat Es)).
Proof.
  intros [_ Hv Hc Ht] Hk [Hw _].
  assert (concat (values <$> Es) = values (concat Es)) as Ev by (unfold values; by rewrite concat_map).
  assert (tuples_ok (merge_tuple_maps iter 0 (tuple_maps s) ∅) (positions (concat Es))) as HT.
  { replace (positions (concat Es)) with ([] ++ concat (positions <$> Es)) by (unfold positions; by rewrite concat_map).
    apply merge_tuple_maps_ok; [exact iter_perm | exact Ht | apply tuples_ok_empty]. }
  assert (k <> MEAN -> exists m, merge_maps iter 0 (value_maps s) ∅ = Some m /\ sums m (values (concat Es))) as HM.
  { intros _. rewrite <- Ev. apply (merge_maps_sums iter iter_perm _ _ Hv 0 ∅ [] sums_empty). cbn [app]. by rewrite Ev. }
  destruct k.
  1, 2: destruct HM as (m & Em & Hm); [done |]; exists (IntMap m), (merge_tuple_maps iter 0 (tuple_maps s) ∅);
    split_and!; [cbn [SecondPhaseAggregate]; by rewrite Em | split; [done |]; intros key Hkey; cbn [global_cell expected]; by rewrite Hm, decide_True | done].
  destruct (merge_mean_maps_ok Es _ _ Hv (Hc eq_refl) (Hk eq_refl) 0 ∅ ∅ [] sums_empty sums_empty) as (bv & bc & E & Sv & Sc); [by intros key Hkey; apply not_elem_of_nil in Hkey |].
  destruct (means_ok (length (value_maps s)) bv bc (concat Es) Sv Sc) as (m & Em & Hm).
  exists (MeanMap m), (merge_tuple_maps iter 0 (tuple_maps s) ∅). split_and!; [| done | done].
  cbn [SecondPhaseAggregate]. rewrite E. cbn [mbind option_bind]. by rewrite Em.
Qed.

End Phase2.

(** ** The result *)

(** The aggregate of the rows (group and value) of a group. *)
Definition aggregate_of (k : AggregateKernel) (rows : list (list Z * Z)) (g : list Z) : Cell :=
  let vs := snd <$> base.filter (fun r => fst r = g) rows in
  match k with
  | SUM => CInt (zsum vs)
  | COUNT => CInt (Z.of_nat (length vs))
  | MEAN => CDouble (mean (zsum vs) (Z.of_nat (length vs)))
  end.

Section Result.
Context {H : StdHash} (k : AggregateKernel) (cols : list GroupCol) (f : option Chunks) (vals : nat -> list Z) (n : nat).

(** The positions of the selected rows. *)
Definition selected_positions : list (nat * nat) :=
  concat ((fun c => (fun i => (c, i)) <$> selected (bits_at f c) 0 (length (vals c))) <$> seq 0 n).

(** The groups and values of the selected rows. *)
Definition selected_rows : list (list Z * Z) := (fun ci => (group_at cols (fst ci) (snd ci), nth (snd ci) (vals (fst ci)) 0)) <$> selected_positions.

Definition no_collision : Prop :=
  forall g g', g ∈ selected_rows.*1 -> g' ∈ selected_rows.*1 -> hash_group (group_types cols) g = hash_group (group_types cols) g' -> g = g'.

Definition all_entries : list Entry := concat (entries k cols f vals <$> seq 0 n).

Definition entry (ci : nat * nat) : Entry := entry_at k cols (vals (fst ci)) (fst ci) (snd ci).

Lemma all_entries_eq : all_entries = entry <$> selected_positions.
Proof.
  unfold all_entries, selected_positions, entries, chunk_entries. generalize (seq 0 n) as l. induction l as [|c l IH]; [done |].
  cbn [fmap list_fmap concat]. rewrite fmap_app, <- list_fmap_compose. f_equal. exact IH.
Qed.

Lemma selected_bound c i : (c, i) ∈ selected_positions -> (c < n)%nat /\ (i < length (vals c))%nat.
Proof.
  unfold selected_positions. intros Hin. apply list_elem_of_In, in_concat in Hin as (l & Hin & Hl). apply list_elem_of_In in Hin, Hl. apply list_elem_of_fmap in Hin as (c' & -> & Hc').
  apply list_elem_of_fmap in Hl as (i' & [= <- <-] & Hi'). unfold selected in Hi'. apply list_elem_of_filter in Hi' as [_ Hi'].
  apply elem_of_seq in Hi', Hc'. lia.
Qed.

Lemma group_in c i : (c, i) ∈ selected_positions -> group_at cols c i ∈ selected_rows.*1.
Proof. intros Hin. unfold selected_rows. rewrite <- list_fmap_compose. apply list_elem_of_fmap. by exists (c, i). Qed.

Lemma small_entries : zsum (Z.abs <$> selected_rows.*2) < 2 ^ 63 -> Z.of_nat (length selected_rows) < 2 ^ 63 -> small all_entries.
Proof.
  unfold small. rewrite all_entries_eq. unfold selected_rows, values. rewrite <- !list_fmap_compose, !length_fmap. intros Hw Hl. split; [| done].
  unfold weight. rewrite <- !list_fmap_compose. unfold entry, entry_at, row_value. generalize dependent selected_positions. intros l. destruct k.
  1, 3: intros Hw _; exact Hw.
  intros _ Hl. enough (zsum (Z.abs ∘ (snd ∘ ((fun e => (e_key e, e_val e)) ∘ (fun ci => mkEntry 0 (0, 0) 1))) <$> l) = Z.of_nat (length l)) as E by (rewrite <- E in Hl; exact Hl).
  clear Hl. induction l as [|x l IH]; [done |]. cbn [fmap list_fmap zsum length]. rewrite IH. cbn. lia.
Qed.

Lemma expected_ok g : no_collision -> g ∈ selected_rows.*1 -> expected k all_entries (hash_group (group_types cols) g) = aggregate_of k selected_rows g.
Proof.
  intros Hnc Hg. set (hg := hash_group (group_types cols) g).
  assert (forall (rv : nat * nat -> Z) l, l ⊆ selected_positions ->
    total hg ((fun ci => (hash_group (group_types cols) (group_at cols (fst ci) (snd ci)), rv ci)) <$> l) =
    zsum (rv <$> base.filter (fun ci => group_at cols (fst ci) (snd ci) = g) l)) as HT.
  { intros rv. induction l as [|[c i] l IH]; intros Hsub; [done |]. rewrite fmap_cons, filter_cons.
    change (?x :: ?y) with ([x] ++ y) at 1. rewrite total_app, total_one, IH by set_solver. cbn [fst snd]. destruct (decide (group_at cols c i = g)) as [E | E].
    - rewrite decide_True by (by rewrite E). rewrite fmap_cons. done.
    - rewrite decide_False; [done |]. intros Eh. apply E, Hnc; [apply group_in; set_solver | done | done]. }
  assert (forall h, zsum ((fun _ => 1) <$> base.filter (fun ci => group_at cols (fst ci) (snd ci) = g) h) =
    Z.of_nat (length (base.filter (fun ci : nat * nat => group_at cols (fst ci) (snd ci) = g) h))) as H1.
  { intros h. induction (base.filter _ h) as [|x l IH]; [done |]. cbn [fmap list_fmap zsum length]. rewrite IH. lia. }
  assert (snd <$> base.filter (fun r => fst r = g) selected_rows =
    (fun ci => nth (snd ci) (vals (fst ci)) 0) <$> base.filter (fun ci => group_at cols (fst ci) (snd ci) = g) selected_positions) as Ef.
  { unfold selected_rows. clear. induction selected_positions as [|ci l IH]; [done |]. rewrite fmap_cons, !filter_cons. cbn [fst snd].
    destruct (decide _); [rewrite !fmap_cons; f_equal; exact IH | exact IH]. }
  unfold expected, aggregate_of. rewrite Ef, length_fmap, all_entries_eq. unfold values, ones, entry, entry_at, row_value.
  rewrite <- !list_fmap_compose. destruct k; unfold compose; cbn [e_key e_val].
  - rewrite (HT (fun ci => nth (snd ci) (vals (fst ci)) 0)) by done. done.
  - rewrite (HT (fun _ => 1)) by done. by rewrite H1.
  - rewrite (HT (fun ci => nth (snd ci) (vals (fst ci)) 0)), (HT (fun _ => 1)) by done. by rewrite H1.
Qed.

(** ** Reading the groups back *)

Context (tm : TupleMap) (items : list (Z * (Z * Z))).
Context (Htm : tuples_ok tm (positions all_entries)) (Hitems : items ≡ₚ map_to_list tm).

(** The groups of the result, in the order of the iteration. *)
Definition found_groups : list (list Z) := (fun x => group_at cols (Z.to_nat (fst (snd x))) (Z.to_nat (snd (snd x)))) <$> items.

Lemma item_position x : x ∈ items -> exists c i, (c, i) ∈ selected_positions /\ x = (hash_group (group_types cols) (group_at cols c i), (Z.of_nat c, Z.of_nat i)).
Proof.
  destruct x as [key p]. intros Hx. apply (iter_keys _ _ Hitems) in Hx. specialize (Htm key). rewrite Hx in Htm.
  unfold positions in Htm. rewrite all_entries_eq, <- list_fmap_compose in Htm. apply list_elem_of_fmap in Htm as ([c i] & E & Hin).
  exists c, i. split; [done |]. exact E.
Qed.

Lemma found_hash : hash_group (group_types cols) <$> found_groups = items.*1.
Proof.
  unfold found_groups. rewrite <- list_fmap_compose. apply list_fmap_ext. intros j x Hx. apply list_elem_of_lookup_2, item_position in Hx as (c & i & _ & ->).
  cbn [compose fst snd]. by rewrite !Nat2Z.id.
Qed.

Lemma found_groups_ok : no_collision -> NoDup found_groups /\ (forall g, g ∈ found_groups <-> g ∈ selected_rows.*1).
Proof.
  intros Hnc. split.
  - apply (NoDup_fmap_1 (hash_group (group_types cols))). rewrite found_hash. apply (iter_keys _ _ Hitems).
  - intros g. split.
    + unfold found_groups. intros Hg. apply list_elem_of_fmap in Hg as (x & -> & Hx). apply item_position in Hx as (c & i & Hin & ->).
      cbn [fst snd]. rewrite !Nat2Z.id. by apply group_in.
    + intros Hg. assert (hash_group (group_types cols) g ∈ items.*1) as Hk.
      { apply (iter_keys _ _ Hitems). specialize (Htm (hash_group (group_types cols) g)). destruct (tm !! _); [done |]. exfalso. apply Htm.
        unfold positions. rewrite all_entries_eq, <- !list_fmap_compose. unfold selected_rows in Hg. rewrite <- list_fmap_compose in Hg.
        apply list_elem_of_fmap in Hg as (ci & -> & Hci). apply list_elem_of_fmap. by exists ci. }
      rewrite <- found_hash in Hk. apply list_elem_of_fmap in Hk as (g' & Eg & Hg').
      enough (g = g') as -> by done. apply Hnc; [done | | done]. unfold found_groups in Hg'. apply list_elem_of_fmap in Hg' as (x & -> & Hx).
      apply item_position in Hx as (c & i & Hin & ->). cbn [fst snd]. rewrite !Nat2Z.id. by apply group_in.
Qed.

(** The GROUP BY columns and the aggregate column of a list of groups. *)
Definition group_columns (gs : list (list Z)) : list Datum :=
  imap (fun j c => mkDatum (gb_type c) ((fun g => CInt (nth j g 0)) <$> gs)) cols.

Definition aggregate_column (gs : list (list Z)) : Datum := mkDatum (agg_type k) (aggregate_of k selected_rows <$> gs).

Definition cell_of (c : GroupCol) (x : Z * (Z * Z)) : Z :=
  default 0 (chunk ← gb_chunks c !! Z.to_nat (fst (snd x)); chunk !! Z.to_nat (snd (snd x))).

Context (Hcover : forall c, (c < n)%nat -> groups_cover cols c (length (vals c))).
Context (Hprintable : Forall (fun c => is_string_type (gb_type c) || is_number_type (gb_type c) = true) cols).

Lemma group_values_ok {St} (s : St) col : col ∈ cols -> forall xs, xs ⊆ items ->
  group_values (gb_chunks col) xs s = Some (s, inr ((fun x => CInt (cell_of col x)) <$> xs)).
Proof.
  intros Hcol. induction xs as [|x xs IH]; intros Hsub; [done |]. destruct (item_position x) as (c & i & Hin & ->); [set_solver |].
  destruct (selected_bound c i Hin) as [Hc Hi]. pose proof (proj1 (Forall_forall _ _) (Hcover c Hc) col Hcol) as (_ & chunk & Ec & Hl).
  destruct (lookup_lt_is_Some_2 chunk i) as [v Hv]; [lia |]. cbn [group_values]. unfold at_. rewrite !Nat2Z.id, Ec.
  erewrite bind_val by reflexivity. erewrite bind_defined by exact Hv. erewrite bind_val by (apply IH; set_solver).
  unfold mret, StM_ret. rewrite fmap_cons. unfold cell_of. cbn [fst snd]. rewrite !Nat2Z.id, Ec. cbn [mbind option_bind]. by rewrite Hv.
Qed.

Lemma group_by_arrays_ok {St} (s : St) : group_by_arrays cols items s = Some (s, inr (group_columns found_groups)).
Proof.
  assert (forall cs, cs ⊆ cols -> group_by_arrays cs items s = Some (s, inr ((fun c => mkDatum (gb_type c) ((fun x => CInt (cell_of c x)) <$> items)) <$> cs))) as HA.
  { induction cs as [|c cs IH]; intros Hsub; [done |]. cbn [group_by_arrays].
    rewrite (proj1 (Forall_forall _ _) Hprintable c) by set_solver. erewrite bind_val by (apply group_values_ok; [set_solver | done]).
    erewrite bind_val by (apply IH; set_solver). done. }
  rewrite HA by done. do 3 f_equal. unfold group_columns, found_groups. apply list_eq. intros j. rewrite list_lookup_fmap, list_lookup_imap.
  destruct (cols !! j) as [c|] eqn:Ec; [| done]. cbn. do 2 f_equal. rewrite <- list_fmap_compose. apply list_fmap_ext. intros m x _. cbn [compose].
  f_equal. symmetry. apply nth_lookup_Some. unfold group_at. rewrite list_lookup_fmap, Ec. done.
Qed.

Lemma agg_array_ok g : global_ok k g all_entries -> no_collision -> agg_array g items = Some (aggregate_column found_groups).
Proof.
  intros [Hk Hg] Hnc. destruct (found_groups_ok Hnc) as [_ Hfound].
  assert (Forall (fun x => global_cell g (fst x) = Some (expected k all_entries (fst x))) items) as HF.
  { apply Forall_forall. intros x Hx. apply Hg. apply item_position in Hx as (c & i & Hin & ->). cbn [fst]. unfold values.
    rewrite all_entries_eq, <- !list_fmap_compose. apply list_elem_of_fmap. by exists (c, i). }
  assert ((fun x => expected k all_entries (fst x)) <$> items = aggregate_of k selected_rows <$> found_groups) as Ecells.
  { transitivity ((fun g => expected k all_entries (hash_group (group_types cols) g)) <$> found_groups).
    - transitivity (expected k all_entries <$> items.*1); [by rewrite <- list_fmap_compose |]. rewrite <- found_hash. by rewrite <- list_fmap_compose.
    - apply list_fmap_ext. intros j g' Hg'. apply list_elem_of_lookup_2, Hfound in Hg'. by apply expected_ok. }
  unfold aggregate_column. rewrite <- Ecells.
  assert (forall {V} (m : gmap Z V) (w : V -> Cell), (forall key, global_cell g key = w <$> m !! key) -> forall xs : list (Z * (Z * Z)),
    Forall (fun x => global_cell g (fst x) = Some (expected k all_entries (fst x))) xs ->
    exists vs, mapM (fun t : Z * (Z * Z) => find_deref m (fst t)) xs = Some vs /\ w <$> vs = (fun x => expected k all_entries (fst x)) <$> xs) as HM.
  { intros V m w Hw. induction 1 as [|x xs Hx _ IH]; [by exists [] |]. destruct IH as (vs & Evs & Ew). rewrite Hw in Hx.
    destruct (m !! fst x) as [v|] eqn:Ev; [| done]. injection Hx as Hx. exists (v :: vs). unfold mapM, find_deref in *. rewrite Ev. cbn [mbind option_bind].
    rewrite Evs. cbn. split; [done |]. by rewrite Hx, Ew. }
  destruct g as [m | m]; cbn [agg_array].
  - destruct (HM _ m CInt ltac:(done) items HF) as (vs & -> & Ew). cbn [mbind option_bind]. rewrite Ew. unfold agg_type. by destruct k.
  - destruct (HM _ m CDouble ltac:(done) items HF) as (vs & -> & Ew). cbn [mbind option_bind]. rewrite Ew, Hk. done.
Qed.

End Result.

Lemma permuted_map {A} (h : A -> Cell) t (gs gs' : list A) p d' : permuted p (mkDatum t (h <$> gs)) d' -> picks gs p gs' -> d' = mkDatum t (h <$> gs').
Proof.
  intros [Et Hd] Hp. destruct d' as [t' cs]. cbn in *. subst t'. f_equal. apply list_eq_same_length with (length cs).
  { rewrite length_fmap. pose proof (Forall2_length _ _ _ Hp). pose proof (Forall2_length _ _ _ Hd). lia. }
  { done. }
  intros i x y _ Hx Hy. destruct (Forall2_lookup_r _ _ _ _ _ Hd Hx) as (j & Hj & Ex). apply list_lookup_fmap_Some in Hy as (g & -> & Hg).
  pose proof (Forall2_lookup_lr _ _ _ _ _ _ Hp Hj Hg) as Eg. rewrite list_lookup_fmap, Eg in Ex. by injection Ex.
Qed.

Lemma materialize_groups_length get_column get_type prev refs cols : materialize_groups get_column get_type prev refs = Some cols -> length cols = length refs.
Proof.
  revert cols. induction refs as [|g refs IH]; intros cols E; cbn [materialize_groups] in E; [by injection E as <- |].
  destruct (get_table _ _) as [lt|]; [| done]. cbn [mbind option_bind] in E. destruct (MaterializeColumn _ _ _) as [[? col]|]; [| done]. cbn [mbind option_bind] in E.
  destruct (materialize_groups _ _ _ _) as [cols'|]; [| done]. injection E as <-. cbn. by rewrite (IH cols').
Qed.

Section Whole.
Context {H : StdHash} {AS : ArrowSort}.
Context (iter : forall V : Type, nat -> gmap Z V -> list (Z * V)) (iter_perm : forall V i (m : gmap Z V), iter V i m ≡ₚ map_to_list m).
Context (get_column : Z -> string -> option Chunks) (get_type : Z -> string -> DataType) (expr_columns : ColumnReference -> option (list Z)).
Context (hardware_concurrency : Z) (schedule : nat -> list nat).

(** What the operator reads: [n] chunks of values [vals] of type [t], GROUP BY
    columns and a filter of the same shape. *)
Record input_ok (k : AggregateKernel) (src : Source) (t : DataType) (vals : nat -> list Z) (n : nat) (cols : list GroupCol)
    (f : option Chunks) (st : Store) : Prop := {
  in_chunks : source_chunks src = Z.of_nat n;
  in_source : source_ok src t vals n st;
  in_store : store_ok st;
  in_type : type_ok k t;
  in_shape : forall c, (c < n)%nat -> shape_ok cols f vals c;
  in_printable : Forall (fun c => is_string_type (gb_type c) || is_number_type (gb_type c) = true) cols;
  in_no_collision : no_collision cols f vals n;
  in_values : zsum (Z.abs <$> (selected_rows cols f vals n).*2) < 2 ^ 63;
  in_rows : Z.of_nat (length (selected_rows cols f vals n)) < 2 ^ 63;
  in_mean : k = MEAN -> separate (task_entries k cols f vals n hardware_concurrency <$> seq 0 (num_tasks n hardware_concurrency))
}.

Definition order_of (r : OrderByReference) : SortOrder := if is_desc r then Descending else Ascending.

(** The output has one row per group of the selected rows, with its aggregate,
    in the order of the ORDER BY clause. *)
Definition aggregated (k : AggregateKernel) (cols : list GroupCol) (f : option Chunks) (vals : nat -> list Z) (n : nat)
    (group_by_refs : list ColumnReference) (order_by_refs : list OrderByReference) (out : list Datum) : Prop :=
  exists gs keys, NoDup gs /\ (forall g, g ∈ gs <-> g ∈ (selected_rows cols f vals n).*1) /\
    out = group_columns cols gs ++ [aggregate_column k cols f vals n gs] /\
    Forall2 (key_column group_by_refs (group_columns cols gs) (aggregate_column k cols f vals n gs)) order_by_refs keys /\
    (forall a b, (a < b < length gs)%nat -> lex_le (zip (order_of <$> order_by_refs) keys) a b).

Definition clause_ok (order_by_refs : list OrderByReference) (group_by_refs : list ColumnReference) : Prop :=
  order_ok order_by_refs group_by_refs /\ Forall (fun o => cr_table (col_ref_ o) = nullptr \/ col_ref_ o ∈ group_by_refs) order_by_refs.

Lemma clause_keys order_by_refs group_by_refs cols (gs : list (list Z)) aggregates : clause_ok order_by_refs group_by_refs -> length cols = length group_by_refs ->
  Forall (fun c => is_string_type (gb_type c) || is_number_type (gb_type c) = true) cols -> sortable aggregates ->
  exists keys, Forall2 (key_column group_by_refs (group_columns cols gs) aggregates) order_by_refs keys /\ Forall sortable keys.
Proof.
  intros [_ HF] Hl HP Ha. induction HF as [|o os Ho _ (keys & IH1 & IH2)]; [by exists [] |].
  assert (exists d, key_column group_by_refs (group_columns cols gs) aggregates o d /\ sortable d) as (d & Hd & Hs).
  { unfold key_column. destruct (Z.eqb_spec (cr_table (col_ref_ o)) nullptr) as [| Hne]; [by exists aggregates |].
    destruct Ho as [| Hin]; [done |]. apply list_elem_of_lookup in Hin as [j Hj]. destruct (lookup_lt_is_Some_2 cols j) as [c Hc]; [rewrite Hl; by eapply lookup_lt_Some |].
    eexists. split; [exists j; split; [done |]; unfold group_columns; rewrite list_lookup_imap, Hc; reflexivity |].
    unfold sortable. cbn [dtype]. rewrite orb_comm. exact (proj1 (Forall_lookup _ _) HP j c Hc). }
  exists (d :: keys). split; by constructor.
Qed.

(** Sorting the columns of a list of groups sorts the groups. *)
Lemma sort_groups_ok {St} (s : St) order_of order_by_refs group_by_refs k cols f vals n (gs : list (list Z)) :
  clause_ok order_by_refs group_by_refs -> length cols = length group_by_refs ->
  Forall (fun c => is_string_type (gb_type c) || is_number_type (gb_type c) = true) cols ->
  exists gs' keys, sort_result order_of order_by_refs group_by_refs (group_columns cols gs) (aggregate_column k cols f vals n gs) s =
      Some (s, inr (group_columns cols gs', aggregate_column k cols f vals n gs')) /\ gs' ≡ₚ gs /\
    Forall2 (key_column group_by_refs (group_columns cols gs') (aggregate_column k cols f vals n gs')) order_by_refs keys /\
    (forall a b, (a < b < length gs')%nat -> lex_le (zip (order_of <$> order_by_refs) keys) a b).
Proof.
  intros Hclause Hlc Hprint.
  destruct (clause_keys order_by_refs group_by_refs cols gs (aggregate_column k cols f vals n gs) Hclause) as (keys & HK & HS); [done | done | by destruct k |].
  destruct (sort_result_ok s order_of order_by_refs group_by_refs (group_columns cols gs) (aggregate_column k cols f vals n gs) keys (length gs))
    as (p & groups' & ag' & keys' & Esort & Hp & Hag & Hgr & HK' & Hlex); [by apply Hclause | done | done | |].
  { constructor; [cbn; by rewrite length_fmap |]. apply Forall_lookup. intros j d Hd. unfold group_columns in Hd. rewrite list_lookup_imap in Hd.
    destruct (cols !! j); [| done]. injection Hd as <-. cbn. by rewrite length_fmap. }
  destruct (picks_total gs p) as [gs' Hgs']; [by apply perm_seq_bound |]. pose proof (picks_perm gs p gs' Hp Hgs') as Hperm.
  assert (ag' = aggregate_column k cols f vals n gs') as -> by (by eapply permuted_map).
  assert (groups' = group_columns cols gs') as ->.
  { apply list_eq_Forall2. eapply Forall2_impl; [| intros x y; exact id]. apply Forall2_same_length_lookup. pose proof (Forall2_length _ _ _ Hgr) as Hl.
    unfold group_columns in *. rewrite length_imap in *. split; [done |]. intros j d d' Hd Hd'.
    destruct (Forall2_lookup_r _ _ _ _ _ Hgr Hd) as (d0 & Hd0 & Hperm0). rewrite list_lookup_imap in Hd0, Hd'. destruct (cols !! j) as [c|]; [| done].
    injection Hd0 as <-. injection Hd' as <-. by eapply permuted_map. }
  exists gs', keys'. split_and!; [done | done | done |]. intros a b Hab. apply Hlex. rewrite <- (Permutation_length Hperm). done.
Qed.

Lemma hash_aggregate_ok ref group_by_refs order_by_refs prev_result st cols src f t vals n :
  materialize_groups get_column get_type prev_result group_by_refs = Some cols ->
  aggregate_source get_column get_type expr_columns prev_result ref = Some (inr (src, f)) ->
  input_ok (kernel ref) src t vals n cols f st -> clause_ok order_by_refs group_by_refs ->
  0 < hardware_concurrency -> Z.of_nat n + hardware_concurrency < 2 ^ 31 -> (forall m, schedule m ≡ₚ seq 0 m) ->
  exists out, Execute iter get_column get_type expr_columns hardware_concurrency schedule ref group_by_refs order_by_refs prev_result st =
      Some (inr (((fun g => (col_name g, get_type (cr_table g) (col_name g))) <$> group_by_refs) ++ [(agg_name ref, agg_type (kernel ref))], out)) /\
    aggregated (kernel ref) cols f vals n group_by_refs order_by_refs out.
Proof.
  intros Eg Es [Hn Hsrc Hst Htype Hshape Hprint Hnc Hv Hr Hmean] Hclause Hhw Hmax Hsched. set (k := kernel ref) in *.
  assert (to_i32 hardware_concurrency = hardware_concurrency) as Ehw by (apply wraps_id; [lia |]; unfold is_s; change (2 ^ (32 - 1)) with (2 ^ 31); lia).
  pose proof (small_entries k cols f vals n Hv Hr) as Hsmall.
  destruct (first_phase_ok k cols f src t vals n st Hsrc Htype Hshape hardware_concurrency Hhw Hmax Hsmall (schedule (num_tasks n hardware_concurrency)))
    as (s & Erun & Hhold); [apply Hsched | done |].
  destruct (second_phase_ok iter iter_perm k s st _ Hhold Hmean) as (g & tm & E2 & Hg & Htm).
  { by rewrite task_entries_concat. }
  rewrite task_entries_concat in Hg, Htm by done. fold (all_entries k cols f vals n) in Hg, Htm.
  assert (forall c, (c < n)%nat -> groups_cover cols c (length (vals c))) as Hcover by (intros c Hc; by apply Hshape).
  set (items := iter (Z * Z) 0 tm). pose proof (iter_perm (Z * Z) 0 tm : items ≡ₚ map_to_list tm) as Hitems.
  destruct (found_groups_ok k cols f vals n tm items Htm Hitems Hnc) as [Hnd Hfound]. set (gs := found_groups cols items) in *.
  destruct (sort_groups_ok tt order_of order_by_refs group_by_refs k cols f vals n gs Hclause) as (gs' & keys' & Esort & Hperm & HK' & Hlex);
    [by eapply materialize_groups_length | done |].
  exists (group_columns cols gs' ++ [aggregate_column k cols f vals n gs']). split.
  - unfold Execute. rewrite Eg. cbn [mbind option_bind]. rewrite Es. cbn [mbind option_bind]. unfold ComputeAggregates. rewrite Hn, Ehw.
    replace (Z.to_nat (suggestedNumTasks _)) with (num_tasks n hardware_concurrency)
      by (unfold num_tasks, suggestedNumTasks; cbn [chunks partitions]; destruct (Z.ltb_spec (Z.of_nat n) hardware_concurrency); f_equal; lia).
    fold k. rewrite Erun. cbn [mbind option_bind]. rewrite E2. cbn [mbind option_bind]. unfold Finish. fold items.
    unfold mbind at 1, option_bind at 1. erewrite bind_val by (eapply group_by_arrays_ok; done).
    erewrite bind_defined by (eapply agg_array_ok; done). unfold SortResult. fold order_of. fold gs. erewrite bind_val by exact Esort. cbn.
    unfold OutputSchema. by destruct k.
  - exists gs', keys'. split_and!; [by rewrite Hperm | intros g'; by rewrite Hperm | done | done |].
    done.
Qed.

End Whole.

End HashAggSpec.

Import HashAggSpec.


(** One GROUP BY column does not collide when [std::hash] does not. *)
Lemma single_column_no_collision {H : StdHash} c f vals n :
  (forall v w, [v] ∈ (selected_rows [c] f vals n).*1 -> [w] ∈ (selected_rows [c] f vals n).*1 -> std_hash (gb_type c) v = std_hash (gb_type c) w -> v = w) ->
  no_collision [c] f vals n.
Proof.
  intros Hinj g g' Hg Hg' Heq.
  assert (forall g, g ∈ (selected_rows [c] f vals n).*1 -> exists v, g = [v]) as Hone.
  { intros g0 H0. unfold selected_rows in H0. rewrite <- list_fmap_compose in H0. apply list_elem_of_fmap in H0 as (ci & -> & _). by eexists. }
  destruct (Hone g Hg) as [v ->], (Hone g' Hg') as [w ->]. f_equal. apply Hinj; [done | done |].
  unfold hash_group, group_types in Heq. cbn in Heq. unfold HashCombine, shlu in Heq. rewrite !Z.lxor_0_l in Heq. change (wrapu 64 (Z.shiftl 0 6)) with 0 in Heq.
  change (Z.shiftr 0 2) with 0 in Heq. rewrite !Z.add_0_r in Heq. unfold wrapu in Heq.
  pose proof (std_hash_range (gb_type c) v) as R1. pose proof (std_hash_range (gb_type c) w) as R2. unfold is_u in *.
  set (x := std_hash (gb_type c) v) in *. set (y := std_hash (gb_type c) w) in *.
  assert ((x - y) mod 2 ^ 64 = 0) as Hm.
  { replace (x - y) with ((x + 2654435769) - (y + 2654435769)) by lia. rewrite Zminus_mod, Heq, Z.sub_diag. done. }
  apply Z.mod_divide in Hm as [q Hq]; [| lia]. nia.
Qed.

(** ** Examples *)

Module HashAggDemo.
Import MergeSortKernels.

(** [std::hash] of an integer is the integer itself (libstdc++). *)
#[export] Program Instance IdentityHash : StdHash := {| std_hash := fun _ v => to_u64 v |}.
Next Obligation. intros. by apply wrapu_is_u. Qed.

Definition by_key (V : Type) (_ : nat) (m : gmap Z V) : list (Z * V) := map_to_list m.
Definition in_turn (m : nat) : list nat := seq 0 m.

(** Table 1: columns g = 1, 2 | 1, 3 and v = 10, 20 | 30, 40; row 3 (group 3) is not selected. *)
Definition demo_column (t : Z) (c : string) : option Chunks :=
  if String.eqb c "g" then Some [[1; 2]; [1; 3]] else if String.eqb c "v" then Some [[10; 20]; [30; 40]] else None.
Definition demo_type (t : Z) (c : string) : DataType := INT64.
Definition demo_prev : OperatorResult := [newLazyTable 1 (Some [[3]; [1]]) None None None].
Definition no_columns (_ : ColumnReference) : option (list Z) := None.
Definition empty_store : Store := mkStore ∅ 0.
Definition group_g : list ColumnReference := [mkColumnReference 1 "g"].
Definition by_aggregate_desc : list OrderByReference := [mkOrderByReference (mkColumnReference nullptr "s") true].
Definition sum_v : AggregateReference := mkAggregateReference SUM "s" (mkColumnReference 1 "v") NullExpr.

Definition demo_vals (c : nat) : list Z := nth c [[10; 20]; [30; 40]] [].
Definition demo_filter : option Chunks := Some [[3]; [1]].
Definition demo_cols : list GroupCol := [mkGroupCol INT64 [[1; 2]; [1; 3]]].

Lemma demo_input_ok : input_ok 4 SUM (SColumn INT64 [[10; 20]; [30; 40]]) INT64 demo_vals 2 demo_cols demo_filter empty_store.
Proof.
  split; try done.
  - apply source_column_ok.
  - intros a [x Hx]. cbn in Hx. by rewrite lookup_empty in Hx.
  - by right.
  - intros [|[|c]] Hc; [| | lia]; split.
    1, 3: repeat constructor; eexists; split; [reflexivity | cbn; lia].
    1, 2: eexists; split; [reflexivity | unfold JoinSpec.bits_cover; cbn; lia].
  - by repeat constructor.
  - apply single_column_no_collision. intros v w Hv Hw.
    assert (forall x, [x] ∈ (selected_rows demo_cols demo_filter demo_vals 2).*1 -> 1 <= x <= 2) as Hr.
    { intros x Hx. assert ((selected_rows demo_cols demo_filter demo_vals 2).*1 = [[1]; [2]; [1]]) as Er by (vm_compute; reflexivity). rewrite Er in Hx.
      repeat (apply elem_of_cons in Hx as [[= ->] | Hx]; [lia |]). by apply not_elem_of_nil in Hx. }
    apply Hr in Hv, Hw. unfold std_hash, IdentityHash. rewrite !wrapu_id by (unfold is_u; lia). done.
Qed.

Lemma demo_clause_ok : clause_ok by_aggregate_desc group_g.
Proof.
  split; [| repeat constructor]. split.
  - repeat constructor. apply not_elem_of_nil.
  - by repeat constructor.
  - exists [], by_aggregate_desc. by repeat constructor.
Qed.

End HashAggDemo.

Import HashAggDemo.


Example hash_aggregate_demo :
  Execute (AS := MergeSortKernels.MergeSort) by_key demo_column demo_type no_columns 4 in_turn sum_v group_g by_aggregate_desc demo_prev empty_store =
  Some (inr ([("g", INT64); ("s", INT64)], [mkDatum INT64 [CInt 1; CInt 2]; mkDatum INT64 [CInt 40; CInt 20]])).
Proof. vm_compute. reflexivity. Qed.

(** ** Defects *)

Module HashAggDefects.
Import MergeSortKernels.

(** One group: the value 2 in the first chunk, 4 in the second. *)
Definition one_group (t : Z) (c : string) : option Chunks := if String.eqb c "g" then Some [[1]; [1]] else Some [[2]; [4]].
Definition one_prev : OperatorResult := [newLazyTable 1 None None None None].
Definition mean_v : AggregateReference := mkAggregateReference MEAN "m" (mkColumnReference 1 "v") NullExpr.

(** Table 1 with a = 1, 2 and b = 10, 20; only the first row is selected. *)
Definition two_columns (t : Z) (c : string) : option Chunks := if String.eqb c "a" then Some [[1; 2]] else Some [[10; 20]].
Definition first_selected : OperatorResult := [newLazyTable 1 (Some [[1]]) None None None].
Definition column (name : string) : ExprReference := Expr TK_COLUMN NullExpr NullExpr (Some (mkColumnReference 1 name)).
Definition ab_columns (cr : ColumnReference) : option (list Z) := if String.eqb (col_name cr) "a" then Some [0] else Some [1].
Definition ab_store : Store := mkStore (<[0 := mkArray (mkCType true 64) [1; 2]]> (<[1 := mkArray (mkCType true 64) [10; 20]]> ∅)) 2.
Definition sum_a : AggregateReference := mkAggregateReference SUM "s" (mkColumnReference 1 "a") NullExpr.
Definition sum_ab : AggregateReference :=
  mkAggregateReference SUM "s" (mkColumnReference 1 "a") (Expr TK_PLUS (column "a") (column "b") None).

(** The groups (0, 0) and (1, -67). *)
Definition colliding (t : Z) (c : string) : option Chunks :=
  if String.eqb c "a" then Some [[0; 1]] else if String.eqb c "b" then Some [[0; -67]] else Some [[5; 6]].
Definition group_ab : list ColumnReference := [mkColumnReference 1 "a"; mkColumnReference 1 "b"].

(** The groups (1, 9) and (2, 8) of one table. *)
Definition two_groups (t : Z) (c : string) : option Chunks :=
  if String.eqb c "a" then Some [[1; 2]] else if String.eqb c "b" then Some [[9; 8]] else Some [[5; 6]].
Definition by_b : list OrderByReference := [mkOrderByReference (mkColumnReference 1 "b") false].
Definition by_aggregate_then_g : list OrderByReference :=
  [mkOrderByReference (mkColumnReference nullptr "s") false; mkOrderByReference (mkColumnReference 1 "g") false].

(** The operator with these kernels. *)
Definition run (cols : Z -> string -> option Chunks) (exprs : ColumnReference -> option (list Z)) (hardware_concurrency : Z) (ref : AggregateReference)
    (group_by_refs : list ColumnReference) (order_by_refs : list OrderByReference) (prev : OperatorResult) (st : Store) : option (exn + list Datum) :=
  r ← Execute by_key cols demo_type exprs hardware_concurrency in_turn ref group_by_refs order_by_refs prev st;
  Some (match r with inl e => inl e | inr (_, out) => inr out end).

End HashAggDefects.

Import HashAggDefects.

(** The mean of a group that two tasks share is wrong: when the maps are
    merged, the count of the second task is added to the sum instead of to the
    count.  For the values 2 and 4 in two chunks, two threads give 7.0; one
    thread gives 3.0. *)
Theorem mean_of_shared_group_wrong :
  run one_group no_columns 2 mean_v group_g [] one_prev empty_store = Some (inr [mkDatum INT64 [CInt 1]; mkDatum DOUBLE [CDouble (double_of_Z 7)]]) /\
  run one_group no_columns 1 mean_v group_g [] one_prev empty_store = Some (inr [mkDatum INT64 [CInt 1]; mkDatum DOUBLE [CDouble (double_of_Z 3)]]).
Proof. split; vm_compute; reflexivity. Qed.

(** The filter of a selection is applied when a column is aggregated but not
    when an expression is: with a = 1, 2 and b = 10, 20 and only the first row
    selected, SUM(a) is 1 and SUM(a + b) is 33. *)
Theorem expression_aggregate_ignores_filter :
  run two_columns ab_columns 4 sum_a [] [] first_selected ab_store = Some (inr [mkDatum INT64 [CInt 1]]) /\
  run two_columns ab_columns 4 sum_ab [] [] first_selected ab_store = Some (inr [mkDatum INT64 [CInt 33]]).
Proof. split; vm_compute; reflexivity. Qed.

(** The columns of the ORDER BY clause are matched by their table: GROUP BY
    a, b ORDER BY b sorts by a when both are of one table, and a clause that has
    the aggregate before a GROUP BY column reads past the end of the matches. *)
Theorem order_by_wrong_column :
  run two_groups no_columns 4 sum_v group_ab by_b one_prev empty_store =
    Some (inr [mkDatum INT64 [CInt 1; CInt 2]; mkDatum INT64 [CInt 9; CInt 8]; mkDatum INT64 [CInt 5; CInt 6]]) /\
  run one_group no_columns 4 sum_v group_g by_aggregate_then_g one_prev empty_store = None.
Proof. split; vm_compute; reflexivity. Qed.

(** Groups are told apart by their hash only: (0, 0) and (1, -67) become one. *)
Theorem colliding_groups_merged :
  run colliding no_columns 4 sum_v group_ab [] one_prev empty_store =
    Some (inr [mkDatum INT64 [CInt 0]; mkDatum INT64 [CInt 0]; mkDatum INT64 [CInt 11]]).
Proof. vm_compute. reflexivity. Qed.
