(* ===== verification/Aggregate.v ===== *)
(** * The aggregate by enumeration of groups (operators/aggregate/aggregate)

    [Aggregate] collects the distinct values of every GROUP BY column, numbers
    all combinations of them with a nested loop of dynamic depth, and keeps one
    counter per combination.  A combination is found by a key whose decimal
    digits are the positions of its values.  Arrow's kernels [Unique], [IndexIn],
    [Sum] and [Count] are the class [ArrowAggregate]; the orders in which tasks
    run are arguments.  [None] is undefined behaviour. *)

From Stdlib Require Import ZArith Lia SpecFloat.
From stdpp Require Import base numbers list gmap option strings sorting.
Import stdpp.list_basics.list stdpp.list_relations.list stdpp.list_monad.list.
From S2P Require Import Prelude Bloom Columns HashJoin Expression AggregateSort HashAggregate.
Import Hist Columns ColumnsProof Lazy Join Agg AggSort AggSortSpec HashAgg HashAggSpec.

Local Open Scope Z_scope.

(** [Unique]: the distinct values of a column.  [IndexIn]: the position of each
    value in an array of keys.  [Sum] and [Count] of a column of 64-bit integers
    that is not empty. *)
Class ArrowAggregate := {
  Unique : Chunks -> list Z;
  IndexIn : list Z -> list Z -> list Z;
  Sum : Chunks -> Z;
  Count : Chunks -> Z;
  Unique_nodup : forall c, NoDup (Unique c);
  Unique_in : forall c v, v ∈ Unique c <-> v ∈ concat c;
  IndexIn_spec : forall vals keys i j v, vals !! i = Some v -> keys !! j = Some v -> NoDup keys -> IndexIn vals keys !! i = Some (Z.of_nat j);
  Sum_spec : forall c, concat c <> [] -> is_s 64 (zsum (concat c)) -> Sum c = zsum (concat c);
  Count_spec : forall c, concat c <> [] -> Count c = Z.of_nat (length (concat c))
}.

Module AggEnum.

(** [key += x * pow(10, k)] for the elements of a group id: a sum of doubles
    converted to [int] each time; outside its range that is undefined, and inside
    it the doubles are exact. *)
Fixpoint decimal_key (ids : list Z) (k key : Z) : option Z :=
  match ids with
  | [] => Some key
  | x :: ids' => key ← int_chk (key + x * 10 ^ k); decimal_key ids' (k + 1) key
  end.

(** ** The nested loop of dynamic depth *)

(** [while (group_id\[index\] == max_unique_values\[index\])]; the result says
    whether [exit] was set. *)
Fixpoint carry (index : nat) (group_id maxes : list Z) : option (list Z * bool) :=
  d ← group_id !! index;
  m ← maxes !! index;
  if d =? m then
    match index with
    | O => Some (group_id, true)
    | S index' =>
        let group_id := <[index := 0]> group_id in
        d' ← group_id !! index';
        d' ← int_chk (d' + 1);
        carry index' (<[index' := d']> group_id) maxes
    end
  else Some (group_id, false).

(** [group_id\[num_group_columns - 1\]++] and the carries. *)
Definition increment (group_id maxes : list Z) : option (list Z * bool) :=
  let last := (length group_id - 1)%nat in
  d ← group_id !! last;
  d ← int_chk (d + 1);
  carry last (<[last := d]> group_id) maxes.

(** [group_id_vec_] and [group_agg_index_map_] *)
Record Groups := mkGroups { group_id_vec_ : list (list Z); group_agg_index_map_ : gmap Z Z }.

Fixpoint enumerate (fuel : nat) (maxes group_id : list Z) (agg_index : Z) (g : Groups) : option Groups :=
  match fuel with
  | O => None
  | S fuel' =>
      vec ← set_at (Z.to_nat agg_index) group_id (group_id_vec_ g);
      key ← decimal_key group_id 0 0;
      let g := mkGroups vec (<[key := agg_index]> (group_agg_index_map_ g)) in
      agg_index ← int_chk (agg_index + 1);
      if (length maxes =? 0)%nat then Some g else
      '(group_id, exit) ← increment group_id maxes;
      if (exit : bool) then Some g else enumerate fuel' maxes group_id agg_index g
  end.

Definition num_aggs (maxes : list Z) : Z := foldl (fun n m => to_u64 (n * m)) 1 maxes.

(** One more than the number of combinations is enough. *)
Definition enumerate_groups (maxes : list Z) : option Groups :=
  enumerate (S (Z.to_nat (num_aggs maxes))) maxes (replicate (length maxes) 0) 0
    (mkGroups (replicate (Z.to_nat (num_aggs maxes)) []) ∅).

(** ** Scanning *)

(** The map and the counters [aggregate_data_]. *)
Record Counters := mkCounters { index_map : gmap Z Z; aggregate_data_ : list Z }.

(** [aggregate_data_\[group_agg_index_map_\[key\]\] += v], atomically; [operator\[\]]
    inserts 0 for an unknown key, the atomic addition wraps around. *)
Definition add_row (key v : Z) (s : Counters) : option Counters :=
  let agg_index := default 0 (index_map s !! key) in
  x ← aggregate_data_ s !! Z.to_nat agg_index;
  Some (mkCounters (<[key := agg_index]> (index_map s)) (<[Z.to_nat agg_index := to_i64 (x + v)]> (aggregate_data_ s))).

Fixpoint scan_values (group_map : list (list Z)) (agg_col_chunk_data : list Z) (row_index : nat) (s : Counters) : option Counters :=
  match agg_col_chunk_data with
  | [] => Some s
  | v :: data' =>
      ids ← mapM (fun m : list Z => x ← m !! row_index; Some (to_u32 x)) group_map;
      key ← decimal_key ids 0 0;
      s ← add_row key v s;
      scan_values group_map data' (S row_index) s
  end.

Definition BlockScan (unique_values_map_ : list Chunks) (agg_col : Chunks) (chunk_index : nat) (s : Counters) : option Counters :=
  data ← agg_col !! chunk_index;
  group_map ← mapM (fun m : Chunks => m !! chunk_index) unique_values_map_;
  scan_values group_map data 0 s.

(** At most [n] blocks from [block_index] on. *)
Fixpoint scan_blocks (n block_index : nat) (unique_values_map_ : list Chunks) (agg_col : Chunks) (s : Counters) : option Counters :=
  match n with
  | O => Some s
  | S n' =>
      if (block_index <? length agg_col)%nat then
        s ← BlockScan unique_values_map_ agg_col block_index s;
        scan_blocks n' (S block_index) unique_values_map_ agg_col s
      else Some s
  end.

Fixpoint scan_batches (order : list nat) (batch_size : Z) (unique_values_map_ : list Chunks) (agg_col : Chunks) (s : Counters) : option Counters :=
  match order with
  | [] => Some s
  | batch_index :: order' =>
      s ← scan_blocks (Z.to_nat batch_size) (Z.to_nat (to_u64 (to_i32 (Z.of_nat batch_index * batch_size)))) unique_values_map_ agg_col s;
      scan_batches order' batch_size unique_values_map_ agg_col s
  end.

(** The number of batches is computed from the number of groups. *)
Definition filter_batches (num_chunks num_aggs_ : Z) (num_parallel : spec_float) : option (Z * Z) :=
  batch_size ← int_of_double (SFdiv 53 1024 (double_of_Z num_chunks) num_parallel);
  let batch_size := if batch_size =? 0 then num_chunks else batch_size in
  if batch_size =? 0 then None
  else Some (batch_size, 1 + to_u64 (num_aggs_ - 1) / batch_size).

Definition InitializeGroupFilters (schedule : nat -> list nat) (num_parallel : spec_float) (num_aggs_ : Z)
    (unique_values_map_ : list Chunks) (agg_col : Chunks) (s : Counters) : option Counters :=
  if (length unique_values_map_ =? 0)%nat then Some s else
  '(batch_size, num_batches) ← filter_batches (Z.of_nat (length agg_col)) num_aggs_ num_parallel;
  scan_batches (schedule (Z.to_nat num_batches)) batch_size unique_values_map_ agg_col s.

(** ** The groups of the result *)

Section Result.
Context {AA : ArrowAggregate} {AS : ArrowSort}.

(** [ComputeAggregate] read as a 64-bit integer; the mean is a double scalar,
    which the caller reads through a cast to another class. *)
Definition ComputeAggregate (k : AggregateKernel) (agg_col : Chunks) : option Z :=
  match k with SUM => Some (Sum agg_col) | COUNT => Some (Count agg_col) | MEAN => None end.

(** The children of [group_builder_] and [aggregate_builder_]. *)
Record Builders := mkBuilders { group_builder_ : list (list Z); aggregate_builder_ : list Z }.

(** Numbers and strings are appended, other types that have a builder are
    skipped, the rest throws. *)
Fixpoint append_group (types : list DataType) (unique_values_ : list (list Z)) (group_id : list Z) (builders : list (list Z))
    : option (exn + list (list Z)) :=
  match types, unique_values_, group_id, builders with
  | [], _, _, _ => Some (inr builders)
  | t :: types', u :: us, d :: ds, b :: bs =>
      match t with
      | OTHER => Some (inl RuntimeError)
      | _ =>
          b ← (if is_number_type t || is_string_type t then v ← u !! Z.to_nat d; Some (b ++ [v]) else Some b);
          r ← append_group types' us ds bs;
          Some (match r with inl e => inl e | inr bs => inr (b :: bs) end)
      end
  | _, _, _, _ => None
  end.

Definition InsertGroupColumns (types : list DataType) (unique_values_ : list (list Z)) (group_id : list Z) (b : Builders) : option (exn + Builders) :=
  r ← append_group types unique_values_ group_id (group_builder_ b);
  Some (match r with inl e => inl e | inr gs => inr (mkBuilders gs (aggregate_builder_ b)) end).

(** The builder of a mean is a [DoubleBuilder], which is used through a cast to
    another class. *)
Definition InsertGroupAggregate (k : AggregateKernel) (aggregate : Z) (b : Builders) : option Builders :=
  match k with MEAN => None | _ => Some (mkBuilders (group_builder_ b) (aggregate_builder_ b ++ [aggregate])) end.

Definition ComputeGroupAggregate (k : AggregateKernel) (num_aggs_ : Z) (types : list DataType) (unique_values_ : list (list Z)) (agg_col : Chunks)
    (agg_index : nat) (group_id : list Z) (data : list Z) (b : Builders) : option (exn + list Z * Builders) :=
  data ← (if num_aggs_ =? 1 then a ← ComputeAggregate k agg_col; set_at agg_index a data else Some data);
  x ← data !! agg_index;
  if 0 <? x then
    b ← InsertGroupAggregate k x b;
    r ← InsertGroupColumns types unique_values_ group_id b;
    Some (match r with inl e => inl e | inr b => inr (data, b) end)
  else Some (inr (data, b)).

(** At most [n] groups from [agg_index] on. *)
Fixpoint output_groups (n agg_index : nat) (k : AggregateKernel) (num_aggs_ : Z) (types : list DataType) (unique_values_ : list (list Z)) (agg_col : Chunks)
    (vec : list (list Z)) (data : list Z) (b : Builders) : option (exn + list Z * Builders) :=
  match n with
  | O => Some (inr (data, b))
  | S n' =>
      if Z.of_nat agg_index <? num_aggs_ then
        group_id ← vec !! agg_index;
        r ← ComputeGroupAggregate k num_aggs_ types unique_values_ agg_col agg_index group_id data b;
        match r with
        | inl e => Some (inl e)
        | inr (data, b) => output_groups n' (S agg_index) k num_aggs_ types unique_values_ agg_col vec data b
        end
      else Some (inr (data, b))
  end.

Fixpoint output_batches (order : list nat) (batch_size : Z) (k : AggregateKernel) (num_aggs_ : Z) (types : list DataType) (unique_values_ : list (list Z))
    (agg_col : Chunks) (vec : list (list Z)) (data : list Z) (b : Builders) : option (exn + list Z * Builders) :=
  match order with
  | [] => Some (inr (data, b))
  | batch_index :: order' =>
      r ← output_groups (Z.to_nat batch_size) (Z.to_nat (to_u64 (to_i32 (Z.of_nat batch_index * batch_size)))) k num_aggs_ types unique_values_ agg_col vec data b;
      match r with
      | inl e => Some (inl e)
      | inr (data, b) => output_batches order' batch_size k num_aggs_ types unique_values_ agg_col vec data b
      end
  end.

(** The last task of [ComputeAggregates]. *)
Definition output_config (num_aggs_ hardware_concurrency : Z) : option (Z * Z) :=
  if hardware_concurrency =? 0 then None else
  let batch_size := num_aggs_ / hardware_concurrency / 2 in
  let batch_size := if batch_size =? 0 then num_aggs_ else batch_size in
  if batch_size =? 0 then None else Some (batch_size, 1 + to_u64 (num_aggs_ - 1) / batch_size).

Definition SortResult {St} (order_by_refs : list OrderByReference) (group_by_refs : list ColumnReference)
    (groups : list Datum) (aggregates : Datum) : StM St (list Datum * Datum) :=
  sort_result (fun _ => Ascending) order_by_refs group_by_refs groups aggregates.

Definition Finish {St} (order_by_refs : list OrderByReference) (group_by_refs : list ColumnReference) (types : list DataType) (b : Builders)
    : StM St (list Datum) :=
  '(groups, aggregates) ← SortResult order_by_refs group_by_refs
      (zip_with (fun t vs => mkDatum t (CInt <$> vs)) types (group_builder_ b)) (mkDatum INT64 (CInt <$> aggregate_builder_ b));
  mret (groups ++ [aggregates]).

(** ** The operator *)

Context (get_column : Z -> string -> option Chunks) (get_type : Z -> string -> DataType).
Context (hardware_concurrency : Z) (num_parallel : spec_float) (scan_schedule output_schedule : nat -> list nat).

(** [group_by_index_map_]: [emplace] keeps the first index of a name. *)
Fixpoint index_of_name (name : string) (group_by_refs : list ColumnReference) (i : nat) : option nat :=
  match group_by_refs with
  | [] => None
  | g :: group_by_refs' => if String.eqb (col_name g) name then Some i else index_of_name name group_by_refs' (S i)
  end.

(** [ComputeUniqueValues] of every GROUP BY column, found by its name. *)
Definition compute_unique_values (group_by_refs : list ColumnReference) (cols : list GroupCol) : option (list (list Z)) :=
  mapM (fun g => i ← index_of_name (col_name g) group_by_refs 0; c ← cols !! i; Some (Unique (gb_chunks c))) group_by_refs.

(** [Context::match]: the positions of the values of every chunk. *)
Definition match_values (values : Chunks) (keys : list Z) : Chunks := (fun chunk => IndexIn chunk keys) <$> values.

Definition Execute (k : AggregateKernel) (agg_ref : ColumnReference) (group_by_refs : list ColumnReference) (order_by_refs : list OrderByReference)
    (prev_result : OperatorResult) : option (exn + list Datum) :=
  cols ← materialize_groups get_column get_type prev_result group_by_refs;
  unique_values_ ← compute_unique_values group_by_refs cols;
  let unique_values_map_ := zip_with (fun c u => match_values (gb_chunks c) u) cols unique_values_ in
  lt ← get_table (cr_table agg_ref) prev_result;
  '(_, agg_col) ← MaterializeColumn get_column (col_name agg_ref) lt;
  let maxes := (fun u => Z.of_nat (length u)) <$> unique_values_ in
  let num_aggs_ := num_aggs maxes in
  g ← enumerate_groups maxes;
  s ← InitializeGroupFilters scan_schedule num_parallel num_aggs_ unique_values_map_ agg_col
        (mkCounters (group_agg_index_map_ g) (replicate (Z.to_nat num_aggs_) 0));
  '(batch_size, num_batches) ← output_config num_aggs_ hardware_concurrency;
  r ← output_batches (output_schedule (Z.to_nat num_batches)) batch_size k num_aggs_ (gb_type <$> cols) unique_values_ agg_col (group_id_vec_ g)
        (aggregate_data_ s) (mkBuilders (replicate (length cols) []) []);
  match r with
  | inl e => Some (inl e)
  | inr (_, b) =>
      '(_, r) ← Finish order_by_refs group_by_refs (gb_type <$> cols) b tt;
      Some r
  end.

End Result.

End AggEnum.

Import AggEnum.

(** ** The loop enumerates the product *)

Module AggEnumSpec.

(** All combinations of digits below the bounds, the last digit fastest. *)
Fixpoint tuples (maxes : list Z) : list (list Z) :=
  match maxes with
  | [] => [[]]
  | m :: maxes' => seqZ 0 m ≫= fun d => (d ::.) <$> tuples maxes'
  end.

(** The next combination. *)
Fixpoint next (maxes g : list Z) : option (list Z) :=
  match maxes, g with
  | m :: maxes', d :: g' =>
      match next maxes' g' with
      | Some g'' => Some (d :: g'')
      | None => if d + 1 <? m then Some (d + 1 :: replicate (length maxes') 0) else None
      end
  | _, _ => None
  end.

Definition digits (maxes g : list Z) : Prop := Forall2 (fun m d => 0 <= d < m) maxes g.

Lemma next_snoc maxes g m d : length maxes = length g -> next (maxes ++ [m]) (g ++ [d]) =
  if d + 1 <? m then Some (g ++ [d + 1]) else (.++ [0]) <$> next maxes g.
Proof.
  revert g. induction maxes as [|m' maxes IH]; intros [|d' g] Hl; try done; cbn [app next].
  rewrite IH by (cbn in Hl; lia). destruct (d + 1 <? m); [done |]. destruct (next maxes g) as [g''|]; [done |]. cbn [fmap option_fmap option_map].
  destruct (d' + 1 <? m'); [| done]. rewrite length_app, replicate_add. done.
Qed.

(** The carries compute the next combination. *)
Lemma carry_ok maxes g : forall rest mrest i d m, length maxes = length g -> (i = length g)%nat -> digits maxes g -> 0 <= d <= m ->
  Forall (fun x => x < 2 ^ 31) maxes ->
  exists g' e, carry i (g ++ [d] ++ rest) (maxes ++ [m] ++ mrest) = Some (g', e) /\
    (if d <? m then e = false /\ g' = g ++ [d] ++ rest
     else match next maxes g with Some g'' => e = false /\ g' = g'' ++ [0] ++ rest | None => e = true end).
Proof.
  revert maxes. induction g as [|d1 g IH] using rev_ind; intros maxes rest mrest i d m Hl Hi Hd Hdm Hb.
  - destruct maxes; [| done]. subst i. cbn [app length carry]. cbn. destruct (Z.eqb_spec d m) as [-> | Hne].
    + rewrite Z.ltb_irrefl. by eexists _, _.
    + rewrite (proj2 (Z.ltb_lt _ _)) by lia. by eexists _, _.
  - destruct maxes as [|m1 maxes _] using rev_ind; [rewrite length_app in Hl; cbn in Hl; lia |].
    rewrite !length_app in Hl. cbn in Hl. apply Forall2_app_inv in Hd as [Hd Hd1]; [| lia]. apply Forall2_cons_1 in Hd1 as [Hd1 _].
    apply Forall_app in Hb as [Hb Hb1]. apply Forall_cons in Hb1 as [Hb1 _].
    assert (forall (A : Type) (u : list A) x y v, length u = (i - 1)%nat -> ((u ++ [x]) ++ [y] ++ v) !! i = Some y) as Lk.
    { intros A u x y v Hu. assert (i = (length u + 1)%nat) as -> by (rewrite length_app in Hi; cbn [length] in Hi; lia).
      rewrite lookup_app_r by (rewrite length_app; cbn [length]; lia). rewrite length_app. cbn [length]. by rewrite Nat.sub_diag. }
    rewrite length_app in Hi. cbn in Hi. destruct i as [|i]; [lia |]. cbn [carry]. rewrite (Lk _ g d1 d rest) by lia. cbn [mbind option_bind].
    rewrite (Lk _ maxes m1 m mrest) by lia. cbn [mbind option_bind]. destruct (Z.eqb_spec d m) as [-> | Hne].
    + rewrite Z.ltb_irrefl. assert (<[S i := 0]> ((g ++ [d1]) ++ [m] ++ rest) = g ++ [d1] ++ [0] ++ rest) as ->.
      { rewrite insert_app_r_alt by (rewrite length_app; cbn; lia). rewrite length_app. cbn. replace (S i - (length g + 1))%nat with 0%nat by lia. cbn. by rewrite <- app_assoc. }
      assert ((g ++ [d1] ++ [0] ++ rest) !! i = Some d1) as -> by (rewrite lookup_app_r by lia; by replace (i - length g)%nat with 0%nat by lia).
      cbn [mbind option_bind]. rewrite int_chk_id by (unfold is_s; change (2 ^ (32 - 1)) with (2 ^ 31); lia). cbn [mbind option_bind].
      assert (<[i := d1 + 1]> (g ++ [d1] ++ [0] ++ rest) = g ++ [d1 + 1] ++ [0] ++ rest) as ->.
      { rewrite insert_app_r_alt by lia. by replace (i - length g)%nat with 0%nat by lia. }
      rewrite <- (app_assoc maxes). destruct (IH maxes ([0] ++ rest) ([m] ++ mrest) i (d1 + 1) m1) as (g' & e & E & Hg); [lia | lia | done | lia | done |].
      exists g', e. split; [exact E |]. rewrite next_snoc by lia. destruct (d1 + 1 <? m1).
      * destruct Hg as [-> ->]. split; [done |]. by rewrite <- app_assoc.
      * destruct (next maxes g) as [g''|]; [| done]. destruct Hg as [-> ->]. cbn. split; [done |]. by rewrite <- app_assoc.
    + rewrite (proj2 (Z.ltb_lt _ _)) by lia. by eexists _, _.
Qed.

Lemma counter_increment_ok maxes g : maxes <> [] -> digits maxes g -> Forall (fun x => x < 2 ^ 31) maxes ->
  exists g' e, increment g maxes = Some (g', e) /\ match next maxes g with Some g'' => e = false /\ g' = g'' | None => e = true end.
Proof.
  intros Hne Hd Hb. pose proof (Forall2_length _ _ _ Hd) as Hl. destruct maxes as [|m maxes _] using rev_ind; [done |].
  destruct g as [|d g _] using rev_ind; [rewrite length_app in Hl; cbn in Hl; lia |]. rewrite !length_app in Hl. cbn in Hl.
  apply Forall2_app_inv in Hd as [Hd Hd1]; [| lia]. apply Forall2_cons_1 in Hd1 as [Hd1 _]. apply Forall_app in Hb as [Hb Hb1]. apply Forall_cons in Hb1 as [Hb1 _].
  unfold increment. rewrite length_app. cbn [length]. replace (length g + 1 - 1)%nat with (length g) by lia.
  rewrite lookup_app_r, Nat.sub_diag by lia. cbn [lookup list_lookup mbind option_bind]. rewrite int_chk_id by (unfold is_s; change (2 ^ (32 - 1)) with (2 ^ 31); lia).
  cbn [mbind option_bind]. rewrite insert_app_r_alt, Nat.sub_diag by lia. cbn [insert list_insert].
  destruct (carry_ok maxes g [] [] (length g) (d + 1) m) as (g' & e & E & Hg); [lia | done | done | lia | done |]. cbn [app] in E. exists g', e. split; [exact E |].
  rewrite next_snoc by lia. destruct (d + 1 <? m); [done |]. destruct (next maxes g); [done | done].
Qed.

Lemma bind_lookup {A B} (h : A -> list B) N (l : list A) : (forall x, length (h x) = N) -> forall i r, (r < N)%nat ->
  (l ≫= h) !! (i * N + r)%nat = l !! i ≫= fun x => h x !! r.
Proof.
  intros Hh. induction l as [|x l IH]; intros i r Hr; [done |]. rewrite bind_cons. destruct i as [|i].
  - rewrite lookup_app_l by (rewrite Hh; lia). done.
  - rewrite lookup_app_r by (rewrite Hh; lia). rewrite Hh. replace (S i * N + r - N)%nat with (i * N + r)%nat by lia. by apply IH.
Qed.

Lemma bind_length {A B} (h : A -> list B) N (l : list A) : (forall x, length (h x) = N) -> length (l ≫= h) = (length l * N)%nat.
Proof. intros Hh. induction l as [|x l IH]; [done |]. rewrite bind_cons, length_app, Hh, IH. cbn. lia. Qed.

Definition size (maxes : list Z) : nat := length (tuples maxes).

Lemma size_cons m maxes : size (m :: maxes) = (Z.to_nat m * size maxes)%nat.
Proof. unfold size. cbn [tuples]. rewrite (bind_length _ (length (tuples maxes))); [by rewrite length_seqZ | intros x; by rewrite length_fmap]. Qed.

Lemma tuples_digits maxes g : g ∈ tuples maxes <-> digits maxes g.
Proof.
  revert g. induction maxes as [|m maxes IH]; intros g; cbn [tuples].
  - rewrite list_elem_of_singleton. unfold digits. split; [intros ->; constructor | intros H; by inversion H].
  - rewrite list_elem_of_bind. unfold digits. split.
    + intros (d & Hg & Hd). apply list_elem_of_fmap in Hg as (g' & -> & Hg'). apply elem_of_seqZ in Hd. constructor; [lia | by apply IH].
    + intros H. inversion H as [|? d ? g' Hd Hg']; subst. exists d. split; [| apply elem_of_seqZ; lia]. apply list_elem_of_fmap. exists g'. split; [done | by apply IH].
Qed.

(** The combinations follow each other. *)
Lemma tuples_next maxes : Forall (fun m => 0 < m) maxes ->
  tuples maxes !! 0%nat = Some (replicate (length maxes) 0) /\ (forall i g, tuples maxes !! i = Some g -> next maxes g = tuples maxes !! S i).
Proof.
  induction 1 as [|m maxes Hm _ [IH0 IH]]; [split; [done |]; by intros [|i] g H; [injection H as <- |] |].
  set (N := length (tuples maxes)). assert (0 < N)%nat as HN by (apply lookup_lt_Some in IH0; done).
  assert (forall i r, (r < N)%nat -> tuples (m :: maxes) !! (i * N + r)%nat = seqZ 0 m !! i ≫= fun d => (d ::.) <$> tuples maxes !! r) as Hlook.
  { intros i r Hr. cbn [tuples]. rewrite (bind_lookup _ N); [| intros x; by rewrite length_fmap | done]. destruct (seqZ 0 m !! i); [| done]. cbn. apply list_lookup_fmap. }
  assert (forall i, seqZ 0 m !! i = if (i <? Z.to_nat m)%nat then Some (Z.of_nat i) else None) as Hs.
  { intros i. destruct (Nat.ltb_spec i (Z.to_nat m)); [rewrite lookup_seqZ_lt by lia; f_equal; lia | by rewrite lookup_seqZ_ge by lia]. }
  split.
  - specialize (Hlook 0%nat 0%nat HN). rewrite Nat.mul_0_l, Nat.add_0_l in Hlook. rewrite Hlook, Hs, (proj2 (Nat.ltb_lt _ _)), IH0 by lia. done.
  - intros i g Hi. pose proof (Nat.div_mod i N ltac:(lia)) as E. pose proof (Nat.mod_upper_bound i N ltac:(lia)) as Hr.
    set (q := (i / N)%nat) in *. set (r := (i mod N)%nat) in *. replace i with (q * N + r)%nat in Hi |- * by lia. rewrite Hlook, Hs in Hi by done.
    destruct (Nat.ltb_spec q (Z.to_nat m)) as [Hq |]; [| done]. cbn [mbind option_bind] in Hi. destruct (tuples maxes !! r) as [g'|] eqn:Eg; [| done].
    injection Hi as <-. cbn [next]. rewrite (IH r g' Eg). destruct (decide (S r < N)%nat) as [Hlt | Hge].
    + replace (S (q * N + r))%nat with (q * N + S r)%nat by lia. rewrite Hlook, Hs, (proj2 (Nat.ltb_lt _ _)) by lia. cbn [mbind option_bind].
      destruct (lookup_lt_is_Some_2 (tuples maxes) (S r) Hlt) as [g'' ->]. done.
    + replace (S (q * N + r))%nat with (S q * N + 0)%nat by lia. rewrite Hlook, Hs, (lookup_ge_None_2 (tuples maxes) (S r)) by (fold N; lia).
      destruct (Z.ltb_spec (Z.of_nat q + 1) m), (Nat.ltb_spec (S q) (Z.to_nat m)); try lia; [| done]. cbn [mbind option_bind]. rewrite IH0. cbn. do 2 f_equal. lia.
Qed.

Lemma tuples_nodup maxes : NoDup (tuples maxes).
Proof.
  induction maxes as [|m maxes IH]; cbn [tuples]; [apply NoDup_singleton |]. apply NoDup_bind.
  - intros x1 x2 y _ _ H1 H2. apply list_elem_of_fmap in H1 as (g1 & -> & _), H2 as (g2 & E & _). by injection E.
  - intros x _. by apply (NoDup_fmap_2 _).
  - apply NoDup_seqZ.
Qed.

Lemma size_pos maxes : Forall (fun m => 0 < m) maxes -> (0 < size maxes)%nat.
Proof. intros H. destruct (tuples_next maxes H) as [H0 _]. by apply lookup_lt_Some in H0. Qed.

Lemma num_aggs_ok maxes : Forall (fun m => 0 < m) maxes -> Z.of_nat (size maxes) < 2 ^ 64 -> num_aggs maxes = Z.of_nat (size maxes).
Proof.
  intros HF Hb. unfold num_aggs. enough (forall n, 0 < n -> n * Z.of_nat (size maxes) < 2 ^ 64 ->
    foldl (fun n m => to_u64 (n * m)) n maxes = n * Z.of_nat (size maxes)) as E by (rewrite E; lia).
  clear Hb. induction HF as [|m maxes Hm HF IH]; intros n Hn Hb; [cbn; lia |]. rewrite size_cons in *. cbn [foldl]. pose proof (size_pos maxes HF).
  rewrite wrapu_id by (unfold is_u; nia). rewrite IH by nia. nia.
Qed.

(** ** The key *)

Fixpoint dkey (g : list Z) : Z := match g with [] => 0 | d :: g' => d + 10 * dkey g' end.

Lemma dkey_nonneg g : Forall (fun d => 0 <= d) g -> 0 <= dkey g.
Proof. induction 1; cbn [dkey]; lia. Qed.

Lemma decimal_key_ok g : Forall (fun d => 0 <= d) g -> forall k key, 0 <= k -> 0 <= key -> key + 10 ^ k * dkey g < 2 ^ 31 ->
  decimal_key g k key = Some (key + 10 ^ k * dkey g).
Proof.
  induction 1 as [|d g Hd Hg IH]; intros k key Hk Hkey Hb; cbn [decimal_key dkey] in *; [f_equal; lia |].
  pose proof (dkey_nonneg g Hg) as Hn. pose proof (Z.pow_pos_nonneg 10 k ltac:(lia) Hk) as Hp.
  rewrite int_chk_id by (unfold is_s; change (2 ^ (32 - 1)) with (2 ^ 31); nia). cbn [mbind option_bind].
  assert (10 ^ (k + 1) = 10 * 10 ^ k) as Ep by (rewrite Z.pow_add_r by lia; lia). rewrite IH; [f_equal; nia | lia | nia | nia].
Qed.

Lemma digits_nonneg maxes g : digits maxes g -> Forall (fun d => 0 <= d) g.
Proof. induction 1; constructor; [lia | done]. Qed.

Lemma digits_pos maxes g : digits maxes g -> Forall (fun m => 0 < m) maxes.
Proof. induction 1; constructor; [lia | done]. Qed.

Lemma dkey_le maxes g : digits maxes g -> dkey g <= dkey maxes.
Proof. induction 1; cbn [dkey]; lia. Qed.

(** At most ten values in every column but the last. *)
Fixpoint decimal (maxes : list Z) : Prop :=
  match maxes with [] => True | m :: maxes' => (maxes' = [] \/ m <= 10) /\ decimal maxes' end.

Lemma dkey_inj maxes g g' : decimal maxes -> digits maxes g -> digits maxes g' -> dkey g = dkey g' -> g = g'.
Proof.
  revert g g'. induction maxes as [|m maxes IH]; intros g g' Hm Hg Hg' E; inversion Hg as [|? d ? h Hd Hh]; subst; inversion Hg' as [|? d' ? h' Hd' Hh']; subst; [done |].
  cbn [dkey decimal] in *. destruct Hm as [[-> | Hm] Hms].
  - inversion Hh; inversion Hh'; subst. cbn in E. f_equal. lia.
  - assert (d = d') as -> by lia. f_equal. apply IH; try done. lia.
Qed.

(** ** The loop *)

Section Loop.
Context (maxes : list Z) (Hpos : Forall (fun m => 0 < m) maxes) (Hdec : decimal maxes) (Hkey : dkey maxes < 2 ^ 31) (Hsize : Z.of_nat (size maxes) < 2 ^ 31).
Context (Hmax : Forall (fun m => m < 2 ^ 31) maxes).

Lemma key_of g : digits maxes g -> decimal_key g 0 0 = Some (dkey g).
Proof. intros Hg. pose proof (dkey_le maxes g Hg). rewrite decimal_key_ok; [f_equal; lia | by eapply digits_nonneg | lia | lia | lia]. Qed.

(** The first [a] combinations have their numbers. *)
Definition numbered (a : nat) (m : gmap Z Z) : Prop := forall j g, (j < a)%nat -> tuples maxes !! j = Some g -> m !! dkey g = Some (Z.of_nat j).

Lemma enumerate_ok fuel : forall a g vec m, tuples maxes !! a = Some g -> length vec = size maxes -> take a vec = take a (tuples maxes) -> numbered a m ->
  (size maxes < fuel + a)%nat ->
  exists r, enumerate fuel maxes g (Z.of_nat a) (mkGroups vec m) = Some r /\ group_id_vec_ r = tuples maxes /\ numbered (size maxes) (group_agg_index_map_ r).
Proof.
  induction fuel as [|fuel IH]; intros a g vec m Hg Hl Ht Hn Hf; pose proof (lookup_lt_Some _ _ _ Hg) as Ha; fold (size maxes) in Ha; [lia |].
  assert (digits maxes g) as Hd by (apply tuples_digits; by eapply list_elem_of_lookup_2).
  cbn [enumerate group_id_vec_ group_agg_index_map_]. rewrite Nat2Z.id. unfold set_at. rewrite (proj2 (Nat.ltb_lt _ _)) by lia. cbn [mbind option_bind].
  rewrite key_of by done. cbn [mbind option_bind]. rewrite int_chk_id by (unfold is_s; change (2 ^ (32 - 1)) with (2 ^ 31); lia). cbn [mbind option_bind].
  assert (numbered (S a) (<[dkey g := Z.of_nat a]> m)) as Hn'.
  { intros j h Hj Hh. destruct (decide (j = a)) as [-> | Hne]; [rewrite Hg in Hh; injection Hh as ->; by rewrite lookup_insert_eq |].
    rewrite lookup_insert_ne; [apply Hn; [lia | done] |]. intros E. apply Hne. apply (NoDup_lookup _ _ _ h (tuples_nodup maxes)); [done |].
    rewrite Hg. f_equal. apply (dkey_inj maxes); try done. apply tuples_digits. by eapply list_elem_of_lookup_2. }
  assert (take (S a) (<[a := g]> vec) = take (S a) (tuples maxes)) as Ht'.
  { rewrite (take_S_r _ _ g) by (rewrite list_lookup_insert_eq by lia; done). rewrite (take_S_r (tuples maxes) _ g Hg). f_equal. by rewrite take_insert_ge by lia. }
  assert (S a = size maxes -> exists r, Some (mkGroups (<[a := g]> vec) (<[dkey g := Z.of_nat a]> m)) = Some r /\
    group_id_vec_ r = tuples maxes /\ numbered (size maxes) (group_agg_index_map_ r)) as Hend.
  { intros E. eexists. split; [reflexivity |]. cbn [group_id_vec_ group_agg_index_map_]. rewrite <- E at 1. split; [| done].
    rewrite !take_ge in Ht'; [done | unfold size in *; lia | rewrite length_insert; lia]. }
  destruct (Nat.eqb_spec (length maxes) 0) as [E0 | Hne].
  - apply nil_length_inv in E0. apply Hend. rewrite E0 in *. cbn in *. lia.
  - destruct (counter_increment_ok maxes g) as (g' & e & -> & Hnext); [by intros -> | done | done |]. cbn [mbind option_bind].
    rewrite (proj2 (tuples_next maxes Hpos) a g Hg) in Hnext. destruct (tuples maxes !! S a) as [g''|] eqn:En.
    + destruct Hnext as [-> ->]. replace (Z.of_nat a + 1) with (Z.of_nat (S a)) by lia. apply IH; [done | by rewrite length_insert | done | done | lia].
    + subst e. apply Hend. apply lookup_ge_None in En. fold (size maxes) in En. lia.
Qed.

Lemma enumerate_groups_ok : exists r, enumerate_groups maxes = Some r /\ group_id_vec_ r = tuples maxes /\ numbered (size maxes) (group_agg_index_map_ r).
Proof.
  unfold enumerate_groups. rewrite num_aggs_ok, Nat2Z.id by (done || lia). apply (enumerate_ok _ 0%nat).
  - apply tuples_next. done.
  - by rewrite length_replicate.
  - done.
  - intros j g Hj. lia.
  - lia.
Qed.

End Loop.

(** ** Scanning *)

Lemma total_perm k es es' : es ≡ₚ es' -> total k es = total k es'.
Proof.
  intros Hp. unfold total. assert (snd <$> base.filter (fun e => fst e = k) es ≡ₚ snd <$> base.filter (fun e => fst e = k) es') as HP by (by rewrite Hp).
  revert HP. generalize (snd <$> base.filter (fun e => fst e = k) es), (snd <$> base.filter (fun e => fst e = k) es'). clear. intros l l'.
  induction 1; cbn [zsum]; lia.
Qed.

Section Scan.
Context {AA : ArrowAggregate} (cols : list GroupCol).

Definition uniques : list (list Z) := (fun c => Unique (gb_chunks c)) <$> cols.
Definition bounds : list Z := (fun u => Z.of_nat (length u)) <$> uniques.
Definition index_maps : list Chunks := (fun c => match_values (gb_chunks c) (Unique (gb_chunks c))) <$> cols.

(** The GROUP BY values of a combination. *)
Definition values_of (p : list Z) : list Z := zip_with (fun u d => nth (Z.to_nat d) u 0) uniques p.

Lemma values_of_inj p q : digits bounds p -> digits bounds q -> values_of p = values_of q -> p = q.
Proof.
  unfold digits, bounds, values_of, uniques. revert p q. induction cols as [|c cs IH]; intros p q Hp Hq E; cbn in Hp, Hq.
  - by inversion Hp; inversion Hq.
  - inversion Hp as [|? d ? p' Hd Hp']; subst. inversion Hq as [|? d' ? q' Hd' Hq']; subst. cbn in E. injection E as E1 E2. f_equal; [| by apply IH].
    destruct (lookup_lt_is_Some_2 (Unique (gb_chunks c)) (Z.to_nat d)) as [v Hv]; [lia |].
    destruct (lookup_lt_is_Some_2 (Unique (gb_chunks c)) (Z.to_nat d')) as [w Hw]; [lia |].
    rewrite (nth_lookup_Some _ _ _ _ Hv), (nth_lookup_Some _ _ _ _ Hw) in E1. subst w.
    pose proof (NoDup_lookup _ _ _ _ (Unique_nodup (gb_chunks c)) Hv Hw). lia.
Qed.

(** The positions that are read for a row name its group. *)
Lemma row_positions c i n : groups_cover cols c n -> (i < n)%nat -> Forall (fun m => m < 2 ^ 31) bounds ->
  exists gm p, mapM (fun m : Chunks => m !! c) index_maps = Some gm /\ length gm = length cols /\
    mapM (fun m : list Z => x ← m !! i; Some (to_u32 x)) gm = Some p /\ digits bounds p /\ values_of p = group_at cols c i.
Proof.
  unfold groups_cover, index_maps, digits, bounds, values_of, uniques, group_at. intros HF Hi HB.
  induction HF as [|g cs (Hh & chunk & Hc & Hl) _ IH]; [exists [], []; by repeat constructor |].
  cbn in HB. apply Forall_cons in HB as [HB1 HB]. destruct (IH HB) as (gm & p & E1 & El & E2 & Hd & Hv).
  destruct (lookup_lt_is_Some_2 chunk i) as [v Ev]; [lia |].
  assert (v ∈ Unique (gb_chunks g)) as Hin.
  { apply Unique_in. apply list_elem_of_In, in_concat. exists chunk. split; [by apply list_elem_of_In, list_elem_of_lookup_2 with c | by apply list_elem_of_In, list_elem_of_lookup_2 with i]. }
  apply list_elem_of_lookup in Hin as [j Hj]. pose proof (lookup_lt_Some _ _ _ Hj) as Hjl. set (u := Unique (gb_chunks g)) in *.
  exists (IndexIn chunk u :: gm), (Z.of_nat j :: p). cbn [fmap list_fmap zip_with]. split_and!.
  - apply mapM_Some. constructor; [unfold match_values; by rewrite list_lookup_fmap, Hc | by apply mapM_Some].
  - cbn. by rewrite El.
  - apply mapM_Some. constructor; [| by apply mapM_Some]. rewrite (IndexIn_spec chunk u i j v Ev Hj (Unique_nodup _)). cbn.
    by rewrite wrapu_id by (unfold is_u; fold u in HB1; lia).
  - constructor; [fold u; lia | done].
  - rewrite Nat2Z.id, (nth_lookup_Some _ _ _ _ Hj), Hc. cbn [mbind option_bind]. rewrite Ev. cbn. by rewrite Hv.
Qed.

Lemma group_map_ok c n : groups_cover cols c n -> exists gm, mapM (fun m : Chunks => m !! c) index_maps = Some gm.
Proof.
  unfold groups_cover, index_maps. induction 1 as [|g cs (_ & chunk & Hc & _) _ (gm & E)]; [by exists [] |].
  exists (IndexIn chunk (Unique (gb_chunks g)) :: gm). apply mapM_Some. cbn. constructor; [unfold match_values; by rewrite list_lookup_fmap, Hc | by apply mapM_Some].
Qed.

(** The number of the combination of a row. *)
Definition row_index (c i : nat) : nat := default 0%nat (fst <$> list_find (fun p => values_of p = group_at cols c i) (tuples bounds)).

Lemma row_index_ok c i p : digits bounds p -> values_of p = group_at cols c i -> tuples bounds !! row_index c i = Some p.
Proof.
  intros Hd Hv. unfold row_index. assert (p ∈ tuples bounds) as Hin by (by apply tuples_digits).
  destruct (list_find_elem_of (fun p => values_of p = group_at cols c i) (tuples bounds) p Hin Hv) as [[a q] Ea]. rewrite Ea.
  apply list_find_Some in Ea as (Hq & Eq & _). cbn. rewrite Hq. f_equal. apply values_of_inj; [| done | by rewrite Eq]. apply tuples_digits. by eapply list_elem_of_lookup_2.
Qed.

Context (Hdec : decimal bounds) (Hkey : dkey bounds < 2 ^ 31) (Hmax : Forall (fun m => m < 2 ^ 31) bounds).

Definition counted (data : list Z) (es : list (Z * Z)) : Prop :=
  length data = size bounds /\ forall a, (a < size bounds)%nat -> data !! a = Some (total (Z.of_nat a) es).

Definition counters_ok (s : Counters) (es : list (Z * Z)) : Prop := numbered bounds (size bounds) (index_map s) /\ counted (aggregate_data_ s) es.

Lemma add_row_ok s es c i p v : digits bounds p -> values_of p = group_at cols c i -> counters_ok s es -> weight (es ++ [(Z.of_nat (row_index c i), v)]) < 2 ^ 63 ->
  exists s', add_row (dkey p) v s = Some s' /\ counters_ok s' (es ++ [(Z.of_nat (row_index c i), v)]).
Proof.
  intros Hd Hv [Hn [Hl Hc]] Hw. pose proof (row_index_ok c i p Hd Hv) as Ha. set (a := row_index c i) in *.
  pose proof (lookup_lt_Some _ _ _ Ha) as Hlt. fold (size bounds) in Hlt. pose proof (Hn a p Hlt Ha) as Em. unfold add_row. rewrite Em. cbn [default].
  unfold id. rewrite Nat2Z.id, (Hc a Hlt). cbn [mbind option_bind]. eexists. split; [reflexivity |]. split; [| split]; cbn [index_map aggregate_data_].
  - by rewrite insert_id.
  - by rewrite length_insert.
  - intros b Hb. rewrite total_app, total_one. destruct (decide (a = b)) as [<- | Hne].
    + rewrite list_lookup_insert_eq by lia. rewrite decide_True by done. f_equal. apply wraps_id; [lia |].
      pose proof (total_bound (Z.of_nat a) (es ++ [(Z.of_nat a, v)])) as B. rewrite total_app, total_one, decide_True in B by done.
      unfold is_s. change (2 ^ (64 - 1)) with (2 ^ 63). lia.
    + rewrite list_lookup_insert_ne by done. rewrite (Hc b Hb), decide_False by lia. f_equal. lia.
Qed.

Definition row_entries (c : nat) (i : nat) (data : list Z) : list (Z * Z) := imap (fun j v => (Z.of_nat (row_index c (i + j)), v)) data.

Lemma scan_values_ok c gm n : groups_cover cols c n -> mapM (fun m : Chunks => m !! c) index_maps = Some gm -> forall data i s es, (i + length data <= n)%nat ->
  counters_ok s es -> weight (es ++ row_entries c i data) < 2 ^ 63 ->
  exists s', scan_values gm data i s = Some s' /\ counters_ok s' (es ++ row_entries c i data).
Proof.
  intros Hg Egm. induction data as [|v data IH]; intros i s es Hn Hs Hw; cbn [scan_values length] in *; [exists s; unfold row_entries; cbn; by rewrite app_nil_r |].
  destruct (row_positions c i n Hg ltac:(lia) Hmax) as (gm' & p & E1 & _ & E2 & Hd & Hv). rewrite Egm in E1. injection E1 as <-. rewrite E2. cbn [mbind option_bind].
  rewrite (key_of bounds Hkey) by done. cbn [mbind option_bind].
  assert (row_entries c i (v :: data) = [(Z.of_nat (row_index c i), v)] ++ row_entries c (S i) data) as Er.
  { unfold row_entries. cbn [imap]. rewrite Nat.add_0_r. cbn [app]. f_equal. apply imap_ext. intros j w _. cbn. do 3 f_equal. lia. }
  rewrite Er, app_assoc in Hw |- *. pose proof (abs_weight_nonneg (row_entries c (S i) data)).
  destruct (add_row_ok s es c i p v Hd Hv Hs) as (s1 & -> & Hs1); [rewrite weight_app in Hw; lia |]. cbn [mbind option_bind]. apply IH; [lia | done | done].
Qed.

Context (agg_col : Chunks) (Hcover : forall c chunk, agg_col !! c = Some chunk -> groups_cover cols c (length chunk)).

Definition chunk_rows (c : nat) : list (Z * Z) := match agg_col !! c with Some chunk => row_entries c 0 chunk | None => [] end.

Lemma BlockScan_ok c s es : (c < length agg_col)%nat -> counters_ok s es -> weight (es ++ chunk_rows c) < 2 ^ 63 ->
  exists s', BlockScan index_maps agg_col c s = Some s' /\ counters_ok s' (es ++ chunk_rows c).
Proof.
  intros Hc Hs Hw. destruct (lookup_lt_is_Some_2 agg_col c Hc) as [chunk Ec]. unfold BlockScan, chunk_rows in *. rewrite Ec in *. cbn [mbind option_bind].
  destruct (group_map_ok c (length chunk)) as [gm Egm]; [by apply Hcover |]. rewrite Egm. cbn [mbind option_bind].
  by apply (scan_values_ok c gm (length chunk)); [apply Hcover | | lia | |].
Qed.

Lemma chunk_rows_beyond b k : (length agg_col <= b)%nat -> concat (chunk_rows <$> seq b k) = [].
Proof.
  revert b. induction k as [|k IH]; intros b Hb; [done |]. cbn [seq fmap list_fmap concat]. rewrite IH by lia. unfold chunk_rows.
  by rewrite lookup_ge_None_2.
Qed.

Lemma scan_blocks_ok k : forall b s es, counters_ok s es -> weight (es ++ concat (chunk_rows <$> seq b k)) < 2 ^ 63 ->
  exists s', scan_blocks k b index_maps agg_col s = Some s' /\ counters_ok s' (es ++ concat (chunk_rows <$> seq b k)).
Proof.
  induction k as [|k IH]; intros b s es Hs Hw; cbn [scan_blocks]; [exists s; by rewrite app_nil_r |].
  destruct (Nat.ltb_spec b (length agg_col)) as [Hb | Hb].
  - cbn [seq fmap list_fmap concat] in Hw |- *. rewrite app_assoc in Hw |- *.
    destruct (BlockScan_ok b s es Hb Hs) as (s1 & -> & Hs1); [rewrite weight_app in Hw; pose proof (abs_weight_nonneg (concat (chunk_rows <$> seq (S b) k))); lia |].
    cbn [mbind option_bind]. by apply IH.
  - exists s. rewrite chunk_rows_beyond, app_nil_r by done. done.
Qed.

Definition batch_rows (bs b : nat) : list (Z * Z) := concat (chunk_rows <$> seq (b * bs) bs).

Lemma small_index (b bs nb : nat) : (b < nb)%nat -> Z.of_nat (nb * bs) < 2 ^ 31 -> Z.to_nat (to_u64 (to_i32 (Z.of_nat b * Z.of_nat bs))) = (b * bs)%nat.
Proof. intros Hb Hm. rewrite wraps_id, wrapu_id; [lia | unfold is_u; nia | lia | unfold is_s; change (2 ^ (32 - 1)) with (2 ^ 31); nia]. Qed.

Lemma scan_batches_ok (bs nb : nat) : Z.of_nat (nb * bs) < 2 ^ 31 -> forall order s es, Forall (fun b => (b < nb)%nat) order -> counters_ok s es ->
  weight (es ++ concat (batch_rows bs <$> order)) < 2 ^ 63 ->
  exists s', scan_batches order (Z.of_nat bs) index_maps agg_col s = Some s' /\ counters_ok s' (es ++ concat (batch_rows bs <$> order)).
Proof.
  intros Hm. induction order as [|b order IH]; intros s es HF Hs Hw; cbn [scan_batches]; [exists s; by rewrite app_nil_r |].
  apply Forall_cons in HF as [Hb HF]. rewrite (small_index b bs nb), Nat2Z.id by done. cbn [fmap list_fmap concat] in Hw |- *. rewrite app_assoc in Hw |- *.
  destruct (scan_blocks_ok bs (b * bs) s es Hs) as (s1 & -> & Hs1); [rewrite weight_app in Hw; pose proof (abs_weight_nonneg (concat (batch_rows bs <$> order))); fold (batch_rows bs b); lia |].
  cbn [mbind option_bind]. by apply IH.
Qed.

Definition all_rows : list (Z * Z) := concat (chunk_rows <$> seq 0 (length agg_col)).

Lemma batches_all bs nb : (length agg_col <= nb * bs)%nat -> concat (batch_rows bs <$> seq 0 nb) = all_rows.
Proof.
  intros Hc. assert (concat (batch_rows bs <$> seq 0 nb) = concat (chunk_rows <$> seq 0 (nb * bs))) as ->.
  { clear Hc. induction nb as [|nb IH]; [done |]. rewrite seq_S, fmap_app, concat_app, IH. cbn [fmap list_fmap concat]. rewrite app_nil_r, Nat.add_0_l.
    unfold batch_rows. replace (S nb * bs)%nat with (nb * bs + bs)%nat by lia. by rewrite seq_app, fmap_app, concat_app. }
  replace (nb * bs)%nat with (length agg_col + (nb * bs - length agg_col))%nat by lia. rewrite seq_app, fmap_app, concat_app, (chunk_rows_beyond (0 + length agg_col)) by lia. by rewrite app_nil_r.
Qed.

Lemma counted_perm s es es' : es ≡ₚ es' -> counters_ok s es -> counters_ok s es'.
Proof. intros Hp [Hn [Hl Hc]]. split; [done |]. split; [done |]. intros a Ha. rewrite (Hc a Ha). f_equal. by apply total_perm. Qed.

Lemma abs_weight_perm es es' : es ≡ₚ es' -> weight es = weight es'.
Proof. induction 1 as [|[a b] ? ? ? IH|[a b] [c d] ?|]; unfold weight in *; cbn [fmap list_fmap zsum] in *; lia. Qed.

(** The batches cover all chunks. *)
Definition covered (num_aggs_ : Z) (num_parallel : spec_float) : Prop :=
  exists bs nb : nat, filter_batches (Z.of_nat (length agg_col)) num_aggs_ num_parallel = Some (Z.of_nat bs, Z.of_nat nb) /\
    (length agg_col <= nb * bs)%nat /\ Z.of_nat (nb * bs) < 2 ^ 31.

Lemma InitializeGroupFilters_ok schedule num_parallel num_aggs_ s : cols <> [] -> covered num_aggs_ num_parallel -> (forall m, schedule m ≡ₚ seq 0 m) ->
  counters_ok s [] -> weight all_rows < 2 ^ 63 ->
  exists s', InitializeGroupFilters schedule num_parallel num_aggs_ index_maps agg_col s = Some s' /\ counters_ok s' all_rows.
Proof.
  intros Hne (bs & nb & E & Hc & Hm) Hsched Hs Hw. unfold InitializeGroupFilters. assert (length index_maps <> 0)%nat as Hl by (unfold index_maps; rewrite length_fmap; by destruct cols).
  rewrite (proj2 (Nat.eqb_neq _ _) Hl), E. cbn [mbind option_bind]. rewrite Nat2Z.id.
  assert (concat (batch_rows bs <$> schedule nb) ≡ₚ all_rows) as HP by (rewrite <- (batches_all bs nb Hc); by rewrite Hsched).
  destruct (scan_batches_ok bs nb Hm (schedule nb) s []) as (s' & E' & Hs').
  - rewrite Hsched. apply Forall_forall. intros b Hb. apply elem_of_seq in Hb. lia.
  - done.
  - cbn [app]. by rewrite (abs_weight_perm _ _ HP).
  - exists s'. split; [exact E' |]. by eapply counted_perm.
Qed.

End Scan.

(** ** Output *)

Section Output.
Context {AA : ArrowAggregate} (cols : list GroupCol) (agg_col : Chunks) (k : AggregateKernel) (val : nat -> Z).
Context (Hprintable : Forall (fun c => is_string_type (gb_type c) || is_number_type (gb_type c) = true) cols).

Definition N : nat := size (bounds cols).

(** The counters, or the result of the kernel when there is one group. *)
Context (Hk : k <> MEAN) (Hone : N = 1%nat -> ComputeAggregate k agg_col = Some (val 0)).

Definition data_ok (data : list Z) : Prop := length data = N /\ (N <> 1%nat -> forall a, (a < N)%nat -> data !! a = Some (val a)).

(** The GROUP BY values of combination [a]. *)
Definition group_of (a : nat) : list Z := values_of cols (nth a (tuples (bounds cols)) []).

(** The builders after the groups [l]. *)
Definition built (l : list nat) : Builders := mkBuilders (imap (fun j _ => (fun a => nth j (group_of a) 0) <$> l) cols) (val <$> l).

Lemma append_group_ok cs p bs : Forall (fun c => is_string_type (gb_type c) || is_number_type (gb_type c) = true) cs -> digits (bounds cs) p -> length bs = length cs ->
  append_group (gb_type <$> cs) (uniques cs) p bs = Some (inr (zip_with (fun b v => b ++ [v]) bs (values_of cs p))).
Proof.
  unfold digits, bounds, values_of, uniques. intros HF. revert p bs. induction HF as [|c cs Hc _ IH]; intros p bs Hp Hl; cbn in Hp, Hl |- *.
  - destruct bs; [| done]. done.
  - inversion Hp as [|? d ? p' Hd Hp']; subst. destruct bs as [|b bs]; [done |]. rewrite (IH p' bs Hp') by (cbn in Hl; lia).
    destruct (lookup_lt_is_Some_2 (Unique (gb_chunks c)) (Z.to_nat d)) as [v Hv]; [lia |].
    rewrite orb_comm in Hc. destruct (gb_type c); cbn in Hc |- *; try done; rewrite Hv; cbn; by rewrite (nth_lookup_Some _ _ _ _ Hv).
Qed.

Lemma length_values_of cs p : digits (bounds cs) p -> length (values_of cs p) = length cs.
Proof.
  intros Hd. pose proof (Forall2_length _ _ _ Hd) as Hl. unfold values_of, bounds, uniques in *. rewrite length_zip_with. rewrite !length_fmap in *. lia.
Qed.

Lemma built_snoc l a p : tuples (bounds cols) !! a = Some p ->
  zip_with (fun b v => b ++ [v]) (group_builder_ (built l)) (values_of cols p) = group_builder_ (built (l ++ [a])).
Proof.
  intros Ha. assert (digits (bounds cols) p) as Hd by (apply tuples_digits; by eapply list_elem_of_lookup_2). cbn [built group_builder_]. apply list_eq. intros j.
  rewrite lookup_zip_with, !list_lookup_imap. destruct (cols !! j) as [c|] eqn:Ec; [| done]. cbn.
  destruct (lookup_lt_is_Some_2 (values_of cols p) j) as [v Hv]; [rewrite length_values_of by done; by eapply lookup_lt_Some |]. rewrite Hv. cbn.
  rewrite fmap_app. cbn. unfold group_of. rewrite (nth_lookup_Some _ _ _ _ Ha), (nth_lookup_Some _ _ _ _ Hv). done.
Qed.

Definition emit (a : nat) : list nat := if (a <? N)%nat && (0 <? val a) then [a] else [].

Lemma emit_beyond n : forall b, (N <= b)%nat -> concat (emit <$> seq b n) = [].
Proof. induction n as [|n IH]; intros b Hb; [done |]. cbn [seq fmap list_fmap concat]. rewrite IH by lia. unfold emit. by rewrite (proj2 (Nat.ltb_ge _ _)). Qed.

Lemma compute_group_ok a p data l : tuples (bounds cols) !! a = Some p -> data_ok data ->
  exists data', ComputeGroupAggregate k (Z.of_nat N) (gb_type <$> cols) (uniques cols) agg_col a p data (built l) = Some (inr (data', built (l ++ emit a))) /\ data_ok data'.
Proof.
  intros Ha [Hl Hd]. pose proof (lookup_lt_Some _ _ _ Ha) as HaN. fold (size (bounds cols)) in HaN. fold N in HaN.
  assert (exists data', (if Z.of_nat N =? 1 then x ← ComputeAggregate k agg_col; set_at a x data else Some data) = Some data' /\ data_ok data' /\ data' !! a = Some (val a)) as (data' & E & Hok & Hx).
  { destruct (Z.eqb_spec (Z.of_nat N) 1) as [E1 | Hne].
    - assert (a = 0%nat) as -> by lia. rewrite Hone by lia. cbn [mbind option_bind]. unfold set_at. rewrite (proj2 (Nat.ltb_lt _ _)) by lia.
      eexists. split; [reflexivity |]. split; [split; [by rewrite length_insert | lia] | by rewrite list_lookup_insert_eq by lia].
    - exists data. split; [done |]. split; [done |]. apply Hd; lia. }
  exists data'. split; [| done]. unfold ComputeGroupAggregate. rewrite E. cbn [mbind option_bind]. rewrite Hx. cbn [mbind option_bind]. unfold emit.
  rewrite (proj2 (Nat.ltb_lt _ _) HaN). cbn [andb]. destruct (0 <? val a); [| by rewrite app_nil_r].
  assert (InsertGroupAggregate k (val a) (built l) = Some (mkBuilders (group_builder_ (built l)) (val <$> l ++ [a]))) as -> by (unfold InsertGroupAggregate; rewrite fmap_app; by destruct k).
  cbn [mbind option_bind]. unfold InsertGroupColumns. cbn [group_builder_ aggregate_builder_].
  rewrite append_group_ok; [| done | apply tuples_digits; by eapply list_elem_of_lookup_2 | unfold built; cbn [group_builder_]; by rewrite length_imap]. cbn [mbind option_bind].
  rewrite (built_snoc l a p Ha). done.
Qed.

Lemma output_groups_ok n : forall a data l, data_ok data ->
  exists data', output_groups n a k (Z.of_nat N) (gb_type <$> cols) (uniques cols) agg_col (tuples (bounds cols)) data (built l) =
    Some (inr (data', built (l ++ concat (emit <$> seq a n)))) /\ data_ok data'.
Proof.
  induction n as [|n IH]; intros a data l Hd; cbn [output_groups seq fmap list_fmap concat]; [exists data; by rewrite app_nil_r |].
  destruct (Z.ltb_spec (Z.of_nat a) (Z.of_nat N)) as [Ha | Ha].
  - destruct (lookup_lt_is_Some_2 (tuples (bounds cols)) a) as [p Hp]; [unfold N, size in Ha; lia |]. rewrite Hp. cbn [mbind option_bind].
    destruct (compute_group_ok a p data l Hp Hd) as (data1 & -> & Hd1). cbn [mbind option_bind]. destruct (IH (S a) data1 (l ++ emit a) Hd1) as (data' & E & Hd').
    exists data'. by rewrite app_assoc.
  - exists data. replace (emit a) with ([] : list nat) by (unfold emit; by rewrite (proj2 (Nat.ltb_ge _ _)) by lia). rewrite emit_beyond by lia. by rewrite app_nil_r.
Qed.

Lemma output_batches_ok (bs nb : nat) : Z.of_nat (nb * bs) < 2 ^ 31 -> forall order data l, Forall (fun b => (b < nb)%nat) order -> data_ok data ->
  exists data', output_batches order (Z.of_nat bs) k (Z.of_nat N) (gb_type <$> cols) (uniques cols) agg_col (tuples (bounds cols)) data (built l) =
    Some (inr (data', built (l ++ concat ((fun b => concat (emit <$> seq (b * bs) bs)) <$> order)))).
Proof.
  intros Hm. induction order as [|b order IH]; intros data l HF Hd; cbn [output_batches fmap list_fmap concat]; [exists data; by rewrite app_nil_r |].
  apply Forall_cons in HF as [Hb HF]. rewrite (small_index b bs nb), Nat2Z.id by done.
  destruct (output_groups_ok bs (b * bs) data l Hd) as (data1 & -> & Hd1). cbn [mbind option_bind]. rewrite app_assoc. by apply IH.
Qed.

(** The groups with a positive aggregate. *)
Definition positive : list nat := base.filter (fun a => 0 < val a) (seq 0 N).

Lemma emit_all bs nb : (N <= nb * bs)%nat -> concat ((fun b => concat (emit <$> seq (b * bs) bs)) <$> seq 0 nb) = positive.
Proof.
  intros Hc. assert (concat ((fun b => concat (emit <$> seq (b * bs) bs)) <$> seq 0 nb) = concat (emit <$> seq 0 (nb * bs))) as ->.
  { clear Hc. induction nb as [|nb IH]; [done |]. rewrite seq_S, fmap_app, concat_app, IH. cbn [fmap list_fmap concat]. rewrite app_nil_r, Nat.add_0_l.
    replace (S nb * bs)%nat with (nb * bs + bs)%nat by lia. by rewrite seq_app, fmap_app, concat_app. }
  replace (nb * bs)%nat with (N + (nb * bs - N))%nat by lia. rewrite seq_app, fmap_app, concat_app.
  rewrite (emit_beyond _ (0 + N)%nat), app_nil_r by lia. unfold positive. assert (forall m, (m <= N)%nat -> concat (emit <$> seq 0 m) = base.filter (fun a => 0 < val a) (seq 0 m)) as HE; [| by apply HE].
  induction m as [|m IH]; intros Hm; [done |]. rewrite seq_S, fmap_app, concat_app, filter_app, IH by lia. cbn [fmap list_fmap concat]. rewrite app_nil_r. f_equal.
  unfold emit. rewrite (proj2 (Nat.ltb_lt _ _)) by lia. cbn [andb]. rewrite filter_cons, filter_nil, Nat.add_0_l. destruct (Z.ltb_spec 0 (val m)); [by rewrite decide_True | by rewrite decide_False by lia].
Qed.

End Output.

(** ** The whole operator *)

Section Groups.
Context {AA : ArrowAggregate} (cols : list GroupCol) (agg_col : Chunks).
Context (Hcover : forall c chunk, agg_col !! c = Some chunk -> groups_cover cols c (length chunk)).
Context (Hrows : concat agg_col <> []) (Hmax : Forall (fun m => m < 2 ^ 31) (bounds cols)).

Definition chunk_values (c : nat) : list Z := nth c agg_col [].

(** All rows are aggregated, whatever the filter of the table. *)
Definition all_positions : list (nat * nat) := selected_positions None chunk_values (length agg_col).
Definition agg_rows : list (list Z * Z) := selected_rows cols None chunk_values (length agg_col).

Lemma selected_all i n : selected None i n = seq i n.
Proof. unfold selected. revert i. induction n as [|n IH]; intros i; [done |]. cbn [seq]. rewrite filter_cons, decide_True by done. by rewrite IH. Qed.

Lemma all_rows_eq : all_rows cols agg_col = (fun ci => (Z.of_nat (row_index cols (fst ci) (snd ci)), nth (snd ci) (chunk_values (fst ci)) 0)) <$> all_positions.
Proof.
  unfold all_rows, all_positions, selected_positions. assert (forall l, Forall (fun c => (c < length agg_col)%nat) l ->
    concat (chunk_rows cols agg_col <$> l) = (fun ci => (Z.of_nat (row_index cols (fst ci) (snd ci)), nth (snd ci) (chunk_values (fst ci)) 0)) <$>
      concat ((fun c => (fun i => (c, i)) <$> selected (bits_at None c) 0 (length (chunk_values c))) <$> l)) as HL.
  { induction 1 as [|c l Hc _ IH]; [done |]. cbn [fmap list_fmap concat]. rewrite fmap_app, <- list_fmap_compose, <- IH. f_equal.
    destruct (lookup_lt_is_Some_2 agg_col c Hc) as [chunk Ec]. unfold chunk_rows, chunk_values. rewrite Ec, (nth_lookup_Some _ _ _ _ Ec).
    unfold bits_at. cbn [mbind option_bind]. rewrite selected_all. unfold row_entries. apply list_eq. intros j. rewrite list_lookup_imap, list_lookup_fmap.
    destruct (chunk !! j) as [v|] eqn:Ev.
    - rewrite lookup_seq_lt by (by eapply lookup_lt_Some). cbn. rewrite (nth_lookup_Some _ _ _ _ Ec), (nth_lookup_Some _ _ _ _ Ev). done.
    - rewrite lookup_seq_ge by (by apply lookup_ge_None). done. }
  apply HL. apply Forall_forall. intros c Hc. apply elem_of_seq in Hc. lia.
Qed.

Lemma agg_rows_values : agg_rows.*2 = concat agg_col.
Proof.
  unfold agg_rows, selected_rows, selected_positions. rewrite <- list_fmap_compose.
  assert (forall l, Forall (fun c => (c < length agg_col)%nat) l ->
    (snd ∘ (fun ci : nat * nat => (group_at cols (fst ci) (snd ci), nth (snd ci) (chunk_values (fst ci)) 0))) <$>
      concat ((fun c => (fun i => (c, i)) <$> selected (bits_at None c) 0 (length (chunk_values c))) <$> l) = concat (chunk_values <$> l)) as HL.
  { induction 1 as [|c l Hc _ IH]; [done |]. cbn [fmap list_fmap concat]. rewrite fmap_app, <- list_fmap_compose. f_equal; [| exact IH].
    unfold bits_at. cbn [mbind option_bind]. rewrite selected_all. exact (fmap_nth_seq 0 (chunk_values c)). }
  rewrite HL by (apply Forall_forall; intros c Hc; apply elem_of_seq in Hc; lia). f_equal. apply fmap_nth_seq.
Qed.

Lemma position_ok c i : (c, i) ∈ all_positions -> exists p, digits (bounds cols) p /\ values_of cols p = group_at cols c i /\
  tuples (bounds cols) !! row_index cols c i = Some p.
Proof.
  intros Hin. apply selected_bound in Hin as [Hc Hi]. destruct (lookup_lt_is_Some_2 agg_col c Hc) as [chunk Ec].
  unfold chunk_values in Hi. rewrite (nth_lookup_Some _ _ _ _ Ec) in Hi. destruct (row_positions cols c i (length chunk) (Hcover c chunk Ec) Hi Hmax) as (_ & p & _ & _ & _ & Hd & Hv).
  exists p. split_and!; [done | done |]. by apply row_index_ok.
Qed.

Lemma bounds_pos : Forall (fun m => 0 < m) (bounds cols).
Proof.
  assert (exists ci, ci ∈ all_positions) as [[c i] Hin].
  { destruct all_positions as [|ci l] eqn:E; [| exists ci; left]. exfalso. apply Hrows. rewrite <- agg_rows_values. unfold agg_rows, selected_rows. fold all_positions. by rewrite E. }
  apply position_ok in Hin as (p & Hd & _). by eapply digits_pos.
Qed.

(** A row has the number of its group. *)
Lemma row_index_iff c i a : (c, i) ∈ all_positions -> (a < N cols)%nat -> row_index cols c i = a <-> group_at cols c i = group_of cols a.
Proof.
  intros Hin Ha. destruct (position_ok c i Hin) as (p & Hd & Hv & Hp). destruct (lookup_lt_is_Some_2 (tuples (bounds cols)) a Ha) as [q Hq].
  unfold group_of. rewrite (nth_lookup_Some _ _ _ _ Hq), <- Hv. split.
  - intros <-. rewrite Hq in Hp. by injection Hp as ->.
  - intros E. apply values_of_inj in E as ->; [| done | apply tuples_digits; by eapply list_elem_of_lookup_2].
    by apply (NoDup_lookup _ _ _ _ (tuples_nodup _) Hp Hq).
Qed.

Definition group_value (k : AggregateKernel) (a : nat) : Z :=
  match k with COUNT => Z.of_nat (length (base.filter (fun r => fst r = group_of cols a) agg_rows))
  | _ => zsum (snd <$> base.filter (fun r => fst r = group_of cols a) agg_rows) end.

Lemma total_group a : (a < N cols)%nat -> total (Z.of_nat a) (all_rows cols agg_col) = group_value SUM a.
Proof.
  intros Ha. cbn [group_value]. unfold total. rewrite all_rows_eq. unfold agg_rows, selected_rows. fold all_positions.
  assert (forall l, l ⊆ all_positions -> snd <$> base.filter (fun e => fst e = Z.of_nat a)
      ((fun ci => (Z.of_nat (row_index cols (fst ci) (snd ci)), nth (snd ci) (chunk_values (fst ci)) 0)) <$> l) =
    snd <$> base.filter (fun r => fst r = group_of cols a) ((fun ci => (group_at cols (fst ci) (snd ci), nth (snd ci) (chunk_values (fst ci)) 0)) <$> l)) as HL; [| by rewrite HL].
  induction l as [|[c i] l IH]; intros Hsub; [done |]. rewrite !fmap_cons, !filter_cons. cbn [fst snd].
  pose proof (row_index_iff c i a ltac:(set_solver) Ha) as Hiff. specialize (IH ltac:(set_solver)).
  destruct (decide (group_at cols c i = group_of cols a)) as [E | E].
  - rewrite decide_True by (f_equal; by apply Hiff). rewrite !fmap_cons. cbn [snd]. by f_equal.
  - rewrite decide_False; [done |]. intros E'. apply E, Hiff. lia.
Qed.

(** With one combination every row is in the group. *)
Lemma one_group_rows : N cols = 1%nat -> base.filter (fun r => fst r = group_of cols 0) agg_rows = agg_rows.
Proof.
  intros H1. unfold agg_rows, selected_rows. fold all_positions. assert (forall l, l ⊆ all_positions -> base.filter (fun r => fst r = group_of cols 0)
    ((fun ci => (group_at cols (fst ci) (snd ci), nth (snd ci) (chunk_values (fst ci)) 0)) <$> l) = (fun ci => (group_at cols (fst ci) (snd ci), nth (snd ci) (chunk_values (fst ci)) 0)) <$> l) as HL; [| by apply HL].
  induction l as [|[c i] l IH]; intros Hsub; [done |]. rewrite fmap_cons, filter_cons, decide_True.
  - f_equal. apply IH. set_solver.
  - cbn [fst snd]. apply (row_index_iff c i 0%nat); [set_solver | lia |]. destruct (position_ok c i ltac:(set_solver)) as (p & _ & _ & Hp). apply lookup_lt_Some in Hp.
    unfold N, size in H1. lia.
Qed.

Lemma group_of_inj a b : (a < N cols)%nat -> (b < N cols)%nat -> group_of cols a = group_of cols b -> a = b.
Proof.
  intros Ha Hb. destruct (lookup_lt_is_Some_2 (tuples (bounds cols)) a Ha) as [p Hp], (lookup_lt_is_Some_2 (tuples (bounds cols)) b Hb) as [q Hq].
  unfold group_of. rewrite (nth_lookup_Some _ _ _ _ Hp), (nth_lookup_Some _ _ _ _ Hq). intros E.
  apply values_of_inj in E as ->; [by apply (NoDup_lookup _ _ _ _ (tuples_nodup _) Hp Hq) | |]; apply tuples_digits; by eapply list_elem_of_lookup_2.
Qed.

Definition positive_group (k : AggregateKernel) (g : list Z) : Prop := g ∈ agg_rows.*1 /\ exists x, aggregate_of k agg_rows g = CInt x /\ 0 < x.

(** The groups of the positive counters are the groups with a positive aggregate. *)
Lemma positive_groups k l : k <> MEAN -> l ≡ₚ positive cols (group_value k) ->
  NoDup (group_of cols <$> l) /\ (forall g, g ∈ group_of cols <$> l <-> positive_group k g) /\
  CInt <$> (group_value k <$> l) = aggregate_of k agg_rows <$> (group_of cols <$> l).
Proof.
  intros Hk Hl. assert (forall a, a ∈ l <-> (a < N cols)%nat /\ 0 < group_value k a) as Hin.
  { intros a. rewrite Hl. unfold positive. rewrite list_elem_of_filter, elem_of_seq. split; [intros [? ?]; split; [lia | done] | intros [? ?]; split; [done | lia]]. }
  assert (forall a, aggregate_of k agg_rows (group_of cols a) = CInt (group_value k a)) as Hagg.
  { intros a. unfold aggregate_of, group_value. destruct k; [done | by rewrite length_fmap | done]. }
  split_and!.
  - apply NoDup_fmap_2_strong; [| rewrite Hl; unfold positive; apply NoDup_filter, NoDup_seq]. intros a b Ha Hb. apply group_of_inj; by apply Hin.
  - intros g. rewrite list_elem_of_fmap. split.
    + intros (a & -> & Ha). apply Hin in Ha as [Ha Hv]. split; [| exists (group_value k a); by rewrite Hagg].
      destruct (base.filter (fun r => fst r = group_of cols a) agg_rows) as [|r rs] eqn:Ef.
      * exfalso. unfold group_value in Hv. rewrite Ef in Hv. by destruct k.
      * assert (r ∈ base.filter (fun r => fst r = group_of cols a) agg_rows) as Hr by (rewrite Ef; left). apply list_elem_of_filter in Hr as [<- Hr]. by apply list_elem_of_fmap_2.
    + intros [Hg (x & Ex & Hx)]. unfold agg_rows, selected_rows in Hg. fold all_positions in Hg. rewrite <- list_fmap_compose in Hg.
      apply list_elem_of_fmap in Hg as ([c i] & -> & Hci). cbn [compose fst snd] in Ex |- *. destruct (position_ok c i Hci) as (p & _ & _ & Hp). apply lookup_lt_Some in Hp.
      pose proof (proj1 (row_index_iff c i (row_index cols c i) Hci Hp) eq_refl) as Eg. exists (row_index cols c i). split; [done |]. apply Hin. split; [done |].
      rewrite Eg, Hagg in Ex. injection Ex as <-. done.
  - rewrite <- !list_fmap_compose. apply list_fmap_ext. intros j a _. cbn [compose]. by rewrite Hagg.
Qed.

End Groups.

Lemma index_of_name_ok refs : NoDup (col_name <$> refs) -> forall j g i, refs !! j = Some g -> index_of_name (col_name g) refs i = Some (i + j)%nat.
Proof.
  induction refs as [|r refs IH]; intros Hnd j g i Hj; [done |]. apply NoDup_cons in Hnd as [Hr Hnd]. cbn [index_of_name]. destruct j as [|j].
  - injection Hj as ->. rewrite String.eqb_refl. f_equal. lia.
  - cbn in Hj. destruct (String.eqb_spec (col_name r) (col_name g)) as [E | Hne].
    + exfalso. apply Hr. rewrite E. apply list_elem_of_fmap_2. by eapply list_elem_of_lookup_2.
    + rewrite (IH Hnd j g (S i) Hj). f_equal. lia.
Qed.

Lemma compute_unique_values_ok {AA : ArrowAggregate} refs cols : NoDup (col_name <$> refs) -> length cols = length refs -> compute_unique_values refs cols = Some (uniques cols).
Proof.
  intros Hnd Hl. unfold compute_unique_values. apply mapM_Some. apply Forall2_same_length_lookup. unfold uniques. rewrite length_fmap. split; [done |].
  intros j g u Hg Hu. rewrite (index_of_name_ok refs Hnd j g 0 Hg). cbn [mbind option_bind]. rewrite list_lookup_fmap in Hu. destruct (cols !! j) as [c|] eqn:Ec; [| done].
  injection Hu as <-. rewrite Nat.add_0_l, Ec. done.
Qed.

Lemma output_config_ok (n : nat) hw : (0 < n)%nat -> Z.of_nat n < 2 ^ 30 -> 0 < hw ->
  exists bs nb : nat, output_config (Z.of_nat n) hw = Some (Z.of_nat bs, Z.of_nat nb) /\ (n <= nb * bs)%nat /\ Z.of_nat (nb * bs) < 2 ^ 31.
Proof.
  intros Hn Hb Hw. unfold output_config. rewrite (proj2 (Z.eqb_neq hw 0)) by lia. cbv zeta. set (q := Z.of_nat n / hw / 2).
  assert (0 <= q <= Z.of_nat n) as Hq.
  { unfold q. split; [apply Z.div_pos; [apply Z.div_pos; lia | lia] |]. transitivity (Z.of_nat n / hw); [apply Z.div_le_upper_bound; [lia |]; pose proof (Z.div_pos (Z.of_nat n) hw); lia |].
    apply Z.div_le_upper_bound; nia. }
  set (bs := if q =? 0 then Z.of_nat n else q). assert (0 < bs <= Z.of_nat n) as Hbs by (unfold bs; destruct (Z.eqb_spec q 0); lia).
  rewrite (proj2 (Z.eqb_neq bs 0)) by lia. rewrite wrapu_id by (unfold is_u; lia).
  pose proof (Z.div_mod (Z.of_nat n - 1) bs ltac:(lia)) as E. pose proof (Z.mod_pos_bound (Z.of_nat n - 1) bs ltac:(lia)) as Hm. pose proof (Z.div_pos (Z.of_nat n - 1) bs ltac:(lia) ltac:(lia)) as Hd.
  exists (Z.to_nat bs), (Z.to_nat (1 + (Z.of_nat n - 1) / bs)). split_and!; [f_equal; f_equal; lia | nia | nia].
Qed.

(** What the operator needs: GROUP BY columns that cover the aggregated rows,
    with few enough values for decimal keys; batches that cover all chunks; sums
    that do not overflow. *)
Record enum_input {AA : ArrowAggregate} (k : AggregateKernel) (cols : list GroupCol) (agg_col : Chunks) (num_parallel : spec_float) : Prop := {
  en_cover : forall c chunk, agg_col !! c = Some chunk -> groups_cover cols c (length chunk);
  en_rows : concat agg_col <> [];
  en_decimal : decimal (bounds cols);
  en_key : dkey (bounds cols) < 2 ^ 31;
  en_size : Z.of_nat (N cols) < 2 ^ 30;
  en_bounds : Forall (fun m => m < 2 ^ 31) (bounds cols);
  en_printable : Forall (fun c => is_string_type (gb_type c) || is_number_type (gb_type c) = true) cols;
  en_values : zsum (Z.abs <$> concat agg_col) < 2 ^ 63;
  en_kernel : k = SUM \/ k = COUNT /\ N cols = 1%nat;
  en_batches : cols <> [] -> covered agg_col (Z.of_nat (N cols)) num_parallel
}.

Section Execute.
Context {AA : ArrowAggregate} {AS : ArrowSort}.

Lemma enum_counters k cols agg_col num_parallel scan_schedule g : enum_input k cols agg_col num_parallel -> (forall m, scan_schedule m ≡ₚ seq 0 m) ->
  numbered (bounds cols) (size (bounds cols)) (group_agg_index_map_ g) ->
  exists s, InitializeGroupFilters scan_schedule num_parallel (Z.of_nat (N cols)) (index_maps cols) agg_col
      (mkCounters (group_agg_index_map_ g) (replicate (N cols) 0)) = Some s /\ data_ok cols (group_value cols agg_col k) (aggregate_data_ s).
Proof.
  intros HI Hsched Hnum. destruct HI as [Hcover Hrows Hdec Hkey Hsize Hmax _ Hw Hk Hb]. destruct (decide (cols = [])) as [-> | Hne].
  { exists (mkCounters (group_agg_index_map_ g) (replicate 1 0)). split; [done |]. split; [done |]. done. }
  destruct (InitializeGroupFilters_ok cols Hkey Hmax agg_col Hcover scan_schedule num_parallel (Z.of_nat (N cols)) (mkCounters (group_agg_index_map_ g) (replicate (N cols) 0)))
    as (s & E & [_ [Hl Hc]]); [done | by apply Hb | done | | |].
  - split; [done |]. split; [cbn [aggregate_data_]; by rewrite length_replicate |]. intros a Ha. cbn [aggregate_data_]. rewrite lookup_replicate_2 by done. done.
  - rewrite all_rows_eq. unfold weight. rewrite <- agg_rows_values with (cols := cols) in Hw. unfold agg_rows, selected_rows in Hw. fold (all_positions agg_col) in Hw.
    rewrite <- !list_fmap_compose in Hw. rewrite <- !list_fmap_compose. exact Hw.
  - exists s. split; [done |]. split; [done |]. intros HN1 a Ha. rewrite (Hc a Ha). f_equal. destruct Hk as [-> | [_ HN]]; [| done]. by apply total_group.
Qed.

Lemma aggregate_ok get_column get_type hardware_concurrency num_parallel scan_schedule output_schedule k agg_ref group_by_refs order_by_refs prev_result
    cols lt lt' agg_col :
  materialize_groups get_column get_type prev_result group_by_refs = Some cols -> NoDup (col_name <$> group_by_refs) ->
  get_table (cr_table agg_ref) prev_result = Some lt -> MaterializeColumn get_column (col_name agg_ref) lt = Some (lt', agg_col) ->
  enum_input k cols agg_col num_parallel -> clause_ok order_by_refs group_by_refs -> 0 < hardware_concurrency ->
  (forall m, scan_schedule m ≡ₚ seq 0 m) -> (forall m, output_schedule m ≡ₚ seq 0 m) ->
  exists gs keys, Execute get_column get_type hardware_concurrency num_parallel scan_schedule output_schedule k agg_ref group_by_refs order_by_refs prev_result =
      Some (inr (group_columns cols gs ++ [mkDatum INT64 (aggregate_of k (agg_rows cols agg_col) <$> gs)])) /\
    NoDup gs /\ (forall g, g ∈ gs <-> positive_group cols agg_col k g) /\
    Forall2 (key_column group_by_refs (group_columns cols gs) (mkDatum INT64 (aggregate_of k (agg_rows cols agg_col) <$> gs))) order_by_refs keys /\
    (forall a b, (a < b < length gs)%nat -> lex_le (zip ((fun _ => Ascending) <$> order_by_refs) keys) a b).
Proof.
  intros Eg Hnames Elt Ecol HI Hclause Hhw Hs1 Hs2. pose proof (materialize_groups_length _ _ _ _ _ Eg) as Hlen. pose proof HI as [Hcover Hrows Hdec Hkey Hsize Hmax Hprint Hw Hk Hb].
  assert (k <> MEAN) as HkM by (by destruct Hk as [-> | [-> _]]). pose proof (bounds_pos cols agg_col Hcover Hrows Hmax) as Hpos.
  destruct (enumerate_groups_ok (bounds cols) Hpos Hdec Hkey ltac:(unfold N in Hsize; lia) Hmax) as (g & Een & Evec & Hnum).
  destruct (enum_counters k cols agg_col num_parallel scan_schedule g HI Hs1 Hnum) as (s & Einit & Hdata).
  assert (num_aggs (bounds cols) = Z.of_nat (N cols)) as En by (apply num_aggs_ok; [done | unfold N in Hsize; lia]).
  destruct (output_config_ok (N cols) hardware_concurrency) as (bs & nb & Ecfg & Hbn & Hbm); [by apply size_pos | done | done |].
  assert (N cols = 1%nat -> ComputeAggregate k agg_col = Some (group_value cols agg_col k 0)) as Hone.
  { intros HN1. destruct Hk as [-> | [-> _]]; cbn [ComputeAggregate group_value]; f_equal; rewrite one_group_rows by done.
    - rewrite agg_rows_values. apply Sum_spec; [done |]. unfold is_s. change (2 ^ (64 - 1)) with (2 ^ 63).
      assert (Z.abs (zsum (concat agg_col)) <= zsum (Z.abs <$> concat agg_col)) as Habs by (clear; induction (concat agg_col) as [|x l IH]; cbn [fmap list_fmap zsum]; lia). lia.
    - rewrite <- (length_fmap snd), agg_rows_values. by apply Count_spec. }
  destruct (output_batches_ok cols agg_col k (group_value cols agg_col k) Hprint HkM Hone bs nb Hbm (output_schedule nb) (aggregate_data_ s) []) as (data' & Eout).
  { rewrite Hs2. apply Forall_forall. intros x Hx. apply elem_of_seq in Hx. lia. }
  { done. }
  set (l := concat ((fun b => concat (emit cols (group_value cols agg_col k) <$> seq (b * bs) bs)) <$> output_schedule nb)) in *.
  assert (l ≡ₚ positive cols (group_value cols agg_col k)) as Hl by (rewrite <- (emit_all cols agg_col k (group_value cols agg_col k) Hone bs nb Hbn); unfold l; by rewrite Hs2).
  destruct (positive_groups cols agg_col Hcover Hmax k l HkM Hl) as (Hnd & Hin & Hcells). set (gs := group_of cols <$> l) in *.
  destruct (sort_groups_ok tt (fun _ => Ascending) order_by_refs group_by_refs k cols None (chunk_values agg_col) (length agg_col) gs Hclause) as (gs' & keys & Esort & Hperm & HK & Hlex); [done | done |].
  assert (forall gs, aggregate_column k cols None (chunk_values agg_col) (length agg_col) gs = mkDatum INT64 (aggregate_of k (agg_rows cols agg_col) <$> gs)) as Eag
    by (intros; unfold aggregate_column, agg_rows; f_equal; by destruct k).
  rewrite !Eag in *. exists gs', keys. split_and!; [| by rewrite Hperm | intros g'; by rewrite Hperm | done | done].
  unfold Execute. rewrite Eg. cbn [mbind option_bind]. rewrite compute_unique_values_ok by done. cbn [mbind option_bind]. rewrite Elt. cbn [mbind option_bind]. rewrite Ecol. cbn [mbind option_bind].
  fold (bounds cols). rewrite Een. cbn [mbind option_bind]. rewrite En, Nat2Z.id.
  assert (zip_with (fun c u => match_values (gb_chunks c) u) cols (uniques cols) = index_maps cols) as -> by (unfold uniques, index_maps; clear; induction cols as [|c cs IH]; cbn; [done | by f_equal]).
  rewrite Einit. cbn [mbind option_bind]. rewrite Ecfg. cbn [mbind option_bind]. rewrite Nat2Z.id, Evec.
  assert (mkBuilders (replicate (length cols) []) [] = built cols (group_value cols agg_col k) []) as ->.
  { unfold built. f_equal. apply list_eq. intros j. rewrite list_lookup_imap. destruct (decide (j < length cols)%nat) as [Hj | Hj].
    - rewrite lookup_replicate_2 by done. destruct (lookup_lt_is_Some_2 cols j Hj) as [c ->]. done.
    - rewrite !lookup_ge_None_2 by (rewrite ?length_replicate; lia). done. }
  rewrite Eout. cbn [mbind option_bind app]. unfold Finish, SortResult, built. cbn [group_builder_ aggregate_builder_].
  assert (zip_with (fun t vs => mkDatum t (CInt <$> vs)) (gb_type <$> cols) (imap (fun j _ => (fun a => nth j (group_of cols a) 0) <$> l) cols) = group_columns cols gs) as ->.
  { unfold group_columns, gs. apply list_eq. intros j. rewrite lookup_zip_with, list_lookup_fmap, !list_lookup_imap. destruct (cols !! j) as [c|]; [| done]. cbn.
    by rewrite <- !list_fmap_compose. }
  rewrite Hcells. unfold mbind at 1, option_bind at 1. erewrite bind_val by exact Esort. done.
Qed.

End Execute.

(** A clause without DESC asks for the order that the code sorts in. *)
Lemma ascending_clause order_by_refs : Forall (fun r => is_desc r = false) order_by_refs -> order_of <$> order_by_refs = (fun _ => Ascending) <$> order_by_refs.
Proof. induction 1 as [|r l E _ IH]; [done |]. rewrite !fmap_cons, IH. unfold order_of at 1. by rewrite E. Qed.

End AggEnumSpec.

Import AggEnumSpec.


(** ** Examples *)

Module AggEnumDemo.
Import MergeSortKernels.

Definition position (keys : list Z) (v : Z) : Z := default (-1) ((fun x => Z.of_nat (fst x)) <$> list_find (fun k => k = v) keys).

#[export] Program Instance ListKernels : ArrowAggregate := {|
  Unique := fun c => reverse (remove_dups (reverse (concat c)));
  IndexIn := fun vals keys => position keys <$> vals;
  Sum := fun c => to_i64 (zsum (concat c));
  Count := fun c => Z.of_nat (length (concat c))
|}.
Next Obligation. intros c. rewrite reverse_Permutation. apply NoDup_remove_dups. Qed.
Next Obligation. intros c v. by rewrite elem_of_reverse, elem_of_remove_dups, elem_of_reverse. Qed.
Next Obligation.
  intros vals keys i j v Hv Hj Hnd. cbn. rewrite list_lookup_fmap, Hv. cbn. unfold position.
  destruct (list_find_elem_of (fun k => k = v) keys v) as [[a x] Ea]; [by eapply list_elem_of_lookup_2 | done |]. rewrite Ea. cbn.
  apply list_find_Some in Ea as (Ha & -> & _). f_equal. f_equal. by eapply NoDup_lookup.
Qed.
Next Obligation. intros c _ Hs. by apply wraps_id. Qed.
Next Obligation. done. Qed.

Definition two : spec_float := double_of_Z 2.
Definition in_turn (m : nat) : list nat := seq 0 m.
Definition int_type (t : Z) (c : string) : DataType := INT64.
Definition one_table : OperatorResult := [newLazyTable 1 None None None None].
Definition v_ref : ColumnReference := mkColumnReference 1 "v".
Definition group_g : list ColumnReference := [mkColumnReference 1 "g"].
Definition group_gh : list ColumnReference := [mkColumnReference 1 "g"; mkColumnReference 1 "h"].
Definition by_sum : list OrderByReference := [mkOrderByReference (mkColumnReference nullptr "s") false].

(** g = 1, 2 | 1, 3 and v = 10, 20 | 30, -5 *)
Definition demo (t : Z) (c : string) : option Chunks := if String.eqb c "g" then Some [[1; 2]; [1; 3]] else Some [[10; 20]; [30; -5]].
Definition demo_groups : list GroupCol := [mkGroupCol INT64 [[1; 2]; [1; 3]]].

Definition run (cols : Z -> string -> option Chunks) (k : AggregateKernel) (group_by_refs : list ColumnReference) : option (exn + list Datum) :=
  Execute cols int_type 2 two in_turn in_turn k v_ref group_by_refs [] one_table.

Lemma demo_enum_input : enum_input SUM demo_groups [[10; 20]; [30; -5]] two.
Proof.
  split; try done.
  - intros [|[|c]] chunk Hc; [| | done]; injection Hc as <-; repeat constructor; eexists; split; reflexivity || (cbn; lia).
  - cbn. by split; [left |].
  - by repeat constructor.
  - by repeat constructor.
  - by left.
  - intros _. exists 1%nat, 3%nat. split_and!; [vm_compute; reflexivity | cbn; lia | done].
Qed.

Lemma demo_by_sum : clause_ok by_sum group_g.
Proof.
  split; [| repeat constructor]. split.
  - repeat constructor. apply not_elem_of_nil.
  - by repeat constructor.
  - exists [], by_sum. by repeat constructor.
Qed.

End AggEnumDemo.

Import AggEnumDemo.


(** ** Defects *)

Module AggEnumDefects.

(** Groups 1 and 2, in four chunks: 1 and 10, 2 and 20. *)
Definition four_chunks (t : Z) (c : string) : option Chunks := if String.eqb c "g" then Some [[1]; [2]; [1]; [2]] else Some [[1]; [2]; [10]; [20]].

(** Eleven values of g with h = 0, and the first of them again with h = 1. *)
Definition eleven (t : Z) (c : string) : option Chunks :=
  if String.eqb c "g" then Some [[100; 101; 102; 103; 104; 105; 106; 107; 108; 109; 110; 100]]
  else if String.eqb c "h" then Some [[0; 0; 0; 0; 0; 0; 0; 0; 0; 0; 0; 1]]
  else Some [[1; 2; 3; 4; 5; 6; 7; 8; 9; 10; 11; 1000]].

Definition empty_table (t : Z) (c : string) : option Chunks := Some [[]].

End AggEnumDefects.

Import AggEnumDefects.

(** The number of batches of chunks is computed from the number of groups:
    with four chunks, two groups and two threads only the first two chunks are
    scanned and the sums are 1 and 2 instead of 11 and 22. *)
Theorem aggregate_skips_chunks :
  run four_chunks SUM group_g = Some (inr [mkDatum INT64 [CInt 1; CInt 2]; mkDatum INT64 [CInt 1; CInt 2]]).
Proof. vm_compute. reflexivity. Qed.

(** The key of a combination has the positions of its values as decimal
    digits, so that with eleven values in a column position (10, 0) and position
    (0, 1) have the same key: the value 1000 of the group (100, 1) is added to the
    group (110, 0), which gets 1011 instead of 11, and (100, 1) is missing. *)
Theorem aggregate_key_collision :
  run eleven SUM group_gh = Some (inr [mkDatum INT64 (CInt <$> [100; 101; 102; 103; 104; 105; 106; 107; 108; 109; 110]);
    mkDatum INT64 (CInt <$> replicate 11 0); mkDatum INT64 (CInt <$> [1; 2; 3; 4; 5; 6; 7; 8; 9; 10; 1011])]) /\
  decimal_key [10; 0] 0 0 = decimal_key [0; 1] 0 0.
Proof. split; vm_compute; reflexivity. Qed.

(** Groups whose sum is not positive are dropped, and with more than one group
    COUNT is computed as SUM. *)
Theorem aggregate_drops_groups :
  run demo SUM group_g = Some (inr [mkDatum INT64 [CInt 1; CInt 2]; mkDatum INT64 [CInt 40; CInt 20]]) /\
  run demo COUNT group_g = run demo SUM group_g.
Proof. split; vm_compute; reflexivity. Qed.

(** Without rows there is no combination, but the loop writes the first one. *)
Theorem aggregate_empty_input_undefined : run empty_table SUM group_g = None.
Proof. vm_compute. reflexivity. Qed.

(** DESC is ignored: a clause that asks for descending sums gives the sums 20 and
    40 in this order. *)
Theorem aggregate_ignores_desc :
  Execute (AS := MergeSortKernels.MergeSort) demo int_type 2 two in_turn in_turn SUM v_ref group_g
    [mkOrderByReference (mkColumnReference nullptr "s") true] one_table =
    Some (inr [mkDatum INT64 [CInt 2; CInt 1]; mkDatum INT64 [CInt 20; CInt 40]]).
Proof. vm_compute. reflexivity. Qed.
