(* ===== verification/Catalog.v ===== *)
(** * The catalog (catalog/catalog, catalog/table_schema, catalog/column_schema, api/hustle_db)

    A catalog maps the names of tables to their schemas and to the tables in
    memory, writes itself to a file after every change and mirrors new tables
    into SQLite.  The databases of a process share a map of catalogs.  What a
    method does outside memory is a list of effects; whether SQLite accepts a
    statement is an argument.  [None] is undefined behaviour (a [CHAR] without a
    size). *)

From Stdlib Require Import ZArith Lia.
From stdpp Require Import base numbers list gmap option strings pretty sorting.
Import stdpp.list_basics.list stdpp.list_relations.list stdpp.list_monad.list.
From S2P Require Import Prelude.

Local Open Scope Z_scope.

(** [std::map] is iterated in the order of its keys. *)
Definition key_le {A} (a b : string * A) : Prop := String.leb a.1 b.1 = true.
#[export] Instance key_le_dec {A} : RelDecision (@key_le A).
Proof. intros a b. unfold key_le. apply _. Defined.
Definition std_map_list {A} (m : gmap string A) : list (string * A) := merge_sort key_le (map_to_list m).

Module Cat.

(** ** column_schema.h *)

Inductive HustleType := INTEGER | CHAR.

Record ColumnType := mkColumnType { type_ : HustleType; size_ : option Z }.

Record ColumnSchema := mkColumnSchema { cs_name_ : string; cs_type_ : ColumnType; notNull_ : bool; unique_ : bool }.

Definition toString (t : ColumnType) : option string :=
  match type_ t with
  | INTEGER => Some "INT"%string
  | CHAR => n ← size_ t; Some ("CHAR(" +:+ pretty n +:+ ")")%string
  end.

(** ** table_schema *)

Record TableSchema := mkTableSchema {
  ts_name_ : string;
  primary_key_ : list string;
  columns_ : list ColumnSchema;
  name_to_id_ : gmap string nat
}.

Definition newTableSchema (name : string) : TableSchema := mkTableSchema name [] [] ∅.

Definition setPrimaryKey (pk : list string) (t : TableSchema) : TableSchema :=
  mkTableSchema (ts_name_ t) pk (columns_ t) (name_to_id_ t).

Definition addColumn (c : ColumnSchema) (t : TableSchema) : bool * TableSchema :=
  match name_to_id_ t !! cs_name_ c with
  | Some _ => (false, t)
  | None =>
      let columns := columns_ t ++ [c] in
      (true, mkTableSchema (ts_name_ t) (primary_key_ t) columns
               (<[cs_name_ c := (length columns - 1)%nat]> (name_to_id_ t)))
  end.

(** The outer [None] is an index outside [columns_]. *)
Definition ColumnExists (name : string) (t : TableSchema) : option (option ColumnSchema) :=
  match name_to_id_ t !! name with
  | None => Some None
  | Some i => c ← columns_ t !! i; Some (Some c)
  end.

(** ** catalog.cc *)

(** The columns of the statement from number [i] on, of [n]. *)
Fixpoint sql_columns (n i : nat) (cols : list ColumnSchema) : option string :=
  match cols with
  | [] => Some ""%string
  | c :: cols' =>
      ty ← toString (cs_type_ c);
      rest ← sql_columns n (S i) cols';
      Some (cs_name_ c +:+ " " +:+ ty +:+ " " +:+
            (if unique_ c then " UNIQUE" else "") +:+ (if notNull_ c then " NOT NULL" else "") +:+
            (if (i <? n - 1)%nat then ", " else "") +:+ rest)%string
  end.

Definition createCreateSql (ts : TableSchema) : option string :=
  cols ← sql_columns (length (columns_ ts)) 0 (columns_ ts);
  let key :=
    match primary_key_ ts with
    | [] => ""
    | k :: ks => ", PRIMARY KEY(" +:+ k +:+ foldr (fun x s => ", " +:+ x +:+ s) "" ks +:+ ")"
    end%string in
  Some ("BEGIN;" +:+ "CREATE TABLE " +:+ ts_name_ ts +:+ "(" +:+ cols +:+ key +:+ ");" +:+ "COMMIT;")%string.

(** [table] is the address of the table, [None] the null pointer. *)
Record TableInfo := mkTableInfo { table_schema : TableSchema; table : option Z }.

Record Catalog := mkCatalog { tables_ : gmap string TableInfo; CatalogPath_ : string; SqlitePath_ : string }.

Definition newCatalog (CatalogPath SqlitePath : string) : Catalog := mkCatalog ∅ CatalogPath SqlitePath.

(** What a method does outside memory: the file it writes (the schemas are what
    is serialised), the statement it executes. *)
Inductive Effect :=
| Saved (path : string) (contents : list (string * TableSchema))
| Executed (sql : string).

Definition SaveToFile (c : Catalog) : Effect :=
  Saved (CatalogPath_ c) (prod_map (fun x => x) table_schema <$> std_map_list (tables_ c)).

Definition GetTable (c : Catalog) (table_name : string) : option Z := info ← tables_ c !! table_name; table info.

Definition TableExists (c : Catalog) (name : string) : option TableSchema := table_schema <$> tables_ c !! name.

Definition GetTableNames (c : Catalog) : list string := fst <$> std_map_list (tables_ c).
Definition GetTableSchemas (c : Catalog) : list TableSchema := (fun kv => table_schema kv.2) <$> std_map_list (tables_ c).

Definition set_tables (m : gmap string TableInfo) (c : Catalog) : Catalog := mkCatalog m (CatalogPath_ c) (SqlitePath_ c).

Section Sqlite.
(** [execute_sqlite_query] on the open database. *)
Context (execute_sqlite_query : string -> bool).

Definition DropTable (c : Catalog) (name : string) : bool * list Effect :=
  let sql := ("DROP TABLE " +:+ name +:+ ";")%string in
  (execute_sqlite_query sql, [Executed sql]).

Definition DropMemTable (c : Catalog) (name : string) : bool * Catalog * list Effect :=
  match tables_ c !! name with
  | None => (false, c, [])
  | Some _ => let c' := set_tables (base.delete name (tables_ c)) c in (true, c', [SaveToFile c'])
  end.

(** A statement that SQLite rejects is only reported on [std::cerr]. *)
Definition AddTable (c : Catalog) (t : TableSchema) (table_ref : option Z) : option (bool * Catalog * list Effect) :=
  match tables_ c !! ts_name_ t with
  | Some _ => Some (false, c, [])
  | None =>
      let c' := set_tables (<[ts_name_ t := mkTableInfo t table_ref]> (tables_ c)) c in
      sql ← createCreateSql t;
      if execute_sqlite_query sql
      then Some (true, c', [SaveToFile c'; Executed sql])
      else Some (true, c', [SaveToFile c'; Executed sql])
  end.

End Sqlite.

(** ** hustle_db.cc: the catalogs of the process, by the path of the database *)

Definition Catalogs : Type := gmap string (option Z).

Definition add_catalog (db_name : string) (catalog : option Z) (catalogs : Catalogs) : Catalogs :=
  match catalogs !! db_name with Some _ => catalogs | None => <[db_name := catalog]> catalogs end.

(** [catalogs\[db_name\]] inserts a null pointer for an unknown name. *)
Definition get_catalog (db_name : string) (catalogs : Catalogs) : option Z * Catalogs :=
  match catalogs !! db_name with Some c => (c, catalogs) | None => (None, <[db_name := None]> catalogs) end.

End Cat.

Import Cat.

(** ** Schemas and catalogs are consistent *)

Module CatalogProof.

(** [name_to_id_] is the inverse of the names of [columns_]. *)
Definition schema_ok (t : TableSchema) : Prop :=
  forall name i, name_to_id_ t !! name = Some i <-> exists c, columns_ t !! i = Some c /\ cs_name_ c = name.

Lemma schema_ok_new name : schema_ok (newTableSchema name).
Proof. intros n i. cbn. rewrite lookup_empty. naive_solver. Qed.

Lemma addColumn_ok c t : schema_ok t -> schema_ok (addColumn c t).2.
Proof.
  intros I. unfold addColumn. destruct (name_to_id_ t !! cs_name_ c) as [|] eqn:E; [done |].
  intros name i. cbn. rewrite length_app. cbn [length].
  replace (length (columns_ t) + 1 - 1)%nat with (length (columns_ t)) by lia.
  rewrite lookup_insert_Some, (I name i). split.
  - intros [[<- <-] | [Hne (d & Ed & Hd)]]; [exists c | exists d].
    + by rewrite lookup_app_r, Nat.sub_diag by lia.
    + by rewrite lookup_app_l by (by eapply lookup_lt_Some).
  - intros (d & [Ed | [Hi Ed]]%lookup_app_Some & Hd).
    + right. split; [| by eauto]. intros En.
      assert (name_to_id_ t !! cs_name_ c = Some i) as E' by (apply I; exists d; split; [done | congruence]). congruence.
    + apply list_lookup_singleton_Some in Ed as [Ei <-]. left. split; [done | lia].
Qed.

(** Adding columns one after the other. *)
Definition addColumns (cs : list ColumnSchema) (t : TableSchema) : TableSchema := foldl (fun t c => (addColumn c t).2) t cs.

Lemma addColumns_ok cs t : schema_ok t -> schema_ok (addColumns cs t).
Proof. revert t. induction cs as [|c cs IH]; intros t I; [done |]. apply IH. by apply addColumn_ok. Qed.

Lemma ColumnExists_ok t name : schema_ok t ->
  exists r, ColumnExists name t = Some r /\
    match r with
    | Some c => c ∈ columns_ t /\ cs_name_ c = name
    | None => Forall (fun c => cs_name_ c <> name) (columns_ t)
    end.
Proof.
  intros I. unfold ColumnExists. destruct (name_to_id_ t !! name) as [i|] eqn:E.
  - apply I in E as (c & Ec & Hc). exists (Some c). rewrite Ec. split; [done |]. split; [by eapply list_elem_of_lookup_2 | done].
  - exists None. split; [done |]. apply Forall_forall. intros c [i Hi]%list_elem_of_lookup Hn.
    assert (name_to_id_ t !! name = Some i) by (apply I; eauto). congruence.
Qed.

(** A schema built column by column finds every column it was given a name of,
    and has no two columns of the same name. *)
Theorem schema_columns name cs (t := addColumns cs (newTableSchema name)) :
  NoDup (cs_name_ <$> columns_ t) /\
  forall n, exists r, ColumnExists n t = Some r /\
    match r with Some c => c ∈ columns_ t /\ cs_name_ c = n | None => Forall (fun c => cs_name_ c <> n) (columns_ t) end.
Proof.
  assert (schema_ok t) as I by apply addColumns_ok, schema_ok_new. split; [| intros n; by apply ColumnExists_ok].
  apply NoDup_alt. intros i j x. rewrite !list_lookup_fmap.
  intros (c & Ec & ->)%fmap_Some (d & Ed & Hd)%fmap_Some.
  assert (name_to_id_ t !! cs_name_ c = Some i) by (apply I; eauto).
  assert (name_to_id_ t !! cs_name_ c = Some j) by (apply I; eauto). congruence.
Qed.

(** Every table is entered under its own name. *)
Definition catalog_ok (c : Catalog) : Prop := map_Forall (fun name info => ts_name_ (table_schema info) = name) (tables_ c).

Lemma AddTable_ok exec c t r b c' es :
  catalog_ok c -> AddTable exec c t r = Some (b, c', es) ->
  catalog_ok c' /\ b = bool_decide (TableExists c (ts_name_ t) = None) /\
  (forall n, GetTable c' n = if decide (b = true /\ n = ts_name_ t) then r else GetTable c n).
Proof.
  unfold AddTable, TableExists, GetTable. intros I E. destruct (tables_ c !! ts_name_ t) as [info|] eqn:Et.
  - injection E as <- <- <-. split_and!; [done | done |]. intros n. by rewrite decide_False by naive_solver.
  - destruct (createCreateSql t) as [sql|]; [| done]. cbn in E.
    assert (b = true /\ c' = set_tables (<[ts_name_ t := mkTableInfo t r]> (tables_ c)) c) as [-> ->].
    { destruct (exec sql); by injection E as <- <- _. }
    split_and!; [by apply map_Forall_insert_2 | done |]. intros n. cbn. case_decide as Hn.
    + destruct Hn as [_ ->]. by rewrite lookup_insert, decide_True.
    + by rewrite lookup_insert_ne by naive_solver.
Qed.

Lemma DropMemTable_ok c name b c' es :
  catalog_ok c -> DropMemTable c name = (b, c', es) ->
  catalog_ok c' /\ b = bool_decide (is_Some (TableExists c name)) /\
  (forall n, GetTable c' n = if decide (n = name) then None else GetTable c n) /\
  es = (if b then [SaveToFile c'] else []).
Proof.
  unfold DropMemTable, TableExists, GetTable. intros I E. destruct (tables_ c !! name) as [info|] eqn:Et; injection E as <- <- <-.
  - split_and!; [by apply map_Forall_delete | | | done].
    + symmetry. apply bool_decide_eq_true. eauto.
    + intros n. cbn. case_decide as Hn; [subst; by rewrite lookup_delete, decide_True | by rewrite lookup_delete_ne].
  - split_and!; [done | | | done].
    + symmetry. apply bool_decide_eq_false. intros [? ?]. done.
    + intros n. case_decide; [subst; by rewrite Et | done].
Qed.

(** What a client of the catalog can rely on: the operations of the process on
    one catalog, in any order. *)
Inductive catalog_step (exec : string -> bool) : Catalog -> Catalog -> Prop :=
| step_add c t r b c' es : AddTable exec c t r = Some (b, c', es) -> catalog_step exec c c'
| step_drop c name b c' es : DropMemTable c name = (b, c', es) -> catalog_step exec c c'.

Theorem catalog_reachable_ok exec path sqlite c : rtc (catalog_step exec) (newCatalog path sqlite) c -> catalog_ok c.
Proof.
  intros H. remember (newCatalog path sqlite) as c0 eqn:E0.
  assert (catalog_ok c0) as I by (subst; by apply map_Forall_empty). clear E0.
  induction H as [c|c1 c2 c3 Hs _ IH]; [done |]. apply IH. destruct Hs as [c t r b c' es E | c name b c' es E].
  - by eapply AddTable_ok.
  - by eapply DropMemTable_ok.
Qed.

(** The statement sent to SQLite for a table of two columns. *)
Example create_sql_example :
  createCreateSql (setPrimaryKey ["k"%string] (addColumns
    [mkColumnSchema "k" (mkColumnType INTEGER None) true true; mkColumnSchema "s" (mkColumnType CHAR (Some 10)) false false]
    (newTableSchema "t"))) =
  Some "BEGIN;CREATE TABLE t(k INT  UNIQUE NOT NULL, s CHAR(10) , PRIMARY KEY(k));COMMIT;"%string.
Proof. vm_compute. reflexivity. Qed.

End CatalogProof.
