(* ===== verification/Resolver.v ===== *)
(** * Resolving a SELECT statement (resolver/select_resolver, the structures of resolver/cresolver.h)

    SQLite parses a statement and hands the tree of a SELECT to the resolver,
    which collects what an execution plan needs: a predicate tree per table, the
    join predicates, the references of the SELECT, GROUP BY and ORDER BY clauses.
    A statement it cannot resolve is left to SQLite.

    The predicate trees are shared objects: the code compares pointers to find out
    whether a tree is already entered for its table, so a tree has an address.
    [None] is undefined behaviour (a null dereference, an access outside an array,
    a union read at another member).  The tables in memory are reached through
    their addresses; the order in which an [unordered_map] is iterated is an
    argument. *)

From Stdlib Require Import ZArith Lia.
From stdpp Require Import base numbers list gmap option strings.
Import stdpp.list_basics.list stdpp.list_relations.list stdpp.list_monad.list.
From S2P Require Import Prelude Columns HashJoin Metadata Select Expression AggregateSort Catalog.
Import Join MetadataAttachedBlock Selection.

Local Open Scope Z_scope.

(** ** What the resolver reads of SQLite's structures (cresolver.h) *)

Module Sql.

Local Set Warnings "-register-all".

Definition TK_OR : Z := 43.
Definition TK_AND : Z := 44.
Definition TK_BETWEEN : Z := 48.
Definition TK_NE : Z := 52.
Definition TK_EQ : Z := 53.
Definition TK_GT : Z := 54.
Definition TK_LE : Z := 55.
Definition TK_LT : Z := 56.
Definition TK_GE : Z := 57.
Definition TK_STRING : Z := 115.
Definition TK_INTEGER : Z := 152.
Definition TK_AGG_FUNCTION : Z := 165.
Abbreviation TK_COLUMN := Expr.TK_COLUMN.
Abbreviation TK_AGG_COLUMN := Expr.TK_AGG_COLUMN.

Definition SF_Distinct : Z := 0x1.
Definition SF_All : Z := 0x2.
Definition SF_Compound : Z := 0x100.
Definition SF_Values : Z := 0x200.
Definition SF_MultiValue : Z := 0x400.
Definition SF_NestedFrom : Z := 0x800.
Definition SF_Recursive : Z := 0x2000.
Definition SF_FixedLimit : Z := 0x4000.
Definition SF_View : Z := 0x200000.
Definition JT_UNSUPPORTED : Z := 0x7E.
Definition KEYINFO_ORDER_DESC : Z := 0x01.

(** A table of the schema and the names of its columns. *)
Record Table := mkTable { zName : string; aCol : list string }.

(** The union [u]. *)
Inductive Token := zToken (s : string) | iValue (v : Z).

(** An absent [x.pList] is the empty list, an absent [y.pTab] is [None]. *)
Inductive Expr := mkExpr {
  op : Z;
  u : Token;
  pLeft : option Expr;
  pRight : option Expr;
  pList : list Expr;
  iTable : Z;
  iColumn : Z;
  pTab : option Table
}.

Record ExprListItem := mkItem { pExpr : Expr; zEName : option string; sortFlags : Z; iOrderByCol : Z }.

(** [true] is a pointer that is not null. *)
Record SrcListItem := mkSrc { src_zName : string; src_pSelect : bool; src_pUsing : bool; src_pOn : bool; jointype : Z }.

Record Sqlite3Select := mkSelect {
  pEList : list ExprListItem;
  selFlags : Z;
  pSrc : option (list SrcListItem);
  pWhere : option Expr;
  pGroupBy : option (list ExprListItem);
  pHaving : bool;
  pOrderBy : option (list ExprListItem);
  pNext : bool
}.

End Sql.

Import Sql.

Module Resolve.

(** [PredicateTree]; [pt_id] is its address, [table_id_] has no initial value. *)
Record PredicateTree := mkPredicateTree { pt_id : Z; root_ : Node; table_id_ : option Z; table_name_ : string }.

Record ProjectReference := mkProjectReference { colRef : ColumnReference; alias : string }.

Record AggregateReference := mkAggregateReference {
  kernel : Agg.AggregateKernel;
  agg_name : string;
  agg_col_ref : ColumnReference;
  expr_ref : Expr.ExprReference
}.

Inductive JoinType := STAR | LINEAR | OTHER.

Record SelectResolver := mkResolver {
  select_predicates_ : gmap string (option PredicateTree);
  join_predicates_ : gmap string JoinPredicate;
  join_graph_ : gmap string (list JoinPredicate);
  predicates_ : list JoinPredicate;
  agg_references_ : list AggregateReference;
  group_by_references_ : list ColumnReference;
  order_by_references_ : list Agg.OrderByReference;
  project_references_ : list ProjectReference;
  resolve_status_ : bool;
  join_type_ : option JoinType;
  next_address : Z
}.

Definition newSelectResolver : SelectResolver := mkResolver ∅ ∅ ∅ [] [] [] [] [] true None 1.

Definition set_select_predicates (m : gmap string (option PredicateTree)) (r : SelectResolver) : SelectResolver :=
  mkResolver m (join_predicates_ r) (join_graph_ r) (predicates_ r) (agg_references_ r) (group_by_references_ r)
    (order_by_references_ r) (project_references_ r) (resolve_status_ r) (join_type_ r) (next_address r).

Definition set_joins (jp : gmap string JoinPredicate) (jg : gmap string (list JoinPredicate)) (ps : list JoinPredicate)
    (r : SelectResolver) : SelectResolver :=
  mkResolver (select_predicates_ r) jp jg ps (agg_references_ r) (group_by_references_ r)
    (order_by_references_ r) (project_references_ r) (resolve_status_ r) (join_type_ r) (next_address r).

Definition set_join_type (jt : JoinType) (r : SelectResolver) : SelectResolver :=
  mkResolver (select_predicates_ r) (join_predicates_ r) (join_graph_ r) (predicates_ r) (agg_references_ r) (group_by_references_ r)
    (order_by_references_ r) (project_references_ r) (resolve_status_ r) (Some jt) (next_address r).

Definition set_references (ag : list AggregateReference) (gb : list ColumnReference) (ob : list Agg.OrderByReference)
    (pr : list ProjectReference) (r : SelectResolver) : SelectResolver :=
  mkResolver (select_predicates_ r) (join_predicates_ r) (join_graph_ r) (predicates_ r) ag gb ob pr
    (resolve_status_ r) (join_type_ r) (next_address r).

Definition set_status (b : bool) (r : SelectResolver) : SelectResolver :=
  mkResolver (select_predicates_ r) (join_predicates_ r) (join_graph_ r) (predicates_ r) (agg_references_ r) (group_by_references_ r)
    (order_by_references_ r) (project_references_ r) b (join_type_ r) (next_address r).

Definition set_next (n : Z) (r : SelectResolver) : SelectResolver :=
  mkResolver (select_predicates_ r) (join_predicates_ r) (join_graph_ r) (predicates_ r) (agg_references_ r) (group_by_references_ r)
    (order_by_references_ r) (project_references_ r) (resolve_status_ r) (join_type_ r) n.

Abbreviation M := (StM SelectResolver).

(** [std::make_shared<PredicateTree>(root)] *)
Definition make_tree (root : Node) (id : option Z) (name : string) : M PredicateTree :=
  r ← get;
  _ ← modify (set_next (next_address r + 1));
  mret (mkPredicateTree (next_address r) root id name).

(** [select_predicates_\[name\]] inserts a null pointer for a new name. *)
Definition lookup_predicates (name : string) : M (option PredicateTree) :=
  r ← get;
  match select_predicates_ r !! name with
  | Some p => mret p
  | None => _ ← modify (set_select_predicates (<[name := None]> (select_predicates_ r))); mret None
  end.

Definition enter_predicates (name : string) (t : PredicateTree) : M unit :=
  modify (fun r => set_select_predicates (<[name := Some t]> (select_predicates_ r)) r).

Section Resolver.
(** [catalog_->GetTable], [DBTable::get_name] and [DBTable::get_num_rows]. *)
Context (GetTable : string -> option Z) (get_name : Z -> string) (get_num_rows : Z -> Z).

Definition table_ptr (name : string) : Z := default Agg.nullptr (GetTable name).

(** [{catalog_->GetTable(e->y.pTab->zName), e->y.pTab->aCol\[e->iColumn\].zName}] *)
Definition column_ref (e : Expr) : option ColumnReference :=
  t ← pTab e;
  c ← (if iColumn e <? 0 then None else aCol t !! Z.to_nat (iColumn e));
  Some (mkColumnReference (table_ptr (zName t)) c).

(** ** ResolvePredExpr *)

(** One operand of an AND has no tree of its own. *)
Definition resolve_single (o : Z) (cur_pred_tree : PredicateTree) : M (option PredicateTree) :=
  if o =? TK_AND then
    prev_pred_tree ← lookup_predicates (table_name_ cur_pred_tree);
    if bool_decide (pt_id <$> prev_pred_tree = Some (pt_id cur_pred_tree)) then mret None
    else
      prev ← defined prev_pred_tree;
      t ← make_tree (ConnectiveNode (root_ prev) (root_ cur_pred_tree) AND) None "";
      _ ← enter_predicates (table_name_ cur_pred_tree) t;
      mret (Some t)
  else mret None.

Definition resolve_both (o : Z) (leftExpr rightExpr : option Expr) (lpred_tree rpred_tree : PredicateTree) : M (option PredicateTree) :=
  ll ← defined (e ← leftExpr; pLeft e);
  rl ← defined (e ← rightExpr; pLeft e);
  if iTable ll =? iTable rl then
    connective ← defined (if o =? TK_OR then Some OR else if o =? TK_AND then Some AND else None);
    t ← make_tree (ConnectiveNode (root_ lpred_tree) (root_ rpred_tree) connective) (table_id_ lpred_tree) (table_name_ lpred_tree);
    _ ← enter_predicates (table_name_ lpred_tree) t;
    mret (Some t)
  else if o =? TK_OR then throw RuntimeError
  else mret None.

Definition comparatorOperator (o : Z) : CompareOperator :=
  if o =? TK_NE then NOT_EQUAL else if o =? TK_EQ then EQUAL else if o =? TK_LT then LESS
  else if o =? TK_LE then LESS_EQUAL else if o =? TK_GT then GREATER else GREATER_EQUAL.

(** [zToken] and [iValue] share their memory. *)
Definition datum (e : Expr) : option Scalar :=
  match u e with
  | zToken s => if op e =? TK_STRING then Some (StringScalar s) else None
  | iValue v => if op e =? TK_STRING then None else Some (NumberScalar INT64 v)
  end.

Definition is_column (e : option Expr) : bool := match e with Some e => op e =? TK_COLUMN | None => false end.
Definition is_literal (e : option Expr) : bool := match e with Some e => (op e =? TK_INTEGER) || (op e =? TK_STRING) | None => false end.

Definition resolve_comparison (o : Z) (leftExpr rightExpr : option Expr) : M (option PredicateTree) :=
  if is_column leftExpr && is_literal rightExpr then
    le ← defined leftExpr;
    re ← defined rightExpr;
    colRef ← defined (column_ref le);
    value ← defined (datum re);
    tab ← defined (pTab le);
    t ← make_tree (PredicateNode (mkPredicate (col_name colRef) (comparatorOperator o) value None)) (Some (iTable le)) (zName tab);
    prev ← lookup_predicates (zName tab);
    _ ← (match prev with None => enter_predicates (zName tab) t | Some _ => mret tt end);
    mret (Some t)
  else
    _ ← (if is_column leftExpr && is_column rightExpr then mret tt else modify (set_status false));
    mret None.

Definition resolve_between (leftExpr : option Expr) (list : list Expr) : M (option PredicateTree) :=
  if is_column leftExpr then
    le ← defined leftExpr;
    colRef ← defined (column_ref le);
    firstExpr ← defined (list !! 0%nat);
    secondExpr ← defined (list !! 1%nat);
    if (op firstExpr =? TK_INTEGER) && (op secondExpr =? TK_INTEGER) then
      ldatum ← defined (datum firstExpr);
      rdatum ← defined (datum secondExpr);
      tab ← defined (pTab le);
      t ← make_tree
            (ConnectiveNode (PredicateNode (mkPredicate (col_name colRef) GREATER_EQUAL ldatum None))
                            (PredicateNode (mkPredicate (col_name colRef) LESS_EQUAL rdatum None)) AND)
            (Some (iTable le)) (zName tab);
      _ ← enter_predicates (zName tab) t;
      mret (Some t)
    else mret None
  else mret None.

Definition is_connective (o : Z) : bool := (o =? TK_INTEGER) || (o =? TK_STRING) || (o =? TK_OR) || (o =? TK_AND).
Definition is_comparison (o : Z) : bool :=
  (o =? TK_NE) || (o =? TK_EQ) || (o =? TK_GT) || (o =? TK_LE) || (o =? TK_LT) || (o =? TK_GE).

Fixpoint ResolvePredExpr (e : Expr) : M (option PredicateTree) :=
  match e with
  | mkExpr o _ leftExpr rightExpr list _ _ _ =>
      if is_connective o then
        lpred_tree ← (match leftExpr with Some l => ResolvePredExpr l | None => mret None end);
        rpred_tree ← (match rightExpr with Some r => ResolvePredExpr r | None => mret None end);
        match lpred_tree, rpred_tree with
        | None, None => mret None
        | None, Some t | Some t, None => resolve_single o t
        | Some lt, Some rt => resolve_both o leftExpr rightExpr lt rt
        end
      else if is_comparison o then resolve_comparison o leftExpr rightExpr
      else if o =? TK_BETWEEN then resolve_between leftExpr list
      else if (o =? TK_AGG_COLUMN) || (o =? TK_AGG_FUNCTION) || (o =? TK_COLUMN) then mret None
      else _ ← modify (set_status false); mret None
  end.

(** ** ResolveJoinPredExpr *)

Definition add_join_graph (t : Z) (p : JoinPredicate) (g : gmap string (list JoinPredicate)) : gmap string (list JoinPredicate) :=
  if t =? Agg.nullptr then g else <[get_name t := default [] (g !! get_name t) ++ [p]]> g.

(** The larger table is on the left. *)
Definition orient (lRef rRef : ColumnReference) : JoinPredicate :=
  if negb (cr_table lRef =? Agg.nullptr) && negb (cr_table rRef =? Agg.nullptr) &&
     (get_num_rows (cr_table lRef) <? get_num_rows (cr_table rRef))
  then mkJoinPredicate rRef lRef else mkJoinPredicate lRef rRef.

Definition add_join (p : JoinPredicate) (r : SelectResolver) : SelectResolver :=
  let rt := cr_table (right_col_ p) in
  let lt := cr_table (left_col_ p) in
  let r1 :=
    if rt =? Agg.nullptr then r
    else set_joins (<[get_name rt := p]> (join_predicates_ r)) (add_join_graph rt p (join_graph_ r)) (predicates_ r ++ [p]) r in
  set_joins (join_predicates_ r1) (add_join_graph lt p (join_graph_ r1)) (predicates_ r1) r1.

Fixpoint ResolveJoinPredExpr (e : Expr) : M unit :=
  match e with
  | mkExpr o _ leftExpr rightExpr _ _ _ _ =>
      if (o =? TK_STRING) || (o =? TK_INTEGER) || (o =? TK_COLUMN) then mret tt
      else if o =? TK_EQ then
        if is_column leftExpr && is_column rightExpr then
          lRef ← defined (e ← leftExpr; column_ref e);
          rRef ← defined (e ← rightExpr; column_ref e);
          modify (add_join (orient lRef rRef))
        else mret tt
      else
        _ ← (match leftExpr with Some l => ResolveJoinPredExpr l | None => mret tt end);
        match rightExpr with Some r => ResolveJoinPredExpr r | None => mret tt end
  end.

(** ** CheckJoinSupport *)

#[export] Instance ColumnReference_eq_dec : EqDecision ColumnReference.
Proof. solve_decision. Defined.
#[export] Instance JoinPredicate_eq_dec : EqDecision JoinPredicate.
Proof. solve_decision. Defined.

(** [table->get_name()] *)
Definition name_of (t : Z) : option string := if t =? Agg.nullptr then None else Some (get_name t).

(** The table at the other end of a predicate. *)
Definition next_table (p : JoinPredicate) (curr_table_name : string) : option string :=
  l ← name_of (cr_table (left_col_ p));
  if bool_decide (l = curr_table_name) then name_of (cr_table (right_col_ p)) else Some l.

(** The [while] loop: [fuel] is [predicates_.size() - covered_preds].  [Some
    None] is [return false]; the graph is returned since [join_graph_\[t\]] may
    insert. *)
Fixpoint follow (fuel : nat) (curr_predicate : JoinPredicate) (curr_table_name : string) (visited_tables : list string)
    (ordered_predicates : list JoinPredicate) (g : gmap string (list JoinPredicate))
    : option (option (list JoinPredicate) * gmap string (list JoinPredicate)) :=
  match fuel with
  | O => Some (Some ordered_predicates, g)
  | S fuel' =>
      if bool_decide (curr_table_name ∈ visited_tables) then Some (None, g)
      else
        let ordered := ordered_predicates ++ [curr_predicate] in
        next ← next_table curr_predicate curr_table_name;
        let rpredicates := default [] (g !! next) in
        let g' := <[next := rpredicates]> g in
        if (2 <? length rpredicates)%nat then Some (None, g')
        else
          match list_find (fun p => p <> curr_predicate) rpredicates with
          | Some (_, p) => follow fuel' p next (curr_table_name :: visited_tables) ordered g'
          | None =>
              if (0 <? fuel')%nat then Some (None, g')
              else follow fuel' curr_predicate curr_table_name (curr_table_name :: visited_tables) ordered g'
          end
  end.

(** The last table with one predicate. *)
Fixpoint start_table (entries : list (string * list JoinPredicate)) (start : option (JoinPredicate * string)) : option (JoinPredicate * string) :=
  match entries with
  | [] => start
  | (name, [p]) :: entries' => start_table entries' (Some (p, name))
  | _ :: entries' => start_table entries' start
  end.

(** [iterate]: the order in which [join_graph_] is iterated. *)
Definition CheckJoinSupport (iterate : gmap string (list JoinPredicate) -> list (string * list JoinPredicate)) (r0 : SelectResolver)
    : option (bool * SelectResolver) :=
  let r := set_join_type OTHER r0 in
  if existsb (fun e => bool_decide (length e.2 = length (predicates_ r))) (iterate (join_graph_ r))
  then Some (true, set_join_type STAR r)
  else
    match start_table (iterate (join_graph_ r)) None with
    | None => Some (false, r)
    | Some (start_predicate, start_table_name) =>
        if bool_decide (start_table_name = EmptyString) then Some (false, r)
        else
          '(ordered, g) ← follow (length (predicates_ r)) start_predicate start_table_name [] [] (join_graph_ r);
          match ordered with
          | None => Some (false, set_joins (join_predicates_ r) g (predicates_ r) r)
          | Some ps => Some (true, set_join_type LINEAR (set_joins (join_predicates_ r) g ps r))
          end
    end.

(** ** ResolveAggExpr *)

Fixpoint ResolveAggExpr (e : Expr) : option Expr.ExprReference :=
  match e with
  | mkExpr o _ l r _ _ _ _ =>
      if (o =? Expr.TK_STAR) || (o =? Expr.TK_PLUS) || (o =? Expr.TK_MINUS) || (o =? Expr.TK_SLASH) ||
         (o =? TK_COLUMN) || (o =? TK_AGG_COLUMN) then
        column ← (if (o =? TK_COLUMN) || (o =? TK_AGG_COLUMN) then Some <$> column_ref e else Some None);
        le ← (match l with Some l => ResolveAggExpr l | None => Some Expr.NullExpr end);
        re ← (match r with Some r => ResolveAggExpr r | None => Some Expr.NullExpr end);
        Some (Expr.Expr o le re column)
      else Some Expr.NullExpr
  end.

(** ** ResolveSelectTree *)

Definition toupper (c : Ascii.ascii) : Ascii.ascii :=
  let n := Ascii.N_of_ascii c in
  if (97 <=? n)%N && (n <=? 122)%N then Ascii.ascii_of_N (n - 32) else c.

Fixpoint upper (s : string) : string :=
  match s with EmptyString => EmptyString | String c s' => String (toupper c) (upper s') end.

Definition aggregate_kernels_ (name : string) : option Agg.AggregateKernel :=
  if bool_decide (name = "SUM"%string) then Some Agg.SUM
  else if bool_decide (name = "COUNT"%string) then Some Agg.COUNT
  else if bool_decide (name = "MEAN"%string) then Some Agg.MEAN else None.

Definition unsupported_flags (selFlags : Z) : bool :=
  existsb (fun f => negb (Z.land selFlags f =? 0))
    [SF_Distinct; SF_All; SF_NestedFrom; SF_View; SF_Recursive; SF_FixedLimit; SF_Compound; SF_Values; SF_MultiValue].

(** [true]: the loop ends without [return false]. *)
Fixpoint resolve_sources (tabs : list SrcListItem) : M bool :=
  match tabs with
  | [] => mret true
  | a :: tabs' =>
      if src_pSelect a || src_pUsing a || src_pOn a || negb (Z.land (jointype a) JT_UNSUPPORTED =? 0) then mret false
      else
        _ ← modify (fun r => match select_predicates_ r !! src_zName a with
                             | Some _ => r
                             | None => set_select_predicates (<[src_zName a := None]> (select_predicates_ r)) r
                             end);
        resolve_sources tabs'
  end.

Definition push_project (p : ProjectReference) (r : SelectResolver) : SelectResolver :=
  set_references (agg_references_ r) (group_by_references_ r) (order_by_references_ r) (project_references_ r ++ [p]) r.
Definition push_aggregate (a : AggregateReference) (r : SelectResolver) : SelectResolver :=
  set_references (agg_references_ r ++ [a]) (group_by_references_ r) (order_by_references_ r) (project_references_ r) r.
Definition push_group (c : ColumnReference) (r : SelectResolver) : SelectResolver :=
  set_references (agg_references_ r) (group_by_references_ r ++ [c]) (order_by_references_ r) (project_references_ r) r.
Definition push_order (o : Agg.OrderByReference) (r : SelectResolver) : SelectResolver :=
  set_references (agg_references_ r) (group_by_references_ r) (order_by_references_ r ++ [o]) (project_references_ r) r.

(** An aggregate function of the SELECT clause. *)
Definition resolve_aggregate (item : ExprListItem) : M bool :=
  expr ← defined (pList (pExpr item) !! 0%nat);
  agg_func_name ← defined (match u (pExpr item) with zToken s => Some (upper s) | iValue _ => None end);
  if 0 <? iColumn expr then
    colRef ← defined (column_ref expr);
    match aggregate_kernels_ agg_func_name with
    | None => mret false
    | Some k =>
        zName ← defined (zEName item);
        _ ← modify (push_aggregate (mkAggregateReference k zName colRef Expr.NullExpr));
        _ ← modify (push_project (mkProjectReference colRef zName));
        mret true
    end
  else
    expr_ref ← defined (ResolveAggExpr expr);
    match expr_ref, aggregate_kernels_ agg_func_name with
    | Expr.NullExpr, _ | _, None => mret false
    | _, Some k =>
        let colRef := mkColumnReference Agg.nullptr EmptyString in
        zName ← defined (zEName item);
        _ ← modify (push_aggregate (mkAggregateReference k zName colRef expr_ref));
        _ ← modify (push_project (mkProjectReference colRef zName));
        mret true
    end.

Fixpoint resolve_results (items : list ExprListItem) : M bool :=
  match items with
  | [] => mret true
  | item :: items' =>
      let o := op (pExpr item) in
      ok ← (if o =? TK_AGG_FUNCTION then resolve_aggregate item
            else if (o =? TK_COLUMN) || (o =? TK_AGG_COLUMN) then
              if iColumn (pExpr item) =? -1 then mret false
              else
                colRef ← defined (column_ref (pExpr item));
                _ ← modify (push_project (mkProjectReference colRef EmptyString));
                mret true
            else mret false);
      if (ok : bool) then resolve_results items' else mret false
  end.

Fixpoint resolve_group_by (items : list ExprListItem) : M unit :=
  match items with
  | [] => mret tt
  | item :: items' =>
      _ ← (if 0 <=? iColumn (pExpr item) then
             colRef ← defined (column_ref (pExpr item));
             modify (push_group colRef)
           else mret tt);
      resolve_group_by items'
  end.

Fixpoint resolve_order_by (items : list ExprListItem) : M unit :=
  match items with
  | [] => mret tt
  | item :: items' =>
      let desc := negb (Z.land (sortFlags item) KEYINFO_ORDER_DESC =? 0) in
      _ ← (if (0 <? iOrderByCol item) && (0 <=? iColumn (pExpr item)) then
             if op (pExpr item) =? TK_AGG_FUNCTION then
               r ← get;
               p ← defined (project_references_ r !! Z.to_nat (iOrderByCol item - 1));
               modify (push_order (Agg.mkOrderByReference (mkColumnReference Agg.nullptr (alias p)) desc))
             else
               colRef ← defined (column_ref (pExpr item));
               modify (push_order (Agg.mkOrderByReference colRef desc))
           else mret tt);
      resolve_order_by items'
  end.

(** [ResolvePredExpr] for every expression of the SELECT clause. *)
Fixpoint resolve_list (items : list ExprListItem) : M unit :=
  match items with
  | [] => mret tt
  | item :: items' => _ ← ResolvePredExpr (pExpr item); resolve_list items'
  end.

Section Tree.
Context (iterate : gmap string (list JoinPredicate) -> list (string * list JoinPredicate)).

(** From the WHERE clause on. *)
Definition resolve_where (q : Sqlite3Select) : M bool :=
  _ ← (match pWhere q with Some e => ResolvePredExpr e | None => mret None end);
  r ← get;
  if (match pWhere q with Some _ => negb (resolve_status_ r) | None => false end) then mret false
  else
    _ ← (match pWhere q with Some e => ResolveJoinPredExpr e | None => mret tt end);
    r ← get;
    '(supported, r') ← defined (CheckJoinSupport iterate r);
    _ ← modify (fun _ => r');
    if negb supported then mret false
    else
      _ ← resolve_group_by (default [] (pGroupBy q));
      _ ← resolve_order_by (default [] (pOrderBy q));
      mret true.

Definition ResolveSelectTree (q : Sqlite3Select) : M bool :=
  match pSrc q with
  | None => mret false
  | Some pTabList =>
      if pHaving q then mret false
      else if unsupported_flags (selFlags q) then mret false
      else
        ok ← resolve_sources pTabList;
        if negb ok then mret false
        else
          _ ← resolve_list (pEList q);
          ok ← resolve_results (pEList q);
          if negb ok then mret false
          else if pNext q then mret false
          else resolve_where q
  end.

End Tree.
End Resolver.
End Resolve.

Import Resolve SelectSpec.

(** ** The WHERE clauses that are resolved as written

    SQLite parses [c1 AND c2 AND c3] as a left-deep tree.  A conjunct compares a
    column with a literal or with another column. *)

Module WhereSpec.

(** A column of a table of the FROM clause, by its cursor. *)
Record Col := mkCol { co_table : Table; co_cursor : Z; co_index : nat }.

Inductive Literal := IntLit (v : Z) | StringLit (s : string).

Inductive Conjunct :=
| JoinOn (a b : Col)
| Comparison (o : Z) (c : Col) (l : Literal)
| Between (c : Col) (lo hi : Z).

(** As SQLite builds them: the fields an operator does not use are zero. *)
Definition col_expr (c : Col) : Expr :=
  mkExpr TK_COLUMN (zToken "") None None [] (co_cursor c) (Z.of_nat (co_index c)) (Some (co_table c)).
Definition int_expr (v : Z) : Expr := mkExpr TK_INTEGER (iValue v) None None [] 0 0 None.
Definition lit_expr (l : Literal) : Expr :=
  match l with IntLit v => int_expr v | StringLit s => mkExpr TK_STRING (zToken s) None None [] 0 0 None end.
Definition binary_expr (o : Z) (l r : Expr) : Expr := mkExpr o (zToken "") (Some l) (Some r) [] 0 0 None.
Definition conjunct_expr (c : Conjunct) : Expr :=
  match c with
  | JoinOn a b => binary_expr TK_EQ (col_expr a) (col_expr b)
  | Comparison o c l => binary_expr o (col_expr c) (lit_expr l)
  | Between c lo hi => mkExpr TK_BETWEEN (zToken "") (Some (col_expr c)) None [int_expr lo; int_expr hi] 0 0 None
  end.
Definition where_expr (c : Conjunct) (cs : list Conjunct) : Expr :=
  foldl (fun e c => binary_expr TK_AND e (conjunct_expr c)) (conjunct_expr c) cs.

Definition col_ok (c : Col) : Prop := (co_index c < length (aCol (co_table c)))%nat.
Definition conjunct_ok (c : Conjunct) : Prop :=
  match c with
  | JoinOn a b => col_ok a /\ col_ok b
  | Comparison o c _ => is_comparison o = true /\ col_ok c
  | Between c _ _ => col_ok c
  end.

#[export] Instance conjunct_ok_dec c : Decision (conjunct_ok c).
Proof. destruct c; cbn; unfold col_ok; apply _. Defined.

(** The column a conjunct selects on. *)
Definition selects (c : Conjunct) : option Col :=
  match c with JoinOn _ _ => None | Comparison _ c _ => Some c | Between c _ _ => Some c end.
Definition table_name (c : Conjunct) : option string := (fun c => zName (co_table c)) <$> selects c.

Definition lit_scalar (l : Literal) : Scalar := match l with IntLit v => NumberScalar INT64 v | StringLit s => StringScalar s end.
Definition col_name_of (c : Col) : string := nth (co_index c) (aCol (co_table c)) EmptyString.

(** What the comparisons of SQL mean, for values with the order [lt]. *)
Definition sql_compare {A} (lt : A -> A -> Prop) (o : Z) (x y : A) : Prop :=
  (o = TK_EQ /\ x = y) \/ (o = TK_NE /\ x <> y) \/ (o = TK_LT /\ lt x y) \/ (o = TK_LE /\ (lt x y \/ x = y)) \/
  (o = TK_GT /\ lt y x) \/ (o = TK_GE /\ (lt y x \/ x = y)).

(** Strings are ordered as byte sequences. *)
Definition string_lt (a b : string) : Prop := String.ltb a b = true.

(** A conjunct holds of row [row] of a block of its table. *)
Definition conjunct_holds (b : BlockView) (row : Z) (c : Conjunct) : Prop :=
  match c with
  | JoinOn _ _ => True
  | Comparison o c (IntLit v) =>
      exists t vals, get_column_by_name b (col_name_of c) = Some (Numbers t vals) /\ sql_compare Z.lt o (nth (Z.to_nat row) vals 0) v
  | Comparison o c (StringLit s) =>
      exists vals, get_column_by_name b (col_name_of c) = Some (Strings vals) /\ sql_compare string_lt o (nth (Z.to_nat row) vals EmptyString) s
  | Between c lo hi =>
      exists t vals, get_column_by_name b (col_name_of c) = Some (Numbers t vals) /\ lo <= nth (Z.to_nat row) vals 0 <= hi
  end.

(** The tree of table [t] selects the rows of which all its conjuncts hold. *)
Definition understood (t : string) (cs : list Conjunct) (o : option PredicateTree) : Prop :=
  match o with
  | None => forall c, c ∈ cs -> table_name c <> Some t
  | Some tree =>
      (exists c, c ∈ cs /\ table_name c = Some t) /\
      forall b row, eval (root_ tree) b row = true <-> forall c, c ∈ cs -> table_name c = Some t -> conjunct_holds b row c
  end.

(** The predicate that the resolver makes of a conjunct. *)
Definition conjunct_node (c : Conjunct) : option Node :=
  match c with
  | JoinOn _ _ => None
  | Comparison o c l => Some (PredicateNode (mkPredicate (col_name_of c) (comparatorOperator o) (lit_scalar l) None))
  | Between c lo hi =>
      Some (ConnectiveNode (PredicateNode (mkPredicate (col_name_of c) GREATER_EQUAL (NumberScalar INT64 lo) None))
                           (PredicateNode (mkPredicate (col_name_of c) LESS_EQUAL (NumberScalar INT64 hi) None)) AND)
  end.

(** The conjuncts on table [t]. *)
Definition nodes_on (t : string) (cs : list Conjunct) : list Node :=
  cs ≫= (fun c => if bool_decide (table_name c = Some t) then option_list (conjunct_node c) else []).

(** [Held t z]: the tree of table [t] was returned and is its entry; [z] is the
    cursor the next AND will look at.  [Pending]: a combined tree without a name
    was returned.  [Absorbed]: no tree was returned. *)
Inductive Phase := Absorbed | Held (t : string) (z : Z) | Pending.

Definition first_phase (c : Conjunct) : Phase :=
  match selects c with None => Absorbed | Some c => Held (zName (co_table c)) (co_cursor c) end.

(** [None]: the conjunct is lost, entered for another table, or the resolver
    crashes. *)
Definition next_phase (seen : list string) (ph : Phase) (c : Conjunct) : option Phase :=
  match selects c with
  | None => match ph with Pending => None | _ => Some Absorbed end
  | Some k =>
      let t := zName (co_table k) in
      let fresh := bool_decide (t ∉ seen) in
      match ph with
      | Absorbed => if fresh then Some Absorbed else match c with Comparison _ _ _ => Some Pending | _ => None end
      | Held t' z =>
          if z =? co_cursor k then if bool_decide (t = t') then Some (Held t 0) else None
          else if fresh then Some Absorbed else None
      | Pending => if fresh && negb (co_cursor k =? 0) then Some Absorbed else None
      end
  end.

Fixpoint phases (seen : list string) (ph : Phase) (cs : list Conjunct) : option Phase :=
  match cs with
  | [] => Some ph
  | c :: cs' => ph' ← next_phase seen ph c; phases (seen ++ option_list (table_name c)) ph' cs'
  end.

(** The chain is one the resolver handles. *)
Definition supported (c : Conjunct) (cs : list Conjunct) : bool :=
  bool_decide (is_Some (phases (option_list (table_name c)) (first_phase c) cs)).

End WhereSpec.

Import WhereSpec.

(** ** The predicate trees of a supported chain *)

Module WhereProof.

(** The tree entered for [t] selects the rows that satisfy all its conjuncts. *)
Definition entry_ok (t : string) (cs : list Conjunct) (o : option PredicateTree) : Prop :=
  match o with
  | None => nodes_on t cs = []
  | Some tree =>
      nodes_on t cs <> [] /\ forall b row, eval (root_ tree) b row = forallb (fun n => eval n b row) (nodes_on t cs)
  end.

Record matches (D : gset string) (cs : list Conjunct) (r : SelectResolver) : Prop := {
  m_dom : dom (select_predicates_ r) = D;
  m_entry : map_Forall (fun t o => entry_ok t cs o) (select_predicates_ r);
  m_ids : forall t tree, select_predicates_ r !! t = Some (Some tree) -> pt_id tree < next_address r
}.

(** Only the predicate trees change. *)
Definition same_rest (r r' : SelectResolver) : Prop :=
  r' = set_next (next_address r') (set_select_predicates (select_predicates_ r') r).

Lemma same_rest_refl r : same_rest r r.
Proof. by destruct r. Qed.

Lemma same_rest_trans r1 r2 r3 : same_rest r1 r2 -> same_rest r2 r3 -> same_rest r1 r3.
Proof. unfold same_rest. intros -> ->. by destruct r1, r3. Qed.

Lemma nodes_on_app t cs cs' : nodes_on t (cs ++ cs') = nodes_on t cs ++ nodes_on t cs'.
Proof. apply bind_app. Qed.

Lemma nodes_on_other t c : table_name c <> Some t -> nodes_on t [c] = [].
Proof. intros H. unfold nodes_on. cbn. by rewrite bool_decide_eq_false_2. Qed.

Lemma nodes_on_one t c n : table_name c = Some t -> conjunct_node c = Some n -> nodes_on t [c] = [n].
Proof. intros Ht Hn. unfold nodes_on. cbn. rewrite bool_decide_eq_true_2 by done. by rewrite Hn. Qed.

Lemma selects_node c k : selects c = Some k -> exists n, conjunct_node c = Some n.
Proof. destruct c; cbn; intros; simplify_eq; eauto. Qed.

Lemma nodes_on_seen t cs : nodes_on t cs = [] <-> t ∉ omap table_name cs.
Proof.
  induction cs as [|c cs IH]; [cbn; set_solver |]. change (c :: cs) with ([c] ++ cs). rewrite nodes_on_app, omap_app, not_elem_of_app, <- IH.
  cbn [omap list_omap]. destruct (selects c) as [k|] eqn:Ek.
  - destruct (selects_node _ _ Ek) as [n Hn]. assert (table_name c = Some (zName (co_table k))) as Et by (unfold table_name; by rewrite Ek).
    rewrite Et. destruct (decide (t = zName (co_table k))) as [->|Hne].
    + rewrite (nodes_on_one _ _ _ Et Hn). split; [done | set_solver].
    + rewrite nodes_on_other by (rewrite Et; congruence). set_solver.
  - assert (table_name c = None) as Et by (unfold table_name; by rewrite Ek).
    rewrite Et, nodes_on_other by (by rewrite Et). set_solver.
Qed.

Lemma matches_join D cs r a b : matches D cs r -> matches D (cs ++ [JoinOn a b]) r.
Proof.
  intros [Hd He Hi]. constructor; [done | | done]. intros t o Ho. specialize (He t o Ho).
  unfold entry_ok in *. rewrite nodes_on_app, (nodes_on_other t (JoinOn a b)) by done. by rewrite app_nil_r.
Qed.

(** A new tree for the table of the conjunct. *)
Lemma matches_enter D cs r r' c t tree :
  matches D cs r -> table_name c = Some t -> t ∈ D ->
  select_predicates_ r' !! t = Some (Some tree) -> (forall t', t' <> t -> select_predicates_ r' !! t' = select_predicates_ r !! t') ->
  entry_ok t (cs ++ [c]) (Some tree) -> pt_id tree < next_address r' -> next_address r <= next_address r' ->
  matches D (cs ++ [c]) r'.
Proof.
  intros [Hd He Hi] Ht HD E Hne Hok Hid Hn. constructor.
  - apply set_eq. intros t'. rewrite elem_of_dom. destruct (decide (t' = t)) as [->|Hx].
    + rewrite E. split; [done | eauto].
    + by rewrite Hne, <- elem_of_dom, Hd.
  - intros t' o Ho. destruct (decide (t' = t)) as [->|Hx]; [by simplify_eq |].
    rewrite Hne in Ho by done. specialize (He _ _ Ho). unfold entry_ok in *.
    rewrite nodes_on_app, (nodes_on_other t' c) by congruence. by rewrite app_nil_r.
  - intros t' tr Ho. destruct (decide (t' = t)) as [->|Hx]; [by simplify_eq |].
    rewrite Hne in Ho by done. specialize (Hi _ _ Ho). lia.
Qed.

Lemma entry_first t cs c n tree :
  table_name c = Some t -> conjunct_node c = Some n -> nodes_on t cs = [] -> root_ tree = n -> entry_ok t (cs ++ [c]) (Some tree).
Proof.
  intros Ht Hn H0 Hr. unfold entry_ok. rewrite nodes_on_app, H0, (nodes_on_one _ _ _ Ht Hn), Hr. split; [done |].
  intros b row. cbn. by rewrite andb_true_r.
Qed.

Lemma entry_and t cs c n old tree :
  table_name c = Some t -> conjunct_node c = Some n -> entry_ok t cs (Some old) ->
  root_ tree = ConnectiveNode (root_ old) n AND -> entry_ok t (cs ++ [c]) (Some tree).
Proof.
  intros Ht Hn [Hne He] Hr. unfold entry_ok. rewrite nodes_on_app, (nodes_on_one _ _ _ Ht Hn), Hr.
  split; [by destruct (nodes_on t cs) |]. intros b row. rewrite forallb_app. cbn. by rewrite He, andb_true_r.
Qed.

(** One token at a time. *)
Lemma sql_compare_cases {A} (lt : A -> A -> Prop) x y :
  (sql_compare lt TK_EQ x y <-> x = y) /\ (sql_compare lt TK_NE x y <-> x <> y) /\ (sql_compare lt TK_LT x y <-> lt x y) /\
  (sql_compare lt TK_LE x y <-> lt x y \/ x = y) /\ (sql_compare lt TK_GT x y <-> lt y x) /\ (sql_compare lt TK_GE x y <-> lt y x \/ x = y).
Proof.
  split_and!; (split; [intros [[E H] | [[E H] | [[E H] | [[E H] | [[E H] | [E H]]]]]]; done | intros H; unfold sql_compare; tauto]).
Qed.

Ltac by_token Ho :=
  unfold is_comparison in Ho; rewrite !orb_true_iff, !Z.eqb_eq in Ho;
  destruct Ho as [[[[[->| ->] | ->] | ->] | ->] | ->].

Lemma compare_equal x s : String.compare x s = Eq <-> x = s.
Proof.
  split; [apply String.compare_eq_iff |]. intros <-. pose proof (String.compare_antisym x x) as H. by destruct (String.compare x x).
Qed.

Lemma string_ltb_swap x s : string_lt s x <-> String.compare x s = Gt.
Proof. unfold string_lt, String.ltb. rewrite (String.compare_antisym s x). by destruct (String.compare x s). Qed.

Lemma string_comparison o x s : is_comparison o = true -> string_comparator (comparatorOperator o) x s = true <-> sql_compare string_lt o x s.
Proof.
  intros Ho. destruct (sql_compare_cases string_lt x s) as (H1 & H2 & H3 & H4 & H5 & H6).
  assert (string_lt x s <-> String.compare x s = Lt) as Hlt by (unfold string_lt, String.ltb; by destruct (String.compare x s)).
  pose proof (string_ltb_swap x s) as Hgt. pose proof (compare_equal x s) as Heq.
  by_token Ho; [rewrite H2 | rewrite H1 | rewrite H5 | rewrite H4 | rewrite H3 | rewrite H6]; rewrite ?Hlt, ?Hgt, <- ?Heq;
    unfold string_comparator; destruct (String.compare x s); cbn; split; try done; try (by right); try (by left); by intros [?|?].
Qed.

Lemma number_comparison o x v : is_comparison o = true -> compares (comparatorOperator o) x v <-> sql_compare Z.lt o x v.
Proof.
  intros Ho. destruct (sql_compare_cases Z.lt x v) as (H1 & H2 & H3 & H4 & H5 & H6).
  by_token Ho; [rewrite H2 | rewrite H1 | rewrite H5 | rewrite H4 | rewrite H3 | rewrite H6]; cbn; lia.
Qed.

(** The predicate of a conjunct means what the conjunct means. *)
Lemma conjunct_node_holds c n b row : conjunct_ok c -> conjunct_node c = Some n -> eval n b row = true <-> conjunct_holds b row c.
Proof.
  destruct c as [?? | o c l | c lo hi]; [done | |]; intros Hok [= <-].
  - destruct Hok as [Ho _]. cbn [eval conjunct_holds]. unfold satisfies. cbn [pred_col value_ comparator_ value2_].
    destruct l as [v | s], (get_column_by_name b (col_name_of c)) as [[t vals | vals]|]; cbn [lit_scalar]; try (split; [done | by intros (? & ? & [=] & _)]);
      try (split; [done | by intros (? & [=] & _)]).
    + assert (forall r : bool, r = bool_decide (compares (comparatorOperator o) (nth (Z.to_nat row) vals 0) v) ->
        r = true <-> exists t' vals', Some (Numbers t vals) = Some (Numbers t' vals') /\ sql_compare Z.lt o (nth (Z.to_nat row) vals' 0) v) as H.
      { intros r ->. rewrite bool_decide_eq_true, number_comparison by done. split; [by exists t, vals | by intros (? & ? & [= <- <-] & ?)]. }
      apply H. by destruct (comparatorOperator o).
    + rewrite string_comparison by done. split; [by exists vals | by intros (? & [= <-] & ?)].
  - cbn [eval conjunct_holds]. unfold satisfies. cbn [pred_col value_ comparator_ value2_].
    destruct (get_column_by_name b (col_name_of c)) as [[t vals | vals]|]; try (split; [done | by intros (? & ? & [=] & _)]).
    rewrite andb_true_iff, !bool_decide_eq_true. cbn. split; [intros [??]; exists t, vals; split; [done | lia] | intros (? & ? & [= <- <-] & ?); lia].
Qed.

Lemma nodes_on_holds t cs b row : Forall conjunct_ok cs ->
  forallb (fun n => eval n b row) (nodes_on t cs) = true <-> forall c, c ∈ cs -> table_name c = Some t -> conjunct_holds b row c.
Proof.
  induction 1 as [|c cs Hc _ IH]; [split; [by intros _ c ?%not_elem_of_nil | done] |].
  change (c :: cs) with ([c] ++ cs). rewrite nodes_on_app, forallb_app, andb_true_iff, IH.
  assert (forallb (fun n => eval n b row) (nodes_on t [c]) = true <-> (table_name c = Some t -> conjunct_holds b row c)) as ->.
  { destruct (decide (table_name c = Some t)) as [E | Hne]; [| rewrite nodes_on_other by done; split; done || intros; done].
    destruct (selects c) as [k|] eqn:Ek; [| unfold table_name in E; by rewrite Ek in E]. destruct (selects_node _ _ Ek) as [n Hn].
    rewrite (nodes_on_one _ _ _ E Hn). cbn. rewrite andb_true_r, (conjunct_node_holds c n) by done. tauto. }
  split.
  - intros [H1 H2] d [-> %list_elem_of_singleton | Hd]%elem_of_app; [done | by apply H2].
  - intros H. split; [apply H; set_solver |]. intros d Hd. apply H. set_solver.
Qed.

Lemma entry_understood t cs o : Forall conjunct_ok cs -> entry_ok t cs o -> understood t cs o.
Proof.
  intros Hok. destruct o as [tree|]; cbn.
  - intros [Hne He]. split.
    + assert (t ∈ omap table_name cs) as (c & Hc & Ht)%list_elem_of_omap by (destruct (decide (t ∈ omap table_name cs)) as [|Hn]; [done |]; by apply nodes_on_seen in Hn).
      by exists c.
    + intros b row. by rewrite He, nodes_on_holds.
  - intros H%nodes_on_seen c Hc Ht. apply H. apply list_elem_of_omap. by exists c.
Qed.

Section Where.
Context (GetTable : string -> option Z).
Abbreviation resolve := (ResolvePredExpr GetTable).

Definition entered (c : Conjunct) (o : option PredicateTree) (t : string) (tree : PredicateTree)
    (m : gmap string (option PredicateTree)) : gmap string (option PredicateTree) :=
  match c, o with Comparison _ _ _, Some _ => m | _, _ => <[t := Some tree]> m end.

Lemma column_ref_ok c : col_ok c ->
  column_ref GetTable (col_expr c) = Some (mkColumnReference (table_ptr GetTable (zName (co_table c))) (col_name_of c)).
Proof.
  intros H. unfold column_ref, col_expr. cbn. rewrite (proj2 (Z.ltb_ge _ _)) by lia. rewrite Nat2Z.id.
  destruct (lookup_lt_is_Some_2 _ _ H) as [x Hx]. rewrite Hx. cbn. unfold col_name_of. by rewrite (nth_lookup_Some _ _ _ _ Hx).
Qed.

Lemma resolve_join a b r : resolve (conjunct_expr (JoinOn a b)) r = Some (r, inr None).
Proof. done. Qed.

Lemma comparison_branch o l r0 list it ic tab : is_comparison o = true ->
  resolve (mkExpr o l (Some r0) list [] it ic tab) = resolve_comparison GetTable o (Some r0) list.
Proof.
  unfold is_comparison. rewrite !orb_true_iff, !Z.eqb_eq. intros [[[[[->| ->] | ->] | ->] | ->] | ->]; done.
Qed.

(** A conjunct on [t] alone. *)
Lemma resolve_selection c k n o r (t := zName (co_table k)) :
  conjunct_ok c -> selects c = Some k -> conjunct_node c = Some n -> select_predicates_ r !! t = Some o ->
  let tree := mkPredicateTree (next_address r) n (Some (co_cursor k)) t in
  resolve (conjunct_expr c) r =
  Some (set_select_predicates (entered c o t tree (select_predicates_ r)) (set_next (next_address r + 1) r), inr (Some tree)).
Proof.
  intros Hok Hk Hn E tree. subst t. destruct c as [a b|op c l|c lo hi]; cbn in Hk; simplify_eq.
  - destruct Hok as [Hop Hc]. unfold conjunct_expr, binary_expr. rewrite comparison_branch by done. unfold resolve_comparison.
    assert (is_column (Some (col_expr k)) && is_literal (Some (lit_expr l)) = true) as -> by (by destruct l).
    assert (datum (lit_expr l) = Some (lit_scalar l)) as Hl by (by destruct l).
    cbn in Hn. injection Hn as <-.
    erewrite bind_defined by done. erewrite bind_defined by done.
    erewrite bind_defined by (by apply column_ref_ok). erewrite bind_defined by exact Hl. erewrite bind_defined by done.
    cbn [col_expr iTable col_name]. unfold make_tree, lookup_predicates, mbind, StM_bind, get, modify. cbn.
    rewrite E. destruct o; done.
  - cbn in Hn. injection Hn as <-. change (resolve (conjunct_expr (Between k lo hi))) with
      (resolve_between GetTable (Some (col_expr k)) [int_expr lo; int_expr hi]).
    unfold resolve_between. cbn [is_column]. change (op (col_expr k) =? TK_COLUMN) with true. cbv iota.
    erewrite bind_defined by done. erewrite bind_defined by (by apply column_ref_ok).
    destruct o; done.
Qed.

(** What a prefix of the chain returned. *)
Definition returned (e : Expr) (ph : Phase) (r : SelectResolver) (res : option PredicateTree) : Prop :=
  match ph with
  | Absorbed => res = None
  | Held t z => exists tree, res = Some tree /\ table_name_ tree = t /\ select_predicates_ r !! t = Some (Some tree) /\
                  iTable <$> pLeft e = Some z
  | Pending => exists tree, res = Some tree /\ iTable <$> pLeft e = Some 0
  end.

(** The AND of two expressions whose results are known. *)
Lemma resolve_and e1 e2 r r1 r2 res1 res2 :
  resolve e1 r = Some (r1, inr res1) -> resolve e2 r1 = Some (r2, inr res2) ->
  resolve (binary_expr TK_AND e1 e2) r =
  match res1, res2 with
  | None, None => mret None
  | None, Some t | Some t, None => resolve_single TK_AND t
  | Some lt, Some rt => resolve_both TK_AND (Some e1) (Some e2) lt rt
  end r2.
Proof.
  intros E1 E2. change (resolve (binary_expr TK_AND e1 e2)) with
    (lpred ← resolve e1; rpred ← resolve e2;
     match lpred, rpred with
     | None, None => mret None
     | None, Some t | Some t, None => resolve_single TK_AND t
     | Some lt, Some rt => resolve_both TK_AND (Some e1) (Some e2) lt rt
     end : M (option PredicateTree)).
  by erewrite bind_val, bind_val by eassumption.
Qed.

(** The tree is the entry of its table. *)
Lemma single_same tree r : select_predicates_ r !! table_name_ tree = Some (Some tree) ->
  resolve_single TK_AND tree r = Some (r, inr None).
Proof.
  intros E. unfold resolve_single, lookup_predicates, mbind, StM_bind, get. cbn. rewrite E. cbn.
  by rewrite bool_decide_eq_true_2.
Qed.

(** The table has another tree. *)
Lemma single_other tree old r : select_predicates_ r !! table_name_ tree = Some (Some old) -> pt_id old <> pt_id tree ->
  let new := mkPredicateTree (next_address r) (ConnectiveNode (root_ old) (root_ tree) AND) None "" in
  resolve_single TK_AND tree r =
  Some (set_select_predicates (<[table_name_ tree := Some new]> (select_predicates_ r)) (set_next (next_address r + 1) r), inr (Some new)).
Proof.
  intros E Hne new. unfold resolve_single, lookup_predicates, make_tree, mbind, StM_bind, get, modify. cbn. rewrite E. cbn.
  by rewrite bool_decide_eq_false_2 by congruence.
Qed.

Lemma both_same e1 e2 z1 lt rt r : iTable <$> pLeft e1 = Some z1 -> iTable <$> pLeft e2 = Some z1 ->
  let new := mkPredicateTree (next_address r) (ConnectiveNode (root_ lt) (root_ rt) AND) (table_id_ lt) (table_name_ lt) in
  resolve_both TK_AND (Some e1) (Some e2) lt rt r =
  Some (set_select_predicates (<[table_name_ lt := Some new]> (select_predicates_ r)) (set_next (next_address r + 1) r), inr (Some new)).
Proof.
  intros (x1 & H1 & E1)%fmap_Some (x2 & H2 & E2)%fmap_Some new. unfold resolve_both.
  erewrite bind_defined by exact H1. erewrite bind_defined by exact H2.
  by rewrite <- E1, <- E2, Z.eqb_refl.
Qed.

Lemma both_different e1 e2 z1 z2 lt rt r : iTable <$> pLeft e1 = Some z1 -> iTable <$> pLeft e2 = Some z2 -> z1 <> z2 ->
  resolve_both TK_AND (Some e1) (Some e2) lt rt r = Some (r, inr None).
Proof.
  intros (x1 & H1 & E1)%fmap_Some (x2 & H2 & E2)%fmap_Some Hne. unfold resolve_both.
  erewrite bind_defined by exact H1. erewrite bind_defined by exact H2.
  rewrite <- E1, <- E2. by rewrite (proj2 (Z.eqb_neq _ _) Hne).
Qed.

Lemma conjunct_cursor c k : selects c = Some k -> iTable <$> pLeft (conjunct_expr c) = Some (co_cursor k).
Proof. destruct c; cbn; intros; by simplify_eq. Qed.

Lemma matches_lookup D cs r t : matches D cs r -> t ∈ D -> exists o, select_predicates_ r !! t = Some o /\ entry_ok t cs o.
Proof.
  intros [<- He _] [o Ho]%elem_of_dom. exists o. split; [done | by apply He].
Qed.

(** A conjunct on a table without conjuncts: its tree becomes the entry. *)
Lemma fresh_entered D cs r c k n (t := zName (co_table k)) :
  matches D cs r -> selects c = Some k -> conjunct_node c = Some n -> t ∈ D -> t ∉ omap table_name cs ->
  exists o, select_predicates_ r !! t = Some o /\
    let tree := mkPredicateTree (next_address r) n (Some (co_cursor k)) t in
    let r2 := set_select_predicates (entered c o t tree (select_predicates_ r)) (set_next (next_address r + 1) r) in
    matches D (cs ++ [c]) r2 /\ select_predicates_ r2 !! t = Some (Some tree) /\ same_rest r r2.
Proof.
  intros I Hk Hn HD Hf. destruct (matches_lookup _ _ _ _ I HD) as (o & Ho & Hok). exists o. split; [done |]. intros tree r2.
  apply nodes_on_seen in Hf. destruct o as [old|]; [by destruct Hok |].
  assert (table_name c = Some t) as Ht by (unfold table_name; by rewrite Hk).
  assert (select_predicates_ r2 = <[t := Some tree]> (select_predicates_ r)) as E2 by (by destruct c).
  split_and!; [| by rewrite E2, lookup_insert, decide_True | by destruct r].
  eapply matches_enter; [done | done | done | | | | |].
  - by rewrite E2, lookup_insert, decide_True.
  - intros t' Hne. by rewrite E2, lookup_insert_ne.
  - by eapply entry_first.
  - cbn. lia.
  - cbn. lia.
Qed.

Section Step.
Context (D : gset string) (cs : list Conjunct) (e : Expr) (c : Conjunct) (r r1 : SelectResolver) (res1 : option PredicateTree).
Context (E1 : resolve e r = Some (r1, inr res1)) (I1 : matches D cs r1) (Hz : iTable e = 0) (Hc : conjunct_ok c).

Definition step_result (ph' : Phase) : Prop :=
  exists r2 res2, resolve (binary_expr TK_AND e (conjunct_expr c)) r = Some (r2, inr res2) /\
    matches D (cs ++ [c]) r2 /\ returned (binary_expr TK_AND e (conjunct_expr c)) ph' r2 res2 /\ same_rest r1 r2.

Lemma step_join ph : selects c = None -> returned e ph r1 res1 -> ph <> Pending -> step_result Absorbed.
Proof using E1 I1 Hc.
  intros Hs Hr Hp. assert (exists a b, c = JoinOn a b) as (a & b & Ec) by (destruct c; cbn in Hs; simplify_eq; eauto).
  unfold step_result. rewrite Ec, (resolve_and _ _ _ _ _ _ _ E1 (resolve_join a b r1)). exists r1, None.
  split_and!; [| by apply matches_join | done | by apply same_rest_refl].
  destruct ph as [|t z|]; [by rewrite Hr | | done]. destruct Hr as (tree & -> & <- & Ht & _). by apply single_same.
Qed.

(** A fresh table after a result that is not combined with it. *)
Lemma step_fresh ph k : selects c = Some k -> zName (co_table k) ∈ D -> zName (co_table k) ∉ omap table_name cs ->
  returned e ph r1 res1 ->
  match ph with Absorbed => True | Held _ z => z <> co_cursor k | Pending => co_cursor k <> 0 end ->
  step_result Absorbed.
Proof using E1 I1 Hc.
  intros Hk HD Hf Hr Hp. destruct (selects_node _ _ Hk) as [n Hn].
  destruct (fresh_entered D cs r1 c k n I1 Hk Hn HD Hf) as (o & Ho & I2 & Et & Hs).
  pose proof (resolve_selection c k n o r1 Hc Hk Hn Ho) as E2. unfold step_result.
  rewrite (resolve_and _ _ _ _ _ _ _ E1 E2). eexists _, None. split_and!; [| exact I2 | done | exact Hs].
  pose proof (conjunct_cursor _ _ Hk) as Hcur.
  destruct ph as [|t z|].
  - rewrite Hr. by apply single_same.
  - destruct Hr as (tree & -> & _ & _ & Hl). by eapply both_different.
  - destruct Hr as (tree & -> & Hl). eapply both_different; [exact Hl | exact Hcur | congruence].
Qed.

(** A second comparison on a table is combined with its entry. *)
Lemma step_again op k l : c = Comparison op k l -> zName (co_table k) ∈ D -> zName (co_table k) ∈ omap table_name cs ->
  res1 = None -> step_result Pending.
Proof using E1 I1 Hz Hc.
  intros Ec HD Hin Hres. assert (selects c = Some k) as Hk by (by subst). destruct (selects_node _ _ Hk) as [n Hn].
  set (t := zName (co_table k)) in *.
  destruct (matches_lookup _ _ _ _ I1 HD) as (o & Ho & Hok).
  destruct o as [old|]; [| by apply nodes_on_seen in Hok].
  pose proof (resolve_selection c k n _ r1 Hc Hk Hn Ho) as E2. cbn zeta in E2. fold t in E2.
  unfold step_result. rewrite (resolve_and _ _ _ _ _ _ _ E1 E2), Hres, Ec. cbn [entered].
  erewrite single_other; [| exact Ho | cbn; pose proof (m_ids _ _ _ I1 _ _ Ho); lia].
  eexists _, _. split; [reflexivity |]. rewrite <- Ec. split_and!.
  - eapply matches_enter; [exact I1 | unfold table_name; by rewrite Hk | done | | | | |]; cbn.
    + by rewrite lookup_insert, decide_True.
    + intros t' Hne. by rewrite lookup_insert_ne.
    + eapply entry_and; [unfold table_name; by rewrite Hk | done | exact Hok | done].
    + cbn. lia.
    + lia.
  - eexists. split; [done |]. cbn. by rewrite Hz.
  - by destruct r1.
Qed.

(** A conjunct on the table whose tree was just returned. *)
Lemma step_held k : selects c = Some k -> zName (co_table k) ∈ D ->
  returned e (Held (zName (co_table k)) (co_cursor k)) r1 res1 -> step_result (Held (zName (co_table k)) 0).
Proof using E1 I1 Hz Hc.
  intros Hk HD (tree & Hres & Htn & Ht & Hl). destruct (selects_node _ _ Hk) as [n Hn]. set (t := zName (co_table k)) in *.
  assert (entry_ok t cs (Some tree)) as Hok by (by apply (m_entry _ _ _ I1)).
  pose proof (resolve_selection c k n _ r1 Hc Hk Hn Ht) as E2. cbn zeta in E2. fold t in E2.
  unfold step_result. rewrite (resolve_and _ _ _ _ _ _ _ E1 E2), Hres.
  erewrite both_same; [| exact Hl | by apply conjunct_cursor]. rewrite Htn.
  eexists _, _. split; [reflexivity |]. split_and!.
  - eapply matches_enter; [exact I1 | unfold table_name; by rewrite Hk | done | | | | |]; cbn.
    + by rewrite lookup_insert, decide_True.
    + intros t' Hne. rewrite lookup_insert_ne by done. unfold entered. destruct c; rewrite ?lookup_insert_ne by done; done.
    + eapply entry_and; [unfold table_name; by rewrite Hk | done | exact Hok | done].
    + cbn. lia.
    + lia.
  - eexists. split_and!; [done | done | |]; cbn; [by rewrite lookup_insert, decide_True | by rewrite Hz].
  - by destruct r1.
Qed.

End Step.

Lemma and_step D cs e c r r1 res1 ph ph' :
  resolve e r = Some (r1, inr res1) -> matches D cs r1 -> iTable e = 0 -> conjunct_ok c ->
  returned e ph r1 res1 -> (forall t, table_name c = Some t -> t ∈ D) ->
  next_phase (omap table_name cs) ph c = Some ph' -> step_result D cs e c r r1 ph'.
Proof.
  intros E1 I1 Hz Hc Hr HD. unfold next_phase. destruct (selects c) as [k|] eqn:Hk.
  - assert (zName (co_table k) ∈ D) as Hin by (apply HD; unfold table_name; by rewrite Hk).
    destruct ph as [|t z|].
    + case_bool_decide as Hf.
      * intros [= <-]. by eapply step_fresh.
      * destruct c as [|op k' l|] eqn:Ec; [done | | done]. intros [= <-]. cbn in Hk. simplify_eq.
        by eapply step_again.
    + destruct (Z.eqb_spec z (co_cursor k)) as [->|Hne].
      * case_bool_decide; [subst t; intros [= <-]; by eapply step_held | done].
      * case_bool_decide; [intros [= <-]; by eapply step_fresh | done].
    + case_bool_decide; cbn [andb]; [| done]. destruct (Z.eqb_spec (co_cursor k) 0) as [|Hne]; cbn [negb]; [done |].
      intros [= <-]. by eapply step_fresh.
  - destruct ph; [| | done]; intros [= <-]; by eapply step_join.
Qed.

Lemma chain_ok D cs' : forall cs e r r1 res1 ph ph',
  resolve e r = Some (r1, inr res1) -> matches D cs r1 -> returned e ph r1 res1 -> iTable e = 0 -> same_rest r r1 ->
  Forall conjunct_ok cs' -> Forall (fun c => forall t, table_name c = Some t -> t ∈ D) cs' ->
  phases (omap table_name cs) ph cs' = Some ph' ->
  exists r2 res2, resolve (foldl (fun e c => binary_expr TK_AND e (conjunct_expr c)) e cs') r = Some (r2, inr res2) /\
    matches D (cs ++ cs') r2 /\ same_rest r r2.
Proof.
  induction cs' as [|c cs' IH]; intros cs e r r1 res1 ph ph' E I Hr Hz Hs Hok HD Hp.
  - rewrite app_nil_r. eauto.
  - inversion Hok as [|? ? Hc Hok']. inversion HD as [|? ? HDc HD']. subst. cbn [phases] in Hp.
    destruct (next_phase (omap table_name cs) ph c) as [ph1|] eqn:En; [| done]. cbn in Hp.
    destruct (and_step D cs e c r r1 res1 ph ph1 E I Hz Hc Hr HDc En) as (r2 & res2 & E2 & I2 & Hr2 & Hs2).
    cbn [foldl]. replace (cs ++ c :: cs') with ((cs ++ [c]) ++ cs') by (by rewrite <- app_assoc).
    eapply IH; [exact E2 | exact I2 | exact Hr2 | done | by eapply same_rest_trans | done | done |].
    rewrite omap_app. cbn. unfold option_list in Hp. by destruct (table_name c).
Qed.

(** The chain from the resolver as [resolve_sources] leaves it: the tables of
    the FROM clause are entered without a tree. *)
Lemma where_resolved D c cs r :
  supported c cs = true -> Forall conjunct_ok (c :: cs) ->
  Forall (fun c => forall t, table_name c = Some t -> t ∈ D) (c :: cs) ->
  dom (select_predicates_ r) = D -> map_Forall (fun _ o => o = None) (select_predicates_ r) ->
  exists r' res, resolve (where_expr c cs) r = Some (r', inr res) /\ matches D (c :: cs) r' /\ same_rest r r'.
Proof.
  unfold supported. intros [ph Hp]%bool_decide_eq_true_1 Hok HD Hdom Hnone.
  apply Forall_cons_1 in Hok as [Hc Hok]. apply Forall_cons_1 in HD as [HDc HD].
  assert (matches D [] r) as I0.
  { constructor; [done | |]; intros t o Ho; [by rewrite (Hnone t o Ho) | by apply Hnone in Ho]. }
  change (c :: cs) with ([c] ++ cs). unfold first_phase in Hp. destruct (selects c) as [k|] eqn:Hk.
  - destruct (selects_node _ _ Hk) as [n Hn].
    assert (table_name c = Some (zName (co_table k))) as Ht by (unfold table_name; by rewrite Hk).
    destruct (fresh_entered D [] r c k n I0 Hk Hn (HDc _ Ht)) as (o & Ho & I1 & Et & Hs); [cbn; set_solver |].
    pose proof (resolve_selection c k n o r Hc Hk Hn Ho) as E.
    eapply (chain_ok D cs [c]) with (ph := Held (zName (co_table k)) (co_cursor k)); [exact E | exact I1 | | by destruct c | exact Hs | done | done |].
    + eexists. split_and!; [done | done | exact Et | by apply conjunct_cursor].
    + cbn. rewrite Ht in Hp |- *. exact Hp.
  - destruct c as [a b| |]; [| done | done].
    eapply (chain_ok D cs [JoinOn a b]) with (ph := Absorbed); [apply resolve_join | by apply (matches_join D []) | done | done | apply same_rest_refl | done | done | exact Hp].
Qed.

End Where.
End WhereProof.

Import WhereProof.

(** ** The join predicates *)

Module JoinsProof.

Section Joins.
Context (GetTable : string -> option Z) (get_name : Z -> string) (get_num_rows : Z -> Z).

Definition ref_of (c : Col) : ColumnReference := mkColumnReference (table_ptr GetTable (zName (co_table c))) (col_name_of c).

(** The join predicate of a conjunct, the table with more rows on the left. *)
Definition join_spec (c : Conjunct) : option JoinPredicate :=
  match c with
  | JoinOn a b =>
      Some (if decide (get_num_rows (cr_table (ref_of a)) >= get_num_rows (cr_table (ref_of b)))
            then mkJoinPredicate (ref_of a) (ref_of b) else mkJoinPredicate (ref_of b) (ref_of a))
  | _ => None
  end.

(** The predicate that the resolver makes of it. *)
Definition join_of (c : Conjunct) : option JoinPredicate :=
  match c with JoinOn a b => Some (orient get_num_rows (ref_of a) (ref_of b)) | _ => None end.

Definition add_joins (ps : list JoinPredicate) (r : SelectResolver) : SelectResolver := foldl (fun r p => add_join get_name p r) r ps.

Lemma conjunct_joins c r : conjunct_ok c ->
  ResolveJoinPredExpr GetTable get_name get_num_rows (conjunct_expr c) r = Some (add_joins (option_list (join_of c)) r, inr tt).
Proof.
  destruct c as [a b|o c l|c lo hi]; [intros [Ha Hb] | intros [Ho _] | done].
  - change (ResolveJoinPredExpr GetTable get_name get_num_rows (conjunct_expr (JoinOn a b))) with
      (lRef ← defined (column_ref GetTable (col_expr a)); rRef ← defined (column_ref GetTable (col_expr b));
       modify (add_join get_name (orient get_num_rows lRef rRef)) : M unit).
    erewrite bind_defined by (by apply column_ref_ok). by erewrite bind_defined by (by apply column_ref_ok).
  - unfold is_comparison in Ho. rewrite !orb_true_iff, !Z.eqb_eq in Ho.
    destruct Ho as [[[[[->| ->] | ->] | ->] | ->] | ->]; by destruct l.
Qed.

Lemma joins_resolved c cs r : Forall conjunct_ok (c :: cs) ->
  ResolveJoinPredExpr GetTable get_name get_num_rows (where_expr c cs) r = Some (add_joins (omap join_of (c :: cs)) r, inr tt).
Proof.
  intros [Hc Hcs]%Forall_cons_1. unfold where_expr.
  replace (add_joins (omap join_of (c :: cs)) r) with (add_joins (omap join_of cs) (add_joins (option_list (join_of c)) r))
    by (cbn; by destruct (join_of c)).
  pose proof (conjunct_joins c r Hc) as E. revert E. generalize (conjunct_expr c) as e, (add_joins (option_list (join_of c)) r) as r1.
  clear Hc. induction Hcs as [|d cs Hd Hcs IH]; intros e r1 E; [done |]. cbn [foldl].
  replace (add_joins (omap join_of (d :: cs)) r1) with (add_joins (omap join_of cs) (add_joins (option_list (join_of d)) r1))
    by (cbn; by destruct (join_of d)).
  apply IH. change (ResolveJoinPredExpr GetTable get_name get_num_rows (binary_expr TK_AND e (conjunct_expr d))) with
    (_ ← ResolveJoinPredExpr GetTable get_name get_num_rows e;
     ResolveJoinPredExpr GetTable get_name get_num_rows (conjunct_expr d) : M unit).
  erewrite bind_val by exact E. by apply conjunct_joins.
Qed.

End Joins.

(** ** The join graph *)

Section Graph.
Context (get_name : Z -> string).

Definition lname (p : JoinPredicate) : string := get_name (cr_table (left_col_ p)).
Definition rname (p : JoinPredicate) : string := get_name (cr_table (right_col_ p)).
Definition touches (t : string) (p : JoinPredicate) : Prop := lname p = t \/ rname p = t.
#[export] Instance touches_dec t p : Decision (touches t p).
Proof. unfold touches. apply _. Defined.

(** Both tables exist and differ. *)
Definition proper (p : JoinPredicate) : Prop :=
  cr_table (left_col_ p) <> Agg.nullptr /\ cr_table (right_col_ p) <> Agg.nullptr /\ lname p <> rname p.

Lemma join_of_spec GetTable get_num_rows cs : Forall proper (omap (join_spec GetTable get_num_rows) cs) ->
  omap (join_of GetTable get_num_rows) cs = omap (join_spec GetTable get_num_rows) cs.
Proof.
  induction cs as [|[a b | |] cs IH]; [done | | exact IH | exact IH]. cbn [omap list_omap join_of join_spec]. intros [Hp HF]%Forall_cons_1. f_equal; [| by apply IH].
  assert (cr_table (ref_of GetTable a) <> Agg.nullptr /\ cr_table (ref_of GetTable b) <> Agg.nullptr) as [Ha Hb]
    by (destruct Hp as (H1 & H2 & _); case_decide; by split).
  unfold orient. rewrite (proj2 (Z.eqb_neq _ _) Ha), (proj2 (Z.eqb_neq _ _) Hb). cbn [negb andb].
  case_decide; [by rewrite (proj2 (Z.ltb_ge _ _)) by lia | by rewrite (proj2 (Z.ltb_lt _ _)) by lia].
Qed.

Definition graph_ok (ps : list JoinPredicate) (g : gmap string (list JoinPredicate)) : Prop :=
  forall t, default [] (g !! t) = base.filter (touches t) ps.

Record joins_ok (ps : list JoinPredicate) (r : SelectResolver) : Prop := {
  jo_predicates : predicates_ r = ps;
  jo_graph : graph_ok ps (join_graph_ r);
  jo_map : forall t, join_predicates_ r !! t = last (base.filter (fun p => rname p = t) ps);
  jo_nonempty : map_Forall (fun _ l => l <> []) (join_graph_ r)
}.

Lemma add_join_ok ps r p : joins_ok ps r -> proper p -> joins_ok (ps ++ [p]) (add_join get_name p r).
Proof.
  intros [Hp Hg Hm Hn] (Hl & Hr & Hne). unfold add_join.
  rewrite (proj2 (Z.eqb_neq _ _) Hr). cbn [join_predicates_ join_graph_ predicates_ set_joins].
  unfold add_join_graph. rewrite (proj2 (Z.eqb_neq _ _) Hl), (proj2 (Z.eqb_neq _ _) Hr).
  change (get_name (cr_table (right_col_ p))) with (rname p). change (get_name (cr_table (left_col_ p))) with (lname p).
  constructor; cbn [set_joins predicates_ join_graph_ join_predicates_].
  - by rewrite Hp.
  - intros t. rewrite filter_app. rewrite !lookup_insert. destruct (decide (lname p = t)) as [Et|Hlt].
    + rewrite decide_False by congruence. cbn [from_option]. rewrite Hg, Et. rewrite (filter_cons_True _ p []) by (by left). done.
    + destruct (decide (rname p = t)) as [Et|Hrt].
      * cbn [from_option]. rewrite Et, Hg, filter_cons_True by (by right). done.
      * rewrite Hg, filter_cons_False by (unfold touches; tauto). by rewrite app_nil_r.
  - intros t. rewrite filter_app, lookup_insert. destruct (decide (rname p = t)) as [Et|Hrt].
    + rewrite filter_cons_True, filter_nil by done. by rewrite last_snoc.
    + rewrite filter_cons_False, filter_nil by done. by rewrite app_nil_r.
  - apply map_Forall_insert_2; [by intros [_ ?]%app_eq_nil |]. apply map_Forall_insert_2; [by intros [_ ?]%app_eq_nil | done].
Qed.

Lemma add_joins_ok ps' ps r : joins_ok ps r -> Forall proper ps' -> joins_ok (ps ++ ps') (add_joins get_name ps' r).
Proof.
  revert ps r. induction ps' as [|p ps' IH]; intros ps r I HF; [by rewrite app_nil_r |].
  apply Forall_cons_1 in HF as [Hp HF]. replace (ps ++ p :: ps') with ((ps ++ [p]) ++ ps') by (by rewrite <- app_assoc).
  apply IH; [by apply add_join_ok | done].
Qed.

(** ** CheckJoinSupport *)

Definition connects (p : JoinPredicate) (a b : string) : Prop := (lname p = a /\ rname p = b) \/ (lname p = b /\ rname p = a).

(** [walk ps ts t]: the predicates lead through the tables [ts] (the last one
    first) to [t]. *)
Inductive walk (t0 : string) : list JoinPredicate -> list string -> string -> Prop :=
| walk_nil : walk t0 [] [] t0
| walk_snoc ps ts t p t' : walk t0 ps ts t -> connects p t t' -> walk t0 (ps ++ [p]) (t :: ts) t'.

Lemma next_table_ok p t : proper p -> touches t p ->
  exists t', next_table get_name p t = Some t' /\ connects p t t' /\ t' <> t /\ touches t' p.
Proof.
  intros (Hl & Hr & Hne) Ht. unfold next_table, name_of.
  rewrite (proj2 (Z.eqb_neq _ _) Hl), (proj2 (Z.eqb_neq _ _) Hr). cbn.
  change (get_name (cr_table (right_col_ p))) with (rname p). change (get_name (cr_table (left_col_ p))) with (lname p).
  case_bool_decide as E.
  - exists (rname p). split_and!; [done | by left | congruence | by right].
  - exists (lname p). destruct Ht as [Ht|Ht]; [done |]. split_and!; [done | by right | done | by left].
Qed.

Lemma walk_ends t0 ps ts t p : walk t0 ps ts t -> p ∈ ps -> forall x, touches x p -> x ∈ t :: ts.
Proof.
  induction 1 as [|ps ts t q t' Hw IH Hc]; [by intros ?%elem_of_nil |].
  intros [Hin | ->%list_elem_of_singleton]%elem_of_app x Hx.
  - specialize (IH Hin x Hx). set_solver.
  - destruct Hc as [[? ?] | [? ?]], Hx as [? | ?]; set_solver.
Qed.

Lemma graph_ok_insert ps g t : graph_ok ps g -> graph_ok ps (<[t := default [] (g !! t)]> g).
Proof.
  intros H t'. rewrite lookup_insert. destruct (decide (t = t')) as [->|]; [apply H | apply H].
Qed.

Lemma follow_ok ps (Hps : Forall proper ps) t0 fuel : forall cur t visited ordered g,
  graph_ok ps g -> cur ∈ ps -> touches t cur ->
  walk t0 ordered visited t -> NoDup visited -> NoDup ordered -> Forall (fun p => p ∈ ps) ordered ->
  (cur ∉ ordered \/ t ∈ visited \/ fuel = 0%nat) ->
  exists res g', follow get_name fuel cur t visited ordered g = Some (res, g') /\ graph_ok ps g' /\
    match res with
    | None => True
    | Some out => length out = (length ordered + fuel)%nat /\ NoDup out /\ Forall (fun p => p ∈ ps) out /\
                  exists ts t', walk t0 out ts t' /\ NoDup ts
    end.
Proof.
  induction fuel as [|fuel IH]; intros cur t visited ordered g Hg Hcur Ht Hw Hnv Hno Hin Hfresh.
  - exists (Some ordered), g. split_and!; [done | done | lia | done | done | eauto].
  - cbn [follow]. case_bool_decide as Hv; [by eexists _, _ |].
    destruct Hfresh as [Hfresh | [? | ?]]; [| done | done].
    destruct (next_table_ok cur t) as (t' & En & Hcon & Hne & Ht'); [by eapply Forall_forall | done |]. rewrite En. cbn [mbind option_bind].
    assert (walk t0 (ordered ++ [cur]) (t :: visited) t') as Hw' by (by econstructor).
    assert (NoDup (t :: visited)) as Hnv' by (by constructor).
    assert (NoDup (ordered ++ [cur])) as Hno'.
    { apply NoDup_app. split_and!; [done | set_solver | apply NoDup_singleton]. }
    assert (Forall (fun p => p ∈ ps) (ordered ++ [cur])) as Hin' by (apply Forall_app; split; [done | by repeat constructor]).
    pose proof (graph_ok_insert _ _ t' Hg) as Hg'.
    destruct (2 <? length (default [] (g !! t')))%nat; [by eexists _, _ |].
    destruct (list_find _ _) as [[i p]|] eqn:Ef.
    + apply list_find_Some in Ef as (Hi & Hpc & _). apply list_elem_of_lookup_2 in Hi. rewrite Hg in Hi.
      apply list_elem_of_filter in Hi as [Htp Hp].
      destruct (IH p t' (t :: visited) (ordered ++ [cur]) _ Hg' Hp Htp Hw' Hnv' Hno' Hin') as (res & g' & E & Hg2 & Hres).
      { destruct (decide (p ∈ ordered ++ [cur])) as [Hpo|]; [| by left]. right; left.
        apply elem_of_app in Hpo as [Hpo | Hpo%list_elem_of_singleton]; [| done].
        pose proof (walk_ends _ _ _ _ _ Hw Hpo t' Htp) as [? | ?]%elem_of_cons; [done | set_solver]. }
      exists res, g'. split_and!; [done | done |]. destruct res as [out|]; [| done]. rewrite length_app in Hres. cbn in Hres.
      destruct Hres as (Hlen & ?). split; [lia | done].
    + destruct fuel as [|fuel]; [| by eexists _, _]. exists (Some (ordered ++ [cur])), (<[t' := default [] (g !! t')]> g).
      split_and!; [done | done | | done | done | eauto].
      rewrite length_app. done.
Qed.

Lemma filter_id {A} (P : A -> Prop) `{!forall x, Decision (P x)} (l : list A) : Forall P l -> base.filter P l = l.
Proof. induction 1 as [|x l Hx _ IH]; [done |]. by rewrite filter_cons_True, IH. Qed.

Lemma filter_length_all {A} (P : A -> Prop) `{!forall x, Decision (P x)} (l : list A) :
  length (base.filter P l) = length l <-> Forall P l.
Proof.
  split; [| by intros E; rewrite filter_id].
  induction l as [|x l IH]; [done |]. rewrite filter_cons. pose proof (length_filter P l) as Hle.
  case_decide; cbn; [| lia]. intros [= E]. constructor; auto.
Qed.

(** The entries of the graph, in the order of the iteration. *)
Lemma graph_entry ps r iterate t l :
  joins_ok ps r -> iterate (join_graph_ r) ≡ₚ map_to_list (join_graph_ r) ->
  (t, l) ∈ iterate (join_graph_ r) <-> l = base.filter (touches t) ps /\ l <> [].
Proof.
  intros [_ Hg _ Hn] Hp. rewrite Hp, elem_of_map_to_list. specialize (Hg t). split.
  - intros E. rewrite E in Hg. split; [done | by eapply Hn].
  - intros [-> Hne]. destruct (join_graph_ r !! t) as [l|]; cbn in Hg; congruence.
Qed.

Lemma start_table_ok entries start : forall p t,
  start_table entries start = Some (p, t) -> (t, [p]) ∈ entries \/ start = Some (p, t).
Proof.
  revert start. induction entries as [|[name [|q [|q' l]]] entries IH]; intros start p t E; [by right | | |];
    cbn in E; apply IH in E as [? | E]; (left; set_solver) || by right.
Qed.

(** A star exactly when a table is in every predicate; the predicates of a linear
    join are the predicates of the query in the order of a walk that leaves no
    table twice. *)
Lemma check_join_support iterate ps r :
  joins_ok ps r -> Forall proper ps -> iterate (join_graph_ r) ≡ₚ map_to_list (join_graph_ r) ->
  exists b r', CheckJoinSupport get_name iterate r = Some (b, r') /\
    (join_type_ r' = Some STAR <-> ps <> [] /\ exists t, Forall (touches t) ps) /\
    match join_type_ r' with
    | Some STAR => b = true /\ predicates_ r' = ps
    | Some LINEAR => b = true /\ predicates_ r' ≡ₚ ps /\
                     exists t0 ts t', walk t0 (predicates_ r') ts t' /\ NoDup ts
    | _ => b = false /\ predicates_ r' = ps
    end.
Proof.
  intros J Hps Hit. unfold CheckJoinSupport. cbn [set_join_type join_graph_ predicates_]. rewrite (jo_predicates _ _ J).
  destruct (existsb _ _) eqn:Ex.
  - apply existsb_exists in Ex as ([t l] & Hin%list_elem_of_In & Hlen%bool_decide_eq_true_1).
    apply (graph_entry ps) in Hin as [-> Hne]; [| done | done]. cbn in Hlen. apply filter_length_all in Hlen.
    eexists _, _. split; [done |]. cbn. rewrite (jo_predicates _ _ J). split; [| done]. split; [| done]. intros _.
    split; [intros ->; by apply Hne | by exists t].
  - assert (~ (ps <> [] /\ exists t, Forall (touches t) ps)) as Hns.
    { intros [Hne [t Ht]]. rewrite <- not_true_iff_false, existsb_exists in Ex. apply Ex. exists (t, ps).
      split; [| by apply bool_decide_eq_true]. apply list_elem_of_In, (graph_entry ps); [done | done |].
      split; [by rewrite filter_id | done]. }
    destruct (start_table _ None) as [[p t]|] eqn:Es.
    + apply start_table_ok in Es as [Hin | ?]; [| done]. apply (graph_entry ps) in Hin as [Hf _]; [| done | done].
      assert (p ∈ base.filter (touches t) ps) as [Htp Hp]%list_elem_of_filter by (rewrite <- Hf; set_solver).
      case_bool_decide.
      { eexists _, _. split; [done |]. cbn. rewrite (jo_predicates _ _ J). split; [by split | done]. }
      destruct (follow_ok ps Hps t (length ps) p t [] [] (join_graph_ r)) as (res & g' & E & _ & Hres);
        [apply J | done | done | constructor | constructor | constructor | constructor | left; set_solver |].
      rewrite E. cbn. destruct res as [out|].
      * eexists _, _. split; [done |]. cbn. split; [by split |]. destruct Hres as (Hlen & Hnd & Hin & Hw).
        split_and!; [done | | by destruct Hw as (ts & t' & ? & ?); eauto].
        apply submseteq_length_Permutation; [apply NoDup_submseteq; [done | by apply Forall_forall] | cbn in Hlen; lia].
      * eexists _, _. split; [done |]. split; [by split | done].
    + eexists _, _. split; [done |]. cbn. rewrite (jo_predicates _ _ J). split; [by split | done].
Qed.

(** ** Chains of joins are supported *)

(** The predicates lead through the tables [t :: us] in order. *)
Fixpoint path (t : string) (qs : list JoinPredicate) (us : list string) : Prop :=
  match qs, us with
  | [], [] => True
  | q :: qs', u :: us' => connects q t u /\ path u qs' us'
  | _, _ => False
  end.

Lemma connects_touches q a b x : connects q a b -> touches x q <-> x = a \/ x = b.
Proof. unfold connects, touches. intros [[<- <-] | [<- <-]]; split; intros [? | ?]; subst; auto. Qed.

Lemma connects_sym q a b : connects q a b -> connects q b a.
Proof. unfold connects. tauto. Qed.

Lemma path_tables qs : forall t us q x, path t qs us -> q ∈ qs -> touches x q -> x ∈ t :: us.
Proof.
  induction qs as [|q qs IH]; intros t [|u us] q' x Hp Hq Hx; cbn in Hp; try (by apply elem_of_nil in Hq); [done |].
  destruct Hp as [Hc Hp]. apply elem_of_cons in Hq as [-> | Hq].
  - apply (connects_touches _ _ _ _ Hc) in Hx as [-> | ->]; set_solver.
  - specialize (IH u us q' x Hp Hq Hx). set_solver.
Qed.

Lemma last_shift {A} (us : list A) : forall u t, List.last (u :: us) t = List.last us u.
Proof. induction us as [|y us IH]; intros u t; [done |]. change (List.last (y :: us) t = List.last (y :: us) u). by rewrite !IH. Qed.

Lemma path_snoc qs : forall t us q u, path t qs us -> connects q (List.last us t) u -> path t (qs ++ [q]) (us ++ [u]).
Proof.
  induction qs as [|q' qs IH]; intros t [|u' us] q u Hp Hc; cbn in Hp; try done. destruct Hp as [Hc' Hp]. split; [done |].
  apply IH; [done |]. by rewrite last_shift in Hc.
Qed.

(** The same path from its other end. *)
Lemma path_reverse qs : forall t us, path t qs us -> path (List.last us t) (reverse qs) (tail (reverse (t :: us))).
Proof.
  induction qs as [|q qs IH]; intros t [|u us] Hp; cbn in Hp; try done. destruct Hp as [Hc Hp].
  specialize (IH u us Hp). rewrite last_shift, !reverse_cons. rewrite reverse_cons in IH.
  assert (exists a l, reverse us ++ [u] = a :: l) as (a & l & E) by (destruct (reverse us); by eexists _, _).
  rewrite E in IH |- *. cbn in IH |- *. apply path_snoc; [done |]. apply connects_sym.
  replace (List.last l (List.last us u)) with u; [done |]. clear -E. destruct us as [|y us].
  - cbn in E. by injection E as <- <-.
  - destruct l as [|b l]; [apply (f_equal length) in E; rewrite length_app, length_reverse in E; cbn in E; lia |].
    apply (f_equal (fun x => List.last x (List.last (y :: us) u))) in E. rewrite last_last in E. exact E.
Qed.

Lemma touches_none (t : string) (l : list JoinPredicate) : (forall q, q ∈ l -> ~ touches t q) -> base.filter (touches t) l = [].
Proof.
  induction l as [|q l IH]; intros H; [done |]. rewrite filter_cons_False by (apply H; set_solver). apply IH. intros q' Hq. apply H. set_solver.
Qed.

(** Only the first predicate touches the first table. *)
Lemma path_first q qs t u us : path t (q :: qs) (u :: us) -> NoDup (t :: u :: us) -> base.filter (touches t) (q :: qs) = [q].
Proof.
  intros [Hc Hp] Hnd. rewrite filter_cons_True by (apply (connects_touches _ _ _ _ Hc); by left). f_equal.
  apply touches_none. intros q' Hq Ht. pose proof (path_tables _ _ _ _ _ Hp Hq Ht). apply NoDup_cons in Hnd as [? _]. done.
Qed.

Lemma find_other (a b : JoinPredicate) l : l ≡ₚ [a; b] -> a <> b -> exists i, list_find (fun p => p <> a) l = Some (i, b).
Proof.
  intros Hp Hne. destruct l as [|x [|y [|z l]]]; try (apply Permutation_length in Hp; cbn in Hp; lia).
  assert ((x = a /\ y = b) \/ (x = b /\ y = a)) as [[-> ->] | [-> ->]].
  { by apply Permutation_length_2. }
  - exists 1%nat. cbn. rewrite decide_False by (by intros []). by rewrite decide_True.
  - exists 0%nat. cbn. by rewrite decide_True.
Qed.

Lemma follow_path ps (Hps : Forall proper ps) rest : forall cur t u us visited ordered g,
  graph_ok ps g -> ps ≡ₚ ordered ++ cur :: rest -> path t (cur :: rest) (u :: us) -> NoDup (visited ++ t :: u :: us) ->
  (forall q x, q ∈ ordered -> touches x q -> x ∈ t :: visited) ->
  exists g', follow get_name (S (length rest)) cur t visited ordered g = Some (Some (ordered ++ cur :: rest), g').
Proof.
  induction rest as [|q rest IH]; intros cur t u us visited ordered g Hg Hperm [Hc Hp] Hnd Hord.
  all: assert (t ∉ visited) as Hv by (apply NoDup_app in Hnd as (_ & H & _); intros Hin; by apply (H _ Hin); left).
  all: assert (u ∉ t :: visited) as Hu by (apply NoDup_app in Hnd as (_ & H & Hnd'); apply not_elem_of_cons; split;
         [apply NoDup_cons in Hnd' as [? _]; set_solver | intros Hin; apply (H _ Hin); set_solver]).
  all: assert (proper cur) as Hpc by (eapply Forall_forall; [exact Hps | rewrite Hperm; set_solver]).
  all: destruct (next_table_ok cur t Hpc) as (t' & En & Hcon & Hne & _); [apply (connects_touches _ _ _ _ Hc); by left |].
  all: assert (t' = u) as -> by (assert (touches t' cur) as Ht by (apply (connects_touches _ _ _ _ Hcon); by right);
         apply (connects_touches _ _ _ _ Hc) in Ht as [? | ?]; done).
  all: assert (base.filter (touches u) ordered = []) as Ho by (apply touches_none; intros q' Hq Ht; by apply Hu, (Hord q')).
  all: assert (touches u cur) as Huc by (apply (connects_touches _ _ _ _ Hc); by right).
  all: cbn [follow]; rewrite bool_decide_eq_false_2 by done; rewrite En; cbn [mbind option_bind]; rewrite Hg.
  - assert (base.filter (touches u) ps = [cur]) as ->.
    { apply Permutation_singleton_r. by rewrite Hperm, filter_app, Ho, filter_cons_True. }
    cbn. rewrite decide_False by (by intros []). by eexists.
  - destruct us as [|u2 us]; [done |]. apply NoDup_app in Hnd as Hnd'. destruct Hnd' as (_ & _ & Hnd'). apply NoDup_cons in Hnd' as [Ht Hnd'].
    assert (base.filter (touches u) ps ≡ₚ [cur; q]) as Hf.
    { rewrite Hperm, filter_app, Ho. cbn [app]. rewrite filter_cons_True by done.
      by rewrite (path_first q rest u u2 us Hp Hnd'). }
    assert (cur <> q) as Hcq.
    { intros <-. assert (touches t cur) as Htc by (apply (connects_touches _ _ _ _ Hc); by left).
      pose proof (path_tables (cur :: rest) u (u2 :: us) cur t Hp ltac:(set_solver) Htc). done. }
    rewrite (proj2 (Nat.ltb_ge _ _)) by (by rewrite (Permutation_length Hf)).
    destruct (find_other _ _ _ Hf Hcq) as [i ->].
    destruct (IH q u u2 us (t :: visited) (ordered ++ [cur]) (<[u := base.filter (touches u) ps]> g)) as [g' E].
    + intros x. rewrite lookup_insert. case_decide; [by subst | apply Hg].
    + by rewrite <- app_assoc.
    + exact Hp.
    + change (NoDup ((t :: visited) ++ u :: u2 :: us)). cbn. rewrite <- Permutation_middle in Hnd. exact Hnd.
    + intros q' x [Hq | ->%list_elem_of_singleton]%elem_of_app Hx; [specialize (Hord q' x Hq Hx); set_solver |].
      apply (connects_touches _ _ _ _ Hc) in Hx as [-> | ->]; set_solver.
    + exists g'. rewrite <- app_assoc in E. exact E.
Qed.

Lemma start_table_some entries t p : forall start, (t, [p]) ∈ entries \/ start <> None -> start_table entries start <> None.
Proof.
  induction entries as [|[name [|q [|q' l]]] entries IH]; intros start H; cbn; [| apply IH | apply IH; by right | apply IH].
  - destruct H as [H | H]; [by apply elem_of_nil in H | done].
  - destruct H as [[H | H]%elem_of_cons | H]; [done | by left | by right].
  - destruct H as [[H | H]%elem_of_cons | H]; [done | by left | by right].
Qed.

(** A table with one predicate is an end of the path. *)
Lemma path_end qs : forall t0 us t, path t0 qs us -> NoDup (t0 :: us) -> length (base.filter (touches t) qs) = 1%nat ->
  t = t0 \/ t = List.last us t0.
Proof.
  induction qs as [|q qs IH]; intros t0 [|u us] t Hp Hnd Hlen; cbn [path] in Hp; try done. destruct Hp as [Hc Hp].
  destruct (decide (t = t0)) as [|Hne]; [by left | right]. rewrite last_shift. apply NoDup_cons in Hnd as [Hni Hnd].
  destruct (decide (t = u)) as [->|Hnu].
  - destruct qs as [|q2 qs]; [by destruct us |]. destruct us as [|u2 us]; [done |].
    rewrite filter_cons_True in Hlen by (apply (connects_touches _ _ _ _ Hc); by right).
    by rewrite (path_first q2 qs u u2 us Hp Hnd) in Hlen.
  - rewrite filter_cons_False in Hlen by (rewrite (connects_touches _ _ _ _ Hc); tauto).
    destruct (IH u us t Hp Hnd Hlen); done.
Qed.

Lemma follow_from_end ps (Hps : Forall proper ps) t qs us p g :
  graph_ok ps g -> path t qs us -> NoDup (t :: us) -> ps ≡ₚ qs -> base.filter (touches t) ps = [p] ->
  exists g', follow get_name (length ps) p t [] [] g = Some (Some qs, g').
Proof.
  intros Hg Hp Hnd Hperm Hf. destruct qs as [|q qs]; [apply Permutation_nil_r in Hperm; by rewrite Hperm in Hf |].
  destruct us as [|u us]; [done |].
  assert (p = q) as ->.
  { pose proof (path_first q qs t u us Hp Hnd) as Hq.
    assert ([p] ≡ₚ [q]) as Hpq by (rewrite <- Hf, <- Hq; by rewrite Hperm). by apply Permutation_length_1 in Hpq. }
  rewrite (Permutation_length Hperm). cbn [length].
  apply (follow_path ps Hps qs q t u us [] [] g); [done | done | done | done |]. by intros q' x ?%elem_of_nil.
Qed.

Lemma reverse_path_tables (t : string) us : reverse (t :: us) = List.last us t :: tail (reverse (t :: us)).
Proof.
  revert t. induction us as [|u us IH]; intros t; [done |]. by rewrite last_shift, (reverse_cons (u :: us)), (IH u).
Qed.

(** Predicates that form a path without a table in all of them are a linear join. *)
Lemma check_path iterate ps r t0 qs us :
  joins_ok ps r -> Forall proper ps -> iterate (join_graph_ r) ≡ₚ map_to_list (join_graph_ r) ->
  path t0 qs us -> NoDup (t0 :: us) -> ps ≡ₚ qs -> ps <> [] -> EmptyString ∉ t0 :: us ->
  (forall t, ~ Forall (touches t) ps) ->
  exists r', CheckJoinSupport get_name iterate r = Some (true, r') /\ join_type_ r' = Some LINEAR.
Proof.
  intros J Hps Hit Hp Hnd Hperm Hne Hempty Hns.
  destruct (check_join_support iterate ps r J Hps Hit) as (b & r0 & E0 & Hstar & _).
  unfold CheckJoinSupport in *. cbn [set_join_type join_graph_ predicates_] in *. rewrite (jo_predicates _ _ J) in *.
  destruct (existsb _ _).
  { injection E0 as <- <-. destruct (proj1 Hstar eq_refl) as [_ [t Ht]]. by destruct (Hns t). }
  clear E0 Hstar b r0.
  destruct (start_table (iterate (join_graph_ r)) None) as [[p t]|] eqn:Es.
  - apply start_table_ok in Es as [Hin | ?]; [| done]. apply (graph_entry ps) in Hin as [Hf _]; [| done | done]. symmetry in Hf.
    assert (t ∈ t0 :: us) as Htin.
    { assert (p ∈ base.filter (touches t) ps) as [Htp Hin]%list_elem_of_filter by (rewrite Hf; set_solver).
      rewrite Hperm in Hin. by eapply path_tables. }
    rewrite bool_decide_eq_false_2 by (intros ->; done).
    assert (exists qs' g', follow get_name (length ps) p t [] [] (join_graph_ r) = Some (Some qs', g')) as (qs' & g' & ->).
    { destruct (path_end qs t0 us t Hp Hnd) as [-> | ->].
      - by rewrite <- Hperm, Hf.
      - exists qs. by apply (follow_from_end ps Hps t0 qs us p); [apply J | | | |].
      - exists (reverse qs). apply (follow_from_end ps Hps _ (reverse qs) (tail (reverse (t0 :: us))) p); [apply J | by apply path_reverse | | | done].
        + by rewrite <- reverse_path_tables, reverse_Permutation.
        + by rewrite reverse_Permutation. }
    eexists. by split.
  - exfalso. destruct qs as [|q qs]; [by apply Permutation_nil_r in Hperm |]. destruct us as [|u us]; [done |].
    apply (start_table_some (iterate (join_graph_ r)) t0 q None); [left | done]. apply (graph_entry ps); [done | done |]. split; [| done].
    symmetry. apply Permutation_singleton_r. by rewrite Hperm, (path_first q qs t0 u us).
Qed.

End Graph.
End JoinsProof.

Import JoinsProof.

(** ** The clauses of a SELECT statement *)

Module ClauseProof.

(** A term of the ORDER BY clause: [n] is the number of its column in the
    SELECT clause, [0] if it is not there. *)
Inductive OrderTerm := OrderColumn (c : Col) (n : nat) (desc : bool) | OrderAggregate (n : nat) (desc : bool).

Definition group_item (c : Col) : ExprListItem := mkItem (col_expr c) None 0 0.
Definition order_item (o : OrderTerm) : ExprListItem :=
  match o with
  | OrderColumn c n desc => mkItem (col_expr c) None (if desc then 1 else 0) (Z.of_nat n)
  | OrderAggregate n desc =>
      mkItem (mkExpr TK_AGG_FUNCTION (zToken "") None None [] 0 0 None) None (if desc then 1 else 0) (Z.of_nat n)
  end.

(** An aggregate is ordered by the name of its result. *)
Definition order_ok (projects : list ProjectReference) (o : OrderTerm) : Prop :=
  match o with OrderColumn c _ _ => col_ok c | OrderAggregate n _ => (n <= length projects)%nat end.

Section Clauses.
Context (GetTable : string -> option Z) (get_name : Z -> string) (get_num_rows : Z -> Z).

(** Terms that are not in the SELECT clause are left out. *)
Definition order_ref (projects : list ProjectReference) (o : OrderTerm) : option Agg.OrderByReference :=
  match o with
  | OrderColumn c (S _) desc => Some (Agg.mkOrderByReference (ref_of GetTable c) desc)
  | OrderAggregate (S n) desc =>
      p ← projects !! n;
      Some (Agg.mkOrderByReference (mkColumnReference Agg.nullptr (alias p)) desc)
  | _ => None
  end.

Lemma group_by_ok gs r : Forall col_ok gs ->
  resolve_group_by GetTable (group_item <$> gs) r =
  Some (set_references (agg_references_ r) (group_by_references_ r ++ (ref_of GetTable <$> gs)) (order_by_references_ r) (project_references_ r) r, inr tt).
Proof.
  intros H. revert r. induction H as [|c gs Hc _ IH]; intros r.
  - cbn. rewrite app_nil_r. by destruct r.
  - rewrite fmap_cons. cbn [resolve_group_by]. cbn [group_item pExpr col_expr iColumn]. rewrite (proj2 (Z.leb_le _ _)) by lia.
    change (mkExpr _ _ _ _ _ _ _ _) with (col_expr c).
    erewrite bind_val by (by erewrite bind_defined by (by apply column_ref_ok)). rewrite IH. cbn. by rewrite <- app_assoc.
Qed.

Lemma land_desc desc : negb (Z.land (if (desc : bool) then 1 else 0) KEYINFO_ORDER_DESC =? 0) = desc.
Proof. by destruct desc. Qed.

Lemma order_by_ok os r : Forall (order_ok (project_references_ r)) os ->
  resolve_order_by GetTable (order_item <$> os) r =
  Some (set_references (agg_references_ r) (group_by_references_ r) (order_by_references_ r ++ omap (order_ref (project_references_ r)) os)
          (project_references_ r) r, inr tt).
Proof.
  revert r. induction os as [|o os IH]; intros r H.
  - cbn. rewrite app_nil_r. by destruct r.
  - apply Forall_cons_1 in H as [Ho H]. rewrite fmap_cons. cbn [resolve_order_by].
    set (r1 := match order_ref (project_references_ r) o with Some x => push_order x r | None => r end).
    assert (project_references_ r1 = project_references_ r) as Ep by (unfold r1; by destruct (order_ref _ o)).
    erewrite bind_val with (s1 := r1).
    + rewrite IH by (by rewrite Ep). rewrite Ep. cbn [omap list_omap]. unfold r1. destruct (order_ref _ o); cbn; [by rewrite <- app_assoc | done].
    + unfold r1. destruct o as [c [|n] desc|[|n] desc]; cbn [order_item order_ref sortFlags iOrderByCol pExpr].
      * by rewrite land_desc.
      * rewrite land_desc, (proj2 (Z.ltb_lt _ _)), (proj2 (Z.leb_le _ _)) by (cbn; lia).
        cbn [andb]. change (op (col_expr c) =? TK_AGG_FUNCTION) with false. cbv iota.
        by erewrite bind_defined by (by apply column_ref_ok).
      * by rewrite land_desc.
      * rewrite land_desc, (proj2 (Z.ltb_lt _ _)), (proj2 (Z.leb_le _ _)) by (cbn; lia).
        cbn [andb op]. change (TK_AGG_FUNCTION =? TK_AGG_FUNCTION) with true. cbv iota. rewrite bind_get.
        destruct (lookup_lt_is_Some_2 (project_references_ r) n) as [p Hp]; [exact Ho |].
        replace (Z.to_nat (Z.of_nat (S n) - 1)) with n by lia. erewrite bind_defined by exact Hp. by rewrite Hp.
Qed.

(** What the clauses after the predicates leave alone. *)
Definition same_trees (r r' : SelectResolver) : Prop :=
  select_predicates_ r' = select_predicates_ r /\ next_address r' = next_address r /\
  group_by_references_ r' = group_by_references_ r /\ order_by_references_ r' = order_by_references_ r /\
  project_references_ r' = project_references_ r /\ agg_references_ r' = agg_references_ r /\ resolve_status_ r' = resolve_status_ r.

Lemma matches_same D cs r r' :
  select_predicates_ r' = select_predicates_ r -> next_address r' = next_address r -> matches D cs r -> matches D cs r'.
Proof. intros E En [Hd He Hi]. constructor; by rewrite ?E, ?En. Qed.

Lemma add_joins_trees ps r : same_trees r (add_joins get_name ps r).
Proof.
  unfold same_trees. revert r. induction ps as [|p ps IH]; intros r; [done |]. cbn [add_joins foldl]. specialize (IH (add_join get_name p r)).
  unfold add_joins in IH. unfold add_join in *. destruct (cr_table (right_col_ p) =? Agg.nullptr); exact IH.
Qed.

Lemma check_trees iterate r b r' : CheckJoinSupport get_name iterate r = Some (b, r') ->
  same_trees r r' /\ join_predicates_ r' = join_predicates_ r.
Proof.
  unfold CheckJoinSupport, same_trees. destruct (existsb _ _); [by intros [= <- <-] |].
  destruct (start_table _ _) as [[p t]|]; [| by intros [= <- <-]].
  case_bool_decide; [by intros [= <- <-] |]. destruct (follow _ _ _ _ _ _) as [[[ps|] g]|]; cbn; intros E; by simplify_eq.
Qed.

(** The whole of [resolve_where]. *)
Lemma where_evaluates iterate c cs (gs : list Col) (os : list OrderTerm) q r r1 res (ps := omap (join_of GetTable get_num_rows) (c :: cs)) b r3 :
  pWhere q = Some (where_expr c cs) -> pGroupBy q = Some (group_item <$> gs) -> pOrderBy q = Some (order_item <$> os) ->
  ResolvePredExpr GetTable (where_expr c cs) r = Some (r1, inr res) -> resolve_status_ r1 = true ->
  Forall conjunct_ok (c :: cs) -> CheckJoinSupport get_name iterate (add_joins get_name ps r1) = Some (b, r3) ->
  Forall col_ok gs -> Forall (order_ok (project_references_ r1)) os ->
  exists r', resolve_where GetTable get_name get_num_rows iterate q r = Some (r', inr b) /\
    r' = (if b then set_references (agg_references_ r1) (group_by_references_ r1 ++ (ref_of GetTable <$> gs))
                      (order_by_references_ r1 ++ omap (order_ref (project_references_ r1)) os) (project_references_ r1) r3
          else r3).
Proof.
  intros Hw Hg Ho E1 Hst Hok E3 Hgs Hos. unfold resolve_where. rewrite Hw, Hg, Ho.
  erewrite bind_val by exact E1. rewrite bind_get, Hst. cbn [negb].
  erewrite bind_val by (by apply joins_resolved). fold ps. rewrite bind_get.
  erewrite bind_defined by exact E3. cbv beta iota. rewrite bind_modify.
  pose proof (add_joins_trees ps r1) as (_ & _ & G1 & O1 & P1 & A1 & _).
  apply check_trees in E3 as [(_ & _ & G3 & O3 & P3 & A3 & _) _]. rewrite G1 in G3. rewrite O1 in O3. rewrite P1 in P3. rewrite A1 in A3.
  destruct b; cbn [negb]; [| by eexists].
  erewrite bind_val by (by apply group_by_ok). cbn [default].
  erewrite bind_val by (apply order_by_ok; cbn; by rewrite P3). eexists. split; [done |]. cbn. by rewrite G3, O3, P3, A3.
Qed.

End Clauses.
End ClauseProof.

Import ClauseProof.


(** ** A statement of the star schema benchmark

    [lineorder] has cursor 0, [date] has cursor 1. *)

Definition demo_lineorder : Table := mkTable "lineorder" ["lo_orderdate"; "lo_discount"; "lo_quantity"; "lo_revenue"; "lo_custkey"]%string.
Definition demo_date : Table := mkTable "date" ["d_datekey"; "d_year"; "d_month"; "d_day"]%string.
Definition lo (i : nat) : Col := mkCol demo_lineorder 0 i.
Definition da (i : nat) : Col := mkCol demo_date 1 i.

Definition demo_get_table (name : string) : option Z :=
  if bool_decide (name = "lineorder"%string) then Some 1 else if bool_decide (name = "date"%string) then Some 2 else None.
Definition demo_get_name (t : Z) : string := if t =? 1 then "lineorder" else "date".
Definition demo_num_rows (t : Z) : Z := if t =? 1 then 6000 else 365.

(** The resolver after the FROM clause. *)
Definition demo_resolver : SelectResolver :=
  set_select_predicates (<["lineorder"%string := None]> (<["date"%string := None]> ∅)) newSelectResolver.

(** [lo_orderdate = d_datekey AND d_year = 1993 AND lo_discount BETWEEN 1 AND 3 AND lo_quantity < 25] *)
Definition demo_join : Conjunct := JoinOn (lo 0) (da 0).
Definition demo_conjuncts : list Conjunct :=
  [Comparison TK_EQ (da 1) (IntLit 1993); Between (lo 1) 1 3; Comparison TK_LT (lo 2) (IntLit 25)].
Definition demo_query : Sqlite3Select :=
  mkSelect [] 0 None (Some (where_expr demo_join demo_conjuncts)) (Some (group_item <$> [da 1])) false
    (Some (order_item <$> [OrderColumn (da 1) 1 true])) false.

Lemma demo_joins_ok get_name m : joins_ok get_name [] (set_select_predicates m newSelectResolver).
Proof. constructor; [done | done | done | apply map_Forall_empty]. Qed.


(** ** What happens to other statements *)

(** The tree entered for a table after a WHERE clause, as the list of its columns
    in the order of the tree; the outer [None] is undefined behaviour. *)
Fixpoint node_columns (n : Node) : list string :=
  match n with PredicateNode p => [pred_col p] | ConnectiveNode l r _ => node_columns l ++ node_columns r end.
Definition demo_columns (c : Conjunct) (cs : list Conjunct) (t : string) : option (list string) :=
  match ResolvePredExpr demo_get_table (where_expr c cs) demo_resolver with
  | Some (r, _) => Some (match select_predicates_ r !! t with Some (Some tree) => node_columns (root_ tree) | _ => [] end)
  | None => None
  end.

(** Of three conjuncts on a table whose cursor is not 0 the third one is lost. *)
Theorem third_conjunct_lost :
  demo_columns (Comparison TK_EQ (da 1) (IntLit 1993)) [Comparison TK_EQ (da 2) (IntLit 1); Comparison TK_EQ (da 3) (IntLit 2)] "date" =
  Some ["d_year"; "d_month"]%string.
Proof. vm_compute. reflexivity. Qed.

(** A BETWEEN replaces the conjuncts on its table that came before it. *)
Theorem between_overwrites :
  demo_columns demo_join [Comparison TK_LT (lo 2) (IntLit 25); Between (lo 1) 1 3] "lineorder" = Some ["lo_discount"; "lo_discount"]%string.
Proof. vm_compute. reflexivity. Qed.

(** A conjunct on the table with cursor 0 is entered for the table of the two
    conjuncts before it. *)
Theorem conjunct_of_other_table :
  demo_columns (Comparison TK_EQ (da 1) (IntLit 1993)) [Comparison TK_EQ (da 2) (IntLit 1); Comparison TK_LT (lo 2) (IntLit 25)] "date" =
  Some ["d_year"; "d_month"; "lo_quantity"]%string.
Proof. vm_compute. reflexivity. Qed.

(** A join predicate after two separate conjuncts on a table dereferences a null
    pointer: the combined tree has no table name. *)
Theorem join_after_combined_crashes :
  demo_columns (Comparison TK_EQ (da 1) (IntLit 1993))
    [Comparison TK_LT (lo 2) (IntLit 25); Comparison TK_EQ (da 2) (IntLit 1); demo_join] "date" = None.
Proof. vm_compute. reflexivity. Qed.

(** A disjunction of join predicates is resolved as their conjunction. *)
Theorem or_of_joins_is_and GetTable get_name get_num_rows a b a' b' r
    (disjunction := binary_expr TK_OR (conjunct_expr (JoinOn a b)) (conjunct_expr (JoinOn a' b'))) :
  ResolvePredExpr GetTable disjunction r = Some (r, inr None) /\
  ResolveJoinPredExpr GetTable get_name get_num_rows disjunction =
  ResolveJoinPredExpr GetTable get_name get_num_rows (binary_expr TK_AND (conjunct_expr (JoinOn a b)) (conjunct_expr (JoinOn a' b'))).
Proof. done. Qed.

(** A statement without join predicates is never supported. *)
Theorem no_join_unsupported get_name iterate r :
  joins_ok get_name [] r -> iterate (join_graph_ r) ≡ₚ map_to_list (join_graph_ r) ->
  exists r', CheckJoinSupport get_name iterate r = Some (false, r').
Proof.
  intros J Hit. assert (iterate (join_graph_ r) = []) as E.
  { destruct (iterate (join_graph_ r)) as [|[t l] it] eqn:E; [done |].
    assert ((t, l) ∈ iterate (join_graph_ r)) as H by (rewrite E; set_solver).
    apply (graph_entry get_name []) in H as [-> Hne]; [by destruct Hne | done | by rewrite E]. }
  unfold CheckJoinSupport. cbn [set_join_type join_graph_ predicates_]. rewrite E. by eexists.
Qed.
