(* ===== verification/Planner.v ===== *)
(** * Building the execution plan of a resolved statement (resolver/cresolver.cc)

    The planner turns what the resolver collected into operators of an
    [ExecutionPlan] and links them.  Operators exchange [OperatorResult]s, which
    are shared objects: a result is an address, the tables appended to it while
    the plan is built are its contents.  [None] is undefined behaviour or a failed
    [assert]; a null plan (the statement is left to SQLite) is a value.  The
    iteration orders of the hash maps are arguments. *)

From Stdlib Require Import ZArith Lia.
From stdpp Require Import base numbers list gmap option strings relations sorting.
Import stdpp.list_basics.list stdpp.list_relations.list stdpp.list_monad.list.
From S2P Require Import Prelude Scheduler SchedulerGraph SchedulerSystem ExecutionPlan HashJoin Lip AggregateSort Catalog Resolver.
Import Plan Client PlanRun Join Resolve.

Local Open Scope Z_scope.

Module Planner.

(** The operators a plan is built from, with the results they read and write. *)
Inductive PlanOp :=
| SelectOp (table input output : Z) (tree : PredicateTree)
| SelectBuildHashOp (table input output : Z) (tree : option PredicateTree) (join_column : ColumnReference)
| HashJoinOp (left right output : Z) (predicate : JoinPredicate)
| MultiwayJoinOp (inputs : list Z) (output : Z) (graph : Graph.JoinGraph)
| FilterJoinOp (inputs : list Z) (output : Z) (graph : Graph.JoinGraph)
| HashAggregateOp (input output : Z) (aggregates : list AggregateReference) (group_by : list ColumnReference)
    (order_by : list Agg.OrderByReference).

Record Results := mkResults { contents : gmap Z (list Z); next_result : Z }.

Abbreviation PM := (StM Results).
Abbreviation Plan := (ExecutionPlan PlanOp Z ColumnReference).

Definition make_result : PM Z :=
  s ← get;
  _ ← modify (fun s => mkResults (<[next_result s := []]> (contents s)) (next_result s + 1));
  mret (next_result s).

Definition append (x table : Z) : PM unit :=
  modify (fun s => mkResults (<[x := table :: default [] (contents s !! x)]> (contents s)) (next_result s)).

(** ** build_select *)

Record Selects := mkSelects {
  is_predicate_avail : bool;
  select_result_map : gmap string Z;
  select_result : list Z;
  select_operators : list PlanOp
}.

Section Build.
Context (GetTable : string -> option Z) (get_name : Z -> string).

(** [join_predicate_map\[name\]] is a default predicate for a new name. *)
Definition join_column (join_predicate_map : gmap string JoinPredicate) (name : string) : ColumnReference :=
  match join_predicate_map !! name with Some p => right_col_ p | None => mkColumnReference Agg.nullptr EmptyString end.

(** The loop over [select_predicates]; the result [None] is [std::nullopt]. *)
Fixpoint build_select (join_predicate_map : gmap string JoinPredicate) (entries : list (string * option PredicateTree)) (acc : Selects)
    : PM (option Selects) :=
  match entries with
  | [] => mret (Some acc)
  | (table_name, predicate_tree) :: entries' =>
      input_result ← make_result;
      output_result ← make_result;
      match GetTable table_name with
      | None => mret None
      | Some table_ptr =>
          let joined := bool_decide (is_Some (join_predicate_map !! table_name)) in
          let many := (1 <? size join_predicate_map)%nat in
          op ←
            (if joined && many then
               _ ← append input_result table_ptr;
               mret (Some (SelectBuildHashOp table_ptr input_result output_result predicate_tree (join_column join_predicate_map table_name)))
             else
               match predicate_tree with
               | None => _ ← append output_result table_ptr; mret None
               | Some tree =>
                   _ ← append input_result table_ptr;
                   if negb joined && negb many then mret (Some (SelectOp table_ptr input_result output_result tree))
                   else mret (Some (SelectBuildHashOp table_ptr input_result output_result predicate_tree (join_column join_predicate_map table_name)))
               end);
          build_select join_predicate_map entries'
            (mkSelects (is_predicate_avail acc || bool_decide (is_Some op)) (<[table_name := output_result]> (select_result_map acc))
               (select_result acc ++ [output_result]) (select_operators acc ++ option_list op))
      end
  end.

(** ** build_linear_join and build_join *)

(** The result of a table that is not joined yet. *)
Definition side_result (select_predicates : gmap string (option PredicateTree)) (result_map : gmap string Z) (c : ColumnReference) : PM Z :=
  name ← defined (name_of get_name (cr_table c));
  match select_predicates !! name with
  | Some _ => mret (default Agg.nullptr (result_map !! name))
  | None =>
      x ← make_result;
      _ ← append x (cr_table c);
      mret x
  end.

(** [prev_join_result] is [None] for the first join. *)
Fixpoint build_linear_join (select_predicates : gmap string (option PredicateTree)) (result_map : gmap string Z)
    (predicates : list JoinPredicate) (prev_join_result : option Z) : PM (list PlanOp * option Z) :=
  match predicates with
  | [] => mret ([], prev_join_result)
  | p :: predicates' =>
      right_result ← side_result select_predicates result_map (right_col_ p);
      left_result ← (match prev_join_result with
                     | Some x => mret x
                     | None => side_result select_predicates result_map (left_col_ p)
                     end);
      output_result ← make_result;
      '(ops, out) ← build_linear_join select_predicates result_map predicates' (Some output_result);
      mret (HashJoinOp left_result right_result output_result p :: ops, out)
  end.

Definition build_join (join_predicates : list JoinPredicate) (predicate_avail : bool) (select_result : list Z) : PM (PlanOp * Z) :=
  join_graph ← defined (Graph.newJoinGraph [join_predicates]);
  join_result_out ← make_result;
  if (1 <? Graph.num_predicates_ join_graph) && predicate_avail
  then mret (FilterJoinOp select_result join_result_out join_graph, join_result_out)
  else mret (MultiwayJoinOp select_result join_result_out join_graph, join_result_out).

(** ** build_output_cols *)

Definition build_output_cols (is_agg_out : bool) (project_references : list ProjectReference) : list ColumnReference :=
  (fun p => let t := if is_agg_out then Agg.nullptr else cr_table (colRef p) in
            if bool_decide (alias p = EmptyString) then mkColumnReference t (col_name (colRef p)) else mkColumnReference t (alias p))
  <$> project_references.

(** ** createPlan: the operators *)

Inductive Joins := NoJoin | StarJoin (op : PlanOp) | LinearJoin (ops : list PlanOp).

(** The joins and [join_result_out]. *)
Definition build_joins (iterate_joins : gmap string JoinPredicate -> list (string * JoinPredicate)) (r : SelectResolver) (sel : Selects)
    : PM (Joins * option Z) :=
  if (size (join_predicates_ r) =? 0)%nat then
    x ← defined (select_result sel !! 0%nat);
    mret (NoJoin, Some x)
  else
    match join_type_ r with
    | Some STAR =>
        '(op, x) ← build_join (snd <$> iterate_joins (join_predicates_ r)) (is_predicate_avail sel) (select_result sel);
        mret (StarJoin op, Some x)
    | Some LINEAR =>
        '(ops, x) ← build_linear_join (select_predicates_ r) (select_result_map sel) (predicates_ r) None;
        mret (LinearJoin ops, x)
    | _ => mret (NoJoin, None)
    end.

Definition build_aggregate (r : SelectResolver) (prev_result_out agg_result_out : Z) : PlanOp :=
  HashAggregateOp prev_result_out agg_result_out (agg_references_ r) (group_by_references_ r) (order_by_references_ r).

(** The aggregate and the result the plan ends with. *)
Definition build_agg (r : SelectResolver) (join_result_out : option Z) : PM (option PlanOp * option Z) :=
  agg_result_out ← make_result;
  match agg_references_ r with
  | [] => mret (None, join_result_out)
  | [_] => mret (Some (build_aggregate r (default Agg.nullptr join_result_out) agg_result_out), Some agg_result_out)
  | _ => defined None
  end.

(** ** createPlan: the plan *)

Definition new_operator (b : PlanOp) : Operator PlanOp := mkOperator 0 0 b.

Fixpoint add_operators (ops : list PlanOp) (p : Plan) : list nat * Plan :=
  match ops with
  | [] => ([], p)
  | op :: ops' =>
      let (i, p) := addOperator (new_operator op) p in
      let (ids, p) := add_operators ops' p in
      (i :: ids, p)
  end.

(** The loop over [select_operators]: every selection is linked to [consumer];
    returns the last [select_id]. *)
Fixpoint add_selects (ops : list PlanOp) (consumer : option nat) (select_id : option nat) (p : Plan) : option nat * Plan :=
  match ops with
  | [] => (select_id, p)
  | op :: ops' =>
      let (i, p) := addOperator (new_operator op) p in
      let p := match consumer with Some c => createLink i c p | None => p end in
      add_selects ops' consumer (Some i) p
  end.

Fixpoint link_chain (ids : list nat) (p : Plan) : Plan :=
  match ids with
  | i :: (j :: _) as ids' => link_chain ids' (createLink i j p)
  | _ => p
  end.

(** The joins and the selections with their links: [join_id], [join_ids],
    [select_id] and the plan. *)
Definition join_part (joins : Joins) (join_result_out : option Z) (select_operators : list PlanOp) (p : Plan) : option nat * list nat * option nat * Plan :=
  let '(join_id, join_ids, plan) :=
    match joins with
    | StarJoin op => let (i, p) := addOperator (new_operator op) p in (Some i, [], p)
    | LinearJoin ops => let (ids, p) := add_operators ops p in (None, ids, p)
    | NoJoin => (None, [], p)
    end in
  let plan := match join_id, result_out_ plan with Some _, None => setOperatorResult join_result_out plan | _, _ => plan end in
  let consumer := match join_id with Some i => Some i | None => head join_ids end in
  let '(select_id, plan) := add_selects select_operators consumer None plan in
  (join_id, join_ids, select_id, link_chain join_ids plan).

(** From [ExecutionPlan(0)] on; the result [None] is a null plan. *)
Definition assemble (r : SelectResolver) (sel : Selects) (joins : Joins) (join_result_out : option Z) (agg_op : option PlanOp)
    (agg_result_out : option Z) : option (option Plan) :=
  let cols := build_output_cols (bool_decide (is_Some agg_op)) (project_references_ r) in
  let plan := newExecutionPlan 0 in
  let '(agg_id, plan) :=
    match agg_op with
    | Some op => let (i, p) := addOperator (new_operator op) plan in (Some i, setOperatorResult agg_result_out p)
    | None => (None, plan)
    end in
  let '(join_id, join_ids, select_id, plan) := join_part joins join_result_out (select_operators sel) plan in
  plan ← (match select_id, result_out_ plan with
          | Some _, None =>
              _ ← DCHECK (length (select_result sel) =? 1)%nat;
              Some (setOperatorResult (select_result sel !! 0%nat) plan)
          | _, _ => Some plan
          end);
  match agg_id with
  | None => Some (Some (setResultColumns cols plan))
  | Some a =>
      match join_id, last join_ids with
      | None, None =>
          if negb (length (select_operators sel) =? 1)%nat then Some None
          else i ← select_id; Some (Some (setResultColumns cols (setOperatorResult agg_result_out (createLink i a plan))))
      | _, Some j => Some (Some (setResultColumns cols (setOperatorResult agg_result_out (createLink j a plan))))
      | Some j, None => Some (Some (setResultColumns cols (setOperatorResult agg_result_out (createLink j a plan))))
      end
  end.

Definition createPlan (iterate_trees : gmap string (option PredicateTree) -> list (string * option PredicateTree))
    (iterate_joins : gmap string JoinPredicate -> list (string * JoinPredicate)) (r : SelectResolver) : PM (option Plan) :=
  selects ← build_select (join_predicates_ r) (iterate_trees (select_predicates_ r)) (mkSelects false ∅ [] []);
  match selects with
  | None => mret None
  | Some sel =>
      '(joins, join_result_out) ← build_joins iterate_joins r sel;
      '(agg_op, agg_result_out) ← build_agg r join_result_out;
      defined (assemble r sel joins join_result_out agg_op agg_result_out)
  end.

End Build.

(** ** resolveSelect *)

(** What [resolveSelect] answers SQLite, and the plan it executes before it
    does.  [catalog] is [None] for a null pointer. *)
Definition resolveSelect (get_name : Z -> string) (get_num_rows : Z -> Z) iterate iterate_trees iterate_joins
    (catalog : option Cat.Catalog) (q : Sql.Sqlite3Select) : option (exn + Z * option Plan) :=
  match catalog with
  | None => Some (inr (0, None))
  | Some c =>
      '(r, res) ← ResolveSelectTree (Cat.GetTable c) get_name get_num_rows iterate q newSelectResolver;
      match res with
      | inl e => Some (inl e)
      | inr false => Some (inr (0, None))
      | inr true =>
          '(_, plan) ← createPlan (Cat.GetTable c) get_name iterate_trees iterate_joins r (mkResults ∅ 1);
          match plan with
          | inl e => Some (inl e)
          | inr None => Some (inr (0, None))
          | inr (Some p) => Some (inr (1, Some p))
          end
      end
  end.

End Planner.

Import Planner.

(** ** The operators of a plan and the results between them *)

Module PlannerProof.

Definition inputs (b : PlanOp) : list Z :=
  match b with
  | SelectOp _ i _ _ | SelectBuildHashOp _ i _ _ _ | HashAggregateOp i _ _ _ _ => [i]
  | HashJoinOp l r _ _ => [l; r]
  | MultiwayJoinOp xs _ _ | FilterJoinOp xs _ _ => xs
  end.
Definition output (b : PlanOp) : Z :=
  match b with
  | SelectOp _ _ o _ | SelectBuildHashOp _ _ o _ _ | HashJoinOp _ _ o _ | MultiwayJoinOp _ o _ | FilterJoinOp _ o _
  | HashAggregateOp _ o _ _ _ => o
  end.

(** A table was appended to the result while the plan was built. *)
Definition supplied (s : Results) (x : Z) : Prop := exists l, contents s !! x = Some l /\ l <> [].

Definition fresh_results (s : Results) : Prop := map_Forall (fun x _ => x < next_result s) (contents s).

Record grows (s s' : Results) : Prop := {
  g_fresh : fresh_results s';
  g_next : next_result s <= next_result s';
  g_supplied : forall x, supplied s x -> supplied s' x
}.

Lemma results_refl s : fresh_results s -> grows s s.
Proof. by constructor. Qed.

Lemma results_trans s1 s2 s3 : grows s1 s2 -> grows s2 s3 -> grows s1 s3.
Proof. intros [] []. constructor; auto; lia. Qed.

Lemma make_result_ok s : fresh_results s ->
  exists s', make_result s = Some (s', inr (next_result s)) /\ grows s s' /\ next_result s' = next_result s + 1.
Proof.
  intros Hf. eexists. split; [done |]. split; [| done]. constructor; cbn.
  - apply map_Forall_insert_2; [cbn; lia |]. intros x l Hx. specialize (Hf x l Hx). cbn in *. lia.
  - lia.
  - intros x (l & Hl & Hne). exists l. cbn. rewrite lookup_insert_ne; [done |].
    intros <-. specialize (Hf _ _ Hl). cbn in Hf. lia.
Qed.

Lemma append_ok s x t : fresh_results s -> x < next_result s ->
  exists s', append x t s = Some (s', inr tt) /\ grows s s' /\ next_result s' = next_result s /\ supplied s' x.
Proof.
  intros Hf Hx. eexists. split; [done |]. split_and!; [constructor; cbn | done |].
  - by apply map_Forall_insert_2.
  - lia.
  - intros y (l & Hl & Hne). unfold supplied. cbn. rewrite lookup_insert. case_decide as E; [subst; eauto | eauto].
  - unfold supplied. cbn. rewrite lookup_insert_eq. eauto.
Qed.

(** The selections made since address [n0]. *)
Record sel_ok (n0 : Z) (s : Results) (sel : Selects) : Prop := {
  so_window : Forall (fun b => n0 <= output b < next_result s) (select_operators sel);
  so_nodup : NoDup (output <$> select_operators sel);
  so_inputs : Forall (fun b => Forall (fun x => x < next_result s /\ (x ∉ (output <$> select_operators sel)) /\ supplied s x) (inputs b))
                (select_operators sel);
  so_results : Forall (fun x => n0 <= x < next_result s /\ (supplied s x \/ x ∈ (output <$> select_operators sel))) (select_result sel);
  so_map : map_Forall (fun _ x => x ∈ select_result sel) (select_result_map sel)
}.

Definition add_selection (name : string) (avail : bool) (x : Z) (op : option PlanOp) (acc : Selects) : Selects :=
  mkSelects avail (<[name := x]> (select_result_map acc)) (select_result acc ++ [x]) (select_operators acc ++ option_list op).

(** One table: its result is written by an operator or supplied with the table. *)
Lemma sel_ok_add n0 s s' acc name avail i o op :
  sel_ok n0 s acc -> grows s s' -> n0 <= next_result s ->
  i = next_result s -> o = next_result s + 1 -> next_result s' = next_result s + 2 ->
  match op with Some b => output b = o /\ inputs b = [i] /\ supplied s' i | None => supplied s' o end ->
  sel_ok n0 s' (add_selection name avail o op acc).
Proof.
  intros [Hw Hnd Hin Hr Hm] G Hn -> -> Hn' Hop.
  assert (forall x, x ∈ (output <$> select_operators acc) -> x < next_result s) as Hout.
  { intros x (b & -> & Hb)%list_elem_of_fmap. rewrite Forall_forall in Hw. by apply Hw. }
  assert (Forall (fun x => n0 <= x < next_result s' /\ (supplied s' x \/ x ∈ (output <$> (select_operators acc ++ option_list op))))
            (select_result acc ++ [next_result s + 1])) as Hr'.
  { apply Forall_app. split; [eapply Forall_impl; [exact Hr |] |].
    - intros x [Hx Hx']. split; [lia |]. rewrite fmap_app. destruct Hx' as [?%(g_supplied _ _ G) | ?]; [by left | right; set_solver].
    - constructor; [| constructor]. split; [lia |]. destruct op as [b|]; [right | by left].
      destruct Hop as [Ho _]. rewrite fmap_app. cbn. rewrite Ho. set_solver. }
  unfold add_selection. constructor; cbn [select_operators select_result select_result_map].
  - apply Forall_app. split; [eapply Forall_impl; [exact Hw |]; cbn; lia |]. destruct op as [b|]; [| done].
    constructor; [| done]. destruct Hop as [-> _]. lia.
  - rewrite fmap_app. apply NoDup_app. split_and!; [done | |].
    + intros x Hx%Hout. destruct op as [b|]; [| cbn; set_solver]. cbn. destruct Hop as [-> _].
      rewrite list_elem_of_singleton. lia.
    + destruct op as [b|]; [apply NoDup_singleton | constructor].
  - rewrite fmap_app. apply Forall_app. split.
    + eapply Forall_impl; [exact Hin |]. intros b Hb. eapply Forall_impl; [exact Hb |]. cbn. intros x (Hx & Hnot & Hs).
      split_and!; [lia | | by apply (g_supplied _ _ G)]. rewrite elem_of_app. intros [? | Ho]; [done |].
      destruct op as [b'|]; cbn in Ho; [| by apply elem_of_nil in Ho]. destruct Hop as [Ho' _]. rewrite Ho' in Ho.
      apply list_elem_of_singleton in Ho. lia.
    + destruct op as [b|]; [| done]. destruct Hop as (Ho & Hi & Hs). constructor; [| done]. rewrite Hi. constructor; [| done].
      split_and!; [lia | | done]. rewrite elem_of_app. cbn. rewrite Ho. intros [Hx%Hout | Hx%list_elem_of_singleton]; lia.
  - exact Hr'.
  - apply map_Forall_insert_2; [set_solver |]. eapply map_Forall_impl; [exact Hm |]. cbn. set_solver.
Qed.

Section Build.
Context (GetTable : string -> option Z) (get_name : Z -> string).

Lemma build_select_ok jm n0 entries : forall acc s,
  fresh_results s -> n0 <= next_result s -> sel_ok n0 s acc -> Forall (fun e => is_Some (GetTable e.1)) entries ->
  exists s' sel, build_select GetTable jm entries acc s = Some (s', inr (Some sel)) /\ grows s s' /\ sel_ok n0 s' sel /\
    dom (select_result_map sel) = dom (select_result_map acc) ∪ list_to_set entries.*1 /\
    length (select_result sel) = (length (select_result acc) + length entries)%nat.
Proof.
  induction entries as [|[name tree] entries IH]; intros acc s Hf Hn I HT.
  - exists s, acc. split_and!; [done | by apply results_refl | done | cbn; set_solver | cbn; lia].
  - apply Forall_cons_1 in HT as [[t Ht] HT]. cbn in Ht. cbn [build_select].
    destruct (make_result_ok s Hf) as (s1 & E1 & G1 & N1). erewrite bind_val by exact E1.
    destruct (make_result_ok s1 (g_fresh _ _ G1)) as (s2 & E2 & G2 & N2). erewrite bind_val by exact E2.
    rewrite Ht. cbv zeta. pose proof (results_trans _ _ _ G1 G2) as G12.
    set (joined := bool_decide (is_Some (jm !! name))). set (many := (1 <? size jm)%nat).
    destruct (append_ok s2 (next_result s) t (g_fresh _ _ G2)) as (si & Ei & Gi & Ni & Si); [lia |].
    destruct (append_ok s2 (next_result s1) t (g_fresh _ _ G2)) as (so & Eo & Go & No & So); [lia |].
    set (hash := SelectBuildHashOp t (next_result s) (next_result s1) tree (join_column jm name)).
    assert (exists op s3,
      (if joined && many then _ ← append (next_result s) t; mret (Some hash)
       else match tree with
            | None => _ ← append (next_result s1) t; mret None
            | Some tr => _ ← append (next_result s) t;
                if negb joined && negb many then mret (Some (SelectOp t (next_result s) (next_result s1) tr)) else mret (Some hash)
            end : PM (option PlanOp)) s2 = Some (s3, inr op) /\ grows s2 s3 /\ next_result s3 = next_result s + 2 /\
      match op with Some b => output b = next_result s1 /\ inputs b = [next_result s] /\ supplied s3 (next_result s)
                  | None => supplied s3 (next_result s1) end) as (op & s3 & E3 & G3 & N3 & Hop).
    { destruct (joined && many); [exists (Some hash), si | destruct tree as [tr|]; [| exists None, so]].
      - erewrite bind_val by exact Ei. split_and!; [done | done | lia | done | done | done].
      - destruct (negb joined && negb many); [exists (Some (SelectOp t (next_result s) (next_result s1) tr)), si | exists (Some hash), si];
          erewrite bind_val by exact Ei; (split_and!; [done | done | lia | done | done | done]).
      - erewrite bind_val by exact Eo. split_and!; [done | done | lia | done]. }
    erewrite bind_val by exact E3.
    assert (sel_ok n0 s3 (add_selection name (is_predicate_avail acc || bool_decide (is_Some op)) (next_result s1) op acc)) as I3.
    { eapply sel_ok_add; [exact I | by eapply results_trans | done | done | lia | lia |]. exact Hop. }
    destruct (IH _ s3 (g_fresh _ _ G3) ltac:(lia) I3 HT) as (s' & sel & E & G & I' & Hd & Hl).
    exists s', sel. split_and!; [exact E | | done | |].
    + eapply results_trans; [exact G12 |]. by eapply results_trans.
    + rewrite Hd. cbn. rewrite dom_insert_L. set_solver.
    + rewrite Hl. cbn. rewrite length_app. cbn. lia.
Qed.

(** The joins made since address [n1], given the results [outs] of other
    operators. *)
Record joins_built (n1 : Z) (s : Results) (outs : list Z) (ops : list PlanOp) : Prop := {
  jb_window : Forall (fun b => n1 <= output b < next_result s) ops;
  jb_sorted : StronglySorted Z.lt (output <$> ops);
  jb_inputs : Forall (fun b => Forall (fun x => x < output b /\ (supplied s x \/ x ∈ outs \/ x ∈ (output <$> ops))) (inputs b)) ops
}.

Lemma side_result_ok sel_preds n0 s sel c :
  fresh_results s -> sel_ok n0 s sel -> dom sel_preds ⊆ dom (select_result_map sel) -> cr_table c <> Agg.nullptr ->
  exists s' x, side_result get_name sel_preds (select_result_map sel) c s = Some (s', inr x) /\ grows s s' /\
    x < next_result s' /\ (supplied s' x \/ x ∈ (output <$> select_operators sel)).
Proof.
  intros Hf I Hd Hc. unfold side_result, name_of. rewrite (proj2 (Z.eqb_neq _ _) Hc). erewrite bind_defined by done.
  set (name := get_name (cr_table c)). destruct (sel_preds !! name) as [o|] eqn:E.
  - assert (name ∈ dom (select_result_map sel)) as [x Hx]%elem_of_dom by (apply Hd, elem_of_dom; eauto).
    exists s, x. rewrite Hx. pose proof (so_map _ _ _ I _ _ Hx) as Hin. cbn in Hin.
    pose proof (proj1 (Forall_forall _ _) (so_results _ _ _ I) _ Hin) as [Hw Hs].
    split_and!; [done | by apply results_refl | lia | done].
  - destruct (make_result_ok s Hf) as (s1 & E1 & G1 & N1). erewrite bind_val by exact E1.
    destruct (append_ok s1 (next_result s) (cr_table c) (g_fresh _ _ G1)) as (s2 & E2 & G2 & N2 & S2); [lia |].
    erewrite bind_val by exact E2. exists s2, (next_result s). split_and!; [done | by eapply results_trans | lia | by left].
Qed.

Lemma sel_ok_grows n0 s s' sel : grows s s' -> sel_ok n0 s sel -> sel_ok n0 s' sel.
Proof.
  intros G [Hw Hnd Hin Hr Hm]. pose proof (g_next _ _ G) as Hn. constructor; [| done | | | done].
  - eapply Forall_impl; [exact Hw |]. cbn. lia.
  - eapply Forall_impl; [exact Hin |]. intros b Hb. eapply Forall_impl; [exact Hb |]. cbn. intros x (? & ? & ?).
    split_and!; [lia | done | by apply (g_supplied _ _ G)].
  - eapply Forall_impl; [exact Hr |]. cbn. intros x [? Hx]. split; [lia |]. destruct Hx; [left; by apply (g_supplied _ _ G) | by right].
Qed.

Lemma build_linear_join_ok sel_preds n0 sel predicates : forall prev s,
  fresh_results s -> sel_ok n0 s sel -> dom sel_preds ⊆ dom (select_result_map sel) ->
  Forall (fun p => cr_table (left_col_ p) <> Agg.nullptr /\ cr_table (right_col_ p) <> Agg.nullptr) predicates ->
  (forall x, prev = Some x -> x < next_result s) ->
  exists s' ops out, build_linear_join get_name sel_preds (select_result_map sel) predicates prev s = Some (s', inr (ops, out)) /\
    grows s s' /\ joins_built (next_result s) s' (option_list prev ++ (output <$> select_operators sel)) ops /\
    length ops = length predicates /\ out = match last ops with Some b => Some (output b) | None => prev end.
Proof.
  induction predicates as [|p predicates IH]; intros prev s Hf I Hd HT Hp.
  - exists s, [], prev. split_and!; [done | by apply results_refl | by repeat constructor | done | done].
  - apply Forall_cons_1 in HT as [[Hl Hr] HT]. cbn [build_linear_join].
    destruct (side_result_ok sel_preds n0 s sel (right_col_ p) Hf I Hd Hr) as (s1 & x & E1 & G1 & Hx & Sx). erewrite bind_val by exact E1.
    pose proof (sel_ok_grows _ _ _ _ G1 I) as I1.
    assert (exists s2 y, (match prev with Some x => mret x
                          | None => side_result get_name sel_preds (select_result_map sel) (left_col_ p) end : PM Z) s1 = Some (s2, inr y) /\
      grows s1 s2 /\ y < next_result s2 /\ (supplied s2 y \/ y ∈ option_list prev ++ (output <$> select_operators sel)))
      as (s2 & y & E2 & G2 & Hy & Sy).
    { destruct prev as [z|].
      - exists s1, z. pose proof (Hp z eq_refl). pose proof (g_next _ _ G1).
        split_and!; [done | apply results_refl, G1 | lia | right; cbn; set_solver].
      - destruct (side_result_ok sel_preds n0 s1 sel (left_col_ p) (g_fresh _ _ G1) I1 Hd Hl) as (s2 & y & E2 & G2 & Hy & Sy).
        exists s2, y. split_and!; [done | done | done |]. destruct Sy; [by left | right; cbn; set_solver]. }
    erewrite bind_val by exact E2.
    destruct (make_result_ok s2 (g_fresh _ _ G2)) as (s3 & E3 & G3 & N3). erewrite bind_val by exact E3.
    pose proof (results_trans _ _ _ G1 (results_trans _ _ _ G2 G3)) as G13.
    destruct (IH (Some (next_result s2)) s3) as (s' & ops & out & E & G & [Jw Js Ji] & Hlen & Hout);
      [apply G3 | by eapply sel_ok_grows | done | done | intros z [= <-]; lia |].
    erewrite bind_val by exact E. set (b := HashJoinOp y x (next_result s2) p).
    pose proof (g_next _ _ G1). pose proof (g_next _ _ G2). pose proof (g_next _ _ G).
    exists s', (b :: ops), out. split_and!; [done | by eapply results_trans | | cbn; lia |].
    + constructor; cbn [fmap list_fmap].
      * constructor; [cbn; lia |]. eapply Forall_impl; [exact Jw |]. cbn. lia.
      * constructor; [done |]. apply Forall_fmap. eapply Forall_impl; [exact Jw |]. cbn. lia.
      * constructor.
        -- constructor; [split; [cbn; lia |] | constructor; [split; [cbn; lia |] | constructor]].
           ++ destruct Sy as [Sy | ?]; [left; by apply (g_supplied _ _ G), (g_supplied _ _ G3) | by right; left].
           ++ destruct Sx as [Sx | ?]; [left; by apply (g_supplied _ _ G), (g_supplied _ _ G3), (g_supplied _ _ G2) | right; left; set_solver].
        -- eapply Forall_impl; [exact Ji |]. intros b' Hb. eapply Forall_impl; [exact Hb |]. cbn. intros z [? Hz].
           split; [done |]. destruct Hz as [? | [Hz | ?]]; [by left | | right; right; set_solver].
           cbn in Hz. apply elem_of_cons in Hz as [-> | Hz]; [right; right; by left | right; left; apply elem_of_app; by right].
    + rewrite Hout. destruct ops as [|b' ops]; [done |]. rewrite last_cons_cons. by destruct (last_is_Some (b' :: ops)) as [_ [? ->]].
Qed.

End Build.
(** ** The plan *)

Definition has_bodies (p : Plan) (bs : list PlanOp) : Prop := operators_ p = imap (fun i b => Some (mkOperator i 0 b)) bs.

Record shape (p : Plan) (bs : list PlanOp) : Prop := { sh_ok : plan_ok p; sh_bodies : has_bodies p bs }.

Lemma shape_length p bs : shape p bs -> length (operators_ p) = length bs.
Proof. intros [_ H]. rewrite H. apply length_imap. Qed.

(** [p'] has all links of [p]. *)
Definition links_kept (p p' : Plan) : Prop := forall i, getDependents i p ⊆ getDependents i p'.

#[export] Instance links_kept_preorder : PreOrder links_kept.
Proof. split; [by intros p i | intros p1 p2 p3 H1 H2 i; etrans; [apply H1 | apply H2]]. Qed.

Lemma add_operator_shape p bs b : shape p bs ->
  exists p', addOperator (new_operator b) p = (length bs, p') /\ shape p' (bs ++ [b]) /\ links_kept p p' /\ result_out_ p' = result_out_ p.
Proof.
  intros S. pose proof (shape_length _ _ S) as Hl. destruct S as [Hok Hb].
  pose proof (plan_ok_add (new_operator b) p Hok) as Hok'. unfold addOperator in *. cbn in Hok'. rewrite Hl in *.
  eexists. split; [done |]. split_and!; [split; [exact Hok' |] | by intros i | done].
  unfold has_bodies. cbn. rewrite Hb, imap_app. cbn. by rewrite Nat.add_0_r.
Qed.

Lemma create_link_shape p bs i j : shape p bs -> (i < length bs)%nat -> (j < length bs)%nat ->
  shape (createLink i j p) bs /\ links_kept p (createLink i j p) /\ j ∈ getDependents i (createLink i j p).
Proof.
  intros S Hi Hj. pose proof (shape_length _ _ S) as Hl. destruct S as [Hok Hb]. split_and!.
  - split; [apply plan_ok_link; [done | lia | lia] | done].
  - intros k x Hx. apply dependents_link. by left.
  - apply dependents_link. by right.
Qed.

Lemma add_operators_shape ops : forall p bs, shape p bs ->
  exists p', add_operators ops p = (seq (length bs) (length ops), p') /\ shape p' (bs ++ ops) /\ links_kept p p' /\
    result_out_ p' = result_out_ p.
Proof.
  induction ops as [|b ops IH]; intros p bs S.
  - exists p. rewrite app_nil_r. by split_and!.
  - destruct (add_operator_shape p bs b S) as (p1 & E1 & S1 & L1 & R1).
    destruct (IH p1 (bs ++ [b]) S1) as (p2 & E2 & S2 & L2 & R2). cbn [add_operators]. rewrite E1, E2. exists p2.
    rewrite length_app in E2 |- *. cbn [length]. rewrite <- app_assoc in S2. rewrite Nat.add_1_r.
    split_and!; [done | done | | congruence]. by etrans.
Qed.

Lemma add_selects_shape c ops : forall sid p bs, shape p bs -> (c < length bs)%nat ->
  exists sid' p', add_selects ops (Some c) sid p = (sid', p') /\ shape p' (bs ++ ops) /\ links_kept p p' /\
    (forall i, (length bs <= i < length bs + length ops)%nat -> c ∈ getDependents i p') /\ result_out_ p' = result_out_ p.
Proof.
  induction ops as [|b ops IH]; intros sid p bs S Hc.
  - exists sid, p. rewrite app_nil_r. split_and!; [done | done | done | cbn; lia | done].
  - destruct (add_operator_shape p bs b S) as (p1 & E1 & S1 & L1 & R1).
    destruct (create_link_shape p1 (bs ++ [b]) (length bs) c S1) as (S1' & L1' & D1); [rewrite length_app; cbn; lia | rewrite length_app; cbn; lia |].
    destruct (IH (Some (length bs)) (createLink (length bs) c p1) (bs ++ [b]) S1') as (sid' & p2 & E2 & S2 & L2 & D2 & R2); [rewrite length_app; cbn; lia |].
    cbn [add_selects]. rewrite E1, E2. exists sid', p2. rewrite <- app_assoc in S2. rewrite length_app in D2. cbn in D2.
    split_and!; [done | done | | | cbn in R2; congruence].
    + etrans; [exact L1 |]. by etrans.
    + intros i Hi. cbn in Hi. destruct (decide (i = length bs)) as [->|]; [by apply L2 | apply D2; lia].
Qed.

Lemma link_chain_shape n : forall k p bs, shape p bs -> (k + n <= length bs)%nat ->
  shape (link_chain (seq k n) p) bs /\ links_kept p (link_chain (seq k n) p) /\
  (forall i, (k <= i)%nat -> (S i < k + n)%nat -> S i ∈ getDependents i (link_chain (seq k n) p)) /\
  result_out_ (link_chain (seq k n) p) = result_out_ p.
Proof.
  induction n as [|[|n] IH]; intros k p bs Hs Hk; [split_and!; [done | done | lia | done] | split_and!; [done | done | cbn; lia | done] |].
  change (link_chain (seq k (S (S n))) p) with (link_chain (seq (S k) (S n)) (createLink k (S k) p)).
  destruct (create_link_shape p bs k (S k) Hs) as (S1 & L1 & D1); [lia | lia |].
  destruct (IH (S k) _ bs S1) as (S2 & L2 & D2 & R2); [lia |]. split_and!; [done | | | done].
  - by etrans.
  - intros i Hi Hi'. destruct (decide (i = k)) as [->|]; [by apply L2 | apply D2; lia].
Qed.

Definition join_ops (j : Joins) : list PlanOp := match j with NoJoin => [] | StarJoin op => [op] | LinearJoin ops => ops end.

(** Selections before the first join, joins in their order, the aggregate after
    the last join. *)
Record wired (na nj ns : nat) (p : Plan) : Prop := {
  w_select : forall i, (na + nj <= i < na + nj + ns)%nat -> na ∈ getDependents i p;
  w_join : forall i, (na <= i)%nat -> (S i < na + nj)%nat -> S i ∈ getDependents i p;
  w_agg : (0 < na)%nat -> 0%nat ∈ getDependents (na + nj - 1) p
}.

Lemma set_columns_shape p bs cs : shape p bs -> shape (setResultColumns cs p) bs.
Proof. by intros [H1 H2]. Qed.
Lemma set_result_shape p bs x : shape p bs -> shape (setOperatorResult x p) bs.
Proof. by intros [H1 H2]. Qed.

Lemma join_part_ok joins x sels p bs (nj := length (join_ops joins)) :
  shape p bs -> join_ops joins <> [] -> (result_out_ p = None -> exists op, joins = StarJoin op) ->
  exists jid jids sid p', join_part joins x sels p = (jid, jids, sid, p') /\ shape p' (bs ++ join_ops joins ++ sels) /\ links_kept p p' /\
    (forall i, (length bs + nj <= i < length bs + nj + length sels)%nat -> length bs ∈ getDependents i p') /\
    (forall i, (length bs <= i)%nat -> (S i < length bs + nj)%nat -> S i ∈ getDependents i p') /\
    result_out_ p' = match result_out_ p with Some y => Some y | None => x end /\
    ((jid = Some (length bs + nj - 1)%nat /\ jids = []) \/ (jid = None /\ last jids = Some (length bs + nj - 1)%nat)).
Proof.
  intros S Hne Hstar. unfold join_part. destruct joins as [|op|ops]; [done | |].
  - destruct (add_operator_shape p bs op S) as (p1 & -> & S1 & L1 & R1).
    set (p2 := match result_out_ p1 with None => setOperatorResult x p1 | Some _ => p1 end).
    assert (shape p2 (bs ++ [op]) /\ links_kept p1 p2 /\ result_out_ p2 = match result_out_ p with Some y => Some y | None => x end) as (S2 & L2 & R2).
    { unfold p2. rewrite <- R1. destruct (result_out_ p1) eqn:E; [by rewrite E |]. split_and!; [by apply set_result_shape | by intros i | done]. }
    destruct (add_selects_shape (length bs) sels None p2 (bs ++ [op]) S2) as (sid & p3 & -> & S3 & L3 & D3 & R3); [rewrite length_app; cbn; lia |].
    rewrite length_app in D3. cbn [length] in D3. exists (Some (length bs)), [], sid, p3. cbn [join_ops link_chain].
    rewrite <- app_assoc in S3. split_and!; [done | done | | done | cbn; lia | congruence | left; split; [f_equal; cbn; lia | done]].
    etrans; [exact L1 |]. by etrans.
  - destruct (add_operators_shape ops p bs S) as (p1 & -> & S1 & L1 & R1).
    assert (result_out_ p <> None) as Hr by (intros Hr; by destruct (Hstar Hr)).
    destruct ops as [|op ops]; [done |]. cbn [seq length head].
    destruct (add_selects_shape (length bs) sels None p1 _ S1) as (sid & p2 & -> & S2 & L2 & D2 & R2); [rewrite length_app; cbn; lia |].
    change (length bs :: seq (Datatypes.S (length bs)) (length ops)) with (seq (length bs) (length (op :: ops))).
    destruct (link_chain_shape (length (op :: ops)) (length bs) p2 _ S2) as (S3 & L3 & D3 & R3); [rewrite !length_app; cbn; lia |].
    eexists None, _, sid, _. split; [done |]. rewrite <- app_assoc in S3. rewrite length_app in D2. split_and!.
    + exact S3.
    + etrans; [exact L1 |]. by etrans.
    + intros i Hi. apply L3, D2. cbn in *. lia.
    + exact D3.
    + rewrite R3, R2, R1. by destruct (result_out_ p).
    + right. split; [done |]. rewrite last_lookup, length_seq. apply lookup_seq. cbn. lia.
Qed.

Lemma assemble_ok r sel joins x y agg_op (aggs := option_list agg_op) (js := join_ops joins) :
  js <> [] -> (agg_op = None -> exists op, joins = StarJoin op) ->
  exists plan, assemble r sel joins (Some x) agg_op (Some y) = Some (Some plan) /\
    shape plan (aggs ++ js ++ select_operators sel) /\
    wired (length aggs) (length js) (length (select_operators sel)) plan /\
    result_out_ plan = Some (match agg_op with Some _ => y | None => x end).
Proof.
  intros Hne Hstar. unfold assemble.
  assert (shape (newExecutionPlan 0) []) as S0 by (split; [apply plan_ok_new | done]).
  destruct agg_op as [b|].
  - destruct (add_operator_shape _ [] b S0) as (p1 & -> & S1 & L1 & _).
    destruct (join_part_ok joins (Some x) (select_operators sel) (setOperatorResult (Some y) p1) [b]) as
      (jid & jids & sid & p2 & -> & S2 & L2 & Ds & Dj & R2 & Hid); [by apply set_result_shape | done | done |].
    cbn [result_out_ setOperatorResult] in R2. rewrite R2.
    assert ((match sid with Some _ | None => Some p2 end) = Some p2) as -> by (by destruct sid). cbn [mbind option_bind].
    fold js in Ds, Dj, Hid, S2. cbn [length] in *.
    destruct (create_link_shape p2 _ (1 + length js - 1) 0 S2) as (S3 & L3 & D3); [rewrite !length_app; cbn; lia | rewrite !length_app; cbn; lia |].
    assert (exists plan, (match jid, last jids with
      | None, None => if negb (length (select_operators sel) =? 1)%nat then Some None
          else i ← sid; Some (Some (setResultColumns (build_output_cols true (project_references_ r)) (setOperatorResult (Some y) (createLink i 0 p2))))
      | _, Some j => Some (Some (setResultColumns (build_output_cols true (project_references_ r)) (setOperatorResult (Some y) (createLink j 0 p2))))
      | Some j, None => Some (Some (setResultColumns (build_output_cols true (project_references_ r)) (setOperatorResult (Some y) (createLink j 0 p2))))
      end) = Some (Some plan) /\ plan = setResultColumns (build_output_cols true (project_references_ r)) (setOperatorResult (Some y) (createLink (1 + length js - 1) 0 p2)))
      as (plan & Eplan & ->).
    { destruct Hid as [[-> ->] | [-> ->]]; by eexists. }
    eexists. split; [exact Eplan |]. split_and!; [by apply set_columns_shape, set_result_shape | | done].
    constructor; [intros i Hi; apply L3, Ds; cbn in Hi; lia | intros i Hi Hi'; apply L3, Dj; [exact Hi | exact Hi'] | intros _; exact D3].
  - destruct (Hstar eq_refl) as [op ->].
    destruct (join_part_ok (StarJoin op) (Some x) (select_operators sel) (newExecutionPlan 0) []) as
      (jid & jids & sid & p2 & -> & S2 & L2 & Ds & Dj & R2 & Hid); [done | done | by eexists |].
    cbn [result_out_ newExecutionPlan] in R2. rewrite R2.
    assert ((match sid with Some _ | None => Some p2 end) = Some p2) as -> by (by destruct sid). cbn [mbind option_bind].
    eexists. split; [done |]. split_and!; [by apply set_columns_shape | | done].
    constructor; [exact Ds | exact Dj | cbn; lia].
Qed.

Definition linked (p : Plan) (a b : nat) : Prop := b ∈ getDependents a p.

Section Wired.
Context (na nj ns : nat) (p : Plan) (W : wired na nj ns p).

Lemma join_chain j k : (j <= k < nj)%nat -> rtc (linked p) (na + j)%nat (na + k)%nat.
Proof using W.
  intros [Hjk Hk]. induction Hjk as [|k Hjk IH]; [done |].
  eapply rtc_r; [apply IH; lia |]. rewrite Nat.add_succ_r. apply (w_join _ _ _ _ W); lia.
Qed.

Lemma select_before_join i k : (i < ns)%nat -> (k < nj)%nat -> tc (linked p) (na + nj + i)%nat (na + k)%nat.
Proof using W.
  intros Hi Hk. eapply tc_rtc_r; [apply tc_once, (w_select _ _ _ _ W); lia |].
  rewrite <- (Nat.add_0_r na) at 1. apply join_chain. lia.
Qed.

Lemma join_before_join j k : (j < k < nj)%nat -> tc (linked p) (na + j)%nat (na + k)%nat.
Proof using W.
  intros [Hjk Hk]. eapply tc_rtc_l; [apply (join_chain j (k - 1)); lia |]. apply tc_once.
  replace (na + k)%nat with (S (na + (k - 1))) by lia. apply (w_join _ _ _ _ W); lia.
Qed.

Lemma join_before_agg j : (0 < na)%nat -> (j < nj)%nat -> tc (linked p) (na + j)%nat 0%nat.
Proof using W.
  intros Hna Hj. eapply tc_rtc_l; [apply (join_chain j (nj - 1)); lia |]. apply tc_once.
  replace (na + (nj - 1))%nat with (na + nj - 1)%nat by lia. by apply (w_agg _ _ _ _ W).
Qed.

Lemma select_before_agg i : (0 < na)%nat -> (0 < nj)%nat -> (i < ns)%nat -> tc (linked p) (na + nj + i)%nat 0%nat.
Proof using W.
  intros Hna Hj Hi. eapply tc_transitive; [by apply (select_before_join i 0) |]. by apply join_before_agg.
Qed.

End Wired.

(** The operators of a plan: the selections, the joins, at most one aggregate. *)
Record layered (s : Results) (sels js aggs : list PlanOp) (n1 n2 : Z) : Prop := {
  la_agg_one : (length aggs <= 1)%nat;
  la_join_some : js <> [];
  la_windows : n1 <= n2;
  la_sel : Forall (fun b => output b < n1) sels;
  la_sel_nodup : NoDup (output <$> sels);
  la_sel_inputs : Forall (fun b => Forall (fun x => x < n1 /\ (x ∉ (output <$> sels)) /\ supplied s x) (inputs b)) sels;
  la_join : Forall (fun b => n1 <= output b < n2) js;
  la_join_sorted : StronglySorted Z.lt (output <$> js);
  la_join_inputs : Forall (fun b => Forall (fun x => x < output b /\ (supplied s x \/ x ∈ (output <$> sels) ++ (output <$> js))) (inputs b)) js;
  la_agg : Forall (fun b => n2 <= output b /\ Forall (fun x => x < n2 /\ (supplied s x \/ x ∈ (output <$> sels) ++ (output <$> js))) (inputs b)) aggs
}.

(** Which operator a position of the plan holds. *)
Lemma layer_lookup (aggs js sels : list PlanOp) i b : (aggs ++ js ++ sels) !! i = Some b ->
  (aggs !! i = Some b) \/ (exists j, i = (length aggs + j)%nat /\ js !! j = Some b) \/
  (exists j, i = (length aggs + length js + j)%nat /\ sels !! j = Some b).
Proof.
  intros [? | [Hi [Hj | [Hj Hk]]%lookup_app_Some]]%lookup_app_Some; [by left | right; left | right; right]; eexists; (split; [| eassumption]); lia.
Qed.

Section Layered.
Context (s : Results) (sels js aggs : list PlanOp) (n1 n2 : Z) (L : layered s sels js aggs n1 n2).

Lemma sel_output i b : sels !! i = Some b -> output b < n1.
Proof using L. intros H. exact (proj1 (Forall_lookup _ _) (la_sel _ _ _ _ _ _ L) _ _ H). Qed.
Lemma join_output i b : js !! i = Some b -> n1 <= output b < n2.
Proof using L. intros H. exact (proj1 (Forall_lookup _ _) (la_join _ _ _ _ _ _ L) _ _ H). Qed.
Lemma agg_output i b : aggs !! i = Some b -> n2 <= output b.
Proof using L. intros H. exact (proj1 (proj1 (Forall_lookup _ _) (la_agg _ _ _ _ _ _ L) _ _ H)). Qed.
Lemma agg_position i b : aggs !! i = Some b -> i = 0%nat /\ length aggs = 1%nat.
Proof using L. intros H%lookup_lt_Some. pose proof (la_agg_one _ _ _ _ _ _ L). lia. Qed.

Lemma join_sorted j k bj bk : js !! j = Some bj -> js !! k = Some bk -> output bj < output bk -> (j < k)%nat.
Proof using L.
  intros Hj Hk Hlt. destruct (decide (j < k)%nat) as [|Hge]; [done | exfalso].
  destruct (decide (j = k)) as [->|Hne]; [simplify_eq; lia |].
  assert (output bk < output bj); [| lia].
  eapply (StronglySorted_app_1_elem_of Z.lt (take j (output <$> js)) (drop j (output <$> js))).
  - rewrite take_drop. apply (la_join_sorted _ _ _ _ _ _ L).
  - apply list_elem_of_lookup. exists k. rewrite lookup_take_lt by lia. by rewrite list_lookup_fmap, Hk.
  - apply list_elem_of_lookup. exists 0%nat. rewrite lookup_drop, Nat.add_0_r. by rewrite list_lookup_fmap, Hj.
Qed.

(** An operator that reads the result of another one comes after it. *)
Lemma layered_ordered p (W : wired (length aggs) (length js) (length sels) p) a b oa ob :
  (aggs ++ js ++ sels) !! a = Some oa -> (aggs ++ js ++ sels) !! b = Some ob -> output oa ∈ inputs ob -> tc (linked p) a b.
Proof using L.
  intros Ha Hb Hin. apply layer_lookup in Ha, Hb.
  destruct Hb as [Hb | [(k & -> & Hb) | (k & -> & Hb)]].
  - destruct (agg_position _ _ Hb) as [-> Hone].
    pose proof (proj2 (proj1 (Forall_lookup _ _) (la_agg _ _ _ _ _ _ L) _ _ Hb)) as Hx. cbn in Hx.
    pose proof (proj1 (proj1 (Forall_forall _ _) Hx _ Hin)) as Hlt.
    destruct Ha as [Ha | [(j & -> & Ha) | (j & -> & Ha)]].
    + apply agg_output in Ha. lia.
    + eapply join_before_agg; [exact W | lia | by eapply lookup_lt_Some].
    + eapply select_before_agg; [exact W | lia | | by eapply lookup_lt_Some].
      pose proof (la_join_some _ _ _ _ _ _ L). destruct js; [done | cbn; lia].
  - pose proof (proj1 (Forall_lookup _ _) (la_join_inputs _ _ _ _ _ _ L) _ _ Hb) as Hx. cbn in Hx.
    pose proof (proj1 (proj1 (Forall_forall _ _) Hx _ Hin)) as Hlt. pose proof (join_output _ _ Hb).
    destruct Ha as [Ha | [(j & -> & Ha) | (j & -> & Ha)]].
    + apply agg_output in Ha. lia.
    + eapply join_before_join; [exact W |]. split; [by eapply join_sorted | by eapply lookup_lt_Some].
    + eapply select_before_join; [exact W | by eapply lookup_lt_Some | by eapply lookup_lt_Some].
  - pose proof (proj1 (Forall_lookup _ _) (la_sel_inputs _ _ _ _ _ _ L) _ _ Hb) as Hx. cbn in Hx.
    destruct (proj1 (Forall_forall _ _) Hx _ Hin) as (Hlt & Hnot & _).
    destruct Ha as [Ha | [(j & -> & Ha) | (j & -> & Ha)]].
    + apply agg_output in Ha. pose proof (la_windows _ _ _ _ _ _ L). lia.
    + apply join_output in Ha. lia.
    + exfalso. apply Hnot, list_elem_of_fmap. exists oa. split; [done |]. by eapply list_elem_of_lookup_2.
Qed.

End Layered.

(** A result is written by one operator. *)
Lemma layered_nodup s sels js aggs n1 n2 : layered s sels js aggs n1 n2 -> NoDup (output <$> aggs ++ js ++ sels).
Proof.
  intros L. rewrite !fmap_app. apply NoDup_app. split_and!; [| | apply NoDup_app; split_and!].
  - destruct aggs as [|b [|b' aggs]]; [constructor | apply NoDup_singleton |]. pose proof (la_agg_one _ _ _ _ _ _ L) as H. cbn in H. lia.
  - intros x (b & -> & [i Hi]%list_elem_of_lookup)%list_elem_of_fmap.
    pose proof (agg_output _ _ _ _ _ _ L _ _ Hi) as Hb. pose proof (la_windows _ _ _ _ _ _ L).
    rewrite elem_of_app. intros [(b' & E & [j Hj]%list_elem_of_lookup)%list_elem_of_fmap | (b' & E & [j Hj]%list_elem_of_lookup)%list_elem_of_fmap].
    + pose proof (join_output _ _ _ _ _ _ L _ _ Hj). lia.
    + pose proof (sel_output _ _ _ _ _ _ L _ _ Hj). lia.
  - pose proof (la_join_sorted _ _ _ _ _ _ L) as Hs. induction Hs as [|x l _ IH Hx]; [constructor |]. constructor; [| done].
    intros Hin. rewrite Forall_forall in Hx. specialize (Hx _ Hin). lia.
  - intros x (b & -> & [i Hi]%list_elem_of_lookup)%list_elem_of_fmap (b' & E & [j Hj]%list_elem_of_lookup)%list_elem_of_fmap.
    pose proof (join_output _ _ _ _ _ _ L _ _ Hi). pose proof (sel_output _ _ _ _ _ _ L _ _ Hj). lia.
  - apply (la_sel_nodup _ _ _ _ _ _ L).
Qed.

(** Every result that is read is written by an operator or supplied. *)
Lemma layered_filled s sels js aggs n1 n2 b x : layered s sels js aggs n1 n2 -> b ∈ aggs ++ js ++ sels -> x ∈ inputs b ->
  supplied s x \/ x ∈ (output <$> aggs ++ js ++ sels).
Proof.
  intros L Hb Hx. rewrite !fmap_app, !elem_of_app.
  apply elem_of_app in Hb as [Hb | [Hb | Hb]%elem_of_app].
  - pose proof (proj2 (proj1 (Forall_forall _ _) (la_agg _ _ _ _ _ _ L) _ Hb)) as H. destruct (proj1 (Forall_forall _ _) H _ Hx) as [_ Hs].
    rewrite elem_of_app in Hs. tauto.
  - pose proof (proj1 (Forall_forall _ _) (la_join_inputs _ _ _ _ _ _ L) _ Hb) as H. destruct (proj1 (Forall_forall _ _) H _ Hx) as [_ Hs].
    rewrite elem_of_app in Hs. tauto.
  - pose proof (proj1 (Forall_forall _ _) (la_sel_inputs _ _ _ _ _ _ L) _ Hb) as H. destruct (proj1 (Forall_forall _ _) H _ Hx) as (_ & _ & Hs).
    by left.
Qed.

(** ** Statements that have a plan *)

Record plannable (GetTable : string -> option Z) (r : SelectResolver) : Prop := {
  pn_tables : map_Forall (fun name _ => is_Some (GetTable name)) (select_predicates_ r);
  pn_joins : join_predicates_ r <> ∅;
  pn_aggs : (length (agg_references_ r) <= 1)%nat;
  pn_type : join_type_ r = Some STAR \/
    (join_type_ r = Some LINEAR /\ length (agg_references_ r) = 1%nat /\ predicates_ r <> [] /\
     Forall (fun p => cr_table (left_col_ p) <> Agg.nullptr /\ cr_table (right_col_ p) <> Agg.nullptr) (predicates_ r))
}.

Section Create.
Context (GetTable : string -> option Z) (get_name : Z -> string).
Context (iterate_joins : gmap string JoinPredicate -> list (string * JoinPredicate)).
Context (r : SelectResolver) (Hp : plannable GetTable r).
Context (Hjoins : iterate_joins (join_predicates_ r) ≡ₚ map_to_list (join_predicates_ r)).

Lemma build_joins_ok s n0 sel :
  fresh_results s -> sel_ok n0 s sel -> dom (select_predicates_ r) ⊆ dom (select_result_map sel) ->
  exists s' joins x, build_joins get_name iterate_joins r sel s = Some (s', inr (joins, Some x)) /\ grows s s' /\
    joins_built (next_result s) s' (output <$> select_operators sel) (join_ops joins) /\ join_ops joins <> [] /\
    x ∈ (output <$> join_ops joins) /\ (length (agg_references_ r) <> 1%nat -> exists op, joins = StarJoin op).
Proof using Hp Hjoins.
  intros Hf I Hd. unfold build_joins. destruct Hp as [_ Hj _ Ht].
  rewrite (proj2 (Nat.eqb_neq _ _)) by (by rewrite map_size_empty_iff).
  destruct Ht as [-> | (-> & Ha & Hne & Hnull)].
  - unfold build_join. set (ps := snd <$> iterate_joins (join_predicates_ r)).
    assert (exists g, Graph.newJoinGraph [ps] = Some g) as [g Hg].
    { assert (ps <> []) as Hps.
      { unfold ps. intros E%fmap_nil_inv. rewrite E in Hjoins. symmetry in Hjoins. apply Permutation_nil_r in Hjoins.
        by apply Hj, map_to_list_empty_iff. }
      destruct ps as [|p ps']; [done |]. by eexists. }
    destruct (make_result_ok s Hf) as (s1 & E1 & G1 & N1).
    set (op := if (1 <? Graph.num_predicates_ g) && is_predicate_avail sel
               then FilterJoinOp (select_result sel) (next_result s) g else MultiwayJoinOp (select_result sel) (next_result s) g).
    exists s1, (StarJoin op), (next_result s).
    assert (output op = next_result s /\ inputs op = select_result sel) as [Ho Hi] by (unfold op; by destruct (_ && _)).
    split_and!; [| done | | done | cbn; rewrite Ho; set_solver | by eexists].
    + erewrite bind_val with (s1 := s1) (a := (op, next_result s)); [done |].
      erewrite bind_defined by exact Hg. erewrite bind_val by exact E1. unfold op. by destruct (_ && _).
    + constructor; cbn [join_ops].
      * constructor; [rewrite Ho; lia | constructor].
      * cbn. repeat constructor.
      * constructor; [| constructor]. rewrite Hi, Ho. eapply Forall_impl; [apply (so_results _ _ _ I) |]. cbn. intros x [? Hx].
        split; [lia |]. destruct Hx; [left; by apply (g_supplied _ _ G1) | right; by left].
  - destruct (build_linear_join_ok get_name (select_predicates_ r) n0 sel (predicates_ r) None s Hf I Hd Hnull) as
      (s' & ops & out & E & G & J & Hlen & Hout); [done |].
    assert (ops <> []) as Hops by (intros ->; by destruct (predicates_ r)).
    destruct (last ops) as [b|] eqn:El; [| by apply last_None in El]. rewrite Hout in E.
    exists s', (LinearJoin ops), (output b). split_and!; [by erewrite bind_val by exact E | done | exact J | done | | done].
    apply list_elem_of_fmap. exists b. split; [done |]. apply last_Some_elem_of in El. done.
Qed.

Context (iterate_trees : gmap string (option PredicateTree) -> list (string * option PredicateTree)).
Context (Htrees : iterate_trees (select_predicates_ r) ≡ₚ map_to_list (select_predicates_ r)).

Lemma build_agg_ok s x : fresh_results s ->
  exists s' agg_op y, build_agg r (Some x) s = Some (s', inr (agg_op, Some y)) /\ grows s s' /\
    (agg_op = None <-> length (agg_references_ r) <> 1%nat) /\
    match agg_op with Some b => output b = next_result s /\ inputs b = [x] /\ y = output b | None => y = x end.
Proof using Hp.
  intros Hf. unfold build_agg. destruct (make_result_ok s Hf) as (s1 & E1 & G1 & N1). erewrite bind_val by exact E1.
  pose proof (pn_aggs _ _ Hp) as Ha. destruct (agg_references_ r) as [|a [|a' as_]] eqn:E; cbn in Ha; [| | lia].
  - by exists s1, None, x.
  - eexists s1, (Some _), _. by split_and!.
Qed.

Lemma create_plan_built :
  exists s plan sels js aggs n1 n2,
    createPlan GetTable get_name iterate_trees iterate_joins r (mkResults ∅ 1) = Some (s, inr (Some plan)) /\
    shape plan (aggs ++ js ++ sels) /\ wired (length aggs) (length js) (length sels) plan /\ layered s sels js aggs n1 n2 /\
    exists y, result_out_ plan = Some y /\ y ∈ (output <$> aggs ++ js ++ sels).
Proof using Hp Hjoins Htrees.
  set (s0 := mkResults ∅ 1). assert (fresh_results s0) as F0 by apply map_Forall_empty.
  assert (sel_ok 1 s0 (mkSelects false ∅ [] [])) as I0 by (constructor; try constructor; apply map_Forall_empty).
  destruct (build_select_ok GetTable get_name (join_predicates_ r) 1 (iterate_trees (select_predicates_ r)) (mkSelects false ∅ [] []) s0)
    as (s1 & sel & E1 & G1 & I1 & D1 & _); [done | cbn; lia | done | |].
  { rewrite Htrees. apply Forall_forall. intros [name o] Hin%elem_of_map_to_list. by apply (pn_tables _ _ Hp _ _ Hin). }
  assert (dom (select_predicates_ r) ⊆ dom (select_result_map sel)) as Hd.
  { rewrite D1. intros name [o Ho]%elem_of_dom. apply elem_of_union_r, elem_of_list_to_set, list_elem_of_fmap.
    exists (name, o). split; [done |]. rewrite Htrees. by apply elem_of_map_to_list. }
  destruct (build_joins_ok s1 1 sel (g_fresh _ _ G1) I1 Hd) as (s2 & joins & x & E2 & G2 & [Jw Js Ji] & Hne & Hx & Hstar).
  destruct (build_agg_ok s2 x (g_fresh _ _ G2)) as (s3 & agg_op & y & E3 & G3 & Hnone & Hagg).
  destruct (assemble_ok r sel joins x y agg_op Hne) as (plan & E4 & S4 & W4 & R4); [intros Hn; by apply Hstar, Hnone |].
  pose proof (sel_ok_grows _ _ _ _ (results_trans _ _ _ G2 G3) I1) as I3.
  exists s3, plan, (select_operators sel), (join_ops joins), (option_list agg_op), (next_result s1), (next_result s2).
  split_and!; [| done | done | |].
  - unfold createPlan. erewrite bind_val by exact E1. cbv beta iota. erewrite bind_val by exact E2. cbv beta iota.
    erewrite bind_val by exact E3. cbv beta iota. unfold defined. rewrite E4. done.
  - constructor.
    + destruct agg_op; cbn; lia.
    + done.
    + apply (g_next _ _ G2).
    + eapply Forall_impl; [apply (so_window _ _ _ I1) |]. cbn. lia.
    + apply (so_nodup _ _ _ I1).
    + eapply Forall_impl; [apply (so_inputs _ _ _ I1) |]. intros b Hb. eapply Forall_impl; [exact Hb |]. cbn. intros z (? & ? & ?).
      split_and!; [done | done | by apply (g_supplied _ _ G3), (g_supplied _ _ G2)].
    + exact Jw.
    + exact Js.
    + eapply Forall_impl; [exact Ji |]. intros b Hb. eapply Forall_impl; [exact Hb |]. cbn. intros z [? Hz]. split; [done |].
      rewrite elem_of_app. destruct Hz as [? | ?]; [left; by apply (g_supplied _ _ G3) | by right].
    + destruct agg_op as [b|]; [| constructor]. destruct Hagg as (Ho & Hi & _). constructor; [| constructor].
      split; [lia |]. rewrite Hi. constructor; [| constructor]. split; [| right; apply elem_of_app; by right].
      apply list_elem_of_fmap in Hx as (b' & -> & Hb'). rewrite Forall_forall in Jw. by apply Jw.
  - eexists. split; [exact R4 |]. rewrite !fmap_app, !elem_of_app. destruct agg_op as [b|]; [left | right; left; exact Hx].
    destruct Hagg as (_ & _ & ->). cbn. set_solver.
Qed.

End Create.

End PlannerProof.

Import PlannerProof.

(** Operator [b] of the plan reads a result that operator [a] writes. *)
Definition reads (p : Plan) (a b : nat) : Prop :=
  exists oa ob, operators_ p !! a = Some (Some oa) /\ operators_ p !! b = Some (Some ob) /\ output (op_body oa) ∈ inputs (op_body ob).

Lemma shape_lookup p bs i o : shape p bs -> operators_ p !! i = Some (Some o) -> bs !! i = Some (op_body o).
Proof.
  intros [_ H] E. rewrite H, list_lookup_imap in E. destruct (bs !! i) as [b|]; [| done]. cbn in E. by simplify_eq.
Qed.

(** C16: A statement that the planner supports - its tables are in the catalog,
    it has a join, at most one aggregate, and exactly one where the joins form a
    chain - gets a plan that can be executed: the plan is well formed, every
    result an operator reads was supplied with a table or is the output of exactly
    one operator, the plan's own result is such an output, and an operator that
    reads another one's result comes after it along the links.  When the plan is
    executed, in every later state of the scheduler an operator is dispatched only
    after the operators whose results it reads are complete, with all the tasks
    they have spawned. *)
Theorem planned_operators_ordered {order : SetOrder} GetTable get_name iterate_trees iterate_joins r :
  plannable GetTable r ->
  iterate_trees (select_predicates_ r) ≡ₚ map_to_list (select_predicates_ r) ->
  iterate_joins (join_predicates_ r) ≡ₚ map_to_list (join_predicates_ r) ->
  exists s plan, createPlan GetTable get_name iterate_trees iterate_joins r (mkResults ∅ 1) = Some (s, inr (Some plan)) /\
    plan_ok plan /\ (forall a b, reads plan a b -> tc (linked plan) a b) /\
    (forall a b oa ob, operators_ plan !! a = Some (Some oa) -> operators_ plan !! b = Some (Some ob) ->
       output (op_body oa) = output (op_body ob) -> a = b) /\
    (forall b ob x, operators_ plan !! b = Some (Some ob) -> x ∈ inputs (op_body ob) ->
       supplied s x \/ exists a oa, operators_ plan !! a = Some (Some oa) /\ output (op_body oa) = x) /\
    (exists a oa, operators_ plan !! a = Some (Some oa) /\ result_out_ plan = Some (output (op_body oa))) /\
    forall (y : Sys PlanOp) i w ctx final (tid := fun k => task_counter_ (sched y) + Z.of_nat k),
      reachable y -> workers_ (sched y) !! i = Some w -> current w = Some ctx -> has_scheduler ctx = true ->
      task_counter_ (sched y) + Z.of_nat (plan_size plan) < kContinuationMask ->
      continuation_counter_ (sched y) + Z.of_nat (plan_size plan) + 2 < 2 ^ 64 ->
      exists y' cont, rtc step y y' /\ execute final ctx plan (sched y) = Some (sched y') /\
        (forall k op, operators_ plan !! k = Some (Some op) -> exists t,
           held (sched y') t /\ task_id_ t = tid k /\ continuation_ t = cont k /\ body t = op_body op) /\
        (forall a b y'', reads plan a b -> rtc step y' y'' -> tid b ∈ dispatched y'' ->
           completed y'' (cont a) /\ tid a ∈ finished y'').
Proof.
  intros Hp Ht Hj.
  destruct (create_plan_built GetTable get_name iterate_joins r Hp Hj iterate_trees Ht)
    as (s & plan & sels & js & aggs & n1 & n2 & E & S & W & L & (y & Hy & Hin)).
  assert (forall a b, reads plan a b -> tc (linked plan) a b) as Hreads.
  { intros a b (oa & ob & Ha & Hb & Hab). apply (shape_lookup _ _ _ _ S) in Ha, Hb. by eapply layered_ordered. }
  assert (forall x, x ∈ (output <$> aggs ++ js ++ sels) -> exists a oa, operators_ plan !! a = Some (Some oa) /\ output (op_body oa) = x) as Hout.
  { intros x (b & -> & [i Hi]%list_elem_of_lookup)%list_elem_of_fmap. exists i, (mkOperator i 0 b).
    split; [| done]. by rewrite (sh_bodies _ _ S), list_lookup_imap, Hi. }
  exists s, plan. split_and!; [done | apply S | done | | | |].
  - intros a b oa ob Ha Hb Hab. apply (shape_lookup _ _ _ _ S) in Ha, Hb.
    eapply NoDup_lookup; [by eapply layered_nodup | |]; rewrite list_lookup_fmap, ?Ha, ?Hb; [done | cbn; by rewrite Hab].
  - intros b ob x Hb Hx. apply (shape_lookup _ _ _ _ S) in Hb. apply list_elem_of_lookup_2 in Hb.
    destruct (layered_filled _ _ _ _ _ _ _ _ L Hb Hx); [by left | right; auto].
  - destruct (Hout _ Hin) as (a & oa & Ha & <-). eauto.
  - intros y0 i w ctx final tid Hr Hw Hc Hs Htc Hcc.
    destruct (plan_execution_built y0 i w ctx plan final Hr Hw Hc Hs (sh_ok _ _ S) Htc Hcc) as (y' & cont & R & Ex & Hops & Hcont & Hlk & _ & _).
    exists y', cont. split_and!; [done | done | done |]. intros a b y'' Hab Hst Hb. pose proof (steps_reachable _ _ Hr R) as Hr'.
    pose proof (later_completed y' y'' _ _ Hr' Hst (Hlk a b (Hreads a b Hab)) Hb) as HC. split; [done |].
    assert (a < plan_size plan)%nat as Ha by (destruct Hab as (? & ? & Ha & _); by eapply lookup_lt_Some).
    apply HC; [apply plan_task_id; [done | lia] |]. by apply tc_once, (steps_edges _ _ Hst), Hcont.
Qed.

(** What the resolver promises is what the planner needs. *)
Theorem resolved_is_plannable GetTable get_name D ps r :
  dom (select_predicates_ r) = D -> set_Forall (fun t => is_Some (GetTable t)) D ->
  (forall t, join_predicates_ r !! t = last (base.filter (fun p => JoinsProof.rname get_name p = t) ps)) ->
  predicates_ r ≡ₚ ps -> ps <> [] -> Forall (JoinsProof.proper get_name) ps ->
  join_type_ r = Some STAR /\ (length (agg_references_ r) <= 1)%nat \/ join_type_ r = Some LINEAR /\ length (agg_references_ r) = 1%nat ->
  plannable GetTable r.
Proof.
  intros Hd HT Hj Hps Hne Hpr Hty. constructor.
  - intros t o Ht. apply HT. rewrite <- Hd. apply elem_of_dom. eauto.
  - destruct (last ps) as [p|] eqn:El; [| by apply last_None in El]. intros E. specialize (Hj (JoinsProof.rname get_name p)).
    rewrite E, lookup_empty in Hj. symmetry in Hj. apply last_None in Hj.
    assert (p ∈ base.filter (fun q => JoinsProof.rname get_name q = JoinsProof.rname get_name p) ps) as Hin.
    { apply list_elem_of_filter. split; [done |]. by apply last_Some_elem_of. }
    rewrite Hj in Hin. by apply elem_of_nil in Hin.
  - destruct Hty as [[_ ?] | [_ ->]]; [done | lia].
  - destruct Hty as [[? _] | [? ?]]; [by left | right]. split_and!; [done | done | |].
    + intros E. rewrite E in Hps. by apply Permutation_nil_l in Hps.
    + rewrite Hps. eapply Forall_impl; [exact Hpr |]. by intros p (? & ? & _).
Qed.

(** ** Concrete plans *)

(** A resolved join of [lineorder] and [date] with a sum. *)
Definition demo_predicate : JoinPredicate := mkJoinPredicate (mkColumnReference 1 "lo_orderdate") (mkColumnReference 2 "d_datekey").
Definition demo_sum : AggregateReference :=
  mkAggregateReference Agg.SUM "revenue" (mkColumnReference 1 "lo_revenue") Expression.Expr.NullExpr.
Definition demo_resolved : SelectResolver :=
  mkResolver (<["lineorder"%string := None]> (<["date"%string := None]> ∅)) {["date"%string := demo_predicate]} ∅ [demo_predicate]
    [demo_sum] [] [] [] true (Some STAR) 1.

Lemma demo_plannable : plannable demo_get_table demo_resolved.
Proof.
  constructor.
  - do 2 (apply map_Forall_insert_2; [by eexists |]). apply map_Forall_empty.
  - apply insert_non_empty.
  - cbn. lia.
  - by left.
Qed.

Lemma planned_operators_ordered_witness : exists s plan,
  createPlan demo_get_table demo_get_name map_to_list map_to_list demo_resolved (mkResults ∅ 1) = Some (s, inr (Some plan)) /\
  plan_ok plan /\ reads plan 1 0 /\ tc (linked plan) 1%nat 0%nat.
Proof.
  destruct (planned_operators_ordered (order := elements_order) demo_get_table demo_get_name map_to_list map_to_list demo_resolved
    demo_plannable (reflexivity _) (reflexivity _)) as (s & plan & E & Hok & Hr & _).
  exists s, plan. split_and!; [exact E | exact Hok | |].
  all: assert (reads plan 1 0) as H by (vm_compute in E; injection E as _ <-; eexists _, _; split; [reflexivity | split; [reflexivity | vm_compute; left]]).
  - exact H.
  - apply Hr, H.
Defined.

(** [resolveSelect] as SQLite calls it, on tables that are in the catalog. *)
Definition demo_info (name : string) (t : Z) : Cat.TableInfo := Cat.mkTableInfo (Cat.newTableSchema name) (Some t).
Definition chain_catalog : Cat.Catalog :=
  Cat.mkCatalog (<["a"%string := demo_info "a" 1]> (<["b"%string := demo_info "b" 2]>
    (<["c"%string := demo_info "c" 3]> (<["d"%string := demo_info "d" 4]> ∅)))) "" "".
Definition chain_name (t : Z) : string :=
  if t =? 1 then "a" else if t =? 2 then "b" else if t =? 3 then "c" else "d".

(** [FROM a, b, c, d WHERE a.k = b.k AND b.l = c.l AND c.m = d.m] *)
Definition chain_col (name : string) (cursor : Z) (i : nat) : WhereSpec.Col :=
  WhereSpec.mkCol (Sql.mkTable name ["k"; "l"; "m"; "v"]%string) cursor i.
Definition chain_where : Sql.Expr :=
  WhereSpec.where_expr (WhereSpec.JoinOn (chain_col "a" 0 0) (chain_col "b" 1 0))
    [WhereSpec.JoinOn (chain_col "b" 1 1) (chain_col "c" 2 1); WhereSpec.JoinOn (chain_col "c" 2 2) (chain_col "d" 3 2)].
Definition chain_query (results : list Sql.ExprListItem) : Sql.Sqlite3Select :=
  Sql.mkSelect results 0 (Some ((fun n => Sql.mkSrc n false false false 0) <$> ["a"; "b"; "c"; "d"]%string)) (Some chain_where) None false None false.

Definition column_item : Sql.ExprListItem := Sql.mkItem (WhereSpec.col_expr (chain_col "a" 0 3)) None 0 0.
Definition sum_item : Sql.ExprListItem :=
  Sql.mkItem (Sql.mkExpr Sql.TK_AGG_FUNCTION (Sql.zToken "sum") None None [WhereSpec.col_expr (chain_col "a" 0 3)] 0 0 None) (Some "s"%string) 0 0.

Definition chain_result (rows : Z -> Z) (results : list Sql.ExprListItem) : option (exn + Z * option Plan) :=
  resolveSelect chain_name rows map_to_list map_to_list map_to_list (Some chain_catalog) (chain_query results).

(** The joins of a plan: the addresses they read, the tables of the predicate. *)
Definition join_tables (o : option (exn + Z * option Plan)) : list (list Z * Z * Z) :=
  match o with
  | Some (inr (_, Some p)) =>
      omap (fun o => match op_body <$> o with
                     | Some (HashJoinOp l r _ pr) => Some ([l; r], cr_table (left_col_ pr), cr_table (right_col_ pr))
                     | _ => None
                     end) (operators_ p)
  | _ => []
  end.

(** A chain of four tables with an aggregate is planned as three hash joins. *)
Example chain_with_aggregate : exists p, chain_result (fun t => 100 - t) [sum_item] = Some (inr (1, Some p)) /\ plan_size p = 7%nat.
Proof. eexists. split; vm_compute; reflexivity. Qed.

(** Without an aggregate the [assert] of [createPlan] fails: the plan has no
    result, and there is more than one table. *)
Theorem chain_without_aggregate_fails : chain_result (fun t => 100 - t) [column_item] = None.
Proof. vm_compute. reflexivity. Qed.

(** The joins of a chain read the previous join on their left, whatever the left
    table of the predicate is.  Here [d] (4) is the largest table and the walk
    starts with it: the first join is of [d] and [c] (3), the predicate of the
    second has [b] (2) on its left and [c] on its right, and the results it reads
    are those of the first join (9) and of [c] (2), where there is no [b]. *)
Theorem chain_join_misses_table :
  join_tables (chain_result (fun t => if t =? 4 then 100 else 50 - t) [sum_item]) = [([8; 2], 4, 3); ([9; 2], 2, 3); ([10; 6], 1, 2)].
Proof. vm_compute. reflexivity. Qed.

(** A selection on a table that is on the left of several joins is built with an
    empty join column, for which a block has no values. *)
Theorem fact_selection_without_column GetTable name t tree jm acc s :
  GetTable name = Some t -> jm !! name = None -> (1 < size jm)%nat ->
  exists s' sel, build_select GetTable jm [(name, Some tree)] acc s = Some (s', inr (Some sel)) /\
    last (select_operators sel) =
    Some (SelectBuildHashOp t (next_result s) (next_result s + 1) (Some tree) (mkColumnReference Agg.nullptr EmptyString)).
Proof.
  intros Ht Hj Hs. unfold build_select, mbind, StM_bind. cbn -[Nat.ltb]. rewrite Ht, (proj2 (Nat.ltb_lt _ _) Hs).
  rewrite bool_decide_eq_false_2 by (by rewrite Hj; intros [? ?]). cbn. eexists _, _. split; [done |]. cbn.
  unfold join_column. rewrite Hj. apply last_snoc.
Qed.
