(* ===== verification/Database.v ===== *)
(** * The log, the catalog and the tables together

    [MemLog.v] proves the log against the interface [Storage].  Here the interface
    is discharged: the storage of a process is its catalogs ([Catalog.v],
    api/hustle_db.cc) and the tables in memory ([Table.v]).  An exception that
    leaves a method of a table would pass through the C code of SQLite and is
    counted as undefined.  The theorem composes the two: rows that SQLite logs
    and commits can be read from the columns. *)

From Stdlib Require Import ZArith Lia.
From stdpp Require Import base numbers list gmap option strings.
Import stdpp.list_basics.list stdpp.list_relations.list stdpp.list_monad.list.
From S2P Require Import Prelude RecordUtils MemLog BitUtils Block Table Catalog.
Import Log Spec Repr System Header Blocks BlockProof Tables TableProof.

Local Open Scope Z_scope.

Module Db.

Record Database := mkDatabase { catalogs : gmap string Cat.Catalog; tables : gmap Z DBTable }.

Section WithArrow.
Context {Arrow : ArrowBuffers} {Begin : MapBegin}.

(** A method of the table at address [a]. *)
Definition on_table (a : Z) (m : StM DBTable unit) (d : Database) : option Database :=
  t ← tables d !! a;
  '(t', r) ← m t;
  match r with
  | inl _ => None
  | inr _ => Some (mkDatabase (catalogs d) (<[a := t']> (tables d)))
  end.

(** [updateMetaInfo\[0 .. n - 1\]]; an array shorter than its count is counted as
    undefined at once, also where the row is missing and the code reads nothing. *)
Definition meta_infos (n : Z) (info : option (list UpdateMetaInfo)) : option (list UpdateMetaInfo) :=
  if n <=? 0 then Some []
  else
    l ← info;
    if Z.of_nat (length l) <? n then None else Some (take (Z.to_nat n) l).

#[export] Instance database_storage : Storage Database Z := {
  GetTable db name d := c ← catalogs d !! db; Some (Cat.GetTable c name);
  DropMemTable db name d :=
    c ← catalogs d !! db;
    let '(_, c', _) := Cat.DropMemTable c name in
    Some (mkDatabase (<[db := c']> (catalogs d)) (tables d));
  DeleteRecordTable a row d := on_table a (Tables.DeleteRecordTable row) d;
  InsertRecordTable a row record widths d := on_table a (Tables.InsertRecordTable row record widths) d;
  UpdateRecordTable a row n info record widths d :=
    infos ← meta_infos n info;
    on_table a (Tables.UpdateRecordTable row infos record widths) d
}.

(** ** Commits of one table *)

(** A record of SQLite: the row id, the serial types, the length of the header
    and the values. *)
Record SqliteRow := mkSqliteRow { sr_id : Z; sr_types : list Z; sr_header : Z; sr_body : list Z }.

Definition row_bytes (r : SqliteRow) : list Z := encode_header (sr_header r) (sr_types r) ++ sr_body r.

(** What SQLite logs for an insertion into the table with root page [root]. *)
Definition log_insert (root : nat) (r : SqliteRow) : Op :=
  OpRecord MEMLOG_HUSTLE_INSERT (sr_id r) (Some (row_bytes r)) (Z.of_nat (length (row_bytes r))) root.

Definition sqlite_row_ok (r : SqliteRow) : Prop :=
  Forall (is_u 32) (sr_types r) /\ Forall is_byte (sr_body r) /\
  sr_header r = Z.of_nat (length (encode_header (sr_header r) (sr_types r))) /\ sr_header r < 2 ^ 32.

(** The insertion as the table sees it. *)
Definition table_row (r : SqliteRow) : Z * (list Z * list Z) := (to_u32 (sr_id r), (sr_body r, map width_of (sr_types r))).
Definition row_entry (r : SqliteRow) : Entry := mkEntry MEMLOG_HUSTLE_INSERT (sr_id r) (row_bytes r) 0 None.

End WithArrow.
End Db.

Import Db.

Module DbProof.

Section WithArrow.
Context {Arrow : ArrowBuffers} {Begin : MapBegin}.

Lemma insert_entry r a d : sqlite_row_ok r ->
  apply_entry a (row_entry r) d = on_table a (Tables.InsertRecordTable (to_u32 (sr_id r)) (sr_body r) (map width_of (sr_types r))) d.
Proof.
  intros (Ht & Hb & Hh & Hm). destruct (parse_encoded _ _ _ Ht Hb Hh Hm) as [Ep Ed].
  unfold apply_entry, row_entry, row_bytes. cbn [e_mode e_bytes e_rowId]. rewrite Ep. cbn [mbind option_bind]. by rewrite Ed.
Qed.

(** Replaying the entries inserts the rows. *)
Lemma replay_rows a rs : forall d t t', Forall sqlite_row_ok rs -> tables d !! a = Some t ->
  insert_rows (table_row <$> rs) t = Some (t', inr tt) ->
  replay Datatypes.id a (row_entry <$> rs) d = Some (mkDatabase (catalogs d) (<[a := t']> (tables d))).
Proof.
  induction rs as [|r rs IH]; intros d t t' Hok Ht E.
  - cbn in E. injection E as <-. cbn. rewrite insert_id by done. by destruct d.
  - apply Forall_cons_1 in Hok as [Hr Hok]. change (table_row <$> r :: rs) with (table_row r :: (table_row <$> rs)) in E.
    change (row_entry <$> r :: rs) with (row_entry r :: (row_entry <$> rs)). cbn [insert_rows table_row] in E. unfold mbind, StM_bind in E.
    destruct (Tables.InsertRecordTable (to_u32 (sr_id r)) (sr_body r) (map width_of (sr_types r)) t) as [[t1 [e | []]]|] eqn:E1; [done | | done].
    cbn [replay]. change (Datatypes.id (row_entry r)) with (row_entry r). rewrite (insert_entry r a d Hr). unfold on_table. rewrite Ht. cbn [mbind option_bind].
    rewrite E1. cbn [mbind option_bind].
    rewrite (IH (mkDatabase (catalogs d) (<[a := t1]> (tables d))) t1 t' Hok); [| cbn; by rewrite lookup_insert_eq | done].
    cbn. by rewrite insert_insert_eq.
Qed.

(** ** The log of one table *)

(** Only the list of [root] has entries. *)
Definition only (root : nat) (es : list Entry) (log : list (list Entry)) : Prop :=
  (forall j l, log !! j = Some l -> l = if decide (j = root) then es else []) /\ (es <> [] -> (root < length log)%nat) /\ (0 < length log)%nat.

Lemma only_append root es log e : only root es log -> only root (es ++ [e]) (append root e log).
Proof.
  intros (Hl & Hes & Hpos). unfold append.
  set (log' := if decide (root < length log)%nat then log else log ++ replicate (2 * root - length log) []).
  assert ((root < length log')%nat /\ forall j l, log' !! j = Some l -> l = if decide (j = root) then es else []) as [Hlen Hl'].
  { unfold log'. case_decide as Hd; [done |]. assert (es = []) as -> by (destruct es; [done | exfalso; by apply Hd, Hes]).
    split; [rewrite length_app, length_replicate; lia |]. intros j l [Hj | [_ Hj]]%lookup_app_Some; [by apply Hl |].
    apply lookup_replicate in Hj as [-> _]. by case_decide. }
  split_and!.
  - intros j l Hj. case_decide as Hd.
    + subst j. rewrite list_lookup_alter_eq in Hj. destruct (log' !! root) as [l0|] eqn:E0; [| done]. injection Hj as <-.
      rewrite (Hl' _ _ E0). by rewrite decide_True.
    + rewrite list_lookup_alter_ne in Hj by done. rewrite (Hl' _ _ Hj). by rewrite decide_False.
  - intros _. by rewrite length_alter.
  - rewrite length_alter. lia.
Qed.

(** The entries after logging [rs]. *)
Lemma logged root db tm (d : Database) rs : forall es log, only root es log ->
  exists log', run (spec_step db) (log_insert root <$> rs) (mkSpec log tm d) = Some (mkSpec log' tm d) /\
    only root (es ++ (row_entry <$> rs)) log'.
Proof.
  induction rs as [|r rs IH]; intros es log Ho.
  - exists log. cbn. by rewrite app_nil_r.
  - destruct (IH (es ++ [row_entry r]) _ (only_append root es log (row_entry r) Ho)) as (log' & E & Ho').
    exists log'. rewrite <- app_assoc in Ho'. split; [| exact Ho']. change (log_insert root <$> r :: rs) with (log_insert root r :: (log_insert root <$> rs)). cbn [run].
    assert (spec_step db (log_insert root r) (mkSpec log tm d) = Some (mkSpec (append root (row_entry r) log) tm d)) as ->.
    { cbn. unfold memcpy_from. rewrite (proj2 (Z.ltb_ge _ _)), (proj2 (Z.leb_le _ _)) by lia.
      cbn. by rewrite Nat2Z.id, firstn_all. }
    exact E.
Qed.

(** A commit touches nothing when no list is mapped, ... *)
Lemma commit_none tm db root name (d : Database) (log : list (list Entry)) : forall i,
  sub_map DEFAULT_DB_ID tm = [(Z.of_nat root, name)] -> (root < i)%nat -> commit Datatypes.id tm db i log d = Some (log, d).
Proof.
  induction log as [|es log IH]; intros i Hm Hi; [done |]. cbn [commit]. unfold commit_table. rewrite Hm. cbn [map_find].
  rewrite (proj2 (Z.eqb_neq _ _)) by lia. cbn [mbind option_bind]. by rewrite IH by (done || lia).
Qed.

(** ... and replays the list of the mapped table. *)
Lemma commit_one tm db root name es a d d' (log : list (list Entry)) : forall i,
  sub_map DEFAULT_DB_ID tm = [(Z.of_nat root, name)] -> GetTable db name d = Some (Some a) -> replay Datatypes.id a es d = Some d' ->
  (i <= root)%nat -> (forall j l, log !! j = Some l -> (i + j)%nat = root -> l = es) -> (es <> [] -> (root < i + length log)%nat) ->
  exists log', commit Datatypes.id tm db i log d = Some (log', d').
Proof.
  induction log as [|l log IH]; intros i Hm Hg Hr Hi Hl Hes.
  - assert (es = []) as -> by (destruct es; [done | exfalso; cbn in Hes; pose proof (Hes ltac:(done)); lia]).
    cbn in Hr. injection Hr as <-. by eexists.
  - cbn [commit]. unfold commit_table. rewrite Hm. cbn [map_find]. destruct (Z.eqb_spec (Z.of_nat i) (Z.of_nat root)) as [E|Hne].
    + assert (l = es) as -> by (apply (Hl 0%nat); [done | lia]). rewrite Hg. cbn [mbind option_bind]. rewrite Hr. cbn [mbind option_bind].
      rewrite (commit_none tm db root name d') by (done || lia). by eexists.
    + cbn [mbind option_bind]. destruct (IH (i + 1)%nat Hm Hg Hr) as [log' ->]; [lia | | | by eexists].
      * intros j l' Hj Hij. apply (Hl (S j)); [done | lia].
      * intros Hne'. specialize (Hes Hne'). cbn in Hes. lia.
Qed.

Lemma run_app {A} (step : Op -> A -> option A) ops ops' st : run step (ops ++ ops') st = st' ← run step ops st; run step ops' st'.
Proof.
  revert st. induction ops as [|op ops IH]; intros st; [done |]. cbn [app run]. destruct (step op st) as [st1|]; [apply IH | done].
Qed.

(** The specification's run: the table map gets the table, the log the rows, and
    the commit replays them. *)
Lemma spec_run db name root n rows a d d' :
  (0 < n)%nat -> GetTable db name d = Some (Some a) -> replay Datatypes.id a (row_entry <$> rows) d = Some d' ->
  exists sp, run (spec_step db) (OpAddTable (Z.of_nat root) name :: (log_insert root <$> rows) ++ [OpCommit true])
               (mkSpec (replicate n []) ∅ d) = Some sp /\ s_storage sp = d'.
Proof.
  intros Hn Hg Hr. cbn [run]. set (tm := memlog_add_table_mapping DEFAULT_DB_ID (Z.of_nat root) name ∅).
  change (spec_step db (OpAddTable (Z.of_nat root) name) (mkSpec (replicate n []) ∅ d)) with (Some (mkSpec (replicate n []) tm d)).
  cbn [mbind option_bind]. rewrite run_app.
  destruct (logged root db tm d rows [] (replicate n [])) as (log & E & Ho & Hes & _).
  { split_and!; [| done | by rewrite length_replicate]. intros j l [-> _]%lookup_replicate. by case_decide. }
  rewrite E. cbn [mbind option_bind run spec_step].
  assert (sub_map DEFAULT_DB_ID tm = [(Z.of_nat root, name)]) as Hm by (unfold tm, sub_map, memlog_add_table_mapping; by rewrite lookup_insert_eq).
  destruct (commit_one tm db root name _ a d d' log 0%nat Hm Hg Hr) as [log' ->]; [lia | | done | by eexists].
  intros j l Hj Ej. rewrite (Ho j l Hj). by rewrite decide_True by lia.
Qed.

End WithArrow.
End DbProof.

Import DbProof.

(** C8: What SQLite commits can be read from the columns: when SQLite logs any
    insertions of records in its format into a table and commits, the pointer
    structure of the log, the decoding of the record headers and the table work
    together so that every row id leads to the block and row that hold its last
    record, valid and with every cell readable (a record wider than a whole block
    excepted), and the table has counted every insertion. *)
Theorem committed_rows_read_back {Arrow : ArrowBuffers} {Begin : MapBegin}
    (types : list DataType) (cap : Z) (meta : bool) (junk : DBRecordList) (db name : string) (root n : nat)
    (rows : list SqliteRow) (a : Z) (cat : Cat.Catalog) (d : Database) :
  schema_ok types cap -> Forall sqlite_row_ok rows ->
  Forall (fun r => table_record_ok types (map width_of (sr_types r)) (sr_body r)) rows ->
  2 * Z.of_nat (length rows) < 2 ^ 31 -> (0 < n)%nat -> 2 * Z.of_nat root <= INT_MAX -> Z.of_nat (length rows) + 2 <= INT_MAX ->
  catalogs d !! db = Some cat -> Cat.GetTable cat name = Some a ->
  exists ml t0 st t,
    hustle_memlog_initialize junk db (Z.of_nat n) = Some (MEMLOG_OK, Some ml) /\ newDBTable types cap meta = Some (inr t0) /\
    run (impl_step junk db) (OpAddTable (Z.of_nat root) name :: (log_insert root <$> rows) ++ [OpCommit true])
      (mkImpl (Some ml) empty_heap ∅ (mkDatabase (catalogs d) (<[a := t0]> (tables d)))) = Some st /\
    tables (i_storage st) !! a = Some t /\ t_num_rows t = Z.of_nat (length rows) /\
    reads_back types cap t (latest (table_row <$> rows) ∅).
Proof.
  intros HS Hsq Hok Hlen Hn Hroot Hmax Hcat Hget.
  destruct (insert_rows_reads_back types cap meta (table_row <$> rows) HS) as (t0 & t & E0 & Ei & Hnum & Hrb);
    [by apply Forall_fmap | by rewrite length_fmap |]. rewrite length_fmap in Hnum.
  destruct (initialize_ok junk db (Z.of_nat n) empty_heap) as (ml & Eml & Hlog & Hdb); [lia |]. rewrite Nat2Z.id in Hlog.
  set (d0 := mkDatabase (catalogs d) (<[a := t0]> (tables d))).
  pose proof (replay_rows a rows d0 t0 t Hsq (lookup_insert_eq _ _ _) Ei) as Er.
  destruct (spec_run db name root n rows a d0 (mkDatabase (catalogs d0) (<[a := t]> (tables d0))) Hn) as (sp & Es & Hst);
    [cbn; rewrite Hcat; cbn; by rewrite Hget | exact Er |].
  pose proof (sim_run junk db True (OpAddTable (Z.of_nat root) name :: (log_insert root <$> rows) ++ [OpCommit true]) 0 _ _
    (related_init db n d0 ml True Hn Hlog Hdb)) as Hsim. rewrite Es in Hsim.
  destruct Hsim as (st & Erun & ml' & nss & _ & _ & _ & _ & _ & _ & _ & _ & _ & Hstore).
  - constructor; [done |]. apply Forall_app. split; [| by repeat constructor]. apply Forall_fmap, Forall_true. intros r. exact Hroot.
  - intros _. constructor; [done |]. apply Forall_app. split; [| by repeat constructor]. apply Forall_fmap, Forall_true. done.
  - cbn [length Nat.add]. rewrite length_app, length_fmap. cbn [length]. lia.
  - exists ml, t0, st, t. split_and!; [done | done | exact Erun | | done | done].
    rewrite Hstore, Hst. cbn. by rewrite lookup_insert_eq.
Qed.

Import FirstKey RoundUp.

Definition demo_rows : list SqliteRow :=
  [mkSqliteRow 7 [1; 17] 3 [5; 65; 66]; mkSqliteRow 8 [1; 15] 3 [6; 67]; mkSqliteRow 7 [1; 15] 3 [9; 68]].
Definition demo_db : Database :=
  mkDatabase {["db"%string := Cat.mkCatalog {["t"%string := Cat.mkTableInfo (Cat.newTableSchema "t") (Some 1)]} "" ""]} ∅.

Lemma demo_row_ok id t1 t2 body : is_u 32 t1 -> is_u 32 t2 -> Forall is_byte body -> 3 = Z.of_nat (length (encode_header 3 [t1; t2])) ->
  sqlite_row_ok (mkSqliteRow id [t1; t2] 3 body).
Proof. intros. split_and!; [by apply Forall_cons_2; [| apply Forall_cons_2; [| apply Forall_nil_2]] | done | done | done]. Qed.

Lemma demo_rows_ok : Forall sqlite_row_ok demo_rows.
Proof.
  unfold demo_rows.
  repeat (apply Forall_cons; split; [apply demo_row_ok; [unfold is_u; lia | unfold is_u; lia |
    repeat (apply Forall_cons; split; [unfold is_byte; lia |]); by apply Forall_nil | reflexivity] |]).
  by apply Forall_nil.
Qed.

Lemma committed_rows_read_back_witness : exists ml t0 st t info a b,
  hustle_memlog_initialize empty_slot "db" 1 = Some (MEMLOG_OK, Some ml) /\ newDBTable [NumberType 8; StringType] 40 true = Some (inr t0) /\
  run (impl_step empty_slot "db") (OpAddTable 2 "t" :: (log_insert 2 <$> demo_rows) ++ [OpCommit true])
    (mkImpl (Some ml) empty_heap ∅ (mkDatabase (catalogs demo_db) (<[1 := t0]> (tables demo_db)))) = Some st /\
  tables (i_storage st) !! 1 = Some t /\ t_num_rows t = 3 /\
  block_map t !! 7 = Some info /\ blocks t !! block_id info = Some a /\ heap t !! a = Some b /\
  read_cell 0 (row_num info) b = Some [9; 0; 0; 0; 0; 0; 0; 0] /\ read_cell 1 (row_num info) b = Some [68].
Proof.
  destruct (committed_rows_read_back [NumberType 8; StringType] 40 true empty_slot "db" "t" 2 1 demo_rows 1
    (Cat.mkCatalog {["t"%string := Cat.mkTableInfo (Cat.newTableSchema "t") (Some 1)]} "" "") demo_db)
    as (ml & t0 & st & t & Eml & E0 & Erun & Et & Hn & HR).
  - split_and!; [repeat (apply Forall_cons_2; [cbn; (lia || done) |]); constructor | done | vm_compute; done | vm_compute; done].
  - exact demo_rows_ok.
  - repeat (apply Forall_cons_2; [split; [split; [repeat (apply Forall2_cons_2; [vm_compute; (split; congruence) || done |]); constructor |
      vm_compute; split; [intros [=] | reflexivity]] | vm_compute; reflexivity] |]); constructor.
  - vm_compute. done.
  - lia.
  - vm_compute. congruence.
  - vm_compute. congruence.
  - reflexivity.
  - reflexivity.
  - destruct (HR 7) as (info & E7 & a & b & Ea & Eb & _ & HC). exists ml, t0, st, t, info, a, b.
    split_and!; [exact Eml | exact E0 | exact Erun | exact Et | exact Hn | exact E7 | exact Ea | exact Eb | by apply HC | by apply HC].
Defined.
